(* ===== verification/_CoqProject ===== *)
-Q . S2P
Prelude.v
Protocol.v
Policy.v
PolicyFacts.v
Sql.v
Store.v
StoreSteps.v
StoreInv.v
StoreFacts.v
StoreDelete.v
StoreLife.v
Core.v
CoreCalls.v
CoreStatus.v
CoreFacts.v
CoreText.v
Rotation.v
Routing.v
RoutingFacts.v
Transcript.v
TranscriptFacts.v
Text.v
Files.v
FilesFacts.v
ToolArgs.v
LocalApi.v
ToolText.v
ToolTextFacts.v
Tools.v
PatchFacts.v
ToolGit.v
ToolCommand.v
ToolSearch.v
ToolGate.v
ToolGateFacts.v
ToolSearchFacts.v
ToolWalkFacts.v
Compression.v
Context.v
Mcp.v
Secrets.v
SecretRefs.v
SecretFacts.v
SecretRefFacts.v
StoreRedact.v
StoreReport.v
Rows.v
ProviderWire.v
ProviderConfig.v
ProviderStream.v
ProviderStreamFacts.v
ProviderWireFacts.v
ProviderConfigFacts.v
ProviderDsml.v
RequestLogs.v
Images.v
ImagesFacts.v
History.v
HistoryFacts.v
EchoGuard.v
AgentCalls.v
ContextTools.v
AgentCallsFacts.v
Vision.v
Agent.v
AgentRequests.v
AgentTools.v
AgentTurn.v
AgentSession.v
AgentSteps.v
TurnSteps.v
AgentFacts.v
ChatEnds.v
ToolLoopFacts.v
AgentDemo.v
Server.v
Relay.v
Projects.v
Desktop.v
Browser.v
