(* ===== verification/Prelude.v ===== *)
(** * Verification of XCoding

    XCoding is a coding agent: a front end (VS Code, desktop) talks over
    JSON-RPC to a runtime that keeps chat sessions in SQLite, calls a model and
    runs the tools the model asks for, some of them only after the user has
    approved.  This library models the crates that decide what may run, what is
    remembered and what leaves the machine, up to a whole chat of the agent, the
    JSON-RPC server in front of them and the parts of the desktop application that
    keep state of their own, and proves what they promise.

    ** The program and its models

    - [crates/xcoding-protocol]: the records and enumerations that the other
      crates exchange.  File [Protocol].
    - [crates/xcoding-policy]: pure functions that classify a command line
      ([assess_command_with_lists]) and decide with it and the permission mode
      whether a tool runs, asks or is refused ([evaluate_detailed]), and the
      workspace allowlist and denylist files.  Files [Policy] and [PolicyFacts].
    - [crates/xcoding-store]: [SessionStore], one SQLite connection and a
      directory of attachment files.  [Sql] holds the statements and the
      environment, [Store] the tables of [migrate] and the operations,
      [StoreSteps] the statements as a transition system, [StoreInv] the
      invariants of every reachable store, [StoreFacts], [StoreDelete] and
      [StoreLife] the behaviour of the operations.  [Rows] has the columns of each
      table, the functions that write and read them and the upgrades of an old
      schema, [StoreRedact] the redaction of what is stored already, and
      [StoreReport] the report on model calls.
    - [crates/xcoding-core]: [CoreService], the chat lifecycle over the store.
      [Core] holds the operations, [CoreCalls] the service as a client of the
      store, [CoreStatus] the session state machine, [CoreFacts] cancellation and
      approval, [CoreText] change counts, titles and the workspace configuration.
    - [crates/xcoding-core] and [crates/xcoding-server], JSON-RPC: [dispatch] with
      its error codes, and the server's loop over the lines of its input with the
      requests that run the agent.  File [Server].
    - [crates/xcoding-tools]: the tools and the gate in front of them, over a
      model of the file system and of processes.  [Text] has the methods of [str],
      [Files] paths, the tree of files and the started processes, [ToolArgs] the
      calls and results, [LocalApi] the recognizer of requests to the same
      machine, [ToolText] the functions on text, [Tools] the registry and the
      tools that read and change files, [ToolGit], [ToolCommand] and [ToolSearch]
      git, commands and search, [ToolGate] the dispatch.  Theorems are in
      [FilesFacts], [LocalApi], [ToolTextFacts], [PatchFacts], [ToolGateFacts],
      [ToolSearchFacts] and [ToolWalkFacts].
    - [crates/xcoding-context]: the compression of tool output
      ([Compression]) and the rules, skills, sketch and system prompt of a workspace
      ([Context]).
    - [crates/xcoding-mcp]: the configuration, names and sessions of MCP servers.
      File [Mcp].
    - [crates/xcoding-providers]: the bodies of requests ([ProviderWire]), the
      decoding of streams ([ProviderStream]), the recovery of tool calls that leak
      into the text ([ProviderDsml]) and the normal form of the settings
      ([ProviderConfig]), with files of theorems beside them, and the log of the
      requests ([RequestLogs]).
    - [crates/xcoding-agent], the parts of a request: the rotation ([Rotation]),
      the errors of an attempt, the health of keys, the circuit breaker, the
      candidates and the status views ([Routing]), trimming and repair of the messages ([Transcript]),
      secrets and their references ([Secrets], [SecretRefs]), images ([Images],
      [Vision]), the stored history and its compaction ([History]), the guard on
      echoed tool output ([EchoGuard]), the codec of tool calls, the offered tools
      and the texts of the prompt ([AgentCalls]), and the tools on history and
      notes ([ContextTools]).
    - [crates/xcoding-agent], the turn: [Agent] holds the state and the monad,
      [AgentRequests] an attempt with its stream and the requests beside it,
      [AgentTools] the execution and recording of one call, [AgentTurn] the loops
      over attempts, candidates, rounds and calls, [AgentSession] the entry points
      [chat], [resolve] and [rollback].  [AgentSteps] and
      [TurnSteps] show that all of it is a sequence of steps of a few kinds, and
      [AgentFacts], [ChatEnds] and [ToolLoopFacts] draw the conclusions.  [AgentDemo] evaluates whole chats.
    - [apps/desktop], the part of it that keeps state: the relay through which
      other programs use the active provider ([Relay], with the gates of
      [xcoding-agent] that it passes), the folders of projects ([Projects]), the
      commands that list projects and save the settings ([Desktop]), and the
      registry of web pages and the saved passwords ([Browser]).

    The core service calls the store for every change it makes and the policy
    crate to normalize and render the command lists.  A turn of the agent calls
    the core service for what it records, the routing before each round, the
    transcript, image, history and secret operations before each request, the
    provider crate for its stream, and the gate of the tools, with the policy
    behind it, for each call.  The server decodes a line and calls the core service
    or the agent.  The relay shares the routing tables with the agent; the list of
    projects deletes sessions through the core service; saving the settings starts
    and stops the relay.

    ** State and effects

    A store operation has type [M A]: a function of the [SessionStore] (the
    tables, the attachment files, the number of draws made from the
    environment) that returns a [Result] and the store after it, also on an
    error, because a statement outside a transaction commits at once;
    [transaction] restores the tables on an error.  A core operation has type
    [C A] over [CoreService]: the store, the cancel probe that the source
    shares with running tools, and the command list files.  A routing operation
    has type [R A] over [Runtime], the process-local tables of the agent, and
    cannot fail.  A tool has type [T A] over [World]: the tree of files, the
    started processes, and the working state of the registry.  A turn has type
    [G A] over [AgentState]: the core service, the world, the
    tables of the process, the events and the requests it has sent; it returns a
    value, an error, a panic, or the end of the fuel.  A table of the store is
    the list of its rows in rowid order, and a row holds decoded columns.
    Functions, types, fields and constructors keep the names of the source,
    fields with a prefix of their record; a core operation whose name the store
    has too is prefixed [core_].

    ** Other clients

    The source shares the core service behind a lock between the agent and the
    front end.  In the model, other clients make any number of public calls of the
    service before each access of the turn to it; a theorem on chats that names no
    restriction on them holds whatever they do.  The arms of [select!] (the next
    part of a stream, its time limit, a cancellation) are chosen by the
    environment.

    ** What is a parameter

    Code outside the repository, or that does not decide anything here, is a
    member of a class, and nothing is assumed of it but what a named class states.
    - [Env] (file [Sql]): the identifiers of [Uuid::new_v4], the readings of
      [Utc::now], the text of an identifier, SQLite's [LIKE], and whether the
      SQLite build enforces foreign keys.  [EnvOk] assumes fresh identifiers and a
      clock that does not go back, [LikeOk] the documented meaning of [LIKE] with
      an escape character.  [counter_env] is an instance of all of them.
    - [Clock] and [Stopwatch]: the readings of [Instant::now].
    - [JsonText], [JsonParse], [JsonPretty], [Serde], [McpFile], [StreamCodec],
      [RpcCodec], [EventText], [StoreFile]: the printer and the parser of [serde_json]
      and what [serde] derives.  [ColumnCodec] holds those of the columns, with the
      texts of identifiers and times; [ColumnCodecOk] and [StoreFileOk] state that
      what was printed is read back.
    - [Disk], with [DiskOk], and [Home], [IoText]: the refusals of the operating system, the
      order of a directory (a permutation), the user's directory, the text of an
      error.  [Git] and [Child], with [ChildOk]: what git and a child process do,
      and that a sleep lasts as long as asked.  [Peer], with [PeerOk]: what an MCP
      server writes, and that the time limit of a request passes.
    - [LogOutside], [UrlCodec], [DateParse], [HeaderValues]: the faults of the log's
      disk, the parser of addresses, the dates of a query, and the texts that HTTP
      accepts as a header.  [Upstream] and [Loopback]: the answers of a provider to
      the relay and the port that it binds.  [ConfigFile]: the file of the settings.
      [Process]: the directory and the clock of the application.  [WebUrl],
      [Dpapi]: the parser of addresses and the encryption of the system, which
      [DpapiOk] lets decrypt what it encrypted.  [PinyinTable]: the spelling of
      Chinese characters, which by [PinyinOk] has no character that a name of a
      folder cannot have.
    - [UnicodeCase], [UuidParse], [TimeText], [DateText], [ErrorTexts], [HashStrings], [HashChars]: lower
      case beyond ASCII, the parsing and printing of identifiers and times, the
      texts of errors, and hash functions.
    - [Outside] (file [Agent]): the answers of the providers, the configuration on
      disk, and the calls of the other clients.
    A [reqwest::Error] is the record of the answers that the code asks it for.

    ** The theorems

    - Policy: the shape of every assessment; a command that runs without
      approval matches no denylist pattern, has no shell metacharacter in its
      arguments and is neither destructive nor high risk; outside full-auto mode
      only an allowlisted command runs unattended; the lists of a workspace cannot
      unlock what the policy refuses; the scan of shell wrappers finds a delete
      command exactly where one stands in command position.
    - Store, over all sequences of public calls on a new store: keys are unique,
      references resolve, context windows grow, a decided approval is final.
      These are proved once per statement, by induction on [dstep]; [runs_<op>]
      shows that an operation is a sequence of statements.  Per operation: a
      message is read back in full; the pages of a history are the history; search
      is substring search; deletion equals the abstract [erase_session]; restart
      leaves nothing active; retention removes the expired events only.  A row that
      was written is read back as it was ([tables_read_back]); a redaction of the
      store replaces every text or nothing ([redaction_applies],
      [redaction_rolls_back]); the report counts the calls that there are
      ([report_counts]).
    - Core: every service call is a sequence of store calls ([follows]), so the
      store's invariants hold under the service; [transition] gives for every
      call the moves of a session's status that it may make; cancelling stops
      the session, rejects its pending approvals and marks the probe; an
      approval is decided once.
    - JSON-RPC: every request is answered under its identifier with a code that
      says what was wrong ([dispatch_error_codes]), and every line by one response
      ([server_answers_lines]).
    - Tools: a patch changes files of the workspace only and leaves each with its
      old or new text after any failure; a rollback restores the tree; a refused
      call has no effect; processes are started for commands that the policy does
      not deny, inside the workspace; git is handed no option by the model; a
      search ends, returns matching lines, and all of them unless it says that it
      was cut; waiting for a process ends.
    - Context and MCP: a compressed output accounts for every line and names its
      original; the sketch stays in its limits; a request to an MCP server ends
      and returns the answer to itself.
    - Providers: the chunks in which a stream arrives do not matter, and the loops
      equal one pass over the lines; the turns of an Anthropic request alternate;
      a normalized configuration is well formed; a recovered call is one that was
      offered; no row of the request log holds the key ([request_log_hides_key]).
    - Routing and transcript: candidates stay within the trust level of the active
      provider; whole cycles of the rotation serve every entry in proportion to
      its weight; the circuit breaker opens, probes and closes as configured;
      repair keeps exactly the results of open calls; a prepared request fits its
      budget; a compaction removes the least that makes room.
    - Secrets and echoes: a request for a relay holds no text that the scanner
      flags and no value of a known secret; references resolve to what they stand
      for; the echo guard decides alike however an answer is cut.
    - Turn: [walks] gives the steps of a turn, and a rule of induction over them.
      From it, a chat is a client of its one session beside the others
      ([chat_is_client]); in ask mode it starts nothing but git and changes
      only files that the policy lets it change ([ask_chat_is_cautious]); every
      request to a relay is the copy made for it ([chat_keeps_secrets]);
      [resolve] runs what was approved and nothing else ([resolve_runs_approved]).
      Every call of an answer gets its result, in order, up to the first that waits
      for the user ([every_call_answered]).  The attempts at a provider end when
      it does not go on refusing images that are not sent ([attempts_end]), and
      when they do, so does the chat ([chat_ends]).
    - Desktop: what the relay sends on was sent by a client with the local key, goes
      to the provider with its credential, and carries nothing else of the client
      ([relay_forwards_authorized]); listing the projects deletes the sessions of
      missing folders only ([list_projects_cleans]); the copy of an imported folder ends and is
      the tree of its source ([folder_copied]); at most six pages are live
      ([pages_within_budget]); a saved password is revealed again
      ([saved_password_revealed]).
    - Some theorems describe behaviour that the source does not seem to intend:
      in the policy [rm_split_flags_not_denied], [double_extension_bypass] and
      [normalization_not_idempotent]; in the store and the core
      [delete_workspace_attachment_fails], [replace_local_memory_lost],
      [task_summary_first_change], [pause_revives_cancelled],
      [redaction_breaks_event], [two_tokens_stop_redaction] and
      [redaction_breaks_report]; in the tools
      [search_shows_withheld], [plus_branch_forces_push],
      [git_exe_skips_path_check], [temporary_link_escapes],
      [local_api_other_effects], [redaction_leaks] and
      [git_log_drops_empty_message]; in context and MCP
      [empty_folder_hides_skill], [accepted_name_misdecoded] and
      [bare_mcp_decodes]; in the providers [chat_drops_blank_deltas],
      [provider_ids_collide], [base_url_not_stable],
      [duplicate_models_remain], [short_key_shown] and
      [response_keeps_part_of_key]; in the agent
      [mixed_blocks_lock_out], [overflow_trim_empties],
      [repair_separates_results], [semicolon_cuts_image],
      [quoted_marker_lost], [reserve_too_small], [refusals_never_end],
      [refused_text_is_retried], [late_cancellation_panics],
      [failed_decision_stays_running], [ready_route_with_open_circuit] and
      [patching_chat]; in the desktop application
      [relay_leaves_active_provider], [malformed_requests_open_circuit],
      [active_provider_has_candidate], [import_of_parent_runs_on],
      [import_of_ancestor_fails], [doubled_separator_deletes],
      [attachment_blocks_list], [relay_keeps_old_key], [key_follows_address],
      [second_reserve_loses_page], [adopted_page_unreported] and
      [unread_passwords_lost].

    ** Bounds and fuel

    Loops over characters, lines, tokens and rows are structural recursions.  The
    other loops have fuel that is shown to be enough: [strip_repeat] takes the
    length of its string, [trim_to_budget] the number of messages, the walk of a
    search the size of the tree, the wait for a process the number of polls in its
    time limit, the read of an MCP answer the lines that [Peer] allows before the
    deadline, the tags of a leaked block the length of the text, the copy of a folder the length
    of the longest path on the disk.  A turn takes a number that all of its loops
    share and ends with [OutOfFuel] when a loop needs more; the attempts at a
    provider need three rounds more than the configured retries, and [chat_ends]
    says that some number is enough for the whole chat.  Identifiers and times are
    unbounded numbers; the only arithmetic on times subtracts the retention period
    of the call logs and adds cooldowns and recovery waits.  The counters of lines
    and commands ([u32], [i32]) are unbounded integers, which differ from the
    source only above 2^31 entries.  The counters of the circuit breaker and of the
    keys saturate at their width, fingerprints wrap at 64 bits, the weights of the
    rotation are shown to stay within the total weight times the number of
    entries, and token calibration is exact binary64.

    ** Simplifications

    The store's own files are read and written without failure, and a row that was
    written decodes; the order of RFC 3339 text is the order of time; the paths are
    those of a system other than Windows; the length limit that SQLite puts on a
    [LIKE] pattern is not modelled; a lock of the agent's tables is never
    poisoned.  A context tool makes its calls of the service without another
    client between them; git is run in the place where the source starts a
    thread for it; and the calls of MCP tools change nothing of the model's state.
    The relay handles its connections one after another and writes heads and whole
    answers without failure; its route counts wrap as in a release build.  The
    answers of the server to requests that arrive during a turn are not part of the
    output of that turn.  A redaction compares the text files of a queued entry as
    values.  The names of tables are compared exactly.  A path that the user gives
    to a project command is located once.

    ** Not modelled

    In the modelled crates: [backup_to], which copies a database through SQLite; the
    HTTP client of the providers; the file of the settings and of the user's MCP
    plugins; the files of images; the end of the processes of MCP servers; job
    objects, pipes and the paths of Windows.  In the desktop application: the
    webviews, windows, tray and terminals, the panes that show files and git's
    output, the startup, the dialog that picks a folder, and the Tauri commands that
    only forward to a modelled operation.  All of these are calls of the operating
    system or of a library, with no decision of the program to state a property of.
    The VS Code extension and the user interface are not written in Rust.  The
    patched third-party crates under [patches] are not code of this program.
*)

From stdpp Require Export base list gmap sets sorting strings pretty.
From Stdlib Require Export ZArith NArith Lia.

(** ** Strings

    A Rust [str] is a sequence of Unicode scalar values; [chars] is the
    identity on this representation and [len] counts UTF-8 bytes. *)

Abbreviation char := N (only parsing).
Abbreviation str := (list N) (only parsing).

Declare Scope xc_scope.
Delimit Scope xc_scope with xc.
Open Scope xc_scope.

(** Decoding of the UTF-8 bytes of a source literal. *)
Definition byte_of (a : Ascii.ascii) : N := Ascii.N_of_ascii a.

Fixpoint bytes_of (s : string) : list N :=
  match s with
  | EmptyString => []
  | String a rest => byte_of a :: bytes_of rest
  end.

Definition cont (b : N) : N := N.modulo b 64.

Fixpoint utf8_decode (bs : list N) : str :=
  match bs with
  | [] => []
  | b0 :: r0 =>
    if (b0 <? 128)%N then b0 :: utf8_decode r0
    else match r0 with
    | [] => []
    | b1 :: r1 =>
      if (b0 <? 224)%N then (N.modulo b0 32 * 64 + cont b1)%N :: utf8_decode r1
      else match r1 with
      | [] => []
      | b2 :: r2 =>
        if (b0 <? 240)%N
        then (N.modulo b0 16 * 4096 + cont b1 * 64 + cont b2)%N :: utf8_decode r2
        else match r2 with
        | [] => []
        | b3 :: r3 =>
          (N.modulo b0 8 * 262144 + cont b1 * 4096 + cont b2 * 64 + cont b3)%N
            :: utf8_decode r3
        end
      end
    end
  end.

Definition lit (s : string) : str := utf8_decode (bytes_of s).
#[global] Arguments lit : simpl never.
Notation "$ s" := (lit s) (at level 1, s at level 0, only parsing) : xc_scope.

(** UTF-8 encoding: [as_bytes] and [len]. *)
Definition utf8_char (c : char) : list N :=
  if (c <? 128)%N then [c]
  else if (c <? 2048)%N then [192 + c / 64; 128 + c mod 64]%N
  else if (c <? 65536)%N
  then [224 + c / 4096; 128 + c / 64 mod 64; 128 + c mod 64]%N
  else [240 + c / 262144; 128 + c / 4096 mod 64; 128 + c / 64 mod 64; 128 + c mod 64]%N.

Definition as_bytes (s : str) : list N := concat (map utf8_char s).
Definition byte_len (s : str) : nat := length (as_bytes s).

(** ** Characters *)

Definition in_range (lo hi c : char) : bool := ((lo <=? c) && (c <=? hi))%N.

(** [char::is_whitespace]: the Unicode [White_Space] property. *)
Definition is_whitespace (c : char) : bool :=
  in_range 9 13 c || (c =? 32)%N || (c =? 133)%N || (c =? 160)%N || (c =? 5760)%N ||
  in_range 8192 8202 c || (c =? 8232)%N || (c =? 8233)%N || (c =? 8239)%N ||
  (c =? 8287)%N || (c =? 12288)%N.

Definition is_ascii_upper (c : char) : bool := in_range 65 90 c.
Definition is_ascii_lower (c : char) : bool := in_range 97 122 c.
Definition is_ascii_digit (c : char) : bool := in_range 48 57 c.
Definition is_ascii_alphabetic (c : char) : bool := is_ascii_upper c || is_ascii_lower c.
Definition is_ascii_alphanumeric (c : char) : bool :=
  is_ascii_alphabetic c || is_ascii_digit c.

Definition lower_char (c : char) : char := if is_ascii_upper c then (c + 32)%N else c.

(** ** Methods of [str] *)

Definition to_ascii_lowercase (s : str) : str := map lower_char s.

Definition str_eqb (a b : str) : bool := bool_decide (a = b).
Notation "a =s b" := (str_eqb a b) (at level 70) : xc_scope.

Definition eq_ignore_ascii_case (a b : str) : bool :=
  to_ascii_lowercase a =s to_ascii_lowercase b.

(** [matches!(s, "a" | "b" | ...)] *)
Definition one_of (s : str) (l : list str) : bool := existsb (str_eqb s) l.

Definition is_empty {A} (s : list A) : bool :=
  match s with [] => true | _ => false end.

Fixpoint drop_while {A} (p : A -> bool) (s : list A) : list A :=
  match s with
  | [] => []
  | c :: r => if p c then drop_while p r else s
  end.

Definition trim_start_matches (p : char -> bool) (s : str) : str := drop_while p s.
Definition trim_end_matches (p : char -> bool) (s : str) : str :=
  rev (drop_while p (rev s)).
Definition trim_matches (p : char -> bool) (s : str) : str :=
  trim_end_matches p (trim_start_matches p s).
Definition trim (s : str) : str := trim_matches is_whitespace s.
Definition trim_start (s : str) : str := trim_start_matches is_whitespace s.

Fixpoint strip_prefix (p s : str) : option str :=
  match p, s with
  | [], _ => Some s
  | a :: p', b :: s' => if (a =? b)%N then strip_prefix p' s' else None
  | _ :: _, [] => None
  end.

Definition starts_with (p s : str) : bool :=
  match strip_prefix p s with Some _ => true | None => false end.

Definition strip_suffix (p s : str) : option str :=
  match strip_prefix (rev p) (rev s) with Some r => Some (rev r) | None => None end.

Fixpoint contains (p s : str) : bool :=
  starts_with p s || match s with [] => false | _ :: r => contains p r end.

Definition contains_char (c : char) (s : str) : bool := existsb (N.eqb c) s.

(** [str::trim_start_matches] with a string pattern: the pattern is removed as
    long as it is a prefix; the length of the string bounds the removals of a
    non-empty pattern. *)
Fixpoint strip_repeat (fuel : nat) (p s : str) : str :=
  match fuel with
  | 0 => s
  | S f => match strip_prefix p s with Some r => strip_repeat f p r | None => s end
  end.
Definition trim_start_matches_str (p s : str) : str := strip_repeat (length s) p s.

(** [str::replace] of a character. *)
Definition replace_char (c : char) (by_ : str) (s : str) : str :=
  concat (map (fun x => if (x =? c)%N then by_ else [x]) s).

(** [str::split] on the characters satisfying [p]; never empty. *)
Fixpoint split_on (p : char -> bool) (s : str) : list str :=
  match s with
  | [] => [[]]
  | c :: r =>
    if p c then [] :: split_on p r
    else match split_on p r with
         | [] => [[c]]
         | w :: ws => (c :: w) :: ws
         end
  end.

Fixpoint split_once (c : char) (s : str) : option (str * str) :=
  match s with
  | [] => None
  | x :: r =>
    if (x =? c)%N then Some ([], r)
    else match split_once c r with Some (a, b) => Some (x :: a, b) | None => None end
  end.

Definition LF : char := 10%N.
Definition CR : char := 13%N.

(** One item of [str::lines]: a line that ended with a newline loses the
    carriage return before it. *)
Definition strip_cr (s : str) : str :=
  match strip_suffix [CR] s with Some r => r | None => s end.

(** [str::lines]: the text after the last newline is a line when it is not
    empty, and keeps a final carriage return. *)
Fixpoint lines_of (ws : list str) : list str :=
  match ws with
  | [] => []
  | [w] => if is_empty w then [] else [w]
  | w :: r => strip_cr w :: lines_of r
  end.
Definition lines (s : str) : list str := lines_of (split_on (N.eqb LF) s).

Definition split_whitespace (s : str) : list str :=
  List.filter (fun w => negb (is_empty w)) (split_on is_whitespace s).

Fixpoint join (sep : str) (l : list str) : str :=
  match l with
  | [] => []
  | [x] => x
  | x :: r => x ++ sep ++ join sep r
  end.

(** Decimal rendering of [format!("{n}")]. *)
Definition show_N (n : N) : str := $(pretty n).
Definition show_nat (n : nat) : str := show_N (N.of_nat n).

(** Characters that source literals name. *)
Definition DQUOTE : char := 34%N.
Definition SQUOTE : char := 39%N.
Definition SLASH : char := 47%N.
Definition BACKSLASH : char := 92%N.
Definition COLON : char := 58%N.
Definition SEMICOLON : char := 59%N.
Definition HASH : char := 35%N.
Definition DASH : char := 45%N.

(** ** Results

    [Result<A, E>], with the propagation of errors that [?] performs. *)
Inductive result (A E : Type) : Type :=
| Ok (a : A)
| Err (e : E).
Arguments Ok {A E} a.
Arguments Err {A E} e.

Definition rbind {A B E} (m : result A E) (f : A -> result B E) : result B E :=
  match m with Ok a => f a | Err e => Err e end.
Notation "'let?' x := m 'in' k" := (rbind m (fun x => k))
  (at level 10, x pattern, m at level 100, k at level 200) : xc_scope.

Definition is_ok {A E} (r : result A E) : bool :=
  match r with Ok _ => true | Err _ => false end.

(** First alternative that is present: a chain of early returns. *)
Definition or_else {A} (o : option A) (d : A) : A :=
  match o with Some a => a | None => d end.
Definition or_first {A} (o o' : option A) : option A :=
  match o with Some a => Some a | None => o' end.
Notation "a <||> b" := (or_first a b) (at level 63, right associativity) : xc_scope.
Notation "'when' b 'give' x" := (if b then Some x else None)
  (at level 60, b at level 200, x at level 59) : xc_scope.

(** ** Automation

    [xc] holds the rewriting lemmas on the boolean tests of the code, [xc_spec]
    the specifications that the stages of a chain of early returns satisfy. *)
Create HintDb xc_spec discriminated.
Create Rewrite HintDb xc.

(** Case analysis on every test of the code in sight. *)
Ltac split_tests :=
  repeat match goal with
  | H : context [if ?b then _ else _] |- _ => destruct b eqn:?
  | |- context [if ?b then _ else _] => destruct b eqn:?
  end.

(** ** Lemmas on booleans and lists *)

Lemma str_eqb_true (a b : str) : (a =s b) = true <-> a = b.
Proof. apply bool_decide_eq_true. Qed.

Lemma str_eqb_false (a b : str) : (a =s b) = false <-> a <> b.
Proof. apply bool_decide_eq_false. Qed.

Lemma str_eqb_refl (a : str) : (a =s a) = true.
Proof. by apply str_eqb_true. Qed.

Lemma one_of_true (s : str) (l : list str) : one_of s l = true <-> s ∈ l.
Proof.
  unfold one_of. rewrite existsb_exists. split.
  - intros (x & Hx & He). apply str_eqb_true in He. subst x. by apply list_elem_of_In.
  - intros Hs. exists s. split; [by apply list_elem_of_In | apply str_eqb_refl].
Qed.

Lemma elem_of_concat_map {A B} (f : A -> list B) (l : list A) b :
  b ∈ concat (map f l) <-> exists a, a ∈ l /\ b ∈ f a.
Proof.
  rewrite list_elem_of_In, <- flat_map_concat_map, in_flat_map.
  setoid_rewrite list_elem_of_In. done.
Qed.

Lemma existsb_elem {A} (f : A -> bool) (l : list A) :
  existsb f l = true <-> exists x, x ∈ l /\ f x = true.
Proof.
  rewrite existsb_exists.
  setoid_rewrite <- list_elem_of_In. done.
Qed.

Lemma existsb_false_elem {A} (f : A -> bool) (l : list A) :
  existsb f l = false <-> forall x, x ∈ l -> f x = false.
Proof.
  rewrite <- not_true_iff_false, existsb_elem. split.
  - intros Hn x Hx. destruct (f x) eqn:E; [exfalso; eauto | done].
  - intros Hall (x & Hx & Hf). rewrite (Hall x Hx) in Hf. done.
Qed.

Lemma existsb_ext {A} (f g : A -> bool) (l : list A) :
  (forall x, f x = g x) -> existsb f l = existsb g l.
Proof. intros Hfg. induction l as [|a l IH]; simpl; [done | by rewrite Hfg, IH]. Qed.

Lemma existsb_map {A B} (f : B -> bool) (g : A -> B) (l : list A) :
  existsb f (map g l) = existsb (fun x => f (g x)) l.
Proof. induction l as [|a l IH]; simpl; [done | by rewrite IH]. Qed.

Lemma existsb_subset {A} (f : A -> bool) (l l' : list A) :
  l ⊆ l' -> existsb f l = true -> existsb f l' = true.
Proof. rewrite !existsb_elem. set_solver. Qed.

(** A chain of early returns satisfies what every link satisfies. *)
Definition opt_all {A} (P : A -> Prop) (o : option A) : Prop :=
  forall a, o = Some a -> P a.

Lemma opt_all_first {A} (P : A -> Prop) (o o' : option A) :
  opt_all P o -> opt_all P o' -> opt_all P (o <||> o').
Proof. unfold opt_all, or_first. destruct o; naive_solver. Qed.

Lemma opt_all_when {A} (P : A -> Prop) (b : bool) (x : A) :
  (b = true -> P x) -> opt_all P (when b give x).
Proof. unfold opt_all. destruct b; naive_solver. Qed.

Lemma opt_all_none {A} (P : A -> Prop) : opt_all P None.
Proof. done. Qed.

Lemma opt_all_some {A} (P : A -> Prop) (x : A) : P x -> opt_all P (Some x).
Proof. unfold opt_all. naive_solver. Qed.

Lemma opt_all_if {A} (P : A -> Prop) (b : bool) (o o' : option A) :
  opt_all P o -> opt_all P o' -> opt_all P (if b then o else o').
Proof. by destruct b. Qed.

Lemma opt_all_or_else {A} (P : A -> Prop) (o : option A) (d : A) :
  opt_all P o -> (o = None -> P d) -> P (or_else o d).
Proof. unfold opt_all. destruct o; naive_solver. Qed.

(** Walk along a chain of early returns; syntactic, so that no test of the code
    is evaluated. *)
Ltac walk_chain :=
  repeat lazymatch goal with
  | |- opt_all _ (or_first _ _) => apply opt_all_first
  | |- opt_all _ (if _ then Some _ else None) => apply opt_all_when; intros _
  | |- opt_all _ (if _ then _ else _) => apply opt_all_if
  | |- opt_all _ (Some _) => apply opt_all_some
  | |- opt_all _ None => apply opt_all_none
  end.

Lemma or_first_none {A} (o o' : option A) :
  o <||> o' = None <-> o = None /\ o' = None.
Proof. destruct o; naive_solver. Qed.

Lemma when_none {A} (b : bool) (x : A) : (when b give x) = None <-> b = false.
Proof. destruct b; naive_solver. Qed.

(** ** Lemmas on characters and [str] methods *)

Lemma lower_char_other (c : char) : is_ascii_upper c = false -> lower_char c = c.
Proof. unfold lower_char. by intros ->. Qed.

Lemma lower_char_upper (c : char) :
  is_ascii_upper c = true -> (97 <= lower_char c <= 122)%N.
Proof.
  unfold lower_char. intros H. rewrite H. unfold is_ascii_upper, in_range in H.
  apply andb_prop in H as [H1%N.leb_le H2%N.leb_le]. lia.
Qed.

Lemma lower_not_upper (c : char) : (97 <= c <= 122)%N -> is_ascii_upper c = false.
Proof.
  intros H. unfold is_ascii_upper, in_range. apply andb_false_intro2, N.leb_gt. lia.
Qed.

Lemma lower_char_idem (c : char) : lower_char (lower_char c) = lower_char c.
Proof.
  destruct (is_ascii_upper c) eqn:E.
  - by apply lower_char_other, lower_not_upper, lower_char_upper.
  - by rewrite !(lower_char_other c).
Qed.

(** A character that is not a letter is the image of itself only. *)
Lemma lower_char_eqb (x c : char) :
  is_ascii_upper x = false -> is_ascii_lower x = false ->
  (x =? lower_char c)%N = (x =? c)%N.
Proof.
  intros Hu Hl. destruct (is_ascii_upper c) eqn:E; [|by rewrite lower_char_other].
  pose proof (lower_char_upper c E) as Hc.
  assert (x <> c) as Hxc by congruence.
  assert (x <> lower_char c) as Hxl.
  { intros ->. unfold is_ascii_lower, in_range in Hl.
    apply andb_false_iff in Hl as [Hl%N.leb_gt|Hl%N.leb_gt]; lia. }
  by rewrite (proj2 (N.eqb_neq _ _) Hxc), (proj2 (N.eqb_neq _ _) Hxl).
Qed.

Lemma is_whitespace_lower (c : char) : is_whitespace (lower_char c) = is_whitespace c.
Proof.
  destruct (is_ascii_upper c) eqn:E; [|by rewrite lower_char_other].
  pose proof (lower_char_upper c E) as Hc.
  unfold is_ascii_upper, in_range in E.
  apply andb_prop in E as [H1%N.leb_le H2%N.leb_le].
  assert (forall d, (65 <= d <= 122)%N -> is_whitespace d = false) as Hd.
  { intros d Hd. unfold is_whitespace, in_range.
    rewrite !orb_false_iff, !andb_false_iff, !N.eqb_neq, !N.leb_gt. lia. }
  rewrite !Hd by lia. done.
Qed.

Lemma to_ascii_lowercase_idem (s : str) :
  to_ascii_lowercase (to_ascii_lowercase s) = to_ascii_lowercase s.
Proof.
  unfold to_ascii_lowercase. rewrite map_map. apply map_ext. apply lower_char_idem.
Qed.

Lemma drop_while_map {A} (p : A -> bool) (f : A -> A) (s : list A) :
  (forall c, p (f c) = p c) -> drop_while p (map f s) = map f (drop_while p s).
Proof.
  intros Hp. induction s as [|c s IH]; simpl; [done|].
  rewrite Hp. by destruct (p c).
Qed.

Lemma trim_lower (s : str) : trim (to_ascii_lowercase s) = to_ascii_lowercase (trim s).
Proof.
  unfold trim, trim_matches, trim_end_matches, trim_start_matches, to_ascii_lowercase.
  rewrite drop_while_map by apply is_whitespace_lower.
  rewrite <- map_rev, drop_while_map by apply is_whitespace_lower.
  by rewrite map_rev.
Qed.

Lemma drop_while_suffix {A} (p : A -> bool) (s : list A) :
  exists l, s = l ++ drop_while p s /\ Forall (fun c => p c = true) l.
Proof.
  induction s as [|c s (l & Hl & Hf)]; simpl; [by exists []|].
  destruct (p c) eqn:E; [|by exists []].
  exists (c :: l). simpl. rewrite <- Hl. auto.
Qed.

Lemma drop_while_length {A} (p : A -> bool) (s : list A) :
  length (drop_while p s) <= length s.
Proof.
  destruct (drop_while_suffix p s) as (l & Hl & _).
  rewrite Hl at 2. rewrite length_app. lia.
Qed.

Lemma drop_while_full {A} (p : A -> bool) (s : list A) :
  length s <= length (drop_while p s) -> drop_while p s = s.
Proof.
  destruct (drop_while_suffix p s) as (l & Hl & _). intros Hlen.
  rewrite Hl in Hlen at 1. rewrite length_app in Hlen.
  destruct l; [by simpl in Hl | simpl in Hlen; lia].
Qed.

Lemma trim_matches_length (p : char -> bool) (s : str) :
  length (trim_matches p s) <= length s.
Proof.
  unfold trim_matches, trim_end_matches, trim_start_matches.
  rewrite length_rev.
  pose proof (drop_while_length p (rev (drop_while p s))) as H1.
  rewrite length_rev in H1. pose proof (drop_while_length p s). lia.
Qed.

Lemma trim_matches_full (p : char -> bool) (s : str) :
  length s <= length (trim_matches p s) -> trim_matches p s = s.
Proof.
  unfold trim_matches, trim_end_matches, trim_start_matches. rewrite length_rev. intros H.
  pose proof (drop_while_length p (rev (drop_while p s))) as H1.
  rewrite length_rev in H1. pose proof (drop_while_length p s) as H2.
  assert (drop_while p s = s) as Hs by (apply drop_while_full; lia).
  rewrite Hs in *.
  rewrite drop_while_full by (rewrite length_rev; lia).
  apply rev_involutive.
Qed.

(** Letter-free patterns do not see the case of the text. *)
Definition caseless (c : char) : bool := negb (is_ascii_upper c) && negb (is_ascii_lower c).

Lemma caseless_eqb (x c : char) :
  caseless x = true -> (x =? lower_char c)%N = (x =? c)%N.
Proof.
  unfold caseless. rewrite andb_true_iff, !negb_true_iff. intros [Hu Hl].
  by apply lower_char_eqb.
Qed.

Lemma starts_with_lower (p s : str) :
  forallb caseless p = true -> starts_with p (to_ascii_lowercase s) = starts_with p s.
Proof.
  unfold starts_with, to_ascii_lowercase. revert s.
  induction p as [|a p IH]; intros [|c s]; simpl; try done.
  rewrite andb_true_iff. intros [Ha Hp]. rewrite (caseless_eqb _ _ Ha).
  destruct (a =? c)%N; [by apply IH | done].
Qed.

Lemma contains_lower (p s : str) :
  forallb caseless p = true -> contains p (to_ascii_lowercase s) = contains p s.
Proof.
  intros Hp. induction s as [|c s IH]; [done|].
  change (starts_with p (to_ascii_lowercase (c :: s)) || contains p (to_ascii_lowercase s)
          = starts_with p (c :: s) || contains p s).
  by rewrite starts_with_lower, IH.
Qed.

Lemma contains_char_lower (c : char) (s : str) :
  caseless c = true -> contains_char c (to_ascii_lowercase s) = contains_char c s.
Proof.
  intros Hc. unfold contains_char, to_ascii_lowercase. rewrite existsb_map.
  apply existsb_ext. intros x. by apply caseless_eqb.
Qed.

Lemma caseless_member (c : char) (s : str) :
  forallb caseless s = true -> contains_char (lower_char c) s = contains_char c s.
Proof.
  intros Hs. unfold contains_char. induction s as [|x s IH]; simpl in *; [done|].
  apply andb_prop in Hs as [Hx Hs]. rewrite IH by done. f_equal.
  rewrite N.eqb_sym, (N.eqb_sym c). by apply caseless_eqb.
Qed.

Lemma join_lower (sep : str) (l : list str) :
  to_ascii_lowercase sep = sep ->
  to_ascii_lowercase (join sep l) = join sep (map to_ascii_lowercase l).
Proof.
  intros Hs. induction l as [|x [|y l] IH]; try done.
  change (join sep (x :: y :: l)) with (x ++ sep ++ join sep (y :: l)).
  unfold to_ascii_lowercase in *. rewrite !map_app, IH, Hs. done.
Qed.

Lemma eq_ignore_ascii_case_lower (a b : str) :
  eq_ignore_ascii_case (to_ascii_lowercase a) b = eq_ignore_ascii_case a b.
Proof. unfold eq_ignore_ascii_case. by rewrite to_ascii_lowercase_idem. Qed.

(** An ASCII byte of the encoding is a character of the string. *)
Lemma utf8_char_ascii (b c : N) : b ∈ utf8_char c -> (b < 128)%N -> b = c.
Proof.
  unfold utf8_char. intros Hb Hlt.
  destruct (c <? 128)%N; [set_solver|].
  exfalso.
  assert (forall k x, (128 <= k)%N -> ~ (k + x < 128)%N) as Hbig by (intros; lia).
  destruct (c <? 2048)%N; [|destruct (c <? 65536)%N];
    repeat (apply elem_of_cons in Hb as [->|Hb]; [by eapply Hbig in Hlt|]);
    by apply elem_of_nil in Hb.
Qed.

Lemma as_bytes_ascii (b : N) (s : str) : b ∈ as_bytes s -> (b < 128)%N -> b ∈ s.
Proof.
  unfold as_bytes. intros Hb Hlt. induction s as [|c s IH]; simpl in Hb.
  - by apply elem_of_nil in Hb.
  - apply elem_of_app in Hb as [Hb|Hb].
    + apply utf8_char_ascii in Hb as ->; [set_solver | done].
    + set_solver.
Qed.

Lemma contains_char_elem (c : char) (s : str) : contains_char c s = true <-> c ∈ s.
Proof.
  unfold contains_char. rewrite existsb_elem. split.
  - intros (x & Hx & He). apply N.eqb_eq in He. by subst x.
  - intros Hc. exists c. split; [done | apply N.eqb_refl].
Qed.

Lemma contains_char_not (c : char) (s : str) : contains_char c s = false <-> c ∉ s.
Proof. rewrite <- not_true_iff_false, contains_char_elem. done. Qed.

(** ** Splitting and lines *)

Lemma split_on_app (p : char -> bool) (l r : str) (c : char) :
  Forall (fun x => p x = false) l -> p c = true ->
  split_on p (l ++ c :: r) = l :: split_on p r.
Proof.
  intros Hl Hc. induction Hl as [|x l Hx Hl IH]; simpl; [by rewrite Hc|].
  rewrite Hx, IH. done.
Qed.

Lemma split_on_nonempty (p : char -> bool) (s : str) : split_on p s <> [].
Proof. destruct s; simpl; [done|]. by destruct (p n), (split_on p s). Qed.

Lemma lines_of_cons (w : str) (ws : list str) :
  ws <> [] -> lines_of (w :: ws) = strip_cr w :: lines_of ws.
Proof. by destruct ws. Qed.

Lemma lines_app (l r : str) : LF ∉ l -> lines (l ++ LF :: r) = strip_cr l :: lines r.
Proof.
  intros Hl. unfold lines. rewrite split_on_app.
  - apply lines_of_cons, split_on_nonempty.
  - apply Forall_forall. intros x Hx. apply N.eqb_neq. congruence.
  - done.
Qed.

Lemma strip_cr_id (s : str) : CR ∉ s -> strip_cr s = s.
Proof.
  intros Hs. unfold strip_cr, strip_suffix. change (rev [CR]) with [CR].
  destruct (rev s) as [|c r] eqn:E; [done|]. cbn [strip_prefix].
  destruct (N.eqb_spec CR c) as [<-|]; [|done].
  exfalso. apply Hs, list_elem_of_In, in_rev. rewrite E. by left.
Qed.

(** Text written one item per line reads back as its items. *)
Lemma lines_unlines (ls : list str) :
  Forall (fun l => (LF ∉ l) /\ (CR ∉ l)) ls ->
  lines (concat (map (fun l => l ++ [LF]) ls)) = ls.
Proof.
  induction 1 as [|l ls [Hlf Hcr] _ IH]; [done|].
  simpl. rewrite <- app_assoc. simpl. by rewrite lines_app, strip_cr_id, IH.
Qed.

Lemma strip_prefix_Some (p s r : str) : strip_prefix p s = Some r <-> s = p ++ r.
Proof.
  revert s. induction p as [|a p IH]; intros s; simpl; [naive_solver|].
  destruct s as [|b s]; [naive_solver|].
  destruct (N.eqb_spec a b) as [->|Hne]; [rewrite IH; naive_solver | naive_solver].
Qed.

Lemma strip_suffix_Some (p s r : str) : strip_suffix p s = Some r <-> s = r ++ p.
Proof.
  unfold strip_suffix. destruct (strip_prefix (rev p) (rev s)) as [x|] eqn:E.
  - apply strip_prefix_Some in E.
    assert (s = rev x ++ p) as Hs.
    { rewrite <- (rev_involutive s), E, rev_app_distr. by rewrite rev_involutive. }
    split; [naive_solver|]. intros ->. f_equal. by apply (app_inv_tail p).
  - split; [done|]. intros ->. rewrite rev_app_distr in E.
    by rewrite (proj2 (strip_prefix_Some _ _ (rev r))) in E.
Qed.

Lemma split_once_Some (c : char) (s a b : str) :
  split_once c s = Some (a, b) <-> s = a ++ c :: b /\ c ∉ a.
Proof.
  revert a b. induction s as [|x s IH]; intros a b; simpl.
  - split; [done|]. intros [H _]. by destruct a.
  - destruct (N.eqb_spec x c) as [->|Hx].
    + split; [intros [= <- <-]; split; [done | apply not_elem_of_nil]|].
      intros [He Hn]. destruct a as [|y a]; simplify_eq/=; [done|].
      exfalso. apply Hn. by left.
    + destruct (split_once c s) as [[a' b']|].
      * split.
        -- intros [= <- <-]. destruct (proj1 (IH a' b') eq_refl) as [-> Hn].
           split; [done|]. rewrite elem_of_cons. naive_solver.
        -- intros [He Hn]. destruct a as [|y a]; simplify_eq/=.
           rewrite elem_of_cons in Hn.
           destruct (proj2 (IH a b)) as []; naive_solver.
      * split; [done|]. intros [He Hn]. destruct a as [|y a]; simplify_eq/=.
        rewrite elem_of_cons in Hn. by discriminate (proj2 (IH a b) ltac:(naive_solver)).
Qed.

(** ** Ordered maps

    [BTreeMap] with string keys: an association list in the order of its keys.
    [str] compares by bytes, which for UTF-8 is the order of the characters. *)
Fixpoint str_ltb (a b : str) : bool :=
  match a, b with
  | _, [] => false
  | [], _ :: _ => true
  | x :: a', y :: b' => (x <? y)%N || ((x =? y)%N && str_ltb a' b')
  end.

Fixpoint btree_insert {V} (k : str) (v : V) (m : list (list N * V)) : list (list N * V) :=
  match m with
  | [] => [(k, v)]
  | (k', v') :: r =>
    if k =s k' then (k, v) :: r
    else if str_ltb k k' then (k, v) :: m
    else (k', v') :: btree_insert k v r
  end.

Fixpoint btree_get {V} (k : str) (m : list (list N * V)) : option V :=
  match m with
  | [] => None
  | (k', v') :: r => if k =s k' then Some v' else btree_get k r
  end.

Lemma str_ltb_asym a b : str_ltb a b = true -> str_ltb b a = false.
Proof.
  revert b. induction a as [|x a IH]; intros [|y b]; cbn [str_ltb]; try done.
  destruct (N.ltb_spec x y) as [Hlt|Hge]; cbn [orb].
  - intros _. rewrite (proj2 (N.ltb_ge y x)), (proj2 (N.eqb_neq y x)) by lia. done.
  - destruct (N.eqb_spec x y) as [->|]; cbn [andb]; [|done]. rewrite N.ltb_irrefl, N.eqb_refl. apply IH.
Qed.

Lemma NoDup_map_eq {A K} (key : A -> K) (t : list A) a b :
  NoDup (map key t) -> a ∈ t -> b ∈ t -> key a = key b -> a = b.
Proof.
  induction t as [|x t IH]; simpl; [set_solver|]. rewrite NoDup_cons, !elem_of_cons.
  intros [Hx Ht] [->|Ha] [->|Hb] Hk; [done|..|by auto].
  - destruct Hx. rewrite Hk. by apply list_elem_of_fmap_2.
  - destruct Hx. rewrite <- Hk. by apply list_elem_of_fmap_2.
Qed.

Lemma find_by_key {A K} (key : A -> K) (p : A -> bool) (t : list A) x :
  NoDup (map key t) -> x ∈ t -> (forall y, p y = true <-> key y = key x) ->
  List.find p t = Some x.
Proof.
  intros Hn Hx Hp. destruct (List.find p t) as [y|] eqn:Hf.
  - apply find_some in Hf as [Hy Hk]. apply list_elem_of_In in Hy. apply Hp in Hk.
    f_equal. by eapply NoDup_map_eq.
  - apply find_none with (x := x) in Hf; [|by apply list_elem_of_In].
    by rewrite (proj2 (Hp x)) in Hf.
Qed.

(** ** Sums *)

Definition sumZ (l : list Z) : Z := foldr Z.add 0%Z l.

Lemma sumZ_nonneg l : Forall (fun x => 0 <= x)%Z l -> (0 <= sumZ l)%Z.
Proof. unfold sumZ. induction 1; simpl; lia. Qed.

Lemma sumZ_ge l x : Forall (fun x => 0 <= x)%Z l -> x ∈ l -> (x <= sumZ l)%Z.
Proof.
  induction 1 as [|y l Hy Hl IH]; [set_solver|]. rewrite elem_of_cons. unfold sumZ in *. simpl.
  intros [->|Hx]; [pose proof (sumZ_nonneg l Hl) as H; unfold sumZ in H|specialize (IH Hx)]; lia.
Qed.

(** Non-negative numbers that sum to zero are zero. *)
Lemma sumZ_zero {A} (f : A -> Z) l a :
  (forall x, x ∈ l -> (0 <= f x)%Z) -> sumZ (map f l) = 0%Z -> a ∈ l -> f a = 0%Z.
Proof.
  intros Hf Hs Ha. assert (Forall (fun x => 0 <= x)%Z (map f l)) as Hn.
  { apply Forall_forall. intros y Hy. apply list_elem_of_In, in_map_iff in Hy as (x & <- & Hx).
    apply Hf. by apply list_elem_of_In. }
  assert (f a ∈ map f l) as Hfa.
  { apply list_elem_of_In, in_map_iff. exists a. by rewrite <- list_elem_of_In. }
  pose proof (sumZ_ge (map f l) (f a) Hn Hfa). specialize (Hf a Ha). lia.
Qed.

Lemma sumZ_combine {A} (f g h : A -> Z) l :
  (forall x, x ∈ l -> f x = g x + h x)%Z ->
  sumZ (map f l) = (sumZ (map g l) + sumZ (map h l))%Z.
Proof.
  unfold sumZ. induction l as [|a l IH]; simpl; intros H; [done|].
  rewrite (H a), IH; [lia| |]; set_solver.
Qed.

Lemma sumZ_scale {A} c (f : A -> Z) l : sumZ (map (fun x => c * f x)%Z l) = (c * sumZ (map f l))%Z.
Proof. unfold sumZ. induction l; simpl; lia. Qed.

Lemma sum_indicator `{EqDecision A} (x : A) (dom : list A) :
  NoDup dom -> x ∈ dom -> sumZ (map (fun l => if decide (x = l) then 1 else 0)%Z dom) = 1%Z.
Proof.
  unfold sumZ. induction 1 as [|y dom Hy Hd IH]; [set_solver|]. intros Hx. simpl.
  destruct (decide (x = y)) as [->|Hne].
  - assert (foldr Z.add 0%Z (map (fun l => if decide (y = l) then 1 else 0)%Z dom) = 0%Z) as ->; [|done].
    clear IH Hd Hx. induction dom as [|z dom IH]; simpl; [done|].
    rewrite decide_False by set_solver. rewrite IH by set_solver. done.
  - rewrite IH by set_solver. done.
Qed.
