(* ===== verification/Protocol.v ===== *)
(** * Shared contracts (crates/xcoding-protocol/src/lib.rs)

    The enumerations and records that the policy, store and core components
    exchange.  [DateTime<Utc>] is a number of nanoseconds, [Uuid] a 128-bit
    number; [serde_json::Value] is the usual tree of JSON values. *)

From S2P Require Import Prelude.

Abbreviation uuid := N (only parsing).
Abbreviation timestamp := Z (only parsing).

(** [serde_json::Value]; objects keep their key order ([preserve_order] or
    sorted keys make no difference to the code that is modelled). *)
#[warnings="-register-all"]
Inductive Value : Type :=
| JNull
| JBool (b : bool)
| JInt (z : Z)
| JFloat (text : str)
| JString (s : str)
| JArray (l : list Value)
| JObject (fields : list (str * Value)).

Inductive Mode := Ask | AutoEdit | FullAuto.
Inductive SessionStatus := Created | Running | NeedUser | Done | Failed | Cancelled.
Inductive MessageRole := System | User | Assistant | Tool.

Inductive ToolName :=
| ListDir | ReadFile | SearchCode | LoadSkill | ApplyPatch | RunCommand
| GitStatus | GitDiff | GitLog | GitShow | GitAdd | GitCommit | GitPush | GitFetch
| GitPull | BrowserState | UpdatePlan | NewContext | HistoryList | HistoryRead
| HistorySearch | NotesList | NotesRead | NotesSearch | NotesAppend | NotesWrite
| Mcp.

Inductive PendingActionStatus := Pending | Approved | Rejected.
Inductive FollowUpQueueStatus := Queued | NotStarted | QCancelled.
Inductive FileChangeKind := FCreated | FModified | FDeleted.

#[export] Instance Mode_eq_dec : EqDecision Mode.
Proof. solve_decision. Defined.
#[export] Instance SessionStatus_eq_dec : EqDecision SessionStatus.
Proof. solve_decision. Defined.
#[export] Instance MessageRole_eq_dec : EqDecision MessageRole.
Proof. solve_decision. Defined.
#[export] Instance ToolName_eq_dec : EqDecision ToolName.
Proof. solve_decision. Defined.
#[export] Instance PendingActionStatus_eq_dec : EqDecision PendingActionStatus.
Proof. solve_decision. Defined.
#[export] Instance FollowUpQueueStatus_eq_dec : EqDecision FollowUpQueueStatus.
Proof. solve_decision. Defined.
#[export] Instance FileChangeKind_eq_dec : EqDecision FileChangeKind.
Proof. solve_decision. Defined.

Definition MessageRole_as_str (r : MessageRole) : str :=
  match r with
  | System => $"system"
  | User => $"user"
  | Assistant => $"assistant"
  | Tool => $"tool"
  end.

Definition ToolName_as_str (t : ToolName) : str :=
  match t with
  | ListDir => $"list_dir"
  | ReadFile => $"read_file"
  | SearchCode => $"search_code"
  | LoadSkill => $"load_skill"
  | ApplyPatch => $"apply_patch"
  | RunCommand => $"run_command"
  | GitStatus => $"git_status"
  | GitDiff => $"git_diff"
  | GitLog => $"git_log"
  | GitShow => $"git_show"
  | GitAdd => $"git_add"
  | GitCommit => $"git_commit"
  | GitPush => $"git_push"
  | GitFetch => $"git_fetch"
  | GitPull => $"git_pull"
  | BrowserState => $"browser_state"
  | UpdatePlan => $"update_plan"
  | NewContext => $"new_context"
  | HistoryList => $"history_list"
  | HistoryRead => $"history_read"
  | HistorySearch => $"history_search"
  | NotesList => $"notes_list"
  | NotesRead => $"notes_read"
  | NotesSearch => $"notes_search"
  | NotesAppend => $"notes_append"
  | NotesWrite => $"notes_write"
  | Mcp => $"mcp"
  end.

(** ** Persisted entities *)

Record ToolCall := mkToolCall { tc_id : str; tc_name : ToolName; tc_arguments : Value }.

Record PendingAction := mkPendingAction {
  pa_id : uuid;
  pa_session_id : uuid;
  pa_tool_call : ToolCall;
  pa_status : PendingActionStatus;
  pa_created_at : timestamp;
  pa_resolved_at : option timestamp;
}.

Record PatchPreview := mkPatchPreview {
  pp_path : str;
  pp_file_existed : bool;
  pp_old_text : str;
  pp_new_text : str;
}.

Record RestorePoint := mkRestorePoint {
  rp_id : uuid;
  rp_session_id : uuid;
  rp_path : str;
  rp_original_text : option str;
  rp_applied_text : option str;
  rp_created_at : timestamp;
}.

Record WorkspaceConfig := mkWorkspaceConfig {
  wc_workspace_root : str;
  wc_mode : Mode;
  wc_provider : str;
  wc_model : str;
  wc_command_allowlist : list str;
  wc_command_denylist : list str;
  wc_updated_at : timestamp;
}.

Record FileChangeSummary := mkFileChangeSummary {
  fc_path : str;
  fc_kind : FileChangeKind;
  fc_lines_added : Z;
  fc_lines_removed : Z;
}.

Record TaskSummary := mkTaskSummary {
  ts_changed_files : list str;
  ts_file_changes : list FileChangeSummary;
  ts_commands_run : Z;
  ts_commands_succeeded : Z;
  ts_commands_failed : Z;
  ts_lines_added : Z;
  ts_lines_removed : Z;
  ts_git_branch : option str;
  ts_git_status : option str;
  ts_git_diff : option str;
}.

Inductive PlanStepStatus := StepPending | StepInProgress | StepDone.
Record PlanStep := mkPlanStep {
  ps_id : str; ps_description : str; ps_status : PlanStepStatus }.

Record Session := mkSession {
  s_id : uuid;
  s_workspace_root : str;
  s_mode : Mode;
  s_provider : str;
  s_model : str;
  s_status : SessionStatus;
  s_created_at : timestamp;
  s_updated_at : timestamp;
  s_title : option str;
}.

Record Message := mkMessage {
  m_id : uuid;
  m_session_id : uuid;
  m_role : MessageRole;
  m_content : str;
  m_created_at : timestamp;
}.

Record ContextCompaction := mkContextCompaction {
  cc_session_id : uuid;
  cc_summary : str;
  cc_compacted_message_count : nat;
  cc_updated_at : timestamp;
}.

Record ContextWindow := mkContextWindow {
  cw_session_id : uuid;
  cw_window_index : nat;
  cw_start_message_count : nat;
  cw_created_at : timestamp;
}.

Record LocalMemory := mkLocalMemory {
  lm_id : uuid;
  lm_workspace_root : str;
  lm_content : str;
  lm_created_at : timestamp;
}.

Record ChatImageAttachment := mkChatImageAttachment {
  im_mime_type : str; im_data_base64 : str; im_name : option str }.
Record FollowUpQueueTextFile := mkTextFile {
  tf_id : str; tf_name : str; tf_content : str; tf_language : str }.

Record FollowUpQueueEntry := mkFollowUp {
  fq_id : uuid;
  fq_session_id : uuid;
  fq_text : str;
  fq_images : list ChatImageAttachment;
  fq_text_files : list FollowUpQueueTextFile;
  fq_status : FollowUpQueueStatus;
  fq_created_at : timestamp;
  fq_updated_at : timestamp;
}.

Record SessionMessagePreview := mkPreview {
  mp_id : uuid;
  mp_session_id : uuid;
  mp_role : MessageRole;
  mp_content : str;
  mp_created_at : timestamp;
  mp_content_bytes : N;
  mp_full_output_available : bool;
}.

Record SessionMessagePage := mkPage {
  pg_messages : list SessionMessagePreview;
  pg_offset : nat;
  pg_total_messages : nat;
  pg_has_older_messages : bool;
}.

(** ** Events *)

Record ModelCallInfo := mkModelCall {
  mc_provider : str;
  mc_provider_id : str;
  mc_provider_name : str;
  mc_key_id : str;
  mc_key_hint : option str;
  mc_model : str;
  mc_effective_model : str;
  mc_endpoint : str;
  mc_purpose : str;
  mc_round : N;
  mc_attempt : N;
  mc_max_attempts : N;
  mc_success : bool;
  mc_output_chars : nat;
  mc_tool_calls : nat;
  mc_error : option str;
  mc_model_reported : option str;
  mc_ttft_ms : option N;
  mc_total_ms : option N;
  mc_prompt_tokens : option nat;
}.

Inductive SessionEvent :=
| EvTextDelta (session_id : uuid) (delta : str)
| EvMessageCompleted (session_id : uuid) (message : Message)
| EvPlan (session_id : uuid) (steps : list PlanStep)
| EvToolStart (session_id : uuid) (tool_call : ToolCall) (summary : str)
| EvToolEnd (session_id : uuid) (tool_call : ToolCall) (success : bool) (summary : str)
| EvPatchPreview (session_id : uuid) (preview : PatchPreview)
| EvApprovalRequested (session_id : uuid) (action : PendingAction) (summary : str)
| EvRestorePointRolledBack (session_id : uuid) (restore_point : RestorePoint) (summary : str)
| EvSessionCancelled (session_id : uuid) (message : str)
| EvTaskCompleted (session_id : uuid) (summary : TaskSummary)
| EvRetrying (session_id : uuid) (attempt max_attempts : N) (message : str)
| EvStreamReset (session_id : uuid) (discarded_chars : nat) (reason : str)
| EvModelCall (session_id : uuid) (call : ModelCallInfo)
| EvVisionDelegateStart (session_id : uuid) (image_count : nat) (delegate_model : str)
    (historical : bool)
| EvVisionDelegateSuccess (session_id : uuid) (image_count description_length : nat)
| EvVisionDelegateFailed (session_id : uuid) (image_count : nat) (error : str)
| EvVisionDescriptionsApplied (session_id : uuid) (image_count historical_chars : nat)
    (truncated historical : bool)
| EvContextCompacted (session_id : uuid) (compacted_message_count : nat) (summary : str)
| EvError (session_id : uuid) (message : str).

Record PersistedSessionEvent := mkPersistedEvent {
  pe_id : uuid;
  pe_session_id : uuid;
  pe_event : SessionEvent;
  pe_created_at : timestamp;
}.

(** ** Requests *)

Record CreateSessionParams := mkCreateSession {
  cs_workspace_root : str;
  cs_mode : Mode;
  cs_provider : str;
  cs_model : str;
  cs_title : option str;
}.

Record QueueFollowUpParams := mkQueueFollowUp {
  qf_session_id : uuid;
  qf_text : str;
  qf_images : list ChatImageAttachment;
  qf_text_files : list FollowUpQueueTextFile;
}.

Record ChatParams := mkChatParams {
  cp_workspace_root : str;
  cp_message : str;
  cp_mode : option Mode;
  cp_provider : option str;
  cp_model : option str;
  cp_title : option str;
  cp_session_id : option uuid;
  cp_images : option (list ChatImageAttachment);
}.

Record ChatResult := mkChatResult { cr_session : Session; cr_message : option Message }.

Record SetConfigParams := mkSetConfig {
  sc_workspace_root : str;
  sc_mode : Mode;
  sc_provider : str;
  sc_model : str;
  sc_command_allowlist : option (list str);
  sc_command_denylist : option (list str);
}.

Record ReplayStep := mkReplayStep {
  rs_kind : str;
  rs_summary : str;
  rs_tool_name : option ToolName;
  rs_success : option bool;
}.

Definition MAX_LOCAL_MEMORY_CHARS : nat := 600.
Definition MIN_CONTEXT_TOOL_LIMIT : nat := 1.
Definition MAX_CONTEXT_TOOL_LIMIT : nat := 100.

(** ** Providers *)

Inductive ProviderWireApi := ChatCompletions | Responses | AnthropicMessages.
Inductive ProviderTrustLevel := Local | Official | Relay.

#[export] Instance ProviderTrustLevel_eq_dec : EqDecision ProviderTrustLevel.
Proof. solve_decision. Defined.

Record ProviderApiKey := mkApiKey {
  ak_id : str;
  ak_label : str;
  ak_key : str;
  ak_weight : Z;   (** [u32] *)
  ak_enabled : bool;
}.

Record CloudProviderConfig := mkProvider {
  cp_id : str;
  cp_name : str;
  cp_base_url : str;
  cp_wire_api : ProviderWireApi;
  cp_trust_level : ProviderTrustLevel;
  cp_api_key : option str;
  cp_api_keys : list ProviderApiKey;
  cp_note : option str;
}.

Record ModelRoute := mkRoute {
  mr_provider_id : str;
  mr_weight : Z;   (** [u32] *)
  mr_enabled : bool;
  mr_model_override : option str;
}.

(** The fields of the user configuration that routing reads. *)
Record UserConfig := mkUserConfig {
  uc_api_key : option str;
  uc_providers : list CloudProviderConfig;
  uc_active_provider_id : option str;
  uc_provider_fallback_enabled : bool;
  uc_model_routes : list (list N * list ModelRoute);   (** [BTreeMap] *)
}.
