(* ===== verification/Policy.v ===== *)
(** * Command policy (crates/xcoding-policy/src/lib.rs)

    Permission decisions for tool execution, the safety classification of
    proposed commands, and the workspace allowlist and denylist files.  The
    crate is pure: every function is a function here.  The assessment of a
    command is the source's chain of early returns, cut into the consecutive
    stages of [assess_command_with_lists]. *)

From S2P Require Import Prelude Protocol.

Inductive PermissionKind := Read | Write | Exec | Network.
Inductive PermissionDecision := Allow | AskUser | Deny.

Inductive CommandPolicyCode :=
| EmptyExecutable | AbsolutePath | PathSeparator | DeniedExecutable
| DeniedAbsoluteDelete | DeniedShellDestructiveDelete | DeniedRecursiveRootDelete
| DeniedRegistryHklm | DeniedGitClean | DeniedGitMirrorPush | DeniedGitRemoteDelete
| DeniedGitHistoryRewrite | DeniedGitReferenceDelete | DeniedGitForcedWorktreeDelete
| DeniedDeletePathTraversal | DeniedDestructiveDisk | DeniedWorkspaceDenylist
| DeniedDetachedWindow | HighRiskShell | HighRiskNetwork | HighRiskForcePush
| HighRiskPublish | HighRiskPackageInstall | HighRiskInterpreter | HighRiskGit
| HighRiskSudo | Allowlisted | RequiresApproval.

#[export] Instance PermissionKind_eq_dec : EqDecision PermissionKind.
Proof. solve_decision. Defined.
#[export] Instance PermissionDecision_eq_dec : EqDecision PermissionDecision.
Proof. solve_decision. Defined.
#[export] Instance CommandPolicyCode_eq_dec : EqDecision CommandPolicyCode.
Proof. solve_decision. Defined.

Definition code_as_str (c : CommandPolicyCode) : str :=
  match c with
  | EmptyExecutable => $"empty_executable"
  | AbsolutePath => $"absolute_path"
  | PathSeparator => $"path_separator"
  | DeniedExecutable => $"denied_executable"
  | DeniedAbsoluteDelete => $"denied_absolute_delete"
  | DeniedShellDestructiveDelete => $"denied_shell_destructive_delete"
  | DeniedRecursiveRootDelete => $"denied_recursive_root_delete"
  | DeniedRegistryHklm => $"denied_registry_hklm"
  | DeniedGitClean => $"denied_git_clean"
  | DeniedGitMirrorPush => $"denied_git_mirror_push"
  | DeniedGitRemoteDelete => $"denied_git_remote_delete"
  | DeniedGitHistoryRewrite => $"denied_git_history_rewrite"
  | DeniedGitReferenceDelete => $"denied_git_reference_delete"
  | DeniedGitForcedWorktreeDelete => $"denied_git_forced_worktree_delete"
  | DeniedDeletePathTraversal => $"denied_delete_path_traversal"
  | DeniedDestructiveDisk => $"denied_destructive_disk"
  | DeniedWorkspaceDenylist => $"denied_workspace_denylist"
  | DeniedDetachedWindow => $"denied_detached_window"
  | HighRiskShell => $"high_risk_shell"
  | HighRiskNetwork => $"high_risk_network"
  | HighRiskForcePush => $"high_risk_force_push"
  | HighRiskPublish => $"high_risk_publish"
  | HighRiskPackageInstall => $"high_risk_package_install"
  | HighRiskInterpreter => $"high_risk_interpreter"
  | HighRiskGit => $"high_risk_git"
  | HighRiskSudo => $"high_risk_sudo"
  | Allowlisted => $"allowlisted"
  | RequiresApproval => $"requires_approval"
  end.

Record CommandAssessment := mkAssessment {
  decision : PermissionDecision;
  high_risk : bool;
  allowlisted : bool;
  code : CommandPolicyCode;
  reason : str;
}.

(** ** Mode-aware permission evaluation *)

Definition evaluate_detailed (mode : Mode) (kind : PermissionKind)
    (high_risk command_allowlisted : bool) : PermissionDecision :=
  if bool_decide (mode = FullAuto) && negb (bool_decide (kind = Network)) then Allow
  else match kind with
  | Read => Allow
  | Network => Deny
  | Write => if high_risk then AskUser else Allow
  | Exec =>
    if high_risk then AskUser
    else if command_allowlisted && bool_decide (mode = AutoEdit) then Allow
    else AskUser
  end.

Definition evaluate (mode : Mode) (kind : PermissionKind) (high_risk : bool)
  : PermissionDecision := evaluate_detailed mode kind high_risk false.

(** ** Helpers of the assessment *)

Definition denied (c : CommandPolicyCode) (r : str) : CommandAssessment :=
  mkAssessment Deny true false c r.

Definition flag_high_risk (c : CommandPolicyCode) (r : str) : CommandAssessment :=
  mkAssessment AskUser true false c r.

Definition contains_shell_metacharacters (value : str) : bool :=
  existsb (fun ch => contains_char ch ($"&|;`$><()" ++ [LF; CR])) value.

(** [Path::is_absolute] on a non-Windows target; the prefixes that are absolute
    on Windows are covered by the other disjuncts of [looks_absolute]. *)
Definition path_is_absolute (s : str) : bool := starts_with $"/" s.

Definition looks_absolute (executable : str) : bool :=
  path_is_absolute executable
  || starts_with $"/" executable
  || starts_with [BACKSLASH] executable
  || ((3 <=? byte_len executable)
      && bool_decide (as_bytes executable !! 1 = Some COLON)
      && (bool_decide (as_bytes executable !! 2 = Some BACKSLASH)
          || bool_decide (as_bytes executable !! 2 = Some SLASH))).

Fixpoint strip_first_suffix (exts : list str) (name : str) : str :=
  match exts with
  | [] => name
  | ext :: r =>
    match strip_suffix ext name with Some s => s | None => strip_first_suffix r name end
  end.

Definition strip_windows_extension (name : str) : str :=
  strip_first_suffix [$".exe"; $".cmd"; $".bat"; $".ps1"; $".com"] name.

Definition has_flag (args : list str) (flag : str) : bool :=
  existsb (fun arg =>
    (arg =s flag)
    || (starts_with $"-" flag && negb (starts_with $"--" flag)
        && starts_with $"-" arg && negb (starts_with $"--" arg)
        && forallb (fun ch => contains_char ch arg) (drop 1 flag))) args.

Definition is_quote (c : char) : bool := (c =? DQUOTE)%N || (c =? SQUOTE)%N.

Definition is_windows_drive_root (path : str) : bool :=
  match path with
  | a :: b :: rest =>
    is_ascii_alphabetic a && (b =? COLON)%N
    && one_of rest [[]; [BACKSLASH]; [BACKSLASH; 42%N]]
  | _ => false
  end.

Definition targets_filesystem_root (args : list str) : bool :=
  existsb (fun arg =>
    let normalized :=
      to_ascii_lowercase
        (replace_char SLASH [BACKSLASH] (trim_matches is_quote (trim arg))) in
    one_of normalized [$"/"; [BACKSLASH]; $"/*"; [BACKSLASH; 42%N]; $"c:"]
    || is_windows_drive_root normalized) args.

Definition targets_absolute_path (args : list str) : bool :=
  existsb (fun arg =>
    let path := trim_matches is_quote (trim arg) in
    if starts_with $"/" path then (path =s $"/") || (2 <? byte_len path)
    else looks_absolute path || is_windows_drive_root (to_ascii_lowercase path)) args.

Definition targets_dangerous_delete_path (args : list str) : bool :=
  targets_filesystem_root args
  || existsb (fun arg =>
       let lower := to_ascii_lowercase arg in
       one_of lower [$"~"; $"~/"; $"~/*"; $"$home"; $"${home}"; $"%userprofile%";
                     $"/home"; $"/home/*"; $"/users"; $"/users/*"]
       || (lower =s $"c:\users") || (lower =s $"c:/users")
       || starts_with $"c:\users\" lower || starts_with $"c:/users/" lower) args.

(** A path with a [..] component. *)
Definition has_parent_component (path : str) : bool :=
  existsb (fun component => component =s $"..") (split_on (N.eqb SLASH) path).

Definition targets_path_traversal (args : list str) : bool :=
  existsb (fun arg =>
    has_parent_component
      (replace_char BACKSLASH [SLASH] (trim_matches is_quote (trim arg)))) args.

Definition is_raw_disk_dd_arg (arg : str) : bool :=
  let lower := to_ascii_lowercase arg in
  starts_with $"if=/dev/" lower || starts_with $"of=/dev/" lower
  || starts_with $"if=\\.\" lower || starts_with $"of=\\.\" lower
  || contains $"physicaldrive" lower.

(** [args.iter().any(|arg| arg == x)] *)
Definition any_arg (x : str) (args : list str) : bool := existsb (fun arg => arg =s x) args.
Definition any_arg_of (xs : list str) (args : list str) : bool :=
  existsb (fun arg => one_of arg xs) args.

(** The arguments after the first [push]. *)
Fixpoint after_first (x : str) (args : list str) : option (list str) :=
  match args with
  | [] => None
  | a :: r => if a =s x then Some r else after_first x r
  end.

Definition git_push_deletes_remote_ref (args : list str) : bool :=
  match after_first $"push" args with
  | None => false
  | Some rest =>
    existsb (fun arg => (arg =s $"--delete") || (arg =s $"-d")
                        || (starts_with $":" arg && (1 <? byte_len arg))) rest
  end.

Definition git_history_rewrite_is_irreversible (args : list str) : bool :=
  any_arg_of [$"filter-branch"; $"filter-repo"; $"gc"; $"prune"; $"repack"; $"replace"] args
  || (any_arg $"reflog" args && any_arg_of [$"expire"; $"delete"] args).

Definition git_deletes_reference (args : list str) : bool :=
  any_arg_of [$"update-ref"; $"branch"; $"tag"] args
  && any_arg_of [$"-d"; $"-D"; $"--delete"; $"--expire=now"] args.

Definition git_forced_worktree_delete (args : list str) : bool :=
  any_arg_of [$"worktree"; $"submodule"] args && any_arg_of [$"--force"; $"-f"] args.

Definition git_file_delete_target_traverses_parent (args : list str) : bool :=
  match List.find (fun arg => one_of arg [$"rm"; $"checkout"; $"restore"; $"clean";
                                     $"worktree"; $"submodule"]) args with
  | None => false
  | Some command =>
    if negb (one_of command [$"rm"; $"checkout"; $"restore"; $"clean"])
    then existsb (fun arg => has_parent_component (replace_char BACKSLASH [SLASH] arg)) args
    else existsb (fun arg =>
           let path := replace_char BACKSLASH [SLASH] (trim_matches is_quote arg) in
           negb (starts_with $"-" path) && has_parent_component path) args
  end.

(** ** Shell wrappers *)

Definition is_shell_operator (ch : char) : bool := contains_char ch $"&|;".

(** [shell_tokens]: [current] is the token under construction. *)
Fixpoint shell_tokens_loop (current : str) (value : str) : list str :=
  let pushed := if is_empty current then [] else [current] in
  match value with
  | [] => pushed
  | ch :: rest =>
    if is_quote ch then shell_tokens_loop current rest
    else if is_whitespace ch then pushed ++ shell_tokens_loop [] rest
    else if is_shell_operator ch then pushed ++ [ch] :: shell_tokens_loop [] rest
    else shell_tokens_loop (current ++ [ch]) rest
  end.
Definition shell_tokens (value : str) : list str := shell_tokens_loop [] value.

Definition delete_commands : list str :=
  [$"del"; $"erase"; $"rd"; $"rmdir"; $"remove-item"; $"ri"; $"rm"].

(** The scan for a delete command in command position. *)
Fixpoint destructive_scan (exe : str) (command_position : bool) (tokens : list str) : bool :=
  match tokens with
  | [] => false
  | token :: rest =>
    if one_of token [$"/c"; $"/k"; $"-command"; $"-c"; $"&&"; $"||"]
    then destructive_scan exe true rest
    else if one_of token [$"&"; $"|"; $";"] then destructive_scan exe true rest
    else if starts_with $"-" token || ((exe =s $"cmd") && starts_with $"/" token)
    then destructive_scan exe command_position rest
    else if command_position && one_of (trim_start_matches_str $".\" token) delete_commands
    then true
    else destructive_scan exe false rest
  end.

Definition shell_wraps_destructive_delete (exe : str) (args_lower : list str) : bool :=
  if negb (one_of exe [$"cmd"; $"powershell"; $"pwsh"]) then false
  else destructive_scan exe true (concat (map shell_tokens args_lower)).

(** The scan for [start] in command position. *)
Fixpoint start_scan (command_position : bool) (tokens : list str) : option str :=
  match tokens with
  | [] => None
  | token :: rest =>
    if one_of token [$"/c"; $"/k"; $"&&"; $"||"; $"&"; $"|"] then start_scan true rest
    else if (token =s $"start") && command_position then Some $"start"
    else if starts_with $"/" token then start_scan command_position rest
    else start_scan false rest
  end.

Definition detached_tokens (args_lower : list str) : list str :=
  concat (map (fun arg =>
    List.filter (fun token => negb (is_empty token))
      (map (trim_matches (N.eqb DQUOTE))
         (split_on (fun c => is_whitespace c || (c =? SEMICOLON)%N) arg))) args_lower).

Definition detached_window_request (exe : str) (args_lower : list str) : option str :=
  if negb (one_of exe [$"cmd"; $"powershell"; $"pwsh"]) then None
  else
    let tokens := detached_tokens args_lower in
    if exe =s $"cmd" then start_scan true tokens
    else if any_arg $"-nonewwindow" tokens then None
    else when any_arg_of [$"start-process"; $"saps"] tokens give $"Start-Process".

Definition package_install_or_script_command (args : list str) : bool :=
  any_arg_of [$"install"; $"i"; $"add"; $"ci"; $"update"; $"upgrade"; $"exec"; $"dlx";
              $"postinstall"; $"preinstall"; $"prepare"] args
  || (any_arg_of [$"run"; $"run-script"] args
      && any_arg_of [$"postinstall"; $"preinstall"; $"prepare"] args).

(** ** Workspace allowlist and denylist patterns *)

Definition never_custom_allowlisted_names : list str :=
  [$"format"; $"mkfs"; $"mkfs.ext4"; $"mkfs.xfs"; $"mkfs.btrfs"; $"mkfs.vfat"; $"diskpart";
   $"shutdown"; $"reboot"; $"halt"; $"poweroff"; $"bcdedit"; $"cipher"; $"fdisk"; $"parted";
   $"wipefs"; $"diskutil"; $"dd"; $"curl"; $"wget"; $"ssh"; $"scp"; $"sftp"; $"ftp"; $"nc";
   $"ncat"; $"netcat"; $"powershell"; $"pwsh"; $"cmd"; $"bash"; $"sh"; $"zsh"; $"python";
   $"python3"; $"node"; $"perl"; $"ruby"; $"sudo"; $"doas"; $"runas"].

Definition is_never_custom_allowlisted (exe : str) : bool :=
  one_of exe never_custom_allowlisted_names.

Definition normalize_command_pattern (pattern0 kind : str) : result str str :=
  let pattern := trim pattern0 in
  if is_empty pattern then Err (kind ++ $" pattern must not be empty")
  else if contains $".." pattern || contains_char SLASH pattern
          || contains_char BACKSLASH pattern
  then Err (kind ++ $" patterns must be bare command names without path separators")
  else if contains_shell_metacharacters pattern
  then Err (kind ++ $" patterns must not contain shell metacharacters")
  else
    let '(exe_raw, sub) :=
      match split_once COLON pattern with
      | Some (exe, sub) => (trim exe, Some (trim sub))
      | None => (pattern, None)
      end in
    if is_empty exe_raw then Err (kind ++ $" executable must not be empty")
    else
      let? _ :=
        match sub with
        | Some sub =>
          if is_empty sub then Err (kind ++ $" subcommand after ':' must not be empty")
          else if contains_char COLON sub
          then Err (kind ++ $" patterns support at most one ':' separator")
          else Ok tt
        | None => Ok tt
        end in
      let exe := strip_windows_extension (to_ascii_lowercase exe_raw) in
      if is_empty exe then Err (kind ++ $" executable must not be empty")
      else Ok match sub with
              | Some sub => exe ++ $":" ++ to_ascii_lowercase sub
              | None => exe
              end.

Definition pattern_exe (normalized : str) : str :=
  match split_once COLON normalized with Some (exe, _) => exe | None => normalized end.

Definition normalize_allowlist_pattern (pattern : str) : result str str :=
  let? normalized := normalize_command_pattern pattern $"allowlist" in
  let exe := pattern_exe normalized in
  if is_never_custom_allowlisted exe
  then Err ($"command `" ++ exe ++ $"` cannot be added to the workspace allowlist")
  else Ok normalized.

Definition normalize_denylist_pattern (pattern : str) : result str str :=
  normalize_command_pattern pattern $"denylist".

(** Lines of a list file that are neither blank nor comments. *)
Definition pattern_lines (text : str) : list str :=
  List.filter (fun line => negb (is_empty line) && negb (starts_with $"#" line))
    (map trim (lines text)).

(** [filter_map] with [Result::ok]. *)
Definition filter_ok {A B E} (f : A -> result B E) (l : list A) : list B :=
  concat (map (fun a => match f a with Ok b => [b] | Err _ => [] end) l).

Definition parse_command_allowlist (text : str) : list str :=
  filter_ok normalize_allowlist_pattern (pattern_lines text).

Definition parse_command_denylist (text : str) : list str :=
  filter_ok normalize_denylist_pattern (pattern_lines text).

Definition allowlist_header : str :=
  $"# XCoding workspace command allowlist" ++ [LF]
  ++ $"# One pattern per line: executable or executable:subcommand" ++ [LF]
  ++ $"# Example:" ++ [LF] ++ $"#   rg" ++ [LF] ++ $"#   make:test" ++ [LF]
  ++ $"#   git:--version" ++ [LF]
  ++ $"# Shells/interpreters and destructive system commands are rejected." ++ [LF].

Definition denylist_header : str :=
  $"# XCoding workspace command denylist" ++ [LF]
  ++ $"# One pattern per line: executable or executable:subcommand" ++ [LF]
  ++ $"# Example:" ++ [LF] ++ $"#   curl" ++ [LF] ++ $"#   git:push" ++ [LF]
  ++ $"#   pnpm:publish" ++ [LF]
  ++ $"# Matched commands are hard-denied (no approval prompt)." ++ [LF].

(** The loop of the two renderers over [patterns]. *)
Definition render_patterns (normalize : str -> result str str) (patterns : list str) : str :=
  concat (map (fun p => p ++ [LF]) (filter_ok normalize patterns)).

Definition render_command_allowlist_file (patterns : list str) : str :=
  allowlist_header ++ render_patterns normalize_allowlist_pattern patterns.

Definition render_command_denylist_file (patterns : list str) : str :=
  denylist_header ++ render_patterns normalize_denylist_pattern patterns.

Definition first_arg (args : list str) : str :=
  match args with [] => [] | a :: _ => a end.

(** A normalized pattern against an executable and its first argument. *)
Definition pattern_matches (exe first normalized : str) : bool :=
  match split_once COLON normalized with
  | Some (pat_exe, pat_sub) => (exe =s pat_exe) && (first =s pat_sub)
  | None => exe =s normalized
  end.

Definition matches_extra_allowlist (executable : str) (args extra_allowlist : list str)
  : bool :=
  if is_empty extra_allowlist then false
  else if existsb contains_shell_metacharacters args then false
  else
    let exe := strip_windows_extension (to_ascii_lowercase (trim executable)) in
    if is_empty exe || is_never_custom_allowlisted exe then false
    else if one_of exe [$"pnpm"; $"npm"; $"yarn"]
            && existsb (fun arg => eq_ignore_ascii_case arg $"publish") args
    then false
    else
      let first := to_ascii_lowercase (first_arg args) in
      existsb (fun pattern =>
        match normalize_allowlist_pattern pattern with
        | Ok normalized => pattern_matches exe first normalized
        | Err _ => false
        end) extra_allowlist.

Definition matches_extra_denylist (executable : str) (args extra_denylist : list str)
  : bool :=
  if is_empty extra_denylist then false
  else
    let exe := strip_windows_extension (to_ascii_lowercase (trim executable)) in
    if is_empty exe then false
    else
      let first := to_ascii_lowercase (first_arg args) in
      existsb (fun pattern =>
        match normalize_denylist_pattern pattern with
        | Ok normalized => pattern_matches exe first normalized
        | Err _ => false
        end) extra_denylist.

(** ** Builtin allowlist *)

Definition is_builtin_command_allowlisted (executable : str) (args : list str) : bool :=
  let exe := strip_windows_extension (to_ascii_lowercase (trim executable)) in
  if is_empty exe then false
  else if existsb contains_shell_metacharacters args then false
  else
    let first_lower := to_ascii_lowercase (first_arg args) in
    if exe =s $"cargo" then
      if is_empty args then false
      else if match args with
              | [_; b; c] => (first_lower =s $"run") && eq_ignore_ascii_case b $"--bin"
                             && eq_ignore_ascii_case c $"pfix"
              | _ => false
              end
      then true
      else one_of first_lower [$"check"; $"test"; $"build"; $"clippy"; $"fmt"; $"tree";
             $"metadata"; $"nextest"; $"--version"; $"-v"; $"--help"; $"-h"]
    else if exe =s $"git" then
      one_of first_lower [$"status"; $"diff"; $"log"; $"show"; $"branch"; $"rev-parse";
                          $"describe"]
    else if one_of exe [$"pnpm"; $"npm"; $"yarn"] then
      if existsb (fun arg => eq_ignore_ascii_case arg $"publish") args then false
      else one_of first_lower [$"test"; $"run"; $"lint"; $"build"; $"exec"; $"typecheck";
                               $"vitest"]
    else if exe =s $"go" then
      one_of first_lower [$"test"; $"build"; $"vet"; $"fmt"; $"list"; $"env"; $"version"]
    else if exe =s $"tsc" then true
    else if exe =s $"pytest" then true
    else if exe =s $"dotnet" then one_of first_lower [$"test"; $"build"; $"restore"]
    else false.

Definition is_command_allowlisted_with_extra (executable : str) (args extra : list str)
  : bool :=
  if is_builtin_command_allowlisted executable args then true
  else matches_extra_allowlist executable args extra.

Definition is_command_allowlisted (executable : str) (args : list str) : bool :=
  is_command_allowlisted_with_extra executable args [].

(** ** Assessment of a command *)

(** The checks on the trimmed executable. *)
Definition assess_executable (executable : str) : option CommandAssessment :=
  let normalized_executable := replace_char BACKSLASH [SLASH] executable in
  let relative_prefix_allowed :=
    starts_with $"./" normalized_executable || starts_with $"target/" normalized_executable in
  let has_separator := contains_char SLASH executable || contains_char BACKSLASH executable in
  (when is_empty executable
   give denied EmptyExecutable $"executable must not be empty")
  <||> (when looks_absolute executable
        give denied AbsolutePath $"absolute executable paths are not allowed")
  <||> (when contains $".." executable || (has_separator && negb relative_prefix_allowed)
        give denied PathSeparator
          $"executable must be a bare command name or a relative path under ./ or target/").

Definition destructive_executables : list str :=
  [$"format"; $"mkfs"; $"mkfs.ext4"; $"mkfs.xfs"; $"mkfs.btrfs"; $"mkfs.vfat"; $"diskpart";
   $"shutdown"; $"reboot"; $"halt"; $"poweroff"; $"bcdedit"; $"cipher"; $"fdisk"; $"parted";
   $"wipefs"; $"diskutil"].

(** The hard denials of destructive system operations. *)
Definition assess_destructive (exe : str) (args args_lower : list str)
  : option CommandAssessment :=
  let lower_joined := to_ascii_lowercase (join $" " args) in
  (when shell_wraps_destructive_delete exe args_lower
   give denied DeniedShellDestructiveDelete
     $"shell-wrapped delete commands are blocked by Codex policy; use a direct file operation instead")
  <||> (when one_of exe destructive_executables
        give denied DeniedExecutable ($"command `" ++ exe ++ $"` is blocked by Codex policy"))
  <||> (when (exe =s $"dd") && existsb is_raw_disk_dd_arg args_lower
        give denied DeniedDestructiveDisk
          $"raw disk dd device targets are blocked by Codex policy")
  <||> (when (exe =s $"rm") && has_flag args_lower $"-rf"
             && targets_dangerous_delete_path args_lower
        give denied DeniedRecursiveRootDelete
          $"recursive delete of filesystem roots or home directories is blocked by Codex policy")
  <||> (when one_of exe [$"rm"; $"del"; $"erase"; $"rmdir"; $"rd"]
             && targets_path_traversal args_lower
        give denied DeniedDeletePathTraversal
          $"delete targets containing parent traversal are blocked; use a workspace-relative target")
  <||> (if one_of exe [$"del"; $"erase"; $"rmdir"; $"rd"] then
          (when has_flag args_lower $"/s" && targets_filesystem_root args_lower
           give denied DeniedRecursiveRootDelete
             $"recursive delete of filesystem roots is blocked by Codex policy")
          <||> (when targets_absolute_path args_lower
                give denied DeniedAbsoluteDelete
                  $"absolute-path file deletion is blocked by Codex policy; use a workspace-relative path")
        else None)
  <||> (when one_of exe [$"chmod"; $"chown"] && has_flag args_lower $"-r"
             && targets_filesystem_root args_lower
        give denied DeniedRecursiveRootDelete
          ($"recursive `" ++ exe ++ $"` of filesystem roots is blocked by Codex policy"))
  <||> (when (exe =s $"reg") && any_arg $"delete" args_lower
             && (contains $"hklm" lower_joined || contains $"hkey_local_machine" lower_joined)
        give denied DeniedRegistryHklm
          $"registry deletes under HKLM are blocked by Codex policy").

(** The hard denials of git operations. *)
Definition assess_git_denied (args_lower : list str) : option CommandAssessment :=
  (when git_forced_worktree_delete args_lower
   give denied DeniedGitForcedWorktreeDelete
     $"forced git worktree or submodule deletion is blocked by Codex policy")
  <||> (when git_file_delete_target_traverses_parent args_lower
        give denied DeniedDeletePathTraversal
          $"destructive git targets containing parent traversal are blocked")
  <||> (when any_arg $"clean" args_lower
        give denied DeniedGitClean
          $"git clean can delete untracked workspace files and is blocked by Codex policy")
  <||> (when any_arg $"push" args_lower && any_arg $"--mirror" args_lower
        give denied DeniedGitMirrorPush $"git push --mirror is blocked by Codex policy")
  <||> (when git_push_deletes_remote_ref args_lower
        give denied DeniedGitRemoteDelete
          $"deleting a remote git ref is blocked by Codex policy")
  <||> (when git_history_rewrite_is_irreversible args_lower
        give denied DeniedGitHistoryRewrite
          $"irreversible git history cleanup or rewrite is blocked by Codex policy")
  <||> (when git_deletes_reference args_lower
        give denied DeniedGitReferenceDelete
          $"deleting git references is blocked by Codex policy").

(** Workspace denylist and detached windows. *)
Definition assess_denylist (exe : str) (args args_lower extra_denylist : list str)
  : option CommandAssessment :=
  (when matches_extra_denylist exe args extra_denylist
   give denied DeniedWorkspaceDenylist
     ($"command `" ++ exe ++ $"` is blocked by workspace command denylist"))
  <||> match detached_window_request exe args_lower with
       | Some token =>
         Some (denied DeniedDetachedWindow
           ($"`" ++ token ++ $"` detaches the program from the tool call and can open a console or an error dialog that cannot be suppressed; run the program directly instead"))
       | None => None
       end.

Definition network_executables : list str :=
  [$"curl"; $"wget"; $"ssh"; $"scp"; $"sftp"; $"ftp"; $"nc"; $"ncat"; $"netcat"].
Definition shell_executables : list str :=
  [$"powershell"; $"pwsh"; $"cmd"; $"bash"; $"sh"; $"zsh"].
Definition interpreter_executables : list str :=
  [$"python"; $"python3"; $"node"; $"perl"; $"ruby"].

(** The high-risk labels. *)
Definition assess_high_risk (exe : str) (args_lower : list str) : option CommandAssessment :=
  (when one_of exe network_executables
   give flag_high_risk HighRiskNetwork
     ($"high-risk network command `" ++ exe ++ $"` requires explicit approval"))
  <||> (when one_of exe (shell_executables ++ interpreter_executables)
        give flag_high_risk
          (if one_of exe shell_executables then HighRiskShell else HighRiskInterpreter)
          ($"high-risk command `" ++ exe ++ $"` requires explicit approval"))
  <||> (when one_of exe [$"sudo"; $"doas"; $"runas"]
        give flag_high_risk HighRiskSudo
          ($"privileged command `" ++ exe ++ $"` requires explicit approval"))
  <||> (if exe =s $"git" then
          (when any_arg $"push" args_lower
                && any_arg_of [$"--force"; $"-f"; $"--force-with-lease"] args_lower
           give flag_high_risk HighRiskForcePush $"git force push requires explicit approval")
          <||> (when any_arg $"reset" args_lower && any_arg $"--hard" args_lower
                give flag_high_risk HighRiskGit $"git reset --hard requires explicit approval")
          <||> (when any_arg_of [$"rebase"; $"--amend"] args_lower
                give flag_high_risk HighRiskGit
                  $"high-risk git operation requires explicit approval")
        else None)
  <||> (when one_of exe [$"npm"; $"pnpm"; $"yarn"] && any_arg $"publish" args_lower
        give flag_high_risk HighRiskPublish
          ($"package publish via `" ++ exe ++ $"` requires explicit approval"))
  <||> (when one_of exe [$"npm"; $"pnpm"; $"yarn"; $"npx"]
             && package_install_or_script_command args_lower
        give flag_high_risk HighRiskPackageInstall
          ($"package installation or lifecycle execution via `" ++ exe
           ++ $"` requires explicit approval")).

Definition assess_allowlist (exe : str) (args extra_allowlist : list str)
  : CommandAssessment :=
  if is_command_allowlisted_with_extra exe args extra_allowlist
  then mkAssessment Allow false true Allowlisted
         ($"allowlisted command `" ++ exe ++ $"` may auto-run under auto-edit")
  else mkAssessment AskUser false false RequiresApproval
         ($"command `" ++ exe ++ $"` requires approval before execution").

(** The name the checks compare: lower-cased and without a Windows extension. *)
Definition command_exe (executable : str) : str :=
  strip_windows_extension (to_ascii_lowercase (trim executable)).

Definition assess_command_with_lists (executable : str)
    (args extra_allowlist extra_denylist : list str) : CommandAssessment :=
  let exe := command_exe executable in
  let args_lower := map to_ascii_lowercase args in
  or_else
    (assess_executable (trim executable)
     <||> assess_destructive exe args args_lower
     <||> (if exe =s $"git" then assess_git_denied args_lower else None)
     <||> assess_denylist exe args args_lower extra_denylist
     <||> assess_high_risk exe args_lower)
    (assess_allowlist exe args extra_allowlist).

Definition assess_command_with_extra (executable : str) (args extra_allowlist : list str)
  : CommandAssessment := assess_command_with_lists executable args extra_allowlist [].

Definition assess_command (executable : str) (args : list str) : CommandAssessment :=
  assess_command_with_lists executable args [] [].
