(* ===== verification/PolicyFacts.v ===== *)
(** * Correctness of the command policy

    Shape of every assessment, safety of the commands that may run without
    approval, monotonicity in the workspace lists, the scans of shell wrappers
    against a declarative notion of command position, and the round trip of the
    list files. *)

From S2P Require Import Prelude Protocol Policy.

(** ** Classes of policy codes *)

Inductive CodeClass := ClassDenied | ClassHighRisk | ClassAllowed | ClassAsk.

Definition class_of (c : CommandPolicyCode) : CodeClass :=
  match c with
  | HighRiskShell | HighRiskNetwork | HighRiskForcePush | HighRiskPublish
  | HighRiskPackageInstall | HighRiskInterpreter | HighRiskGit | HighRiskSudo => ClassHighRisk
  | Allowlisted => ClassAllowed
  | RequiresApproval => ClassAsk
  | _ => ClassDenied
  end.

(** The fields of an assessment are determined by the class of its code. *)
Definition assessment_wf (a : CommandAssessment) : Prop :=
  match class_of (code a) with
  | ClassDenied => decision a = Deny /\ high_risk a = true /\ allowlisted a = false
  | ClassHighRisk => decision a = AskUser /\ high_risk a = true /\ allowlisted a = false
  | ClassAllowed => decision a = Allow /\ high_risk a = false /\ allowlisted a = true
  | ClassAsk => decision a = AskUser /\ high_risk a = false /\ allowlisted a = false
  end.

Definition is_denial (a : CommandAssessment) : Prop :=
  decision a = Deny /\ class_of (code a) = ClassDenied /\ high_risk a = true
  /\ allowlisted a = false.

Definition is_high_risk (a : CommandAssessment) : Prop :=
  decision a = AskUser /\ class_of (code a) = ClassHighRisk /\ high_risk a = true
  /\ allowlisted a = false.

Lemma denied_is_denial c r : class_of c = ClassDenied -> is_denial (denied c r).
Proof. done. Qed.

Lemma flagged_is_high_risk c r :
  class_of c = ClassHighRisk -> is_high_risk (flag_high_risk c r).
Proof. done. Qed.

#[local] Hint Resolve denied_is_denial flagged_is_high_risk : xc_spec.
#[local] Hint Extern 1 (class_of _ = _) => reflexivity : xc_spec.

Lemma assess_executable_denies e : opt_all is_denial (assess_executable e).
Proof. unfold assess_executable. walk_chain; auto with xc_spec. Qed.

Lemma assess_destructive_denies e args al : opt_all is_denial (assess_destructive e args al).
Proof. unfold assess_destructive. walk_chain; auto with xc_spec. Qed.

Lemma assess_git_denies al : opt_all is_denial (assess_git_denied al).
Proof. unfold assess_git_denied. walk_chain; auto with xc_spec. Qed.

Lemma assess_denylist_denies e args al dl : opt_all is_denial (assess_denylist e args al dl).
Proof.
  unfold assess_denylist. walk_chain; [auto with xc_spec|].
  destruct (detached_window_request _ _); walk_chain; auto with xc_spec.
Qed.

Lemma assess_high_risk_flags e al : opt_all is_high_risk (assess_high_risk e al).
Proof. unfold assess_high_risk. 
  walk_chain; auto with xc_spec.
  destruct (one_of e shell_executables); auto with xc_spec. Qed.

(** The stages before the allowlist, which do not depend on it. *)
Definition assess_checked (executable : str) (args extra_denylist : list str)
  : option CommandAssessment :=
  let exe := command_exe executable in
  let args_lower := map to_ascii_lowercase args in
  assess_executable (trim executable)
  <||> assess_destructive exe args args_lower
  <||> (if exe =s $"git" then assess_git_denied args_lower else None)
  <||> assess_denylist exe args args_lower extra_denylist
  <||> assess_high_risk exe args_lower.

Lemma assess_unfold e args al dl :
  assess_command_with_lists e args al dl
  = or_else (assess_checked e args dl) (assess_allowlist (command_exe e) args al).
Proof. done. Qed.

Lemma assess_checked_risky e args dl :
  opt_all (fun a => is_denial a \/ is_high_risk a) (assess_checked e args dl).
Proof.
  unfold assess_checked.
  walk_chain; intros a Ha;
    [ left; by eapply assess_executable_denies
    | left; by eapply assess_destructive_denies
    | left; by eapply assess_git_denies
    | left; by eapply assess_denylist_denies
    | right; by eapply assess_high_risk_flags ].
Qed.

Lemma assess_command_wf e args al dl :
  assessment_wf (assess_command_with_lists e args al dl).
Proof.
  rewrite assess_unfold. apply opt_all_or_else.
  - intros a Ha. unfold assessment_wf.
    destruct (assess_checked_risky e args dl a Ha) as [(?&->&?&?)|(?&->&?&?)]; done.
  - intros _. unfold assess_allowlist. by destruct (is_command_allowlisted_with_extra _ _ _).
Qed.

(** Every assessment is well formed: its decision, high-risk flag and allowlisted
    flag are determined by the class of its code. *)
Theorem assessment_shape e args al dl :
  assessment_wf (assess_command_with_lists e args al dl).
Proof. apply assess_command_wf. Qed.

(** ** Commands that may run without approval *)

Lemma builtin_exe_names exe args :
  is_builtin_command_allowlisted exe args = true ->
  one_of (command_exe exe) [$"cargo"; $"git"; $"pnpm"; $"npm"; $"yarn"; $"go"; $"tsc";
                            $"pytest"; $"dotnet"] = true
  /\ existsb contains_shell_metacharacters args = false.
Proof.
  unfold is_builtin_command_allowlisted. fold (command_exe exe).
  destruct (is_empty (command_exe exe)); [done|].
  destruct (existsb contains_shell_metacharacters args); [done|].
  intros H. split; [|done]. rewrite one_of_true.
  repeat match type of H with
  | (if ?x =s ?y then _ else _) = true =>
      destruct (str_eqb x y) eqn:E; [apply str_eqb_true in E; rewrite E; set_solver | clear E]
  | (if one_of _ _ then _ else _) = true =>
      destruct (one_of _ _) eqn:E in H; [apply one_of_true in E; set_solver | clear E]
  end.
  done.
Qed.

Lemma allowlisted_safe exe args extra :
  is_command_allowlisted_with_extra exe args extra = true ->
  existsb contains_shell_metacharacters args = false
  /\ is_never_custom_allowlisted (command_exe exe) = false.
Proof.
  unfold is_command_allowlisted_with_extra.
  destruct (is_builtin_command_allowlisted exe args) eqn:E.
  - intros _. apply builtin_exe_names in E as [Hn Hm]. split; [done|].
    apply one_of_true in Hn.
    repeat (apply elem_of_cons in Hn as [->|Hn]; [by vm_compute|]). by apply elem_of_nil in Hn.
  - unfold matches_extra_allowlist. fold (command_exe exe).
    destruct (is_empty extra); [done|].
    destruct (existsb contains_shell_metacharacters args); [done|].
    destruct (is_empty (command_exe exe)); [done|]. simpl.
    destruct (is_never_custom_allowlisted (command_exe exe)); done.
Qed.

(** C1: A command that the policy allows to run without approval has no shell
    metacharacter in its arguments, does not name a shell, interpreter or destructive
    tool, matches no denylist pattern, and passes every destructive and high-risk check. *)
Theorem auto_run_safe e args al dl :
  decision (assess_command_with_lists e args al dl) = Allow ->
  existsb contains_shell_metacharacters args = false
  /\ is_never_custom_allowlisted (command_exe (command_exe e)) = false
  /\ matches_extra_denylist (command_exe e) args dl = false
  /\ assess_destructive (command_exe e) args (map to_ascii_lowercase args) = None
  /\ assess_high_risk (command_exe e) (map to_ascii_lowercase args) = None.
Proof.
  rewrite assess_unfold. destruct (assess_checked e args dl) as [a|] eqn:E.
  - simpl. destruct (assess_checked_risky e args dl a E) as [(->&_)|(->&_)]; done.
  - simpl. unfold assess_allowlist.
    destruct (is_command_allowlisted_with_extra _ _ _) eqn:Ea; [|done]. intros _.
    apply allowlisted_safe in Ea as [Hm Hn].
    unfold assess_checked, assess_denylist in E.
    rewrite !or_first_none, when_none in E. naive_solver.
Qed.

(** The decision that gates execution of a command in a mode: the assessment
    feeds [evaluate_detailed] as the tool layer does. *)
Definition exec_decision (mode : Mode) (a : CommandAssessment) : PermissionDecision :=
  evaluate_detailed mode Exec (high_risk a) (allowlisted a).

(** Outside full-auto mode a command runs without approval exactly when the mode is
    auto-edit and its assessment is Allowlisted. *)
Theorem unattended_exec_only_allowlisted mode e args al dl :
  mode <> FullAuto ->
  exec_decision mode (assess_command_with_lists e args al dl) = Allow <->
  mode = AutoEdit /\ code (assess_command_with_lists e args al dl) = Allowlisted.
Proof.
  intros Hm. pose proof (assess_command_wf e args al dl) as Hwf.
  generalize dependent (assess_command_with_lists e args al dl). intros [d h w c r].
  unfold exec_decision, evaluate_detailed, assessment_wf. simpl.
  rewrite (bool_decide_eq_false_2 (mode = FullAuto)) by done. simpl.
  destruct (class_of c) eqn:Ec; intros (_ & -> & ->); simpl;
    destruct c; try done; destruct mode; naive_solver.
Qed.

(** ** Monotonicity in the workspace lists *)

Definition decision_rank (d : PermissionDecision) : nat :=
  match d with Deny => 0 | AskUser => 1 | Allow => 2 end.

Lemma matches_extra_denylist_mono e args dl dl' :
  dl ⊆ dl' ->
  matches_extra_denylist e args dl = true -> matches_extra_denylist e args dl' = true.
Proof.
  unfold matches_extra_denylist. intros Hsub.
  destruct dl as [|p dl]; [done|]. destruct dl' as [|p' dl']; [set_solver|].
  simpl is_empty. destruct (is_empty (strip_windows_extension _)); [done|].
  by apply existsb_subset.
Qed.

(** A longer workspace denylist never makes a command more permitted. *)
Theorem denylist_monotone e args al dl dl' :
  dl ⊆ dl' ->
  decision_rank (decision (assess_command_with_lists e args al dl'))
  <= decision_rank (decision (assess_command_with_lists e args al dl)).
Proof.
  intros Hsub. unfold assess_command_with_lists, assess_denylist.
  destruct (assess_executable (trim e)); [done|].
  destruct (assess_destructive _ _ _); [done|].
  destruct (if command_exe e =s _ then _ else _); [done|].
  destruct (matches_extra_denylist (command_exe e) args dl) eqn:E.
  - rewrite (matches_extra_denylist_mono _ _ _ _ Hsub E). done.
  - destruct (matches_extra_denylist (command_exe e) args dl'); simpl; [lia|done].
Qed.

(** The workspace allowlist has no influence on a command that is denied or high
    risk. *)
Theorem allowlist_cannot_unlock e args al al' dl :
  high_risk (assess_command_with_lists e args al dl) = true ->
  assess_command_with_lists e args al' dl = assess_command_with_lists e args al dl.
Proof.
  rewrite !assess_unfold. destruct (assess_checked e args dl); [done|]. simpl.
  unfold assess_allowlist. by destruct (is_command_allowlisted_with_extra _ _ al).
Qed.

(** A command that matches the normal form of a workspace denylist pattern is
    denied, whatever the allowlist. *)
Theorem denylist_denies e args al dl p q :
  p ∈ dl ->
  normalize_denylist_pattern p = Ok q ->
  is_empty (command_exe (command_exe e)) = false ->
  pattern_matches (command_exe (command_exe e)) (to_ascii_lowercase (first_arg args)) q = true ->
  decision (assess_command_with_lists e args al dl) = Deny.
Proof.
  intros Hp Hq Hne Hm.
  assert (matches_extra_denylist (command_exe e) args dl = true) as Hd.
  { unfold matches_extra_denylist. fold (command_exe (command_exe e)).
    destruct dl as [|p' dl]; [set_solver|]. simpl is_empty. rewrite Hne.
    apply existsb_elem. exists p. by rewrite Hq. }
  rewrite assess_unfold.
  enough (opt_all is_denial (assess_checked e args dl) /\ assess_checked e args dl <> None)
    as [H1 H2].
  { destruct (assess_checked e args dl) as [a|]; [|done]. by destruct (H1 a). }
  unfold assess_checked, assess_denylist. rewrite Hd. split.
  - apply opt_all_first; [apply assess_executable_denies|].
    apply opt_all_first; [apply assess_destructive_denies|].
    apply opt_all_first; [apply opt_all_if; [apply assess_git_denies | done]|].
    simpl. apply opt_all_some. auto with xc_spec.
  - rewrite !or_first_none. naive_solver.
Qed.

(** ** Insensitivity to letter case *)

Lemma metacharacters_lower s :
  contains_shell_metacharacters (to_ascii_lowercase s) = contains_shell_metacharacters s.
Proof.
  unfold contains_shell_metacharacters, to_ascii_lowercase. rewrite existsb_map.
  apply existsb_ext. intros c. by apply caseless_member.
Qed.

Lemma first_arg_lower args :
  first_arg (map to_ascii_lowercase args) = to_ascii_lowercase (first_arg args).
Proof. by destruct args. Qed.

Lemma metacharacters_args_lower args :
  existsb contains_shell_metacharacters (map to_ascii_lowercase args)
  = existsb contains_shell_metacharacters args.
Proof. rewrite existsb_map. apply existsb_ext, metacharacters_lower. Qed.

Lemma publish_args_lower w args :
  existsb (fun arg => eq_ignore_ascii_case arg w) (map to_ascii_lowercase args)
  = existsb (fun arg => eq_ignore_ascii_case arg w) args.
Proof. rewrite existsb_map. apply existsb_ext. intros x. apply eq_ignore_ascii_case_lower. Qed.

Lemma matches_extra_allowlist_lower e args al :
  matches_extra_allowlist e (map to_ascii_lowercase args) al
  = matches_extra_allowlist e args al.
Proof.
  unfold matches_extra_allowlist.
  by rewrite metacharacters_args_lower, publish_args_lower, first_arg_lower,
    to_ascii_lowercase_idem.
Qed.

Lemma matches_extra_denylist_lower e args dl :
  matches_extra_denylist e (map to_ascii_lowercase args) dl = matches_extra_denylist e args dl.
Proof.
  unfold matches_extra_denylist. by rewrite first_arg_lower, to_ascii_lowercase_idem.
Qed.

Lemma builtin_lower e args :
  is_builtin_command_allowlisted e (map to_ascii_lowercase args)
  = is_builtin_command_allowlisted e args.
Proof.
  unfold is_builtin_command_allowlisted.
  rewrite metacharacters_args_lower, publish_args_lower, first_arg_lower,
    to_ascii_lowercase_idem.
  destruct args as [|a [|b [|c [|]]]]; try done. cbn [map].
  by rewrite !eq_ignore_ascii_case_lower.
Qed.

Lemma assess_allowlist_lower e args al :
  assess_allowlist e (map to_ascii_lowercase args) al = assess_allowlist e args al.
Proof.
  unfold assess_allowlist, is_command_allowlisted_with_extra.
  by rewrite builtin_lower, matches_extra_allowlist_lower.
Qed.

Lemma assess_destructive_lower e args al :
  assess_destructive e (map to_ascii_lowercase args) al = assess_destructive e args al.
Proof.
  unfold assess_destructive. by rewrite <- join_lower, to_ascii_lowercase_idem by done.
Qed.

Lemma lower_args_idem args :
  map to_ascii_lowercase (map to_ascii_lowercase args) = map to_ascii_lowercase args.
Proof. rewrite map_map. apply map_ext, to_ascii_lowercase_idem. Qed.

Lemma command_exe_lower e : command_exe (to_ascii_lowercase e) = command_exe e.
Proof. unfold command_exe. by rewrite trim_lower, to_ascii_lowercase_idem. Qed.

Lemma trim_elem c s : c ∈ trim s -> c ∈ s.
Proof.
  unfold trim, trim_matches, trim_end_matches, trim_start_matches. intros H.
  apply list_elem_of_In, in_rev in H.
  destruct (drop_while_suffix is_whitespace (rev (drop_while is_whitespace s))) as (l & Hl & _).
  destruct (drop_while_suffix is_whitespace s) as (l' & Hl' & _).
  rewrite Hl'. apply elem_of_app; right. apply list_elem_of_In. rewrite in_rev, Hl.
  apply in_app_iff. by right.
Qed.

Lemma bare_not_absolute s : SLASH ∉ s -> BACKSLASH ∉ s -> looks_absolute s = false.
Proof.
  intros Hs Hb. unfold looks_absolute, path_is_absolute.
  assert (forall c, c ∉ s -> starts_with [c] s = false) as Hstart.
  { intros c Hc. unfold starts_with. destruct s as [|x s]; [done|]. simpl.
    destruct (N.eqb_spec c x); [set_solver|done]. }
  change (lit "/") with [SLASH]. rewrite !Hstart by done. simpl.
  assert (forall c i, c ∉ s -> (c < 128)%N -> bool_decide (as_bytes s !! i = Some c) = false)
    as Hbyte.
  { intros c i Hc Hlt. apply bool_decide_eq_false_2.
    intros Hl%list_elem_of_lookup_2%as_bytes_ascii; done. }
  rewrite (Hbyte SLASH 2), (Hbyte BACKSLASH 2) by done. by rewrite andb_false_r.
Qed.

Lemma assess_executable_lower e :
  contains_char SLASH e = false -> contains_char BACKSLASH e = false ->
  assess_executable (trim (to_ascii_lowercase e)) = assess_executable (trim e).
Proof.
  rewrite !contains_char_not. intros Hs Hb. rewrite trim_lower.
  assert (SLASH ∉ trim e) as Hs' by eauto using trim_elem.
  assert (BACKSLASH ∉ trim e) as Hb' by eauto using trim_elem.
  assert (forall c, caseless c = true -> c ∉ trim e -> c ∉ to_ascii_lowercase (trim e)) as Hl.
  { intros c Hc Hn. apply contains_char_not. rewrite contains_char_lower by done.
    by apply contains_char_not. }
  unfold assess_executable.
  rewrite !bare_not_absolute by auto.
  rewrite contains_lower, !contains_char_lower by done.
  rewrite (proj2 (contains_char_not SLASH _) Hs'), (proj2 (contains_char_not BACKSLASH _) Hb').
  by destruct (trim e).
Qed.

(** The assessment of a bare command does not depend on the letter case of the
    executable and its arguments. *)
Theorem assess_case_insensitive e args al dl :
  contains_char SLASH e = false -> contains_char BACKSLASH e = false ->
  assess_command_with_lists (to_ascii_lowercase e) (map to_ascii_lowercase args) al dl
  = assess_command_with_lists e args al dl.
Proof.
  intros Hs Hb. unfold assess_command_with_lists.
  rewrite assess_executable_lower, command_exe_lower, lower_args_idem, assess_destructive_lower,
    assess_allowlist_lower by done.
  unfold assess_denylist. by rewrite matches_extra_denylist_lower.
Qed.

(** ** Tokens of a packed shell command *)

(** The characters that survive tokenization. *)
Definition token_char (ch : char) : bool := negb (is_quote ch) && negb (is_whitespace ch).

(** A token is one operator, or a non-empty word without quotes, blanks or
    operators. *)
Definition token_ok (t : str) : Prop :=
  (exists ch, t = [ch] /\ is_shell_operator ch = true)
  \/ (t <> [] /\ Forall (fun ch => token_char ch = true /\ is_shell_operator ch = false) t).

Lemma shell_tokens_loop_concat value : forall current,
  concat (shell_tokens_loop current value) = current ++ List.filter token_char value.
Proof.
  induction value as [|ch value IH]; intros current; simpl.
  - destruct current; simpl; by rewrite ?app_nil_r.
  - unfold token_char. destruct (is_quote ch) eqn:Hq; simpl; [apply IH|].
    destruct (is_whitespace ch); simpl.
    + rewrite concat_app, IH. by destruct current; simpl; rewrite ?app_nil_r.
    + destruct (is_shell_operator ch).
      * rewrite concat_app. simpl. rewrite IH. by destruct current; simpl; rewrite ?app_nil_r.
      * rewrite IH, <- app_assoc. done.
Qed.

Lemma shell_tokens_loop_ok value : forall current,
  Forall (fun ch => token_char ch = true /\ is_shell_operator ch = false) current ->
  Forall token_ok (shell_tokens_loop current value).
Proof.
  assert (forall current : str,
    Forall (fun ch => token_char ch = true /\ is_shell_operator ch = false) current ->
    Forall token_ok (if is_empty current then [] else [current])) as Hpush.
  { intros [|c current] H; simpl; [done|]. apply Forall_singleton. by right. }
  induction value as [|ch value IH]; intros current Hc; simpl; [auto|].
  destruct (is_quote ch) eqn:Hq; [auto|].
  destruct (is_whitespace ch) eqn:Hw; [apply Forall_app; auto|].
  destruct (is_shell_operator ch) eqn:Hs.
  - apply Forall_app; split; [auto|]. constructor; [left; eauto | auto].
  - apply IH, Forall_app. split; [done|]. apply Forall_singleton.
    unfold token_char. by rewrite Hq, Hw.
Qed.

(** Tokenization of a packed shell command drops exactly the quotes and blanks, and
    every token is an operator or a non-empty word without operators. *)
Theorem shell_tokens_spec value :
  concat (shell_tokens value) = List.filter token_char value
  /\ Forall token_ok (shell_tokens value).
Proof.
  split; [apply shell_tokens_loop_concat | by apply shell_tokens_loop_ok].
Qed.

(** ** Command position *)

Definition position_reset (token : str) : bool :=
  one_of token [$"/c"; $"/k"; $"-command"; $"-c"; $"&&"; $"||"; $"&"; $"|"; $";"].
Definition is_option (exe token : str) : bool :=
  starts_with $"-" token || ((exe =s $"cmd") && starts_with $"/" token).
Definition is_delete (token : str) : bool :=
  one_of (trim_start_matches_str $".\" token) delete_commands.

(** [command_position exe pre]: the token after [pre] is run as a command,
    because [pre] ends, up to options, at the start or at a separator. *)
Inductive command_position (exe : str) : list str -> Prop :=
| cp_start : command_position exe []
| cp_reset pre t : position_reset t = true -> command_position exe (pre ++ [t])
| cp_option pre t :
    is_option exe t = true -> command_position exe pre -> command_position exe (pre ++ [t]).

(** A delete command runs somewhere in [tokens]. *)
Definition runs_delete (exe : str) (tokens : list str) : Prop :=
  exists pre t post, tokens = pre ++ t :: post /\ command_position exe pre
    /\ position_reset t = false /\ is_option exe t = false /\ is_delete t = true.

Lemma position_reset_split t :
  position_reset t
  = one_of t [$"/c"; $"/k"; $"-command"; $"-c"; $"&&"; $"||"] || one_of t [$"&"; $"|"; $";"].
Proof.
  unfold position_reset, one_of. cbn [existsb]. by rewrite !orb_false_r, <- !orb_assoc.
Qed.

Lemma destructive_scan_cons exe cp t rest :
  destructive_scan exe cp (t :: rest)
  = if position_reset t then destructive_scan exe true rest
    else if is_option exe t then destructive_scan exe cp rest
    else if cp && is_delete t then true else destructive_scan exe false rest.
Proof.
  rewrite position_reset_split. cbn [destructive_scan].
  destruct (one_of t _); [done|]. by destruct (one_of t [_; _; _]).
Qed.

Lemma command_position_snoc exe pre t :
  command_position exe (pre ++ [t]) ->
  position_reset t = true \/ (is_option exe t = true /\ command_position exe pre).
Proof.
  intros H. inversion H as [Hn|p x Hr He|p x Ho Hp He].
  - by destruct pre.
  - apply app_inj_tail in He as [_ ->]. by left.
  - apply app_inj_tail in He as [-> ->]. by right.
Qed.

(** The scan after a prefix [seen], with the flag it has reached. *)
Lemma destructive_scan_iff exe tokens : forall seen cp,
  (cp = true <-> command_position exe seen) ->
  destructive_scan exe cp tokens = true <->
  exists pre t post, tokens = pre ++ t :: post /\ command_position exe (seen ++ pre)
    /\ position_reset t = false /\ is_option exe t = false /\ is_delete t = true.
Proof.
  induction tokens as [|t rest IH]; intros seen cp Hcp.
  { split; [done|]. intros (pre & t & post & He & _). by destruct pre. }
  rewrite destructive_scan_cons.
  assert (forall cp', (cp' = true <-> command_position exe (seen ++ [t])) ->
    destructive_scan exe cp' rest = true <->
    exists pre u post, rest = pre ++ u :: post /\ command_position exe (seen ++ t :: pre)
      /\ position_reset u = false /\ is_option exe u = false /\ is_delete u = true) as Hnext.
  { intros cp' Hcp'. rewrite (IH (seen ++ [t]) cp' Hcp'). by setoid_rewrite <- app_assoc. }
  assert ((exists pre u post, t :: rest = pre ++ u :: post /\ command_position exe (seen ++ pre)
      /\ position_reset u = false /\ is_option exe u = false /\ is_delete u = true) <->
    (command_position exe seen /\ position_reset t = false /\ is_option exe t = false
       /\ is_delete t = true) \/
    (exists pre u post, rest = pre ++ u :: post /\ command_position exe (seen ++ t :: pre)
      /\ position_reset u = false /\ is_option exe u = false /\ is_delete u = true)) as ->.
  { split.
    - intros ([|x pre] & u & post & He & Hc & Hu); simplify_eq/=.
      + left. by rewrite app_nil_r in Hc.
      + right. eauto 10.
    - intros [(Hc & Hu)|(pre & u & post & -> & Hu)].
      + exists [], t, rest. by rewrite app_nil_r.
      + by exists (t :: pre), u, post. }
  destruct (position_reset t) eqn:Hr.
  { rewrite (Hnext true) by (split; [intros _; by apply cp_reset | done]).
    split; [intros H; right; exact H | intros [(_ & H & _)|H]; [discriminate H | exact H]]. }
  destruct (is_option exe t) eqn:Ho.
  { rewrite (Hnext cp).
    { split; [intros H; right; exact H|].
      intros [(_ & _ & H & _)|H]; [discriminate H | exact H]. }
    rewrite Hcp. split; [by apply cp_option|].
    intros [?|[? ?]]%command_position_snoc; [congruence | done]. }
  destruct (cp && is_delete t) eqn:Hd.
  - apply andb_prop in Hd as [-> Hd].
    split; [intros _; left; repeat split; [by apply Hcp | exact Hd] | reflexivity].
  - rewrite (Hnext false).
    + split; [intros H; right; exact H|].
      intros [(Hc & _ & _ & Hdel)|H]; [|exact H].
      apply Hcp in Hc. rewrite Hc, Hdel in Hd. discriminate Hd.
    + split; [done|]. intros [?|[? ?]]%command_position_snoc; congruence.
Qed.

(** The scan of a cmd or PowerShell command line reports a delete exactly when some
    token in command position, that is after the start, a separator or /c up to options,
    is a delete command. *)
Theorem shell_wrapper_scan_exact exe args_lower :
  shell_wraps_destructive_delete exe args_lower = true <->
  exe ∈ [$"cmd"; $"powershell"; $"pwsh"]
  /\ runs_delete exe (concat (map shell_tokens args_lower)).
Proof.
  unfold shell_wraps_destructive_delete, runs_delete.
  rewrite <- one_of_true. destruct (one_of exe _); cbn [negb].
  - rewrite (destructive_scan_iff _ _ [] true).
    + split; [intros H; split; [reflexivity | exact H] | intros [_ H]; exact H].
    + split; [intros _; apply cp_start | reflexivity].
  - split; [discriminate | intros [H _]; discriminate H].
Qed.

(** ** Round trip of the list files *)

(** Patterns that normalization leaves alone and that do not read as comments. *)
Definition stable_pattern (normalize : str -> result str str) (p : str) : Prop :=
  normalize p = Ok p /\ starts_with $"#" p = false.

Lemma strip_windows_extension_length s : length (strip_windows_extension s) <= length s.
Proof.
  unfold strip_windows_extension. generalize [$".exe"; $".cmd"; $".bat"; $".ps1"; $".com"].
  intros exts. induction exts as [|x exts IH]; cbn [strip_first_suffix]; [done|].
  destruct (strip_suffix x s) as [r|] eqn:E; [|done].
  apply strip_suffix_Some in E as ->. rewrite length_app. lia.
Qed.

Lemma lower_length s : length (to_ascii_lowercase s) = length s.
Proof. apply length_map. Qed.

Lemma normalize_fixed_trim p k : normalize_command_pattern p k = Ok p -> trim p = p.
Proof.
  unfold normalize_command_pattern. intros H.
  destruct (is_empty (trim p)); [done|].
  destruct (_ || contains_char BACKSLASH (trim p)); [done|].
  destruct (contains_shell_metacharacters (trim p)); [done|].
  apply trim_matches_full. fold (trim p).
  destruct (split_once COLON (trim p)) as [[a b]|] eqn:Es.
  - apply split_once_Some in Es as [Ht _].
    pose proof (trim_matches_length is_whitespace a) as Ha. fold (trim a) in Ha.
    pose proof (trim_matches_length is_whitespace b) as Hb. fold (trim b) in Hb.
    destruct (is_empty (trim a)); [done|]. destruct (is_empty (trim b)); [done|].
    destruct (contains_char COLON (trim b)); [done|]. cbn [rbind] in H.
    destruct (is_empty (strip_windows_extension _)); [done|].
    injection H as H. apply (f_equal length) in H.
    rewrite length_app in H. cbn [length] in H. rewrite lower_length in H.
    rewrite Ht, length_app. cbn [length].
    pose proof (strip_windows_extension_length (to_ascii_lowercase (trim a))) as Hx.
    rewrite lower_length in Hx. lia.
  - destruct (is_empty (trim p)); [done|]. cbn [rbind] in H.
    destruct (is_empty (strip_windows_extension _)); [done|].
    injection H as H. apply (f_equal length) in H.
    pose proof (strip_windows_extension_length (to_ascii_lowercase (trim p))) as Hx.
    rewrite lower_length in Hx. lia.
Qed.

(** A normalized pattern is a single line. *)
Lemma normalize_single_line p k :
  normalize_command_pattern p k = Ok p -> (LF ∉ p) /\ (CR ∉ p) /\ p <> [].
Proof.
  intros H. pose proof (normalize_fixed_trim p k H) as Ht. revert H.
  unfold normalize_command_pattern. rewrite Ht.
  destruct (is_empty p) eqn:He; [done|].
  destruct (_ || contains_char BACKSLASH p); [done|].
  destruct (contains_shell_metacharacters p) eqn:Hm; [done|]. intros _.
  unfold contains_shell_metacharacters in Hm. rewrite existsb_false_elem in Hm.
  repeat split; [| |by destruct p]; intros Hin; specialize (Hm _ Hin); by vm_compute in Hm.
Qed.

Lemma filter_ok_stable {A E} (f : A -> result A E) (l : list A) :
  Forall (fun a => f a = Ok a) l -> filter_ok f l = l.
Proof.
  unfold filter_ok. induction 1 as [|a l Ha _ IH]; simpl; [done|]. by rewrite Ha, IH.
Qed.

(** Comment lines are dropped and patterns kept. *)
Lemma pattern_lines_unlines (header ps : list str) :
  Forall (fun l => (LF ∉ l) /\ (CR ∉ l) /\ starts_with $"#" (trim l) = true) header ->
  Forall (fun p => (LF ∉ p) /\ (CR ∉ p) /\ p <> [] /\ trim p = p /\ starts_with $"#" p = false) ps ->
  pattern_lines (concat (map (fun l => l ++ [LF]) (header ++ ps))) = ps.
Proof.
  intros Hh Hp. unfold pattern_lines. rewrite lines_unlines.
  2: { apply Forall_app; split; eapply Forall_impl; try eassumption; naive_solver. }
  rewrite map_app, List.filter_app.
  replace (List.filter _ (map trim header)) with (@nil str).
  2: { induction Hh as [|h header (_ & _ & Hs) _ IH]; simpl; [done|].
       rewrite Hs, andb_false_r. done. }
  simpl. induction Hp as [|p ps (_ & _ & Hne & Ht & Hs) _ IH]; simpl; [done|].
  rewrite Ht, Hs. destruct p; simpl; [done|]. by rewrite IH.
Qed.

Definition allowlist_header_lines : list str :=
  [$"# XCoding workspace command allowlist";
   $"# One pattern per line: executable or executable:subcommand"; $"# Example:"; $"#   rg";
   $"#   make:test"; $"#   git:--version";
   $"# Shells/interpreters and destructive system commands are rejected."].
Definition denylist_header_lines : list str :=
  [$"# XCoding workspace command denylist";
   $"# One pattern per line: executable or executable:subcommand"; $"# Example:"; $"#   curl";
   $"#   git:push"; $"#   pnpm:publish";
   $"# Matched commands are hard-denied (no approval prompt)."].

Definition header_line_ok (l : str) : bool :=
  negb (contains_char LF l) && negb (contains_char CR l) && starts_with $"#" (trim l).

Lemma header_lines_ok (ls : list str) :
  forallb header_line_ok ls = true ->
  Forall (fun l => (LF ∉ l) /\ (CR ∉ l) /\ starts_with $"#" (trim l) = true) ls.
Proof.
  rewrite forallb_forall. intros H. apply Forall_forall. intros l Hl.
  apply list_elem_of_In, H in Hl. unfold header_line_ok in Hl.
  rewrite !andb_true_iff, !negb_true_iff, !contains_char_not in Hl. naive_solver.
Qed.

(** The text of a rendered file, as lines. *)
Lemma rendered_file_lines normalize header header_lines ps :
  header = concat (map (fun l => l ++ [LF]) header_lines) ->
  Forall (fun p => normalize p = Ok p) ps ->
  header ++ render_patterns normalize ps
  = concat (map (fun l => l ++ [LF]) (header_lines ++ ps)).
Proof.
  intros -> Hp. unfold render_patterns. by rewrite filter_ok_stable, map_app, concat_app.
Qed.

Lemma list_file_roundtrip_gen normalize k header header_lines ps :
  (forall p q, normalize p = Ok q -> normalize_command_pattern p k = Ok q) ->
  header = concat (map (fun l => l ++ [LF]) header_lines) ->
  forallb header_line_ok header_lines = true ->
  Forall (stable_pattern normalize) ps ->
  filter_ok normalize (pattern_lines (header ++ render_patterns normalize ps)) = ps.
Proof.
  intros Hk Hh Hok Hp.
  assert (Forall (fun p => normalize p = Ok p) ps) as Hn.
  { eapply Forall_impl; [exact Hp|]. by intros p []. }
  rewrite (rendered_file_lines _ _ _ _ Hh Hn), pattern_lines_unlines.
  - by apply filter_ok_stable.
  - by apply header_lines_ok.
  - eapply Forall_impl; [exact Hp|]. intros p [Hp1 Hp2].
    pose proof (normalize_single_line p k (Hk _ _ Hp1)) as (? & ? & ?).
    pose proof (normalize_fixed_trim p k (Hk _ _ Hp1)). done.
Qed.

Lemma normalize_allowlist_command p q :
  normalize_allowlist_pattern p = Ok q -> normalize_command_pattern p $"allowlist" = Ok q.
Proof.
  unfold normalize_allowlist_pattern. destruct (normalize_command_pattern p _) as [x|]; [|done].
  cbn [rbind]. destruct (is_never_custom_allowlisted _); congruence.
Qed.

Lemma allowlist_file_roundtrip ps :
  Forall (stable_pattern normalize_allowlist_pattern) ps ->
  parse_command_allowlist (render_command_allowlist_file ps) = ps.
Proof.
  intros Hp. apply (list_file_roundtrip_gen _ $"allowlist" _ allowlist_header_lines); try done.
  apply normalize_allowlist_command.
Qed.

Lemma denylist_file_roundtrip ps :
  Forall (stable_pattern normalize_denylist_pattern) ps ->
  parse_command_denylist (render_command_denylist_file ps) = ps.
Proof.
  intros Hp. apply (list_file_roundtrip_gen _ $"denylist" _ denylist_header_lines); done.
Qed.

(** Parsing a rendered allowlist or denylist file returns the patterns, when they
    are in normal form and do not read as comments. *)
Theorem list_files_roundtrip ps qs :
  Forall (stable_pattern normalize_allowlist_pattern) ps ->
  Forall (stable_pattern normalize_denylist_pattern) qs ->
  parse_command_allowlist (render_command_allowlist_file ps) = ps
  /\ parse_command_denylist (render_command_denylist_file qs) = qs.
Proof.
  intros Hp Hq. split; [by apply allowlist_file_roundtrip | by apply denylist_file_roundtrip].
Qed.

(** ** Behaviours the checks do not cover *)

(** The subcommands of git that the built-in allowlist admits. *)
Definition git_read_commands : list str :=
  [$"status"; $"diff"; $"log"; $"show"; $"branch"; $"rev-parse"; $"describe"].

(** An rm whose arguments carry no combined recursive and force flag is not
    hard-denied whatever it deletes, the root included, unless a target has a parent
    component; full-auto mode runs it without approval. *)
Theorem rm_split_flags_not_denied args :
  has_flag (map to_ascii_lowercase args) $"-rf" = false ->
  targets_path_traversal (map to_ascii_lowercase args) = false ->
  code (assess_command $"rm" args) = RequiresApproval
  /\ exec_decision FullAuto (assess_command $"rm" args) = Allow.
Proof.
  intros Hf Ht. unfold assess_command, assess_command_with_lists.
  change (command_exe $"rm") with $"rm". unfold assess_destructive. rewrite Hf, Ht.
  assert (is_command_allowlisted_with_extra $"rm" args [] = false) as Ha.
  { unfold is_command_allowlisted_with_extra, is_builtin_command_allowlisted.
    by destruct (existsb contains_shell_metacharacters args). }
  unfold assess_allowlist. rewrite Ha. split; reflexivity.
Qed.

(** Every git command that the git checks hard-deny and whose subcommand is on the
    built-in allowlist, such as the deletion of a branch, is allowlisted when the
    executable carries a doubled Windows extension. *)
Theorem double_extension_bypass args r :
  existsb contains_shell_metacharacters args = false ->
  one_of (to_ascii_lowercase (first_arg args)) git_read_commands = true ->
  assess_git_denied (map to_ascii_lowercase args) = Some r ->
  assess_command $"git" args = r /\ decision r = Deny
  /\ code (assess_command $"git.exe.exe" args) = Allowlisted.
Proof.
  intros Hm Hs Hg. unfold assess_command, assess_command_with_lists.
  change (command_exe $"git") with $"git".
  change (command_exe $"git.exe.exe") with $"git.exe". split; [|split].
  - rewrite Hg. reflexivity.
  - eapply assess_git_denies, Hg.
  - assert (is_command_allowlisted_with_extra $"git.exe" args [] = true) as Ha.
    { unfold is_command_allowlisted_with_extra, is_builtin_command_allowlisted.
      fold git_read_commands. rewrite Hm, Hs. reflexivity. }
    unfold assess_allowlist. rewrite Ha. reflexivity.
Qed.

(** Patterns whose normal form is not stable. *)
Theorem normalization_not_idempotent :
  normalize_denylist_pattern $"tool.cmd.exe" = Ok $"tool.cmd"
  /\ normalize_denylist_pattern $"tool.cmd" = Ok $"tool"
  /\ parse_command_denylist (render_command_denylist_file [$"tool.cmd"]) = [$"tool"]
  /\ normalize_denylist_pattern $"#curl" = Ok $"#curl"
  /\ parse_command_denylist (render_command_denylist_file [$"#curl"]) = [].
Proof. by vm_compute. Qed.

(** ** Example commands *)

Lemma auto_run_safe_witness :
  existsb contains_shell_metacharacters [$"test"] = false
  /\ is_never_custom_allowlisted (command_exe (command_exe $"cargo")) = false
  /\ matches_extra_denylist (command_exe $"cargo") [$"test"] [$"curl"] = false
  /\ assess_destructive (command_exe $"cargo") [$"test"] (map to_ascii_lowercase [$"test"]) = None
  /\ assess_high_risk (command_exe $"cargo") (map to_ascii_lowercase [$"test"]) = None.
Proof. apply (auto_run_safe $"cargo" [$"test"] [] [$"curl"]). vm_compute. reflexivity. Defined.

Lemma unattended_exec_only_allowlisted_witness :
  exec_decision AutoEdit (assess_command_with_lists $"cargo" [$"test"] [] []) = Allow <->
  AutoEdit = AutoEdit /\ code (assess_command_with_lists $"cargo" [$"test"] [] []) = Allowlisted.
Proof. apply unattended_exec_only_allowlisted. discriminate. Defined.

Lemma rm_split_flags_not_denied_witness :
  code (assess_command $"rm" [$"-r"; $"-f"; $"/"]) = RequiresApproval
  /\ exec_decision FullAuto (assess_command $"rm" [$"-r"; $"-f"; $"/"]) = Allow.
Proof. apply (rm_split_flags_not_denied [$"-r"; $"-f"; $"/"]); vm_compute; reflexivity. Defined.

Lemma double_extension_bypass_witness :
  let r := denied DeniedGitReferenceDelete
    $"deleting git references is blocked by Codex policy" in
  assess_command $"git" [$"branch"; $"-d"; $"main"] = r /\ decision r = Deny
  /\ code (assess_command $"git.exe.exe" [$"branch"; $"-d"; $"main"]) = Allowlisted.
Proof.
  apply (double_extension_bypass [$"branch"; $"-d"; $"main"]); vm_compute; reflexivity.
Defined.

Lemma denylist_monotone_witness :
  decision_rank (decision (assess_command_with_lists $"cargo" [$"test"] [] [$"curl"; $"cargo"]))
  <= decision_rank (decision (assess_command_with_lists $"cargo" [$"test"] [] [$"curl"])).
Proof.
  apply (denylist_monotone $"cargo" [$"test"] [] [$"curl"] [$"curl"; $"cargo"]).
  apply list_subseteq_skip, list_subseteq_nil.
Defined.

Lemma allowlist_cannot_unlock_witness :
  assess_command_with_lists $"curl" [$"http://x"] [$"curl"] []
  = assess_command_with_lists $"curl" [$"http://x"] [] [].
Proof. apply allowlist_cannot_unlock. vm_compute. reflexivity. Defined.

Lemma denylist_denies_witness :
  decision (assess_command_with_lists $"make" [$"Deploy"] [$"make"] [$"rg"; $"Make:deploy"]) = Deny.
Proof.
  apply (denylist_denies $"make" [$"Deploy"] [$"make"] [$"rg"; $"Make:deploy"]
           $"Make:deploy" $"make:deploy").
  - right. left.
  - vm_compute. reflexivity.
  - vm_compute. reflexivity.
  - vm_compute. reflexivity.
Defined.

Lemma list_files_roundtrip_witness :
  parse_command_allowlist (render_command_allowlist_file [$"rg"; $"make:test"]) = [$"rg"; $"make:test"]
  /\ parse_command_denylist (render_command_denylist_file [$"git:push"]) = [$"git:push"].
Proof.
  apply (list_files_roundtrip [$"rg"; $"make:test"] [$"git:push"]);
    repeat constructor; vm_compute; reflexivity.
Defined.

Lemma assess_case_insensitive_witness :
  assess_command_with_lists (to_ascii_lowercase $"CURL") (map to_ascii_lowercase [$"-O"]) [] []
  = assess_command_with_lists $"CURL" [$"-O"] [] [].
Proof.
  apply assess_case_insensitive; vm_compute; reflexivity.
Defined.
