(* ===== verification/Sql.v ===== *)
(** * Tables, statements and the environment of the store

    A SQLite table is the list of its rows in rowid order: [INSERT] appends,
    [UPDATE] and [DELETE] act in place, a query sorts a filtered table.  What is
    not under src/ is a parameter: the random identifiers and the clock that the
    store draws, the text of an identifier, and whether the SQLite build
    enforces foreign keys. *)

From S2P Require Import Prelude Protocol.

(** ** Statements *)

Definition update_where {A} (p : A -> bool) (f : A -> A) (t : list A) : list A :=
  map (fun a => if p a then f a else a) t.
Definition delete_where {A} (p : A -> bool) (t : list A) : list A :=
  List.filter (fun a => negb (p a)) t.
Definition select {A} (p : A -> bool) (t : list A) : list A := List.filter p t.
Definition count_where {A} (p : A -> bool) (t : list A) : nat := length (select p t).
Definition exists_where {A} (p : A -> bool) (t : list A) : bool := existsb p t.

(** [ORDER BY]: insertion into a sorted list, before the rows it does not
    exceed, so that rows with equal keys keep their rowid order. *)
Fixpoint insert_by {A} (le : A -> A -> bool) (x : A) (l : list A) : list A :=
  match l with
  | [] => [x]
  | y :: r => if le x y then x :: l else y :: insert_by le x r
  end.
Definition order_by {A} (le : A -> A -> bool) (l : list A) : list A :=
  foldr (insert_by le) [] l.

(** [LIMIT l OFFSET o] *)
Definition page {A} (offset limit : nat) (l : list A) : list A := take limit (drop offset l).

(** ** Environment *)

Class Env := {
  new_v4 : nat -> uuid;           (** the n-th [Uuid::new_v4] *)
  utc_now : nat -> timestamp;     (** the n-th [Utc::now] *)
  uuid_text : uuid -> str;        (** [Uuid::to_string] *)
  sql_like : str -> str -> bool;  (** [text LIKE pattern ESCAPE '\'] *)
  foreign_keys : bool;            (** [PRAGMA foreign_keys] *)
}.

(** What the code relies on: identifiers do not repeat, the clock does not go
    backwards, and distinct identifiers print differently. *)
Class EnvOk (E : Env) : Prop := {
  new_v4_inj : forall i j, new_v4 i = new_v4 j -> i = j;
  utc_now_mono : forall i j, i <= j -> (utc_now i <= utc_now j)%Z;
  uuid_text_inj : forall a b, uuid_text a = uuid_text b -> a = b;
}.

(** The documented rules of [LIKE] with an escape character: [%] matches any
    sequence, [_] any character, an escaped character itself, and ASCII letters
    match without regard to case. *)
Class LikeOk (E : Env) : Prop := {
  like_nil : forall s, sql_like [] s = is_empty s;
  like_percent : forall p s,
    sql_like (37%N :: p) s
    = sql_like p s || match s with [] => false | _ :: r => sql_like (37%N :: p) r end;
  like_underscore : forall p s,
    sql_like (95%N :: p) s = match s with [] => false | _ :: r => sql_like p r end;
  like_escaped : forall c p s,
    sql_like (BACKSLASH :: c :: p) s
    = match s with
      | [] => false
      | x :: r => (lower_char c =? lower_char x)%N && sql_like p r
      end;
  like_literal : forall c p s, c <> 37%N -> c <> 95%N -> c <> BACKSLASH ->
    sql_like (c :: p) s
    = match s with
      | [] => false
      | x :: r => (lower_char c =? lower_char x)%N && sql_like p r
      end;
}.

(** An environment in which every assumption holds: a counter for identifiers
    and time, and [LIKE] by recursion on the pattern. *)
Fixpoint like_match (p : str) : str -> bool :=
  match p with
  | [] => is_empty
  | c :: q =>
    if (c =? 37)%N then
      fix any (s : str) : bool :=
        like_match q s || match s with [] => false | _ :: r => any r end
    else if (c =? 95)%N then
      fun s => match s with [] => false | _ :: r => like_match q r end
    else if (c =? BACKSLASH)%N then
      match q with
      | [] => fun _ => false
      | e :: q' => fun s =>
        match s with
        | [] => false
        | x :: r => (lower_char e =? lower_char x)%N && like_match q' r
        end
      end
    else
      fun s => match s with
               | [] => false
               | x :: r => (lower_char c =? lower_char x)%N && like_match q r
               end
  end.

Definition counter_env (fk : bool) : Env := {|
  new_v4 := N.of_nat;
  utc_now := Z.of_nat;
  uuid_text := fun u => [u];
  sql_like := like_match;
  foreign_keys := fk;
|}.

Lemma counter_env_ok fk : EnvOk (counter_env fk).
Proof. split; simpl; intros; lia || congruence. Qed.

Lemma counter_env_like fk : LikeOk (counter_env fk).
Proof.
  split; simpl.
  - done.
  - intros p s. by destruct s.
  - done.
  - done.
  - intros c p s H1 H2 H3. by rewrite !(proj2 (N.eqb_neq _ _)) by done.
Qed.

Inductive SqlError :=
  ConstraintUnique | ConstraintForeignKey | QueryReturnedNoRows | FromSqlConversionFailure.

Inductive StoreError :=
| Database (e : SqlError)
| Io (path : str)
| InvalidInput (m : str)
| InvalidData (m : str)
| Identifier (m : str)
| Timestamp (m : str).

(** ** Lemmas on statements *)

Section Statements.
Context {A : Type}.
Implicit Types (p q : A -> bool) (t l : list A).

Lemma select_app p t t' : select p (t ++ t') = select p t ++ select p t'.
Proof. apply List.filter_app. Qed.

Lemma elem_of_select p t a : a ∈ select p t <-> a ∈ t /\ p a = true.
Proof. unfold select. rewrite !list_elem_of_In, filter_In. done. Qed.

Lemma elem_of_delete_where p t a : a ∈ delete_where p t <-> a ∈ t /\ p a = false.
Proof. unfold delete_where. rewrite !list_elem_of_In, filter_In, negb_true_iff. done. Qed.

Lemma elem_of_update_where p f t a :
  a ∈ update_where p f t <->
  exists b, b ∈ t /\ a = if p b then f b else b.
Proof.
  unfold update_where. rewrite list_elem_of_In, in_map_iff. split.
  - intros (b & <- & Hb). exists b. by rewrite list_elem_of_In.
  - intros (b & Hb & ->). exists b. by rewrite <- list_elem_of_In.
Qed.

(** An update that keeps the key keeps the list of keys. *)
Lemma update_where_key {K} (key : A -> K) p f t :
  (forall a, key (f a) = key a) -> map key (update_where p f t) = map key t.
Proof.
  intros Hf. unfold update_where. rewrite map_map. apply map_ext.
  intros a. destruct (p a); auto.
Qed.

Lemma update_where_id p f t :
  (forall a, a ∈ t -> p a = false) -> update_where p f t = t.
Proof.
  intros Hp. unfold update_where. induction t as [|a t IH]; simpl; [done|].
  rewrite Hp by set_solver. f_equal. apply IH. set_solver.
Qed.

Lemma delete_where_none p t :
  (forall a, a ∈ t -> p a = false) -> delete_where p t = t.
Proof.
  intros Hp. unfold delete_where. induction t as [|a t IH]; simpl; [done|].
  rewrite Hp by set_solver. simpl. f_equal. apply IH. set_solver.
Qed.

Lemma NoDup_delete_where {K} (key : A -> K) p t :
  NoDup (map key t) -> NoDup (map key (delete_where p t)).
Proof.
  unfold delete_where. induction t as [|a t IH]; simpl; [done|].
  rewrite NoDup_cons. intros [Ha Ht]. destruct (p a); simpl; [auto|].
  apply NoDup_cons. split; [|auto].
  rewrite list_elem_of_In, in_map_iff. intros (b & Hb & Hin). apply Ha.
  rewrite list_elem_of_In, in_map_iff. exists b. split; [done|].
  apply filter_In in Hin. tauto.
Qed.

Lemma exists_where_false p t :
  exists_where p t = false <-> forall a, a ∈ t -> p a = false.
Proof. apply existsb_false_elem. Qed.

Lemma exists_where_true p t :
  exists_where p t = true <-> exists a, a ∈ t /\ p a = true.
Proof. apply existsb_elem. Qed.

(** *** Ordering *)

Lemma insert_by_perm le x l : insert_by le x l ≡ₚ x :: l.
Proof.
  induction l as [|y l IH]; simpl; [done|].
  destruct (le x y); [done|]. rewrite IH. apply Permutation_swap.
Qed.

Lemma order_by_perm le l : order_by le l ≡ₚ l.
Proof.
  induction l as [|x l IH]; simpl; [done|]. by rewrite insert_by_perm, IH.
Qed.

Lemma insert_by_sorted le x l :
  (forall a b, le a b = true \/ le b a = true) ->
  Sorted (fun a b => le a b = true) l ->
  Sorted (fun a b => le a b = true) (insert_by le x l).
Proof.
  intros Htot. induction 1 as [|y l Hl IH Hy]; simpl; [by repeat constructor|].
  destruct (le x y) eqn:E; [by repeat constructor|].
  constructor; [done|]. destruct l as [|z l]; simpl.
  - constructor. by destruct (Htot x y); congruence.
  - destruct (le x z); constructor; [by destruct (Htot x y); congruence | by inversion Hy].
Qed.

Lemma order_by_sorted le l :
  (forall a b, le a b = true \/ le b a = true) ->
  Sorted (fun a b => le a b = true) (order_by le l).
Proof.
  intros Htot. induction l as [|x l IH]; simpl; [constructor|]. by apply insert_by_sorted.
Qed.

(** A table that is already in order is listed as it is. *)
Lemma order_by_id le l :
  StronglySorted (fun a b => le a b = true) l -> order_by le l = l.
Proof.
  induction 1 as [|x l Hl IH Hx]; simpl; [done|]. rewrite IH.
  destruct l as [|y l]; simpl; [done|]. inversion Hx as [|? ? Hxy _]. by rewrite Hxy.
Qed.

(** A row with the largest key is listed last. *)
Lemma order_by_snoc le l x :
  (forall y, y ∈ l -> le y x = true) ->
  order_by le (l ++ [x]) = order_by le l ++ [x].
Proof.
  intros Hx. unfold order_by. rewrite foldr_app. simpl.
  assert (forall y l', le y x = true ->
    insert_by le y (l' ++ [x]) = insert_by le y l' ++ [x]) as Hins.
  { intros y l' Hy. induction l' as [|z l' IH']; simpl; [by rewrite Hy|].
    destruct (le y z); simpl; [done|]. by rewrite IH'. }
  induction l as [|y l IH]; simpl; [done|].
  rewrite IH by set_solver. apply Hins. apply Hx. set_solver.
Qed.

(** *** Sorted tables *)

Lemma SSorted_snoc (R : A -> A -> Prop) t x :
  StronglySorted R t -> (forall y, y ∈ t -> R y x) -> StronglySorted R (t ++ [x]).
Proof.
  induction 1 as [|y t Ht IH Hy]; simpl; intros Hx; [by repeat constructor|].
  constructor; [apply IH; set_solver|]. apply Forall_app. split; [done|].
  constructor; [|done]. apply Hx. set_solver.
Qed.

Lemma SSorted_delete_where (R : A -> A -> Prop) p t :
  StronglySorted R t -> StronglySorted R (delete_where p t).
Proof.
  unfold delete_where. induction 1 as [|y t Ht IH Hy]; simpl; [constructor|].
  destruct (p y); simpl; [done|]. constructor; [done|].
  rewrite Forall_forall in *. intros z Hz. apply Hy.
  rewrite list_elem_of_In, filter_In in Hz. rewrite list_elem_of_In. tauto.
Qed.

(** *** Pages *)

(** Pages of [n] rows, one after the other, give every row once. *)
Lemma take_drop_pages n l : forall k, 0 < n ->
  concat (map (fun i => page (i * n) n l) (seq 0 k)) = take (k * n) l.
Proof.
  intros k Hn. induction k as [|k IH]; [done|].
  rewrite seq_S, map_app, concat_app, IH. simpl. rewrite app_nil_r.
  unfold page. rewrite Nat.add_comm. apply take_take_drop.
Qed.
End Statements.

#[export] Hint Rewrite @select_app : xc.
