(* ===== verification/Store.v ===== *)
(** * Session store (crates/xcoding-store/src/lib.rs)

    [SessionStore] as a state with errors: every operation is a function of the
    store that returns a [Result] and the store after it, also when it fails,
    since a statement outside a transaction is committed at once.  The tables
    are those of [migrate]; a row holds the decoded columns. *)

From S2P Require Import Prelude Protocol Sql.

(** ** Tables *)

Record VisionDescriptionRow := mkVisionDescription {
  vd_cache_key : str;
  vd_description : str;
  vd_updated_at : timestamp;
  vd_delegate_model : option str;
  vd_session_id : option uuid;
}.

Record VisionRouteRow := mkVisionRoute {
  vr_route_key : str; vr_status : str; vr_updated_at : timestamp }.

Record AttachmentRow := mkAttachment {
  at_message_id : uuid;
  at_session_id : uuid;
  at_relative_path : str;
  at_byte_length : N;
}.

Record Db := mkDb {
  sessions : list Session;
  messages : list Message;
  pending_actions : list PendingAction;
  restore_points : list RestorePoint;
  session_events : list PersistedSessionEvent;
  follow_up_queue : list FollowUpQueueEntry;
  workspace_configs : list WorkspaceConfig;
  context_compactions : list ContextCompaction;
  context_windows : list ContextWindow;
  local_memories : list LocalMemory;
  vision_descriptions : list VisionDescriptionRow;
  vision_routes : list VisionRouteRow;
  tool_output_attachments : list AttachmentRow;
}.

Definition empty_db : Db :=
  mkDb [] [] [] [] [] [] [] [] [] [] [] [] [].

(** Replacement of one table. *)
Definition set_sessions (v : list Session) (d : Db) : Db :=
  mkDb v (messages d) (pending_actions d) (restore_points d) (session_events d)
    (follow_up_queue d) (workspace_configs d) (context_compactions d) (context_windows
    d) (local_memories d) (vision_descriptions d) (vision_routes d)
    (tool_output_attachments d).
Definition set_messages (v : list Message) (d : Db) : Db :=
  mkDb (sessions d) v (pending_actions d) (restore_points d) (session_events d)
    (follow_up_queue d) (workspace_configs d) (context_compactions d) (context_windows
    d) (local_memories d) (vision_descriptions d) (vision_routes d)
    (tool_output_attachments d).
Definition set_pending_actions (v : list PendingAction) (d : Db) : Db :=
  mkDb (sessions d) (messages d) v (restore_points d) (session_events d)
    (follow_up_queue d) (workspace_configs d) (context_compactions d) (context_windows
    d) (local_memories d) (vision_descriptions d) (vision_routes d)
    (tool_output_attachments d).
Definition set_restore_points (v : list RestorePoint) (d : Db) : Db :=
  mkDb (sessions d) (messages d) (pending_actions d) v (session_events d)
    (follow_up_queue d) (workspace_configs d) (context_compactions d) (context_windows
    d) (local_memories d) (vision_descriptions d) (vision_routes d)
    (tool_output_attachments d).
Definition set_session_events (v : list PersistedSessionEvent) (d : Db) : Db :=
  mkDb (sessions d) (messages d) (pending_actions d) (restore_points d) v
    (follow_up_queue d) (workspace_configs d) (context_compactions d) (context_windows
    d) (local_memories d) (vision_descriptions d) (vision_routes d)
    (tool_output_attachments d).
Definition set_follow_up_queue (v : list FollowUpQueueEntry) (d : Db) : Db :=
  mkDb (sessions d) (messages d) (pending_actions d) (restore_points d)
    (session_events d) v (workspace_configs d) (context_compactions d) (context_windows
    d) (local_memories d) (vision_descriptions d) (vision_routes d)
    (tool_output_attachments d).
Definition set_workspace_configs (v : list WorkspaceConfig) (d : Db) : Db :=
  mkDb (sessions d) (messages d) (pending_actions d) (restore_points d)
    (session_events d) (follow_up_queue d) v (context_compactions d) (context_windows d)
    (local_memories d) (vision_descriptions d) (vision_routes d)
    (tool_output_attachments d).
Definition set_context_compactions (v : list ContextCompaction) (d : Db) : Db :=
  mkDb (sessions d) (messages d) (pending_actions d) (restore_points d)
    (session_events d) (follow_up_queue d) (workspace_configs d) v (context_windows d)
    (local_memories d) (vision_descriptions d) (vision_routes d)
    (tool_output_attachments d).
Definition set_context_windows (v : list ContextWindow) (d : Db) : Db :=
  mkDb (sessions d) (messages d) (pending_actions d) (restore_points d)
    (session_events d) (follow_up_queue d) (workspace_configs d) (context_compactions d)
    v (local_memories d) (vision_descriptions d) (vision_routes d)
    (tool_output_attachments d).
Definition set_local_memories (v : list LocalMemory) (d : Db) : Db :=
  mkDb (sessions d) (messages d) (pending_actions d) (restore_points d)
    (session_events d) (follow_up_queue d) (workspace_configs d) (context_compactions d)
    (context_windows d) v (vision_descriptions d) (vision_routes d)
    (tool_output_attachments d).
Definition set_vision_descriptions (v : list VisionDescriptionRow) (d : Db) : Db :=
  mkDb (sessions d) (messages d) (pending_actions d) (restore_points d)
    (session_events d) (follow_up_queue d) (workspace_configs d) (context_compactions d)
    (context_windows d) (local_memories d) v (vision_routes d) (tool_output_attachments
    d).
Definition set_vision_routes (v : list VisionRouteRow) (d : Db) : Db :=
  mkDb (sessions d) (messages d) (pending_actions d) (restore_points d)
    (session_events d) (follow_up_queue d) (workspace_configs d) (context_compactions d)
    (context_windows d) (local_memories d) (vision_descriptions d) v
    (tool_output_attachments d).
Definition set_tool_output_attachments (v : list AttachmentRow) (d : Db) : Db :=
  mkDb (sessions d) (messages d) (pending_actions d) (restore_points d)
    (session_events d) (follow_up_queue d) (workspace_configs d) (context_compactions d)
    (context_windows d) (local_memories d) (vision_descriptions d) (vision_routes d) v.

(** [connection] and [attachment_dir]; [files] are the attachment files by their
    path relative to [attachment_dir], [ticks] counts the draws from the
    environment. *)
Record SessionStore := mkStore {
  db : Db;
  attachment_dir : option str;
  files : gmap (list N) (list N);
  ticks : nat;
}.

Definition with_db (f : Db -> Db) (st : SessionStore) : SessionStore :=
  mkStore (f (db st)) (attachment_dir st) (files st) (ticks st).
Definition with_files (f : gmap (list N) (list N) -> gmap (list N) (list N))
    (st : SessionStore) : SessionStore :=
  mkStore (db st) (attachment_dir st) (f (files st)) (ticks st).

(** ** The state and error monad *)

Definition M (A : Type) : Type := SessionStore -> result A StoreError * SessionStore.

Definition ret {A} (a : A) : M A := fun st => (Ok a, st).
Definition fail {A} (e : StoreError) : M A := fun st => (Err e, st).
Definition bind {A B} (m : M A) (f : A -> M B) : M B :=
  fun st => match m st with
            | (Ok a, st') => f a st'
            | (Err e, st') => (Err e, st')
            end.
Notation "'let!' x := m 'in' k" := (bind m (fun x => k))
  (at level 10, x pattern, m at level 100, k at level 200) : xc_scope.
Notation "m ;; k" := (bind m (fun _ => k)) (at level 100, right associativity) : xc_scope.

(** Read-only query and committed statement. *)
Definition query {A} (f : Db -> A) : M A := fun st => (Ok (f (db st)), st).
Definition exec (f : Db -> Db) : M unit := fun st => (Ok tt, with_db f st).
Definition guard (b : bool) (e : StoreError) : M unit := if b then ret tt else fail e.

(** [unchecked_transaction]: the tables are restored when the body fails. *)
Definition transaction {A} (m : M A) : M A :=
  fun st => match m st with
            | (Ok a, st') => (Ok a, st')
            | (Err e, st') => (Err e, with_db (fun _ => db st) st')
            end.

(** A loop over a list with early exit on error. *)
Fixpoint for_each {A B} (l : list A) (f : A -> M B) : M (list B) :=
  match l with
  | [] => ret []
  | a :: r => let! b := f a in let! bs := for_each r f in ret (b :: bs)
  end.

Section Store.
Context {E : Env}.

Definition fresh_uuid : M uuid :=
  fun st => (Ok (new_v4 (ticks st)),
             mkStore (db st) (attachment_dir st) (files st) (S (ticks st))).
Definition now : M timestamp :=
  fun st => (Ok (utc_now (ticks st)),
             mkStore (db st) (attachment_dir st) (files st) (S (ticks st))).

(** [FOREIGN KEY (session_id) REFERENCES sessions(id)] on insertion. *)
Definition has_session (sid : uuid) (d : Db) : bool :=
  exists_where (fun s => (s_id s =? sid)%N) (sessions d).
Definition check_session_fk (sid : uuid) : M unit :=
  let! ok := query (fun d => negb foreign_keys || has_session sid d) in
  guard ok (Database ConstraintForeignKey).

(** A [PRIMARY KEY] or [UNIQUE] constraint on insertion. *)
Definition check_unique (taken : Db -> bool) : M unit :=
  let! bad := query taken in guard (negb bad) (Database ConstraintUnique).

(** ** Text helpers *)

Definition TOOL_OUTPUT_ATTACHMENT_THRESHOLD : N := 262144.
Definition TOOL_OUTPUT_PREVIEW_BYTES : N := 16384.
Definition SESSION_MESSAGE_PAGE_SIZE : nat := 50.

Definition normalize_workspace_root (value : str) : str :=
  to_ascii_lowercase
    (trim_end_matches (N.eqb SLASH)
      (trim_start_matches_str $"//./"
        (trim_start_matches_str $"//?/"
          (replace_char BACKSLASH [SLASH] (trim value))))).

Definition ELLIPSIS : char := 8230%N.

(** The first non-blank line of [ls], trimmed. *)
Definition first_line (ls : list str) : str :=
  or_else (List.find (fun line => negb (is_empty line)) (map trim ls)) [].

(** [line] with its blanks collapsed, cut to 48 characters. *)
Definition collapse_title (line : str) : str :=
  let collapsed := join $" " (split_whitespace line) in
  if length collapsed <=? 48 then collapsed else take 47 collapsed ++ [ELLIPSIS].

Definition title_from_message (message : str) : str :=
  collapse_title (first_line (lines message)).

Definition byte_lenN (s : str) : N := N.of_nat (byte_len s).

(** [String::from_utf8_lossy] of the first [n] bytes of a valid string: a
    character that is cut becomes one replacement character. *)
Fixpoint lossy_prefix (n : N) (s : str) : str :=
  match s with
  | [] => []
  | c :: r =>
    let k := N.of_nat (length (utf8_char c)) in
    if (k <=? n)%N then c :: lossy_prefix (n - k) r
    else if (n =? 0)%N then [] else [65533%N]
  end.

Definition tool_output_preview (content : str) : str :=
  lossy_prefix TOOL_OUTPUT_PREVIEW_BYTES content
  ++ [LF; LF] ++ $"[XCoding saved the full tool output as a local attachment.]".

Definition preview_to_message (p : SessionMessagePreview) : Message :=
  mkMessage (mp_id p) (mp_session_id p) (mp_role p) (mp_content p) (mp_created_at p).

Definition escape_like_pattern (value : str) : str :=
  replace_char 95%N $"\_"
    (replace_char 37%N $"\%" (replace_char BACKSLASH [BACKSLASH; BACKSLASH] value)).

Definition validate_context_tool_page (limit : nat) : M unit :=
  guard ((MIN_CONTEXT_TOOL_LIMIT <=? limit) && (limit <=? MAX_CONTEXT_TOOL_LIMIT))
    (InvalidInput ($"limit must be an integer from " ++ show_nat MIN_CONTEXT_TOOL_LIMIT
                   ++ $" to " ++ show_nat MAX_CONTEXT_TOOL_LIMIT)).

Definition validate_local_memory_content (content : str) : M str :=
  let trimmed := trim content in
  guard (negb (is_empty trimmed))
    (InvalidInput $"local memory content must not be empty") ;;
  guard (length trimmed <=? MAX_LOCAL_MEMORY_CHARS)
    (InvalidInput ($"local memory content must be at most "
                   ++ show_nat MAX_LOCAL_MEMORY_CHARS ++ $" characters")) ;;
  ret trimmed.

Definition session_id_for_event (e : SessionEvent) : uuid :=
  match e with
  | EvTextDelta s _ | EvMessageCompleted s _ | EvPlan s _ | EvToolStart s _ _
  | EvToolEnd s _ _ _ | EvPatchPreview s _ | EvApprovalRequested s _ _
  | EvRestorePointRolledBack s _ _ | EvSessionCancelled s _ | EvTaskCompleted s _
  | EvRetrying s _ _ _ | EvStreamReset s _ _ | EvModelCall s _ | EvError s _
  | EvVisionDelegateStart s _ _ _ | EvVisionDelegateSuccess s _ _
  | EvVisionDelegateFailed s _ _ | EvVisionDescriptionsApplied s _ _ _ _
  | EvContextCompacted s _ _ => s
  end.

(** ** Orders of the queries *)

Definition message_le (a b : Message) : bool := (m_created_at a <=? m_created_at b)%Z.
Definition session_ge (a b : Session) : bool := (s_created_at b <=? s_created_at a)%Z.
Definition action_le (a b : PendingAction) : bool := (pa_created_at a <=? pa_created_at b)%Z.
Definition restore_le (a b : RestorePoint) : bool := (rp_created_at a <=? rp_created_at b)%Z.
Definition event_le (a b : PersistedSessionEvent) : bool :=
  (pe_created_at a <=? pe_created_at b)%Z.
Definition window_le (a b : ContextWindow) : bool := cw_window_index a <=? cw_window_index b.

(** [created_at ASC, id ASC]; identifiers print with a fixed width, so their
    text order is their numeric order. *)
Definition lex_le (ca cb : timestamp) (ia ib : uuid) : bool :=
  (ca <? cb)%Z || ((ca =? cb)%Z && (ia <=? ib)%N).
Definition memory_le (a b : LocalMemory) : bool :=
  lex_le (lm_created_at a) (lm_created_at b) (lm_id a) (lm_id b).
Definition follow_up_le (a b : FollowUpQueueEntry) : bool :=
  lex_le (fq_created_at a) (fq_created_at b) (fq_id a) (fq_id b).

(** ** Sessions *)

Definition update_session (sid : uuid) (f : Session -> Session) (d : Db) : Db :=
  set_sessions (update_where (fun s => (s_id s =? sid)%N) f (sessions d)) d.

Definition with_status (x : SessionStatus) (t : timestamp) (s : Session) : Session :=
  mkSession (s_id s) (s_workspace_root s) (s_mode s) (s_provider s) (s_model s) x
    (s_created_at s) t (s_title s).
Definition with_title (x : str) (t : timestamp) (s : Session) : Session :=
  mkSession (s_id s) (s_workspace_root s) (s_mode s) (s_provider s) (s_model s) (s_status s)
    (s_created_at s) t (Some x).
Definition with_model (x : str) (t : timestamp) (s : Session) : Session :=
  mkSession (s_id s) (s_workspace_root s) (s_mode s) (s_provider s) x (s_status s)
    (s_created_at s) t (s_title s).
Definition with_mode (x : Mode) (t : timestamp) (s : Session) : Session :=
  mkSession (s_id s) (s_workspace_root s) x (s_provider s) (s_model s) (s_status s)
    (s_created_at s) t (s_title s).

Definition create_session (params : CreateSessionParams) : M Session :=
  let model := trim (cs_model params) in
  guard (negb (is_empty model)) (InvalidInput $"model must not be empty") ;;
  let! t := now in
  let! id := fresh_uuid in
  let session := mkSession id (cs_workspace_root params) (cs_mode params) (cs_provider params)
                   model Created t t (cs_title params) in
  check_unique (has_session id) ;;
  exec (fun d => set_sessions (sessions d ++ [session]) d) ;;
  ret session.

(** Messages of a session in the order of every query on them. *)
Definition session_messages (sid : uuid) (d : Db) : list Message :=
  order_by message_le (select (fun m => (m_session_id m =? sid)%N) (messages d)).

Definition first_user_message_content (sid : uuid) : M (option str) :=
  query (fun d =>
    option_map m_content
      (List.find (fun m => bool_decide (m_role m = User)) (session_messages sid d))).

(** SQLite's [trim] removes spaces only. *)
Definition sql_blank (title : option str) : bool :=
  match title with
  | None => true
  | Some t => is_empty (trim_matches (N.eqb 32) t)
  end.

Definition fill_session_title (session : Session) : M Session :=
  if match s_title session with Some v => negb (is_empty (trim v)) | None => false end
  then ret session
  else
    let! content := first_user_message_content (s_id session) in
    match content with
    | None => ret session
    | Some content =>
      let derived := title_from_message content in
      if is_empty derived then ret session
      else
        exec (fun d => set_sessions
          (update_where (fun s => (s_id s =? s_id session)%N && sql_blank (s_title s))
             (fun s => with_title derived (s_updated_at s) s) (sessions d)) d) ;;
        ret (with_title derived (s_updated_at session) session)
    end.

Definition list_sessions (workspace_root : option str) : M (list Session) :=
  let! rows := query (fun d =>
    order_by session_ge
      (match workspace_root with
       | Some root => select (fun s => s_workspace_root s =s root) (sessions d)
       | None => sessions d
       end)) in
  for_each rows fill_session_title.

Definition find_session (sid : uuid) (d : Db) : option Session :=
  List.find (fun s => (s_id s =? sid)%N) (sessions d).

Definition get_session (sid : uuid) : M (option Session) :=
  let! row := query (find_session sid) in
  match row with
  | Some s => let! s' := fill_session_title s in ret (Some s')
  | None => ret None
  end.

(** [UPDATE sessions SET ... WHERE id = ?] followed by the read back. *)
Definition change_session (sid : uuid) (f : timestamp -> Session -> Session)
  : M (option Session) :=
  let! t := now in
  let! found := query (has_session sid) in
  exec (update_session sid (f t)) ;;
  if found then get_session sid else ret None.

Definition set_session_status (sid : uuid) (x : SessionStatus) : M (option Session) :=
  change_session sid (with_status x).
Definition set_session_title (sid : uuid) (x : str) : M (option Session) :=
  change_session sid (with_title x).
Definition set_session_model (sid : uuid) (x : str) : M (option Session) :=
  let model := trim x in
  guard (negb (is_empty model)) (InvalidInput $"model must not be empty") ;;
  change_session sid (with_model model).
Definition set_session_mode (sid : uuid) (x : Mode) : M (option Session) :=
  change_session sid (with_mode x).

(** ** Workspace configuration *)

Definition get_workspace_config (root : str) : M (option WorkspaceConfig) :=
  query (fun d => List.find (fun c => wc_workspace_root c =s root) (workspace_configs d)).

(** The columns that are stored; the command lists live in files. *)
Definition config_row (c : WorkspaceConfig) : WorkspaceConfig :=
  mkWorkspaceConfig (wc_workspace_root c) (wc_mode c) (wc_provider c) (wc_model c) [] []
    (wc_updated_at c).

Definition set_workspace_config (config : WorkspaceConfig) : M WorkspaceConfig :=
  let same := fun c => wc_workspace_root c =s wc_workspace_root config in
  exec (fun d => set_workspace_configs
    (if exists_where same (workspace_configs d)
     then update_where same (fun _ => config_row config) (workspace_configs d)
     else workspace_configs d ++ [config_row config]) d) ;;
  ret config.

(** ** Attachments of tool output *)

Definition relative_attachment_path (sid mid : uuid) : str :=
  uuid_text sid ++ $"/" ++ uuid_text mid ++ $".txt".

Definition attachments_unavailable : StoreError :=
  InvalidInput $"attachments are unavailable for an in-memory store".

Definition require_attachment_dir : M str :=
  fun st => match attachment_dir st with
            | Some root => (Ok root, st)
            | None => (Err attachments_unavailable, st)
            end.
Definition has_attachment_dir : M bool :=
  fun st => (Ok (bool_decide (is_Some (attachment_dir st))), st).

Definition write_file (path content : str) : M unit :=
  fun st => (Ok tt, with_files (fun f => <[path := content]> f) st).
Definition read_file_text (path : str) : M str :=
  fun st => match files st !! path with
            | Some c => (Ok c, st)
            | None => (Err (Io path), st)
            end.
Definition remove_files (paths : list str) : M unit :=
  fun st => (Ok tt, with_files (fun f => foldr (fun p f => delete p f) f paths) st).

(** [write_tool_output_attachment]: a temporary file with a random name, then
    the rename to the final path. *)
Definition write_tool_output_attachment (sid mid : uuid) (content : str) : M str :=
  require_attachment_dir ;;
  fresh_uuid ;;
  let path := relative_attachment_path sid mid in
  write_file path content ;;
  ret path.

Definition find_tool_output_attachment_with_size (sid mid : uuid) : M (option (str * N)) :=
  let! row := query (fun d =>
    List.find (fun a => (at_session_id a =? sid)%N && (at_message_id a =? mid)%N)
      (tool_output_attachments d)) in
  match row with
  | None => ret None
  | Some a => require_attachment_dir ;; ret (Some (at_relative_path a, at_byte_length a))
  end.

Definition find_tool_output_attachment (sid mid : uuid) : M (option str) :=
  let! r := find_tool_output_attachment_with_size sid mid in ret (option_map fst r).

Definition attachment_paths_for_session_text (sid : uuid) : M (list str) :=
  fun st => match attachment_dir st with
            | None => (Ok [], st)
            | Some _ =>
              (Ok (map at_relative_path
                     (select (fun a => (at_session_id a =? sid)%N)
                        (tool_output_attachments (db st)))), st)
            end.

(** [INSERT INTO tool_output_attachments]. *)
Definition insert_attachment (a : AttachmentRow) : M unit :=
  check_unique (fun d => exists_where (fun b => (at_message_id b =? at_message_id a)%N)
                           (tool_output_attachments d)) ;;
  check_session_fk (at_session_id a) ;;
  let! ok := query (fun d => negb foreign_keys
                             || exists_where (fun m => (m_id m =? at_message_id a)%N)
                                  (messages d)) in
  guard ok (Database ConstraintForeignKey) ;;
  exec (fun d => set_tool_output_attachments (tool_output_attachments d ++ [a]) d).

(** [if let Err(error) = m { cleanup; return Err(error) }] *)
Definition on_error {A} (m : M A) (cleanup : M unit) : M A :=
  fun st => match m st with
            | (Ok a, st') => (Ok a, st')
            | (Err e, st') => (Err e, snd (cleanup st'))
            end.

(** ** Messages *)

(** [INSERT INTO messages]. *)
Definition insert_message (m : Message) : M unit :=
  check_unique (fun d => exists_where (fun x => (m_id x =? m_id m)%N) (messages d)) ;;
  check_session_fk (m_session_id m) ;;
  exec (fun d => set_messages (messages d ++ [m]) d).

(** [DELETE FROM messages WHERE ..] fails while an attachment row refers to one
    of the rows. *)
Definition delete_messages_where (p : Message -> bool) : M unit :=
  let! ok := query (fun d => negb foreign_keys || negb (exists_where
    (fun a => exists_where (fun m => p m && (m_id m =? at_message_id a)%N)
                (messages d)) (tool_output_attachments d))) in
  guard ok (Database ConstraintForeignKey) ;;
  exec (fun d => set_messages (delete_where p (messages d)) d).

Definition delete_message (mid : uuid) : M unit :=
  delete_messages_where (fun x => (m_id x =? mid)%N).

Definition set_message_content (mid : uuid) (content : str) : M unit :=
  exec (fun d => set_messages
    (update_where (fun x => (m_id x =? mid)%N)
       (fun x => mkMessage (m_id x) (m_session_id x) (m_role x) content (m_created_at x))
       (messages d)) d).

Definition append_message (sid : uuid) (role : MessageRole) (content : str) : M Message :=
  let! id := fresh_uuid in
  let! t := now in
  let! has_dir := has_attachment_dir in
  if bool_decide (role = Tool) && (TOOL_OUTPUT_ATTACHMENT_THRESHOLD <? byte_lenN content)%N
     && has_dir
  then
    let! path := write_tool_output_attachment sid id content in
    let message := mkMessage id sid role (tool_output_preview content) t in
    on_error (insert_message message) (remove_files [path]) ;;
    on_error
      (insert_attachment
         (mkAttachment id sid (relative_attachment_path sid id) (byte_lenN content)))
      (remove_files [path] ;; delete_message id) ;;
    ret message
  else
    let message := mkMessage id sid role content t in
    insert_message message ;;
    ret message.

Definition count_messages (sid : uuid) : M nat :=
  query (fun d => count_where (fun m => (m_session_id m =? sid)%N) (messages d)).

(** [SELECT content FROM messages WHERE id = ?] *)
Definition message_content (mid : uuid) : M str :=
  let! row := query (fun d => List.find (fun m => (m_id m =? mid)%N) (messages d)) in
  match row with
  | Some m => ret (m_content m)
  | None => fail (Database QueryReturnedNoRows)
  end.

Definition migrate_legacy_tool_output (sid mid : uuid) : M unit :=
  let! existing := find_tool_output_attachment sid mid in
  match existing with
  | Some _ => ret tt
  | None =>
    let! has_dir := has_attachment_dir in
    if negb has_dir then ret tt
    else
      let! content := message_content mid in
      let! path := write_tool_output_attachment sid mid content in
      if (byte_lenN content <=? TOOL_OUTPUT_ATTACHMENT_THRESHOLD)%N
      then remove_files [path]
      else
        on_error
          (transaction
             (insert_attachment
                (mkAttachment mid sid (relative_attachment_path sid mid) (byte_lenN content)) ;;
              set_message_content mid (tool_output_preview content)))
          (remove_files [path])
  end.

Definition message_preview (m : Message) : M SessionMessagePreview :=
  let preview := fun content bytes full =>
    mkPreview (m_id m) (m_session_id m) (m_role m) content (m_created_at m) bytes full in
  let! attached := find_tool_output_attachment_with_size (m_session_id m) (m_id m) in
  match attached with
  | Some (_, byte_length) =>
    let! content := message_content (m_id m) in
    ret (preview content byte_length true)
  | None =>
    let! content := message_content (m_id m) in
    let byte_length := byte_lenN content in
    let is_tool := bool_decide (m_role m = Tool) in
    if is_tool && (TOOL_OUTPUT_ATTACHMENT_THRESHOLD <? byte_length)%N then
      migrate_legacy_tool_output (m_session_id m) (m_id m) ;;
      let! content' := message_content (m_id m) in
      ret (preview content' byte_length true)
    else if is_tool && (TOOL_OUTPUT_PREVIEW_BYTES <? byte_length)%N then
      ret (preview (lossy_prefix TOOL_OUTPUT_PREVIEW_BYTES content
                    ++ [LF; LF] ++ $"[Message preview truncated.]") byte_length false)
    else ret (preview content byte_length false)
  end.

Definition list_message_previews_page (sid : uuid) (offset limit : nat)
  : M SessionMessagePage :=
  validate_context_tool_page limit ;;
  let! total_messages := count_messages sid in
  let! rows := query (fun d => page offset limit (session_messages sid d)) in
  let! msgs := for_each rows message_preview in
  ret (mkPage msgs offset total_messages (0 <? offset)).

(** The offsets [(0..total).step_by(50)]. *)
Definition page_offsets (total : nat) : list nat :=
  map (fun i => i * SESSION_MESSAGE_PAGE_SIZE)
    (seq 0 ((total + (SESSION_MESSAGE_PAGE_SIZE - 1)) / SESSION_MESSAGE_PAGE_SIZE)).

Definition list_messages (sid : uuid) : M (list Message) :=
  let! total := count_messages sid in
  let! pages := for_each (page_offsets total) (fun offset =>
    list_message_previews_page sid offset SESSION_MESSAGE_PAGE_SIZE) in
  ret (concat (map (fun p => map preview_to_message (pg_messages p)) pages)).

Definition list_messages_page (sid : uuid) (offset limit : nat) : M (list Message) :=
  let! p := list_message_previews_page sid offset limit in
  ret (map preview_to_message (pg_messages p)).

Definition open_tool_output_attachment (sid mid : uuid) : M str :=
  let! existing := find_tool_output_attachment sid mid in
  match existing with
  | Some path => ret path
  | None =>
    let! found := query (fun d => exists_where
      (fun m => (m_session_id m =? sid)%N && (m_id m =? mid)%N && bool_decide (m_role m = Tool))
      (messages d)) in
    guard found (InvalidInput $"tool output attachment not found") ;;
    migrate_legacy_tool_output sid mid ;;
    let! again := find_tool_output_attachment sid mid in
    match again with
    | Some path => ret path
    | None => fail (InvalidInput $"tool output is too small to export")
    end
  end.

Definition get_session_message (sid mid : uuid) : M (option Message) :=
  let! row := query (fun d =>
    List.find (fun m => (m_session_id m =? sid)%N && (m_id m =? mid)%N) (messages d)) in
  match row with
  | None => ret None
  | Some m =>
    let! attached := find_tool_output_attachment sid mid in
    let! content :=
      match attached with
      | Some path => read_file_text path
      | None =>
        let! has_dir := has_attachment_dir in
        if bool_decide (m_role m = Tool)
           && (TOOL_OUTPUT_ATTACHMENT_THRESHOLD <? byte_lenN (m_content m))%N && has_dir
        then
          migrate_legacy_tool_output sid mid ;;
          let! again := find_tool_output_attachment sid mid in
          match again with
          | Some path => read_file_text path
          | None => fail (InvalidInput $"tool output attachment could not be created")
          end
        else message_content mid
      end in
    ret (Some (mkMessage (m_id m) (m_session_id m) (m_role m) content (m_created_at m)))
  end.

Definition search_session_messages (sid : uuid) (query_text : str) (offset limit : nat)
  : M (list Message) :=
  let q := trim query_text in
  guard (negb (is_empty q)) (InvalidInput $"history search query must not be empty") ;;
  validate_context_tool_page limit ;;
  let pattern := $"%" ++ escape_like_pattern q ++ $"%" in
  let! rows := query (fun d =>
    page offset limit
      (order_by message_le
         (select (fun m => (m_session_id m =? sid)%N && sql_like pattern (m_content m))
            (messages d)))) in
  let! previews := for_each rows message_preview in
  ret (map preview_to_message previews).

(** ** Deletion of sessions *)

Definition delete_session_messages (sid : uuid) : M unit :=
  delete_messages_where (fun m => (m_session_id m =? sid)%N).

Definition delete_session_attachments (sid : uuid) : M unit :=
  exec (fun d => set_tool_output_attachments
    (delete_where (fun a => (at_session_id a =? sid)%N) (tool_output_attachments d)) d).
Definition delete_session_windows (sid : uuid) : M unit :=
  exec (fun d => set_context_windows
    (delete_where (fun w => (cw_session_id w =? sid)%N) (context_windows d)) d).
Definition delete_session_actions (sid : uuid) : M unit :=
  exec (fun d => set_pending_actions
    (delete_where (fun a => (pa_session_id a =? sid)%N) (pending_actions d)) d).
Definition delete_session_restore_points (sid : uuid) : M unit :=
  exec (fun d => set_restore_points
    (delete_where (fun r => (rp_session_id r =? sid)%N) (restore_points d)) d).
Definition delete_session_events (sid : uuid) : M unit :=
  exec (fun d => set_session_events
    (delete_where (fun e => (pe_session_id e =? sid)%N) (session_events d)) d).
Definition delete_session_follow_ups (sid : uuid) : M unit :=
  exec (fun d => set_follow_up_queue
    (delete_where (fun q => (fq_session_id q =? sid)%N) (follow_up_queue d)) d).
Definition delete_session_compactions (sid : uuid) : M unit :=
  exec (fun d => set_context_compactions
    (delete_where (fun c => (cc_session_id c =? sid)%N) (context_compactions d)) d).

(** Some row of a child table refers to the session. *)
Definition session_referenced (sid : uuid) (d : Db) : bool :=
  exists_where (fun m => (m_session_id m =? sid)%N) (messages d)
  || exists_where (fun a => (pa_session_id a =? sid)%N) (pending_actions d)
  || exists_where (fun r => (rp_session_id r =? sid)%N) (restore_points d)
  || exists_where (fun e => (pe_session_id e =? sid)%N) (session_events d)
  || exists_where (fun q => (fq_session_id q =? sid)%N) (follow_up_queue d)
  || exists_where (fun c => (cc_session_id c =? sid)%N) (context_compactions d)
  || exists_where (fun w => (cw_session_id w =? sid)%N) (context_windows d)
  || exists_where (fun a => (at_session_id a =? sid)%N) (tool_output_attachments d).

(** [DELETE FROM sessions WHERE id = ?], with the number of rows removed. *)
Definition delete_session_row (sid : uuid) : M nat :=
  let! n := query (fun d => count_where (fun s => (s_id s =? sid)%N) (sessions d)) in
  let! ok := query (fun d => negb foreign_keys || negb (has_session sid d)
                             || negb (session_referenced sid d)) in
  guard ok (Database ConstraintForeignKey) ;;
  exec (fun d => set_sessions (delete_where (fun s => (s_id s =? sid)%N) (sessions d)) d) ;;
  ret n.

Definition delete_session (sid : uuid) : M bool :=
  let! attachment_paths := attachment_paths_for_session_text sid in
  delete_session_windows sid ;;
  delete_session_attachments sid ;;
  delete_session_messages sid ;;
  delete_session_actions sid ;;
  delete_session_restore_points sid ;;
  delete_session_events sid ;;
  delete_session_follow_ups sid ;;
  delete_session_compactions sid ;;
  let! deleted := delete_session_row sid in
  remove_files attachment_paths ;;
  ret (0 <? deleted).

(** One iteration of the loop of [delete_workspace_sessions]. *)
Definition delete_workspace_session (sid : uuid) : M unit :=
  delete_session_windows sid ;;
  delete_session_messages sid ;;
  delete_session_attachments sid ;;
  delete_session_actions sid ;;
  delete_session_restore_points sid ;;
  delete_session_events sid ;;
  delete_session_follow_ups sid ;;
  delete_session_compactions sid ;;
  delete_session_row sid ;;
  ret tt.

Definition workspace_session_ids (workspace_key : str) (d : Db) : list uuid :=
  map s_id (select (fun s => normalize_workspace_root (s_workspace_root s) =s workspace_key)
              (sessions d)).

Definition delete_workspace_sessions (workspace_root : str) : M nat :=
  let workspace_key := normalize_workspace_root workspace_root in
  guard (negb (is_empty workspace_key)) (InvalidInput $"workspace_root must not be empty") ;;
  let! (ids, paths) :=
    transaction
      (let! session_ids := query (workspace_session_ids workspace_key) in
       let! attachment_paths := for_each session_ids attachment_paths_for_session_text in
       for_each session_ids delete_workspace_session ;;
       exec (fun d => set_workspace_configs
         (delete_where (fun c => normalize_workspace_root (wc_workspace_root c)
                                 =s workspace_key) (workspace_configs d)) d) ;;
       ret (session_ids, concat attachment_paths)) in
  remove_files paths ;;
  ret (length ids).

(** ** Follow-up queue *)

Definition queue_follow_up (params : QueueFollowUpParams) : M FollowUpQueueEntry :=
  guard (negb (is_empty (trim (qf_text params)) && is_empty (qf_images params)
               && is_empty (qf_text_files params)))
    (InvalidInput $"follow-up queue content must not be empty") ;;
  let! s := get_session (qf_session_id params) in
  match s with
  | None => fail (InvalidInput ($"session not found: " ++ uuid_text (qf_session_id params)))
  | Some _ =>
    let! t := now in
    let! id := fresh_uuid in
    let entry := mkFollowUp id (qf_session_id params) (qf_text params) (qf_images params)
                   (qf_text_files params) Queued t t in
    check_unique (fun d => exists_where (fun q => (fq_id q =? id)%N) (follow_up_queue d)) ;;
    check_session_fk (qf_session_id params) ;;
    exec (fun d => set_follow_up_queue (follow_up_queue d ++ [entry]) d) ;;
    ret entry
  end.

Definition list_follow_up_queue (sid : uuid) : M (list FollowUpQueueEntry) :=
  query (fun d => order_by follow_up_le
    (select (fun q => (fq_session_id q =? sid)%N) (follow_up_queue d))).

Definition with_queue_status (x : FollowUpQueueStatus) (t : timestamp)
    (q : FollowUpQueueEntry) : FollowUpQueueEntry :=
  mkFollowUp (fq_id q) (fq_session_id q) (fq_text q) (fq_images q) (fq_text_files q) x
    (fq_created_at q) t.

Definition set_follow_up_queue_status (sid fid : uuid) (x : FollowUpQueueStatus)
  : M (option FollowUpQueueEntry) :=
  let this := fun q => (fq_session_id q =? sid)%N && (fq_id q =? fid)%N in
  let! t := now in
  let! found := query (fun d => exists_where this (follow_up_queue d)) in
  exec (fun d => set_follow_up_queue
    (update_where this (with_queue_status x t) (follow_up_queue d)) d) ;;
  if found then query (fun d => List.find this (follow_up_queue d)) else ret None.

Definition mark_queued_follow_ups_not_started (sid : uuid) : M nat :=
  let queued := fun q => (fq_session_id q =? sid)%N && bool_decide (fq_status q = Queued) in
  let! t := now in
  let! n := query (fun d => count_where queued (follow_up_queue d)) in
  exec (fun d => set_follow_up_queue
    (update_where queued (with_queue_status NotStarted t) (follow_up_queue d)) d) ;;
  ret n.

Definition delete_follow_up_queue_entry (sid fid : uuid) : M bool :=
  let this := fun q => (fq_session_id q =? sid)%N && (fq_id q =? fid)%N in
  let! found := query (fun d => exists_where this (follow_up_queue d)) in
  exec (fun d => set_follow_up_queue (delete_where this (follow_up_queue d)) d) ;;
  ret found.

(** ** Startup reconciliation *)

Definition reconcile_interrupted_sessions : M nat :=
  let running := fun s => bool_decide (s_status s = Running) in
  let! t := now in
  let! changed := query (fun d => count_where running (sessions d)) in
  exec (fun d => set_sessions (update_where running (with_status Cancelled t) (sessions d)) d) ;;
  let! t' := now in
  exec (fun d => set_follow_up_queue
    (update_where (fun q => bool_decide (fq_status q = Queued))
       (with_queue_status NotStarted t') (follow_up_queue d)) d) ;;
  ret changed.

(** ** Context windows and compactions *)

Definition session_windows (sid : uuid) (d : Db) : list ContextWindow :=
  select (fun w => (cw_session_id w =? sid)%N) (context_windows d).

(** [SELECT MAX(column)]: [None] on no row. *)
Definition sql_max (l : list nat) : option nat :=
  match l with [] => None | x :: r => Some (foldr Nat.max x r) end.

Definition latest_context_window_start (sid : uuid) : M nat :=
  query (fun d => or_else (sql_max (map cw_start_message_count (session_windows sid d))) 0).

Definition create_context_window (sid : uuid) (start_message_count : nat) : M nat :=
  guard (negb (start_message_count =? 0))
    (InvalidInput $"the initial context window is implicit and cannot be persisted") ;;
  let! existing := query (fun d =>
    List.find (fun w => cw_start_message_count w =? start_message_count)
      (session_windows sid d)) in
  match existing with
  | Some w => ret (cw_window_index w)
  | None =>
    let! latest_start := query (fun d =>
      sql_max (map cw_start_message_count (session_windows sid d))) in
    guard (match latest_start with
           | Some latest => negb (start_message_count <? latest)
           | None => true
           end) (InvalidInput $"context window boundary cannot move backward") ;;
    let! row := query (fun d => session_messages sid d !! start_message_count) in
    match row with
    | None =>
      fail (InvalidInput $"context window boundary must reference an existing message")
    | Some m =>
      guard (bool_decide (m_role m = User))
        (InvalidInput $"context window boundary must reference a user message") ;;
      let! next_index := query (fun d =>
        or_else (sql_max (map cw_window_index (session_windows sid d))) 0 + 1) in
      let! t := now in
      check_unique (fun d => exists_where (fun w => (cw_session_id w =? sid)%N
          && ((cw_window_index w =? next_index)
              || (cw_start_message_count w =? start_message_count))) (context_windows d)) ;;
      check_session_fk sid ;;
      exec (fun d => set_context_windows
        (context_windows d ++ [mkContextWindow sid next_index start_message_count t]) d) ;;
      ret next_index
    end
  end.

Definition list_context_windows (sid : uuid) : M (list ContextWindow) :=
  query (fun d => order_by window_le (session_windows sid d)).

Definition get_context_compaction (sid : uuid) : M (option ContextCompaction) :=
  query (fun d => List.find (fun c => (cc_session_id c =? sid)%N) (context_compactions d)).

Definition save_context_compaction (c : ContextCompaction) : M ContextCompaction :=
  guard (negb (is_empty (trim (cc_summary c))))
    (InvalidInput $"context compaction summary must not be empty") ;;
  let same := fun x => (cc_session_id x =? cc_session_id c)%N in
  check_session_fk (cc_session_id c) ;;
  exec (fun d => set_context_compactions
    (if exists_where same (context_compactions d)
     then update_where same (fun _ => c) (context_compactions d)
     else context_compactions d ++ [c]) d) ;;
  ret c.

(** ** Local memories *)

Definition save_local_memory (workspace_root content : str) : M (option LocalMemory) :=
  let! trimmed := validate_local_memory_content content in
  let! id := fresh_uuid in
  let root := normalize_workspace_root workspace_root in
  let! t := now in
  let memory := mkLocalMemory id root trimmed t in
  let! duplicate := query (fun d => exists_where
    (fun m => (lm_workspace_root m =s root) && (lm_content m =s trimmed)) (local_memories d)) in
  if duplicate then ret None
  else
    check_unique (fun d => exists_where (fun m => (lm_id m =? id)%N) (local_memories d)) ;;
    exec (fun d => set_local_memories (local_memories d ++ [memory]) d) ;;
    ret (Some memory).

Definition workspace_memories (root : str) (d : Db) : list LocalMemory :=
  select (fun m => lm_workspace_root m =s root) (local_memories d).

(** The inner query takes the newest [limit] rows, the outer one restores the
    ascending order. *)
Definition list_local_memories (workspace_root : str) (limit : nat) : M (list LocalMemory) :=
  query (fun d =>
    order_by memory_le
      (take limit
         (order_by (fun a b => memory_le b a)
            (workspace_memories (normalize_workspace_root workspace_root) d)))).

Definition list_local_memories_page (workspace_root : str) (offset limit : nat)
  : M (list LocalMemory) :=
  validate_context_tool_page limit ;;
  query (fun d => page offset limit
    (order_by memory_le (workspace_memories (normalize_workspace_root workspace_root) d))).

Definition get_local_memory (workspace_root : str) (mid : uuid) : M (option LocalMemory) :=
  query (fun d => List.find
    (fun m => (lm_workspace_root m =s normalize_workspace_root workspace_root)
              && (lm_id m =? mid)%N) (local_memories d)).

Definition search_local_memories (workspace_root query_text : str) (offset limit : nat)
  : M (list LocalMemory) :=
  let q := trim query_text in
  guard (negb (is_empty q)) (InvalidInput $"notes search query must not be empty") ;;
  validate_context_tool_page limit ;;
  let pattern := $"%" ++ escape_like_pattern q ++ $"%" in
  query (fun d => page offset limit
    (order_by memory_le
       (select (fun m => (lm_workspace_root m =s normalize_workspace_root workspace_root)
                         && sql_like pattern (lm_content m)) (local_memories d)))).

Definition with_memory_content (c : str) (m : LocalMemory) : LocalMemory :=
  mkLocalMemory (lm_id m) (lm_workspace_root m) c (lm_created_at m).

Definition replace_local_memory (workspace_root : str) (mid : uuid) (content : str)
  : M (option LocalMemory) :=
  let! trimmed := validate_local_memory_content content in
  let root := normalize_workspace_root workspace_root in
  let this := fun m => (lm_workspace_root m =s root) && (lm_id m =? mid)%N in
  let! found := query (fun d => exists_where this (local_memories d)) in
  check_unique (fun d => exists_where this (local_memories d)
    && exists_where (fun m => negb (lm_id m =? mid)%N && (lm_workspace_root m =s root)
                              && (lm_content m =s trimmed)) (local_memories d)) ;;
  exec (fun d => set_local_memories
    (update_where this (with_memory_content trimmed) (local_memories d)) d) ;;
  if found then get_local_memory root mid else ret None.

Definition count_local_memories (workspace_root : str) : M nat :=
  query (fun d =>
    length (workspace_memories (normalize_workspace_root workspace_root) d)).

Definition clear_local_memories (workspace_root : str) : M nat :=
  let this := fun m => lm_workspace_root m =s normalize_workspace_root workspace_root in
  let! n := query (fun d => count_where this (local_memories d)) in
  exec (fun d => set_local_memories (delete_where this (local_memories d)) d) ;;
  ret n.

(** ** Vision cache *)

Record StoredVisionDescription := mkStoredVision {
  sv_description : str; sv_delegate_model : str }.

Definition get_vision_description (cache_key : str) : M (option StoredVisionDescription) :=
  query (fun d => option_map
    (fun r => mkStoredVision (vd_description r) (or_else (vd_delegate_model r) []))
    (List.find (fun r => vd_cache_key r =s cache_key) (vision_descriptions d))).

Definition save_vision_description (cache_key delegate_model : str) (sid : option uuid)
    (description : str) : M unit :=
  let same := fun r => vd_cache_key r =s cache_key in
  let! t := now in
  let row := mkVisionDescription cache_key description t (Some delegate_model) sid in
  exec (fun d => set_vision_descriptions
    (if exists_where same (vision_descriptions d)
     then update_where same (fun _ => row) (vision_descriptions d)
     else vision_descriptions d ++ [row]) d).

Definition get_vision_route_status (route_key : str) : M (option str) :=
  query (fun d => option_map vr_status
    (List.find (fun r => vr_route_key r =s route_key) (vision_routes d))).

Definition save_vision_route_status (route_key status : str) : M unit :=
  let same := fun r => vr_route_key r =s route_key in
  let! t := now in
  let row := mkVisionRoute route_key status t in
  exec (fun d => set_vision_routes
    (if exists_where same (vision_routes d)
     then update_where same (fun _ => row) (vision_routes d)
     else vision_routes d ++ [row]) d).

(** ** Pending actions and restore points *)

Definition create_pending_action (sid : uuid) (call : ToolCall) : M PendingAction :=
  let! id := fresh_uuid in
  let! t := now in
  let action := mkPendingAction id sid call Pending t None in
  check_unique (fun d => exists_where (fun a => (pa_id a =? id)%N) (pending_actions d)) ;;
  check_session_fk sid ;;
  exec (fun d => set_pending_actions (pending_actions d ++ [action]) d) ;;
  ret action.

Definition find_pending_action (aid : uuid) (d : Db) : option PendingAction :=
  List.find (fun a => (pa_id a =? aid)%N) (pending_actions d).

Definition get_pending_action (aid : uuid) : M (option PendingAction) :=
  query (find_pending_action aid).

Definition with_action_status (x : PendingActionStatus) (t : timestamp) (a : PendingAction)
  : PendingAction :=
  mkPendingAction (pa_id a) (pa_session_id a) (pa_tool_call a) x (pa_created_at a) (Some t).

Definition resolve_pending_action (aid : uuid) (x : PendingActionStatus)
  : M (option PendingAction) :=
  let open := fun a => (pa_id a =? aid)%N && bool_decide (pa_status a = Pending) in
  let! t := now in
  let! found := query (fun d => exists_where open (pending_actions d)) in
  exec (fun d => set_pending_actions
    (update_where open (with_action_status x t) (pending_actions d)) d) ;;
  if found then get_pending_action aid else ret None.

Definition reject_pending_actions (sid : uuid) : M unit :=
  let! t := now in
  exec (fun d => set_pending_actions
    (update_where (fun a => (pa_session_id a =? sid)%N && bool_decide (pa_status a = Pending))
       (with_action_status Rejected t) (pending_actions d)) d).

Definition list_pending_actions (sid : uuid) : M (list PendingAction) :=
  query (fun d => order_by action_le
    (select (fun a => (pa_session_id a =? sid)%N) (pending_actions d))).

Definition create_restore_point (sid : uuid) (path : str) (original_text : option str)
    (applied_text : str) : M RestorePoint :=
  let! id := fresh_uuid in
  let! t := now in
  let rp := mkRestorePoint id sid path original_text (Some applied_text) t in
  check_unique (fun d => exists_where (fun r => (rp_id r =? id)%N) (restore_points d)) ;;
  check_session_fk sid ;;
  exec (fun d => set_restore_points (restore_points d ++ [rp]) d) ;;
  ret rp.

(** [ORDER BY created_at DESC, rowid DESC] *)
Definition list_restore_points (sid : uuid) : M (list RestorePoint) :=
  query (fun d => rev (order_by restore_le
    (select (fun r => (rp_session_id r =? sid)%N) (restore_points d)))).

Definition get_restore_point (rid : uuid) : M (option RestorePoint) :=
  query (fun d => List.find (fun r => (rp_id r =? rid)%N) (restore_points d)).

(** ** Events *)

Definition record_event (event : SessionEvent) : M PersistedSessionEvent :=
  let! id := fresh_uuid in
  let! t := now in
  let persisted := mkPersistedEvent id (session_id_for_event event) event t in
  check_unique (fun d => exists_where (fun e => (pe_id e =? id)%N) (session_events d)) ;;
  check_session_fk (pe_session_id persisted) ;;
  exec (fun d => set_session_events (session_events d ++ [persisted]) d) ;;
  ret persisted.

Definition list_events (sid : uuid) : M (list PersistedSessionEvent) :=
  query (fun d => order_by event_le
    (select (fun e => (pe_session_id e =? sid)%N) (session_events d))).

Definition NANOS_PER_DAY : Z := (86400 * 1000000000)%Z.

Definition is_model_call (e : SessionEvent) : bool :=
  match e with EvModelCall _ _ => true | _ => false end.

Definition purge_model_call_logs (retention_days : Z) : M nat :=
  let days := Z.max retention_days 1 in
  let! t := now in
  let cutoff := (t - days * NANOS_PER_DAY)%Z in
  transaction
    (let! expired := query (fun d => map pe_id
       (select (fun e => is_model_call (pe_event e) && (pe_created_at e <? cutoff)%Z)
          (order_by event_le (session_events d)))) in
     for_each expired (fun id => exec (fun d => set_session_events
       (delete_where (fun e => (pe_id e =? id)%N) (session_events d)) d)) ;;
     ret (length expired)).

End Store.

(** [SessionStore::in_memory] and [SessionStore::open] on a new database. *)
Definition in_memory : SessionStore := mkStore empty_db None ∅ 0.
Definition open_new (dir : str) : SessionStore := mkStore empty_db (Some dir) ∅ 0.
