(* ===== verification/StoreSteps.v ===== *)
(** * The store as a transition system

    Every public operation of [SessionStore] is a sequence of the statements of
    [dstep]: an insertion that the constraints of [migrate] allow, an update
    that keeps the identity of the rows, or a deletion that leaves no dangling
    reference.  Invariants are proved once over the statements and hold after
    every sequence of calls. *)

From S2P Require Import Prelude Protocol Sql Store.

(** ** Weakest preconditions *)

Definition wp {A} (m : M A) (Q : A -> SessionStore -> Prop)
    (X : StoreError -> SessionStore -> Prop) (st : SessionStore) : Prop :=
  match m st with
  | (Ok a, st') => Q a st'
  | (Err e, st') => X e st'
  end.

Section Wp.
Lemma wp_bind {A B} (m : M A) (f : A -> M B) Q X st :
  wp m (fun a => wp (f a) Q X) X st -> wp (bind m f) Q X st.
Proof. unfold wp, bind. by destruct (m st) as [[a|e] st']. Qed.

Lemma wp_mono {A} (m : M A) (Q Q' : A -> SessionStore -> Prop)
    (X X' : StoreError -> SessionStore -> Prop) st :
  wp m Q X st -> (forall a st', Q a st' -> Q' a st') ->
  (forall e st', X e st' -> X' e st') -> wp m Q' X' st.
Proof. unfold wp. destruct (m st) as [[a|e] st']; auto. Qed.

Lemma wp_guard b e (Q : unit -> SessionStore -> Prop) X st :
  (b = true -> Q tt st) -> (b = false -> X e st) -> wp (guard b e) Q X st.
Proof. unfold wp, guard. destruct b; simpl; auto. Qed.

Lemma wp_query {A} (f : Db -> A) (Q : A -> SessionStore -> Prop) X st :
  Q (f (db st)) st -> wp (query f) Q X st.
Proof. done. Qed.

Lemma wp_exec f (Q : unit -> SessionStore -> Prop) X st :
  Q tt (with_db f st) -> wp (exec f) Q X st.
Proof. done. Qed.

Lemma wp_ret {A} (a : A) (Q : A -> SessionStore -> Prop) X st : Q a st -> wp (ret a) Q X st.
Proof. done. Qed.

Lemma wp_fail {A} e (Q : A -> SessionStore -> Prop) X st : X e st -> wp (fail e) Q X st.
Proof. done. Qed.
End Wp.

Section Steps.
Context {E : Env}.

(** ** Statements *)

(** The identifier and the time of an inserted row are drawn by the operation
    that inserts it, between the draws [lo] and [hi]. *)
Definition drawn_id (lo hi : nat) (id : uuid) : Prop := exists i, lo <= i < hi /\ id = new_v4 i.
Definition drawn_time (lo hi : nat) (t : timestamp) : Prop :=
  exists i, lo <= i < hi /\ t = utc_now i.

Definition refers (sid : uuid) (d : Db) : Prop := foreign_keys = true -> has_session sid d = true.

(** What an update of a row keeps. *)
Definition session_ident (s : Session) := (s_id s, s_workspace_root s, s_created_at s).
Definition message_ident (m : Message) := (m_id m, m_session_id m, m_role m, m_created_at m).
Definition follow_up_ident (q : FollowUpQueueEntry) :=
  (fq_id q, fq_session_id q, fq_text q, fq_images q, fq_text_files q, fq_created_at q).

(** The messages with their sessions. *)
Definition owners (d : Db) : list (uuid * uuid) :=
  map (fun m => (m_id m, m_session_id m)) (messages d).

(** [ON CONFLICT(key) DO UPDATE]. *)
Definition upsert {A} (same : A -> bool) (row : A) (t : list A) : list A :=
  if exists_where same t then update_where same (fun _ => row) t else t ++ [row].

Inductive dstep (dir : option str) (lo hi : nat) (d : Db) : Db -> Prop :=
| ds_none : dstep dir lo hi d d
| ds_insert_session s :
    drawn_id lo hi (s_id s) -> drawn_time lo hi (s_created_at s) -> s_status s = Created ->
    has_session (s_id s) d = false ->
    dstep dir lo hi d (set_sessions (sessions d ++ [s]) d)
| ds_update_sessions p f :
    (forall s, session_ident (f s) = session_ident s) ->
    dstep dir lo hi d (set_sessions (update_where p f (sessions d)) d)
| ds_delete_session sid :
    (foreign_keys = true -> session_referenced sid d = false \/ has_session sid d = false) ->
    dstep dir lo hi d (set_sessions (delete_where (fun s => (s_id s =? sid)%N) (sessions d)) d)
| ds_insert_message m :
    drawn_id lo hi (m_id m) -> drawn_time lo hi (m_created_at m) ->
    exists_where (fun x => (m_id x =? m_id m)%N) (messages d) = false ->
    refers (m_session_id m) d ->
    dstep dir lo hi d (set_messages (messages d ++ [m]) d)
| ds_update_messages p f :
    (forall m, message_ident (f m) = message_ident m) ->
    dstep dir lo hi d (set_messages (update_where p f (messages d)) d)
| ds_delete_messages p :
    (foreign_keys = true -> forall a m, a ∈ tool_output_attachments d -> m ∈ messages d ->
       m_id m = at_message_id a -> p m = false) ->
    dstep dir lo hi d (set_messages (delete_where p (messages d)) d)
| ds_insert_action a :
    drawn_id lo hi (pa_id a) -> drawn_time lo hi (pa_created_at a) -> pa_status a = Pending ->
    exists_where (fun x => (pa_id x =? pa_id a)%N) (pending_actions d) = false ->
    refers (pa_session_id a) d ->
    dstep dir lo hi d (set_pending_actions (pending_actions d ++ [a]) d)
| ds_resolve_actions p x t :
    (forall a, p a = true -> pa_status a = Pending) ->
    dstep dir lo hi d (set_pending_actions
                     (update_where p (with_action_status x t) (pending_actions d)) d)
| ds_delete_actions p :
    dstep dir lo hi d (set_pending_actions (delete_where p (pending_actions d)) d)
| ds_insert_restore_point r :
    drawn_id lo hi (rp_id r) -> drawn_time lo hi (rp_created_at r) ->
    exists_where (fun x => (rp_id x =? rp_id r)%N) (restore_points d) = false ->
    refers (rp_session_id r) d ->
    dstep dir lo hi d (set_restore_points (restore_points d ++ [r]) d)
| ds_delete_restore_points p :
    dstep dir lo hi d (set_restore_points (delete_where p (restore_points d)) d)
| ds_insert_event e :
    drawn_id lo hi (pe_id e) -> drawn_time lo hi (pe_created_at e) ->
    pe_session_id e = session_id_for_event (pe_event e) ->
    exists_where (fun x => (pe_id x =? pe_id e)%N) (session_events d) = false ->
    refers (pe_session_id e) d ->
    dstep dir lo hi d (set_session_events (session_events d ++ [e]) d)
| ds_delete_events p :
    dstep dir lo hi d (set_session_events (delete_where p (session_events d)) d)
| ds_insert_follow_up q :
    drawn_id lo hi (fq_id q) -> drawn_time lo hi (fq_created_at q) -> fq_status q = Queued ->
    exists_where (fun x => (fq_id x =? fq_id q)%N) (follow_up_queue d) = false ->
    refers (fq_session_id q) d ->
    dstep dir lo hi d (set_follow_up_queue (follow_up_queue d ++ [q]) d)
| ds_update_follow_ups p f :
    (forall q, follow_up_ident (f q) = follow_up_ident q) ->
    dstep dir lo hi d (set_follow_up_queue (update_where p f (follow_up_queue d)) d)
| ds_delete_follow_ups p :
    dstep dir lo hi d (set_follow_up_queue (delete_where p (follow_up_queue d)) d)
| ds_upsert_config c :
    dstep dir lo hi d (set_workspace_configs
      (upsert (fun x => wc_workspace_root x =s wc_workspace_root c) c (workspace_configs d)) d)
| ds_delete_configs p :
    dstep dir lo hi d (set_workspace_configs (delete_where p (workspace_configs d)) d)
| ds_upsert_compaction c :
    refers (cc_session_id c) d ->
    dstep dir lo hi d (set_context_compactions
      (upsert (fun x => (cc_session_id x =? cc_session_id c)%N) c (context_compactions d)) d)
| ds_delete_compactions p :
    dstep dir lo hi d (set_context_compactions (delete_where p (context_compactions d)) d)
| ds_insert_window w :
    (forall v, v ∈ context_windows d -> cw_session_id v = cw_session_id w ->
       cw_window_index v < cw_window_index w
       /\ cw_start_message_count v < cw_start_message_count w) ->
    0 < cw_window_index w -> 0 < cw_start_message_count w ->
    refers (cw_session_id w) d ->
    dstep dir lo hi d (set_context_windows (context_windows d ++ [w]) d)
| ds_delete_windows p :
    dstep dir lo hi d (set_context_windows (delete_where p (context_windows d)) d)
| ds_insert_memory m :
    drawn_id lo hi (lm_id m) -> drawn_time lo hi (lm_created_at m) ->
    exists_where (fun x => (lm_id x =? lm_id m)%N) (local_memories d) = false ->
    exists_where (fun x => (lm_workspace_root x =s lm_workspace_root m)
                           && (lm_content x =s lm_content m)) (local_memories d) = false ->
    dstep dir lo hi d (set_local_memories (local_memories d ++ [m]) d)
| ds_replace_memory root mid c :
    (exists_where (fun x => (lm_workspace_root x =s root) && (lm_id x =? mid)%N)
       (local_memories d)
     && exists_where (fun x => negb (lm_id x =? mid)%N && (lm_workspace_root x =s root)
                               && (lm_content x =s c)) (local_memories d)) = false ->
    dstep dir lo hi d (set_local_memories
      (update_where (fun x => (lm_workspace_root x =s root) && (lm_id x =? mid)%N)
         (with_memory_content c) (local_memories d)) d)
| ds_delete_memories p :
    dstep dir lo hi d (set_local_memories (delete_where p (local_memories d)) d)
| ds_upsert_vision_description r :
    dstep dir lo hi d (set_vision_descriptions
      (upsert (fun x => vd_cache_key x =s vd_cache_key r) r (vision_descriptions d)) d)
| ds_upsert_vision_route r :
    dstep dir lo hi d (set_vision_routes
      (upsert (fun x => vr_route_key x =s vr_route_key r) r (vision_routes d)) d)
| ds_insert_attachment a :
    is_Some dir ->
    exists_where (fun x => (at_message_id x =? at_message_id a)%N)
      (tool_output_attachments d) = false ->
    refers (at_session_id a) d ->
    (at_message_id a, at_session_id a) ∈ owners d ->
    dstep dir lo hi d (set_tool_output_attachments (tool_output_attachments d ++ [a]) d)
| ds_delete_attachments p :
    dstep dir lo hi d (set_tool_output_attachments
                     (delete_where p (tool_output_attachments d)) d).

Lemma dstep_widen dir lo hi lo' hi' d d' :
  dstep dir lo hi d d' -> lo' <= lo -> hi <= hi' -> dstep dir lo' hi' d d'.
Proof.
  assert (forall id, drawn_id lo hi id -> lo' <= lo -> hi <= hi' -> drawn_id lo' hi' id) as Hi.
  { intros id (i & ? & ->) ? ?. exists i. split; [lia|done]. }
  assert (forall t, drawn_time lo hi t -> lo' <= lo -> hi <= hi' -> drawn_time lo' hi' t) as Ht.
  { intros t (i & ? & ->) ? ?. exists i. split; [lia|done]. }
  destruct 1; intros; try (econstructor; by eauto).
Qed.

(** One statement of an operation, with the draws before it. *)
Record stmt (st st' : SessionStore) : Prop := {
  stmt_ticks : ticks st <= ticks st';
  stmt_dir : attachment_dir st' = attachment_dir st;
  stmt_db : dstep (attachment_dir st) (ticks st) (ticks st') (db st) (db st');
}.

(** Every statement of [m] is allowed. *)
Definition runs {A} (m : M A) : Prop := forall st, rtc stmt st (snd (m st)).

(** [m], started in a state that [st0] leads to, ends in one. *)
Definition continues {A} (st0 : SessionStore) (m : M A) (st : SessionStore) : Prop :=
  wp m (fun _ => rtc stmt st0) (fun _ => rtc stmt st0) st.

Lemma runs_intro {A} (m : M A) : (forall st, continues st m st) -> runs m.
Proof.
  intros H st. specialize (H st). unfold continues, wp in H. by destruct (m st) as [[a|e] st'].
Qed.

Lemma continues_runs {A} (m : M A) st0 st :
  runs m -> rtc stmt st0 st -> continues st0 m st.
Proof.
  intros H Hst. specialize (H st). unfold continues, wp.
  destruct (m st) as [[a|e] st']; simpl in H; by etrans.
Qed.

Lemma continues_bind {A B} (m : M A) (f : A -> M B) st0 st :
  runs m -> rtc stmt st0 st ->
  (forall a st', rtc stmt st0 st' -> continues st0 (f a) st') ->
  continues st0 (bind m f) st.
Proof.
  intros Hm Hst Hf. apply wp_bind. eapply wp_mono; [by apply (continues_runs m st0 st)|..]; auto.
Qed.

Lemma rtc_stmt_draws st st' :
  db st' = db st -> attachment_dir st' = attachment_dir st -> ticks st <= ticks st' ->
  rtc stmt st st'.
Proof. intros Hd Ha Ht. apply rtc_once. split; [done|done|]. rewrite Hd. constructor. Qed.

Lemma rtc_stmt_dir st st' : rtc stmt st st' -> attachment_dir st' = attachment_dir st.
Proof. induction 1 as [|x y z Hxy Hyz IH]; [done|]. rewrite IH. apply Hxy. Qed.

Lemma rtc_stmt_ticks st st' : rtc stmt st st' -> ticks st <= ticks st'.
Proof.
  induction 1 as [|x y z Hxy Hyz IH]; [done|]. pose proof (stmt_ticks _ _ Hxy). lia.
Qed.

Lemma continues_transaction {A} (m : M A) st0 st :
  continues st m st -> rtc stmt st0 st -> continues st0 (transaction m) st.
Proof.
  intros H H0. unfold continues, wp, transaction in *.
  destruct (m st) as [[a|e] st']; [by etrans|]. etrans; [exact H0|].
  apply rtc_stmt_draws; simpl; [done|by apply rtc_stmt_dir|by apply rtc_stmt_ticks].
Qed.

Lemma runs_transaction {A} (m : M A) : runs m -> runs (transaction m).
Proof.
  intros H. apply runs_intro. intros st. apply continues_transaction; [|done].
  by apply continues_runs.
Qed.

Lemma runs_ret {A} (a : A) : runs (ret a).
Proof. intros st. apply rtc_refl. Qed.
Lemma runs_fail {A} e : runs (@fail A e).
Proof. intros st. apply rtc_refl. Qed.
Lemma runs_query {A} (f : Db -> A) : runs (query f).
Proof. intros st. apply rtc_refl. Qed.
Lemma runs_guard b e : runs (guard b e).
Proof. intros st. unfold guard. by destruct b. Qed.
Lemma runs_now : runs now.
Proof. intros st. apply rtc_stmt_draws; simpl; [done..|lia]. Qed.
Lemma runs_fresh_uuid : runs fresh_uuid.
Proof. intros st. apply rtc_stmt_draws; simpl; [done..|lia]. Qed.

Lemma runs_bind {A B} (m : M A) (f : A -> M B) :
  runs m -> (forall a, runs (f a)) -> runs (bind m f).
Proof.
  intros Hm Hf st. specialize (Hm st). unfold bind.
  destruct (m st) as [[a|e] st']; simpl in *; [|done]. etrans; [done|apply Hf].
Qed.

Lemma runs_on_error {A} (m : M A) c : runs m -> runs c -> runs (on_error m c).
Proof.
  intros Hm Hc st. specialize (Hm st). unfold on_error.
  destruct (m st) as [[a|e] st']; simpl in *; [done|]. etrans; [done|apply Hc].
Qed.

Lemma runs_for_each {A B} (l : list A) (f : A -> M B) :
  (forall a, runs (f a)) -> runs (for_each l f).
Proof.
  intros Hf. induction l as [|a l IH]; simpl; [apply runs_ret|].
  apply runs_bind; [done|]. intros b. apply runs_bind; [done|]. intros bs. apply runs_ret.
Qed.

(** A committed statement without a check. *)
Lemma runs_exec f : (forall dir lo hi d, dstep dir lo hi d (f d)) -> runs (exec f).
Proof. intros Hf st. apply rtc_once. split; simpl; [done|done|apply Hf]. Qed.

End Steps.

Create HintDb runs.
#[export] Hint Resolve runs_ret runs_fail runs_query runs_guard runs_now runs_fresh_uuid : runs.

(** Decomposes an operation whose statements need no hypothesis. *)
Ltac runs_step :=
  match goal with
  | |- runs (bind _ _) => apply runs_bind; [|intros ?]
  | |- runs (transaction _) => apply runs_transaction
  | |- runs (on_error _ _) => apply runs_on_error
  | |- runs (for_each _ _) => apply runs_for_each; intros ?
  | |- runs (if ?b then _ else _) => destruct b eqn:?
  | |- runs (match ?x with _ => _ end) => destruct x eqn:?
  | |- runs (let _ := _ in _) => cbv zeta
  | |- runs (exec _) => apply runs_exec; intros ? ? ? ?; constructor; done
  end.
Ltac runs_auto := repeat first [by auto with runs | runs_step].

(** Decomposes an operation whose checks guard an insertion. *)
Ltac wp_step :=
  match goal with
  | |- continues _ _ _ => unfold continues
  | |- wp (bind _ _) _ _ _ => apply wp_bind
  | |- wp (query _) _ _ _ => apply wp_query; cbv beta
  | |- wp (guard _ _) _ _ _ => apply wp_guard; intros ?
  | |- wp (ret _) _ _ _ => apply wp_ret
  | |- wp (fail _) _ _ _ => apply wp_fail
  | |- wp (exec _) _ _ _ => apply wp_exec; cbv beta
  | |- wp (if ?b then _ else _) _ _ _ => destruct b eqn:?
  | |- wp (match ?x with _ => _ end) _ _ _ => destruct x eqn:?
  | |- wp (check_unique _) _ _ _ => unfold check_unique
  | |- wp (check_session_fk _) _ _ _ => unfold check_session_fk
  | |- wp now _ _ _ => unfold wp at 1, now at 1; simpl
  | |- wp fresh_uuid _ _ _ => unfold wp at 1, fresh_uuid at 1; simpl
  end.
Ltac draws := try (apply rtc_stmt_draws; simpl; [done|done|lia]).

Section Operations.
Context {E : Env}.

Lemma refers_intro sid d : negb foreign_keys || has_session sid d = true -> refers sid d.
Proof. unfold refers. intros H Hf. by rewrite Hf in H. Qed.

Lemma fk_intro b : negb foreign_keys || b = true -> foreign_keys = true -> b = true.
Proof. intros H Hf. by rewrite Hf in H. Qed.

Lemma drawn_id_at lo hi i : lo <= i -> i < hi -> drawn_id lo hi (new_v4 i).
Proof. intros. exists i. split; [lia|done]. Qed.

Lemma drawn_time_at lo hi i : lo <= i -> i < hi -> drawn_time lo hi (utc_now i).
Proof. intros. exists i. split; [lia|done]. Qed.
End Operations.

(** A checked insertion: the row is new, its session exists, its identifier and
    time are drawn. *)
Ltac inserts :=
  apply rtc_once; split; simpl;
  [ try lia | done
  | econstructor; simpl;
    try first [ apply drawn_id_at; lia | apply drawn_time_at; lia | done
              | by apply refers_intro | by apply fk_intro | by apply negb_true_iff ] ].
Ltac checked := apply runs_intro; intros ?; cbv zeta; repeat wp_step; draws; try inserts.

Section Operations.
Context {E : Env}.

Lemma runs_create_session p : runs (create_session p).
Proof. unfold create_session. checked. Qed.

Lemma runs_first_user_message_content sid : runs (first_user_message_content sid).
Proof. unfold first_user_message_content. runs_auto. Qed.
Hint Resolve runs_first_user_message_content : runs.

Lemma runs_fill_session_title s : runs (fill_session_title s).
Proof. unfold fill_session_title. runs_auto. Qed.
Hint Resolve runs_fill_session_title : runs.

Lemma runs_list_sessions r : runs (list_sessions r).
Proof. unfold list_sessions. runs_auto. Qed.

Lemma runs_get_session sid : runs (get_session sid).
Proof. unfold get_session. runs_auto. Qed.
Hint Resolve runs_get_session : runs.

Lemma runs_change_session sid f :
  (forall t s, session_ident (f t s) = session_ident s) -> runs (change_session sid f).
Proof. intros. unfold change_session, update_session. runs_auto. Qed.

Lemma runs_set_session_status sid x : runs (set_session_status sid x).
Proof. by apply runs_change_session. Qed.
Lemma runs_set_session_title sid x : runs (set_session_title sid x).
Proof. by apply runs_change_session. Qed.
Lemma runs_set_session_mode sid x : runs (set_session_mode sid x).
Proof. by apply runs_change_session. Qed.
Lemma runs_set_session_model sid x : runs (set_session_model sid x).
Proof. unfold set_session_model. cbv zeta. runs_auto. by apply runs_change_session. Qed.

Lemma runs_set_workspace_config c : runs (set_workspace_config c).
Proof.
  unfold set_workspace_config. cbv zeta. runs_auto.
  apply runs_exec. intros dir lo hi d. apply (ds_upsert_config dir lo hi d (config_row c)).
Qed.

(** Attachments and messages *)

Lemma runs_require_attachment_dir : runs require_attachment_dir.
Proof. intros st. unfold require_attachment_dir. by destruct (attachment_dir st). Qed.
Lemma runs_has_attachment_dir : runs has_attachment_dir.
Proof. intros st. apply rtc_refl. Qed.
Lemma runs_write_file p c : runs (write_file p c).
Proof. intros st. by apply rtc_stmt_draws. Qed.
Lemma runs_read_file_text p : runs (read_file_text p).
Proof. intros st. unfold read_file_text. by destruct (files st !! p). Qed.
Lemma runs_remove_files ps : runs (remove_files ps).
Proof. intros st. by apply rtc_stmt_draws. Qed.
Lemma runs_attachment_paths sid : runs (attachment_paths_for_session_text sid).
Proof. intros st. unfold attachment_paths_for_session_text. by destruct (attachment_dir st). Qed.
Hint Resolve runs_require_attachment_dir runs_has_attachment_dir runs_write_file
  runs_read_file_text runs_remove_files runs_attachment_paths : runs.

Lemma runs_write_tool_output_attachment sid mid c :
  runs (write_tool_output_attachment sid mid c).
Proof. unfold write_tool_output_attachment. cbv zeta. runs_auto. Qed.
Lemma runs_find_with_size sid mid : runs (find_tool_output_attachment_with_size sid mid).
Proof. unfold find_tool_output_attachment_with_size. runs_auto. Qed.
Hint Resolve runs_write_tool_output_attachment runs_find_with_size : runs.
Lemma runs_find_tool_output_attachment sid mid : runs (find_tool_output_attachment sid mid).
Proof. unfold find_tool_output_attachment. runs_auto. Qed.
Hint Resolve runs_find_tool_output_attachment : runs.

Lemma continues_insert_attachment a st0 st :
  is_Some (attachment_dir st) -> (at_message_id a, at_session_id a) ∈ owners (db st) ->
  rtc stmt st0 st -> continues st0 (insert_attachment a) st.
Proof.
  intros Hd Ho H0. unfold insert_attachment. repeat wp_step; try done. etrans; [exact H0|]. inserts.
Qed.

Lemma runs_delete_messages_where p : runs (delete_messages_where p).
Proof.
  unfold delete_messages_where. checked.
  intros Hf a m Ha Hm Hid. apply fk_intro in H; [|done].
  apply negb_true_iff, (proj1 (exists_where_false _ _)) with (a := a) in H; [|done].
  apply (proj1 (exists_where_false _ _)) with (a := m) in H; [|done].
  rewrite Hid, N.eqb_refl in H. by rewrite andb_true_r in H.
Qed.
Hint Resolve runs_delete_messages_where : runs.

Lemma runs_set_message_content mid c : runs (set_message_content mid c).
Proof. unfold set_message_content. runs_auto. Qed.
Lemma runs_message_content mid : runs (message_content mid).
Proof. unfold message_content. runs_auto. Qed.
Hint Resolve runs_set_message_content runs_message_content : runs.

Lemma continues_on_error {A} (m : M A) c st0 st :
  continues st0 m st -> runs c -> continues st0 (on_error m c) st.
Proof.
  intros H Hc. unfold continues, wp, on_error in *.
  destruct (m st) as [[a|e] st']; [done|]. etrans; [exact H|apply Hc].
Qed.

Lemma continues_seq {A B} (m : M A) (f : A -> M B) st0 st :
  continues st0 m st -> (forall a, runs (f a)) -> continues st0 (bind m f) st.
Proof.
  intros Hm Hf. apply wp_bind. eapply wp_mono; [exact Hm| |done].
  intros a st' Hst. by apply continues_runs.
Qed.

Lemma wp_on_error {A} (m : M A) c (Q : A -> SessionStore -> Prop) st0 st :
  wp m Q (fun _ => rtc stmt st0) st -> runs c -> wp (on_error m c) Q (fun _ => rtc stmt st0) st.
Proof.
  intros H Hc. unfold wp, on_error in *.
  destruct (m st) as [[a|e] st']; [done|]. etrans; [exact H|apply Hc].
Qed.

(** [st] differs from [st0] in draws and files only. *)
Record drawn (st0 st : SessionStore) : Prop := {
  drawn_db : db st = db st0;
  drawn_dir : attachment_dir st = attachment_dir st0;
  drawn_ticks : ticks st0 <= ticks st;
}.

Lemma drawn_rtc st0 st : drawn st0 st -> rtc stmt st0 st.
Proof. intros [??]. by apply rtc_stmt_draws. Qed.

Lemma wp_insert_message m st0 st :
  drawn st0 st -> drawn_id (ticks st0) (ticks st) (m_id m) ->
  drawn_time (ticks st0) (ticks st) (m_created_at m) ->
  wp (insert_message m)
    (fun _ st' => rtc stmt st0 st' /\ (m_id m, m_session_id m) ∈ owners (db st'))
    (fun _ => rtc stmt st0) st.
Proof.
  intros Hd Hi Ht. unfold insert_message. repeat wp_step; try (by apply drawn_rtc). split.
  2: { unfold owners. simpl. rewrite map_app. set_solver. }
  destruct Hd as [Hd Ha Hk]. rewrite Hd in *.
  apply rtc_once. split; simpl; [lia|done|]. rewrite Hd.
  apply ds_insert_message; [done..|by apply negb_true_iff|by apply refers_intro].
Qed.

Lemma wp_write_tool_output_attachment sid mid c st :
  wp (write_tool_output_attachment sid mid c) (fun _ => drawn st) (fun _ => drawn st) st.
Proof.
  unfold wp, write_tool_output_attachment, require_attachment_dir, bind.
  destruct (attachment_dir st) eqn:Hd; simpl; split; simpl; auto.
Qed.

Lemma runs_append_message sid role c : runs (append_message sid role c).
Proof.
  apply runs_intro. intros st. unfold append_message.
  do 3 (apply wp_bind; unfold wp at 1; simpl).
  case_match eqn:Hb; cbv zeta.
  - assert (is_Some (attachment_dir st)) as has_dir.
    { apply andb_true_iff in Hb as [_ Hb]. by apply bool_decide_eq_true in Hb. }
    apply wp_bind. eapply wp_mono; [apply wp_write_tool_output_attachment|..]; simpl.
    + intros path st' [Hd Ha Hk]. simpl in *.
      apply wp_bind, wp_on_error; [|runs_auto].
      eapply wp_mono; [eapply wp_insert_message with (st0 := st); simpl|..]; simpl;
        [split; simpl; [done|done|lia]|apply drawn_id_at; lia|apply drawn_time_at; lia|..|done].
      intros _ st2 [H2 Ho]. apply continues_seq; [|intros ?; apply runs_ret].
      apply continues_on_error; [|unfold delete_message; runs_auto].
      apply continues_insert_attachment; [|done|done].
      by rewrite (rtc_stmt_dir _ _ H2).
    + intros _ st' [Hd Ha Hk]. simpl in *. apply rtc_stmt_draws; [done|done|lia].
  - apply continues_seq; [|intros ?; apply runs_ret].
    eapply wp_mono; [eapply wp_insert_message with (st0 := st); simpl|..]; simpl;
      [split; simpl; [done|done|lia]|apply drawn_id_at; lia|apply drawn_time_at; lia|..|done].
    by intros _ st' [H _].
Qed.

(** *** Operations that read messages

    They may move a long tool output to an attachment, which keeps the messages
    and their sessions: [reads dir o m] for the attachment directory [dir] and
    the owners [o]. *)

Definition reads {A} (dir : option str) (o : list (uuid * uuid)) (m : M A) : Prop :=
  forall st, attachment_dir st = dir -> owners (db st) = o ->
  rtc stmt st (snd (m st)) /\ owners (db (snd (m st))) = o.

Lemma runs_reads {A} (m : M A) : (forall dir o, reads dir o m) -> runs m.
Proof. intros H st. by apply (H (attachment_dir st) (owners (db st)) st). Qed.

Section Reads.
Context (dir : option str) (o : list (uuid * uuid)).

Lemma reads_intro {A} (m : M A) :
  runs m -> (forall st, db (snd (m st)) = db st) -> reads dir o m.
Proof. intros Hr Hd st _ Ho. split; [apply Hr|]. by rewrite Hd. Qed.

Lemma reads_bind {A B} (m : M A) (f : A -> M B) :
  reads dir o m -> (forall a, reads dir o (f a)) -> reads dir o (bind m f).
Proof.
  intros Hm Hf st Hd Ho. specialize (Hm st Hd Ho). unfold bind.
  destruct (m st) as [[a|e] st'] eqn:Em; simpl in *; [|done]. destruct Hm as [H1 Ho1].
  destruct (Hf a st') as [H2 Ho2]; [by rewrite (rtc_stmt_dir _ _ H1)|done|].
  split; [by etrans|done].
Qed.

Lemma reads_query {A B} (q : Db -> A) (f : A -> M B) :
  (forall d, owners d = o -> reads dir o (f (q d))) -> reads dir o (bind (query q) f).
Proof. intros Hf st Hd Ho. by apply (Hf (db st)). Qed.

Lemma reads_has_dir {B} (f : bool -> M B) :
  reads dir o (f (bool_decide (is_Some dir))) -> reads dir o (bind has_attachment_dir f).
Proof. intros Hf st Hd Ho. unfold bind, has_attachment_dir. rewrite Hd. by apply Hf. Qed.

Lemma reads_guard {B} b e (f : unit -> M B) :
  (b = true -> reads dir o (f tt)) -> reads dir o (bind (guard b e) f).
Proof. intros Hf st Hd Ho. destruct b; [by apply Hf|done]. Qed.

Lemma reads_for_each {A B} (l : list A) (f : A -> M B) :
  (forall a, a ∈ l -> reads dir o (f a)) -> reads dir o (for_each l f).
Proof.
  induction l as [|a l IH]; simpl; intros Hf; [by apply reads_intro; [apply runs_ret|]|].
  apply reads_bind; [apply Hf; set_solver|]. intros b.
  apply reads_bind; [apply IH; set_solver|]. intros bs.
  by apply reads_intro; [apply runs_ret|].
Qed.
End Reads.

Lemma owners_set_content p f d :
  (forall m, message_ident (f m) = message_ident m) ->
  owners (set_messages (update_where p f (messages d)) d) = owners d.
Proof. intros Hf. apply update_where_key. intros m. by injection (Hf m) as -> -> _. Qed.

Lemma find_with_size_db sid mid st :
  db (snd (find_tool_output_attachment_with_size sid mid st)) = db st.
Proof.
  unfold find_tool_output_attachment_with_size, bind, query. case_match; [|done].
  unfold require_attachment_dir. by destruct (attachment_dir st).
Qed.

Lemma reads_find_with_size dir o sid mid :
  reads dir o (find_tool_output_attachment_with_size sid mid).
Proof. apply reads_intro; [runs_auto|intros st; apply find_with_size_db]. Qed.
Lemma reads_find dir o sid mid : reads dir o (find_tool_output_attachment sid mid).
Proof.
  unfold find_tool_output_attachment. apply reads_bind; [apply reads_find_with_size|].
  intros r. by apply reads_intro; [apply runs_ret|].
Qed.
Lemma reads_message_content dir o mid : reads dir o (message_content mid).
Proof.
  apply reads_intro; [runs_auto|]. intros st. unfold message_content, bind, query.
  by case_match.
Qed.
Lemma reads_write dir o sid mid c : reads dir o (write_tool_output_attachment sid mid c).
Proof.
  apply reads_intro; [runs_auto|]. intros st.
  unfold write_tool_output_attachment, require_attachment_dir, bind.
  by destruct (attachment_dir st).
Qed.

(** The transaction that moves the content of a message. *)
Lemma reads_move dir o a c path :
  is_Some dir -> (at_message_id a, at_session_id a) ∈ o ->
  reads dir o (on_error
    (transaction (insert_attachment a ;; set_message_content (at_message_id a) c))
    (remove_files [path])).
Proof.
  intros Hd Ha st Hst Ho. split.
  - assert (continues st (on_error (transaction (insert_attachment a ;;
      set_message_content (at_message_id a) c)) (remove_files [path])) st) as H.
    + apply continues_on_error; [|runs_auto]. apply continues_transaction; [|done].
      apply continues_seq; [|intros ?; runs_auto].
      apply continues_insert_attachment; [by rewrite Hst|by rewrite Ho|done].
    + unfold continues, wp in H. by destruct (on_error _ _ st) as [[?|?] ?].
  - assert (wp (insert_attachment a) (fun _ st' => owners (db st') = o)
              (fun _ st' => owners (db st') = o) st) as Hi.
    { unfold insert_attachment. by repeat wp_step. }
    unfold on_error, transaction, bind, wp in *.
    destruct (insert_attachment a st) as [[[]|e] st']; simpl; [|done].
    by rewrite owners_set_content.
Qed.

Lemma reads_migrate dir o sid mid :
  (mid, sid) ∈ o -> reads dir o (migrate_legacy_tool_output sid mid).
Proof.
  intros Hin. unfold migrate_legacy_tool_output.
  apply reads_bind; [apply reads_find|]. intros [path|]; [by apply reads_intro; [apply runs_ret|]|].
  apply reads_has_dir. destruct (bool_decide (is_Some dir)) eqn:Hb; simpl;
    [|by apply reads_intro; [apply runs_ret|]].
  apply bool_decide_eq_true in Hb.
  apply reads_bind; [apply reads_message_content|]. intros c.
  apply reads_bind; [apply reads_write|]. intros path.
  case_match; [by apply reads_intro; [apply runs_remove_files|]|].
  by apply (reads_move dir o (mkAttachment mid sid _ _)).
Qed.

Ltac reads_step :=
  match goal with
  | |- reads _ _ (bind (query _) _) => apply reads_query; intros ? ?
  | |- reads _ _ (bind (guard _ _) _) => apply reads_guard; intros ?
  | |- reads _ _ (bind has_attachment_dir _) => apply reads_has_dir
  | |- reads _ _ (bind _ _) => apply reads_bind; [|intros ?]
  | |- reads _ _ (find_tool_output_attachment_with_size _ _) => apply reads_find_with_size
  | |- reads _ _ (find_tool_output_attachment _ _) => apply reads_find
  | |- reads _ _ (message_content _) => apply reads_message_content
  | |- reads _ _ (ret _) => by apply reads_intro; [apply runs_ret|]
  | |- reads _ _ (fail _) => by apply reads_intro; [apply runs_fail|]
  | |- reads _ _ (query _) => by apply reads_intro; [apply runs_query|]
  | |- reads _ _ (guard ?b _) => by apply reads_intro; [apply runs_guard|destruct b]
  | |- reads _ _ (read_file_text ?p) =>
      apply reads_intro; [apply runs_read_file_text|
        intros ?; unfold read_file_text; by case_match]
  | |- reads _ _ (if ?b then _ else _) => destruct b eqn:?
  | |- reads _ _ (match ?x with _ => _ end) => destruct x eqn:?
  end.
Ltac reads_auto := repeat reads_step.

Lemma reads_message_preview dir o m :
  (m_id m, m_session_id m) ∈ o -> reads dir o (message_preview m).
Proof.
  intros Hin. unfold message_preview. cbv zeta. reads_auto. by apply reads_migrate.
Qed.

Lemma session_messages_owned sid d m :
  m ∈ session_messages sid d -> (m_id m, m_session_id m) ∈ owners d /\ m_session_id m = sid.
Proof.
  unfold session_messages. rewrite order_by_perm, elem_of_select. intros [Hm Hs].
  split; [|by apply N.eqb_eq].
  apply (list_elem_of_fmap_2 (fun m => (m_id m, m_session_id m)) _ _ Hm).
Qed.

Lemma page_elem {A} (x : A) offset limit l : x ∈ page offset limit l -> x ∈ l.
Proof.
  unfold page. intros H. apply list_elem_of_In in H. apply list_elem_of_In.
  rewrite <- (firstn_skipn offset l). apply in_app_iff. right.
  rewrite <- (firstn_skipn limit (drop offset l)). apply in_app_iff. by left.
Qed.

Lemma reads_list_message_previews_page dir o sid off l :
  reads dir o (list_message_previews_page sid off l).
Proof.
  unfold list_message_previews_page, validate_context_tool_page, count_messages. reads_auto.
  apply reads_for_each. intros m Hm. apply reads_message_preview.
  apply page_elem, session_messages_owned in Hm as [Hm _]. congruence.
Qed.

Lemma runs_list_message_previews_page sid off l : runs (list_message_previews_page sid off l).
Proof. apply runs_reads. intros. apply reads_list_message_previews_page. Qed.
Hint Resolve runs_list_message_previews_page : runs.

Lemma runs_count_messages sid : runs (count_messages sid).
Proof. unfold count_messages. runs_auto. Qed.
Hint Resolve runs_count_messages : runs.
Lemma runs_list_messages sid : runs (list_messages sid).
Proof. unfold list_messages. runs_auto. Qed.
Lemma runs_list_messages_page sid off l : runs (list_messages_page sid off l).
Proof. unfold list_messages_page. runs_auto. Qed.

Lemma owned_row sid mid m d o :
  m ∈ messages d -> (m_session_id m =? sid)%N && (m_id m =? mid)%N = true -> owners d = o ->
  (mid, sid) ∈ o.
Proof.
  intros Hm Hs <-. apply andb_true_iff in Hs as [Hs Hi]. apply N.eqb_eq in Hs as <-, Hi as <-.
  apply (list_elem_of_fmap_2 (fun m => (m_id m, m_session_id m)) _ _ Hm).
Qed.

Lemma runs_open_tool_output_attachment sid mid : runs (open_tool_output_attachment sid mid).
Proof.
  apply runs_reads. intros dir o. unfold open_tool_output_attachment. reads_auto.
  apply reads_migrate. match goal with H : exists_where _ _ = true |- _ =>
    apply exists_where_true in H as (m & Hm & Hs) end.
  apply andb_true_iff in Hs as [Hs _]. by eapply owned_row.
Qed.
Lemma runs_get_session_message sid mid : runs (get_session_message sid mid).
Proof.
  apply runs_reads. intros dir o. unfold get_session_message. reads_auto.
  apply reads_migrate. match goal with H : List.find _ _ = Some _ |- _ =>
    apply find_some in H as [Hm Hs] end.
  apply list_elem_of_In in Hm. by eapply owned_row.
Qed.
Lemma runs_search_session_messages sid q off l : runs (search_session_messages sid q off l).
Proof.
  apply runs_reads. intros dir o. unfold search_session_messages, validate_context_tool_page.
  cbv zeta. reads_auto. apply reads_for_each. intros m Hm. apply reads_message_preview.
  apply page_elem in Hm. rewrite order_by_perm, elem_of_select in Hm. destruct Hm as [Hm _].
  subst o. apply (list_elem_of_fmap_2 (fun m => (m_id m, m_session_id m)) _ _ Hm).
Qed.

(** Deletion *)

Lemma runs_delete_session_row sid : runs (delete_session_row sid).
Proof.
  unfold delete_session_row. checked. intros Hf. rewrite Hf in *. simpl in *.
  match goal with H : _ = true |- _ => apply orb_true_iff in H as [H|H]; apply negb_true_iff in H end;
    auto.
Qed.
Hint Resolve runs_delete_session_row : runs.

Lemma runs_delete_workspace_session sid : runs (delete_workspace_session sid).
Proof.
  unfold delete_workspace_session, delete_session_windows, delete_session_messages,
    delete_session_attachments, delete_session_actions, delete_session_restore_points,
    delete_session_events, delete_session_follow_ups, delete_session_compactions. runs_auto.
Qed.
Hint Resolve runs_delete_workspace_session : runs.

Lemma runs_delete_session sid : runs (delete_session sid).
Proof.
  unfold delete_session, delete_session_windows, delete_session_messages,
    delete_session_attachments, delete_session_actions, delete_session_restore_points,
    delete_session_events, delete_session_follow_ups, delete_session_compactions. runs_auto.
Qed.

Lemma runs_delete_workspace_sessions root : runs (delete_workspace_sessions root).
Proof. unfold delete_workspace_sessions. cbv zeta. runs_auto. Qed.

(** The other tables *)

Lemma runs_queue_follow_up p : runs (queue_follow_up p).
Proof.
  apply runs_intro. intros st. unfold queue_follow_up.
  apply wp_bind, wp_guard; intros _; [|apply rtc_refl].
  apply continues_bind; [apply runs_get_session|done|]. intros s st1 H1.
  unfold continues. destruct s; cbv zeta; repeat wp_step; try done; (etrans; [exact H1|]); draws;
    inserts.
Qed.

Lemma runs_set_follow_up_queue_status sid fid x : runs (set_follow_up_queue_status sid fid x).
Proof. unfold set_follow_up_queue_status. cbv zeta. runs_auto. Qed.
Lemma runs_mark_queued sid : runs (mark_queued_follow_ups_not_started sid).
Proof. unfold mark_queued_follow_ups_not_started. cbv zeta. runs_auto. Qed.
Lemma runs_delete_follow_up sid fid : runs (delete_follow_up_queue_entry sid fid).
Proof. unfold delete_follow_up_queue_entry. cbv zeta. runs_auto. Qed.
Lemma runs_reconcile : runs reconcile_interrupted_sessions.
Proof. unfold reconcile_interrupted_sessions. cbv zeta. runs_auto. Qed.

Lemma foldr_max_le l x y : y ∈ x :: l -> y <= foldr Nat.max x l.
Proof.
  revert x. induction l as [|z l IH]; intros x; simpl; rewrite !elem_of_cons.
  - intros [->|[]%not_elem_of_nil]. lia.
  - intros H. specialize (IH x). rewrite elem_of_cons in IH.
    destruct H as [->|[->|H]]; [specialize (IH (or_introl eq_refl))|..|specialize (IH (or_intror H))];
      lia.
Qed.

Lemma sql_max_le l m y : sql_max l = Some m -> y ∈ l -> y <= m.
Proof. destruct l as [|x l]; [done|]. intros [= <-]. apply foldr_max_le. Qed.

Lemma sql_max_None l : sql_max l = None -> l = [].
Proof. by destruct l. Qed.

(** Rows of a session lie below the maxima that the code computes. *)
Lemma window_below sid d v (f : ContextWindow -> nat) n :
  or_else (sql_max (map f (session_windows sid d))) 0 <= n ->
  v ∈ context_windows d -> cw_session_id v = sid -> f v <= n.
Proof.
  intros Hn Hv Hs.
  assert (f v ∈ map f (session_windows sid d)) as Hin.
  { apply list_elem_of_fmap. exists v. split; [done|]. apply elem_of_select.
    split; [done|]. by apply N.eqb_eq. }
  destruct (sql_max (map f (session_windows sid d))) as [m|] eqn:Hm.
  - pose proof (sql_max_le _ _ _ Hm Hin). simpl in Hn. lia.
  - apply sql_max_None in Hm. rewrite Hm in Hin. set_solver.
Qed.

Lemma runs_create_context_window sid n : runs (create_context_window sid n).
Proof.
  unfold create_context_window. checked; [|lia|].
  - intros v Hv Hs. rewrite negb_true_iff in *.
    pose proof (window_below sid (db st) v cw_window_index _ (Nat.le_refl _) Hv Hs) as Hi.
    assert (cw_start_message_count v <= n) as Hle.
    { eapply (window_below sid (db st) v); [|done..].
      destruct (sql_max _) as [latest|]; simpl in *; [|lia].
      rewrite negb_true_iff, Nat.ltb_ge in *. lia. }
    split; [lia|].
    destruct (Nat.eq_dec (cw_start_message_count v) n) as [Heq|]; [|lia].
    match goal with H : List.find _ _ = None |- _ => apply find_none with (x := v) in H end;
      [by apply Nat.eqb_neq in Heqo|].
    apply list_elem_of_In, elem_of_select. split; [done|]. by apply N.eqb_eq.
  - rewrite negb_true_iff, Nat.eqb_neq in *. lia.
Qed.

Lemma runs_save_context_compaction c : runs (save_context_compaction c).
Proof.
  unfold save_context_compaction. checked.
Qed.

Lemma runs_validate_local_memory_content c : runs (validate_local_memory_content c).
Proof. unfold validate_local_memory_content. cbv zeta. runs_auto. Qed.

Lemma runs_save_local_memory root c : runs (save_local_memory root c).
Proof. unfold save_local_memory, validate_local_memory_content. checked. Qed.

Lemma runs_get_local_memory root mid : runs (get_local_memory root mid).
Proof. unfold get_local_memory. runs_auto. Qed.

Lemma runs_replace_local_memory root mid c : runs (replace_local_memory root mid c).
Proof.
  unfold replace_local_memory, validate_local_memory_content, get_local_memory.
  apply runs_intro. intros st. cbv zeta. repeat wp_step; draws;
    (apply rtc_once; split; [done|done|]; apply ds_replace_memory; simpl;
     match goal with H : exists_where _ _ = _ |- _ => rewrite H end; by apply negb_true_iff).
Qed.

Lemma runs_clear_local_memories root : runs (clear_local_memories root).
Proof. unfold clear_local_memories. cbv zeta. runs_auto. Qed.

Lemma runs_save_vision_description k m s x : runs (save_vision_description k m s x).
Proof.
  unfold save_vision_description. cbv zeta. runs_auto. apply runs_exec. intros dir lo hi d.
  by apply (ds_upsert_vision_description dir lo hi d (mkVisionDescription k x _ _ _)).
Qed.
Lemma runs_save_vision_route_status k x : runs (save_vision_route_status k x).
Proof.
  unfold save_vision_route_status. cbv zeta. runs_auto. apply runs_exec. intros dir lo hi d.
  by apply (ds_upsert_vision_route dir lo hi d (mkVisionRoute k x _)).
Qed.

Lemma runs_create_pending_action sid call : runs (create_pending_action sid call).
Proof. unfold create_pending_action. checked. Qed.

Lemma runs_resolve_pending_action aid x : runs (resolve_pending_action aid x).
Proof.
  unfold resolve_pending_action, get_pending_action. cbv zeta. runs_auto.
  apply runs_exec. intros dir lo hi d. apply ds_resolve_actions. intros b Hb.
  apply andb_true_iff in Hb as [_ Hb]. by apply bool_decide_eq_true in Hb.
Qed.

Lemma runs_reject_pending_actions sid : runs (reject_pending_actions sid).
Proof.
  unfold reject_pending_actions. cbv zeta. runs_auto.
  apply runs_exec. intros dir lo hi d. apply ds_resolve_actions. intros b Hb.
  apply andb_true_iff in Hb as [_ Hb]. by apply bool_decide_eq_true in Hb.
Qed.

Lemma runs_create_restore_point sid p o a : runs (create_restore_point sid p o a).
Proof. unfold create_restore_point. checked. Qed.
Lemma runs_record_event e : runs (record_event e).
Proof. unfold record_event. checked. Qed.
Lemma runs_purge_model_call_logs n : runs (purge_model_call_logs n).
Proof. unfold purge_model_call_logs. cbv zeta. runs_auto. Qed.
End Operations.
