(* ===== verification/StoreInv.v ===== *)
(** * Invariants of the store

    What holds of the tables after every sequence of public calls on a new
    store: keys are unique, references resolve, context windows grow, creation
    times follow the order of insertion, and a decided approval stays decided. *)

From S2P Require Import Prelude Protocol Sql Store StoreSteps.

(** ** Calls *)

(** The public operations of [SessionStore] that change its state; [CallNow] is
    a reading of the clock by a client between two calls. *)
Inductive StoreCall :=
| CallNow
| CallCreateSession (params : CreateSessionParams)
| CallListSessions (root : option (list N))
| CallGetSession (sid : uuid)
| CallDeleteSession (sid : uuid)
| CallDeleteWorkspaceSessions (root : list N)
| CallSetSessionStatus (sid : uuid) (x : SessionStatus)
| CallSetSessionTitle (sid : uuid) (x : list N)
| CallSetSessionModel (sid : uuid) (x : list N)
| CallSetSessionMode (sid : uuid) (x : Mode)
| CallSetWorkspaceConfig (c : WorkspaceConfig)
| CallAppendMessage (sid : uuid) (role : MessageRole) (content : list N)
| CallListMessages (sid : uuid)
| CallListMessagesPage (sid : uuid) (offset limit : nat)
| CallListMessagePreviewsPage (sid : uuid) (offset limit : nat)
| CallOpenToolOutputAttachment (sid mid : uuid)
| CallGetSessionMessage (sid mid : uuid)
| CallSearchSessionMessages (sid : uuid) (q : list N) (offset limit : nat)
| CallQueueFollowUp (params : QueueFollowUpParams)
| CallSetFollowUpQueueStatus (sid fid : uuid) (x : FollowUpQueueStatus)
| CallMarkQueuedFollowUpsNotStarted (sid : uuid)
| CallDeleteFollowUpQueueEntry (sid fid : uuid)
| CallReconcileInterruptedSessions
| CallCreateContextWindow (sid : uuid) (start_message_count : nat)
| CallSaveContextCompaction (c : ContextCompaction)
| CallSaveLocalMemory (root content : list N)
| CallReplaceLocalMemory (root : list N) (mid : uuid) (content : list N)
| CallClearLocalMemories (root : list N)
| CallSaveVisionDescription (key model : list N) (sid : option uuid) (description : list N)
| CallSaveVisionRouteStatus (key status : list N)
| CallCreatePendingAction (sid : uuid) (call : ToolCall)
| CallResolvePendingAction (aid : uuid) (x : PendingActionStatus)
| CallRejectPendingActions (sid : uuid)
| CallCreateRestorePoint (sid : uuid) (path : list N) (original : option (list N))
    (applied : list N)
| CallRecordEvent (e : SessionEvent)
| CallPurgeModelCallLogs (retention_days : Z).

Section Calls.
Context {E : Env}.

Definition run_call (c : StoreCall) (st : SessionStore) : SessionStore :=
  match c with
  | CallNow => snd (now st)
  | CallCreateSession p => snd (create_session p st)
  | CallListSessions r => snd (list_sessions r st)
  | CallGetSession sid => snd (get_session sid st)
  | CallDeleteSession sid => snd (delete_session sid st)
  | CallDeleteWorkspaceSessions r => snd (delete_workspace_sessions r st)
  | CallSetSessionStatus sid x => snd (set_session_status sid x st)
  | CallSetSessionTitle sid x => snd (set_session_title sid x st)
  | CallSetSessionModel sid x => snd (set_session_model sid x st)
  | CallSetSessionMode sid x => snd (set_session_mode sid x st)
  | CallSetWorkspaceConfig c => snd (set_workspace_config c st)
  | CallAppendMessage sid role content => snd (append_message sid role content st)
  | CallListMessages sid => snd (list_messages sid st)
  | CallListMessagesPage sid o l => snd (list_messages_page sid o l st)
  | CallListMessagePreviewsPage sid o l => snd (list_message_previews_page sid o l st)
  | CallOpenToolOutputAttachment sid mid => snd (open_tool_output_attachment sid mid st)
  | CallGetSessionMessage sid mid => snd (get_session_message sid mid st)
  | CallSearchSessionMessages sid q o l => snd (search_session_messages sid q o l st)
  | CallQueueFollowUp p => snd (queue_follow_up p st)
  | CallSetFollowUpQueueStatus sid fid x => snd (set_follow_up_queue_status sid fid x st)
  | CallMarkQueuedFollowUpsNotStarted sid => snd (mark_queued_follow_ups_not_started sid st)
  | CallDeleteFollowUpQueueEntry sid fid => snd (delete_follow_up_queue_entry sid fid st)
  | CallReconcileInterruptedSessions => snd (reconcile_interrupted_sessions st)
  | CallCreateContextWindow sid n => snd (create_context_window sid n st)
  | CallSaveContextCompaction c => snd (save_context_compaction c st)
  | CallSaveLocalMemory r c => snd (save_local_memory r c st)
  | CallReplaceLocalMemory r mid c => snd (replace_local_memory r mid c st)
  | CallClearLocalMemories r => snd (clear_local_memories r st)
  | CallSaveVisionDescription k m s x => snd (save_vision_description k m s x st)
  | CallSaveVisionRouteStatus k x => snd (save_vision_route_status k x st)
  | CallCreatePendingAction sid call => snd (create_pending_action sid call st)
  | CallResolvePendingAction aid x => snd (resolve_pending_action aid x st)
  | CallRejectPendingActions sid => snd (reject_pending_actions sid st)
  | CallCreateRestorePoint sid p o a => snd (create_restore_point sid p o a st)
  | CallRecordEvent e => snd (record_event e st)
  | CallPurgeModelCallLogs n => snd (purge_model_call_logs n st)
  end.

Definition run_calls (cs : list StoreCall) (st : SessionStore) : SessionStore :=
  foldl (fun st c => run_call c st) st cs.

Lemma run_call_stmts c st : rtc stmt st (run_call c st).
Proof.
  destruct c; simpl.
  - apply runs_now. - apply runs_create_session. - apply runs_list_sessions.
  - apply runs_get_session. - apply runs_delete_session. - apply runs_delete_workspace_sessions.
  - apply runs_set_session_status. - apply runs_set_session_title.
  - apply runs_set_session_model. - apply runs_set_session_mode.
  - apply runs_set_workspace_config. - apply runs_append_message. - apply runs_list_messages.
  - apply runs_list_messages_page. - apply runs_list_message_previews_page.
  - apply runs_open_tool_output_attachment. - apply runs_get_session_message.
  - apply runs_search_session_messages. - apply runs_queue_follow_up.
  - apply runs_set_follow_up_queue_status. - apply runs_mark_queued.
  - apply runs_delete_follow_up. - apply runs_reconcile. - apply runs_create_context_window.
  - apply runs_save_context_compaction. - apply runs_save_local_memory.
  - apply runs_replace_local_memory. - apply runs_clear_local_memories.
  - apply runs_save_vision_description. - apply runs_save_vision_route_status.
  - apply runs_create_pending_action. - apply runs_resolve_pending_action.
  - apply runs_reject_pending_actions. - apply runs_create_restore_point.
  - apply runs_record_event. - apply runs_purge_model_call_logs.
Qed.

Lemma run_calls_stmts cs st : rtc stmt st (run_calls cs st).
Proof.
  revert st. induction cs as [|c cs IH]; intros st; simpl; [done|].
  etrans; [apply run_call_stmts|apply IH].
Qed.

(** An invariant of the statements holds after every sequence of calls. *)
Lemma stmt_invariant (I : SessionStore -> Prop) st st' :
  (forall a b, stmt a b -> I a -> I b) -> rtc stmt st st' -> I st -> I st'.
Proof. intros Hs. induction 1; eauto. Qed.

(** ** Keys *)

Record db_keys (d : Db) : Prop := {
  k_sessions : NoDup (map s_id (sessions d));
  k_messages : NoDup (map m_id (messages d));
  k_actions : NoDup (map pa_id (pending_actions d));
  k_restore_points : NoDup (map rp_id (restore_points d));
  k_events : NoDup (map pe_id (session_events d));
  k_follow_ups : NoDup (map fq_id (follow_up_queue d));
  k_configs : NoDup (map wc_workspace_root (workspace_configs d));
  k_compactions : NoDup (map cc_session_id (context_compactions d));
  k_memories : NoDup (map lm_id (local_memories d));
  k_memory_texts : NoDup (map (fun m => (lm_workspace_root m, lm_content m)) (local_memories d));
  k_descriptions : NoDup (map vd_cache_key (vision_descriptions d));
  k_routes : NoDup (map vr_route_key (vision_routes d));
  k_attachments : NoDup (map at_message_id (tool_output_attachments d));
}.

Lemma NoDup_map_snoc {A K} (key : A -> K) (t : list A) x :
  NoDup (map key t) -> (forall y, y ∈ t -> key y <> key x) -> NoDup (map key (t ++ [x])).
Proof.
  intros Ht Hx. rewrite map_app. apply NoDup_app. split; [done|]. split.
  - intros k Hk Hkx. apply list_elem_of_fmap in Hk as (y & -> & Hy).
    apply list_elem_of_singleton in Hkx. by apply (Hx y).
  - apply NoDup_singleton.
Qed.

Lemma NoDup_insert {A K} (key : A -> K) (same : A -> A -> bool) (t : list A) x :
  (forall y, key y = key x -> same y x = true) ->
  exists_where (fun y => same y x) t = false ->
  NoDup (map key t) -> NoDup (map key (t ++ [x])).
Proof.
  intros Hs He Ht. apply NoDup_map_snoc; [done|]. intros y Hy Hk.
  specialize (Hs y Hk). by rewrite (proj1 (exists_where_false _ _) He y Hy) in Hs.
Qed.

(** A key that determines the primary key is unique too. *)
Lemma NoDup_map_finer {A K L} (id : A -> K) (key : A -> L) (t : list A) :
  NoDup (map id t) -> (forall a b, a ∈ t -> b ∈ t -> key a = key b -> id a = id b) ->
  NoDup (map key t).
Proof.
  induction t as [|x t IH]; simpl; [constructor|]. rewrite !NoDup_cons. intros [Hx Ht] Hk. split.
  - intros Hin. apply list_elem_of_fmap in Hin as (y & Hy & Hin). apply Hx.
    rewrite (Hk x y) by set_solver. by apply list_elem_of_fmap_2.
  - apply IH; [done|]. intros a b Ha Hb. apply Hk; set_solver.
Qed.

Lemma NoDup_upsert {A K} (key : A -> K) (same : A -> bool) (row : A) (t : list A) :
  (forall y, same y = true <-> key y = key row) ->
  NoDup (map key t) -> NoDup (map key (upsert same row t)).
Proof.
  intros Hs Ht. unfold upsert. destruct (exists_where same t) eqn:He.
  - assert (map key (update_where same (fun _ => row) t) = map key t) as ->; [|done].
    unfold update_where. rewrite map_map. apply map_ext. intros y.
    destruct (same y) eqn:Hy; [|done]. by apply Hs in Hy.
  - apply NoDup_map_snoc; [done|]. intros y Hy Hk. apply Hs in Hk.
    by rewrite (proj1 (exists_where_false _ _) He y Hy) in Hk.
Qed.

Lemma NoDup_replace_memory root mid c (t : list LocalMemory) :
  NoDup (map lm_id t) ->
  NoDup (map (fun m => (lm_workspace_root m, lm_content m)) t) ->
  (exists_where (fun x => (lm_workspace_root x =s root) && (lm_id x =? mid)%N) t
   && exists_where (fun x => negb (lm_id x =? mid)%N && (lm_workspace_root x =s root)
                             && (lm_content x =s c)) t) = false ->
  NoDup (map (fun m => (lm_workspace_root m, lm_content m))
           (update_where (fun x => (lm_workspace_root x =s root) && (lm_id x =? mid)%N)
              (with_memory_content c) t)).
Proof.
  intros Hid Ht Hc. unfold update_where. rewrite map_map.
  assert (forall a b, a ∈ t -> b ∈ t ->
    (lm_workspace_root a =s root) && (lm_id a =? mid)%N = true ->
    (lm_workspace_root b =s root) && (lm_id b =? mid)%N = false ->
    lm_workspace_root a = lm_workspace_root b -> c = lm_content b -> False) as Hx.
  { intros a b Ha Hb Hpa Hpb Hr ->.
    apply andb_false_iff in Hc as [Hc|Hc];
      [by rewrite (proj1 (exists_where_false _ _) Hc a Ha) in Hpa|].
    apply (proj1 (exists_where_false _ _)) with (a := b) in Hc; [|done].
    apply andb_true_iff in Hpa as [Hra _].
    rewrite Hr in Hra. rewrite Hra in *. rewrite str_eqb_refl in Hc. simpl in Hpb.
    by rewrite Hpb in Hc. }
  clear Hc. apply (NoDup_map_finer lm_id); [done|]. intros a b Ha Hb. cbv beta.
  destruct ((lm_workspace_root a =s root) && _) eqn:Hpa; destruct ((lm_workspace_root b =s root) && _) eqn:Hpb; simpl;
    intros [Hr Hk]%pair_equal_spec.
  - apply andb_true_iff in Hpa as [_ Hpa]. apply andb_true_iff in Hpb as [_ Hpb].
    apply N.eqb_eq in Hpa, Hpb. congruence.
  - destruct (Hx a b); auto.
  - destruct (Hx b a); auto.
  - by rewrite (NoDup_map_eq _ t a b Ht Ha Hb) by (simpl; congruence).
Qed.

Lemma NoDup_update {A K} (key : A -> K) p f (t : list A) :
  (forall a, key (f a) = key a) -> NoDup (map key t) -> NoDup (map key (update_where p f t)).
Proof. intros Hf. by rewrite update_where_key. Qed.

Lemma NoDup_insert_id {A} (key : A -> uuid) (t : list A) x :
  exists_where (fun y => (key y =? key x)%N) t = false ->
  NoDup (map key t) -> NoDup (map key (t ++ [x])).
Proof. apply (NoDup_insert key (fun y x => (key y =? key x)%N)). intros y. apply N.eqb_eq. Qed.

Lemma dstep_keys dir lo hi d d' : dstep dir lo hi d d' -> db_keys d -> db_keys d'.
Proof.
  intros Hd Hk. destruct Hk. destruct Hd; constructor; simpl; try done;
    try (by apply NoDup_delete_where);
    try (by apply NoDup_insert_id);
    try (apply NoDup_upsert; [|done]; intros; apply N.eqb_eq || apply str_eqb_true);
    try (apply NoDup_update; [|done]; intros row;
         solve [reflexivity | match goal with H : forall _, _ = _ |- _ => by injection (H row) end]);
    try (by apply NoDup_replace_memory).
  eapply (NoDup_insert _ (fun y x => (lm_workspace_root y =s lm_workspace_root x)
                                     && (lm_content y =s lm_content x))); [|done..].
  intros y [Hr Hc]%pair_equal_spec. by rewrite Hr, Hc, !str_eqb_refl.
Qed.

(** ** References *)

Definition refs {A K} (f : A -> K) (t : list A) (ids : list K) : Prop :=
  forall a, a ∈ t -> f a ∈ ids.

Record db_refs (d : Db) : Prop := {
  r_messages : refs m_session_id (messages d) (map s_id (sessions d));
  r_actions : refs pa_session_id (pending_actions d) (map s_id (sessions d));
  r_restore_points : refs rp_session_id (restore_points d) (map s_id (sessions d));
  r_events : refs pe_session_id (session_events d) (map s_id (sessions d));
  r_follow_ups : refs fq_session_id (follow_up_queue d) (map s_id (sessions d));
  r_compactions : refs cc_session_id (context_compactions d) (map s_id (sessions d));
  r_windows : refs cw_session_id (context_windows d) (map s_id (sessions d));
  r_attachments : refs at_session_id (tool_output_attachments d) (map s_id (sessions d));
  r_owned : refs (fun a => (at_message_id a, at_session_id a)) (tool_output_attachments d)
              (owners d);
}.

Lemma refs_snoc {A K} (f : A -> K) t x ids :
  refs f t ids -> f x ∈ ids -> refs f (t ++ [x]) ids.
Proof. unfold refs. set_solver. Qed.

Lemma refs_delete {A K} (f : A -> K) p t ids : refs f t ids -> refs f (delete_where p t) ids.
Proof. intros H a Ha. apply elem_of_delete_where in Ha as [Ha _]. by apply H. Qed.

Lemma refs_update {A K} (f : A -> K) p g t ids :
  (forall a, f (g a) = f a) -> refs f t ids -> refs f (update_where p g t) ids.
Proof.
  intros Hg H a Ha. apply elem_of_update_where in Ha as (b & Hb & ->).
  destruct (p b); [rewrite Hg|]; by apply H.
Qed.

Lemma refs_upsert {A K} (f : A -> K) same row t ids :
  f row ∈ ids -> refs f t ids -> refs f (upsert same row t) ids.
Proof.
  intros Hr H. unfold upsert. destruct (exists_where same t); [|by apply refs_snoc].
  intros a Ha. apply elem_of_update_where in Ha as (b & Hb & ->). destruct (same b); auto.
Qed.

Lemma refs_grow {A K} (f : A -> K) t ids ids' :
  refs f t ids -> (forall i, i ∈ ids -> i ∈ ids') -> refs f t ids'.
Proof. unfold refs. auto. Qed.

Lemma has_session_elem sid d : has_session sid d = true <-> sid ∈ map s_id (sessions d).
Proof.
  unfold has_session. rewrite exists_where_true, list_elem_of_fmap. split.
  - intros (s & Hs & Hid). apply N.eqb_eq in Hid. eauto.
  - intros (s & -> & Hs). exists s. split; [done|]. apply N.eqb_refl.
Qed.

Lemma ids_update_sessions p f d :
  (forall s, session_ident (f s) = session_ident s) ->
  map s_id (update_where p f (sessions d)) = map s_id (sessions d).
Proof. intros Hf. apply update_where_key. intros s. by injection (Hf s). Qed.

(** A table that does not refer to [sid] survives its deletion. *)
Lemma refs_delete_session {A} (f : A -> uuid) t sid d :
  exists_where (fun a => (f a =? sid)%N) t = false \/ has_session sid d = false ->
  refs f t (map s_id (sessions d)) ->
  refs f t (map s_id (delete_where (fun s => (s_id s =? sid)%N) (sessions d))).
Proof.
  intros H Hr. assert (forall a, a ∈ t -> f a <> sid) as Hne.
  { intros a Ha Hs. destruct H as [H|H].
    - apply (proj1 (exists_where_false _ _)) with (a := a) in H; [|done].
      by apply N.eqb_neq in H.
    - specialize (Hr a Ha). rewrite Hs, <- has_session_elem in Hr. congruence. }
  intros a Ha. specialize (Hr a Ha). apply list_elem_of_fmap in Hr as (s & Heq & Hs).
  rewrite Heq. apply list_elem_of_fmap_2, elem_of_delete_where. split; [done|].
  apply N.eqb_neq. rewrite <- Heq. by apply Hne.
Qed.

Lemma dstep_refs dir lo hi d d' :
  foreign_keys = true -> dstep dir lo hi d d' -> db_refs d -> db_refs d'.
Proof.
  intros Hfk Hd Hr. destruct Hr. destruct Hd; constructor; simpl;
    rewrite ?ids_update_sessions, ?owners_set_content by done; try done;
    repeat match goal with H : refers _ _ |- _ => specialize (H Hfk); apply has_session_elem in H end;
    try (by apply refs_delete); try (by apply refs_snoc); try (by apply refs_upsert);
    try (by eapply refs_grow; [done|]; intros i Hi; unfold owners; simpl; rewrite map_app; set_solver);
    try (apply refs_update; [|done]; intros row;
         solve [reflexivity | match goal with H : forall _, _ = _ |- _ => by injection (H row) end]);
    try (apply refs_delete_session; [|done];
         match goal with H : foreign_keys = true -> _ |- _ => destruct (H Hfk) as [Hu|] end;
         [left|by right]; unfold session_referenced in Hu;
         rewrite !orb_false_iff in Hu; tauto).
  - intros a Ha. specialize (r_owned0 a Ha).
    apply list_elem_of_fmap in r_owned0 as (m & Heq & Hm). rewrite Heq.
    apply (list_elem_of_fmap_2 (fun m => (m_id m, m_session_id m))), elem_of_delete_where.
    split; [done|]. injection Heq as Hid _. by eapply H.
Qed.

(** ** Context windows *)

(** Of two windows of one session, the later row has the larger number and the
    later boundary. *)
Definition window_before (v w : ContextWindow) : Prop :=
  cw_session_id v = cw_session_id w ->
  cw_window_index v < cw_window_index w /\ cw_start_message_count v < cw_start_message_count w.

Record windows_grow (d : Db) : Prop := {
  w_positive : forall w, w ∈ context_windows d ->
    0 < cw_window_index w /\ 0 < cw_start_message_count w;
  w_ordered : StronglySorted window_before (context_windows d);
}.

Lemma dstep_windows dir lo hi d d' : dstep dir lo hi d d' -> windows_grow d -> windows_grow d'.
Proof.
  intros Hd [Hp Ho]. destruct Hd; constructor; simpl; try done.
  - set_solver.
  - by apply SSorted_snoc.
  - intros w Hw. apply elem_of_delete_where in Hw as [Hw _]. by apply Hp.
  - by apply SSorted_delete_where.
Qed.

(** ** Creation times *)

(** The rows of a table are in the order of their creation, none of them later
    than the clock. *)
Record chrono {A} (key : A -> timestamp) (t : list A) (hi : nat) : Prop := {
  c_ordered : StronglySorted (fun a b => (key a <= key b)%Z) t;
  c_past : forall a, a ∈ t -> (key a <= utc_now hi)%Z;
}.

Record db_chrono (d : Db) (hi : nat) : Prop := {
  c_sessions : chrono s_created_at (sessions d) hi;
  c_messages : chrono m_created_at (messages d) hi;
  c_actions : chrono pa_created_at (pending_actions d) hi;
  c_restore_points : chrono rp_created_at (restore_points d) hi;
  c_events : chrono pe_created_at (session_events d) hi;
  c_follow_ups : chrono fq_created_at (follow_up_queue d) hi;
  c_memories : chrono lm_created_at (local_memories d) hi;
}.

Section Chrono.
Context {Eok : EnvOk E} {A : Type} (key : A -> timestamp).

Lemma chrono_later t lo hi : chrono key t lo -> lo <= hi -> chrono key t hi.
Proof.
  intros [Ho Hp] Hle. split; [done|]. intros a Ha. etrans; [by apply Hp|].
  by apply utc_now_mono.
Qed.

Lemma chrono_insert t lo hi x :
  drawn_time lo hi (key x) -> chrono key t lo -> chrono key (t ++ [x]) hi.
Proof.
  intros (i & Hi & Hx) [Ho Hp]. split.
  - apply SSorted_snoc; [done|]. intros y Hy. rewrite Hx. etrans; [by apply Hp|].
    apply utc_now_mono. lia.
  - intros a [Ha|Ha]%elem_of_app.
    + etrans; [by apply Hp|]. apply utc_now_mono. lia.
    + apply list_elem_of_singleton in Ha as ->. rewrite Hx. apply utc_now_mono. lia.
Qed.

Lemma chrono_delete p t lo hi :
  lo <= hi -> chrono key t lo -> chrono key (delete_where p t) hi.
Proof.
  intros Hle [Ho Hp]%(chrono_later _ _ hi); [|done]. split; [by apply SSorted_delete_where|].
  intros a Ha. apply elem_of_delete_where in Ha as [Ha _]. by apply Hp.
Qed.

Lemma chrono_update p f t lo hi :
  lo <= hi -> (forall a, key (f a) = key a) -> chrono key t lo ->
  chrono key (update_where p f t) hi.
Proof.
  intros Hle Hf [Ho Hp]%(chrono_later _ _ hi); [|done].
  assert (forall a, key (if p a then f a else a) = key a) as Hk.
  { intros a. destruct (p a); auto. }
  split.
  - clear Hp. unfold update_where. induction Ho as [|x t Ht IH Hx]; simpl; constructor; [done|].
    rewrite Forall_forall in *. intros y Hy. apply list_elem_of_fmap in Hy as (z & -> & Hz).
    rewrite !Hk. by apply Hx.
  - intros a Ha. apply elem_of_update_where in Ha as (b & Hb & ->). rewrite Hk. by apply Hp.
Qed.

(** A query by creation time lists such a table as it is stored. *)
Lemma order_by_chrono (p : A -> bool) t hi :
  chrono key t hi -> order_by (fun a b => (key a <=? key b)%Z) (select p t) = select p t.
Proof.
  intros [Ho _]. apply order_by_id.
  assert (select p t = delete_where (fun a => negb (p a)) t) as ->.
  { unfold select, delete_where. apply filter_ext. intros a. by rewrite negb_involutive. }
  apply SSorted_delete_where. revert Ho. clear. induction 1 as [|x t Ht IH Hx]; constructor; [done|].
  eapply Forall_impl; [done|]. intros y. apply Z.leb_le.
Qed.
End Chrono.

Lemma dstep_chrono {Eok : EnvOk E} dir lo hi d d' :
  lo <= hi -> dstep dir lo hi d d' -> db_chrono d lo -> db_chrono d' hi.
Proof.
  intros Hle Hd Hc. destruct Hc. destruct Hd; constructor; simpl;
    try (by eapply chrono_later); try (by eapply chrono_insert); try (by eapply chrono_delete);
    (eapply chrono_update; [done| |done]; intros row;
     solve [reflexivity | match goal with H : forall _, _ = _ |- _ => by injection (H row) end]).
Qed.

(** ** Decided approvals *)

(** No row other than [a] carries its identifier, which was drawn before. *)
Definition action_final (a : PendingAction) (st : SessionStore) : Prop :=
  (forall b, b ∈ pending_actions (db st) -> pa_id b = pa_id a -> b = a)
  /\ exists i, i < ticks st /\ pa_id a = new_v4 i.

Lemma dstep_action_final {Eok : EnvOk E} a st st' :
  pa_status a <> Pending -> stmt st st' -> action_final a st -> action_final a st'.
Proof.
  intros Ha [Ht _ Hd] [Hu (i & Hi & Hid)]. split; [|exists i; split; [lia|done]].
  destruct Hd; simpl; try done.
  - intros b [Hb|Hb]%elem_of_app Hb'; [by apply Hu|].
    apply list_elem_of_singleton in Hb as ->. destruct H as (j & Hj & Hidb).
    rewrite Hidb, Hid in Hb'. apply new_v4_inj in Hb'. lia.
  - intros b Hb Hb'. apply elem_of_update_where in Hb as (c & Hc & ->).
    destruct (p c) eqn:Hpc; [|by apply Hu].
    apply H in Hpc. simpl in Hb'. rewrite (Hu c Hc Hb') in Hpc. done.
  - intros b Hb. apply elem_of_delete_where in Hb as [Hb _]. by apply Hu.
Qed.


(** ** Drawn identifiers *)

(** The identifiers of a table were drawn before [hi]. *)
Definition ids_drawn {A} (key : A -> uuid) (t : list A) (hi : nat) : Prop :=
  forall a, a ∈ t -> drawn_id 0 hi (key a).

Record db_drawn (d : Db) (hi : nat) : Prop := {
  i_sessions : ids_drawn s_id (sessions d) hi;
  i_messages : ids_drawn m_id (messages d) hi;
  i_actions : ids_drawn pa_id (pending_actions d) hi;
  i_restore_points : ids_drawn rp_id (restore_points d) hi;
  i_events : ids_drawn pe_id (session_events d) hi;
  i_follow_ups : ids_drawn fq_id (follow_up_queue d) hi;
  i_memories : ids_drawn lm_id (local_memories d) hi;
}.

Section Drawn.
Context {A : Type} (key : A -> uuid).

Lemma drawn_later t lo hi : ids_drawn key t lo -> lo <= hi -> ids_drawn key t hi.
Proof. intros H Hle a Ha. destruct (H a Ha) as (i & Hi & Hid). exists i. split; [lia|done]. Qed.

Lemma drawn_insert t lo hi x :
  drawn_id lo hi (key x) -> lo <= hi -> ids_drawn key t lo -> ids_drawn key (t ++ [x]) hi.
Proof.
  intros (i & Hi & Hx) Hle H a [Ha|Ha]%elem_of_app; [by eapply drawn_later|].
  apply list_elem_of_singleton in Ha as ->. exists i. split; [lia|done].
Qed.

Lemma drawn_delete p t lo hi :
  lo <= hi -> ids_drawn key t lo -> ids_drawn key (delete_where p t) hi.
Proof.
  intros Hle H a Ha. apply elem_of_delete_where in Ha as [Ha _]. by eapply drawn_later.
Qed.

Lemma drawn_update p f t lo hi :
  lo <= hi -> (forall a, key (f a) = key a) -> ids_drawn key t lo ->
  ids_drawn key (update_where p f t) hi.
Proof.
  intros Hle Hf H a Ha. apply elem_of_update_where in Ha as (b & Hb & ->).
  destruct (p b); [rewrite Hf|]; by eapply drawn_later.
Qed.

(** The next identifier is not in use. *)
Lemma drawn_fresh {Eok : EnvOk E} t hi i :
  ids_drawn key t hi -> hi <= i -> exists_where (fun x => (key x =? new_v4 i)%N) t = false.
Proof.
  intros Hd Hi. apply exists_where_false. intros m Hm. apply N.eqb_neq. intros Heq.
  destruct (Hd m Hm) as (j & Hj & Hid). rewrite Hid in Heq. apply new_v4_inj in Heq. lia.
Qed.
End Drawn.

Lemma dstep_drawn dir lo hi d d' :
  lo <= hi -> dstep dir lo hi d d' -> db_drawn d lo -> db_drawn d' hi.
Proof.
  intros Hle Hd Hc. destruct Hc. destruct Hd; constructor; simpl;
    try (by eapply drawn_later); try (by eapply drawn_insert); try (by eapply drawn_delete);
    (eapply drawn_update; [done| |done]; intros row;
     solve [reflexivity | match goal with H : forall _, _ = _ |- _ => by injection (H row) end]).
Qed.

(** In a store without an attachment directory no attachment is recorded. *)
Lemma stmt_no_attachments st st' :
  stmt st st' -> attachment_dir st = None -> tool_output_attachments (db st) = [] ->
  tool_output_attachments (db st') = [].
Proof.
  intros [_ _ Hd] Hn Ha. rewrite Hn in Hd. destruct Hd; simpl; rewrite ?Ha; try done.
Qed.

(** ** Reachable stores *)

(** A new store, in memory or with the attachment directory [dir]. *)
Definition new_store (dir : option str) : SessionStore := mkStore empty_db dir ∅ 0.

Lemma empty_db_keys : db_keys empty_db.
Proof. split; constructor. Qed.
Lemma empty_db_refs : db_refs empty_db.
Proof. split; intros a Ha; by apply elem_of_nil in Ha. Qed.
Lemma empty_db_windows : windows_grow empty_db.
Proof. split; [intros w Hw; by apply elem_of_nil in Hw|constructor]. Qed.
Lemma empty_db_chrono : db_chrono empty_db 0.
Proof. split; (split; [constructor|intros a Ha; inversion Ha]). Qed.

Section Reachable.
Context (cs : list StoreCall) (dir : option str).
Let st := run_calls cs (new_store dir).

Lemma reachable_keys : db_keys (db st).
Proof.
  apply (stmt_invariant (fun st => db_keys (db st)) (new_store dir)).
  - intros a b [_ _ H]. by eapply dstep_keys.
  - apply run_calls_stmts.
  - apply empty_db_keys.
Qed.

Lemma reachable_windows : windows_grow (db st).
Proof.
  apply (stmt_invariant (fun st => windows_grow (db st)) (new_store dir)).
  - intros a b [_ _ H]. by eapply dstep_windows.
  - apply run_calls_stmts.
  - apply empty_db_windows.
Qed.

Lemma reachable_refs : foreign_keys = true -> db_refs (db st).
Proof.
  intros Hfk. apply (stmt_invariant (fun st => db_refs (db st)) (new_store dir)).
  - intros a b [_ _ H]. by eapply dstep_refs.
  - apply run_calls_stmts.
  - apply empty_db_refs.
Qed.

Lemma reachable_chrono : EnvOk E -> db_chrono (db st) (ticks st).
Proof.
  intros Hok. apply (stmt_invariant (fun st => db_chrono (db st) (ticks st)) (new_store dir)).
  - intros a b [Ht _ H]. by eapply dstep_chrono.
  - apply run_calls_stmts.
  - apply empty_db_chrono.
Qed.

Lemma reachable_drawn : db_drawn (db st) (ticks st).
Proof.
  apply (stmt_invariant (fun st => db_drawn (db st) (ticks st)) (new_store dir)).
  - intros a b [Ht _ H]. by eapply dstep_drawn.
  - apply run_calls_stmts.
  - split; intros a Ha; inversion Ha.
Qed.
End Reachable.

(** After every sequence of store calls on a new store the primary keys of all
    tables, and the pairs of workspace and text of the memories, are unique. *)
Theorem store_keys_unique cs dir : db_keys (db (run_calls cs (new_store dir))).
Proof. apply reachable_keys. Qed.

(** C22: With foreign keys enforced, after every sequence of store calls on a new store
    each child row refers to an existing session and each attachment to an existing
    message of the same session. *)
Theorem store_references_resolve cs dir :
  foreign_keys = true -> db_refs (db (run_calls cs (new_store dir))).
Proof. apply reachable_refs. Qed.

(** After every sequence of store calls the context windows of a session have
    positive, strictly increasing numbers and boundaries in the order of their creation. *)
Theorem context_windows_grow cs dir : windows_grow (db (run_calls cs (new_store dir))).
Proof. apply reachable_windows. Qed.

(** C14: Once a pending action has been approved or rejected, no later sequence of store
    calls changes it: a row with its identifier is that same row. *)
Theorem decided_action_final cs later dir a b :
  EnvOk E ->
  a ∈ pending_actions (db (run_calls cs (new_store dir))) ->
  pa_status a <> Pending ->
  b ∈ pending_actions (db (run_calls later (run_calls cs (new_store dir)))) ->
  pa_id b = pa_id a -> b = a.
Proof.
  intros Hok Ha Hs Hb Hid. set (st := run_calls cs (new_store dir)) in *.
  assert (action_final a st) as Hf.
  { split.
    2: { destruct (i_actions _ _ (reachable_drawn cs dir) a Ha) as (i & Hi & Hid').
         exists i. split; [apply Hi|done]. }
    intros c Hc Hc'. eapply NoDup_map_eq; [|exact Hc|exact Ha|exact Hc'].
    apply k_actions, reachable_keys. }
  assert (action_final a (run_calls later st)) as [Hu _]; [|by apply Hu].
  eapply (stmt_invariant (action_final a)); [|apply run_calls_stmts|exact Hf].
  intros x y. by apply dstep_action_final.
Qed.

End Calls.

(** ** Example runs *)

(** A session that asks for a command and gets it approved; the counter
    environment numbers the session 1 and the action 4. *)
Definition demo_session : CreateSessionParams := mkCreateSession $"/work" Ask $"openai" $"gpt" None.
Definition demo_call : ToolCall := mkToolCall $"call-1" RunCommand JNull.
Definition demo_calls : list StoreCall :=
  [CallCreateSession demo_session; CallAppendMessage 1 User $"hello";
   CallCreatePendingAction 1 demo_call; CallResolvePendingAction 4 Approved].
Definition demo_later : list StoreCall :=
  [CallResolvePendingAction 4 Rejected; CallRejectPendingActions 1].
Definition demo_action : PendingAction := mkPendingAction 4 1 demo_call Approved 5 (Some 6%Z).

Lemma store_references_resolve_witness :
  db_refs (db (@run_calls (counter_env true) demo_calls (new_store None))).
Proof. apply (@store_references_resolve (counter_env true)). reflexivity. Defined.

Definition demo_later_row : PendingAction :=
  default demo_action (find_pending_action 4
    (db (@run_calls (counter_env true) demo_later
           (@run_calls (counter_env true) demo_calls (new_store None))))).

Lemma decided_action_final_witness : demo_later_row = demo_action.
Proof.
  apply (@decided_action_final (counter_env true) demo_calls demo_later None demo_action
           demo_later_row (counter_env_ok true)).
  - vm_compute. left.
  - discriminate.
  - vm_compute. left.
  - vm_compute. reflexivity.
Defined.
