(* ===== verification/StoreFacts.v ===== *)
(** * Behaviour of the store's operations

    What each operation returns and changes: messages written are read back in
    full and in order, and search is substring search. *)

From S2P Require Import Prelude Protocol Sql Store StoreSteps StoreInv.

#[local] Arguments has_session : simpl never.
#[local] Arguments exists_where : simpl never.

Section Facts.
Context {E : Env}.

(** ** Search patterns *)

(** One character of an escaped pattern. *)
Definition escape_char (c : char) : str :=
  if (c =? BACKSLASH)%N || (c =? 37)%N || (c =? 95)%N then [BACKSLASH; c] else [c].

Lemma escape_like_pattern_cons c q :
  escape_like_pattern (c :: q) = escape_char c ++ escape_like_pattern q.
Proof.
  unfold escape_like_pattern, escape_char, replace_char. simpl.
  destruct (N.eqb_spec c BACKSLASH) as [->|H1]; [done|]. simpl.
  destruct (N.eqb_spec c 37) as [->|H2]; [done|]. simpl.
  destruct (N.eqb_spec c 95) as [->|H3]; [done|]. done.
Qed.

Section Like.
Context {L : LikeOk E}.

Lemma like_any s : sql_like [37%N] s = true.
Proof.
  induction s as [|c s IH]; rewrite like_percent, like_nil; simpl; [done|]. by rewrite IH.
Qed.

Lemma like_escape_char c p s :
  sql_like (escape_char c ++ p) s
  = match s with
    | [] => false
    | x :: r => (lower_char c =? lower_char x)%N && sql_like p r
    end.
Proof.
  unfold escape_char. destruct (_ || _) eqn:Hc; simpl; [apply like_escaped|].
  rewrite !orb_false_iff, !N.eqb_neq in Hc. apply like_literal; tauto.
Qed.

Lemma like_prefix q s :
  sql_like (escape_like_pattern q ++ [37%N]) s
  = starts_with (to_ascii_lowercase q) (to_ascii_lowercase s).
Proof.
  revert s. induction q as [|c q IH]; intros s; [apply like_any|].
  rewrite escape_like_pattern_cons, <- app_assoc, like_escape_char.
  destruct s as [|x s]; [done|]. rewrite IH. unfold starts_with. simpl.
  by destruct (N.eqb _ _).
Qed.

Lemma like_infix q s :
  sql_like ($"%" ++ escape_like_pattern q ++ $"%") s
  = contains (to_ascii_lowercase q) (to_ascii_lowercase s).
Proof.
  change (lit "%") with [37%N]. simpl. induction s as [|x s IH]; rewrite like_percent, like_prefix.
  - simpl. by rewrite orb_false_r.
  - rewrite IH. done.
Qed.
End Like.

Lemma fresh_attachment st mid :
  db_refs (db st) -> exists_where (fun x => (m_id x =? mid)%N) (messages (db st)) = false ->
  exists_where (fun x => (at_message_id x =? mid)%N) (tool_output_attachments (db st)) = false.
Proof.
  intros Hr Hm. apply exists_where_false. intros a Ha. apply N.eqb_neq. intros Heq.
  apply (r_owned _ Hr) in Ha. apply list_elem_of_fmap in Ha as (m & Hid & Hin).
  apply (proj1 (exists_where_false _ _)) with (a := m) in Hm; [|done].
  apply N.eqb_neq in Hm. congruence.
Qed.

(** ** Writing a message *)

Lemma insert_message_ok m st :
  exists_where (fun x => (m_id x =? m_id m)%N) (messages (db st)) = false ->
  has_session (m_session_id m) (db st) = true ->
  insert_message m st = (Ok tt, with_db (fun d => set_messages (messages d ++ [m]) d) st).
Proof.
  intros Hu Hs. unfold insert_message, check_unique, check_session_fk, bind, query. simpl.
  rewrite Hu. simpl. rewrite Hs, orb_true_r. done.
Qed.

Lemma insert_attachment_ok a st :
  exists_where (fun b => (at_message_id b =? at_message_id a)%N)
    (tool_output_attachments (db st)) = false ->
  has_session (at_session_id a) (db st) = true ->
  exists_where (fun m => (m_id m =? at_message_id a)%N) (messages (db st)) = true ->
  insert_attachment a st
  = (Ok tt, with_db (fun d => set_tool_output_attachments (tool_output_attachments d ++ [a]) d) st).
Proof.
  intros Hu Hs Hm. unfold insert_attachment, check_unique, check_session_fk, bind, query. simpl.
  rewrite Hu. simpl. rewrite Hs, orb_true_r. simpl. rewrite Hm, orb_true_r. done.
Qed.

(** Whether the output goes to an attachment. *)
Definition attaches (role : MessageRole) (content : str) (st : SessionStore) : bool :=
  bool_decide (role = Tool) && (TOOL_OUTPUT_ATTACHMENT_THRESHOLD <? byte_lenN content)%N
  && bool_decide (is_Some (attachment_dir st)).

(** The row that [append_message] writes. *)
Definition appended_row (sid : uuid) (role : MessageRole) (content : str) (st : SessionStore)
  : Message :=
  mkMessage (new_v4 (ticks st)) sid role
    (if attaches role content st then tool_output_preview content else content)
    (utc_now (S (ticks st))).

Lemma append_message_effect {Eok : EnvOk E} sid role content st :
  db_drawn (db st) (ticks st) -> db_refs (db st) -> has_session sid (db st) = true ->
  let m := appended_row sid role content st in
  exists st', append_message sid role content st = (Ok m, st')
    /\ messages (db st') = messages (db st) ++ [m]
    /\ sessions (db st') = sessions (db st)
    /\ attachment_dir st' = attachment_dir st
    /\ if attaches role content st
       then tool_output_attachments (db st') = tool_output_attachments (db st)
              ++ [mkAttachment (m_id m) sid (relative_attachment_path sid (m_id m))
                    (byte_lenN content)]
            /\ files st' !! relative_attachment_path sid (m_id m) = Some content
       else tool_output_attachments (db st') = tool_output_attachments (db st)
            /\ files st' = files st.
Proof.
  intros Hd Hr Hs m. unfold append_message, m, appended_row.
  pose proof (drawn_fresh m_id _ _ _ (i_messages _ _ Hd) (Nat.le_refl _)) as Hm.
  pose proof (fresh_attachment st _ Hr Hm) as Ha.
  unfold bind at 1 2 3. simpl. fold (attaches role content st).
  destruct (attaches role content st) eqn:Hat.
  - assert (exists root, attachment_dir st = Some root) as [root Hroot].
    { unfold attaches in Hat. apply andb_true_iff in Hat as [_ Hb].
      apply bool_decide_eq_true in Hb as [root Hb]. by exists root. }
    unfold bind, write_tool_output_attachment, require_attachment_dir, on_error, bind. simpl.
    rewrite Hroot. simpl. rewrite insert_message_ok by done. simpl.
    rewrite insert_attachment_ok; simpl; [|done|done|].
    + eexists. split; [reflexivity|]. simpl. by rewrite lookup_insert, decide_True by done.
    + apply exists_where_true. eexists. split; [apply elem_of_app; right; by left|].
      simpl. apply N.eqb_refl.
  - unfold bind. rewrite insert_message_ok by done. eexists. split; [reflexivity|]. done.
Qed.


Lemma find_snoc {A} (p : A -> bool) (t : list A) x :
  (forall y, y ∈ t -> p y = false) -> p x = true -> List.find p (t ++ [x]) = Some x.
Proof.
  intros Ht Hx. induction t as [|y t IH]; simpl; [by rewrite Hx|].
  rewrite Ht by set_solver. apply IH. set_solver.
Qed.

Lemma find_none_iff {A} (p : A -> bool) (t : list A) :
  (forall y, y ∈ t -> p y = false) -> List.find p t = None.
Proof.
  intros Ht. induction t as [|y t IH]; simpl; [done|].
  rewrite Ht by set_solver. apply IH. set_solver.
Qed.

Lemma id_fresh_false {A} (key : A -> uuid) (t : list A) k (p : A -> bool) :
  exists_where (fun x => (key x =? k)%N) t = false ->
  forall y, y ∈ t -> p y && (key y =? k)%N = false.
Proof.
  intros Hf y Hy. rewrite (proj1 (exists_where_false _ _) Hf y Hy). apply andb_false_r.
Qed.

(** What [get_session_message] reads of a message without attachment. *)
Lemma get_inline sid mid m st :
  List.find (fun m => (m_session_id m =? sid)%N && (m_id m =? mid)%N) (messages (db st)) = Some m ->
  List.find (fun x => (m_id x =? mid)%N) (messages (db st)) = Some m ->
  List.find (fun a => (at_session_id a =? sid)%N && (at_message_id a =? mid)%N)
    (tool_output_attachments (db st)) = None ->
  attaches (m_role m) (m_content m) st = false ->
  get_session_message sid mid st
  = (Ok (Some (mkMessage (m_id m) (m_session_id m) (m_role m) (m_content m) (m_created_at m))), st).
Proof.
  intros Hf Hf' Ha Hat. unfold get_session_message, find_tool_output_attachment,
    find_tool_output_attachment_with_size, bind, query, has_attachment_dir. rewrite Hf, Ha. simpl.
  unfold attaches in Hat. rewrite Hat. unfold message_content, bind, query. by rewrite Hf'.
Qed.

(** What it reads of a message with one. *)
Lemma get_attached sid mid m a root content st :
  List.find (fun m => (m_session_id m =? sid)%N && (m_id m =? mid)%N) (messages (db st)) = Some m ->
  List.find (fun a => (at_session_id a =? sid)%N && (at_message_id a =? mid)%N)
    (tool_output_attachments (db st)) = Some a ->
  attachment_dir st = Some root ->
  files st !! at_relative_path a = Some content ->
  get_session_message sid mid st
  = (Ok (Some (mkMessage (m_id m) (m_session_id m) (m_role m) content (m_created_at m))), st).
Proof.
  intros Hf Ha Hd Hc. unfold get_session_message, find_tool_output_attachment,
    find_tool_output_attachment_with_size, require_attachment_dir, read_file_text, bind, query.
  rewrite Hf, Ha, Hd. simpl. by rewrite Hc.
Qed.

Lemma append_then_get {Eok : EnvOk E} sid role content st :
  db_drawn (db st) (ticks st) -> db_refs (db st) -> has_session sid (db st) = true ->
  exists m st', append_message sid role content st = (Ok m, st')
    /\ fst (get_session_message sid (m_id m) st')
       = Ok (Some (mkMessage (m_id m) sid role content (m_created_at m))).
Proof.
  intros Hd Hr Hs. pose proof (drawn_fresh m_id _ _ _ (i_messages _ _ Hd) (Nat.le_refl _)) as Hm.
  pose proof (fresh_attachment st _ Hr Hm) as Ha.
  destruct (append_message_effect sid role content st Hd Hr Hs) as (st' & He & Hms & _ & Hdir & Hat).
  exists (appended_row sid role content st), st'. split; [exact He|].
  change (m_id (appended_row sid role content st)) with (new_v4 (ticks st)) in *.
  assert (forall p, p (appended_row sid role content st) = true ->
    List.find (fun m => p m && (m_id m =? new_v4 (ticks st))%N) (messages (db st'))
    = Some (appended_row sid role content st)) as Hfind.
  { intros p Hp. rewrite Hms. apply find_snoc; [by apply id_fresh_false|].
    rewrite Hp. simpl. apply N.eqb_refl. }
  assert (List.find (fun m => (m_session_id m =? sid)%N && (m_id m =? new_v4 (ticks st))%N)
            (messages (db st')) = Some (appended_row sid role content st)) as H1.
  { apply Hfind. apply N.eqb_refl. }
  destruct (attaches role content st) eqn:Hb; destruct Hat as [Hat Hfile].
  - assert (exists root, attachment_dir st = Some root) as [root Hroot].
    { unfold attaches in Hb. apply andb_true_iff in Hb as [_ Hb].
      apply bool_decide_eq_true in Hb as [root Hb]. by exists root. }
    assert (List.find (fun a => (at_session_id a =? sid)%N && (at_message_id a =? new_v4 (ticks st))%N)
      (tool_output_attachments (db st')) = Some (mkAttachment (new_v4 (ticks st)) sid
         (relative_attachment_path sid (new_v4 (ticks st))) (byte_lenN content))) as H2.
    { rewrite Hat. apply find_snoc; [by apply id_fresh_false|]. simpl. by rewrite !N.eqb_refl. }
    rewrite <- Hdir in Hroot. by rewrite (get_attached _ _ _ _ _ _ _ H1 H2 Hroot Hfile).
  - rewrite (get_inline _ _ _ _ H1 (Hfind (fun _ => true) eq_refl)).
    + unfold appended_row. by rewrite Hb.
    + rewrite Hat. apply find_none_iff. by apply id_fresh_false.
    + revert Hb. unfold appended_row, attaches. simpl. rewrite Hdir. intros Hb.
      rewrite Hb. exact Hb.
Qed.

(** C19: On every reachable store a message appended to an existing session is read back
    with its full content, also when a long tool output is moved to an attachment file
    and the row keeps a preview. *)
Theorem append_message_roundtrip cs dir sid role content :
  EnvOk E -> foreign_keys = true ->
  has_session sid (db (run_calls cs (new_store dir))) = true ->
  exists m st', append_message sid role content (run_calls cs (new_store dir)) = (Ok m, st')
    /\ fst (get_session_message sid (m_id m) st')
       = Ok (Some (mkMessage (m_id m) sid role content (m_created_at m))).
Proof.
  intros Hok Hfk Hs. apply append_then_get; [apply reachable_drawn| |done].
  by apply reachable_refs.
Qed.

(** Appending a message to a session of a reachable store puts it at the end of
    that session's history and leaves the histories of all other sessions as they are. *)
Theorem append_message_extends_history cs dir sid role content :
  EnvOk E -> foreign_keys = true ->
  has_session sid (db (run_calls cs (new_store dir))) = true ->
  exists m st', append_message sid role content (run_calls cs (new_store dir)) = (Ok m, st')
    /\ forall other, session_messages other (db st')
         = session_messages other (db (run_calls cs (new_store dir)))
           ++ (if (other =? sid)%N then [m] else []).
Proof.
  intros Hok Hfk Hs. set (st := run_calls cs (new_store dir)) in *.
  pose proof (reachable_chrono cs dir Hok) as Hc. fold st in Hc.
  destruct (append_message_effect sid role content st) as (st' & He & Hms & _);
    [apply reachable_drawn|by apply reachable_refs|done|].
  eexists _, st'. split; [exact He|]. intros other. unfold session_messages.
  rewrite Hms, select_app. simpl. rewrite (N.eqb_sym sid other).
  destruct (other =? sid)%N; [|by rewrite !app_nil_r].
  apply order_by_snoc. intros y Hy. apply elem_of_select in Hy as [Hy _].
  apply Z.leb_le. simpl. etrans; [by apply (c_past _ _ _ (c_messages _ _ Hc))|].
  apply utc_now_mono. lia.
Qed.

(** ** Reading messages *)

(** What the reading of messages relies on. *)
Record readable (st : SessionStore) : Prop := {
  rd_keys : db_keys (db st);
  rd_refs : db_refs (db st);
  rd_dir : attachment_dir st = None -> tool_output_attachments (db st) = [];
}.

Lemma readable_stmts st st' :
  foreign_keys = true -> rtc stmt st st' -> readable st -> readable st'.
Proof.
  intros Hfk. apply stmt_invariant. intros a b Hab [Hk Hr Hd]. split.
  - destruct Hab as [_ _ Hab]. by eapply dstep_keys.
  - destruct Hab as [_ _ Hab]. by eapply dstep_refs.
  - intros Hn. rewrite (stmt_dir _ _ Hab) in Hn. by eapply stmt_no_attachments; auto.
Qed.

Lemma reachable_readable cs dir :
  foreign_keys = true -> readable (run_calls cs (new_store dir)).
Proof.
  intros Hfk. eapply readable_stmts; [done|apply run_calls_stmts|].
  split; [apply empty_db_keys|apply empty_db_refs|done].
Qed.

(** Moving tool output keeps every message, and the content of the others. *)
Definition kept_row (m m' : Message) : Prop :=
  message_ident m' = message_ident m /\ (m_role m <> Tool -> m' = m).
Definition kept (st st' : SessionStore) : Prop :=
  Forall2 kept_row (messages (db st)) (messages (db st')).

#[local] Instance kept_row_refl : Reflexive kept_row.
Proof. done. Qed.
#[local] Instance kept_row_trans : Transitive kept_row.
Proof.
  intros a b c [H1 H2] [H3 H4]. split; [congruence|]. intros Ha.
  rewrite <- (H2 Ha). apply H4. by rewrite (H2 Ha).
Qed.

Lemma kept_refl st : kept st st.
Proof. unfold kept. by apply Forall_Forall2_diag, Forall_forall. Qed.
Lemma kept_trans a b c : kept a b -> kept b c -> kept a c.
Proof. unfold kept. intros H1 H2. by etrans. Qed.

Section KeptQueries.
Lemma kept_fields m m' :
  kept_row m m' -> m_id m' = m_id m /\ m_session_id m' = m_session_id m
                   /\ m_role m' = m_role m /\ m_created_at m' = m_created_at m.
Proof. intros [H _]. by injection H. Qed.

Lemma kept_select (p : Message -> bool) t t' :
  (forall m m', kept_row m m' -> p m' = p m) ->
  Forall2 kept_row t t' -> Forall2 kept_row (select p t) (select p t').
Proof.
  intros Hp. unfold select. induction 1 as [|m m' t t' Hm Ht IH]; simpl; [constructor|].
  rewrite (Hp m m' Hm). destruct (p m); [by constructor|done].
Qed.

Lemma kept_insert m m' l l' :
  kept_row m m' -> Forall2 kept_row l l' ->
  Forall2 kept_row (insert_by message_le m l) (insert_by message_le m' l').
Proof.
  intros Hm. induction 1 as [|x x' l l' Hx Hl IH]; simpl; [constructor; [done|constructor]|].
  assert (message_le m' x' = message_le m x) as ->.
  { unfold message_le. destruct (kept_fields _ _ Hm) as (_ & _ & _ & ->).
    by destruct (kept_fields _ _ Hx) as (_ & _ & _ & ->). }
  destruct (message_le m x); (constructor; [done|]); [by constructor|done].
Qed.

Lemma kept_order l l' :
  Forall2 kept_row l l' -> Forall2 kept_row (order_by message_le l) (order_by message_le l').
Proof.
  induction 1 as [|x x' l l' Hx Hl IH]; simpl; [constructor|]. by apply kept_insert.
Qed.

Lemma kept_session_messages sid st st' :
  kept st st' -> Forall2 kept_row (session_messages sid (db st)) (session_messages sid (db st')).
Proof.
  intros H. apply kept_order, kept_select; [|done]. intros m m' Hm.
  by destruct (kept_fields _ _ Hm) as (_ & -> & _).
Qed.
End KeptQueries.

Lemma find_id_row {A} (key : A -> uuid) (t : list A) x :
  NoDup (map key t) -> x ∈ t -> List.find (fun y => (key y =? key x)%N) t = Some x.
Proof. intros Hn Hx. apply (find_by_key key); [done|done|]. intros y. apply N.eqb_eq. Qed.

Lemma message_content_ok m st :
  db_keys (db st) -> m ∈ messages (db st) ->
  message_content (m_id m) st = (Ok (m_content m), st).
Proof.
  intros Hk Hm. unfold message_content, bind, query.
  by rewrite (find_id_row m_id _ m (k_messages _ Hk) Hm).
Qed.

Lemma find_with_size_ok sid mid st :
  readable st ->
  exists r, find_tool_output_attachment_with_size sid mid st = (Ok r, st)
    /\ (r = None -> forall a, a ∈ tool_output_attachments (db st) ->
        at_session_id a = sid -> at_message_id a <> mid).
Proof.
  intros Hr. unfold find_tool_output_attachment_with_size, bind, query.
  destruct (List.find _ _) as [a|] eqn:Hf.
  - unfold require_attachment_dir. destruct (attachment_dir st) eqn:Hd; [by eexists|].
    rewrite (rd_dir _ Hr Hd) in Hf. done.
  - exists None. split; [done|]. intros _ a Ha <- <-.
    apply find_none with (x := a) in Hf; [|by apply list_elem_of_In].
    by rewrite !N.eqb_refl in Hf.
Qed.


Lemma find_attachment_ok sid mid st :
  readable st ->
  exists r, find_tool_output_attachment sid mid st = (Ok r, st)
    /\ (r = None -> forall a, a ∈ tool_output_attachments (db st) ->
        at_session_id a = sid -> at_message_id a <> mid).
Proof.
  intros Hr. destruct (find_with_size_ok sid mid st Hr) as (r & Hf & Hn).
  exists (option_map fst r). unfold find_tool_output_attachment, bind. rewrite Hf.
  split; [done|]. destruct r; [done|auto].
Qed.

(** No attachment carries the identifier of a message without one. *)
Lemma unattached_message m st :
  readable st -> m ∈ messages (db st) ->
  (forall a, a ∈ tool_output_attachments (db st) ->
     at_session_id a = m_session_id m -> at_message_id a <> m_id m) ->
  exists_where (fun b => (at_message_id b =? m_id m)%N) (tool_output_attachments (db st)) = false.
Proof.
  intros Hr Hm Hn. apply exists_where_false. intros a Ha. apply N.eqb_neq. intros Hid.
  apply (Hn a Ha); [|done]. apply (r_owned _ (rd_refs _ Hr)) in Ha.
  apply list_elem_of_fmap in Ha as (m' & Heq & Hm'). injection Heq as Hi Hs. rewrite Hs.
  f_equal. eapply NoDup_map_eq; [apply k_messages, rd_keys, Hr|done|done|congruence].
Qed.

Lemma kept_update (c : str) m st f :
  m ∈ messages (db st) -> NoDup (map m_id (messages (db st))) -> m_role m = Tool ->
  f = (fun x => mkMessage (m_id x) (m_session_id x) (m_role x) c (m_created_at x)) ->
  Forall2 kept_row (messages (db st))
    (update_where (fun x => (m_id x =? m_id m)%N) f (messages (db st))).
Proof.
  intros Hm Hn Ht ->. unfold update_where. apply Forall2_fmap_r, Forall_Forall2_diag, Forall_forall.
  intros x Hx. simpl. destruct (N.eqb_spec (m_id x) (m_id m)) as [Hid|]; [|reflexivity].
  rewrite (NoDup_map_eq m_id _ x m Hn Hx Hm Hid). split; [done|]. intros []. exact Ht.
Qed.

Lemma migrate_ok m st :
  readable st -> m ∈ messages (db st) -> m_role m = Tool ->
  exists st', migrate_legacy_tool_output (m_session_id m) (m_id m) st = (Ok tt, st') /\ kept st st'.
Proof.
  intros Hr Hm Ht. unfold migrate_legacy_tool_output.
  destruct (find_attachment_ok (m_session_id m) (m_id m) st Hr) as (r & Hf & Hn).
  unfold bind at 1. rewrite Hf. destruct r as [path|]; [exists st; split; [done|apply kept_refl]|].
  specialize (Hn eq_refl). unfold bind at 1, has_attachment_dir.
  destruct (attachment_dir st) as [root|] eqn:Hd; simpl; [|exists st; split; [done|apply kept_refl]].
  unfold bind at 1. rewrite message_content_ok by (done || apply Hr). unfold bind at 1.
  unfold write_tool_output_attachment, require_attachment_dir, bind at 1. rewrite Hd. simpl.
  destruct (_ <=? _)%N; [eexists; split; [reflexivity|exact (kept_refl st)]|].
  unfold on_error, transaction, bind at 1. rewrite insert_attachment_ok; simpl.
  - eexists. split; [reflexivity|].
    exact (kept_update _ m st _ Hm (k_messages _ (rd_keys _ Hr)) Ht eq_refl).
  - by apply unattached_message.
  - apply has_session_elem. by apply (r_messages _ (rd_refs _ Hr)).
  - apply exists_where_true. exists m. split; [done|]. apply N.eqb_refl.
Qed.

Lemma row_owned m d : m ∈ messages d -> (m_id m, m_session_id m) ∈ owners d.
Proof. apply (list_elem_of_fmap_2 (fun m => (m_id m, m_session_id m))). Qed.

(** A preview of a row that is still there succeeds and shows it. *)
Lemma message_preview_ok m0 m st :
  foreign_keys = true -> readable st -> m ∈ messages (db st) -> kept_row m0 m ->
  exists p st', message_preview m0 st = (Ok p, st')
    /\ kept_row m0 (preview_to_message p) /\ kept st st' /\ readable st'.
Proof.
  intros Hfk Hr Hm Hk. destruct (kept_fields _ _ Hk) as (Hi & Hs & Hrole & Ht).
  enough (exists p st', message_preview m0 st = (Ok p, st')
    /\ kept_row m0 (preview_to_message p) /\ kept st st') as (p & st' & Hp & Hrow & Hst).
  { exists p, st'. repeat (split; [done|]).
    pose proof (row_owned _ _ Hm) as Ho. rewrite Hi, Hs in Ho.
    pose proof (proj1 (reads_message_preview _ _ m0 Ho st eq_refl eq_refl)) as Hrun.
    rewrite Hp in Hrun. by eapply readable_stmts. }
  unfold message_preview. rewrite <- Hi, <- Hs.
  destruct (find_with_size_ok (m_session_id m) (m_id m) st Hr) as (r & Hf & Hn).
  assert (forall c, (m_role m <> Tool -> c = m_content m) ->
    kept_row m0 (mkMessage (m_id m) (m_session_id m) (m_role m0) c (m_created_at m0))) as Hrow.
  { intros c Hc. split; [unfold message_ident; simpl; congruence|]. intros Hnt.
    rewrite <- Hrole in Hnt. specialize (Hc Hnt). destruct Hk as [_ Hk].
    rewrite <- (Hk ltac:(congruence)) in *. rewrite Hc. by destruct m. }
  unfold bind at 1. rewrite Hf. destruct r as [[path bytes]|]; unfold bind at 1;
    rewrite message_content_ok by (done || apply Hr).
  - eexists _, st. split; [reflexivity|]. split; [by apply Hrow|apply kept_refl].
  - cbv zeta. rewrite <- Hrole. destruct (bool_decide (m_role m = Tool)) eqn:Hb; simpl.
    2: { eexists _, st. split; [reflexivity|]. split; [|apply kept_refl].
         rewrite Hrole. by apply Hrow. }
    apply bool_decide_eq_true in Hb. destruct (_ <? _)%N.
    + unfold bind at 1. destruct (migrate_ok m st Hr Hm Hb) as (st' & Hmig & Hst).
      rewrite Hmig. unfold bind at 1.
      destruct (proj1 (list_elem_of_lookup _ _) Hm) as [i Hl].
      destruct (Forall2_lookup_l _ _ _ _ _ Hst Hl) as (m' & Hl' & Hk').
      destruct (kept_fields _ _ Hk') as (Hi' & _).
      pose proof (proj1 (reads_migrate _ _ _ _ (row_owned _ _ Hm) st eq_refl eq_refl)) as Hrun.
      rewrite Hmig in Hrun. simpl in Hrun. rewrite <- Hi', message_content_ok.
      * eexists _, st'. split; [reflexivity|]. split; [|done]. rewrite Hrole, Hi'. by apply Hrow.
      * eapply rd_keys, readable_stmts; done.
      * apply list_elem_of_lookup. by exists i.
    + destruct (_ <? _)%N.
      * eexists _, st. split; [reflexivity|]. split; [|apply kept_refl]. rewrite Hrole. by apply Hrow.
      * eexists _, st. split; [reflexivity|]. split; [|apply kept_refl]. rewrite Hrole. by apply Hrow.
Qed.

Section Listing.
Context (Hfk : foreign_keys = true).

Lemma previews_ok rows st0 st :
  kept st0 st -> readable st -> (forall m, m ∈ rows -> m ∈ messages (db st0)) ->
  exists ps st', for_each rows message_preview st = (Ok ps, st')
    /\ Forall2 kept_row rows (map preview_to_message ps) /\ kept st0 st' /\ readable st'.
Proof.
  revert st. induction rows as [|m0 rows IH]; intros st Hk Hr Hin; simpl.
  { exists [], st. repeat split; try done; apply Hr. }
  destruct (proj1 (list_elem_of_lookup _ _) (Hin m0 ltac:(set_solver))) as [i Hl].
  destruct (Forall2_lookup_l _ _ _ _ _ Hk Hl) as (m & Hl' & Hrow).
  destruct (message_preview_ok m0 m st Hfk Hr) as (p & st1 & Hp & Hp' & Hk1 & Hr1);
    [apply list_elem_of_lookup; by exists i|done|].
  destruct (IH st1) as (ps & st2 & Hps & Hps' & Hk2 & Hr2);
    [by eapply kept_trans|done|set_solver|].
  exists (p :: ps), st2. unfold bind at 1. rewrite Hp. unfold bind at 1. rewrite Hps.
  split; [done|]. split; [by constructor|done].
Qed.

Lemma kept_page sid off limit st st' :
  kept st st' -> Forall2 kept_row (page off limit (session_messages sid (db st)))
                   (page off limit (session_messages sid (db st'))).
Proof. intros H. by apply Forall2_take, Forall2_drop, kept_session_messages. Qed.

Lemma session_messages_elem sid d m : m ∈ session_messages sid d -> m ∈ messages d.
Proof. unfold session_messages. rewrite order_by_perm, elem_of_select. tauto. Qed.

Lemma previews_page_ok sid off limit st0 st :
  MIN_CONTEXT_TOOL_LIMIT <= limit <= MAX_CONTEXT_TOOL_LIMIT -> kept st0 st -> readable st ->
  exists pg st', list_message_previews_page sid off limit st = (Ok pg, st')
    /\ Forall2 kept_row (page off limit (session_messages sid (db st0)))
         (map preview_to_message (pg_messages pg))
    /\ kept st0 st' /\ readable st'.
Proof.
  intros [Hlo Hhi] Hk Hr. unfold list_message_previews_page, validate_context_tool_page.
  apply Nat.leb_le in Hlo, Hhi. rewrite Hlo, Hhi. unfold count_messages, query.
  do 3 (unfold bind at 1; simpl).
  destruct (previews_ok (page off limit (session_messages sid (db st))) st st)
    as (ps & st' & Hps & Hf & Hk' & Hr'); [apply kept_refl|done| |].
  { intros m Hm. by apply page_elem, session_messages_elem in Hm. }
  unfold bind at 1. rewrite Hps. eexists _, st'. split; [reflexivity|]. simpl.
  split; [|split; [by eapply kept_trans|done]].
  etrans; [by apply kept_page|done].
Qed.

Lemma pages_ok sid offs st0 st :
  kept st0 st -> readable st ->
  exists pgs st', for_each offs (fun offset =>
      list_message_previews_page sid offset SESSION_MESSAGE_PAGE_SIZE) st = (Ok pgs, st')
    /\ Forall2 kept_row
         (concat (map (fun off => page off SESSION_MESSAGE_PAGE_SIZE
                                    (session_messages sid (db st0))) offs))
         (concat (map (fun p => map preview_to_message (pg_messages p)) pgs))
    /\ kept st0 st' /\ readable st'.
Proof.
  revert st. induction offs as [|off offs IH]; intros st Hk Hr; simpl.
  { exists [], st. repeat split; try done; apply Hr. }
  destruct (previews_page_ok sid off SESSION_MESSAGE_PAGE_SIZE st0 st)
    as (pg & st1 & Hp & Hf & Hk1 & Hr1);
    [unfold MIN_CONTEXT_TOOL_LIMIT, MAX_CONTEXT_TOOL_LIMIT, SESSION_MESSAGE_PAGE_SIZE; lia
    |done|done|].
  destruct (IH st1 Hk1 Hr1) as (pgs & st2 & Hps & Hf2 & Hk2 & Hr2).
  exists (pg :: pgs), st2. unfold bind at 1. rewrite Hp. unfold bind at 1. rewrite Hps.
  split; [done|]. split; [by apply Forall2_app|done].
Qed.

Lemma all_pages sid d :
  concat (map (fun off => page off SESSION_MESSAGE_PAGE_SIZE (session_messages sid d))
            (page_offsets (count_where (fun m => (m_session_id m =? sid)%N) (messages d))))
  = session_messages sid d.
Proof.
  unfold page_offsets. rewrite map_map.
  rewrite take_drop_pages by (unfold SESSION_MESSAGE_PAGE_SIZE; lia).
  apply firstn_all2. unfold session_messages. rewrite (order_by_perm message_le).
  unfold count_where. set (n := length _).
  pose proof (Nat.div_mod_eq (n + (SESSION_MESSAGE_PAGE_SIZE - 1)) SESSION_MESSAGE_PAGE_SIZE).
  pose proof (Nat.mod_upper_bound (n + (SESSION_MESSAGE_PAGE_SIZE - 1))
                SESSION_MESSAGE_PAGE_SIZE ltac:(done)).
  unfold SESSION_MESSAGE_PAGE_SIZE in *. lia.
Qed.

Lemma list_messages_ok sid st :
  readable st ->
  exists msgs st', list_messages sid st = (Ok msgs, st')
    /\ Forall2 kept_row (session_messages sid (db st)) msgs.
Proof.
  intros Hr. unfold list_messages, count_messages, query. unfold bind at 1. simpl.
  destruct (pages_ok sid (page_offsets
    (count_where (fun m => (m_session_id m =? sid)%N) (messages (db st)))) st st (kept_refl st) Hr)
    as (pgs & st' & Hp & Hf & _). rewrite all_pages in Hf.
  unfold bind at 1. rewrite Hp. by eexists _, st'.
Qed.
End Listing.

(** C20: On every reachable store listing a session's messages succeeds and returns
    every message of the session exactly once, in order, with its identity, and with
    unchanged content when it is not a tool message, although pages are read one by one
    and long outputs are moved to files on the way. *)
Theorem list_messages_complete cs dir sid :
  foreign_keys = true ->
  exists msgs st', list_messages sid (run_calls cs (new_store dir)) = (Ok msgs, st')
    /\ Forall2 (fun m m' => message_ident m' = message_ident m
                            /\ (m_role m <> Tool -> m_content m' = m_content m))
         (session_messages sid (db (run_calls cs (new_store dir)))) msgs.
Proof.
  intros Hfk. destruct (list_messages_ok Hfk sid (run_calls cs (new_store dir)))
    as (msgs & st' & Hl & Hf); [by apply reachable_readable|].
  exists msgs, st'. split; [done|]. eapply Forall2_impl; [exact Hf|].
  intros m m' [Hi Hc]. split; [done|]. intros Hn. by rewrite (Hc Hn).
Qed.

(** History search succeeds for a non-blank query and a legal page and returns the
    requested page of the messages whose content contains the trimmed query without
    regard to ASCII case; wildcards of LIKE in the query are literal. *)
Theorem search_is_substring_search cs dir sid q offset limit :
  LikeOk E -> foreign_keys = true ->
  trim q <> [] -> MIN_CONTEXT_TOOL_LIMIT <= limit <= MAX_CONTEXT_TOOL_LIMIT ->
  exists msgs st',
    search_session_messages sid q offset limit (run_calls cs (new_store dir)) = (Ok msgs, st')
    /\ map message_ident msgs
       = map message_ident (page offset limit (order_by message_le
           (select (fun m => (m_session_id m =? sid)%N
                     && contains (to_ascii_lowercase (trim q)) (to_ascii_lowercase (m_content m)))
              (messages (db (run_calls cs (new_store dir))))))).
Proof.
  intros HL Hfk Hq [Hlo Hhi]. set (st := run_calls cs (new_store dir)).
  unfold search_session_messages, validate_context_tool_page.
  apply Nat.leb_le in Hlo, Hhi. rewrite Hlo, Hhi. unfold query. cbv zeta.
  destruct (is_empty (trim q)) eqn:He; [by destruct (trim q)|]. do 3 (unfold bind at 1; simpl).
  match goal with |- context [for_each ?rows] => set (l := rows) end.
  assert (l = page offset limit (order_by message_le
           (select (fun m => (m_session_id m =? sid)%N
              && contains (to_ascii_lowercase (trim q)) (to_ascii_lowercase (m_content m)))
              (messages (db st))))) as <-.
  { unfold l, select. do 2 f_equal. apply filter_ext. intros m. f_equal.
    apply (like_infix (trim q) (m_content m)). }
  destruct (previews_ok Hfk l st st) as (ps & st' & Hps & Hf & _);
    [apply kept_refl|by apply reachable_readable| |].
  { intros m Hm. apply page_elem in Hm. rewrite order_by_perm, elem_of_select in Hm. tauto. }
  unfold bind at 1. rewrite Hps. eexists _, st'. split; [reflexivity|].
  clear -Hf. induction Hf as [|m m' t t' [Hm _] Ht IH]; simpl; congruence.
Qed.
End Facts.

(** ** Example runs *)

Definition demo_dir : option str := Some $"/data/attachments".

Lemma append_message_roundtrip_witness :
  exists m st', @append_message (counter_env true) 1 Tool $"done"
      (@run_calls (counter_env true) demo_calls (new_store demo_dir)) = (Ok m, st')
    /\ fst (@get_session_message (counter_env true) 1 (m_id m) st')
       = Ok (Some (mkMessage (m_id m) 1 Tool $"done" (m_created_at m))).
Proof.
  apply (@append_message_roundtrip (counter_env true)).
  - apply counter_env_ok.
  - reflexivity.
  - vm_compute. reflexivity.
Defined.

Lemma append_message_extends_history_witness :
  exists m st', @append_message (counter_env true) 1 Assistant $"done"
      (@run_calls (counter_env true) demo_calls (new_store demo_dir)) = (Ok m, st')
    /\ forall other, session_messages other (db st')
         = session_messages other (db (@run_calls (counter_env true) demo_calls (new_store demo_dir)))
           ++ (if (other =? 1)%N then [m] else []).
Proof.
  apply (@append_message_extends_history (counter_env true)).
  - apply counter_env_ok.
  - reflexivity.
  - vm_compute. reflexivity.
Defined.

Lemma list_messages_complete_witness :
  exists msgs st', @list_messages (counter_env true) 1
      (@run_calls (counter_env true) demo_calls (new_store demo_dir)) = (Ok msgs, st')
    /\ Forall2 (fun m m' => message_ident m' = message_ident m
                            /\ (m_role m <> Tool -> m_content m' = m_content m))
         (session_messages 1 (db (@run_calls (counter_env true) demo_calls (new_store demo_dir)))) msgs.
Proof. apply (@list_messages_complete (counter_env true)). reflexivity. Defined.

Lemma search_is_substring_search_witness :
  exists msgs st',
    @search_session_messages (counter_env true) 1 $"ELL" 0 10
      (@run_calls (counter_env true) demo_calls (new_store demo_dir)) = (Ok msgs, st')
    /\ map message_ident msgs
       = map message_ident (page 0 10 (order_by message_le
           (select (fun m => (m_session_id m =? 1)%N
                     && contains (to_ascii_lowercase (trim $"ELL")) (to_ascii_lowercase (m_content m)))
              (messages (db (@run_calls (counter_env true) demo_calls (new_store demo_dir))))))).
Proof.
  apply (@search_is_substring_search (counter_env true)).
  - apply counter_env_like.
  - reflexivity.
  - vm_compute. discriminate.
  - vm_compute. lia.
Defined.
