(* ===== verification/StoreDelete.v ===== *)
(** * Deletion of sessions

    [erase_session] is the contract: the session and every row that belongs to
    it are gone, all other rows stay.  [delete_session] meets it on every
    reachable store; [delete_workspace_sessions] meets it only while the
    sessions of the workspace have no attachment, because it deletes messages
    before the attachments that refer to them. *)

From S2P Require Import Prelude Protocol Sql Store StoreSteps StoreInv StoreFacts.

#[local] Arguments has_session : simpl never.
#[local] Arguments exists_where : simpl never.

Definition erase_session (sid : uuid) (d : Db) : Db :=
  mkDb
    (delete_where (fun s => (s_id s =? sid)%N) (sessions d))
    (delete_where (fun m => (m_session_id m =? sid)%N) (messages d))
    (delete_where (fun a => (pa_session_id a =? sid)%N) (pending_actions d))
    (delete_where (fun r => (rp_session_id r =? sid)%N) (restore_points d))
    (delete_where (fun e => (pe_session_id e =? sid)%N) (session_events d))
    (delete_where (fun q => (fq_session_id q =? sid)%N) (follow_up_queue d))
    (workspace_configs d)
    (delete_where (fun c => (cc_session_id c =? sid)%N) (context_compactions d))
    (delete_where (fun w => (cw_session_id w =? sid)%N) (context_windows d))
    (local_memories d) (vision_descriptions d) (vision_routes d)
    (delete_where (fun a => (at_session_id a =? sid)%N) (tool_output_attachments d)).

Section Delete.
Context {E : Env}.

Lemma delete_where_gone {A} (p : A -> bool) (t : list A) :
  exists_where p (delete_where p t) = false.
Proof. apply exists_where_false. intros a Ha. apply elem_of_delete_where in Ha. tauto. Qed.

(** Attachments of other sessions do not refer to messages of [sid]. *)
Lemma foreign_attachments sid st :
  readable st ->
  exists_where (fun a => exists_where
      (fun m => (m_session_id m =? sid)%N && (m_id m =? at_message_id a)%N) (messages (db st)))
    (delete_where (fun a => (at_session_id a =? sid)%N) (tool_output_attachments (db st))) = false.
Proof.
  intros Hr. apply exists_where_false. intros a Ha. apply exists_where_false. intros m Hm.
  apply elem_of_delete_where in Ha as [Ha Hs]. apply N.eqb_neq in Hs.
  apply andb_false_iff. rewrite !N.eqb_neq.
  destruct (N.eq_dec (m_id m) (at_message_id a)) as [Hid|]; [left|by right].
  apply (r_owned _ (rd_refs _ Hr)) in Ha. apply list_elem_of_fmap in Ha as (m' & Heq & Hm').
  injection Heq as Hi Hse.
  rewrite (NoDup_map_eq m_id _ m m' (k_messages _ (rd_keys _ Hr)) Hm Hm') by congruence. congruence.
Qed.

Lemma delete_session_row_ok sid st :
  session_referenced sid (db st) = false ->
  delete_session_row sid st
  = (Ok (count_where (fun s => (s_id s =? sid)%N) (sessions (db st))),
     with_db (fun d => set_sessions (delete_where (fun s => (s_id s =? sid)%N) (sessions d)) d) st).
Proof.
  intros Hu. unfold delete_session_row, bind, query. simpl. by rewrite Hu, !orb_true_r.
Qed.

Lemma delete_messages_ok p st :
  exists_where (fun a => exists_where (fun m => p m && (m_id m =? at_message_id a)%N)
    (messages (db st))) (tool_output_attachments (db st)) = false ->
  delete_messages_where p st
  = (Ok tt, with_db (fun d => set_messages (delete_where p (messages d)) d) st).
Proof.
  intros Hu. unfold delete_messages_where, bind, query. simpl. by rewrite Hu, orb_true_r.
Qed.

Lemma count_positive sid d :
  (0 <? count_where (fun s => (s_id s =? sid)%N) (sessions d)) = has_session sid d.
Proof.
  unfold count_where, select, has_session, exists_where.
  induction (sessions d) as [|s t IH]; simpl; [done|]. by destruct (s_id s =? sid)%N.
Qed.

(** The files that go with the session. *)
Definition owns_file (sid : uuid) (path : str) (d : Db) : bool :=
  exists_where (fun a => (at_session_id a =? sid)%N && (at_relative_path a =s path))
    (tool_output_attachments d).

Lemma foldr_delete_lookup (ps : list (list N)) (f : gmap (list N) (list N)) path :
  foldr (fun p f => delete p f) f ps !! path = if existsb (str_eqb path) ps then None else f !! path.
Proof.
  induction ps as [|p ps IH]; simpl; [done|]. rewrite lookup_delete. unfold str_eqb at 1.
  destruct (decide (p = path)) as [->|Hne]; [by rewrite bool_decide_eq_true_2|].
  rewrite IH, bool_decide_eq_false_2 by done. done.
Qed.

Lemma paths_of_session sid path (t : list AttachmentRow) :
  existsb (str_eqb path) (map at_relative_path (select (fun a => (at_session_id a =? sid)%N) t))
  = exists_where (fun a => (at_session_id a =? sid)%N && (at_relative_path a =s path)) t.
Proof.
  unfold select, exists_where. induction t as [|a t IH]; simpl; [done|].
  destruct (at_session_id a =? sid)%N; simpl; rewrite IH; [|done]. f_equal.
  unfold str_eqb. by apply bool_decide_ext.
Qed.

Lemma delete_session_ok sid st :
  readable st ->
  exists st', delete_session sid st = (Ok (has_session sid (db st)), st')
    /\ db st' = erase_session sid (db st)
    /\ forall path, files st' !! path
         = if owns_file sid path (db st) then None else files st !! path.
Proof.
  intros Hr. unfold delete_session.
  assert (exists ps, attachment_paths_for_session_text sid st = (Ok ps, st)
    /\ forall path, existsb (str_eqb path) ps = owns_file sid path (db st)) as (ps & Hps & Hf).
  { unfold attachment_paths_for_session_text. destruct (attachment_dir st) eqn:Hd.
    - eexists. split; [reflexivity|]. intros path. apply paths_of_session.
    - exists []. split; [done|]. intros path. unfold owns_file. by rewrite (rd_dir _ Hr Hd). }
  unfold bind at 1. rewrite Hps.
  do 2 (unfold bind at 1; simpl). unfold delete_session_messages, bind at 1.
  rewrite delete_messages_ok by (simpl; by apply foreign_attachments).
  do 5 (unfold bind at 1; simpl). unfold bind at 1.
  rewrite delete_session_row_ok.
  - eexists. simpl. rewrite count_positive. split; [reflexivity|]. split; [reflexivity|].
    intros path. simpl. by rewrite foldr_delete_lookup, Hf.
  - unfold session_referenced. simpl. by rewrite !delete_where_gone.
Qed.


(** ** Deletion of a workspace *)

Definition has_attachment (sid : uuid) (d : Db) : bool :=
  exists_where (fun a => (at_session_id a =? sid)%N) (tool_output_attachments d).

Lemma delete_workspace_session_ok sid st :
  readable st -> has_attachment sid (db st) = false ->
  exists st', delete_workspace_session sid st = (Ok tt, st')
    /\ db st' = erase_session sid (db st) /\ files st' = files st
    /\ attachment_dir st' = attachment_dir st.
Proof.
  intros Hr Hn. unfold delete_workspace_session.
  unfold bind at 1. simpl. unfold delete_session_messages, bind at 1.
  rewrite delete_messages_ok.
  - do 6 (unfold bind at 1; simpl). unfold bind at 1. rewrite delete_session_row_ok.
    + eexists. simpl. by split; [reflexivity|].
    + unfold session_referenced. simpl. by rewrite !delete_where_gone.
  - simpl. pose proof (foreign_attachments sid st Hr) as Hf.
    rewrite delete_where_none in Hf; [exact Hf|]. by apply exists_where_false.
Qed.

Lemma delete_workspace_session_fails sid st :
  foreign_keys = true -> readable st -> has_attachment sid (db st) = true ->
  exists st', delete_workspace_session sid st = (Err (Database ConstraintForeignKey), st')
    /\ files st' = files st.
Proof.
  intros Hfk Hr Ha. apply exists_where_true in Ha as (a & Ha & Hs). apply N.eqb_eq in Hs.
  pose proof (r_owned _ (rd_refs _ Hr) a Ha) as Ho.
  apply list_elem_of_fmap in Ho as (m & Heq & Hm). injection Heq as Hi Hse.
  unfold delete_workspace_session. unfold bind at 1. simpl.
  unfold delete_session_messages, delete_messages_where, bind, query. simpl.
  rewrite Hfk. simpl.
  match goal with |- context [exists_where ?p ?t] => replace (exists_where p t) with true end.
  - simpl. by eexists.
  - symmetry. apply exists_where_true. exists a. split; [done|].
    apply exists_where_true. exists m. split; [done|].
    by rewrite Hi, <- Hse, Hs, !N.eqb_refl.
Qed.

Lemma erase_keeps_attachment sid other d :
  sid <> other -> has_attachment sid (erase_session other d) = has_attachment sid d.
Proof.
  intros Hne. unfold has_attachment, exists_where. simpl.
  induction (tool_output_attachments d) as [|a t IH]; simpl; [done|].
  destruct (N.eqb_spec (at_session_id a) other) as [->|]; simpl; rewrite IH; [|done].
  by rewrite (proj2 (N.eqb_neq other sid)) by done.
Qed.

Lemma workspace_loop_fails ids st sid :
  foreign_keys = true -> readable st -> NoDup ids -> sid ∈ ids -> has_attachment sid (db st) = true ->
  exists st', for_each ids delete_workspace_session st
    = (Err (Database ConstraintForeignKey), st') /\ files st' = files st.
Proof.
  intros Hfk. revert st. induction ids as [|i ids IH]; intros st Hr Hnd Hin Ha; [set_solver|].
  apply NoDup_cons in Hnd as [Hi Hnd]. simpl. unfold bind at 1.
  destruct (has_attachment i (db st)) eqn:Hai.
  - destruct (delete_workspace_session_fails i st Hfk Hr Hai) as (st' & -> & Hf). by eexists.
  - destruct (delete_workspace_session_ok i st Hr Hai) as (st1 & Hd & Hdb & Hf & _).
    assert (sid <> i) as Hne by congruence.
    pose proof (runs_delete_workspace_session i st) as Hrun. rewrite Hd in *. simpl in Hrun.
    destruct (IH st1) as (st2 & H2 & Hf2); [by eapply readable_stmts|done|set_solver|..].
    { by rewrite Hdb, erase_keeps_attachment. }
    unfold bind at 1. rewrite H2. eexists. split; [done|]. congruence.
Qed.

Lemma workspace_loop_ok ids st :
  foreign_keys = true -> readable st -> NoDup ids ->
  (forall sid, sid ∈ ids -> has_attachment sid (db st) = false) ->
  exists r st', for_each ids delete_workspace_session st = (Ok r, st')
    /\ db st' = foldl (fun d sid => erase_session sid d) (db st) ids /\ files st' = files st.
Proof.
  intros Hfk. revert st. induction ids as [|i ids IH]; intros st Hr Hnd Ha; simpl; [by eexists _, _|].
  apply NoDup_cons in Hnd as [Hi Hnd]. unfold bind at 1.
  destruct (delete_workspace_session_ok i st Hr) as (st1 & Hd & Hdb & Hf & _); [apply Ha; set_solver|].
  pose proof (runs_delete_workspace_session i st) as Hrun. rewrite Hd in *. simpl in Hrun.
  destruct (IH st1) as (r & st2 & H2 & Hdb2 & Hf2); [by eapply readable_stmts|done|..].
  { intros sid Hsid. rewrite Hdb, erase_keeps_attachment by set_solver. apply Ha. set_solver. }
  unfold bind at 1. rewrite H2. eexists _, _. split; [done|]. rewrite <- Hdb. split; congruence.
Qed.

Lemma attachment_paths_pure ids st :
  exists ps, for_each ids attachment_paths_for_session_text st = (Ok ps, st).
Proof.
  induction ids as [|i ids [ps IH]]; simpl; [by eexists|].
  unfold bind at 1. unfold attachment_paths_for_session_text at 1.
  destruct (attachment_dir st); unfold bind at 1; rewrite IH; by eexists.
Qed.

Lemma workspace_ids_nodup key d : db_keys d -> NoDup (workspace_session_ids key d).
Proof.
  intros Hk. unfold workspace_session_ids, select.
  assert (List.filter (fun s => normalize_workspace_root (s_workspace_root s) =s key) (sessions d)
    = delete_where (fun s => negb (normalize_workspace_root (s_workspace_root s) =s key)) (sessions d))
    as ->.
  { unfold delete_where. apply filter_ext. intros s. by rewrite negb_involutive. }
  apply NoDup_delete_where, Hk.
Qed.

Definition erase_workspace (key : str) (d : Db) : Db :=
  let d' := foldl (fun d sid => erase_session sid d) d (workspace_session_ids key d) in
  set_workspace_configs
    (delete_where (fun c => normalize_workspace_root (wc_workspace_root c) =s key)
       (workspace_configs d')) d'.

(** Deleting a workspace whose sessions have no attachment succeeds on every
    reachable store, erases each session whose root normalizes to the workspace and the
    stored configuration, and returns the number of sessions. *)
Theorem delete_workspace_erases cs dir root :
  foreign_keys = true ->
  normalize_workspace_root root <> [] ->
  (forall sid, sid ∈ workspace_session_ids (normalize_workspace_root root)
                       (db (run_calls cs (new_store dir))) ->
     has_attachment sid (db (run_calls cs (new_store dir))) = false) ->
  exists st', delete_workspace_sessions root (run_calls cs (new_store dir))
      = (Ok (length (workspace_session_ids (normalize_workspace_root root)
                       (db (run_calls cs (new_store dir))))), st')
    /\ db st' = erase_workspace (normalize_workspace_root root) (db (run_calls cs (new_store dir))).
Proof.
  intros Hfk Hne Hn. set (st := run_calls cs (new_store dir)) in *.
  assert (readable st) as Hr by by apply reachable_readable.
  unfold delete_workspace_sessions. cbv zeta.
  destruct (is_empty _) eqn:He; [by destruct (normalize_workspace_root root)|].
  unfold bind at 1. simpl. unfold bind at 1, transaction. unfold bind at 1, query. cbv beta iota.
  destruct (attachment_paths_pure
    (workspace_session_ids (normalize_workspace_root root) (db st)) st) as [ps Hps].
  unfold bind at 1. rewrite Hps. unfold bind at 1.
  destruct (workspace_loop_ok (workspace_session_ids (normalize_workspace_root root) (db st)) st)
    as (r & st1 & Hl & Hdb & _); [done|done|apply workspace_ids_nodup, Hr|done|].
  rewrite Hl. eexists. simpl. split; [reflexivity|]. simpl. unfold erase_workspace. by rewrite Hdb.
Qed.

(** With foreign keys enforced, deleting a workspace fails with a foreign-key error
    and deletes nothing as soon as one of its sessions has a tool output attachment. *)
Theorem delete_workspace_attachment_fails cs dir root sid :
  foreign_keys = true ->
  normalize_workspace_root root <> [] ->
  sid ∈ workspace_session_ids (normalize_workspace_root root) (db (run_calls cs (new_store dir))) ->
  has_attachment sid (db (run_calls cs (new_store dir))) = true ->
  exists st', delete_workspace_sessions root (run_calls cs (new_store dir))
      = (Err (Database ConstraintForeignKey), st')
    /\ db st' = db (run_calls cs (new_store dir)).
Proof.
  intros Hfk Hne Hin Ha. set (st := run_calls cs (new_store dir)) in *.
  assert (readable st) as Hr by by apply reachable_readable.
  unfold delete_workspace_sessions. cbv zeta.
  destruct (is_empty _) eqn:He; [by destruct (normalize_workspace_root root)|].
  unfold bind at 1. simpl. unfold bind at 1, transaction. unfold bind at 1, query. cbv beta iota.
  destruct (attachment_paths_pure
    (workspace_session_ids (normalize_workspace_root root) (db st)) st) as [ps Hps].
  unfold bind at 1. rewrite Hps. unfold bind at 1.
  destruct (workspace_loop_fails (workspace_session_ids (normalize_workspace_root root) (db st)) st sid)
    as (st1 & Hl & _); [done|done|apply workspace_ids_nodup, Hr|done|done|].
  rewrite Hl. by eexists.
Qed.
End Delete.

(** ** Example runs *)


Lemma delete_workspace_erases_witness :
  exists st', @delete_workspace_sessions (counter_env true) $"/work/"
      (@run_calls (counter_env true) demo_calls (new_store demo_dir)) = (Ok 1, st')
    /\ db st' = erase_workspace (normalize_workspace_root $"/work/")
                  (db (@run_calls (counter_env true) demo_calls (new_store demo_dir))).
Proof.
  apply (@delete_workspace_erases (counter_env true) demo_calls demo_dir $"/work/").
  - reflexivity.
  - vm_compute. discriminate.
  - intros sid _. vm_compute. reflexivity.
Defined.

(** A tool output above the attachment threshold. *)
Definition long_output : str := N.recursion [] (fun _ l => 120%N :: l) 262145%N.
Definition attached_calls : list StoreCall :=
  [CallCreateSession demo_session; CallAppendMessage 1 Tool long_output].

Lemma delete_workspace_attachment_fails_witness :
  exists st', @delete_workspace_sessions (counter_env true) $"/work"
      (@run_calls (counter_env true) attached_calls (new_store demo_dir))
      = (Err (Database ConstraintForeignKey), st')
    /\ db st' = db (@run_calls (counter_env true) attached_calls (new_store demo_dir)).
Proof.
  apply (@delete_workspace_attachment_fails (counter_env true) attached_calls demo_dir $"/work" 1).
  - reflexivity.
  - vm_compute. discriminate.
  - vm_compute. left.
  - vm_compute. reflexivity.
Defined.
