(* ===== verification/StoreLife.v ===== *)
(** * Keyed tables, event retention, restart, context windows and memories *)

From stdpp Require Import sorting.
From S2P Require Import Prelude.
From S2P Require Import Protocol.
From S2P Require Import Sql.
From S2P Require Import Store.
From S2P Require Import StoreSteps.
From S2P Require Import StoreInv.
From S2P Require Import StoreFacts.

#[local] Arguments has_session : simpl never.
#[local] Arguments exists_where : simpl never.

Section Life.
Context {E : Env}.

(** ** Tables with one row per key *)

Lemma find_upsert {A} (same p : A -> bool) (row : A) (t : list A) :
  (forall y, same y = true -> p y = p row) ->
  (p row = true -> forall y, p y = true -> same y = true) ->
  List.find p (upsert same row t) = if p row then Some row else List.find p t.
Proof.
  intros Hs Hp. unfold upsert. destruct (exists_where same t) eqn:He.
  - destruct (p row) eqn:Hr.
    + apply exists_where_true in He as (y & Hy & Hsy). induction t as [|x t IH]; [set_solver|].
      unfold update_where. simpl. destruct (same x) eqn:Hx; [by rewrite Hr|].
      destruct (p x) eqn:Hpx; [rewrite (Hp eq_refl x Hpx) in Hx; done|].
      apply IH. apply elem_of_cons in Hy as [->|Hy]; [congruence|done].
    + clear He. unfold update_where. induction t as [|x t IH]; simpl; [done|].
      destruct (same x) eqn:Hx; [rewrite Hr, (Hs x Hx); exact IH|].
      destruct (p x); [done|exact IH].
  - induction t as [|x t IH]; simpl; [by destruct (p row)|].
    unfold exists_where in *. simpl in He. apply orb_false_iff in He as [Hx He].
    destruct (p x) eqn:Hpx; [|by apply IH].
    destruct (p row) eqn:Hr; [|done]. rewrite (Hp eq_refl x Hpx) in Hx. done.
Qed.

Lemma str_eqb_sym (a b : str) : (a =s b) = (b =s a).
Proof. unfold str_eqb. by apply bool_decide_ext. Qed.

(** Lookup by a string key after an upsert. *)
Lemma find_upsert_str {A} (key : A -> str) (row : A) (t : list A) k :
  List.find (fun x => key x =s k) (upsert (fun x => key x =s key row) row t)
  = if key row =s k then Some row else List.find (fun x => key x =s k) t.
Proof.
  apply (find_upsert _ (fun x => key x =s k)).
  - intros y ->%str_eqb_true. done.
  - intros <-%str_eqb_true y Hy. done.
Qed.

(** the keyed tables behave as maps. *)
Theorem keyed_tables_roundtrip st :
  (forall k k' model sid text,
     fst (get_vision_description k' (snd (save_vision_description k model sid text st)))
     = if k =s k' then Ok (Some (mkStoredVision text model))
       else fst (get_vision_description k' st))
  /\ (forall k k' x,
     fst (get_vision_route_status k' (snd (save_vision_route_status k x st)))
     = if k =s k' then Ok (Some x) else fst (get_vision_route_status k' st))
  /\ (forall c root,
     fst (get_workspace_config root (snd (set_workspace_config c st)))
     = if wc_workspace_root c =s root then Ok (Some (config_row c))
       else fst (get_workspace_config root st)).
Proof.
  repeat split; intros.
  - unfold get_vision_description, save_vision_description, query, bind, exec. simpl.
    pose proof (find_upsert_str vd_cache_key (mkVisionDescription k text (utc_now (ticks st))
      (Some model) sid) (vision_descriptions (db st)) k') as H. unfold upsert in H. simpl in H.
    rewrite H. by destruct (_ =s k').
  - unfold get_vision_route_status, save_vision_route_status, query, bind, exec. simpl.
    pose proof (find_upsert_str vr_route_key (mkVisionRoute k x (utc_now (ticks st)))
      (vision_routes (db st)) k') as H. unfold upsert in H. simpl in H.
    rewrite H. by destruct (_ =s k').
  - unfold get_workspace_config, set_workspace_config, query, bind, exec. simpl.
    pose proof (find_upsert_str wc_workspace_root (config_row c)
      (workspace_configs (db st)) root) as H. unfold upsert in H. simpl in H.
    rewrite H. by destruct (_ =s root).
Qed.

(** ** Retention of model call events *)

Lemma delete_where_compose {A} (p q : A -> bool) t :
  delete_where q (delete_where p t) = delete_where (fun a => p a || q a) t.
Proof.
  unfold delete_where. induction t as [|a t IH]; simpl; [done|].
  destruct (p a); simpl; [done|]. destruct (q a); simpl; by rewrite IH.
Qed.

Lemma delete_ids_loop ids st :
  exists r, for_each ids (fun id => exec (fun d => set_session_events
      (delete_where (fun e => (pe_id e =? id)%N) (session_events d)) d)) st
    = (Ok r, with_db (fun d => set_session_events
        (delete_where (fun e => existsb (N.eqb (pe_id e)) ids) (session_events d)) d) st).
Proof.
  revert st. induction ids as [|i ids IH]; intros st; simpl.
  - exists []. unfold ret, with_db. rewrite delete_where_none by done. by destruct st as [[]].
  - unfold bind at 1, exec at 1.
    destruct (IH (with_db (fun d => set_session_events
      (delete_where (fun e => (pe_id e =? i)%N) (session_events d)) d) st)) as [r Hr].
    unfold bind at 1. rewrite Hr. eexists. unfold with_db. simpl. by rewrite delete_where_compose.
Qed.

Lemma ids_of_selected {A} (key : A -> uuid) (p : A -> bool) (t t' : list A) a :
  NoDup (map key t) -> t' ≡ₚ t -> a ∈ t ->
  existsb (N.eqb (key a)) (map key (select p t')) = p a.
Proof.
  intros Hn Ht Ha. destruct (p a) eqn:Hp.
  - apply existsb_elem. exists (key a). split; [|apply N.eqb_refl].
    apply list_elem_of_fmap_2, elem_of_select. by rewrite Ht.
  - apply existsb_false_elem. intros k Hk. apply N.eqb_neq. intros <-.
    apply list_elem_of_fmap in Hk as (b & Hk & Hb). apply elem_of_select in Hb as [Hb Hpb].
    rewrite Ht in Hb. rewrite (NoDup_map_eq key t a b Hn Ha Hb Hk) in Hp. congruence.
Qed.

Lemma select_perm {A} (p : A -> bool) (t t' : list A) : t ≡ₚ t' -> select p t ≡ₚ select p t'.
Proof.
  unfold select. induction 1 as [|a t t' _ IH|a b t|t1 t2 t3 _ IH1 _ IH2]; simpl.
  - done.
  - destruct (p a); [by constructor|done].
  - destruct (p a), (p b); try done. constructor.
  - by etrans.
Qed.

Definition expired (now : timestamp) (retention_days : Z) (e : PersistedSessionEvent) : bool :=
  is_model_call (pe_event e)
  && (pe_created_at e <? now - Z.max retention_days 1 * NANOS_PER_DAY)%Z.

(** Retention removes exactly the model-call events older than the cutoff, at least
    one day back, and returns their number. *)
Theorem purge_removes_expired cs dir days :
  exists st', purge_model_call_logs days (run_calls cs (new_store dir))
      = (Ok (count_where (expired (utc_now (ticks (run_calls cs (new_store dir)))) days)
               (session_events (db (run_calls cs (new_store dir))))), st')
    /\ db st' = set_session_events
         (delete_where (expired (utc_now (ticks (run_calls cs (new_store dir)))) days)
            (session_events (db (run_calls cs (new_store dir)))))
         (db (run_calls cs (new_store dir))).
Proof.
  set (st := run_calls cs (new_store dir)).
  pose proof (k_events _ (reachable_keys cs dir)) as Hn. fold st in Hn.
  unfold purge_model_call_logs. cbv zeta. unfold bind at 1. simpl.
  unfold transaction, bind at 1, query. simpl.
  change (fun e => is_model_call (pe_event e) && _) with (expired (utc_now (ticks st)) days).
  unfold bind at 1. match goal with |- context [for_each ?l _ ?s] =>
    destruct (delete_ids_loop l s) as [r Hr] end.
  rewrite Hr. eexists. simpl. split.
  - unfold ret. do 2 f_equal. rewrite length_map. unfold count_where.
    by rewrite (select_perm _ _ _ (order_by_perm event_le _)).
  - simpl. f_equal. unfold delete_where. apply filter_ext_in. intros e He.
    f_equal. apply (ids_of_selected pe_id _ (session_events (db st))); [done|apply order_by_perm|].
    by apply list_elem_of_In.
Qed.

(** ** Restart *)

Lemma update_where_none {A} (p q : A -> bool) f (t : list A) :
  (forall a, q (f a) = false) -> (forall a, p a = false -> q a = false) ->
  exists_where q (update_where p f t) = false.
Proof.
  intros Hf Hp. apply exists_where_false. intros a Ha.
  apply elem_of_update_where in Ha as (b & _ & ->). destruct (p b) eqn:Hb; auto.
Qed.

Definition is_running (s : Session) : bool := bool_decide (s_status s = Running).
Definition is_queued (q : FollowUpQueueEntry) : bool := bool_decide (fq_status q = Queued).

Lemma reconcile_effect st :
  exists t t' st', reconcile_interrupted_sessions st
      = (Ok (count_where is_running (sessions (db st))), st')
    /\ db st' = set_follow_up_queue
         (update_where is_queued (with_queue_status NotStarted t') (follow_up_queue (db st)))
         (set_sessions (update_where is_running (with_status Cancelled t) (sessions (db st))) (db st)).
Proof. eexists _, _, _. split; [reflexivity|]. reflexivity. Qed.

(** Startup reconciliation cancels exactly the running sessions and un-queues
    exactly the queued follow-ups, returns the number of sessions it cancelled, and
    finds nothing to do when it is run again. *)
Theorem reconcile_leaves_nothing_active st :
  exists t t' st', reconcile_interrupted_sessions st
      = (Ok (count_where is_running (sessions (db st))), st')
    /\ db st' = set_follow_up_queue
         (update_where is_queued (with_queue_status NotStarted t') (follow_up_queue (db st)))
         (set_sessions (update_where is_running (with_status Cancelled t) (sessions (db st))) (db st))
    /\ exists_where is_running (sessions (db st')) = false
    /\ exists_where is_queued (follow_up_queue (db st')) = false
    /\ fst (reconcile_interrupted_sessions st') = Ok 0.
Proof.
  destruct (reconcile_effect st) as (t & t' & st' & He & Hd). exists t, t', st'.
  assert (exists_where is_running (sessions (db st')) = false) as Hr.
  { rewrite Hd. by apply update_where_none. }
  split; [done|]. split; [done|]. split; [done|]. split.
  - rewrite Hd. by apply update_where_none.
  - destruct (reconcile_effect st') as (? & ? & ? & -> & _). simpl. do 2 f_equal.
    unfold count_where, select. unfold exists_where in Hr.
    induction (sessions (db st')) as [|s l IH]; [done|]. simpl in *.
    apply orb_false_iff in Hr as [-> Hr]. by apply IH.
Qed.

(** ** Context windows *)

Lemma sql_max_snoc l x : (forall y, y ∈ l -> y < x) -> sql_max (l ++ [x]) = Some x.
Proof.
  destruct l as [|y l]; [done|]. intros Hx. simpl. f_equal. rewrite foldr_app. simpl.
  assert (y < x) as Hy by (apply Hx; set_solver).
  rewrite (Nat.max_l x y) by lia.
  assert (forall z, z ∈ l -> z < x) as Hl by (intros z Hz; apply Hx; set_solver).
  clear Hx Hy. induction l as [|z l IH]; simpl; [done|].
  rewrite IH by set_solver. apply Nat.max_r. apply Nat.lt_le_incl, Hl. set_solver.
Qed.

Lemma window_find_none sid n st :
  (forall w, w ∈ session_windows sid (db st) -> cw_start_message_count w < n) ->
  List.find (fun w => cw_start_message_count w =? n) (session_windows sid (db st)) = None.
Proof.
  intros H. apply find_none_iff. intros w Hw. apply Nat.eqb_neq. specialize (H w Hw). lia.
Qed.

Lemma sql_max_elem l m : sql_max l = Some m -> m ∈ l.
Proof.
  destruct l as [|x l]; [done|]. intros [= <-].
  assert (foldr Nat.max x l = x \/ foldr Nat.max x l ∈ l) as [->|]; [|set_solver..].
  induction l as [|y l IH]; simpl; [by left|].
  destruct (Nat.max_spec y (foldr Nat.max x l)) as [[_ ->]|[_ ->]]; set_solver.
Qed.

Definition next_window_index (sid : uuid) (d : Db) : nat :=
  or_else (sql_max (map cw_window_index (session_windows sid d))) 0 + 1.

Lemma next_window_index_above sid d w :
  w ∈ session_windows sid d -> cw_window_index w < next_window_index sid d.
Proof.
  intros Hw. apply elem_of_select in Hw as [Hw Hsid]. apply N.eqb_eq in Hsid.
  pose proof (window_below sid d w cw_window_index _ (Nat.le_refl _) Hw Hsid).
  unfold next_window_index. lia.
Qed.

Section NewWindow.
Context (sid : uuid) (n : nat) (m : Message) (st : SessionStore).
Context (Hn : 0 < n) (Hm : session_messages sid (db st) !! n = Some m).
Context (Hrole : m_role m = User) (Hs : has_session sid (db st) = true).
Context (Hbelow : forall w, w ∈ session_windows sid (db st) -> cw_start_message_count w < n).

Let i := next_window_index sid (db st).
Let w := mkContextWindow sid i n (utc_now (ticks st)).

Lemma window_unique :
  exists_where (fun w => (cw_session_id w =? sid)%N
    && ((cw_window_index w =? i) || (cw_start_message_count w =? n))) (context_windows (db st)) = false.
Proof.
  apply exists_where_false. intros v Hv. destruct (cw_session_id v =? sid)%N eqn:Hsid; [|done].
  assert (v ∈ session_windows sid (db st)) as Hv' by by apply elem_of_select.
  apply orb_false_iff. rewrite !Nat.eqb_neq. split.
  - pose proof (next_window_index_above _ _ _ Hv'). unfold i. lia.
  - pose proof (Hbelow _ Hv'). lia.
Qed.

Lemma create_context_window_new :
  create_context_window sid n st
  = (Ok i, mkStore (set_context_windows (context_windows (db st) ++ [w]) (db st))
             (attachment_dir st) (files st) (S (ticks st))).
Proof.
  unfold create_context_window.
  assert (negb (n =? 0) = true) as -> by (apply negb_true_iff, Nat.eqb_neq; lia).
  do 2 (unfold bind at 1; simpl). rewrite (window_find_none sid n st Hbelow).
  do 2 (unfold bind at 1; simpl).
  assert (match sql_max (map cw_start_message_count (session_windows sid (db st))) with
          | Some latest => negb (n <? latest) | None => true end = true) as ->.
  { destruct (sql_max _) as [latest|] eqn:Hmax; [|done]. apply sql_max_elem in Hmax.
    apply list_elem_of_fmap in Hmax as (v & -> & Hv). apply negb_true_iff, Nat.ltb_ge.
    specialize (Hbelow v Hv). lia. }
  simpl. unfold bind at 1. simpl. rewrite Hm. unfold bind at 1.
  rewrite Hrole, bool_decide_eq_true_2 by done. do 3 (unfold bind at 1; simpl).
  unfold check_unique, bind at 1, query at 1. cbv beta iota. simpl.
  fold (next_window_index sid (db st)). fold i. rewrite window_unique. simpl.
  unfold check_session_fk, bind, query. simpl. rewrite Hs, orb_true_r. done.
Qed.
End NewWindow.

(** A user message after all boundaries of its session opens a context window with
    a larger number than all others, becomes the start of the latest window, and asking
    for the same boundary again returns the same window and changes nothing. *)
Theorem context_window_opens sid n m st :
  0 < n ->
  session_messages sid (db st) !! n = Some m -> m_role m = User ->
  has_session sid (db st) = true ->
  (forall w, w ∈ session_windows sid (db st) -> cw_start_message_count w < n) ->
  exists i st', create_context_window sid n st = (Ok i, st')
    /\ (forall w, w ∈ session_windows sid (db st) -> cw_window_index w < i)
    /\ fst (latest_context_window_start sid st') = Ok n
    /\ create_context_window sid n st' = (Ok i, st').
Proof.
  intros Hn Hm Hrole Hs Hbelow. eexists _, _.
  split; [by apply (create_context_window_new sid n m)|].
  set (w := mkContextWindow sid _ n _).
  assert (session_windows sid (set_context_windows (context_windows (db st) ++ [w]) (db st))
          = session_windows sid (db st) ++ [w]) as Hw.
  { unfold session_windows. simpl. rewrite select_app. simpl. by rewrite N.eqb_refl. }
  split; [intros v; apply next_window_index_above|]. split.
  - unfold latest_context_window_start, query. simpl. rewrite Hw, map_app. simpl.
    rewrite sql_max_snoc; [done|]. intros y Hy. apply list_elem_of_fmap in Hy as (v & -> & Hv).
    by apply Hbelow.
  - unfold create_context_window at 1.
    assert (negb (n =? 0) = true) as -> by (apply negb_true_iff, Nat.eqb_neq; lia).
    do 2 (unfold bind at 1; simpl). rewrite Hw, find_snoc; [done| |apply Nat.eqb_refl].
    intros v Hv. apply Nat.eqb_neq. specialize (Hbelow v Hv). lia.
Qed.

(** The boundary 0, a new boundary before an existing one, and a boundary that is
    not a user message are refused and leave the store unchanged. *)
Theorem context_window_refused sid n st :
  n = 0
  \/ (List.find (fun w => cw_start_message_count w =? n) (session_windows sid (db st)) = None
      /\ ((exists w, w ∈ session_windows sid (db st) /\ n < cw_start_message_count w)
          \/ (forall m, session_messages sid (db st) !! n = Some m -> m_role m <> User))) ->
  exists e, create_context_window sid n st = (Err (InvalidInput e), st).
Proof.
  unfold create_context_window. intros [->|[Hnone H]]; [by eexists|].
  destruct (n =? 0); [by eexists|]. simpl. do 2 (unfold bind at 1; simpl). rewrite Hnone.
  do 2 (unfold bind at 1; simpl). destruct (match sql_max _ with Some _ => _ | None => _ end) eqn:Hg;
    [|by eexists].
  destruct H as [(w & Hw & Hlt)|Hrole].
  - exfalso. assert (cw_start_message_count w ∈ map cw_start_message_count
      (session_windows sid (db st))) as Hin by by apply list_elem_of_fmap_2.
    destruct (sql_max _) as [latest|] eqn:Hmax.
    + pose proof (sql_max_le _ _ _ Hmax Hin). apply negb_true_iff, Nat.ltb_ge in Hg. lia.
    + apply sql_max_None in Hmax. rewrite Hmax in Hin. by apply elem_of_nil in Hin.
  - simpl. unfold bind at 1. simpl. destruct (session_messages sid (db st) !! n) as [m|]; [|by eexists].
    unfold bind at 1. rewrite bool_decide_eq_false_2 by by apply Hrole. by eexists.
Qed.
End Life.

(** ** Example runs *)

(** A session with three messages; the counter environment numbers it 1. *)
Definition chat_calls : list StoreCall :=
  [CallCreateSession demo_session; CallAppendMessage 1 User $"first";
   CallAppendMessage 1 Assistant $"answer"; CallAppendMessage 1 User $"second"].
Definition chat_store : SessionStore := @run_calls (counter_env true) chat_calls (new_store None).
Definition second_message : Message := mkMessage 6 1 User $"second" 7.

Lemma context_window_opens_witness :
  exists i st', @create_context_window (counter_env true) 1 2 chat_store = (Ok i, st')
    /\ (forall w, w ∈ session_windows 1 (db chat_store) -> cw_window_index w < i)
    /\ fst (latest_context_window_start 1 st') = Ok 2
    /\ @create_context_window (counter_env true) 1 2 st' = (Ok i, st').
Proof.
  apply (@context_window_opens (counter_env true) 1 2 second_message chat_store).
  - lia.
  - vm_compute. reflexivity.
  - reflexivity.
  - vm_compute. reflexivity.
  - intros w Hw. vm_compute in Hw. inversion Hw.
Defined.

Lemma context_window_refused_witness :
  exists e, @create_context_window (counter_env true) 1 1 chat_store
            = (Err (InvalidInput e), chat_store).
Proof.
  apply (@context_window_refused (counter_env true) 1 1 chat_store). right. split.
  - vm_compute. reflexivity.
  - right. intros m Hm. vm_compute in Hm. injection Hm as <-. discriminate.
Defined.

(** ** Local memories and workspace roots *)

#[local] Arguments exists_where : simpl never.

Section Memory.
Context {E : Env}.

(** ** The order of memories *)

Definition memory_before (a b : LocalMemory) : Prop := memory_le a b = true.

Lemma lex_le_spec ca cb ia ib :
  lex_le ca cb ia ib = true <-> (ca < cb)%Z \/ (ca = cb /\ (ia <= ib)%N).
Proof.
  unfold lex_le. rewrite orb_true_iff, andb_true_iff, Z.ltb_lt, Z.eqb_eq, N.leb_le. done.
Qed.

#[local] Instance memory_before_trans : Transitive memory_before.
Proof. intros a b c. unfold memory_before, memory_le. rewrite !lex_le_spec. lia. Qed.

Lemma memory_le_total a b : memory_le a b = true \/ memory_le b a = true.
Proof. unfold memory_le. rewrite !lex_le_spec. lia. Qed.

Lemma memory_before_antisym t a b :
  NoDup (map lm_id t) -> a ∈ t -> b ∈ t -> memory_before a b -> memory_before b a -> a = b.
Proof.
  intros Hn Ha Hb. unfold memory_before, memory_le. rewrite !lex_le_spec. intros H1 H2.
  eapply NoDup_map_eq; [exact Hn|done|done|]. lia.
Qed.

Lemma ordered_memories t : StronglySorted memory_before (order_by memory_le t).
Proof. apply Sorted_StronglySorted, order_by_sorted, memory_le_total. apply _. Qed.

Lemma order_by_unique t l :
  NoDup (map lm_id t) -> StronglySorted memory_before l -> l ≡ₚ t -> order_by memory_le t = l.
Proof.
  intros Hn Hl Hp. apply (StronglySorted_unique_strong memory_before).
  - intros a b Ha Hb. apply (memory_before_antisym t); [done|..].
    + by rewrite (order_by_perm memory_le) in Ha.
    + by rewrite Hp in Hb.
  - apply ordered_memories.
  - done.
  - by rewrite order_by_perm.
Qed.

Lemma SSorted_rev {A} (R : A -> A -> Prop) l :
  StronglySorted R l -> StronglySorted (fun a b => R b a) (rev l).
Proof.
  induction 1 as [|x l Hl IH Hx]; simpl; [constructor|].
  apply SSorted_snoc; [done|]. intros y Hy. rewrite Forall_forall in Hx. apply Hx.
  apply list_elem_of_In, in_rev. by apply list_elem_of_In.
Qed.

Lemma order_by_desc t :
  NoDup (map lm_id t) ->
  order_by (fun a b => memory_le b a) t = rev (order_by memory_le t).
Proof.
  intros Hn. apply (StronglySorted_unique_strong (fun a b => memory_before b a)).
  - intros a b Ha Hb H1 H2. apply (memory_before_antisym t); try done.
    + by rewrite (order_by_perm (fun a b => memory_le b a)) in Ha.
    + apply list_elem_of_In, in_rev, list_elem_of_In in Hb.
      by rewrite (order_by_perm memory_le) in Hb.
  - apply Sorted_StronglySorted; [intros x y z H1 H2; by etrans|].
    apply (order_by_sorted (fun a b => memory_le b a)). intros a b. apply memory_le_total.
  - apply SSorted_rev, ordered_memories.
  - rewrite order_by_perm, <- Permutation_rev. by rewrite order_by_perm.
Qed.

Lemma workspace_memories_nodup root d :
  db_keys d -> NoDup (map lm_id (workspace_memories root d)).
Proof.
  intros Hk. unfold workspace_memories, select.
  assert (List.filter (fun m => lm_workspace_root m =s root) (local_memories d)
    = delete_where (fun m => negb (lm_workspace_root m =s root)) (local_memories d)) as ->.
  { unfold delete_where. apply filter_ext. intros m. by rewrite negb_involutive. }
  apply NoDup_delete_where, Hk.
Qed.

(** Listing the memories of a workspace returns the newest ones up to the limit,
    oldest first. *)
Theorem list_local_memories_newest cs dir root limit :
  let st := run_calls cs (new_store dir) in
  let all := order_by memory_le (workspace_memories (normalize_workspace_root root) (db st)) in
  list_local_memories root limit st = (Ok (drop (length all - limit) all), st).
Proof.
  intros st all. unfold list_local_memories, query. do 2 f_equal.
  assert (NoDup (map lm_id (workspace_memories (normalize_workspace_root root) (db st)))) as Hn.
  { apply workspace_memories_nodup, reachable_keys. }
  rewrite order_by_desc by done. fold all. rewrite firstn_rev.
  assert (NoDup (map lm_id all)) as Hna.
  { unfold all. rewrite (order_by_perm memory_le). done. }
  apply order_by_unique.
  - rewrite map_rev, <- Permutation_rev.
    rewrite <- (firstn_skipn (length all - limit) all), map_app in Hna.
    by apply NoDup_app in Hna as (_ & _ & Hna).
  - eapply (StronglySorted_app_1_r memory_before (take (length all - limit) all)).
    rewrite firstn_skipn. apply ordered_memories.
  - by rewrite <- Permutation_rev.
Qed.

(** ** Saving and replacing *)

Definition valid_memory (content : str) : Prop :=
  trim content <> [] /\ length (trim content) <= MAX_LOCAL_MEMORY_CHARS.

Lemma validate_ok content st :
  valid_memory content -> validate_local_memory_content content st = (Ok (trim content), st).
Proof.
  intros [Hne Hlen]. unfold validate_local_memory_content, bind.
  destruct (is_empty (trim content)) eqn:He; [by destruct (trim content)|]. simpl.
  apply Nat.leb_le in Hlen. by rewrite Hlen.
Qed.

Definition memory_taken (root content : str) (d : Db) : bool :=
  exists_where (fun m => (lm_workspace_root m =s root) && (lm_content m =s content))
    (local_memories d).

(** Saving a valid memory succeeds; a text that the workspace has already is not
    stored again, any other becomes the newest memory of its workspace, and other
    workspaces are not affected. *)
Theorem save_local_memory_spec cs dir root content :
  EnvOk E -> valid_memory content ->
  let st := run_calls cs (new_store dir) in
  let key := normalize_workspace_root root in
  exists r st', save_local_memory root content st = (Ok r, st')
    /\ if memory_taken key (trim content) (db st)
       then r = None /\ db st' = db st
       else exists m, r = Some m /\ lm_workspace_root m = key /\ lm_content m = trim content
              /\ workspace_memories key (db st') = workspace_memories key (db st) ++ [m]
              /\ memory_taken key (trim content) (db st') = true
              /\ forall other, other <> key ->
                   workspace_memories other (db st') = workspace_memories other (db st).
Proof.
  intros Hok Hv st key. unfold save_local_memory. cbv zeta. fold key.
  unfold bind at 1. rewrite validate_ok by done. do 3 (unfold bind at 1; simpl).
  fold (memory_taken key (trim content) (db st)).
  destruct (memory_taken key (trim content) (db st)) eqn:Ht.
  - eexists None, _. split; [reflexivity|]. done.
  - unfold check_unique, bind, query. simpl.
    pose proof (drawn_fresh lm_id _ _ _ (i_memories _ _ (reachable_drawn cs dir)) (Nat.le_refl _))
      as Hfresh. fold st in Hfresh. rewrite Hfresh. simpl.
    eexists _, _. split; [reflexivity|]. eexists. split; [reflexivity|]. simpl.
    split; [done|]. split; [done|]. split; [|split].
    + unfold workspace_memories. simpl. rewrite select_app. simpl. by rewrite str_eqb_refl.
    + apply exists_where_true. eexists. split; [apply elem_of_app; right; by left|].
      simpl. by rewrite !str_eqb_refl.
    + intros other Hne. unfold workspace_memories. simpl. rewrite select_app. simpl.
      rewrite (proj2 (str_eqb_false key other)) by done. by rewrite app_nil_r.
Qed.

Lemma find_update {A} (p : A -> bool) f (t : list A) x :
  List.find p t = Some x -> (forall a, p a = true -> p (f a) = true) ->
  List.find p (update_where p f t) = Some (f x).
Proof.
  intros Hf Hp. induction t as [|a t IH]; simpl in *; [done|].
  destruct (p a) eqn:Ha; [simplify_eq; by rewrite Hp|]. rewrite Ha. by apply IH.
Qed.

Lemma exists_find {A} (p : A -> bool) t x : List.find p t = Some x -> exists_where p t = true.
Proof.
  intros [Hx Hp]%find_some. apply exists_where_true. exists x. by rewrite list_elem_of_In.
Qed.

Section Replace.
Context (cs : list StoreCall) (dir : option str) (root : str) (mid : uuid) (content : str)
  (m : LocalMemory).

Definition memory_at (key : str) (x : LocalMemory) : bool :=
  (lm_workspace_root x =s key) && (lm_id x =? mid)%N.

(** The lookup that ends a replacement normalizes the root a second time. *)
Lemma replace_local_memory_effect st :
  let key := normalize_workspace_root root in
  let st' := with_db (fun d => set_local_memories
    (update_where (memory_at key) (with_memory_content (trim content)) (local_memories d)) d) st in
  valid_memory content ->
  List.find (memory_at key) (local_memories (db st)) = Some m ->
  exists_where (fun x => negb (lm_id x =? mid)%N && (lm_workspace_root x =s key)
                         && (lm_content x =s trim content)) (local_memories (db st)) = false ->
  replace_local_memory root mid content st
  = (Ok (List.find (memory_at (normalize_workspace_root key)) (local_memories (db st'))), st')
  /\ List.find (memory_at key) (local_memories (db st'))
     = Some (with_memory_content (trim content) m).
Proof.
  intros key st' Hv Hg Hu. split; [|by apply find_update].
  unfold replace_local_memory. cbv zeta. fold key.
  unfold bind at 1. rewrite validate_ok by done. unfold bind at 1, query at 1. cbv beta iota.
  fold (memory_at key). rewrite (exists_find _ _ _ Hg). unfold check_unique, bind, query. simpl.
  by rewrite Hu, andb_false_r.
Qed.

(** Replacing a memory of a workspace whose root is in normal form by a text no
    other memory has returns the new memory, which is then read back. *)
Theorem replace_local_memory_spec st :
  valid_memory content ->
  let key := normalize_workspace_root root in
  normalize_workspace_root key = key ->
  fst (get_local_memory root mid st) = Ok (Some m) ->
  exists_where (fun x => negb (lm_id x =? mid)%N && (lm_workspace_root x =s key)
                         && (lm_content x =s trim content)) (local_memories (db st)) = false ->
  exists st', replace_local_memory root mid content st
      = (Ok (Some (with_memory_content (trim content) m)), st')
    /\ fst (get_local_memory root mid st') = Ok (Some (with_memory_content (trim content) m)).
Proof.
  intros Hv key Hkey Hg Hu. injection Hg as Hg.
  destruct (replace_local_memory_effect st Hv Hg Hu) as [Hr Hf]. fold key in Hr, Hf.
  rewrite Hkey, Hf in Hr. eexists. split; [exact Hr|]. apply (f_equal Ok), Hf.
Qed.

(** ** A root that normalization does not leave alone *)

(** For a root whose normal form is not in normal form, such as one that ends with
    a space and a slash, replacing an existing memory changes its text and reports that
    there is no such memory. *)
Theorem replace_local_memory_lost :
  let st := run_calls cs (new_store dir) in
  let key := normalize_workspace_root root in
  valid_memory content ->
  normalize_workspace_root key <> key ->
  fst (get_local_memory root mid st) = Ok (Some m) ->
  exists_where (fun x => negb (lm_id x =? mid)%N && (lm_workspace_root x =s key)
                         && (lm_content x =s trim content)) (local_memories (db st)) = false ->
  exists st', replace_local_memory root mid content st = (Ok None, st')
    /\ fst (get_local_memory root mid st') = Ok (Some (with_memory_content (trim content) m)).
Proof.
  intros st key Hv Hkey Hg Hu. injection Hg as Hg.
  destruct (replace_local_memory_effect st Hv Hg Hu) as [Hr Hf]. fold key in Hr, Hf.
  eexists. split; [|apply (f_equal Ok), Hf]. rewrite Hr. do 2 f_equal.
  apply find_none_iff. intros x Hx. simpl in Hx. apply elem_of_update_where in Hx as (y & Hy & ->).
  assert (memory_at (normalize_workspace_root key) y = false) as Hn.
  { unfold memory_at. destruct (N.eqb_spec (lm_id y) mid) as [Hid|]; [|apply andb_false_r].
    apply find_some in Hg as [Hm Hmp]. apply list_elem_of_In in Hm.
    apply andb_true_iff in Hmp as [Hroot Hmid].
    rewrite (NoDup_map_eq lm_id _ y m (k_memories _ (reachable_keys cs dir)) Hy Hm)
      by (apply N.eqb_eq in Hmid; congruence).
    apply str_eqb_true in Hroot. rewrite Hroot, andb_true_r. by apply str_eqb_false. }
  by destruct (memory_at key y).
Qed.
End Replace.
End Memory.

(** ** Example runs *)

Definition memory_store : SessionStore :=
  @run_calls (counter_env true) [CallSaveLocalMemory $"/work" $"old"] (new_store None).

Lemma save_local_memory_spec_witness :
  exists r st', @save_local_memory (counter_env true) $"/work" $"note" memory_store = (Ok r, st')
    /\ if memory_taken (normalize_workspace_root $"/work") (trim $"note") (db memory_store)
       then r = None /\ db st' = db memory_store
       else exists m, r = Some m /\ lm_workspace_root m = normalize_workspace_root $"/work"
              /\ lm_content m = trim $"note"
              /\ workspace_memories (normalize_workspace_root $"/work") (db st')
                 = workspace_memories (normalize_workspace_root $"/work") (db memory_store) ++ [m]
              /\ memory_taken (normalize_workspace_root $"/work") (trim $"note") (db st') = true
              /\ forall other, other <> normalize_workspace_root $"/work" ->
                   workspace_memories other (db st') = workspace_memories other (db memory_store).
Proof.
  apply (@save_local_memory_spec (counter_env true) [CallSaveLocalMemory $"/work" $"old"] None).
  - apply counter_env_ok.
  - split; [vm_compute; discriminate|vm_compute; lia].
Defined.

Lemma replace_local_memory_spec_witness :
  exists st', replace_local_memory $"/work" 0 $"new" memory_store
      = (Ok (Some (with_memory_content (trim $"new") (mkLocalMemory 0 $"/work" $"old" 1))), st')
    /\ fst (get_local_memory $"/work" 0 st')
       = Ok (Some (with_memory_content (trim $"new") (mkLocalMemory 0 $"/work" $"old" 1))).
Proof.
  apply (replace_local_memory_spec $"/work" 0 $"new" (mkLocalMemory 0 $"/work" $"old" 1) memory_store).
  - split; [vm_compute; discriminate|vm_compute; lia].
  - vm_compute. reflexivity.
  - vm_compute. reflexivity.
  - vm_compute. reflexivity.
Defined.

(** The root [/work /] has the normal form [/work ], whose normal form is [/work]. *)
Lemma replace_local_memory_lost_witness :
  let st := @run_calls (counter_env true) [CallSaveLocalMemory $"/work /" $"old"] (new_store None) in
  exists st', replace_local_memory $"/work /" 0 $"new" st = (Ok None, st')
    /\ fst (get_local_memory $"/work /" 0 st')
       = Ok (Some (with_memory_content (trim $"new") (mkLocalMemory 0 $"/work " $"old" 1))).
Proof.
  apply (@replace_local_memory_lost (counter_env true) [CallSaveLocalMemory $"/work /" $"old"] None).
  - split; [vm_compute; discriminate|vm_compute; lia].
  - vm_compute. discriminate.
  - vm_compute. reflexivity.
  - vm_compute. reflexivity.
Defined.
