(* ===== verification/Core.v ===== *)
(** * Core service (crates/xcoding-core/src/lib.rs)

    The chat session lifecycle over the store: the service state is the store,
    the cancel probe shared with running tools, and the command list files of
    the workspaces. *)

From S2P Require Import Prelude Protocol Policy Sql Store.

Inductive CoreError :=
| StoreErr (e : StoreError)
| CoreInvalidInput (m : str)
| SessionNotFound (id : str).

Record CoreService := mkCore {
  store : SessionStore;
  cancel_probe : gset N;
  (** [.xcoding/command-allowlist] and [.xcoding/command-denylist] by workspace
      root and relative path. *)
  list_files : gmap (list N * list N) (list N);
}.

Definition C (A : Type) : Type := CoreService -> result A CoreError * CoreService.

Definition cret {A} (a : A) : C A := fun c => (Ok a, c).
Definition cfail {A} (e : CoreError) : C A := fun c => (Err e, c).
Definition cbind {A B} (m : C A) (f : A -> C B) : C B :=
  fun c => match m c with
           | (Ok a, c') => f a c'
           | (Err e, c') => (Err e, c')
           end.
Notation "'do!' x := m 'in' k" := (cbind m (fun x => k))
  (at level 10, x pattern, m at level 100, k at level 200) : xc_scope.
Notation "m ;;! k" := (cbind m (fun _ => k)) (at level 100, right associativity) : xc_scope.

Definition with_store (s : SessionStore) (c : CoreService) : CoreService :=
  mkCore s (cancel_probe c) (list_files c).

(** [self.store.op(..)?] *)
Definition lift {A} (m : M A) : C A :=
  fun c => match m (store c) with
           | (Ok a, s) => (Ok a, with_store s c)
           | (Err e, s) => (Err (StoreErr e), with_store s c)
           end.

Definition cguard (b : bool) (m : str) : C unit :=
  if b then cret tt else cfail (CoreInvalidInput m).

(** ** Cancel probe *)

Definition probe_mark (sid : uuid) : C unit :=
  fun c => (Ok tt, mkCore (store c) ({[sid]} ∪ cancel_probe c) (list_files c)).
Definition probe_clear (sid : uuid) : C unit :=
  fun c => (Ok tt, mkCore (store c) (cancel_probe c ∖ {[sid]}) (list_files c)).
Definition probe_is_cancelled (sid : uuid) : C bool :=
  fun c => (Ok (bool_decide (sid ∈ cancel_probe c)), c).

(** ** Command list files *)

Definition COMMAND_ALLOWLIST_RELATIVE_PATH : str := $".xcoding/command-allowlist".
Definition COMMAND_DENYLIST_RELATIVE_PATH : str := $".xcoding/command-denylist".

Definition load_command_allowlist (root : str) : C (list str) :=
  fun c => (Ok match list_files c !! (root, COMMAND_ALLOWLIST_RELATIVE_PATH) with
               | Some text => parse_command_allowlist text
               | None => []
               end, c).
Definition load_command_denylist (root : str) : C (list str) :=
  fun c => (Ok match list_files c !! (root, COMMAND_DENYLIST_RELATIVE_PATH) with
               | Some text => parse_command_denylist text
               | None => []
               end, c).

Definition write_text_utf8 (root path text : str) : C unit :=
  fun c => (Ok tt, mkCore (store c) (cancel_probe c) (<[(root, path) := text]> (list_files c))).

(** The loop that normalizes, rejects on the first error, and drops repeats. *)
Fixpoint normalize_patterns (normalize : str -> result str str) (acc patterns : list str)
  : result (list str) str :=
  match patterns with
  | [] => Ok acc
  | p :: r =>
    match normalize p with
    | Err e => Err e
    | Ok value =>
      normalize_patterns normalize
        (if existsb (fun existing => existing =s value) acc then acc else acc ++ [value]) r
    end
  end.

Definition write_command_allowlist (root : str) (patterns : list str) : C (list str) :=
  match normalize_patterns normalize_allowlist_pattern [] patterns with
  | Err e => cfail (CoreInvalidInput e)
  | Ok normalized =>
    write_text_utf8 root COMMAND_ALLOWLIST_RELATIVE_PATH
      (render_command_allowlist_file normalized) ;;!
    cret normalized
  end.

Definition write_command_denylist (root : str) (patterns : list str) : C (list str) :=
  match normalize_patterns normalize_denylist_pattern [] patterns with
  | Err e => cfail (CoreInvalidInput e)
  | Ok normalized =>
    write_text_utf8 root COMMAND_DENYLIST_RELATIVE_PATH
      (render_command_denylist_file normalized) ;;!
    cret normalized
  end.

(** ** Text of a task *)

Definition classify_file_change (original : option str) (applied : str) : FileChangeKind :=
  match original with
  | None => if is_empty applied then FModified else FCreated
  | Some o =>
    if is_empty o && negb (is_empty applied) then FCreated
    else if negb (is_empty o) && is_empty applied then FDeleted
    else FModified
  end.

(** [*counts.entry(line).or_default() += delta] *)
Definition bump (delta : Z) (counts : gmap (list N) Z) (line : str) : gmap (list N) Z :=
  <[line := (default 0 (counts !! line) + delta)%Z]> counts.

Definition line_counts (original applied : str) : gmap (list N) Z :=
  foldl (bump 1) (foldl (bump (-1)) ∅ (lines original)) (lines applied).

Definition line_change_counts (original applied : str) : Z * Z :=
  let deltas := map snd (map_to_list (line_counts original applied)) in
  (foldr (fun d acc => if (0 <? d)%Z then (acc + d)%Z else acc) 0%Z deltas,
   foldr (fun d acc => if (d <? 0)%Z then (acc - d)%Z else acc) 0%Z deltas).

Definition title_from_user_message (message : str) : str :=
  let cleaned := join [LF]
    (List.filter (fun line => negb (contains $"xcoding-images" line)) (lines message)) in
  let source := if is_empty (trim cleaned) then $"Image" else cleaned in
  collapse_title (first_line (lines source)).

(** ** Replay *)

Definition replay_step (event : SessionEvent) : list ReplayStep :=
  match event with
  | EvPlan _ plan_steps =>
    map (fun plan => mkReplayStep $"plan" (ps_description plan) None None) plan_steps
  | EvToolStart _ call summary =>
    [mkReplayStep $"tool_start" summary (Some (tc_name call)) None]
  | EvToolEnd _ call success summary =>
    [mkReplayStep $"tool_end" summary (Some (tc_name call)) (Some success)]
  | EvApprovalRequested _ _ summary =>
    [mkReplayStep $"approval_requested" summary None None]
  | EvPatchPreview _ preview =>
    [mkReplayStep $"patch_preview" ($"Preview " ++ pp_path preview) (Some ApplyPatch) None]
  | EvRestorePointRolledBack _ _ summary =>
    [mkReplayStep $"restore_point_rolled_back" summary None (Some true)]
  | EvSessionCancelled _ message =>
    [mkReplayStep $"session_cancelled" message None (Some false)]
  | EvTaskCompleted _ summary =>
    [mkReplayStep $"task_completed"
       ($"changed=" ++ show_nat (length (ts_changed_files summary))
        ++ $" commands=" ++ show_N (Z.to_N (ts_commands_run summary))
        ++ $"/" ++ show_N (Z.to_N (ts_commands_succeeded summary))
        ++ $"/" ++ show_N (Z.to_N (ts_commands_failed summary))) None (Some true)]
  | EvMessageCompleted _ message =>
    if bool_decide (m_role message = Assistant)
    then [mkReplayStep $"assistant_message" (m_content message) None (Some true)]
    else []
  | EvRetrying _ _ _ _ | EvStreamReset _ _ _ | EvModelCall _ _ | EvContextCompacted _ _ _ => []
  | EvError _ message => [mkReplayStep $"error" message None (Some false)]
  | EvVisionDelegateStart _ image_count delegate_model historical =>
    [mkReplayStep $"vision_delegate_start"
       (if historical
        then $"使用 " ++ delegate_model ++ $" 分析历史消息中的 " ++ show_nat image_count
             ++ $" 张图片"
        else $"使用 " ++ delegate_model ++ $" 分析 " ++ show_nat image_count ++ $" 张图片")
       None None]
  | EvVisionDelegateSuccess _ image_count description_length =>
    [mkReplayStep $"vision_delegate_success"
       ($"✓ 已生成图片描述（" ++ show_nat image_count ++ $" 张，"
        ++ show_nat description_length ++ $" 字符）") None (Some true)]
  | EvVisionDelegateFailed _ image_count error =>
    [mkReplayStep $"vision_delegate_failed"
       ($"✗ 视觉分析失败（" ++ show_nat image_count ++ $" 张图片）: " ++ error)
       None (Some false)]
  | EvVisionDescriptionsApplied _ image_count historical_chars truncated _ =>
    [mkReplayStep $"vision_descriptions_applied"
       ($"已注入 " ++ show_nat image_count ++ $" 张图片的描述（历史 "
        ++ show_nat historical_chars
        ++ if truncated then $" 字符，已达上限并裁剪）" else $" 字符）") None (Some true)]
  | EvTextDelta _ _ => []
  end.

Definition build_replay_steps (events : list PersistedSessionEvent) : list ReplayStep :=
  concat (map (fun item => replay_step (pe_event item)) events).

Section Core.
Context {E : Env}.

(** ** Sessions *)

Definition not_found (sid : uuid) : CoreError := SessionNotFound (uuid_text sid).

Definition ok_or {A} (e : CoreError) (o : option A) : C A :=
  match o with Some a => cret a | None => cfail e end.

Definition session (sid : uuid) : C Session :=
  do! s := lift (get_session sid) in ok_or (not_found sid) s.

Definition set_status (sid : uuid) (x : SessionStatus) : C Session :=
  do! s := lift (set_session_status sid x) in ok_or (not_found sid) s.

Definition validate_workspace_root (root : str) : C unit :=
  cguard (negb (is_empty (trim root))) $"workspace_root must not be empty".

(** [Utc::now] outside the store. *)
Definition core_now : C timestamp := lift now.

Definition workspace_config (root : str) : C WorkspaceConfig :=
  validate_workspace_root root ;;!
  do! stored := lift (get_workspace_config root) in
  do! config :=
    match stored with
    | Some c => cret c
    | None => do! t := core_now in cret (mkWorkspaceConfig root Ask $"openai" [] [] [] t)
    end in
  do! allow := load_command_allowlist root in
  do! deny := load_command_denylist root in
  cret (mkWorkspaceConfig (wc_workspace_root config) (wc_mode config) (wc_provider config)
          (wc_model config) allow deny (wc_updated_at config)).

Definition core_set_workspace_config (params : SetConfigParams) : C WorkspaceConfig :=
  let root := sc_workspace_root params in
  validate_workspace_root root ;;!
  cguard (sc_provider params =s $"openai")
    $"only the openai-compatible cloud provider is supported" ;;!
  cguard (negb (is_empty (trim (sc_model params)))) $"model must not be empty" ;;!
  do! allow := match sc_command_allowlist params with
               | Some patterns => write_command_allowlist root patterns
               | None => load_command_allowlist root
               end in
  do! deny := match sc_command_denylist params with
              | Some patterns => write_command_denylist root patterns
              | None => load_command_denylist root
              end in
  do! t := core_now in
  do! saved := lift (set_workspace_config
    (mkWorkspaceConfig root (sc_mode params) (sc_provider params) (trim (sc_model params))
       [] [] t)) in
  cret (mkWorkspaceConfig (wc_workspace_root saved) (wc_mode saved) (wc_provider saved)
          (wc_model saved) allow deny (wc_updated_at saved)).

(** A model name that is present and not blank. *)
Definition chosen_model (model : option str) : option str :=
  match model with
  | Some m => if is_empty (trim m) then None else Some (trim m)
  | None => None
  end.

Definition same_workspace (a b : str) : bool :=
  eq_ignore_ascii_case (replace_char BACKSLASH [SLASH] (trim a))
    (replace_char BACKSLASH [SLASH] (trim b)).

Definition continue_chat (sid : uuid) (params : ChatParams) : C Session :=
  cguard (negb (is_empty (trim (cp_message params)))) $"message must not be empty" ;;!
  do! s := session sid in
  cguard (is_empty (trim (cp_workspace_root params))
          || same_workspace (cp_workspace_root params) (s_workspace_root s))
    $"session_id belongs to a different workspace_root" ;;!
  match s_status s with
  | Done | Failed | Created | Cancelled => cret tt
  | NeedUser => cfail (CoreInvalidInput
      $"session is waiting for approval; resolve or cancel it before continuing")
  | Running => cfail (CoreInvalidInput $"session is already running")
  end ;;!
  match chosen_model (cp_model params) with
  | Some model =>
    if model =s s_model s then cret tt
    else (do! r := lift (set_session_model sid model) in
          ok_or (CoreInvalidInput $"session not found") r ;;! cret tt)
  | None => cret tt
  end ;;!
  match cp_mode params with
  | Some mode =>
    if bool_decide (mode = s_mode s) then cret tt
    else (do! r := lift (set_session_mode sid mode) in
          ok_or (CoreInvalidInput $"session not found") r ;;! cret tt)
  | None => cret tt
  end ;;!
  probe_clear sid ;;!
  lift (append_message sid User (trim (cp_message params))) ;;!
  set_status sid Running.

(** The title of a new session: the given one unless it is blank, else the one
    derived from the message unless that is empty. *)
Definition derived_title (params : ChatParams) : option str :=
  match cp_title params with
  | Some t =>
    if is_empty (trim t)
    then (let d := title_from_user_message (cp_message params) in
          if is_empty d then None else Some d)
    else Some t
  | None =>
    let d := title_from_user_message (cp_message params) in
    if is_empty d then None else Some d
  end.

Definition start_chat (params : ChatParams) : C Session :=
  match cp_session_id params with
  | Some sid => continue_chat sid params
  | None =>
    cguard (negb (is_empty (trim (cp_workspace_root params))))
      $"workspace_root must not be empty" ;;!
    cguard (negb (is_empty (trim (cp_message params)))) $"message must not be empty" ;;!
    do! config := workspace_config (cp_workspace_root params) in
    let model := default (trim (wc_model config)) (chosen_model (cp_model params)) in
    cguard (negb (is_empty model)) $"model must not be empty" ;;!
    do! s := lift (create_session (mkCreateSession (cp_workspace_root params)
      (default (wc_mode config) (cp_mode params))
      (default (wc_provider config) (cp_provider params)) model (derived_title params))) in
    do! s' := set_status (s_id s) Running in
    lift (append_message (s_id s') User (cp_message params)) ;;!
    cret s'
  end.

(** The calls of the handler of [session.create], which takes the model of the workspace
    when the request has none. *)
Definition core_create_session (params : CreateSessionParams) : C Session :=
  do! model :=
    if is_empty (trim (cs_model params))
    then do! config := workspace_config (cs_workspace_root params) in cret (wc_model config)
    else cret (cs_model params) in
  lift (create_session (mkCreateSession (cs_workspace_root params) (cs_mode params)
                          (cs_provider params) model (cs_title params))).

Definition core_delete_session (sid : uuid) : C unit :=
  do! deleted := lift (delete_session sid) in
  if deleted then probe_mark sid else cfail (not_found sid).

Definition core_delete_workspace_sessions (root : str) : C nat :=
  validate_workspace_root root ;;! lift (delete_workspace_sessions root).

Definition rename_session (sid : uuid) (title : str) : C Session :=
  let title := trim title in
  cguard (negb (is_empty title)) $"session title must not be empty" ;;!
  do! s := lift (set_session_title sid title) in ok_or (not_found sid) s.

(** ** Cancellation, approval and completion *)

Definition is_session_cancelled (sid : uuid) : C bool :=
  do! marked := probe_is_cancelled sid in
  if marked then cret true
  else do! s := session sid in cret (bool_decide (s_status s = Cancelled)).

(** [let _ = op] *)
Definition ignore {A} (m : C A) : C unit := fun c => (Ok tt, snd (m c)).

Definition record_assistant_message (sid : uuid) (content : str) : C Message :=
  lift (append_message sid Assistant content).
Definition record_tool_message (sid : uuid) (content : str) : C Message :=
  lift (append_message sid Tool content).

Definition cancel_session (sid : uuid) (partial_assistant : option str) : C Session :=
  do! s := session sid in
  cguard (bool_decide (s_status s = Running) || bool_decide (s_status s = NeedUser))
    $"only active sessions can be cancelled" ;;!
  match chosen_model partial_assistant with
  | Some content =>
    do! msgs := lift (list_messages sid) in
    if match last msgs with
       | Some m => bool_decide (m_role m = Assistant) && (m_content m =s content)
       | None => false
       end
    then cret tt
    else ignore (record_assistant_message sid content)
  | None => cret tt
  end ;;!
  lift (reject_pending_actions sid) ;;!
  probe_mark sid ;;!
  set_status sid Cancelled.

Definition core_create_pending_action (sid : uuid) (call : ToolCall) : C PendingAction :=
  lift (create_pending_action sid call).

Definition core_resolve_pending_action (sid aid : uuid) (approved : bool) : C PendingAction :=
  do! s := session sid in
  cguard (bool_decide (s_status s = NeedUser))
    $"actions can only be resolved while a session is waiting for approval" ;;!
  do! found := lift (get_pending_action aid) in
  do! action := ok_or
    (CoreInvalidInput ($"pending action not found: " ++ uuid_text aid)) found in
  cguard (pa_session_id action =? sid)%N
    $"pending action does not belong to this session" ;;!
  do! r := lift (resolve_pending_action aid (if approved then Approved else Rejected)) in
  ok_or (CoreInvalidInput $"pending action has already been resolved") r.

Definition pause_chat (sid : uuid) : C Session := set_status sid NeedUser.

Definition resume_chat (sid : uuid) : C Session :=
  do! s := session sid in
  cguard (negb (bool_decide (s_status s = Cancelled)))
    $"cancelled sessions cannot be resumed" ;;!
  set_status sid Running.

Definition complete_chat (sid : uuid) (content : str) : C ChatResult :=
  do! s := session sid in
  if bool_decide (s_status s = Cancelled) then cret (mkChatResult s None)
  else
    do! message := lift (append_message sid Assistant content) in
    do! s' := set_status sid Done in
    cret (mkChatResult s' (Some message)).

Definition fail_chat (sid : uuid) : C Session :=
  do! s := session sid in
  if bool_decide (s_status s = Cancelled) || bool_decide (s_status s = Done) then cret s
  else set_status sid Failed.

(** ** Task summary *)

Definition restore_point (sid rid : uuid) : C RestorePoint :=
  do! found := lift (get_restore_point rid) in
  do! rp := ok_or (CoreInvalidInput ($"restore point not found: " ++ uuid_text rid)) found in
  cguard (rp_session_id rp =? sid)%N $"restore point does not belong to this session" ;;!
  cret rp.

(** The map the summary builds: one restore point per path. *)
Definition by_path (points : list RestorePoint) : list (list N * RestorePoint) :=
  foldl (fun m rp => btree_insert (rp_path rp) rp m) [] points.

Definition file_change (entry : list N * RestorePoint) : FileChangeSummary :=
  let '(path, rp) := entry in
  let original := default [] (rp_original_text rp) in
  let applied := default [] (rp_applied_text rp) in
  let kind := classify_file_change (rp_original_text rp) applied in
  let '(added, removed) := line_change_counts original applied in
  mkFileChangeSummary path kind added removed.

(** The outcome of a finished command, when the event is one. *)
Definition command_outcome (e : SessionEvent) : option bool :=
  match e with
  | EvToolEnd _ call success _ =>
    if bool_decide (tc_name call = RunCommand) then Some success else None
  | _ => None
  end.

Definition task_summary (sid : uuid) : C TaskSummary :=
  session sid ;;!
  do! points := lift (list_restore_points sid) in
  let changes := map file_change (by_path points) in
  do! events := lift (list_events sid) in
  let outcomes := omap (fun e => command_outcome (pe_event e)) events in
  cret (mkTaskSummary (map fc_path changes) changes
    (Z.of_nat (length outcomes))
    (Z.of_nat (length (List.filter (fun b => b) outcomes)))
    (Z.of_nat (length (List.filter negb outcomes)))
    (sumZ (map fc_lines_added changes)) (sumZ (map fc_lines_removed changes))
    None None None).

Definition session_replay (sid : uuid)
  : C (Session * list PersistedSessionEvent * list ReplayStep) :=
  do! s := session sid in
  do! events := lift (list_events sid) in
  cret (s, events, build_replay_steps events).

(** ** Operations that forward to the store *)

Definition core_list_sessions (root : option str) : C (list Session) := lift (list_sessions root).
Definition core_reconcile_interrupted_sessions : C nat := lift reconcile_interrupted_sessions.
Definition core_purge_model_call_logs (days : Z) : C nat := lift (purge_model_call_logs days).

Definition core_list_follow_up_queue (sid : uuid) : C (list FollowUpQueueEntry) :=
  lift (list_follow_up_queue sid).
Definition core_queue_follow_up (params : QueueFollowUpParams) : C FollowUpQueueEntry :=
  lift (queue_follow_up params).
Definition core_set_follow_up_queue_status (sid fid : uuid) (x : FollowUpQueueStatus)
  : C (option FollowUpQueueEntry) := lift (set_follow_up_queue_status sid fid x).
Definition core_mark_queued_follow_ups_not_started (sid : uuid) : C nat :=
  lift (mark_queued_follow_ups_not_started sid).
Definition core_delete_follow_up_queue_entry (sid fid : uuid) : C bool :=
  lift (delete_follow_up_queue_entry sid fid).

Definition core_messages (sid : uuid) : C (list Message) := lift (list_messages sid).
Definition message_count (sid : uuid) : C nat := lift (count_messages sid).
Definition core_latest_context_window_start (sid : uuid) : C nat :=
  lift (latest_context_window_start sid).
Definition core_create_context_window (sid : uuid) (start_message_count : nat) : C nat :=
  lift (create_context_window sid start_message_count).
Definition core_context_windows (sid : uuid) : C (list ContextWindow) :=
  lift (list_context_windows sid).
Definition history_page (sid : uuid) (offset limit : nat) : C (list Message) :=
  lift (list_messages_page sid offset limit).
Definition history_message (sid mid : uuid) : C (option Message) :=
  lift (get_session_message sid mid).
Definition search_history (sid : uuid) (q : str) (offset limit : nat) : C (list Message) :=
  lift (search_session_messages sid q offset limit).
Definition context_compaction (sid : uuid) : C (option ContextCompaction) :=
  lift (get_context_compaction sid).
Definition core_save_context_compaction (sid : uuid) (summary : str) (count : nat)
  : C ContextCompaction :=
  do! t := core_now in
  lift (save_context_compaction (mkContextCompaction sid summary count t)).

Definition core_save_local_memory (root content : str) : C (option LocalMemory) :=
  lift (save_local_memory root content).
Definition core_local_memories (root : str) (limit : nat) : C (list LocalMemory) :=
  lift (list_local_memories root limit).
Definition local_memories_page (root : str) (offset limit : nat) : C (list LocalMemory) :=
  lift (list_local_memories_page root offset limit).
Definition local_memory (root : str) (mid : uuid) : C (option LocalMemory) :=
  lift (get_local_memory root mid).
Definition core_search_local_memories (root q : str) (offset limit : nat) : C (list LocalMemory) :=
  lift (search_local_memories root q offset limit).
Definition core_replace_local_memory (root : str) (mid : uuid) (content : str)
  : C (option LocalMemory) := lift (replace_local_memory root mid content).
Definition core_count_local_memories (root : str) : C nat := lift (count_local_memories root).
Definition core_clear_local_memories (root : str) : C nat := lift (clear_local_memories root).

Definition vision_description (key : str) : C (option StoredVisionDescription) :=
  lift (get_vision_description key).
Definition core_save_vision_description (key model : str) (sid : option uuid) (text : str)
  : C unit := lift (save_vision_description key model sid text).
Definition core_get_vision_route_status (key : str) : C (option str) :=
  lift (get_vision_route_status key).
Definition core_save_vision_route_status (key status : str) : C unit :=
  lift (save_vision_route_status key status).

Definition session_message_page (sid : uuid) (offset limit : nat) : C SessionMessagePage :=
  lift (list_message_previews_page sid offset limit).
Definition core_session_events (sid : uuid) : C (list PersistedSessionEvent) :=
  lift (list_events sid).
Definition core_open_tool_output_attachment (sid mid : uuid) : C str :=
  lift (open_tool_output_attachment sid mid).
Definition core_record_event (e : SessionEvent) : C PersistedSessionEvent :=
  lift (record_event e).
Definition core_create_restore_point (sid : uuid) (path : str) (original : option str)
    (applied : str) : C RestorePoint :=
  lift (create_restore_point sid path original applied).

(** ** Views of a session *)

Record SessionDetail := mkSessionDetail {
  sd_session : Session;
  sd_messages : list Message;
  sd_pending_actions : list PendingAction;
  sd_restore_points : list RestorePoint;
  sd_events : list PersistedSessionEvent;
}.

Record SessionDisplayDetail := mkSessionDisplayDetail {
  dd_session : Session;
  dd_page : SessionMessagePage;
  dd_pending_actions : list PendingAction;
  dd_restore_points : list RestorePoint;
  dd_events : list PersistedSessionEvent;
  dd_follow_up_queue : list FollowUpQueueEntry;
}.

Definition session_detail (sid : uuid) : C SessionDetail :=
  do! s := session sid in
  do! msgs := lift (list_messages sid) in
  do! actions := lift (list_pending_actions sid) in
  do! points := lift (list_restore_points sid) in
  do! events := lift (list_events sid) in
  cret (mkSessionDetail s msgs actions points events).

Definition session_display_detail (sid : uuid) (page_offset : option nat) (page_size : nat)
  : C SessionDisplayDetail :=
  do! s := session sid in
  do! total_messages := lift (count_messages sid) in
  let offset := default (total_messages - page_size) page_offset in
  do! page := lift (list_message_previews_page sid offset page_size) in
  do! actions := lift (list_pending_actions sid) in
  do! points := lift (list_restore_points sid) in
  do! events := lift (list_events sid) in
  do! queue := lift (list_follow_up_queue sid) in
  cret (mkSessionDisplayDetail s page actions points events queue).

End Core.
