(* ===== verification/CoreCalls.v ===== *)
(** * The core service as a client of the store

    Every public operation of [CoreService] acts on the store through a
    sequence of the store's public calls, so what holds of every reachable
    store holds under the core service. *)

From S2P Require Import Prelude Protocol Policy Sql Store StoreSteps StoreInv Core.

Inductive CoreCall :=
| CoreStartChat (params : ChatParams)
| CoreContinueChat (sid : uuid) (params : ChatParams)
| CoreWorkspaceConfig (root : list N)
| CoreSetWorkspaceConfig (params : SetConfigParams)
| CoreTaskSummary (sid : uuid)
| CoreListSessions (root : option (list N))
| CoreReconcile
| CorePurge (days : Z)
| CoreDeleteSession (sid : uuid)
| CoreDeleteWorkspaceSessions (root : list N)
| CoreRenameSession (sid : uuid) (title : list N)
| CoreQueueFollowUp (params : QueueFollowUpParams)
| CoreSetFollowUpQueueStatus (sid fid : uuid) (x : FollowUpQueueStatus)
| CoreMarkQueuedNotStarted (sid : uuid)
| CoreDeleteFollowUp (sid fid : uuid)
| CoreMessages (sid : uuid)
| CoreCreateContextWindow (sid : uuid) (n : nat)
| CoreHistoryPage (sid : uuid) (offset limit : nat)
| CoreHistoryMessage (sid mid : uuid)
| CoreSearchHistory (sid : uuid) (q : list N) (offset limit : nat)
| CoreSaveContextCompaction (sid : uuid) (summary : list N) (count : nat)
| CoreSaveLocalMemory (root content : list N)
| CoreReplaceLocalMemory (root : list N) (mid : uuid) (content : list N)
| CoreClearLocalMemories (root : list N)
| CoreSaveVisionDescription (key model : list N) (sid : option uuid) (text : list N)
| CoreSaveVisionRouteStatus (key status : list N)
| CoreSession (sid : uuid)
| CoreSessionDetail (sid : uuid)
| CoreSessionDisplayDetail (sid : uuid) (page_offset : option nat) (page_size : nat)
| CoreSessionMessagePage (sid : uuid) (offset limit : nat)
| CoreOpenToolOutputAttachment (sid mid : uuid)
| CoreSessionReplay (sid : uuid)
| CoreRecordEvent (e : SessionEvent)
| CoreIsSessionCancelled (sid : uuid)
| CoreCancelSession (sid : uuid) (partial : option (list N))
| CoreCreatePendingAction (sid : uuid) (call : ToolCall)
| CoreResolvePendingAction (sid aid : uuid) (approved : bool)
| CorePauseChat (sid : uuid)
| CoreResumeChat (sid : uuid)
| CoreCreateRestorePoint (sid : uuid) (path : list N) (original : option (list N))
    (applied : list N)
| CoreRecordToolMessage (sid : uuid) (content : list N)
| CoreRecordAssistantMessage (sid : uuid) (content : list N)
| CoreCompleteChat (sid : uuid) (content : list N)
| CoreFailChat (sid : uuid)
| CoreCreateSession (params : CreateSessionParams).

Section CoreCalls.
Context {E : Env}.

Definition run_core_call (k : CoreCall) (c : CoreService) : CoreService :=
  match k with
  | CoreStartChat p => snd (start_chat p c)
  | CoreContinueChat sid p => snd (continue_chat sid p c)
  | CoreWorkspaceConfig r => snd (workspace_config r c)
  | CoreSetWorkspaceConfig p => snd (core_set_workspace_config p c)
  | CoreTaskSummary sid => snd (task_summary sid c)
  | CoreListSessions r => snd (core_list_sessions r c)
  | CoreReconcile => snd (core_reconcile_interrupted_sessions c)
  | CorePurge n => snd (core_purge_model_call_logs n c)
  | CoreDeleteSession sid => snd (core_delete_session sid c)
  | CoreDeleteWorkspaceSessions r => snd (core_delete_workspace_sessions r c)
  | CoreRenameSession sid t => snd (rename_session sid t c)
  | CoreQueueFollowUp p => snd (core_queue_follow_up p c)
  | CoreSetFollowUpQueueStatus sid fid x => snd (core_set_follow_up_queue_status sid fid x c)
  | CoreMarkQueuedNotStarted sid => snd (core_mark_queued_follow_ups_not_started sid c)
  | CoreDeleteFollowUp sid fid => snd (core_delete_follow_up_queue_entry sid fid c)
  | CoreMessages sid => snd (core_messages sid c)
  | CoreCreateContextWindow sid n => snd (core_create_context_window sid n c)
  | CoreHistoryPage sid o l => snd (history_page sid o l c)
  | CoreHistoryMessage sid mid => snd (history_message sid mid c)
  | CoreSearchHistory sid q o l => snd (search_history sid q o l c)
  | CoreSaveContextCompaction sid s n => snd (core_save_context_compaction sid s n c)
  | CoreSaveLocalMemory r t => snd (core_save_local_memory r t c)
  | CoreReplaceLocalMemory r mid t => snd (core_replace_local_memory r mid t c)
  | CoreClearLocalMemories r => snd (core_clear_local_memories r c)
  | CoreSaveVisionDescription key m s t => snd (core_save_vision_description key m s t c)
  | CoreSaveVisionRouteStatus key x => snd (core_save_vision_route_status key x c)
  | CoreSession sid => snd (session sid c)
  | CoreSessionDetail sid => snd (session_detail sid c)
  | CoreSessionDisplayDetail sid o n => snd (session_display_detail sid o n c)
  | CoreSessionMessagePage sid o l => snd (session_message_page sid o l c)
  | CoreOpenToolOutputAttachment sid mid => snd (core_open_tool_output_attachment sid mid c)
  | CoreSessionReplay sid => snd (session_replay sid c)
  | CoreRecordEvent e => snd (core_record_event e c)
  | CoreIsSessionCancelled sid => snd (is_session_cancelled sid c)
  | CoreCancelSession sid p => snd (cancel_session sid p c)
  | CoreCreatePendingAction sid call => snd (core_create_pending_action sid call c)
  | CoreResolvePendingAction sid aid b => snd (core_resolve_pending_action sid aid b c)
  | CorePauseChat sid => snd (pause_chat sid c)
  | CoreResumeChat sid => snd (resume_chat sid c)
  | CoreCreateRestorePoint sid p o a => snd (core_create_restore_point sid p o a c)
  | CoreRecordToolMessage sid t => snd (record_tool_message sid t c)
  | CoreRecordAssistantMessage sid t => snd (record_assistant_message sid t c)
  | CoreCompleteChat sid t => snd (complete_chat sid t c)
  | CoreFailChat sid => snd (fail_chat sid c)
  | CoreCreateSession params => snd (core_create_session params c)
  end.

Definition run_core_calls (ks : list CoreCall) (c : CoreService) : CoreService :=
  foldl (fun c k => run_core_call k c) c ks.

(** [CoreService::in_memory] and [CoreService::open] on a new database. *)
Definition new_core (dir : option str) : CoreService := mkCore (new_store dir) ∅ ∅.

(** ** Operations as store calls *)

Definition follows {A} (m : C A) : Prop :=
  forall c, exists cs, store (snd (m c)) = run_calls cs (store c).

Lemma run_calls_app cs cs' st : run_calls (cs ++ cs') st = run_calls cs' (run_calls cs st).
Proof. unfold run_calls. apply foldl_app. Qed.

Lemma follows_same {A} (m : C A) : (forall c, store (snd (m c)) = store c) -> follows m.
Proof. intros H c. exists []. by rewrite H. Qed.

Lemma follows_call {A} (m : M A) k :
  (forall st, snd (m st) = run_call k st) -> follows (lift m).
Proof.
  intros H c. exists [k]. unfold lift. simpl. rewrite <- H. by destruct (m (store c)) as [[a|e] s].
Qed.

Lemma follows_pure {A} (m : M A) : (forall st, snd (m st) = st) -> follows (lift m).
Proof.
  intros H. apply follows_same. intros c. unfold lift. specialize (H (store c)).
  by destruct (m (store c)) as [[a|e] s].
Qed.

Lemma follows_bind {A B} (m : C A) (f : A -> C B) :
  follows m -> (forall a, follows (f a)) -> follows (cbind m f).
Proof.
  intros Hm Hf c. destruct (Hm c) as [cs Hcs]. unfold cbind.
  destruct (m c) as [[a|e] c'] eqn:Em; simpl in *; [|by exists cs].
  destruct (Hf a c') as [cs' Hcs']. exists (cs ++ cs'). by rewrite run_calls_app, <- Hcs.
Qed.

Lemma follows_ret {A} (a : A) : follows (cret a).
Proof. by apply follows_same. Qed.
Lemma follows_fail {A} e : follows (@cfail A e).
Proof. by apply follows_same. Qed.
Lemma follows_guard b m : follows (cguard b m).
Proof. apply follows_same. intros c. by destruct b. Qed.
Lemma follows_ok_or {A} e (o : option A) : follows (ok_or e o).
Proof. apply follows_same. intros c. by destruct o. Qed.
Lemma follows_ignore {A} (m : C A) : follows m -> follows (ignore m).
Proof. intros H c. apply H. Qed.
Lemma follows_probe_mark sid : follows (probe_mark sid).
Proof. by apply follows_same. Qed.
Lemma follows_probe_clear sid : follows (probe_clear sid).
Proof. by apply follows_same. Qed.
Lemma follows_probe_is_cancelled sid : follows (probe_is_cancelled sid).
Proof. by apply follows_same. Qed.
Lemma follows_load_allowlist root : follows (load_command_allowlist root).
Proof. by apply follows_same. Qed.
Lemma follows_load_denylist root : follows (load_command_denylist root).
Proof. by apply follows_same. Qed.
Lemma follows_write_allowlist root ps : follows (write_command_allowlist root ps).
Proof.
  apply follows_same. intros c. unfold write_command_allowlist.
  by destruct (normalize_patterns _ _ _).
Qed.
Lemma follows_write_denylist root ps : follows (write_command_denylist root ps).
Proof.
  apply follows_same. intros c. unfold write_command_denylist.
  by destruct (normalize_patterns _ _ _).
Qed.
End CoreCalls.

(** Decomposes an operation; a store operation that changes state is matched
    with its call. *)
Ltac follows_call_tac :=
  match goal with
  | |- follows (lift now) => by apply (follows_call _ CallNow)
  | |- follows (lift (create_session ?a)) => by apply (follows_call _ (CallCreateSession a))
  | |- follows (lift (list_sessions ?a)) => by apply (follows_call _ (CallListSessions a))
  | |- follows (lift (get_session ?a)) => by apply (follows_call _ (CallGetSession a))
  | |- follows (lift (delete_session ?a)) => by apply (follows_call _ (CallDeleteSession a))
  | |- follows (lift (delete_workspace_sessions ?a)) =>
      by apply (follows_call _ (CallDeleteWorkspaceSessions a))
  | |- follows (lift (set_session_status ?a ?b)) =>
      by apply (follows_call _ (CallSetSessionStatus a b))
  | |- follows (lift (set_session_title ?a ?b)) =>
      by apply (follows_call _ (CallSetSessionTitle a b))
  | |- follows (lift (set_session_model ?a ?b)) =>
      by apply (follows_call _ (CallSetSessionModel a b))
  | |- follows (lift (set_session_mode ?a ?b)) =>
      by apply (follows_call _ (CallSetSessionMode a b))
  | |- follows (lift (set_workspace_config ?a)) =>
      by apply (follows_call _ (CallSetWorkspaceConfig a))
  | |- follows (lift (append_message ?a ?b ?c)) =>
      by apply (follows_call _ (CallAppendMessage a b c))
  | |- follows (lift (list_messages ?a)) => by apply (follows_call _ (CallListMessages a))
  | |- follows (lift (list_messages_page ?a ?b ?c)) =>
      by apply (follows_call _ (CallListMessagesPage a b c))
  | |- follows (lift (list_message_previews_page ?a ?b ?c)) =>
      by apply (follows_call _ (CallListMessagePreviewsPage a b c))
  | |- follows (lift (open_tool_output_attachment ?a ?b)) =>
      by apply (follows_call _ (CallOpenToolOutputAttachment a b))
  | |- follows (lift (get_session_message ?a ?b)) =>
      by apply (follows_call _ (CallGetSessionMessage a b))
  | |- follows (lift (search_session_messages ?a ?b ?c ?d)) =>
      by apply (follows_call _ (CallSearchSessionMessages a b c d))
  | |- follows (lift (queue_follow_up ?a)) => by apply (follows_call _ (CallQueueFollowUp a))
  | |- follows (lift (set_follow_up_queue_status ?a ?b ?c)) =>
      by apply (follows_call _ (CallSetFollowUpQueueStatus a b c))
  | |- follows (lift (mark_queued_follow_ups_not_started ?a)) =>
      by apply (follows_call _ (CallMarkQueuedFollowUpsNotStarted a))
  | |- follows (lift (delete_follow_up_queue_entry ?a ?b)) =>
      by apply (follows_call _ (CallDeleteFollowUpQueueEntry a b))
  | |- follows (lift reconcile_interrupted_sessions) =>
      by apply (follows_call _ CallReconcileInterruptedSessions)
  | |- follows (lift (create_context_window ?a ?b)) =>
      by apply (follows_call _ (CallCreateContextWindow a b))
  | |- follows (lift (save_context_compaction ?a)) =>
      by apply (follows_call _ (CallSaveContextCompaction a))
  | |- follows (lift (save_local_memory ?a ?b)) =>
      by apply (follows_call _ (CallSaveLocalMemory a b))
  | |- follows (lift (replace_local_memory ?a ?b ?c)) =>
      by apply (follows_call _ (CallReplaceLocalMemory a b c))
  | |- follows (lift (clear_local_memories ?a)) =>
      by apply (follows_call _ (CallClearLocalMemories a))
  | |- follows (lift (save_vision_description ?a ?b ?c ?d)) =>
      by apply (follows_call _ (CallSaveVisionDescription a b c d))
  | |- follows (lift (save_vision_route_status ?a ?b)) =>
      by apply (follows_call _ (CallSaveVisionRouteStatus a b))
  | |- follows (lift (create_pending_action ?a ?b)) =>
      by apply (follows_call _ (CallCreatePendingAction a b))
  | |- follows (lift (resolve_pending_action ?a ?b)) =>
      by apply (follows_call _ (CallResolvePendingAction a b))
  | |- follows (lift (reject_pending_actions ?a)) =>
      by apply (follows_call _ (CallRejectPendingActions a))
  | |- follows (lift (create_restore_point ?a ?b ?c ?d)) =>
      by apply (follows_call _ (CallCreateRestorePoint a b c d))
  | |- follows (lift (record_event ?a)) => by apply (follows_call _ (CallRecordEvent a))
  | |- follows (lift (purge_model_call_logs ?a)) =>
      by apply (follows_call _ (CallPurgeModelCallLogs a))
  | |- follows (lift _) => by apply follows_pure
  end.

Ltac follows_step :=
  match goal with
  | |- follows (cbind _ _) => apply follows_bind; [|intros ?]
  | |- follows (cret _) => apply follows_ret
  | |- follows (cfail _) => apply follows_fail
  | |- follows (cguard _ _) => apply follows_guard
  | |- follows (ok_or _ _) => apply follows_ok_or
  | |- follows (ignore _) => apply follows_ignore
  | |- follows (probe_mark _) => apply follows_probe_mark
  | |- follows (probe_clear _) => apply follows_probe_clear
  | |- follows (probe_is_cancelled _) => apply follows_probe_is_cancelled
  | |- follows (load_command_allowlist _) => apply follows_load_allowlist
  | |- follows (load_command_denylist _) => apply follows_load_denylist
  | |- follows (write_command_allowlist _ _) => apply follows_write_allowlist
  | |- follows (write_command_denylist _ _) => apply follows_write_denylist
  | |- follows (if ?b then _ else _) => destruct b
  | |- follows (match ?x with _ => _ end) => destruct x
  | |- follows (let _ := _ in _) => cbv zeta
  | |- follows (lift _) => follows_call_tac
  end.
Ltac follows_auto := repeat follows_step.

Section CoreRefines.
Context {E : Env}.

Lemma follows_session sid : follows (session sid).
Proof. unfold session. follows_auto. Qed.
Lemma follows_set_status sid x : follows (set_status sid x).
Proof. unfold set_status. follows_auto. Qed.
Lemma follows_workspace_config root : follows (workspace_config root).
Proof. unfold workspace_config, validate_workspace_root, core_now. follows_auto. Qed.

Ltac follows_core := repeat
  match goal with
  | |- follows (session _) => apply follows_session
  | |- follows (set_status _ _) => apply follows_set_status
  | |- follows (workspace_config _) => apply follows_workspace_config
  | |- follows (lift _) => follows_call_tac
  | |- follows core_now => unfold core_now
  | |- follows core_reconcile_interrupted_sessions => unfold core_reconcile_interrupted_sessions
  | |- _ => follows_step
  | |- follows (?f _ _ _ _ _) => unfold f
  | |- follows (?f _ _ _ _) => unfold f
  | |- follows (?f _ _ _) => unfold f
  | |- follows (?f _ _) => unfold f
  | |- follows (?f _) => unfold f
  end.

Lemma follows_continue_chat sid p : follows (continue_chat sid p).
Proof. unfold continue_chat. follows_core. Qed.

Lemma follows_start_chat p : follows (start_chat p).
Proof. unfold start_chat. follows_core. Qed.

Lemma core_call_follows k c : exists cs, store (run_core_call k c) = run_calls cs (store c).
Proof.
  assert (forall A (m : C A), follows m -> exists cs, store (snd (m c)) = run_calls cs (store c))
    as Hm by auto.
  destruct k; cbn [run_core_call]; apply Hm; follows_core.
Qed.

Lemma core_reachable ks c : exists cs, store (run_core_calls ks c) = run_calls cs (store c).
Proof.
  revert c. induction ks as [|k ks IH]; intros c; simpl; [by exists []|].
  destruct (core_call_follows k c) as [cs Hcs]. destruct (IH (run_core_call k c)) as [cs' Hcs'].
  exists (cs ++ cs'). by rewrite run_calls_app, <- Hcs.
Qed.

End CoreRefines.

(** ** An example run *)

(** A chat that asks for approval of a command; the counter environment numbers
    the session 2 and the action 6. *)
Definition demo_chat : ChatParams :=
  mkChatParams $"/work" $"run the tests" None None (Some $"gpt") None None None.
Definition demo_core_calls : list CoreCall :=
  [CoreStartChat demo_chat; CoreCreatePendingAction 2 demo_call; CorePauseChat 2].
Definition demo_core : CoreService :=
  @run_core_calls (counter_env true) demo_core_calls (new_core None).
