(* ===== verification/CoreStatus.v ===== *)
(** * The life of a session

    Which call may move a session from which status to which, and what
    cancelling, completing and failing a session do. *)

From S2P Require Import Prelude Protocol Policy Sql Store StoreSteps StoreInv StoreFacts Core CoreCalls.

#[local] Arguments has_session : simpl never.
#[local] Arguments exists_where : simpl never.

Definition statuses (d : Db) : list (uuid * SessionStatus) :=
  map (fun s => (s_id s, s_status s)) (sessions d).

Definition status_of (sid : uuid) (d : Db) : option SessionStatus :=
  option_map s_status (find_session sid d).

(** ** Operations that leave every status alone *)

Definition quiet {A} (m : M A) : Prop := forall st, statuses (db (snd (m st))) = statuses (db st).
Definition cquiet {A} (m : C A) : Prop :=
  forall c, statuses (db (store (snd (m c)))) = statuses (db (store c)).

Section Quiet.
Context {E : Env}.

Lemma status_of_statuses sid d d' : statuses d = statuses d' -> status_of sid d = status_of sid d'.
Proof.
  unfold statuses, status_of, find_session. generalize (sessions d) (sessions d').
  induction l as [|s l IH]; intros [|s' l']; simpl; try done. intros [= Hi Hs Hl].
  rewrite Hi. destruct (s_id s' =? sid)%N; [simpl; congruence|by apply IH].
Qed.

Lemma quiet_same {A} (m : M A) : (forall st, db (snd (m st)) = db st) -> quiet m.
Proof. intros H st. by rewrite H. Qed.
Lemma quiet_exec f : (forall d, statuses (f d) = statuses d) -> quiet (exec f).
Proof. intros H st. apply H. Qed.
Lemma quiet_bind {A B} (m : M A) (f : A -> M B) :
  quiet m -> (forall a, quiet (f a)) -> quiet (bind m f).
Proof.
  intros Hm Hf st. specialize (Hm st). unfold bind.
  destruct (m st) as [[a|e] st']; simpl in *; [|done]. by rewrite Hf.
Qed.
Lemma quiet_on_error {A} (m : M A) c : quiet m -> quiet c -> quiet (on_error m c).
Proof.
  intros Hm Hc st. specialize (Hm st). unfold on_error.
  destruct (m st) as [[a|e] st']; simpl in *; [done|]. by rewrite Hc.
Qed.
Lemma quiet_transaction {A} (m : M A) : quiet m -> quiet (transaction m).
Proof.
  intros Hm st. specialize (Hm st). unfold transaction. by destruct (m st) as [[a|e] st'].
Qed.
Lemma quiet_for_each {A B} (l : list A) (f : A -> M B) :
  (forall a, quiet (f a)) -> quiet (for_each l f).
Proof.
  intros Hf. induction l as [|a l IH]; simpl; [by apply quiet_same|].
  apply quiet_bind; [done|]. intros b. apply quiet_bind; [done|]. intros bs. by apply quiet_same.
Qed.

Lemma statuses_update p f d :
  (forall s, s_id (f s) = s_id s) -> (forall s, s_status (f s) = s_status s) ->
  statuses (set_sessions (update_where p f (sessions d)) d) = statuses d.
Proof. intros Hi Hs. apply update_where_key. intros s. by rewrite Hi, Hs. Qed.

Lemma quiet_require_attachment_dir : quiet require_attachment_dir.
Proof. apply quiet_same. intros st. unfold require_attachment_dir. by case_match. Qed.
Lemma quiet_read_file_text p : quiet (read_file_text p).
Proof. apply quiet_same. intros st. unfold read_file_text. by case_match. Qed.
Lemma quiet_guard b e : quiet (guard b e).
Proof. apply quiet_same. intros st. by destruct b. Qed.
Lemma quiet_paths sid : quiet (attachment_paths_for_session_text sid).
Proof. apply quiet_same. intros st. unfold attachment_paths_for_session_text. by case_match. Qed.
End Quiet.

Ltac quiet_step :=
  match goal with
  | |- quiet (bind _ _) => apply quiet_bind; [|intros ?]
  | |- quiet (on_error _ _) => apply quiet_on_error
  | |- quiet (transaction _) => apply quiet_transaction
  | |- quiet (for_each _ _) => apply quiet_for_each; intros ?
  | |- quiet (guard _ _) => apply quiet_guard
  | |- quiet (check_unique _) => unfold check_unique
  | |- quiet (check_session_fk _) => unfold check_session_fk
  | |- quiet require_attachment_dir => apply quiet_require_attachment_dir
  | |- quiet (read_file_text _) => apply quiet_read_file_text
  | |- quiet (attachment_paths_for_session_text _) => apply quiet_paths
  | |- quiet (exec _) => apply quiet_exec; intros ?; 
      first [reflexivity | by apply statuses_update | unfold update_session; by apply statuses_update]
  | |- quiet (if ?b then _ else _) => destruct b
  | |- quiet (match ?x with _ => _ end) => destruct x
  | |- quiet (let _ := _ in _) => cbv zeta
  | |- quiet (query _) => apply quiet_same; intros ?; reflexivity
  | |- quiet (ret _) => apply quiet_same; intros ?; reflexivity
  | |- quiet (fail _) => apply quiet_same; intros ?; reflexivity
  | |- quiet now => apply quiet_same; intros ?; reflexivity
  | |- quiet fresh_uuid => apply quiet_same; intros ?; reflexivity
  | |- quiet has_attachment_dir => apply quiet_same; intros ?; reflexivity
  | |- quiet (write_file _ _) => apply quiet_same; intros ?; reflexivity
  | |- quiet (remove_files _) => apply quiet_same; intros ?; reflexivity
  | |- quiet (?f _ _ _ _ _) => unfold f; cbv zeta
  | |- quiet (?f _ _ _ _) => unfold f; cbv zeta
  | |- quiet (?f _ _ _) => unfold f; cbv zeta
  | |- quiet (?f _ _) => unfold f; cbv zeta
  | |- quiet (?f _) => unfold f; cbv zeta
  end.
Ltac quiet_auto := repeat quiet_step.

Section QuietOps.
Context {E : Env}.

Lemma quiet_get_session sid : quiet (get_session sid).
Proof. quiet_auto. Qed.
Lemma quiet_change_session sid f :
  (forall t s, s_id (f t s) = s_id s /\ s_status (f t s) = s_status s) ->
  quiet (change_session sid f).
Proof.
  intros Hf. unfold change_session, update_session. quiet_auto.
  apply quiet_exec. intros d. apply statuses_update; apply Hf.
Qed.

(** Calls that cannot change a status. *)
Definition silent (k : StoreCall) : bool :=
  match k with
  | CallCreateSession _ | CallDeleteSession _ | CallDeleteWorkspaceSessions _
  | CallSetSessionStatus _ _ | CallReconcileInterruptedSessions => false
  | _ => true
  end.

Lemma silent_quiet k st : silent k = true -> statuses (db (run_call k st)) = statuses (db st).
Proof.
  assert (forall A (m : M A), quiet m -> statuses (db (snd (m st))) = statuses (db st)) as Hm by auto.
  destruct k; intros Hs; try discriminate Hs; cbn [run_call]; apply Hm; quiet_auto.
Qed.
End QuietOps.

(** ** Operations of the core *)

Section CoreQuiet.
Context {E : Env}.

Lemma cquiet_lift {A} (m : M A) : quiet m -> cquiet (lift m).
Proof.
  intros H c. specialize (H (store c)). unfold lift. by destruct (m (store c)) as [[a|e] s].
Qed.
Lemma cquiet_same {A} (m : C A) : (forall c, store (snd (m c)) = store c) -> cquiet m.
Proof. intros H c. by rewrite H. Qed.
Lemma cquiet_bind {A B} (m : C A) (f : A -> C B) :
  cquiet m -> (forall a, cquiet (f a)) -> cquiet (cbind m f).
Proof.
  intros Hm Hf c. specialize (Hm c). unfold cbind.
  destruct (m c) as [[a|e] c']; simpl in *; [|done]. by rewrite Hf.
Qed.
Lemma cquiet_guard b m : cquiet (cguard b m).
Proof. apply cquiet_same. intros c. by destruct b. Qed.
Lemma cquiet_ok_or {A} e (o : option A) : cquiet (ok_or e o).
Proof. apply cquiet_same. intros c. by destruct o. Qed.
Lemma cquiet_ignore {A} (m : C A) : cquiet m -> cquiet (ignore m).
Proof. intros H c. apply H. Qed.
Lemma cquiet_write_allowlist root ps : cquiet (write_command_allowlist root ps).
Proof.
  apply cquiet_same. intros c. unfold write_command_allowlist. by destruct (normalize_patterns _ _ _).
Qed.
Lemma cquiet_write_denylist root ps : cquiet (write_command_denylist root ps).
Proof.
  apply cquiet_same. intros c. unfold write_command_denylist. by destruct (normalize_patterns _ _ _).
Qed.
End CoreQuiet.

Ltac cquiet_step :=
  match goal with
  | |- cquiet (cbind _ _) => apply cquiet_bind; [|intros ?]
  | |- cquiet (cguard _ _) => apply cquiet_guard
  | |- cquiet (ok_or _ _) => apply cquiet_ok_or
  | |- cquiet (ignore _) => apply cquiet_ignore
  | |- cquiet (write_command_allowlist _ _) => apply cquiet_write_allowlist
  | |- cquiet (write_command_denylist _ _) => apply cquiet_write_denylist
  | |- cquiet (lift (get_session _)) => apply cquiet_lift, quiet_get_session
  | |- cquiet (lift _) => apply cquiet_lift; quiet_auto
  | |- cquiet (cret _) => apply cquiet_same; intros ?; reflexivity
  | |- cquiet (cfail _) => apply cquiet_same; intros ?; reflexivity
  | |- cquiet (probe_mark _) => apply cquiet_same; intros ?; reflexivity
  | |- cquiet (probe_clear _) => apply cquiet_same; intros ?; reflexivity
  | |- cquiet (probe_is_cancelled _) => apply cquiet_same; intros ?; reflexivity
  | |- cquiet (load_command_allowlist _) => apply cquiet_same; intros ?; reflexivity
  | |- cquiet (load_command_denylist _) => apply cquiet_same; intros ?; reflexivity
  | |- cquiet (if ?b then _ else _) => destruct b
  | |- cquiet (match ?x with _ => _ end) => destruct x
  | |- cquiet (let _ := _ in _) => cbv zeta
  | |- cquiet core_now => unfold core_now
  | |- cquiet (?f _ _ _ _ _) => unfold f; cbv zeta
  | |- cquiet (?f _ _ _ _) => unfold f; cbv zeta
  | |- cquiet (?f _ _ _) => unfold f; cbv zeta
  | |- cquiet (?f _ _) => unfold f; cbv zeta
  | |- cquiet (?f _) => unfold f; cbv zeta
  end.
Ltac cquiet_auto := repeat cquiet_step.

(** ** Effects on one session *)

Section Effects.
Context {E : Env}.

(** The list of statuses with that of [sid] replaced. *)
Definition set_st (sid : uuid) (x : SessionStatus) (l : list (uuid * SessionStatus)) :=
  map (fun p => if (fst p =? sid)%N then (fst p, x) else p) l.

(** [m] leaves all statuses alone, or moves [sid] to [x] from a status that
    satisfies [P]. *)
Definition moves {A} (sid : uuid) (x : SessionStatus) (P : SessionStatus -> Prop) (m : C A) : Prop :=
  forall c, let d := db (store c) in let d' := db (store (snd (m c))) in
  statuses d' = statuses d
  \/ (statuses d' = set_st sid x (statuses d) /\ forall y, status_of sid d = Some y -> P y).

Lemma moves_quiet {A} sid x P (m : C A) : cquiet m -> moves sid x P m.
Proof. intros H c. left. apply H. Qed.

Lemma moves_after {A B} sid x P (m : C A) (f : A -> C B) :
  cquiet m -> (forall a, moves sid x P (f a)) -> moves sid x P (cbind m f).
Proof.
  intros Hm Hf c. specialize (Hm c). unfold cbind.
  destruct (m c) as [[a|e] c']; simpl in *; [|by left].
  destruct (Hf a c') as [H|[H HP]]; [left; congruence|right].
  rewrite H, Hm. split; [done|]. intros y Hy. apply HP.
  rewrite <- Hy. by apply status_of_statuses.
Qed.

Lemma moves_before {A B} sid x P (m : C A) (f : A -> C B) :
  moves sid x P m -> (forall a, cquiet (f a)) -> moves sid x P (cbind m f).
Proof.
  intros Hm Hf c. specialize (Hm c). unfold cbind.
  destruct (m c) as [[a|e] c']; simpl in *; [|done]. by rewrite (Hf a c').
Qed.

Lemma moves_guard {B} sid x P b e (f : unit -> C B) :
  (b = true -> moves sid x P (f tt)) -> moves sid x P (cbind (cguard b e) f).
Proof. intros Hf c. destruct b; [by apply Hf|by left]. Qed.

Lemma moves_fail {A B} sid x P e (f : A -> C B) : moves sid x P (cbind (cfail e) f).
Proof. intros c. by left. Qed.

(** What [fill_session_title] returns and changes. *)
Lemma fill_title_effect s st :
  exists s' st', fill_session_title s st = (Ok s', st')
    /\ s_id s' = s_id s /\ s_status s' = s_status s
    /\ db st' = set_sessions (sessions (db st')) (db st)
    /\ statuses (db st') = statuses (db st).
Proof.
  assert (quiet (fill_session_title s)) as Hq by quiet_auto. specialize (Hq st).
  unfold fill_session_title, first_user_message_content, bind, query, exec in *.
  assert (forall d, d = set_sessions (sessions d) d) as Hd by by intros [].
  repeat (case_match; simplify_eq/=; try (eexists _, _; split; [reflexivity|]; repeat split; by auto)).
Qed.

Lemma session_effect sid c :
  match status_of sid (db (store c)) with
  | Some x => exists s c', session sid c = (Ok s, c') /\ s_id s = sid /\ s_status s = x
      /\ db (store c') = set_sessions (sessions (db (store c'))) (db (store c))
      /\ statuses (db (store c')) = statuses (db (store c))
      /\ cancel_probe c' = cancel_probe c /\ list_files c' = list_files c
  | None => session sid c = (Err (not_found sid), c)
  end.
Proof.
  unfold status_of, session, get_session, cbind, lift, bind, query.
  destruct (find_session sid (db (store c))) as [s|] eqn:Hf; simpl.
  - apply find_some in Hf as [_ Hid]. apply N.eqb_eq in Hid.
    destruct (fill_title_effect s (store c)) as (s' & st' & He & Hi & Hs & Hd & Hq).
    rewrite He. simpl. eexists _, _. split; [reflexivity|]. simpl. repeat split; congruence.
  - by destruct c.
Qed.

Lemma moves_session {B} sid x P (f : Session -> C B) :
  (forall s, moves sid x (fun y => y = s_status s -> P y) (f s)) ->
  moves sid x P (cbind (session sid) f).
Proof.
  intros Hf c. pose proof (session_effect sid c) as H. unfold cbind.
  destruct (status_of sid (db (store c))) as [y|] eqn:Hy.
  - destruct H as (s & c' & -> & _ & Hs & _ & Hq & _).
    destruct (Hf s c') as [H|[H HP]]; [left; congruence|right].
    rewrite H, Hq. split; [done|]. intros z [= <-]. apply HP; [|done].
    rewrite <- Hy. by apply status_of_statuses.
  - rewrite H. by left.
Qed.

Lemma set_status_statuses sid x c :
  statuses (db (store (snd (set_status sid x c)))) = set_st sid x (statuses (db (store c))).
Proof.
  assert (forall d t, statuses (update_session sid (with_status x t) d) = set_st sid x (statuses d))
    as Hu.
  { intros d t. unfold update_session, statuses, set_st, update_where. simpl. rewrite !map_map.
    apply map_ext. intros s. simpl. by destruct (s_id s =? sid)%N. }
  unfold set_status, set_session_status, change_session, cbind, lift, bind, query, exec. simpl.
  match goal with |- context [if ?b then _ else _] => destruct b end.
  - match goal with |- context [get_session sid ?st] =>
      pose proof (quiet_get_session sid st) as Hq; destruct (get_session sid st) as [[o|e] st'] end;
      simpl in *; [destruct o; simpl|]; by rewrite Hq.
  - simpl. apply Hu.
Qed.

Lemma moves_set_status sid x (P : SessionStatus -> Prop) :
  (forall y, P y) -> moves sid x P (set_status sid x).
Proof. intros HP c. right. split; [apply set_status_statuses|auto]. Qed.
End Effects.

(** ** The transition system *)

Section Transitions.
Context {E : Env}.

(** The moves of a session that a call may make. *)
Definition transition (k : CoreCall) (sid : uuid) (x y : SessionStatus) : Prop :=
  match k with
  | CoreStartChat p =>
      cp_session_id p = Some sid /\ y = Running /\ x <> Running /\ x <> NeedUser
  | CoreContinueChat i _ => i = sid /\ y = Running /\ x <> Running /\ x <> NeedUser
  | CoreCancelSession i _ => i = sid /\ y = Cancelled /\ (x = Running \/ x = NeedUser)
  | CorePauseChat i => i = sid /\ y = NeedUser
  | CoreResumeChat i => i = sid /\ y = Running /\ x <> Cancelled
  | CoreCompleteChat i _ => i = sid /\ y = Done /\ x <> Cancelled
  | CoreFailChat i => i = sid /\ y = Failed /\ x <> Cancelled /\ x <> Done
  | CoreReconcile => x = Running /\ y = Cancelled
  | _ => False
  end.

Lemma status_set_st sid sid' x d d' :
  statuses d' = set_st sid x (statuses d) ->
  status_of sid' d' = if (sid' =? sid)%N then option_map (fun _ => x) (status_of sid' d)
                      else status_of sid' d.
Proof.
  unfold statuses, status_of, find_session, set_st. generalize (sessions d) (sessions d').
  induction l as [|s l IH]; intros [|s' l']; simpl; try done.
  - by destruct (_ =? _)%N.
  - intros [= Hi Hl]. destruct (N.eqb_spec (s_id s) sid) as [Hs|Hs].
    + injection Hi as Hi Hst. rewrite Hi. destruct (N.eqb_spec (s_id s) sid') as [Hs'|]; [|by apply IH].
      rewrite (proj2 (N.eqb_eq sid' sid)) by congruence. simpl. by rewrite Hst.
    + injection Hi as Hi Hst. rewrite Hi. destruct (N.eqb_spec (s_id s) sid') as [Hs'|]; [|by apply IH].
      rewrite (proj2 (N.eqb_neq sid' sid)) by congruence. simpl. by rewrite Hst.
Qed.

(** A move of one session, seen from any session. *)
Lemma moves_status {A} sid x P (m : C A) c sid' a b :
  moves sid x P m ->
  status_of sid' (db (store c)) = Some a ->
  status_of sid' (db (store (snd (m c)))) = Some b ->
  a = b \/ (sid' = sid /\ b = x /\ P a).
Proof.
  intros Hm Ha Hb. destruct (Hm c) as [H|[H HP]].
  - rewrite (status_of_statuses _ _ _ H) in Hb. left. congruence.
  - rewrite (status_set_st sid sid' x _ _ H) in Hb.
    destruct (N.eqb_spec sid' sid) as [->|]; [|left; congruence].
    rewrite Ha in Hb. simpl in Hb. right. split; [done|]. split; [congruence|auto].
Qed.

Lemma continue_chat_moves sid p :
  moves sid Running (fun x => x <> Running /\ x <> NeedUser) (continue_chat sid p).
Proof.
  unfold continue_chat. apply moves_guard; intros _. apply moves_session. intros s.
  apply moves_guard; intros _.
  assert (forall P : SessionStatus -> Prop, (forall y, P y) -> moves sid Running P
    (match chosen_model (cp_model p) with
     | Some model => if model =s s_model s then cret tt
         else (do! r := lift (set_session_model sid model) in
               ok_or (CoreInvalidInput $"session not found") r ;;! cret tt)
     | None => cret tt end ;;!
     match cp_mode p with
     | Some mode => if bool_decide (mode = s_mode s) then cret tt
         else (do! r := lift (set_session_mode sid mode) in
               ok_or (CoreInvalidInput $"session not found") r ;;! cret tt)
     | None => cret tt end ;;!
     probe_clear sid ;;! lift (append_message sid User (trim (cp_message p))) ;;!
     set_status sid Running)) as Hrest.
  { intros P HP. do 4 (apply moves_after; [cquiet_auto|intros ?]). by apply moves_set_status. }
  destruct (s_status s) eqn:Hs; try apply moves_fail;
    (apply moves_after; [cquiet_auto|intros ?]); apply Hrest; intros y ->; done.
Qed.

Lemma cancel_session_moves sid partial :
  moves sid Cancelled (fun x => x = Running \/ x = NeedUser) (cancel_session sid partial).
Proof.
  unfold cancel_session. apply moves_session. intros s. apply moves_guard. intros Hs.
  do 3 (apply moves_after; [cquiet_auto|intros ?]). apply moves_set_status. intros y ->.
  apply orb_true_iff in Hs as [Hs|Hs]; apply bool_decide_eq_true in Hs; auto.
Qed.

Lemma resume_chat_moves sid : moves sid Running (fun x => x <> Cancelled) (resume_chat sid).
Proof.
  unfold resume_chat. apply moves_session. intros s. apply moves_guard. intros Hs.
  apply moves_set_status. intros y ->. by apply negb_true_iff, bool_decide_eq_false in Hs.
Qed.

Lemma complete_chat_moves sid t : moves sid Done (fun x => x <> Cancelled) (complete_chat sid t).
Proof.
  unfold complete_chat. apply moves_session. intros s.
  destruct (bool_decide (s_status s = Cancelled)) eqn:Hs; [apply moves_quiet; cquiet_auto|].
  apply moves_after; [cquiet_auto|intros ?]. apply moves_before; [|intros ?; cquiet_auto].
  apply moves_set_status. intros y ->. by apply bool_decide_eq_false in Hs.
Qed.

Lemma fail_chat_moves sid :
  moves sid Failed (fun x => x <> Cancelled /\ x <> Done) (fail_chat sid).
Proof.
  unfold fail_chat. apply moves_session. intros s.
  destruct (_ || _) eqn:Hs; [apply moves_quiet; cquiet_auto|].
  apply moves_set_status. intros y ->. apply orb_false_iff in Hs as [H1 H2].
  split; by eapply bool_decide_eq_false.
Qed.

(** *** Deletion *)

(** A session that is still there has the status it had. *)
Definition shrinks {A} (m : M A) : Prop :=
  forall st sid y, status_of sid (db (snd (m st))) = Some y -> status_of sid (db st) = Some y.

Lemma shrinks_quiet {A} (m : M A) : quiet m -> shrinks m.
Proof. intros H st sid y. by rewrite (status_of_statuses sid _ _ (H st)). Qed.
Lemma shrinks_bind {A B} (m : M A) (f : A -> M B) :
  shrinks m -> (forall a, shrinks (f a)) -> shrinks (bind m f).
Proof.
  intros Hm Hf st sid y. specialize (Hm st sid y). unfold bind.
  destruct (m st) as [[a|e] st']; simpl in *; [|done]. intros H. by apply Hm, (Hf a).
Qed.
Lemma shrinks_transaction {A} (m : M A) : shrinks m -> shrinks (transaction m).
Proof.
  intros Hm st sid y. specialize (Hm st sid y). unfold transaction.
  by destruct (m st) as [[a|e] st'].
Qed.
Lemma shrinks_for_each {A B} (l : list A) (f : A -> M B) :
  (forall a, shrinks (f a)) -> shrinks (for_each l f).
Proof.
  intros Hf. induction l as [|a l IH]; simpl; [by apply shrinks_quiet, quiet_same|].
  apply shrinks_bind; [done|]. intros b. apply shrinks_bind; [done|]. intros bs.
  by apply shrinks_quiet, quiet_same.
Qed.

Lemma shrinks_delete_row sid : shrinks (delete_session_row sid).
Proof.
  intros st sid' y. unfold delete_session_row, bind, query, guard. simpl.
  match goal with |- context [if ?b then _ else _] => destruct b end; simpl; [|done].
  unfold status_of, find_session, delete_where. simpl.
  induction (sessions (db st)) as [|s l IH]; simpl; [done|].
  destruct (N.eqb_spec (s_id s) sid) as [->|]; simpl.
  - intros H. pose proof (IH H) as H'. destruct (N.eqb_spec sid sid') as [->|]; [|done].
    exfalso. destruct (List.find _ (List.filter _ l)) as [s'|] eqn:Hf; [|done].
    apply find_some in Hf as [Hin Hid]. apply filter_In in Hin as [_ Hn].
    apply N.eqb_eq in Hid. by rewrite Hid, N.eqb_refl in Hn.
  - by destruct (s_id s =? sid')%N.
Qed.

Lemma shrinks_delete_session sid : shrinks (delete_session sid).
Proof.
  unfold delete_session. do 9 (apply shrinks_bind; [apply shrinks_quiet; quiet_auto|intros ?]).
  apply shrinks_bind; [apply shrinks_delete_row|intros ?]. apply shrinks_quiet. quiet_auto.
Qed.

Lemma shrinks_delete_workspace root : shrinks (delete_workspace_sessions root).
Proof.
  unfold delete_workspace_sessions. cbv zeta.
  apply shrinks_bind; [apply shrinks_quiet; quiet_auto|intros ?].
  apply shrinks_bind; [|intros []; apply shrinks_quiet; quiet_auto].
  apply shrinks_transaction. do 2 (apply shrinks_bind; [apply shrinks_quiet; quiet_auto|intros ?]).
  apply shrinks_bind; [|intros ?; apply shrinks_quiet; quiet_auto].
  apply shrinks_for_each. intros i. unfold delete_workspace_session.
  do 8 (apply shrinks_bind; [apply shrinks_quiet; quiet_auto|intros ?]).
  apply shrinks_bind; [apply shrinks_delete_row|intros ?]. apply shrinks_quiet. quiet_auto.
Qed.

(** *** A new session *)

(** Sessions that exist keep their status. *)
Definition extends {A} (m : C A) : Prop :=
  forall c sid x, status_of sid (db (store c)) = Some x ->
  status_of sid (db (store (snd (m c)))) = Some x.

Lemma extends_quiet {A} (m : C A) : cquiet m -> extends m.
Proof. intros H c sid x. by rewrite (status_of_statuses sid _ _ (H c)). Qed.

Lemma extends_bind {A B} (m : C A) (f : A -> C B) :
  extends m -> (forall a, extends (f a)) -> extends (cbind m f).
Proof.
  intros Hm Hf c sid x Hx. specialize (Hm c sid x Hx). unfold cbind.
  destruct (m c) as [[a|e] c']; simpl in *; [|done]. by apply Hf.
Qed.

Lemma wp_create_session p st :
  wp (create_session p)
    (fun s st' => has_session (s_id s) (db st) = false
       /\ db st' = set_sessions (sessions (db st) ++ [s]) (db st))
    (fun _ st' => db st' = db st) st.
Proof. unfold create_session. cbv zeta. repeat wp_step; try done. by rewrite negb_true_iff in *. Qed.

(** [create_session] followed by what is done with the new session only. *)
Lemma extends_create {B} p (f : Session -> C B) :
  (forall s c sid x, sid <> s_id s -> status_of sid (db (store c)) = Some x ->
     status_of sid (db (store (snd (f s c)))) = Some x) ->
  extends (cbind (lift (create_session p)) f).
Proof.
  intros Hf c sid x Hx. unfold cbind, lift.
  pose proof (wp_create_session p (store c)) as Hw. unfold wp in Hw.
  destruct (create_session p (store c)) as [[s|e] st']; simpl; [|by rewrite Hw].
  destruct Hw as [Hh Hd]. assert (sid <> s_id s) as Hne.
  { intros ->. unfold status_of in Hx.
    destruct (find_session _ _) as [s'|] eqn:Hf'; [|done].
    apply find_some in Hf' as [Hin Hid]. unfold has_session in Hh.
    rewrite exists_where_false in Hh. rewrite Hh in Hid by by apply list_elem_of_In. done. }
  apply Hf; [done|]. simpl. rewrite Hd. unfold status_of, find_session in *. simpl. clear Hd Hh.
  induction (sessions (db (store c))) as [|s' l IH]; simpl in *; [done|].
  destruct (s_id s' =? sid)%N; [done|by apply IH].
Qed.

Lemma start_new_extends p : cp_session_id p = None -> extends (start_chat p).
Proof.
  intros Hn. unfold start_chat. rewrite Hn.
  do 3 (apply extends_bind; [apply extends_quiet; cquiet_auto|intros ?]).
  apply extends_bind; [apply extends_quiet; cquiet_auto|intros ?].
  apply extends_create. intros s c sid x Hne Hx. unfold cbind at 1.
  assert (status_of sid (db (store (snd (set_status (s_id s) Running c)))) = Some x) as H.
  { rewrite (status_set_st _ sid _ _ _ (set_status_statuses (s_id s) Running c)).
    by rewrite (proj2 (N.eqb_neq sid (s_id s))). }
  destruct (set_status (s_id s) Running c) as [[s'|e] c']; simpl in *; [|done].
  revert H. apply extends_quiet. cquiet_auto.
Qed.

Lemma create_session_extends p : extends (core_create_session p).
Proof.
  apply extends_bind; [apply extends_quiet; cquiet_auto|intros model].
  intros c sid x Hx. set (q := mkCreateSession _ _ _ _ _).
  replace (snd (lift (create_session q) c)) with (snd (cbind (lift (create_session q)) cret c)).
  2:{ unfold cbind. by destruct (lift (create_session q) c) as [[a|e] c']. }
  apply (extends_create q cret); [done|done].
Qed.

Lemma reconcile_status sid x y c :
  status_of sid (db (store c)) = Some x ->
  status_of sid (db (store (snd (core_reconcile_interrupted_sessions c)))) = Some y ->
  x = y \/ (x = Running /\ y = Cancelled).
Proof.
  unfold status_of, find_session. simpl. generalize (utc_now (ticks (store c))). intros t.
  induction (sessions (db (store c))) as [|s l IH]; simpl; [done|].
  destruct (bool_decide (s_status s = Running)) eqn:Hr; simpl;
    destruct (s_id s =? sid)%N; simpl; try done; intros [= <-] [= <-]; [|by left].
  right. split; [by apply bool_decide_eq_true in Hr|done].
Qed.

Lemma lift_shrinks {A} (m : M A) c sid y :
  shrinks m -> status_of sid (db (store (snd (lift m c)))) = Some y ->
  status_of sid (db (store c)) = Some y.
Proof.
  intros Hm. specialize (Hm (store c) sid y). unfold lift. by destruct (m (store c)) as [[a|e] st].
Qed.

(** Calls that leave every status alone. *)
Definition core_silent (k : CoreCall) : bool :=
  match k with
  | CoreStartChat _ | CoreContinueChat _ _ | CoreReconcile | CoreDeleteSession _
  | CoreDeleteWorkspaceSessions _ | CoreCancelSession _ _ | CorePauseChat _ | CoreResumeChat _
  | CoreCompleteChat _ _ | CoreFailChat _ | CoreCreateSession _ => false
  | _ => true
  end.

Lemma core_silent_quiet k c :
  core_silent k = true -> statuses (db (store (run_core_call k c))) = statuses (db (store c)).
Proof.
  assert (forall A (m : C A), cquiet m ->
    statuses (db (store (snd (m c)))) = statuses (db (store c))) as Hm by auto.
  destruct k; intros Hs; try discriminate Hs; cbn [run_core_call]; apply Hm; cquiet_auto.
Qed.

Lemma core_transition k c sid x y :
  status_of sid (db (store c)) = Some x ->
  status_of sid (db (store (run_core_call k c))) = Some y ->
  x = y \/ transition k sid x y.
Proof.
  intros Hx Hy. destruct (core_silent k) eqn:Hk.
  { rewrite (status_of_statuses _ _ _ (core_silent_quiet k c Hk)) in Hy. left. congruence. }
  destruct k; try discriminate Hk; cbn [run_core_call transition] in *.
  - destruct (cp_session_id params) as [i|] eqn:Hi.
    + unfold start_chat in Hy. rewrite Hi in Hy.
      eapply moves_status in Hy as [?|(-> & -> & ?)]; [by left| |apply continue_chat_moves|done].
      by right.
    + rewrite (start_new_extends params Hi c sid x Hx) in Hy. left. congruence.
  - eapply moves_status in Hy as [?|(-> & -> & ?)]; [by left| |apply continue_chat_moves|done].
    by right.
  - eapply reconcile_status in Hy; [|done]. tauto.
  - left. unfold core_delete_session, cbind in Hy.
    pose proof (lift_shrinks (delete_session sid0) c sid y (shrinks_delete_session sid0)) as Hs.
    destruct (lift (delete_session sid0) c) as [[[|]|e] c']; simpl in *; specialize (Hs Hy); congruence.
  - left. unfold core_delete_workspace_sessions, validate_workspace_root, cguard, cbind in Hy.
    destruct (negb (is_empty (trim root))); cbn in Hy; [|congruence].
    change (status_of sid (db (store (snd (lift (delete_workspace_sessions root) c)))) = Some y) in Hy.
    apply lift_shrinks in Hy; [congruence|apply shrinks_delete_workspace].
  - eapply moves_status in Hy as [?|(-> & -> & ?)]; [by left| |apply cancel_session_moves|done].
    by right.
  - destruct (moves_status sid0 NeedUser (fun _ => True) (pause_chat sid0) c sid x y
      (moves_set_status _ _ _ (fun _ => I)) Hx Hy) as [?|(-> & -> & _)]; [by left|by right].
  - eapply moves_status in Hy as [?|(-> & -> & ?)]; [by left| |apply resume_chat_moves|done].
    by right.
  - eapply moves_status in Hy as [?|(-> & -> & ?)]; [by left| |apply complete_chat_moves|done].
    by right.
  - eapply moves_status in Hy as [?|(-> & -> & ?)]; [by left| |apply fail_chat_moves|done].
    by right.
  - rewrite (create_session_extends params c sid x Hx) in Hy. left. congruence.
Qed.

(** C13: For every public call of the core service and every session, the status after
    the call equals the status before it or is the result of the one transition that
    call is allowed to make; in particular only continuing or pausing moves a cancelled
    session, and only an active session can be cancelled. *)
Theorem session_status_transitions k c sid x y :
  status_of sid (db (store c)) = Some x ->
  status_of sid (db (store (run_core_call k c))) = Some y ->
  x = y \/ transition k sid x y.
Proof. apply core_transition. Qed.
End Transitions.

(** ** Example runs *)

Lemma session_status_transitions_witness :
  NeedUser = Cancelled \/ transition (CoreCancelSession 2 None) 2 NeedUser Cancelled.
Proof.
  apply (@session_status_transitions (counter_env true) (CoreCancelSession 2 None) demo_core 2).
  - vm_compute. reflexivity.
  - vm_compute. reflexivity.
Defined.

(** A pause that follows a cancellation puts the session back into approval:
    [pause_chat], unlike [resume_chat], does not look at the status. *)
Theorem pause_revives_cancelled :
  let c := @run_core_calls (counter_env true)
             [CoreCancelSession 2 None; CoreCreatePendingAction 2 demo_call; CorePauseChat 2]
             demo_core in
  status_of 2 (db (store (@run_core_call (counter_env true) (CoreCancelSession 2 None) demo_core)))
  = Some Cancelled
  /\ status_of 2 (db (store c)) = Some NeedUser
  /\ fst (@is_session_cancelled (counter_env true) 2 c) = Ok true.
Proof. vm_compute. repeat split. Qed.
