(* ===== verification/CoreFacts.v ===== *)
(** * Behaviour of the core service

    Cancellation of a session and the decision of an approval. *)

From S2P Require Import Prelude Protocol Policy PolicyFacts Sql Store StoreSteps StoreInv StoreFacts.
From S2P Require Import Core CoreCalls CoreStatus.

#[local] Arguments has_session : simpl never.
#[local] Arguments exists_where : simpl never.

Section CoreFacts.
Context {E : Env}.

(** ** Effects *)

Lemma set_session_status_effect sid x st :
  is_Some (status_of sid (db st)) ->
  exists s st', set_session_status sid x st = (Ok (Some s), st')
    /\ s_id s = sid /\ s_status s = x
    /\ db st' = set_sessions (sessions (db st')) (db st)
    /\ statuses (db st') = set_st sid x (statuses (db st)).
Proof.
  intros [y Hy]. unfold set_session_status, change_session, bind at 1. simpl.
  unfold bind at 1, query at 1. simpl. unfold bind at 1, exec at 1.
  unfold status_of in Hy. destruct (find_session sid (db st)) as [s|] eqn:Hf; [|done].
  assert (has_session sid (db st) = true) as ->.
  { apply find_some in Hf as [Hin Hid]. apply exists_where_true. exists s.
    by rewrite list_elem_of_In. }
  set (st1 := with_db _ _).
  assert (find_session sid (db st1) = Some (with_status x (utc_now (ticks st)) s)) as Hf1.
  { unfold find_session. simpl.
    apply find_some in Hf as Hs. destruct Hs as [_ Hid].
    revert Hf. unfold find_session, update_where. induction (sessions (db st)) as [|r l IH]; simpl; [done|].
    destruct (s_id r =? sid)%N eqn:Hr; simpl; rewrite Hr; [by intros [= ->]|by apply IH]. }
  unfold get_session, bind, query. rewrite Hf1.
  destruct (fill_title_effect (with_status x (utc_now (ticks st)) s) st1)
    as (s' & st' & He & Hi & Hs & Hd & Hq).
  rewrite He. exists s', st'. split; [done|].
  apply find_some in Hf as [_ Hid]. apply N.eqb_eq in Hid.
  split; [simpl in *; congruence|]. split; [done|]. split; [rewrite Hd at 1; reflexivity|].
  rewrite Hq. unfold st1, with_db, update_session, statuses, set_st. simpl.
  unfold update_where. rewrite !map_map.
  apply map_ext. intros r. simpl. by destruct (s_id r =? sid)%N.
Qed.

Lemma set_status_effect sid x c :
  is_Some (status_of sid (db (store c))) ->
  exists s c', set_status sid x c = (Ok s, c')
    /\ s_id s = sid /\ s_status s = x
    /\ db (store c') = set_sessions (sessions (db (store c'))) (db (store c))
    /\ status_of sid (db (store c')) = Some x
    /\ cancel_probe c' = cancel_probe c.
Proof.
  intros Hsome. destruct (set_session_status_effect sid x (store c) Hsome)
    as (s & st' & He & Hi & Hs & Hd & Hq).
  unfold set_status, cbind, lift. rewrite He. eexists _, _. split; [reflexivity|]. simpl.
  repeat (split; [done|]). split; [|done].
  rewrite (status_set_st _ sid _ _ _ Hq), N.eqb_refl. by destruct Hsome as [y ->].
Qed.

(** ** Cancellation *)

Definition pending_of (sid : uuid) (a : PendingAction) : bool :=
  (pa_session_id a =? sid)%N && bool_decide (pa_status a = Pending).

Lemma reject_effect sid st :
  exists st', reject_pending_actions sid st = (Ok tt, st')
    /\ exists_where (pending_of sid) (pending_actions (db st')) = false
    /\ statuses (db st') = statuses (db st).
Proof.
  eexists. split; [reflexivity|]. simpl. split; [|done].
  apply exists_where_false. intros a Ha. apply elem_of_update_where in Ha as (b & _ & ->).
  fold (pending_of sid b). destruct (pending_of sid b) eqn:Hb; [|done].
  unfold pending_of. simpl. by rewrite andb_false_r.
Qed.

(** The partial answer of the assistant is kept unless it is the last message. *)
Definition keep_partial (sid : uuid) (partial : option str) : C unit :=
  match chosen_model partial with
  | Some content =>
    do! msgs := lift (list_messages sid) in
    if match last msgs with
       | Some m => bool_decide (m_role m = Assistant) && (m_content m =s content)
       | None => false
       end
    then cret tt
    else ignore (record_assistant_message sid content)
  | None => cret tt
  end.

Lemma keep_partial_ok sid partial c :
  foreign_keys = true -> readable (store c) ->
  exists c', keep_partial sid partial c = (Ok tt, c')
    /\ statuses (db (store c')) = statuses (db (store c)).
Proof.
  intros Hfk Hr. assert (cquiet (keep_partial sid partial)) as Hq by cquiet_auto.
  specialize (Hq c). unfold keep_partial in *. destruct (chosen_model partial) as [content|];
    [|by eexists].
  unfold cbind, lift in *.
  destruct (list_messages_ok Hfk sid (store c) Hr) as (msgs & st' & Hl & _). rewrite Hl in *.
  destruct (match last msgs with Some _ => _ | None => _ end); by eexists.
Qed.

Lemma core_readable ks dir :
  foreign_keys = true -> readable (store (run_core_calls ks (new_core dir))).
Proof.
  intros Hfk. destruct (core_reachable ks (new_core dir)) as [cs ->]. by apply reachable_readable.
Qed.

Lemma readable_session sid c :
  foreign_keys = true -> readable (store c) -> readable (store (snd (session sid c))).
Proof.
  intros Hfk Hr. destruct (follows_session sid c) as [cs ->].
  eapply readable_stmts; [done|apply run_calls_stmts|done].
Qed.

Lemma cancel_session_ok sid partial c x :
  foreign_keys = true -> readable (store c) ->
  status_of sid (db (store c)) = Some x -> x = Running \/ x = NeedUser ->
  exists s c', cancel_session sid partial c = (Ok s, c')
    /\ s_status s = Cancelled
    /\ status_of sid (db (store c')) = Some Cancelled
    /\ exists_where (pending_of sid) (pending_actions (db (store c'))) = false
    /\ sid ∈ cancel_probe c'.
Proof.
  intros Hfk Hr Hx Hact. pose proof (session_effect sid c) as Hse. rewrite Hx in Hse.
  destruct Hse as (s & c1 & Hs & _ & Hst & _ & Hq & _).
  unfold cancel_session. unfold cbind at 1. rewrite Hs.
  assert (bool_decide (s_status s = Running) || bool_decide (s_status s = NeedUser) = true) as ->.
  { rewrite Hst. by destruct Hact as [->| ->]. }
  unfold cbind at 1. simpl. fold (keep_partial sid partial).
  destruct (keep_partial_ok sid partial c1 Hfk) as (c2 & Hk & Hq2).
  { pose proof (readable_session sid c Hfk Hr) as H. by rewrite Hs in H. }
  unfold cbind at 1. rewrite Hk. unfold cbind at 1, lift at 1.
  destruct (reject_effect sid (store c2)) as (st3 & Hre & Hpend & Hq3). rewrite Hre.
  unfold cbind at 1. simpl.
  match goal with |- context [set_status sid Cancelled ?c4] =>
    destruct (set_status_effect sid Cancelled c4) as (s' & c5 & He & _ & Hsc & Hd & Hso & Hp) end.
  { exists x. simpl. rewrite <- Hx. apply status_of_statuses. congruence. }
  rewrite He. exists s', c5. repeat (split; [done|]). rewrite Hd, Hp. simpl.
  split; [done|]. set_solver.
Qed.


(** ** Approval *)

Definition open_action (aid : uuid) (b : PendingAction) : bool :=
  (pa_id b =? aid)%N && bool_decide (pa_status b = Pending).

Lemma resolve_unfold aid x st :
  resolve_pending_action aid x st
  = let st' := mkStore (set_pending_actions
      (update_where (open_action aid) (with_action_status x (utc_now (ticks st)))
         (pending_actions (db st))) (db st)) (attachment_dir st) (files st) (S (ticks st)) in
    (Ok (if exists_where (open_action aid) (pending_actions (db st))
         then find_pending_action aid (db st') else None), st').
Proof.
  unfold resolve_pending_action, bind, query, exec. simpl. fold (open_action aid).
  by destruct (exists_where (open_action aid) _).
Qed.

Lemma resolve_pending_effect aid x a st :
  db_keys (db st) -> a ∈ pending_actions (db st) -> pa_id a = aid -> pa_status a = Pending ->
  let a' := with_action_status x (utc_now (ticks st)) a in
  exists st', resolve_pending_action aid x st = (Ok (Some a'), st')
    /\ sessions (db st') = sessions (db st) /\ a' ∈ pending_actions (db st').
Proof.
  intros Hk Ha Hid Hp a'. assert (open_action aid a = true) as Ho.
  { unfold open_action. by rewrite Hid, N.eqb_refl, bool_decide_eq_true_2. }
  rewrite resolve_unfold. cbv zeta.
  rewrite (proj2 (exists_where_true (open_action aid) _)) by by exists a.
  assert (a' ∈ update_where (open_action aid) (with_action_status x (utc_now (ticks st)))
            (pending_actions (db st))) as Hin.
  { apply elem_of_update_where. exists a. by rewrite Ho. }
  match goal with |- exists _, (_, ?s) = _ /\ _ => exists s end.
  split; [|split; [reflexivity|exact Hin]].
  do 2 f_equal. rewrite <- Hid in Hin |- *. apply (find_id_row pa_id _ a'); [|exact Hin].
  simpl. rewrite update_where_key by done. apply k_actions, Hk.
Qed.

Lemma resolve_decided_effect aid x a st :
  db_keys (db st) -> a ∈ pending_actions (db st) -> pa_id a = aid -> pa_status a <> Pending ->
  fst (resolve_pending_action aid x st) = Ok None.
Proof.
  intros Hk Ha Hid Hp. rewrite resolve_unfold. simpl.
  rewrite (proj2 (exists_where_false (open_action aid) _)); [done|]. intros b Hb.
  unfold open_action. destruct (N.eqb_spec (pa_id b) aid) as [Hb'|]; [|done].
  rewrite (NoDup_map_eq pa_id _ b a (k_actions _ Hk) Hb Ha) by congruence.
  by apply bool_decide_eq_false_2.
Qed.

(** The checks of the core before the store decides. *)
Lemma core_resolve_checked sid a approved c :
  db_keys (db (store c)) -> status_of sid (db (store c)) = Some NeedUser ->
  a ∈ pending_actions (db (store c)) -> pa_session_id a = sid ->
  exists c1, db_keys (db (store c1)) /\ statuses (db (store c1)) = statuses (db (store c))
    /\ pending_actions (db (store c1)) = pending_actions (db (store c))
    /\ core_resolve_pending_action sid (pa_id a) approved c
       = (do! r := lift (resolve_pending_action (pa_id a) (if approved then Approved else Rejected)) in
          ok_or (CoreInvalidInput $"pending action has already been resolved") r) c1.
Proof.
  intros Hk Hn Ha Hs. pose proof (session_effect sid c) as Hse. rewrite Hn in Hse.
  destruct Hse as (s & c1 & He & _ & Hst & Hd & Hq & _). exists c1.
  assert (pending_actions (db (store c1)) = pending_actions (db (store c))) as Hpa by by rewrite Hd.
  assert (db_keys (db (store c1))) as Hk1.
  { pose proof (follows_session sid c) as [cs Hcs]. rewrite He in Hcs. simpl in Hcs. rewrite Hcs.
    eapply (stmt_invariant (fun st => db_keys (db st))); [|apply run_calls_stmts|exact Hk].
    intros x y [_ _ H]. by eapply dstep_keys. }
  repeat (split; [done|]). unfold core_resolve_pending_action, cbind at 1. rewrite He, Hst.
  assert (find_pending_action (pa_id a) (db (store c1)) = Some a) as Hfa.
  { apply (find_id_row pa_id); [apply k_actions, Hk1|by rewrite Hpa]. }
  rewrite bool_decide_eq_true_2 by done. unfold cbind at 1. cbn [cguard cret].
  unfold cbind at 1, lift at 1, get_pending_action, query. rewrite Hfa.
  unfold cbind at 1. cbn [ok_or cret]. unfold cbind at 1. rewrite Hs, N.eqb_refl.
  cbn [cguard cret]. by destruct c1.
Qed.

(** An action cannot be decided through a session that it does not belong to. *)
Lemma core_resolve_foreign sid a approved c :
  db_keys (db (store c)) -> a ∈ pending_actions (db (store c)) -> pa_session_id a <> sid ->
  exists e c', core_resolve_pending_action sid (pa_id a) approved c = (Err e, c')
    /\ pending_actions (db (store c')) = pending_actions (db (store c)).
Proof.
  intros Hk Ha Hs. unfold core_resolve_pending_action.
  pose proof (session_effect sid c) as Hse. destruct (status_of sid (db (store c))) as [x|];
    [|unfold cbind at 1; rewrite Hse; by eexists _, _].
  destruct Hse as (s & c1 & He & _ & _ & Hd & _). unfold cbind at 1. rewrite He.
  assert (pending_actions (db (store c1)) = pending_actions (db (store c))) as Hpa by by rewrite Hd.
  destruct (bool_decide (s_status s = NeedUser)); [|by eexists _, _].
  unfold cbind at 1. cbn [cguard cret].
  assert (find_pending_action (pa_id a) (db (store c1)) = Some a) as Hfa.
  { apply (find_id_row pa_id); rewrite Hpa; [apply k_actions, Hk|done]. }
  unfold cbind at 1, lift at 1, get_pending_action, query. rewrite Hfa.
  unfold cbind at 1. cbn [ok_or cret]. unfold cbind at 1.
  rewrite (proj2 (N.eqb_neq _ _) Hs). by eexists _, _.
Qed.

(** C16: While a session waits for approval, resolving one of its pending actions
    succeeds with the decision that was given and the tool call that was asked for,
    every further attempt to resolve that action is refused, and resolving it through
    another session is refused and decides nothing. *)
Theorem approval_decided_once ks dir sid a approved :
  status_of sid (db (store (run_core_calls ks (new_core dir)))) = Some NeedUser ->
  a ∈ pending_actions (db (store (run_core_calls ks (new_core dir)))) ->
  pa_session_id a = sid -> pa_status a = Pending ->
  exists a' c',
    core_resolve_pending_action sid (pa_id a) approved (run_core_calls ks (new_core dir)) = (Ok a', c')
    /\ pa_id a' = pa_id a /\ pa_tool_call a' = pa_tool_call a
    /\ pa_status a' = (if approved then Approved else Rejected)
    /\ (forall again, fst (core_resolve_pending_action sid (pa_id a) again c')
         = Err (CoreInvalidInput $"pending action has already been resolved"))
    /\ forall other, other <> sid -> exists e c'',
         core_resolve_pending_action other (pa_id a) approved (run_core_calls ks (new_core dir))
         = (Err e, c'')
         /\ pending_actions (db (store c''))
            = pending_actions (db (store (run_core_calls ks (new_core dir)))).
Proof.
  set (c := run_core_calls ks (new_core dir)). intros Hn Ha Hs Hp.
  assert (db_keys (db (store c))) as Hk.
  { unfold c. destruct (core_reachable ks (new_core dir)) as [cs ->]. apply reachable_keys. }
  destruct (core_resolve_checked sid a approved c) as (c1 & Hk1 & Hq1 & Hpa & ->); try done.
  destruct (resolve_pending_effect (pa_id a) (if approved then Approved else Rejected) a (store c1))
    as (st' & Hr & Hses & Hin); [done|by rewrite Hpa|done|done|].
  pose proof (runs_resolve_pending_action (pa_id a)
    (if approved then Approved else Rejected) (store c1)) as Hrun.
  unfold cbind, lift. rewrite Hr in *. eexists _, _. split; [reflexivity|].
  do 3 (split; [done|]).
  split; [|intros other Ho; apply core_resolve_foreign; congruence]. intros again. set (a' := with_action_status _ _ a) in *.
  destruct (core_resolve_checked sid a' again (with_store st' c1)) as (c2 & Hk2 & _ & Hpa2 & He); simpl.
  - eapply (stmt_invariant (fun st => db_keys (db st))); [|exact Hrun|exact Hk1].
    intros x y [_ _ H]. by eapply dstep_keys.
  - rewrite <- Hn. apply status_of_statuses. rewrite <- Hq1. unfold statuses. by rewrite Hses.
  - done.
  - done.
  - change (pa_id a) with (pa_id a'). rewrite He. unfold cbind, lift.
    pose proof (resolve_decided_effect (pa_id a') (if again then Approved else Rejected) a' (store c2))
      as Hdec. destruct (resolve_pending_action _ _ (store c2)) as [r st2]. simpl in Hdec.
    rewrite Hdec; [done|done|by rewrite Hpa2|done|]. simpl. by destruct approved.
Qed.
End CoreFacts.

(** ** Example runs *)


Definition demo_core_action : PendingAction := mkPendingAction 6 2 demo_call Pending 7 None.

Lemma approval_decided_once_witness :
  exists a' c',
    @core_resolve_pending_action (counter_env true) 2 (pa_id demo_core_action) true
      (@run_core_calls (counter_env true) demo_core_calls (new_core None)) = (Ok a', c')
    /\ pa_id a' = pa_id demo_core_action /\ pa_tool_call a' = pa_tool_call demo_core_action
    /\ pa_status a' = Approved
    /\ (forall again,
         fst (@core_resolve_pending_action (counter_env true) 2 (pa_id demo_core_action) again c')
         = Err (CoreInvalidInput $"pending action has already been resolved"))
    /\ forall other, other <> 2%N -> exists e c'',
         @core_resolve_pending_action (counter_env true) other (pa_id demo_core_action) true
           (@run_core_calls (counter_env true) demo_core_calls (new_core None)) = (Err e, c'')
         /\ pending_actions (db (store c''))
            = pending_actions (db (store
                (@run_core_calls (counter_env true) demo_core_calls (new_core None)))).
Proof.
  apply (@approval_decided_once (counter_env true) demo_core_calls None 2 demo_core_action true).
  - vm_compute. reflexivity.
  - vm_compute. left.
  - reflexivity.
  - reflexivity.
Defined.
