(* ===== verification/CoreText.v ===== *)
(** * Change summaries, titles and workspace configuration *)

From S2P Require Import Prelude Protocol Policy PolicyFacts Sql Store StoreSteps StoreInv StoreFacts.
From S2P Require Import StoreLife Core CoreCalls CoreStatus.

(** ** Counting changed lines *)

(** The number of times [l] is a line. *)
Definition occ (l : str) (ls : list str) : Z := Z.of_nat (length (List.filter (str_eqb l) ls)).

Lemma occ_cons l x ls : occ l (x :: ls) = ((if decide (x = l) then 1 else 0) + occ l ls)%Z.
Proof.
  unfold occ. simpl. destruct (decide (x = l)) as [->|Hx].
  - rewrite str_eqb_refl. simpl. lia.
  - by rewrite (proj2 (str_eqb_false l x)) by done.
Qed.

Definition get_count (m : gmap (list N) Z) (l : str) : Z := default 0%Z (m !! l).

Lemma bump_get delta m x l :
  get_count (bump delta m x) l = (get_count m l + (if decide (x = l) then delta else 0))%Z.
Proof.
  unfold get_count, bump. destruct (decide (x = l)) as [->|Hne].
  - by rewrite lookup_insert, decide_True.
  - rewrite lookup_insert_ne by done. lia.
Qed.

Lemma bumps_get delta ls m l :
  get_count (foldl (bump delta) m ls) l = (get_count m l + delta * occ l ls)%Z.
Proof.
  revert m. induction ls as [|x ls IH]; intros m; simpl; [unfold occ; simpl; lia|].
  rewrite IH, bump_get, occ_cons. destruct (decide (x = l)); lia.
Qed.

Lemma bumps_dom delta ls m l :
  is_Some (foldl (bump delta) m ls !! l) <-> is_Some (m !! l) \/ l ∈ ls.
Proof.
  revert m. induction ls as [|x ls IH]; intros m; simpl; [set_solver|].
  rewrite IH, elem_of_cons. unfold bump. destruct (decide (x = l)) as [->|Hne].
  - rewrite lookup_insert, decide_True by done. naive_solver.
  - rewrite lookup_insert_ne by done. naive_solver.
Qed.

Lemma line_counts_get o a l :
  get_count (line_counts o a) l = (occ l (lines a) - occ l (lines o))%Z.
Proof.
  unfold line_counts. rewrite !bumps_get. unfold get_count. rewrite lookup_empty. simpl. lia.
Qed.

Lemma line_counts_dom o a l :
  is_Some (line_counts o a !! l) <-> l ∈ lines o ++ lines a.
Proof.
  unfold line_counts. rewrite !bumps_dom, lookup_empty, elem_of_app.
  split; [intros [[[? ?]|]|]; tauto || done|tauto].
Qed.

(** The lines of both texts, each once. *)
Definition all_lines (o a : str) : list str := remove_dups (lines o ++ lines a).

Lemma line_counts_list o a :
  map snd (map_to_list (line_counts o a))
  ≡ₚ map (fun l => (occ l (lines a) - occ l (lines o))%Z) (all_lines o a).
Proof.
  assert (map fst (map_to_list (line_counts o a)) ≡ₚ all_lines o a) as Hk.
  { apply NoDup_Permutation; [apply NoDup_fst_map_to_list|apply NoDup_remove_dups|].
    intros l. unfold all_lines. rewrite elem_of_remove_dups, <- line_counts_dom.
    rewrite list_elem_of_fmap. split.
    - intros ([k d] & -> & Hd). apply elem_of_map_to_list in Hd. by exists d.
    - intros [d Hd]. exists (l, d). split; [done|]. by apply elem_of_map_to_list. }
  rewrite <- Hk, map_map.
  assert (forall kd, kd ∈ map_to_list (line_counts o a) ->
    snd kd = (occ (fst kd) (lines a) - occ (fst kd) (lines o))%Z) as Hd.
  { intros [k d] Hin. apply elem_of_map_to_list in Hin. simpl.
    rewrite <- line_counts_get. unfold get_count. by rewrite Hin. }
  clear Hk. revert Hd. generalize (map_to_list (line_counts o a)).
  induction l as [|kd l IH]; simpl; intros Hd; [done|].
  rewrite (Hd kd) by (apply elem_of_cons; by left). constructor. apply IH.
  intros kd' Hin. apply Hd, elem_of_cons. by right.
Qed.

Definition pos_sum (l : list Z) : Z := sumZ (map (fun d => Z.max d 0) l).

Lemma pos_sum_perm l l' : l ≡ₚ l' -> pos_sum l = pos_sum l'.
Proof. unfold pos_sum, sumZ. induction 1; simpl; lia. Qed.

Lemma added_sum l :
  foldr (fun d acc => if (0 <? d)%Z then (acc + d)%Z else acc) 0%Z l = pos_sum l.
Proof.
  unfold pos_sum, sumZ. induction l as [|d l IH]; simpl; [done|]. rewrite IH.
  destruct (Z.ltb_spec 0 d); lia.
Qed.

Lemma removed_sum l :
  foldr (fun d acc => if (d <? 0)%Z then (acc - d)%Z else acc) 0%Z l = pos_sum (map Z.opp l).
Proof.
  unfold pos_sum, sumZ. induction l as [|d l IH]; simpl; [done|]. rewrite IH.
  destruct (Z.ltb_spec d 0); lia.
Qed.

Lemma sum_occ (ls dom : list str) :
  NoDup dom -> (forall x, x ∈ ls -> x ∈ dom) ->
  sumZ (map (fun l => occ l ls) dom) = Z.of_nat (length ls).
Proof.
  intros Hd. induction ls as [|x ls IH]; intros Hin.
  - unfold occ, sumZ. simpl. clear. induction dom; simpl; lia.
  - assert (sumZ (map (fun l => occ l (x :: ls)) dom)
      = (sumZ (map (fun l => if decide (x = l) then 1 else 0)%Z dom)
         + sumZ (map (fun l => occ l ls) dom))%Z) as ->.
    { clear. unfold sumZ. induction dom as [|l dom IH]; [done|].
      cbn [map foldr]. rewrite occ_cons, IH. lia. }
    rewrite sum_indicator, IH; [simpl; lia|set_solver|done|apply Hin; set_solver].
Qed.

Lemma pos_sum_net (f g : str -> Z) dom :
  (pos_sum (map (fun l => f l - g l)%Z dom) - pos_sum (map (fun l => g l - f l)%Z dom)
   = sumZ (map f dom) - sumZ (map g dom))%Z.
Proof. unfold pos_sum, sumZ. induction dom as [|l dom IH]; simpl in *; lia. Qed.

(** The numbers of added and removed lines are those of the difference of the two
    texts as bags of lines, and their difference is the difference of the numbers of
    lines. *)
Theorem line_change_counts_spec o a :
  line_change_counts o a
  = (pos_sum (map (fun l => occ l (lines a) - occ l (lines o))%Z (all_lines o a)),
     pos_sum (map (fun l => occ l (lines o) - occ l (lines a))%Z (all_lines o a)))
  /\ (fst (line_change_counts o a) - snd (line_change_counts o a)
      = Z.of_nat (length (lines a)) - Z.of_nat (length (lines o)))%Z.
Proof.
  assert (line_change_counts o a
    = (pos_sum (map (fun l => occ l (lines a) - occ l (lines o))%Z (all_lines o a)),
       pos_sum (map (fun l => occ l (lines o) - occ l (lines a))%Z (all_lines o a)))) as H.
  { unfold line_change_counts. rewrite added_sum, removed_sum. f_equal.
    - apply pos_sum_perm, line_counts_list.
    - rewrite (pos_sum_perm _ _ (Permutation_map Z.opp (line_counts_list o a))), map_map.
      f_equal. apply map_ext. intros l. lia. }
  split; [exact H|]. rewrite H. cbn [fst snd]. rewrite pos_sum_net.
  unfold all_lines. rewrite !sum_occ; [done|apply NoDup_remove_dups| |apply NoDup_remove_dups|];
    intros x Hx; apply elem_of_remove_dups, elem_of_app; auto.
Qed.

(** ** The summary of a task *)

Lemma btree_get_insert {V} k k' (v : V) m :
  btree_get k (btree_insert k' v m) = if k =s k' then Some v else btree_get k m.
Proof.
  induction m as [|[k2 v2] m IH]; simpl; [done|].
  destruct (str_eqb k' k2) eqn:E.
  - apply str_eqb_true in E as <-. simpl. by destruct (k =s k').
  - destruct (str_ltb k' k2); simpl; [done|]. rewrite IH.
    destruct (k =s k2) eqn:E2; [|done]. apply str_eqb_true in E2 as <-.
    by rewrite str_eqb_sym, E.
Qed.

(** The entry of a path is the last point of the list with that path. *)
Lemma by_path_get path points :
  btree_get path (by_path points) = List.find (fun r => path =s rp_path r) (rev points).
Proof.
  induction points as [|r points IH] using rev_ind; [done|].
  unfold by_path in *. rewrite foldl_app, rev_app_distr. simpl. rewrite btree_get_insert, IH.
  done.
Qed.

(** The summary has one entry per path of the map. *)
Lemma file_changes_find path (m : list (list N * RestorePoint)) :
  List.find (fun f => path =s fc_path f) (map file_change m)
  = option_map (fun r => file_change (path, r)) (btree_get path m).
Proof.
  assert (forall k r, fc_path (file_change (k, r)) = k) as Hp.
  { intros k r. unfold file_change. by destruct (line_change_counts _ _). }
  induction m as [|[k r] m IH]; [done|]. cbn [map List.find btree_get]. rewrite Hp.
  destruct (path =s k) eqn:Hk; [|exact IH]. by apply str_eqb_true in Hk as ->.
Qed.

Section Summary.
Context {E : Env}.

Definition session_points (sid : uuid) (d : Db) : list RestorePoint :=
  select (fun r => (rp_session_id r =? sid)%N) (restore_points d).

Lemma restore_points_newest_first cs dir sid st :
  EnvOk E -> restore_points (db st) = restore_points (db (run_calls cs (new_store dir))) ->
  list_restore_points sid st
  = (Ok (rev (session_points sid (db (run_calls cs (new_store dir))))), st).
Proof.
  intros Hok Heq. pose proof (c_restore_points _ _ (reachable_chrono cs dir Hok)) as Hc.
  unfold list_restore_points, query, session_points. rewrite Heq.
  change restore_le with (fun a b => (rp_created_at a <=? rp_created_at b)%Z).
  by rewrite (order_by_chrono rp_created_at _ _ _ Hc).
Qed.

(** The summary of an existing session of a reachable service succeeds and has for
    each path the change of the first restore point of the session with that path (not
    of the latest), and no entry for other paths. *)
Theorem task_summary_first_change ks dir sid x :
  EnvOk E ->
  let c := run_core_calls ks (new_core dir) in
  status_of sid (db (store c)) = Some x ->
  exists ts c', task_summary sid c = (Ok ts, c')
    /\ forall path, List.find (fun f => path =s fc_path f) (ts_file_changes ts)
         = option_map (fun r => file_change (path, r))
             (List.find (fun r => path =s rp_path r) (session_points sid (db (store c)))).
Proof.
  intros Hok c Hx. pose proof (session_effect sid c) as Hse. rewrite Hx in Hse.
  destruct Hse as (s & c1 & He & _ & _ & Hd & _).
  destruct (core_reachable ks (new_core dir)) as [cs Hcs]. fold c in Hcs.
  unfold task_summary. unfold cbind at 1. rewrite He. unfold cbind at 1, lift at 1.
  rewrite (restore_points_newest_first cs dir sid (store c1) Hok)
    by (rewrite Hd; simpl; by rewrite Hcs).
  cbv zeta. eexists _, _. split; [reflexivity|]. intros path. cbn [ts_file_changes].
  rewrite file_changes_find, by_path_get, rev_involutive. by rewrite Hcs.
Qed.
End Summary.

(** ** Titles *)

Lemma split_whitespace_tokens s w :
  w ∈ split_whitespace s -> w <> [] /\ Forall (fun c => is_whitespace c = false) w.
Proof.
  unfold split_whitespace. intros Hw. apply list_elem_of_In, filter_In in Hw as [Hw Hne].
  split; [by destruct w|]. clear Hne. revert w Hw.
  induction s as [|c s IH]; simpl; intros w Hw; [by destruct Hw as [<-|[]]|].
  destruct (is_whitespace c) eqn:Hc.
  - destruct Hw as [<-|Hw]; [constructor|by apply IH].
  - destruct (split_on is_whitespace s) as [|w0 ws]; simpl in *.
    + destruct Hw as [<-|[]]. by repeat constructor.
    + destruct Hw as [<-|Hw]; [|apply IH; by right]. constructor; [done|]. apply IH. by left.
Qed.

Lemma join_elem c sep ls : c ∈ join sep ls -> c ∈ sep \/ exists w, w ∈ ls /\ c ∈ w.
Proof.
  induction ls as [|w ls IH]; [set_solver|]. destruct ls as [|w' ls].
  - simpl. intros Hc. right. exists w. set_solver.
  - change (join sep (w :: w' :: ls)) with (w ++ sep ++ join sep (w' :: ls)).
    rewrite !elem_of_app. intros [Hc|[Hc|Hc]]; [right; exists w; set_solver|by left|].
    destruct (IH Hc) as [?|(v & Hv & Hcv)]; [by left|]. right. exists v. set_solver.
Qed.

(** No character of a title is blank other than a space. *)
Definition title_ok (t : str) : Prop :=
  length t <= 48 /\ Forall (fun c => is_whitespace c = true -> c = 32%N) t.

Lemma collapse_title_ok line : title_ok (collapse_title line).
Proof.
  unfold collapse_title. set (t := join $" " (split_whitespace line)).
  assert (Forall (fun c => is_whitespace c = true -> c = 32%N) t) as Ht.
  { apply Forall_forall. intros c Hc Hw. apply join_elem in Hc as [Hc|(w & Hw' & Hc)].
    - change (lit " ") with [32%N] in Hc. by apply list_elem_of_singleton in Hc.
    - apply split_whitespace_tokens in Hw' as [_ Hf]. rewrite Forall_forall in Hf.
      by rewrite (Hf c Hc) in Hw. }
  destruct (Nat.leb_spec (length t) 48) as [Hle|Hgt]; [done|]. split.
  - rewrite length_app, length_take. cbn [length]. lia.
  - apply Forall_app. split; [by apply Forall_take|]. by repeat constructor.
Qed.

(** A title derived from a message has at most 48 characters and no blank other
    than single spaces between words. *)
Theorem derived_titles_short message :
  title_ok (title_from_message message) /\ title_ok (title_from_user_message message).
Proof. split; apply collapse_title_ok. Qed.

(** ** Workspace configuration *)

Section Config.
Context {E : Env}.

Lemma load_after_write root ps qs c :
  Forall (stable_pattern normalize_allowlist_pattern) ps ->
  Forall (stable_pattern normalize_denylist_pattern) qs ->
  let files := <[(root, COMMAND_DENYLIST_RELATIVE_PATH) := render_command_denylist_file qs]>
                 (<[(root, COMMAND_ALLOWLIST_RELATIVE_PATH) := render_command_allowlist_file ps]>
                    (list_files c)) in
  forall c', list_files c' = files ->
  load_command_allowlist root c' = (Ok ps, c') /\ load_command_denylist root c' = (Ok qs, c').
Proof.
  intros Hp Hq files c' Hc'. unfold load_command_allowlist, load_command_denylist.
  rewrite Hc'. unfold files.
  rewrite (lookup_insert_ne _ (root, COMMAND_DENYLIST_RELATIVE_PATH)) by by intros [= ?].
  rewrite !lookup_insert, !decide_True by done.
  by rewrite allowlist_file_roundtrip, denylist_file_roundtrip.
Qed.

Lemma lift_set_config row c :
  wc_command_allowlist row = [] -> wc_command_denylist row = [] ->
  exists c', lift (set_workspace_config row) c = (Ok row, c')
    /\ lift (get_workspace_config (wc_workspace_root row)) c' = (Ok (Some row), c')
    /\ list_files c' = list_files c.
Proof.
  intros Ha Hd. eexists. split; [reflexivity|]. split; [|reflexivity].
  unfold lift, get_workspace_config, query. cbn [db store with_store].
  pose proof (find_upsert_str wc_workspace_root (config_row row)
    (workspace_configs (db (store c))) (wc_workspace_root row)) as H.
  unfold upsert in H. cbn [config_row wc_workspace_root] in H. rewrite str_eqb_refl in H.
  unfold with_db, set_workspace_configs. cbn [db workspace_configs]. rewrite H.
  do 3 f_equal. unfold config_row. destruct row; simpl in *. by rewrite Ha, Hd.
Qed.

(** A workspace configuration that is set with valid fields and stable command
    patterns is read back unchanged, with the lists going through the list files. *)
Theorem workspace_config_roundtrip params ps qs allow deny c :
  trim (sc_workspace_root params) <> [] -> sc_provider params = $"openai" ->
  trim (sc_model params) <> [] ->
  sc_command_allowlist params = Some ps -> sc_command_denylist params = Some qs ->
  normalize_patterns normalize_allowlist_pattern [] ps = Ok allow ->
  normalize_patterns normalize_denylist_pattern [] qs = Ok deny ->
  Forall (stable_pattern normalize_allowlist_pattern) allow ->
  Forall (stable_pattern normalize_denylist_pattern) deny ->
  exists cfg c', core_set_workspace_config params c = (Ok cfg, c')
    /\ wc_mode cfg = sc_mode params /\ wc_model cfg = trim (sc_model params)
    /\ wc_command_allowlist cfg = allow /\ wc_command_denylist cfg = deny
    /\ fst (workspace_config (sc_workspace_root params) c') = Ok cfg.
Proof.
  intros Hroot Hprov Hmodel Hps Hqs Hna Hnd Hsa Hsd.
  set (root := sc_workspace_root params) in *.
  assert (forall c, validate_workspace_root root c = (Ok tt, c)) as Hv.
  { intros c0. unfold validate_workspace_root, cguard.
    destruct (is_empty (trim root)) eqn:He; [by destruct (trim root)|done]. }
  assert (is_empty (trim (sc_model params)) = false) as Hm by by destruct (trim (sc_model params)).
  unfold core_set_workspace_config. cbv zeta. fold root.
  unfold cbind at 1. rewrite Hv. rewrite Hprov, str_eqb_refl, Hm, Hps, Hqs.
  unfold write_command_allowlist, write_command_denylist. rewrite Hna, Hnd.
  do 4 (unfold cbind at 1; cbn [cguard cret write_text_utf8 negb]).
  do 2 (unfold cbind at 1; cbn [cret write_text_utf8]).
  unfold cbind at 1, core_now at 1, lift at 1. cbn [now store].
  set (row := mkWorkspaceConfig root (sc_mode params) _ (trim (sc_model params)) [] [] _).
  unfold cbind at 1. match goal with |- context [lift _ ?c1] => set (c1' := c1) end.
  destruct (lift_set_config row c1') as (c2 & Hset & Hget & Hfiles); [done|done|].
  rewrite Hset. eexists _, c2. split; [reflexivity|].
  do 4 (split; [reflexivity|]).
  destruct (load_after_write root allow deny c Hsa Hsd c2) as [Hla Hld]; [by rewrite Hfiles|].
  unfold workspace_config. unfold cbind at 1. rewrite Hv. unfold cbind at 1.
  change root with (wc_workspace_root row) at 1. rewrite Hget. unfold cbind at 1. cbn [cret]. unfold cbind at 1. rewrite Hla.
  unfold cbind at 1. by rewrite Hld.
Qed.
End Config.

(** ** Example runs *)

(** Two changes of one file: the second empties it, the summary shows the first. *)
Definition edit_calls : list CoreCall :=
  demo_core_calls
  ++ [CoreCreateRestorePoint 2 $"a.rs" (Some $"old") $"new";
      CoreCreateRestorePoint 2 $"a.rs" (Some $"new") []].

Lemma task_summary_first_change_witness :
  let c := @run_core_calls (counter_env true) edit_calls (new_core None) in
  exists ts c', @task_summary (counter_env true) 2 c = (Ok ts, c')
    /\ forall path, List.find (fun f => path =s fc_path f) (ts_file_changes ts)
         = option_map (fun r => file_change (path, r))
             (List.find (fun r => path =s rp_path r) (session_points 2 (db (store c)))).
Proof.
  apply (@task_summary_first_change (counter_env true) edit_calls None 2 NeedUser).
  - apply counter_env_ok.
  - vm_compute. reflexivity.
Defined.

Definition demo_config : SetConfigParams :=
  mkSetConfig $"/work" AutoEdit $"openai" $" gpt " (Some [$"RG"; $"make:test"]) (Some [$"curl"]).

Lemma workspace_config_roundtrip_witness :
  exists cfg c', @core_set_workspace_config (counter_env true) demo_config (new_core None) = (Ok cfg, c')
    /\ wc_mode cfg = AutoEdit /\ wc_model cfg = trim $" gpt "
    /\ wc_command_allowlist cfg = [$"rg"; $"make:test"] /\ wc_command_denylist cfg = [$"curl"]
    /\ fst (@workspace_config (counter_env true) $"/work" c') = Ok cfg.
Proof.
  apply (@workspace_config_roundtrip (counter_env true) demo_config
           [$"RG"; $"make:test"] [$"curl"] [$"rg"; $"make:test"] [$"curl"] (new_core None)).
  - vm_compute. discriminate.
  - reflexivity.
  - vm_compute. discriminate.
  - reflexivity.
  - reflexivity.
  - vm_compute. reflexivity.
  - vm_compute. reflexivity.
  - repeat constructor; vm_compute; reflexivity.
  - repeat constructor; vm_compute; reflexivity.
Defined.
