(* ===== verification/Rotation.v ===== *)
(** * Weighted rotation (crates/xcoding-agent/src/lib.rs, ProviderKeyRotation)

    The smooth weighted round-robin that spreads requests over the accounts of a
    provider and over the providers of a model.  Every cycle of selections serves
    each entry exactly as often as its weight says. *)

From S2P Require Import Prelude Protocol.

(** [HashMap<String, i64>]; the loop only looks entries up by identifier. *)
Record ProviderKeyRotation := mkRotation { current_weights : gmap (list N) Z }.

Definition default_rotation : ProviderKeyRotation := mkRotation ∅.

Definition I64_MIN : Z := (- 2 ^ 63)%Z.

(** The loop over the entries: add the weight, keep the first maximum. *)
Fixpoint weighted_loop (entries : list (list N * Z)) (cw : gmap (list N) Z)
    (selected : option (list N)) (selected_weight : Z) : gmap (list N) Z * option (list N) :=
  match entries with
  | [] => (cw, selected)
  | (id, weight) :: rest =>
    let current := (default 0 (cw !! id) + weight)%Z in
    if (selected_weight <? current)%Z
    then weighted_loop rest (<[id := current]> cw) (Some id) current
    else weighted_loop rest (<[id := current]> cw) selected selected_weight
  end.

Definition total_weight (entries : list (list N * Z)) : Z := sumZ (map snd entries).

Definition select_weighted (entries : list (list N * Z)) (r : ProviderKeyRotation)
  : option (list N) * ProviderKeyRotation :=
  if (total_weight entries =? 0)%Z then (None, r)
  else
    let '(cw, selected) := weighted_loop entries (current_weights r) None I64_MIN in
    let cw := match selected with
              | Some id => alter (fun current => current - total_weight entries)%Z id cw
              | None => cw
              end in
    (selected, mkRotation (filter (fun p => p.1 ∈ map fst entries) cw)).

Definition usable_key (key : ProviderApiKey) : bool :=
  ak_enabled key && (0 <? ak_weight key)%Z && negb (is_empty (trim (ak_key key))).

Definition select_key (keys : list ProviderApiKey) (r : ProviderKeyRotation)
  : option ProviderApiKey * ProviderKeyRotation :=
  let usable := List.filter usable_key keys in
  let '(selected_id, r') := select_weighted (map (fun k => (ak_id k, ak_weight k)) usable) r in
  (match selected_id with
   | Some id => List.find (fun key => ak_id key =s id) usable
   | None => None
   end, r').

(** ** One selection *)

(** The current weight of an entry, before and after its weight is added. *)
Definition weight_of (cw : gmap (list N) Z) (id : list N) : Z := default 0%Z (cw !! id).
Definition raised (cw : gmap (list N) Z) (e : list N * Z) : Z := (weight_of cw (fst e) + snd e)%Z.

Lemma elem_of_ids (l : list (list N * Z)) e : e ∈ l -> fst e ∈ map fst l.
Proof. rewrite !list_elem_of_In. apply in_map. Qed.

Lemma weighted_loop_other l cw sel sw id :
  id ∉ map fst l -> fst (weighted_loop l cw sel sw) !! id = cw !! id.
Proof.
  revert cw sel sw. induction l as [|[i v] l IH]; intros cw sel sw Hid; simpl in *; [done|].
  destruct (_ <? _)%Z; rewrite IH by set_solver; apply lookup_insert_ne; set_solver.
Qed.

Lemma raised_insert i x (l : list (list N * Z)) cw e :
  i ∉ map fst l -> e ∈ l -> raised (<[i:=x]> cw) e = raised cw e.
Proof.
  intros Hi He. unfold raised, weight_of. rewrite lookup_insert_ne; [done|].
  intros ->. by apply Hi, elem_of_ids.
Qed.

Lemma weighted_loop_weights l cw sel sw e :
  NoDup (map fst l) -> e ∈ l ->
  fst (weighted_loop l cw sel sw) !! fst e = Some (raised cw e).
Proof.
  revert cw sel sw. induction l as [|[i v] l IH]; intros cw sel sw; simpl; [set_solver|].
  rewrite NoDup_cons, elem_of_cons. intros [Hi Hl] [->|He].
  - destruct (_ <? _)%Z; rewrite weighted_loop_other by done; by rewrite lookup_insert_eq.
  - destruct (_ <? _)%Z; rewrite IH by done; by rewrite (raised_insert i _ l).
Qed.

(** The loop keeps the first candidate above every earlier one. *)
Definition selects (cw : gmap (list N) Z) (l : list (list N * Z))
    (sel : option (list N)) (sw : Z) (sel' : option (list N)) : Prop :=
  (sel' = sel /\ forall e, e ∈ l -> (raised cw e <= sw)%Z)
  \/ exists e, e ∈ l /\ sel' = Some (fst e) /\ (sw < raised cw e)%Z
       /\ forall e', e' ∈ l -> (raised cw e' <= raised cw e)%Z.

Lemma weighted_loop_selects l cw sel sw :
  NoDup (map fst l) -> selects cw l sel sw (snd (weighted_loop l cw sel sw)).
Proof.
  revert cw sel sw. induction l as [|[i v] l IH]; intros cw sel sw; simpl.
  { intros _. left. split; [done|]. set_solver. }
  rewrite NoDup_cons. intros [Hi Hl]. set (c := (default 0 (cw !! i) + v)%Z).
  assert (raised cw (i, v) = c) as Hc by done.
  assert (forall sel0 sw0, selects cw l sel0 sw0 (snd (weighted_loop l (<[i:=c]> cw) sel0 sw0))) as Hs.
  { intros sel0 sw0. destruct (IH (<[i:=c]> cw) sel0 sw0 Hl) as [[-> H]|(e & He & -> & H & Hm)].
    - left. split; [done|]. intros e He. rewrite <- (raised_insert i c l) by done. by apply H.
    - right. exists e. rewrite <- (raised_insert i c l) by done. do 3 (split; [done|]).
      intros e' He'. rewrite <- (raised_insert i c l cw e') by done. by apply Hm. }
  destruct (Z.ltb_spec sw c); [destruct (Hs (Some i) c) as [[-> Hle]|(e & He & -> & H' & Hm)]
    |destruct (Hs sel sw) as [[-> Hle]|(e & He & -> & H' & Hm)]].
  - right. exists (i, v). split; [by left|]. rewrite Hc. do 2 (split; [done|]).
    intros e' [->|He']%elem_of_cons; [lia|by apply Hle].
  - right. exists e. split; [by right|]. split; [done|]. split; [lia|].
    intros e' [->|He']%elem_of_cons; [lia|by apply Hm].
  - left. split; [done|]. intros e [->|He]%elem_of_cons; [lia|by apply Hle].
  - right. exists e. split; [by right|]. do 2 (split; [done|]).
    intros e' [->|He']%elem_of_cons; [lia|by apply Hm].
Qed.

(** ** Runs of selections *)

Section Rotation.
Context (es : list (list N * Z)).
Context (Hids : NoDup (map fst es)) (Hpos : forall e, e ∈ es -> (0 < snd e)%Z) (Hne : es <> []).

Abbreviation W := (total_weight es).

(** Nobody is more than one full cycle behind, and nobody gains what no other loses. *)
Definition balanced (r : ProviderKeyRotation) : Prop :=
  (forall e, e ∈ es -> (- W < weight_of (current_weights r) (fst e))%Z)
  /\ sumZ (map (fun e => weight_of (current_weights r) (fst e)) es) = 0%Z.

Lemma total_weight_pos : (0 < W)%Z.
Proof.
  unfold total_weight. destruct es as [|e l]; [done|]. simpl. pose proof (Hpos e ltac:(by left)).
  assert (0 <= sumZ (map snd l))%Z; [|unfold sumZ in *; simpl; lia].
  apply sumZ_nonneg, Forall_forall. intros x Hx.
  apply list_elem_of_In, in_map_iff in Hx as (y & <- & Hy).
  apply Z.lt_le_incl, Hpos. right. by apply list_elem_of_In.
Qed.

(** Some entry is above zero once the weights are added. *)
Lemma raised_positive r :
  balanced r -> ~ (forall e, e ∈ es -> (raised (current_weights r) e <= 0)%Z).
Proof.
  intros [_ Hs] Hall. pose proof total_weight_pos as HW.
  pose proof (sumZ_combine (raised (current_weights r))
    (fun e => weight_of (current_weights r) (fst e)) snd es ltac:(done)) as Hsum.
  rewrite Hs in Hsum. fold W in Hsum.
  assert (0 <= sumZ (map (fun e => -1 * raised (current_weights r) e)%Z es))%Z as Hn.
  { apply sumZ_nonneg, Forall_forall. intros x Hx.
    apply list_elem_of_In, in_map_iff in Hx as (y & <- & Hy). apply list_elem_of_In in Hy.
    specialize (Hall y Hy). lia. }
  rewrite sumZ_scale in Hn. unfold total_weight in *. lia.
Qed.

(** The entry that is selected pays a full cycle, every entry gains its weight. *)
Lemma select_weighted_step r :
  balanced r ->
  exists e r', e ∈ es /\ select_weighted es r = (Some (fst e), r')
    /\ (0 < raised (current_weights r) e)%Z
    /\ forall e', e' ∈ es -> weight_of (current_weights r') (fst e')
         = (raised (current_weights r) e' - W * (if decide (fst e = fst e') then 1 else 0))%Z.
Proof.
  intros Hb. pose proof total_weight_pos as HW.
  pose proof (weighted_loop_selects es (current_weights r) None I64_MIN Hids) as Hs.
  pose proof (fun e => weighted_loop_weights es (current_weights r) None I64_MIN e Hids) as Hw.
  unfold select_weighted. rewrite (proj2 (Z.eqb_neq _ _)) by lia.
  destruct (weighted_loop es _ None I64_MIN) as [cw sel]. simpl in Hs, Hw.
  destruct Hs as [[_ Hle]|(e & He & -> & _ & Hmax)].
  { exfalso. apply (raised_positive r Hb). intros e He. specialize (Hle e He).
    unfold I64_MIN in Hle. lia. }
  exists e. eexists. split; [done|]. split; [reflexivity|]. split.
  { apply Z.nle_gt. intros H. apply (raised_positive r Hb). intros e' He'. specialize (Hmax e' He'). lia. }
  intros e' He'. unfold weight_of at 1. simpl. rewrite map_lookup_filter.
  assert (fst e' ∈ map fst es) by by apply elem_of_ids.
  destruct (decide (fst e = fst e')) as [Heq|Hneq].
  - rewrite Heq, lookup_alter_eq, (Hw e' He'). simpl. rewrite option_guard_True by done. simpl. lia.
  - rewrite lookup_alter_ne, (Hw e' He') by done. simpl. rewrite option_guard_True by done. simpl. lia.
Qed.

Lemma picked_once e :
  e ∈ es -> sumZ (map (fun e' => if decide (fst e = fst e') then 1 else 0)%Z es) = 1%Z.
Proof.
  intros He. pose proof (sum_indicator (fst e) (map fst es) Hids (elem_of_ids es e He)) as H.
  by rewrite map_map in H.
Qed.

Lemma select_weighted_balanced r :
  balanced r -> balanced (snd (select_weighted es r)).
Proof.
  intros Hb. destruct (select_weighted_step r Hb) as (e & r' & He & -> & Hp & Hw). simpl.
  destruct Hb as [Hlow Hsum]. split.
  - intros e' He'. rewrite (Hw e' He'). specialize (Hlow e' He'). specialize (Hpos e' He').
    unfold raised in *. destruct (decide (fst e = fst e')) as [Heq|]; [|lia].
    assert (e' = e) as ->; [|lia]. by apply (NoDup_map_eq fst es).
  - rewrite (sumZ_combine _ (raised (current_weights r))
      (fun e' => - W * (if decide (fst e = fst e') then 1 else 0))%Z)
      by (intros x Hx; rewrite (Hw x Hx); lia).
    rewrite sumZ_scale, (picked_once e He).
    rewrite (sumZ_combine (raised (current_weights r))
      (fun e => weight_of (current_weights r) (fst e)) snd es) by done.
    rewrite Hsum. unfold total_weight. lia.
Qed.

(** [n] selections in a row. *)
Fixpoint rounds (n : nat) (r : ProviderKeyRotation) : list (option (list N)) * ProviderKeyRotation :=
  match n with
  | 0 => ([], r)
  | S k => let '(picks, r1) := rounds k r in
           let '(p, r2) := select_weighted es r1 in (picks ++ [p], r2)
  end.

Definition served (id : list N) (picks : list (option (list N))) : Z :=
  Z.of_nat (length (List.filter (fun p => bool_decide (p = Some id)) picks)).

Lemma default_balanced : balanced default_rotation.
Proof.
  pose proof total_weight_pos. split.
  - intros e _. unfold weight_of, default_rotation. simpl. rewrite lookup_empty. simpl. lia.
  - unfold default_rotation, weight_of, sumZ. simpl. clear.
    induction es as [|e l IH]; simpl; [done|]. by rewrite lookup_empty.
Qed.

(** What an entry holds is what it has gained less what it has paid. *)
Lemma rounds_account n :
  let '(picks, r) := rounds n default_rotation in
  balanced r /\ length picks = n
  /\ (forall p, p ∈ picks -> exists e, e ∈ es /\ p = Some (fst e))
  /\ sumZ (map (fun e => served (fst e) picks) es) = Z.of_nat n
  /\ forall e, e ∈ es -> weight_of (current_weights r) (fst e)
       = (Z.of_nat n * snd e - W * served (fst e) picks)%Z.
Proof.
  induction n as [|n IH]; simpl.
  { split; [exact default_balanced|]. split; [done|]. split; [set_solver|]. split.
    - unfold sumZ. clear. by induction es.
    - intros e _. unfold weight_of, served. simpl. rewrite lookup_empty. simpl. lia. }
  destruct (rounds n default_rotation) as [picks r]. destruct IH as (Hb & Hlen & Hin & Hs & Hw).
  pose proof (select_weighted_balanced r Hb) as Hb'.
  destruct (select_weighted_step r Hb) as (e & r' & He & Hsel & _ & Hstep). rewrite Hsel in *. simpl in Hb'.
  assert (forall id, served id (picks ++ [Some (fst e)])
    = (served id picks + (if decide (fst e = id) then 1 else 0))%Z) as Hserved.
  { intros id. unfold served. rewrite List.filter_app, length_app. simpl.
    destruct (decide (fst e = id)) as [->|Hne'].
    - rewrite bool_decide_eq_true_2 by done. simpl. lia.
    - rewrite bool_decide_eq_false_2 by congruence. simpl. lia. }
  split; [done|]. split; [rewrite length_app; simpl; lia|]. split; [|split].
  - intros p [Hp| ->%list_elem_of_singleton]%elem_of_app; [by apply Hin|by exists e].
  - rewrite (sumZ_combine _ (fun e' => served (fst e') picks)
      (fun e' => if decide (fst e = fst e') then 1 else 0)%Z) by (intros x _; apply Hserved).
    rewrite Hs, (picked_once e He). lia.
  - intros e' He'. rewrite (Hstep e' He'), Hserved. unfold raised. rewrite (Hw e' He'). lia.
Qed.
Lemma weight_bounds r e :
  balanced r -> e ∈ es ->
  (- W < weight_of (current_weights r) (fst e) <= (Z.of_nat (length es) - 1) * W)%Z.
Proof.
  intros [Hlow Hsum] He. split; [by apply Hlow|].
  assert (sumZ (map (fun e => weight_of (current_weights r) (fst e) + W)%Z es)
          = Z.of_nat (length es) * W)%Z as Hs.
  { rewrite (sumZ_combine _ (fun e => weight_of (current_weights r) (fst e)) (fun _ => W)) by done.
    rewrite Hsum. unfold sumZ. clear. generalize W as x. intros x.
    induction es as [|a l IH]; simpl in *; lia. }
  pose proof (sumZ_ge (map (fun e => weight_of (current_weights r) (fst e) + W)%Z es)
    (weight_of (current_weights r) (fst e) + W)%Z) as H.
  rewrite Hs in H. apply Z.le_add_le_sub_r in H; [lia| |].
  - apply Forall_forall. intros x Hx. apply list_elem_of_In, in_map_iff in Hx as (y & <- & Hy).
    apply list_elem_of_In in Hy. specialize (Hlow y Hy). lia.
  - apply list_elem_of_In, in_map_iff. exists e. by rewrite <- list_elem_of_In.
Qed.

(** C33: From a fresh rotation over distinct entries with positive weights, every
    selection returns an entry, no entry is ever a full selection ahead of its share,
    whole cycles serve each entry exactly in proportion to its weight, and the current
    weights stay bounded by the total weight times the number of entries. *)
Theorem rotation_fair n :
  let '(picks, r) := rounds n default_rotation in
  length picks = n
  /\ (forall p, p ∈ picks -> exists e, e ∈ es /\ p = Some (fst e))
  /\ forall e, e ∈ es ->
       (W * served (fst e) picks < Z.of_nat n * snd e + W)%Z
       /\ (forall k, Z.of_nat n = k * W -> served (fst e) picks = k * snd e)%Z
       /\ (- W < weight_of (current_weights r) (fst e) <= (Z.of_nat (length es) - 1) * W)%Z.
Proof.
  pose proof (rounds_account n) as H. destruct (rounds n default_rotation) as [picks r].
  destruct H as (Hb & Hlen & Hin & Hs & Hw). split; [done|]. split; [done|].
  intros e He. pose proof total_weight_pos as HW.
  assert (forall x, x ∈ es -> W * served (fst x) picks < Z.of_nat n * snd x + W)%Z as Hahead.
  { intros x Hx. pose proof (proj1 Hb x Hx) as Hx'. rewrite (Hw x Hx) in Hx'. lia. }
  split; [by apply Hahead|]. split; [|by apply weight_bounds].
  intros k Hk. apply Zminus_eq.
  enough (k * snd e - served (fst e) picks = 0)%Z by lia.
  apply (sumZ_zero (fun x => k * snd x - served (fst x) picks)%Z es e); [| |done].
  - intros x Hx. specialize (Hahead x Hx). rewrite Hk in Hahead.
    assert (W * (served (fst x) picks - k * snd x) < W * 1)%Z as Hlt by lia.
    apply Z.mul_lt_mono_pos_l in Hlt; lia.
  - rewrite (sumZ_combine _ (fun x => k * snd x)%Z (fun x => -1 * served (fst x) picks)%Z) by (intros; lia).
    rewrite !sumZ_scale, Hs, Hk. unfold total_weight. lia.
Qed.
End Rotation.

(** ** Example run *)

Definition demo_entries : list (list N * Z) := [($"a", 5%Z); ($"b", 1%Z); ($"c", 1%Z)].

Lemma rotation_fair_witness :
  let '(picks, r) := rounds demo_entries 7 default_rotation in
  length picks = 7
  /\ (forall p, p ∈ picks -> exists e, e ∈ demo_entries /\ p = Some (fst e))
  /\ forall e, e ∈ demo_entries ->
       (total_weight demo_entries * served (fst e) picks < 7 * snd e + total_weight demo_entries)%Z
       /\ (forall k, 7 = k * total_weight demo_entries -> served (fst e) picks = k * snd e)%Z
       /\ (- total_weight demo_entries < weight_of (current_weights r) (fst e)
           <= (3 - 1) * total_weight demo_entries)%Z.
Proof.
  apply (rotation_fair demo_entries).
  - apply (bool_decide_eq_true_1 (NoDup _)). vm_compute. reflexivity.
  - intros e He. repeat (apply elem_of_cons in He as [->|He]; [vm_compute; reflexivity|]).
    by apply not_elem_of_nil in He.
  - discriminate.
Defined.
