(* ===== verification/Routing.v ===== *)
(** * Provider routing (crates/xcoding-agent/src/lib.rs, crates/xcoding-providers/src/lib.rs)

    Which provider and credential serve a request: the errors of an attempt and
    what they say about the credential, the health of each key, the circuit
    breaker of each provider, and the ordered list of candidates. *)

From S2P Require Import Prelude Protocol Rotation.

(** ** Errors of an attempt *)

(** [reqwest::Error], by the answers of the methods the code calls. *)
Record HttpFailure := mkHttpFailure {
  hf_is_timeout : bool;
  hf_is_connect : bool;
  hf_is_request : bool;
  hf_is_body : bool;
  hf_is_decode : bool;
  hf_status : option Z;
}.

Inductive ProviderError :=
| MissingApiKey
| Http (e : HttpFailure)
| InvalidResponse (m : str)
| HttpStatus (status : Z) (body : str) (retry_after_secs : option Z)
| EmptyStream (status : Z) (body : str)
| Utf8 (m : str)
| StreamJson (m : str)
| InvalidToolCall (m : str)
| StreamDisconnected (m : str).

(** Errors of the other crates are carried as their message; for an invalid input to the
    core service the bare message stands in front. *)
Inductive AgentError :=
| AgentCore (invalid_input : option str) (m : str)
| AgentProvider (e : ProviderError)
| AgentTool (m : str)
| UnsupportedProvider (m : str)
| InvalidProviderToolCall (m : str)
| LeakedToolProtocol (m : str)
| ToolCallLimit
| ProviderStreamFirstEventTimeout (secs : Z)
| ProviderStreamIdleTimeout (secs : Z)
| ProviderFallbackExhausted (m : str)
| EmptyProviderResponse
| HistoricalToolEcho
| ProviderBusyResponse (m : str)
| SensitiveDataBlocked (category location provider : str)
| ModelMismatch (requested reported : str)
| AgentCancelled
| AgentMcp (m : str).

Definition contains_any (markers : list str) (s : str) : bool :=
  existsb (fun m => contains m s) markers.

Definition body_indicates_transient_channel_rejection (body : str) : bool :=
  let lower := to_ascii_lowercase body in
  contains $"not allowed to use channel" lower && contains $"allowed:" lower.

Definition body_indicates_tool_result_mismatch (body : str) : bool :=
  let lower := to_ascii_lowercase body in
  contains $"tool result" lower
  && contains_any [$"no matching tool use"; $"no matching tool_use"; $"matching tool call"] lower.

Definition body_indicates_context_overflow (body : str) : bool :=
  let lower := to_ascii_lowercase body in
  contains_any [$"context_length_exceeded"; $"context window"; $"context length";
                $"maximum context"; $"too many tokens"] lower
  || (contains $"exceeds" lower && contains_any [$"token"; $"context"] lower).

(** The text after the first occurrence of a marker. *)
Fixpoint text_after (marker s : str) : option str :=
  match strip_prefix marker s, s with
  | Some rest, _ => Some rest
  | None, [] => None
  | None, _ :: s' => text_after marker s'
  end.

(** A quota that resets at a stated time. *)
Definition body_indicates_scheduled_quota_reset (body : str) : bool :=
  let lower := to_ascii_lowercase body in
  existsb (fun marker =>
    match text_after marker lower with
    | Some rest => match trim_start rest with
                        | ch :: _ => is_ascii_digit ch
                        | [] => false
                        end
    | None => false
    end) [$"will reset at"; $"resets at"; $"将在"].

Definition body_indicates_gateway_block (body : str) : bool :=
  contains_any [$"<!doctype html"; $"<html"; $"cloudflare"; $"cf-ray"; $"attention required";
                $"just a moment"; $"web application firewall"] (to_ascii_lowercase body).

Definition body_indicates_credential_refusal (body : str) : bool :=
  contains_any [$"api key"; $"api_key"; $"apikey"; $"credential"; $"unauthorized"; $"authenticat";
                $"authoriz"; $"permission"; $"token"; $"quota"; $"billing"; $"suspend"; $"banned"]
    (to_ascii_lowercase body).

Definition is_transient_channel_rejection (e : ProviderError) : bool :=
  match e with
  | HttpStatus status body _ =>
    (status =? 403)%Z && body_indicates_transient_channel_rejection body
  | _ => false
  end.

Definition is_tool_result_mismatch (e : ProviderError) : bool :=
  match e with
  | HttpStatus status body _ => (status =? 400)%Z && body_indicates_tool_result_mismatch body
  | InvalidResponse message => body_indicates_tool_result_mismatch message
  | _ => false
  end.

Definition is_context_overflow (e : ProviderError) : bool :=
  match e with
  | HttpStatus status body _ =>
    ((status =? 400)%Z || (status =? 413)%Z) && body_indicates_context_overflow body
  | InvalidResponse message => body_indicates_context_overflow message
  | _ => false
  end.

Definition status_in (status : Z) (codes : list Z) : bool := existsb (Z.eqb status) codes.

Definition is_retryable (e : ProviderError) : bool :=
  match e with
  | Http error =>
    hf_is_timeout error || hf_is_connect error || hf_is_request error || hf_is_body error
    || (negb (hf_is_decode error) && bool_decide (hf_status error = None))
  | HttpStatus status body _ =>
    if (status =? 429)%Z && body_indicates_scheduled_quota_reset body then false
    else if is_tool_result_mismatch e then false
    else if is_transient_channel_rejection e then true
    else if is_context_overflow e then false
    else status_in status [400; 401; 404; 408; 409; 429; 500; 502; 503; 504; 522; 525]%Z
  | StreamDisconnected _ | EmptyStream _ _ => true
  | InvalidResponse message =>
    negb (body_indicates_scheduled_quota_reset message)
    && ((message =s $"rate_limit_exceeded") || starts_with $"rate_limit_exceeded:" message
        || (message =s $"gateway_concurrency_limit")
        || starts_with $"gateway_concurrency_limit:" message)
  | MissingApiKey | Utf8 _ | StreamJson _ | InvalidToolCall _ => false
  end.

Definition NANOS_PER_SEC : Z := 1000000000%Z.

Definition retry_after (e : ProviderError) : option Z :=
  match e with
  | HttpStatus _ _ secs => option_map (fun s => s * NANOS_PER_SEC)%Z secs
  | _ => None
  end.

Definition is_gateway_blocked (e : ProviderError) : bool :=
  match e with
  | HttpStatus status body _ =>
    (400 <=? status)%Z && (status <? 500)%Z && body_indicates_gateway_block body
  | _ => false
  end.

Definition is_credential_rejection (e : ProviderError) : bool :=
  match e with
  | HttpStatus status body _ =>
    if (status =? 401)%Z then true
    else if (status =? 403)%Z then
      negb (body_indicates_gateway_block body)
      && negb (body_indicates_transient_channel_rejection body)
      && body_indicates_credential_refusal body
    else false
  | _ => false
  end.

Definition provider_rejected_selected_model (error : AgentError) : bool :=
  match error with
  | AgentProvider (HttpStatus status body _) =>
    status_in status [400; 404]%Z
    && contains_any [$"unsupported model"; $"model not found"; $"unknown model";
         $"model does not exist"; $"not supported by any configured account";
         $"not supported by any account"] (to_ascii_lowercase body)
  | _ => false
  end.

Definition is_retryable_provider_attempt (error : AgentError) : bool :=
  if provider_rejected_selected_model error then false
  else match error with
  | ProviderStreamFirstEventTimeout _ | ProviderStreamIdleTimeout _ | EmptyProviderResponse
  | ProviderBusyResponse _ | LeakedToolProtocol _ => true
  | AgentProvider e => if is_context_overflow e then false else is_retryable e
  | _ => false
  end.

(** [provider_retry_delay], in milliseconds; the argument is a [u32]. *)
Definition provider_retry_delay (retry_number : Z) : Z :=
  (250 * 2 ^ Z.min (Z.max (retry_number - 1) 0) 4)%Z.

(** ** Candidates *)

Record ProviderCandidate := mkCandidate {
  pc_id : str;
  pc_key_id : str;
  pc_name : str;
  pc_base_url : str;
  pc_wire_api : ProviderWireApi;
  pc_trust_level : ProviderTrustLevel;
  pc_api_key : option str;
  pc_model_override : option str;
}.

Definition model_for (c : ProviderCandidate) (session_model : str) : str :=
  default session_model (pc_model_override c).

Definition U64 : Z := (2 ^ 64)%Z.

Definition fnv_step (hash : Z) (byte : N) : Z :=
  (Z.lxor hash (Z.of_N byte) * 1099511628211 mod U64)%Z.

Definition hex_digit (d : Z) : char :=
  (if (d <? 10)%Z then Z.to_N (48 + d) else Z.to_N (87 + d))%Z.

(** [{:016x}] *)
Definition hex16 (n : Z) : str :=
  map (fun i => hex_digit (Z.shiftr n (4 * (15 - Z.of_nat i)) mod 16)%Z) (seq 0 16).

Definition api_key_fingerprint (api_key : str) : str :=
  hex16 (foldl fnv_step 14695981039346656037%Z (as_bytes (trim api_key))).

Definition provider_key_health_id (provider_id key_id : str) (api_key : option str) : str :=
  provider_id ++ $"|" ++ key_id ++ $"|" ++ default [] (option_map api_key_fingerprint api_key).

Definition health_id (c : ProviderCandidate) : str :=
  provider_key_health_id (pc_id c) (pc_key_id c) (pc_api_key c).

Definition provider_key_hint (api_key : option str) : str :=
  match option_map trim api_key with
  | Some key =>
    if is_empty key then $"env"
    else if length key <=? 10 then repeat 42%N (length key)
    else take 5 key ++ repeat 42%N (length key - 10) ++ drop (length key - 5) key
  | None => $"env"
  end.

Definition provider_circuit_key (c : ProviderCandidate) : str :=
  pc_id c ++ $"|" ++ to_ascii_lowercase (trim (pc_base_url c)) ++ $"|" ++ pc_key_id c.

(** ** Process-local state *)

Inductive ProviderKeyBlock := KeyRejected | KeyRateLimited | KeyUnstable.
#[export] Instance ProviderKeyBlock_eq_dec : EqDecision ProviderKeyBlock.
Proof. solve_decision. Defined.

Record ProviderKeyHealth := mkHealth {
  kh_block : option ProviderKeyBlock;
  kh_blocked_until : option Z;
  kh_cooldown_strikes : Z;   (** [u32] *)
  kh_success_count : Z;      (** [u64] *)
  kh_failure_count : Z;      (** [u64] *)
}.
Definition default_health : ProviderKeyHealth := mkHealth None None 0 0 0.

Record CircuitSettings := mkCircuitSettings {
  cs_failure_threshold : Z;            (** [u32] *)
  cs_recovery_success_threshold : Z;   (** [u32] *)
  cs_recovery_wait : Z;                (** nanoseconds *)
  cs_error_rate_threshold_percent : Z; (** [u32] *)
  cs_min_request_count : Z;            (** [u32] *)
}.

Record CircuitState := mkCircuit {
  ct_consecutive_failures : Z;
  ct_request_count : Z;
  ct_failure_count : Z;
  ct_opened_until : option Z;
  ct_half_open : bool;
  ct_half_open_successes : Z;
}.
Definition default_circuit : CircuitState := mkCircuit 0 0 0 None false 0.

(** The tables behind [PROVIDER_KEY_ROTATIONS], [MODEL_ROUTE_ROTATIONS],
    [PROVIDER_KEY_HEALTH] and [PROVIDER_CIRCUITS], and the number of readings of
    the monotonic clock so far.  A lock is never poisoned. *)
Record Runtime := mkRuntime {
  rt_key_rotations : gmap (list N) ProviderKeyRotation;
  rt_route_rotations : gmap (list N) ProviderKeyRotation;
  rt_key_health : gmap (list N) ProviderKeyHealth;
  rt_circuits : gmap (list N) CircuitState;
  rt_ticks : nat;
}.
Definition new_runtime : Runtime := mkRuntime ∅ ∅ ∅ ∅ 0.

(** The [n]-th reading of [Instant::now]. *)
Class Clock := instant : nat -> Z.

Definition R (A : Type) : Type := Runtime -> A * Runtime.
Definition rret {A} (a : A) : R A := fun rt => (a, rt).
Definition rthen {A B} (m : R A) (f : A -> R B) : R B := fun rt => let '(a, rt') := m rt in f a rt'.
Notation "'run!' x := m 'in' k" := (rthen m (fun x => k))
  (at level 10, x pattern, m at level 100, k at level 200) : xc_scope.

Fixpoint run_all {A B} (f : A -> R B) (l : list A) : R (list B) :=
  match l with
  | [] => rret []
  | a :: l' => run! b := f a in run! bs := run_all f l' in rret (b :: bs)
  end.

(** [Iterator::any] *)
Fixpoint run_any {A} (f : A -> R bool) (l : list A) : R bool :=
  match l with
  | [] => rret false
  | a :: l' => run! b := f a in if b then rret true else run_any f l'
  end.

(** [Iterator::find] *)
Fixpoint run_find {A} (f : A -> R bool) (l : list A) : R (option A) :=
  match l with
  | [] => rret None
  | a :: l' => run! b := f a in if b then rret (Some a) else run_find f l'
  end.

Definition set_health (h : gmap (list N) ProviderKeyHealth) (rt : Runtime) : Runtime :=
  mkRuntime (rt_key_rotations rt) (rt_route_rotations rt) h (rt_circuits rt) (rt_ticks rt).
Definition set_circuits (c : gmap (list N) CircuitState) (rt : Runtime) : Runtime :=
  mkRuntime (rt_key_rotations rt) (rt_route_rotations rt) (rt_key_health rt) c (rt_ticks rt).

(** [entry(id).or_default()] *)
Definition health_at (id : list N) (rt : Runtime) : ProviderKeyHealth :=
  default default_health (rt_key_health rt !! id).
Definition circuit_at (key : list N) (rt : Runtime) : CircuitState :=
  default default_circuit (rt_circuits rt !! key).

Definition put_health (id : list N) (h : ProviderKeyHealth) : R unit :=
  fun rt => (tt, set_health (<[id := h]> (rt_key_health rt)) rt).
Definition put_circuit (key : list N) (c : CircuitState) : R unit :=
  fun rt => (tt, set_circuits (<[key := c]> (rt_circuits rt)) rt).

(** [saturating_add] and [saturating_mul] of an unsigned integer with the given
    number of values. *)
Definition sat (size x : Z) : Z := Z.min x (size - 1)%Z.
Definition U32 : Z := (2 ^ 32)%Z.

(** ** Key health *)

Definition RATE_LIMIT_COOLDOWNS_SECS : list Z := [30; 60; 120]%Z.
Definition UNSTABLE_COOLDOWNS_SECS : list Z := [10; 30; 60]%Z.

Definition cooldown_step (ladder : list Z) (strikes : Z) : Z :=
  let index := Z.min (Z.max strikes 1 - 1) (Z.of_nat (length ladder) - 1) in
  (default 0 (ladder !! Z.to_nat index) * NANOS_PER_SEC)%Z.

Definition classify_provider_key_failure (error : AgentError) : option ProviderKeyBlock :=
  match error with
  | ProviderStreamFirstEventTimeout _ | ProviderStreamIdleTimeout _ => Some KeyUnstable
  | AgentProvider e =>
    match e with
    | HttpStatus status _ _ =>
      if is_gateway_blocked e then None
      else if is_credential_rejection e then Some KeyRejected
      else if (status =? 403)%Z then Some KeyUnstable
      else if (status =? 429)%Z then Some KeyRateLimited
      else if status_in status [500; 502; 503; 504]%Z then Some KeyUnstable
      else None
    | Http _ => Some KeyUnstable
    | _ => None
    end
  | _ => None
  end.

Section Routing.
Context {K : Clock}.

Definition now_instant : R Z := fun rt =>
  (instant (rt_ticks rt),
   mkRuntime (rt_key_rotations rt) (rt_route_rotations rt) (rt_key_health rt) (rt_circuits rt)
     (S (rt_ticks rt))).

Definition unblocked (h : ProviderKeyHealth) : ProviderKeyHealth :=
  mkHealth None None (kh_cooldown_strikes h) (kh_success_count h) (kh_failure_count h).

Definition provider_key_is_available (c : ProviderCandidate) : R bool := fun rt =>
  let state := health_at (health_id c) rt in
  (run! _ := put_health (health_id c) state in
   match kh_block state with
   | None => rret true
   | Some KeyRejected => rret false
   | Some _ =>
     match kh_blocked_until state with
     | Some until =>
       run! now := now_instant in
       if (now <? until)%Z then rret false
       else run! _ := put_health (health_id c) (unblocked state) in rret true
     | None => run! _ := put_health (health_id c) (unblocked state) in rret true
     end
   end) rt.

Definition record_provider_key_success (c : ProviderCandidate) : R unit := fun rt =>
  let state := health_at (health_id c) rt in
  put_health (health_id c)
    (mkHealth None None 0 (sat U64 (kh_success_count state + 1)) (kh_failure_count state)) rt.

Definition record_provider_key_failure (c : ProviderCandidate) (error : AgentError)
  : R (option ProviderKeyBlock) := fun rt =>
  let after := match error with AgentProvider e => retry_after e | _ => None end in
  let old := health_at (health_id c) rt in
  let failures := sat U64 (kh_failure_count old + 1) in
  match classify_provider_key_failure error with
  | None =>
    (run! _ := put_health (health_id c)
       (mkHealth (kh_block old) (kh_blocked_until old) (kh_cooldown_strikes old)
          (kh_success_count old) failures) in
     rret None) rt
  | Some block =>
    let strikes := if bool_decide (kh_block old = Some block)
                   then sat U32 (kh_cooldown_strikes old + 1) else 1%Z in
    (run! until :=
       match block with
       | KeyRejected => rret None
       | KeyRateLimited =>
         run! now := now_instant in
         rret (Some (now + default (cooldown_step RATE_LIMIT_COOLDOWNS_SECS strikes) after)%Z)
       | KeyUnstable =>
         run! now := now_instant in
         rret (Some (now + cooldown_step UNSTABLE_COOLDOWNS_SECS strikes)%Z)
       end in
     run! _ := put_health (health_id c)
       (mkHealth (Some block) until strikes (kh_success_count old) failures) in
     rret (Some block)) rt
  end.

(** A block that a check at [now] would respect. *)
Definition key_blocked (now : Z) (h : ProviderKeyHealth) : bool :=
  match kh_block h with
  | None => false
  | Some KeyRejected => true
  | Some _ => match kh_blocked_until h with Some until => (now <? until)%Z | None => false end
  end.

Definition release_key (h : ProviderKeyHealth) : ProviderKeyHealth :=
  if bool_decide (kh_block h = Some KeyRejected) then h else unblocked h.

Definition release_key_cooldowns_when_all_are_blocked (cs : list ProviderCandidate) : R unit :=
  run! now := now_instant in
  fun rt =>
    let ids := map health_id cs in
    if is_empty ids then (tt, rt)
    else if forallb (fun id => match rt_key_health rt !! id with
                               | Some h => key_blocked now h
                               | None => false
                               end) ids
    then (tt, set_health (foldl (fun m id => alter release_key id m) (rt_key_health rt) ids) rt)
    else (tt, rt).

(** ** Circuit breaker *)

Definition half_open_circuit (s : CircuitState) : CircuitState :=
  mkCircuit (ct_consecutive_failures s) (ct_request_count s) (ct_failure_count s) None true 0.

Definition circuit_allows (c : ProviderCandidate) : R bool := fun rt =>
  let key := provider_circuit_key c in
  let state := circuit_at key rt in
  (run! _ := put_circuit key state in
   match ct_opened_until state with
   | Some opened_until =>
     run! now := now_instant in
     if (now <? opened_until)%Z then rret false
     else run! _ := put_circuit key (half_open_circuit state) in rret true
   | None => rret true
   end) rt.

Definition circuit_open (now : Z) (s : CircuitState) : bool :=
  match ct_opened_until s with Some until => (now <? until)%Z | None => false end.

Definition release_circuits_when_all_are_open (cs : list ProviderCandidate) : R unit :=
  run! now := now_instant in
  fun rt =>
    let keys := map provider_circuit_key cs in
    if negb (is_empty keys)
       && forallb (fun k => match rt_circuits rt !! k with
                            | Some s => circuit_open now s
                            | None => false
                            end) keys
    then (tt, set_circuits (foldl (fun m k => alter half_open_circuit k m) (rt_circuits rt) keys) rt)
    else (tt, rt).

Definition circuit_success (settings : CircuitSettings) (s : CircuitState) : CircuitState :=
  if ct_half_open s then
    let successes := sat U32 (ct_half_open_successes s + 1) in
    if (cs_recovery_success_threshold settings <=? successes)%Z then default_circuit
    else mkCircuit (ct_consecutive_failures s) (ct_request_count s) (ct_failure_count s)
           (ct_opened_until s) true successes
  else mkCircuit 0 (sat U32 (ct_request_count s + 1)) (ct_failure_count s) (ct_opened_until s)
         false (ct_half_open_successes s).

Definition record_provider_success (c : ProviderCandidate) (settings : CircuitSettings) : R unit :=
  fun rt => let key := provider_circuit_key c in
            put_circuit key (circuit_success settings (circuit_at key rt)) rt.

(** The counters after a failure, and whether they open the circuit. *)
Definition count_failure (s : CircuitState) : CircuitState :=
  mkCircuit (sat U32 (ct_consecutive_failures s + 1)) (sat U32 (ct_request_count s + 1))
    (sat U32 (ct_failure_count s + 1)) (ct_opened_until s) (ct_half_open s)
    (ct_half_open_successes s).

Definition failure_opens (settings : CircuitSettings) (s : CircuitState) : bool :=
  ct_half_open s
  || (cs_failure_threshold settings <=? ct_consecutive_failures s)%Z
  || ((cs_min_request_count settings <=? ct_request_count s)%Z
      && (cs_error_rate_threshold_percent settings
          <=? sat U32 (ct_failure_count s * 100) / Z.max (ct_request_count s) 1)%Z).

Definition record_provider_failure (c : ProviderCandidate) (settings : CircuitSettings) : R unit :=
  fun rt =>
    let key := provider_circuit_key c in
    let s := count_failure (circuit_at key rt) in
    if failure_opens settings s then
      (run! now := now_instant in
       put_circuit key
         (mkCircuit (ct_consecutive_failures s) (ct_request_count s) (ct_failure_count s)
            (Some (now + cs_recovery_wait settings)%Z) false 0)) rt
    else put_circuit key s rt.

(** ** Ordering the candidates *)

Definition normalized_model_id (model : str) : str := to_ascii_lowercase (trim model).

Definition find_provider (config : UserConfig) (id : str) : option CloudProviderConfig :=
  List.find (fun p => cp_id p =s id) (uc_providers config).

Definition active_trust_level (config : UserConfig) : option ProviderTrustLevel :=
  match uc_active_provider_id config with
  | Some active_id => option_map cp_trust_level (find_provider config active_id)
  | None => None
  end.

Definition eligible_model_routes (config : UserConfig) (model : str)
  : list (CloudProviderConfig * ModelRoute) :=
  match btree_get (normalized_model_id model) (uc_model_routes config) with
  | None => []
  | Some routes =>
    omap (fun route =>
      match find_provider config (mr_provider_id route) with
      | Some provider =>
        if bool_decide (Some (cp_trust_level provider) = active_trust_level config)
        then Some (provider, route) else None
      | None => None
      end) (List.filter (fun route => mr_enabled route && (0 <? mr_weight route)%Z) routes)
  end.

(** A key that is set and not blank, trimmed. *)
Definition present_key (key : option str) : option str :=
  match option_map trim key with
  | Some k => if is_empty k then None else Some k
  | None => None
  end.

Definition is_active (provider : CloudProviderConfig) (active_id : option str) : bool :=
  bool_decide (Some (cp_id provider) = active_id).

Definition provider_credential_list (config : UserConfig) (provider : CloudProviderConfig)
    (active_id : option str) : list (list N * option (list N)) :=
  let api_key :=
    match present_key (cp_api_key provider) with
    | Some k => Some k
    | None => if is_active provider active_id && negb (bool_decide (cp_trust_level provider = Relay))
              then present_key (uc_api_key config) else None
    end in
  let keys :=
    match cp_api_keys provider with
    | [] => match api_key with Some key => [($"legacy", Some key)] | None => [] end
    | api_keys => map (fun k => (ak_id k, Some (ak_key k))) (List.filter usable_key api_keys)
    end in
  if is_empty keys then
    if is_active provider active_id then [($"environment", None)] else []
  else keys.

Definition select_provider_key (provider : CloudProviderConfig) : R (option (list N * list N)) :=
  let keys :=
    match cp_api_keys provider with
    | [] => option_map (fun key => [mkApiKey $"legacy" $"default" key 1 true]) (cp_api_key provider)
    | api_keys => Some api_keys
    end in
  match keys with
  | None => rret None
  | Some keys => fun rt =>
    let rotation := default default_rotation (rt_key_rotations rt !! cp_id provider) in
    let '(selected, rotation') := select_key keys rotation in
    (option_map (fun k => (ak_id k, ak_key k)) selected,
     mkRuntime (<[cp_id provider := rotation']> (rt_key_rotations rt)) (rt_route_rotations rt)
       (rt_key_health rt) (rt_circuits rt) (rt_ticks rt))
  end.

(** The first element that satisfies [p] moves to the front. *)
Fixpoint take_first {A} (p : A -> bool) (l : list A) : option (A * list A) :=
  match l with
  | [] => None
  | a :: l' => if p a then Some (a, l')
               else match take_first p l' with
                    | Some (b, r) => Some (b, a :: r)
                    | None => None
                    end
  end.
Definition move_to_front {A} (p : A -> bool) (l : list A) : list A :=
  match take_first p l with Some (a, r) => a :: r | None => l end.

Definition provider_candidate_keys (config : UserConfig) (provider : CloudProviderConfig)
    (active_id : option str) : R (list (list N * option (list N))) :=
  let keys := provider_credential_list config provider active_id in
  if 1 <? length keys then
    run! selected := select_provider_key provider in
    rret (match selected with
          | Some (selected_id, _) => move_to_front (fun k => fst k =s selected_id) keys
          | None => keys
          end)
  else rret keys.

Definition candidate_of (provider : CloudProviderConfig) (model_override : option str)
    (key : list N * option (list N)) : ProviderCandidate :=
  mkCandidate (cp_id provider) (fst key) (cp_name provider) (cp_base_url provider)
    (cp_wire_api provider) (cp_trust_level provider) (snd key) model_override.

Definition expand_provider_candidates (config : UserConfig) (provider : CloudProviderConfig)
    (active_id model_override : option str) : R (list ProviderCandidate) :=
  run! keys := provider_candidate_keys config provider active_id in
  rret (map (candidate_of provider model_override) keys).

Definition candidate_usable (c : ProviderCandidate) : R bool :=
  run! available := provider_key_is_available c in
  if available then circuit_allows c else rret false.

(** [Vec::filter] with a predicate that changes the state. *)
Fixpoint run_filter {A} (f : A -> R bool) (l : list A) : R (list A) :=
  match l with
  | [] => rret []
  | a :: l' => run! b := f a in run! r := run_filter f l' in rret (if b then a :: r else r)
  end.

Definition select_route (model : str) (entries : list (list N * Z)) : R (option (list N)) := fun rt =>
  let key := normalized_model_id model in
  let rotation := default default_rotation (rt_route_rotations rt !! key) in
  let '(selected, rotation') := select_weighted entries rotation in
  (selected, mkRuntime (rt_key_rotations rt) (<[key := rotation']> (rt_route_rotations rt))
               (rt_key_health rt) (rt_circuits rt) (rt_ticks rt)).

Definition routed_provider_candidates (config : UserConfig) (model : str)
    (routes : list (CloudProviderConfig * ModelRoute)) (active_id : option str)
  : R (list ProviderCandidate) :=
  run! all := run_all (fun '(provider, route) =>
    run! cs := expand_provider_candidates config provider active_id (mr_model_override route) in
    rret (route, cs)) routes in
  let expanded := List.filter (fun e => negb (is_empty (snd e))) all in
  run! usable := run_filter (fun e => run_any candidate_usable (snd e)) expanded in
  let expanded := if is_empty usable then expanded else usable in
  if 1 <? length expanded then
    run! selected := select_route model
      (map (fun e => (mr_provider_id (fst e), mr_weight (fst e))) expanded) in
    let expanded := match selected with
                    | Some id => move_to_front (fun e => mr_provider_id (fst e) =s id) expanded
                    | None => expanded
                    end in
    rret (concat (map snd expanded))
  else rret (concat (map snd expanded)).

Definition provider_candidates (config : UserConfig) (model : str) : R (list ProviderCandidate) :=
  let active_id := uc_active_provider_id config in
  let routes := eligible_model_routes config model in
  if negb (is_empty routes) then routed_provider_candidates config model routes active_id
  else
    let active := List.filter (fun p => is_active p active_id) (uc_providers config) in
    let backups :=
      if uc_provider_fallback_enabled config then
        List.filter (fun p => negb (is_active p active_id)
          && match List.find (fun a => is_active a active_id) (uc_providers config) with
             | Some a => bool_decide (cp_trust_level a = cp_trust_level p)
             | None => false
             end) (uc_providers config)
      else [] in
    run! lists := run_all (fun p => expand_provider_candidates config p active_id None)
                    (active ++ backups) in
    rret (concat lists).

(** The choice of a credential for the local relay: the gates of
    [open_active_provider_request] before it contacts the provider. *)
Definition relay_candidate (candidates : list ProviderCandidate) : R (option ProviderCandidate) :=
  run! candidate := run_find candidate_usable candidates in
  match candidate with
  | Some c => rret (Some c)
  | None =>
    run! _ := release_key_cooldowns_when_all_are_blocked candidates in
    run! _ := release_circuits_when_all_are_open candidates in
    run_find candidate_usable candidates
  end.

(** The health entry of a configured credential. *)
Definition configured_health_id (config : UserConfig) (provider_id key_id : str) : option str :=
  match find_provider config provider_id with
  | None => None
  | Some provider =>
    let api_key :=
      match cp_api_keys provider with
      | [] => cp_api_key provider
      | api_keys => option_map ak_key (List.find (fun e => ak_id e =s key_id) api_keys)
      end in
    Some (provider_key_health_id provider_id key_id api_key)
  end.

Definition clear_provider_key_block (config : UserConfig) (provider_id key_id : str) : R bool :=
  fun rt =>
  match configured_health_id config provider_id key_id with
  | None => (false, rt)
  | Some id =>
    match rt_key_health rt !! id with
    | Some h => (true, set_health (<[id := mkHealth None None 0 (kh_success_count h)
                                             (kh_failure_count h)]> (rt_key_health rt)) rt)
    | None => (false, rt)
    end
  end.

(** ** The states that the settings show *)

Record ProviderKeyStatus := mkKeyStatus {
  ks_provider_id : str; ks_provider_name : str; ks_key_id : str; ks_label : str; ks_key_hint : str;
  ks_weight : Z; ks_enabled : bool; ks_state : str; ks_cooldown_secs : option Z;
  ks_success_count : Z; ks_failure_count : Z }.
Record ModelRouteStatus := mkRouteStatus {
  rs_model : str; rs_provider_id : str; rs_provider_name : str; rs_weight : Z; rs_enabled : bool;
  rs_effective_model : str; rs_state : str; rs_usable_key_count : nat;
  rs_success_count : Z; rs_failure_count : Z }.

Definition listed_keys (provider : CloudProviderConfig) : list ProviderApiKey :=
  match cp_api_keys provider with
  | [] => match present_key (cp_api_key provider) with
          | Some key => [mkApiKey $"legacy" [] key 1 true]
          | None => []
          end
  | keys => keys
  end.

(** The label of a key and the rest of its cooldown. *)
Definition key_state (now : Z) (usable : bool) (state : option ProviderKeyHealth) : str * option Z :=
  if negb usable then ($"disabled", None)
  else
    match state ≫= kh_block with
    | Some KeyRejected => ($"rejected", None)
    | Some block =>
      let remaining :=
        match state ≫= kh_blocked_until with
        | Some until => if (now <? until)%Z then Some (Z.max ((until - now) / NANOS_PER_SEC) 1) else None
        | None => None
        end in
      match remaining with
      | None => ($"ready", None)
      | Some _ => (match block with KeyRateLimited => $"rate_limited" | _ => $"unstable" end, remaining)
      end
    | None => ($"ready", None)
    end.

Definition success_count (state : option ProviderKeyHealth) : Z := default 0%Z (option_map kh_success_count state).
Definition failure_count (state : option ProviderKeyHealth) : Z := default 0%Z (option_map kh_failure_count state).

Definition key_status (health : gmap (list N) ProviderKeyHealth) (now : Z)
    (provider : CloudProviderConfig) (entry : ProviderApiKey) : ProviderKeyStatus :=
  let state := health !! provider_key_health_id (cp_id provider) (ak_id entry) (Some (ak_key entry)) in
  let '(label, cooldown_secs) := key_state now (usable_key entry) state in
  mkKeyStatus (cp_id provider) (cp_name provider) (ak_id entry) (ak_label entry)
    (provider_key_hint (Some (ak_key entry))) (ak_weight entry) (ak_enabled entry) label cooldown_secs
    (success_count state) (failure_count state).

Definition provider_key_statuses (config : UserConfig) : R (list ProviderKeyStatus) :=
  run! now := now_instant in
  fun rt => (concat (map (fun provider =>
                            map (key_status (rt_key_health rt) now provider) (listed_keys provider))
                       (uc_providers config)), rt).

Inductive KeyUse := Usable | Blocked | Cooling.
#[export] Instance KeyUse_eq_dec : EqDecision KeyUse.
Proof. solve_decision. Defined.
Definition key_use (now : Z) (state : option ProviderKeyHealth) : KeyUse :=
  match state ≫= kh_block with
  | None => Usable
  | Some KeyRejected => Blocked
  | Some _ =>
    match state ≫= kh_blocked_until with
    | Some until => if (now <? until)%Z then Cooling else Usable
    | None => Usable
    end
  end.

Definition count_use (x : KeyUse) (uses : list KeyUse) : nat :=
  length (List.filter (fun u => bool_decide (u = x)) uses).

(** The sums wrap around as in a release build. *)
Definition sum_counts (counts : list Z) : Z := (sumZ counts mod U64)%Z.

Definition route_state (provider : option CloudProviderConfig) (route : ModelRoute)
    (active_trust_level : option ProviderTrustLevel) (uses : list KeyUse) : str :=
  match provider with
  | None => $"unknown_provider"
  | Some provider =>
    if negb (mr_enabled route) || (mr_weight route =? 0)%Z then $"disabled"
    else if negb (bool_decide (Some (cp_trust_level provider) = active_trust_level)) then $"trust_mismatch"
    else if 0 <? count_use Usable uses then $"ready"
    else if 0 <? count_use Cooling uses then $"cooling_down"
    else if 0 <? count_use Blocked uses then $"blocked"
    else $"no_credential"
  end.

Definition route_status (config : UserConfig) (health : gmap (list N) ProviderKeyHealth) (now : Z)
    (model : str) (route : ModelRoute) : ModelRouteStatus :=
  let provider := find_provider config (mr_provider_id route) in
  let states :=
    match provider with
    | Some provider =>
      map (fun '(key_id, api_key) => health !! provider_key_health_id (cp_id provider) key_id api_key)
        (provider_credential_list config provider (uc_active_provider_id config))
    | None => []
    end in
  let uses := map (key_use now) states in
  mkRouteStatus model (mr_provider_id route) (default [] (option_map cp_name provider)) (mr_weight route)
    (mr_enabled route) (default model (mr_model_override route))
    (route_state provider route (active_trust_level config) uses) (count_use Usable uses)
    (sum_counts (map success_count states)) (sum_counts (map failure_count states)).

Definition model_route_statuses (config : UserConfig) : R (list ModelRouteStatus) :=
  run! now := now_instant in
  fun rt => (concat (map (fun '(model, routes) =>
                            map (route_status config (rt_key_health rt) now model) routes)
                       (uc_model_routes config)), rt).
End Routing.
