(* ===== verification/RoutingFacts.v ===== *)
(** * Correctness of provider routing

    The trust boundary of the candidates, the health of rejected and cooling
    keys, the cycle of the circuit breaker, and what the releases guarantee. *)

From S2P Require Import Prelude Protocol Rotation Routing.

(** ** Preserved properties *)

Definition keeps {A} (P : Runtime -> Prop) (m : R A) : Prop := forall rt, P rt -> P (snd (m rt)).

Lemma keeps_ret {A} P (a : A) : keeps P (rret a).
Proof. intros rt H. exact H. Qed.

Lemma keeps_then {A B} P (m : R A) (f : A -> R B) :
  keeps P m -> (forall a, keeps P (f a)) -> keeps P (rthen m f).
Proof. intros Hm Hf rt H. unfold rthen. specialize (Hm rt H). destruct (m rt) as [a rt']. by apply Hf. Qed.

Create HintDb xc_keeps.
#[export] Hint Resolve keeps_ret keeps_then : xc_keeps.

Lemma keeps_run_all {A B} P (f : A -> R B) l : (forall a, keeps P (f a)) -> keeps P (run_all f l).
Proof. intros Hf. induction l; simpl; auto with xc_keeps. Qed.

Lemma keeps_run_any {A} P (f : A -> R bool) l : (forall a, keeps P (f a)) -> keeps P (run_any f l).
Proof.
  intros Hf. induction l; simpl; [auto with xc_keeps|]. apply keeps_then; [done|].
  intros []; auto with xc_keeps.
Qed.

Lemma keeps_run_filter {A} P (f : A -> R bool) l : (forall a, keeps P (f a)) -> keeps P (run_filter f l).
Proof. intros Hf. induction l; simpl; auto with xc_keeps. Qed.

Lemma keeps_run_find {A} P (f : A -> R bool) l : (forall a, keeps P (f a)) -> keeps P (run_find f l).
Proof.
  intros Hf. induction l; simpl; [auto with xc_keeps|]. apply keeps_then; [done|].
  intros []; auto with xc_keeps.
Qed.
#[export] Hint Resolve keeps_run_all keeps_run_any keeps_run_filter keeps_run_find : xc_keeps.

(** ** The trust boundary *)

Section Trust.
Context {K : Clock} (config : UserConfig).
Context (Hids : NoDup (map cp_id (uc_providers config))).

Lemma run_all_elem {A B} (f : A -> R B) l rt b :
  b ∈ fst (run_all f l rt) -> exists a rt', a ∈ l /\ b = fst (f a rt').
Proof.
  revert rt. induction l as [|a l IH]; intros rt; simpl; [set_solver|].
  unfold rthen. destruct (f a rt) as [x rt1] eqn:Hf.
  pose proof (IH rt1) as IH'. destruct (run_all f l rt1) as [xs rt2]. simpl in *.
  intros [->|Hb]%elem_of_cons; [exists a, rt; by rewrite Hf; split; [left|]|].
  destruct (IH' Hb) as (a' & rt' & Ha & ->). exists a', rt'. split; [by right|done].
Qed.

Lemma run_filter_elem {A} (f : A -> R bool) l rt a : a ∈ fst (run_filter f l rt) -> a ∈ l.
Proof.
  revert rt. induction l as [|x l IH]; intros rt; simpl; [done|].
  unfold rthen. destruct (f x rt) as [b rt1]. specialize (IH rt1).
  destruct (run_filter f l rt1) as [xs rt2]. simpl in *. destruct b; set_solver.
Qed.

Lemma take_first_perm {A} (p : A -> bool) l a r : take_first p l = Some (a, r) -> a :: r ≡ₚ l.
Proof.
  revert a r. induction l as [|x l IH]; simpl; [done|]. intros a r.
  destruct (p x); [by intros [= <- <-]|]. destruct (take_first p l) as [[b s]|]; [|done].
  intros [= <- <-]. rewrite <- (IH b s eq_refl). apply Permutation_swap.
Qed.

Lemma move_to_front_perm {A} (p : A -> bool) l : move_to_front p l ≡ₚ l.
Proof.
  unfold move_to_front. destruct (take_first p l) as [[a r]|] eqn:H; [by eapply take_first_perm|done].
Qed.

(** Rotation reorders the credentials of a provider. *)
Lemma provider_candidate_keys_perm p active rt :
  fst (provider_candidate_keys config p active rt) ≡ₚ provider_credential_list config p active.
Proof.
  unfold provider_candidate_keys. destruct (1 <? _); [|done]. unfold rthen.
  destruct (select_provider_key p rt) as [[[id k]|] rt']; simpl; [apply move_to_front_perm|done].
Qed.

Lemma expand_elem p active ov rt c :
  c ∈ fst (expand_provider_candidates config p active ov rt) ->
  exists key, key ∈ provider_credential_list config p active /\ c = candidate_of p ov key.
Proof.
  unfold expand_provider_candidates, rthen. pose proof (provider_candidate_keys_perm p active rt) as Hp.
  destruct (provider_candidate_keys config p active rt) as [ks rt']. simpl in *.
  intros (key & -> & Hk)%list_elem_of_fmap. exists key. by rewrite <- Hp.
Qed.

(** The providers a model may use, and a credential of one of them. *)
Definition offered (c : ProviderCandidate) : Prop :=
  exists p ov key, p ∈ uc_providers config
    /\ Some (cp_trust_level p) = active_trust_level config
    /\ key ∈ provider_credential_list config p (uc_active_provider_id config)
    /\ c = candidate_of p ov key.

Lemma eligible_offered model p route :
  (p, route) ∈ eligible_model_routes config model ->
  p ∈ uc_providers config /\ Some (cp_trust_level p) = active_trust_level config.
Proof.
  unfold eligible_model_routes. destruct (btree_get _ _) as [routes|]; [|set_solver].
  intros (r & _ & Hr)%list_elem_of_omap.
  destruct (find_provider config (mr_provider_id r)) as [q|] eqn:Hq; [|done].
  case_bool_decide; simplify_eq. apply find_some in Hq as [Hq _]. split; [by apply list_elem_of_In|done].
Qed.

Lemma routed_offered model routes rt c :
  (forall p route, (p, route) ∈ routes ->
     p ∈ uc_providers config /\ Some (cp_trust_level p) = active_trust_level config) ->
  c ∈ fst (routed_provider_candidates config model routes (uc_active_provider_id config) rt) ->
  offered c.
Proof.
  intros Hr. unfold routed_provider_candidates. unfold rthen at 1.
  match goal with |- context [run_all ?f routes rt] =>
    pose proof (fun e => run_all_elem f routes rt e) as Hall; destruct (run_all f routes rt) as [all rt1] end.
  simpl in Hall. set (expanded := List.filter _ all).
  assert (forall e x, e ∈ expanded -> x ∈ snd e -> offered x) as Hexp.
  { intros e x He Hx. apply list_elem_of_In, filter_In in He as [He _]. apply list_elem_of_In in He.
    destruct (Hall e He) as ([p route] & rt' & Hp & ->). destruct (Hr p route Hp) as [Hin Ht].
    unfold rthen in Hx. pose proof (expand_elem p (uc_active_provider_id config) (mr_model_override route) rt' x) as Hee.
    destruct (expand_provider_candidates _ _ _ _ rt') as [cs rt'']. simpl in *.
    destruct (Hee Hx) as (key & Hkey & ->). by exists p, (mr_model_override route), key. }
  unfold rthen at 1.
  match goal with |- context [run_filter ?f expanded rt1] =>
    pose proof (fun e => run_filter_elem f expanded rt1 e) as Hf;
    destruct (run_filter f expanded rt1) as [usable rt2] end. simpl in Hf.
  set (chosen := if is_empty usable then expanded else usable).
  assert (forall e x, e ∈ chosen -> x ∈ snd e -> offered x) as Hch.
  { intros e x He. apply Hexp. unfold chosen in He. destruct (is_empty usable); [done|by apply Hf]. }
  assert (forall l, l ≡ₚ chosen -> c ∈ concat (map snd l) -> offered c) as Hconcat.
  { intros l Hl Hc. apply elem_of_concat_map in Hc as (e & He & Hc).
    rewrite Hl in He. by apply (Hch e). }
  destruct (1 <? length chosen); [|by apply Hconcat].
  unfold rthen. destruct (select_route _ _ rt2) as [[id|] rt3]; simpl; apply Hconcat; [|done].
  apply move_to_front_perm.
Qed.

Lemma active_trust p :
  p ∈ uc_providers config -> is_active p (uc_active_provider_id config) = true ->
  Some (cp_trust_level p) = active_trust_level config.
Proof.
  intros Hp Ha%bool_decide_eq_true_1. unfold active_trust_level. rewrite <- Ha.
  unfold find_provider. rewrite (find_by_key cp_id _ (uc_providers config) p); [done|done|done|].
  intros y. apply str_eqb_true.
Qed.

Lemma provider_candidates_offered model rt c :
  c ∈ fst (provider_candidates config model rt) -> offered c.
Proof.
  unfold provider_candidates. destruct (is_empty (eligible_model_routes config model)) eqn:He; simpl.
  2: { apply routed_offered. apply eligible_offered. }
  set (active := List.filter _ (uc_providers config)). 
  match goal with |- context [active ++ ?b] => set (backups := b) end.
  assert (forall p, p ∈ active ++ backups -> p ∈ uc_providers config
    /\ Some (cp_trust_level p) = active_trust_level config) as Hp.
  { intros p [Hp|Hp]%elem_of_app.
    - apply list_elem_of_In, filter_In in Hp as [Hp Ha]. apply list_elem_of_In in Hp.
      split; [done|by apply active_trust].
    - unfold backups in Hp. destruct (uc_provider_fallback_enabled config); [|set_solver].
      apply list_elem_of_In, filter_In in Hp as [Hp Ha]. apply list_elem_of_In in Hp. split; [done|].
      apply andb_true_iff in Ha as [_ Ha].
      destruct (List.find _ _) as [a|] eqn:Hf; [|done]. apply bool_decide_eq_true_1 in Ha as <-.
      apply find_some in Hf as [Hin Hact]. apply active_trust; [by apply list_elem_of_In|done]. }
  unfold rthen. match goal with |- context [run_all ?f (active ++ backups) rt] =>
    pose proof (fun e => run_all_elem f (active ++ backups) rt e) as Hall;
    destruct (run_all f (active ++ backups) rt) as [lists rt1] end. simpl in *.
  rewrite <- (map_id lists). intros (cs & Hcs & Hc)%elem_of_concat_map.
  destruct (Hall cs Hcs) as (p & rt' & Hpin & ->). destruct (Hp p Hpin) as [Hin Ht].
  destruct (expand_elem p _ None rt' c Hc) as (key & Hk & ->). by exists p, None, key.
Qed.

(** Where a credential may come from: an account of the provider, its single key,
    or for the active provider alone the top-level key, which a relay does not
    get, or the environment. *)
Definition credential_source (p : CloudProviderConfig) (c : ProviderCandidate) : Prop :=
  (exists k, k ∈ cp_api_keys p /\ usable_key k = true /\ pc_api_key c = Some (ak_key k))
  \/ (cp_api_keys p = [] /\ is_Some (pc_api_key c) /\ pc_api_key c = present_key (cp_api_key p))
  \/ (is_active p (uc_active_provider_id config) = true /\ cp_api_keys p = []
      /\ cp_trust_level p <> Relay /\ pc_api_key c = present_key (uc_api_key config))
  \/ (is_active p (uc_active_provider_id config) = true /\ pc_api_key c = None).

Lemma credential_list_source p ov key :
  key ∈ provider_credential_list config p (uc_active_provider_id config) ->
  credential_source p (candidate_of p ov key).
Proof.
  unfold provider_credential_list, credential_source. cbn [pc_api_key candidate_of].
  destruct (cp_api_keys p) as [|k0 ks] eqn:Hks.
  - destruct (present_key (cp_api_key p)) as [k|] eqn:Hk; simpl.
    + intros ->%list_elem_of_singleton. right. left. by rewrite <- Hk.
    + destruct (is_active p (uc_active_provider_id config)) eqn:Ha; simpl; [|set_solver].
      case_bool_decide as Hrelay; simpl.
      * intros ->%list_elem_of_singleton. by do 3 right.
      * destruct (present_key (uc_api_key config)) as [k|] eqn:Hc; simpl;
          intros ->%list_elem_of_singleton; do 2 right; [left|right]; done.
  - rewrite <- Hks. destruct (map (fun k => (ak_id k, Some (ak_key k)))
      (List.filter usable_key (cp_api_keys p))) as [|a l] eqn:Hm; simpl.
    + destruct (is_active p (uc_active_provider_id config)) eqn:Ha; [|set_solver].
      intros ->%list_elem_of_singleton. by do 3 right.
    + rewrite <- Hm. intros (k & -> & Hk)%list_elem_of_fmap. left. exists k.
      apply list_elem_of_In, filter_In in Hk as [Hk Hu]. by rewrite list_elem_of_In.
Qed.

(** C32: When provider ids are distinct, every candidate for a request belongs to a
    configured provider with the trust level of the active provider and carries that
    provider's own credential, or for the active provider the environment's or the
    top-level key, which a relay never receives. *)
Theorem candidates_within_trust model rt c :
  c ∈ fst (provider_candidates config model rt) ->
  Some (pc_trust_level c) = active_trust_level config
  /\ exists p, p ∈ uc_providers config /\ pc_id c = cp_id p /\ pc_base_url c = cp_base_url p
       /\ pc_trust_level c = cp_trust_level p /\ credential_source p c.
Proof.
  intros (p & ov & key & Hp & Ht & Hk & ->)%provider_candidates_offered. split; [done|].
  exists p. do 4 (split; [done|]). by apply credential_list_source.
Qed.
End Trust.

(** ** Calls on the runtime *)

Inductive RuntimeCall :=
| RtCandidates (config : UserConfig) (model : str)
| RtRelayCandidate (cs : list ProviderCandidate)
| RtKeyAvailable (c : ProviderCandidate)
| RtKeySuccess (c : ProviderCandidate)
| RtKeyFailure (c : ProviderCandidate) (e : AgentError)
| RtReleaseKeys (cs : list ProviderCandidate)
| RtClearKey (config : UserConfig) (provider_id key_id : str)
| RtCircuitAllows (c : ProviderCandidate)
| RtReleaseCircuits (cs : list ProviderCandidate)
| RtSuccess (c : ProviderCandidate) (s : CircuitSettings)
| RtFailure (c : ProviderCandidate) (s : CircuitSettings).

(** The calls that report on the credential [id] itself or unblock it by hand. *)
Definition reports_on (id : str) (k : RuntimeCall) : bool :=
  match k with
  | RtKeySuccess c => health_id c =s id
  | RtKeyFailure c _ => health_id c =s id
  | RtClearKey config p key => bool_decide (configured_health_id config p key = Some id)
  | _ => false
  end.

Section Calls.
Context {K : Clock}.

Definition run_rt_call (k : RuntimeCall) (rt : Runtime) : Runtime :=
  match k with
  | RtCandidates config model => snd (provider_candidates config model rt)
  | RtRelayCandidate cs => snd (relay_candidate cs rt)
  | RtKeyAvailable c => snd (provider_key_is_available c rt)
  | RtKeySuccess c => snd (record_provider_key_success c rt)
  | RtKeyFailure c e => snd (record_provider_key_failure c e rt)
  | RtReleaseKeys cs => snd (release_key_cooldowns_when_all_are_blocked cs rt)
  | RtClearKey config p key => snd (clear_provider_key_block config p key rt)
  | RtCircuitAllows c => snd (circuit_allows c rt)
  | RtReleaseCircuits cs => snd (release_circuits_when_all_are_open cs rt)
  | RtSuccess c s => snd (record_provider_success c s rt)
  | RtFailure c s => snd (record_provider_failure c s rt)
  end.

Definition run_rt_calls (ks : list RuntimeCall) (rt : Runtime) : Runtime :=
  foldl (fun rt k => run_rt_call k rt) rt ks.

(** Calls that leave a table alone. *)
Definition health_same {A : Type} (m : R A) : Prop :=
  forall rt, rt_key_health (snd (m rt)) = rt_key_health rt.

Lemma keeps_health_same {A : Type} (P : gmap (list N) ProviderKeyHealth -> Prop) (m : R A) :
  health_same m -> keeps (fun rt => P (rt_key_health rt)) m.
Proof. intros H rt. by rewrite H. Qed.

Lemma circuit_allows_health c : health_same (circuit_allows c).
Proof.
  intros rt. unfold circuit_allows, rthen. simpl.
  destruct (ct_opened_until _) as [u|]; [|done]. simpl. by destruct (_ <? u)%Z.
Qed.

Lemma record_failure_health c s : health_same (record_provider_failure c s).
Proof. intros rt. unfold record_provider_failure. by destruct (failure_opens _ _). Qed.

Lemma release_circuits_health cs : health_same (release_circuits_when_all_are_open cs).
Proof. intros rt. unfold release_circuits_when_all_are_open, rthen. simpl. by destruct (_ && _). Qed.

Lemma select_key_health p : health_same (select_provider_key p).
Proof.
  intros rt. unfold select_provider_key. destruct (cp_api_keys p); [destruct (cp_api_key p)|]; simpl;
    try done; by destruct (select_key _ _).
Qed.

Lemma select_route_health m es : health_same (select_route m es).
Proof. intros rt. unfold select_route. by destruct (select_weighted _ _). Qed.

(** What the single steps preserve is preserved by the choice of candidates. *)
Section Composite.
Context (P : Runtime -> Prop).
Context (Hkey : forall c, keeps P (provider_key_is_available c)).
Context (Hcircuit : forall c, keeps P (circuit_allows c)).

Lemma usable_keeps c : keeps P (candidate_usable c).
Proof.
  unfold candidate_usable. apply keeps_then; [done|]. intros []; auto with xc_keeps.
Qed.

Lemma candidates_keep config model :
  (forall p, keeps P (select_provider_key p)) -> (forall m es, keeps P (select_route m es)) ->
  keeps P (provider_candidates config model).
Proof.
  intros Hselect Hroute. pose proof usable_keeps as Hu.
  assert (forall p a ov, keeps P (expand_provider_candidates config p a ov)) as Hexp.
  { intros p a ov. unfold expand_provider_candidates, provider_candidate_keys.
    apply keeps_then; [|auto with xc_keeps]. destruct (1 <? _); auto with xc_keeps. }
  unfold provider_candidates. destruct (negb _); [|auto with xc_keeps].
  unfold routed_provider_candidates. apply keeps_then.
  { apply keeps_run_all. intros [p r]. auto with xc_keeps. }
  intros all. apply keeps_then; [auto with xc_keeps|]. intros usable.
  destruct (1 <? _); auto with xc_keeps.
Qed.

Lemma relay_keeps cs :
  keeps P (release_key_cooldowns_when_all_are_blocked cs) ->
  keeps P (release_circuits_when_all_are_open cs) -> keeps P (relay_candidate cs).
Proof.
  intros Hk Hc. pose proof usable_keeps as Hu. unfold relay_candidate.
  apply keeps_then; [auto with xc_keeps|]. intros [c|]; auto with xc_keeps.
Qed.
End Composite.

(** ** Rejected credentials *)

Definition rejected (id : str) (h : gmap (list N) ProviderKeyHealth) : Prop :=
  option_map kh_block (h !! id) = Some (Some KeyRejected).

Lemma rejected_insert id id' (x : ProviderKeyHealth) h :
  rejected id h -> (id' = id -> kh_block x = Some KeyRejected) -> rejected id (<[id' := x]> h).
Proof.
  unfold rejected. intros H Hx. destruct (decide (id' = id)) as [->|Hne].
  - rewrite lookup_insert_eq. simpl. by rewrite Hx.
  - by rewrite lookup_insert_ne.
Qed.

Lemma health_at_rejected id rt :
  rejected id (rt_key_health rt) -> kh_block (health_at id rt) = Some KeyRejected.
Proof. unfold rejected, health_at. destruct (_ !! id); simpl; intros H; by simplify_eq. Qed.

(** A check answers by the block and the clock, and clears what has expired. *)
Lemma available_effect c rt :
  let h := health_at (health_id c) rt in
  let blocked := key_blocked (instant (rt_ticks rt)) h in
  fst (provider_key_is_available c rt) = negb blocked
  /\ rt_key_health (snd (provider_key_is_available c rt))
     = <[health_id c := if blocked then h else
                          if decide (kh_block h = None) then h else unblocked h]> (rt_key_health rt)
  /\ rt_circuits (snd (provider_key_is_available c rt)) = rt_circuits rt.
Proof.
  cbv zeta. unfold provider_key_is_available, rthen, key_blocked.
  set (h := health_at (health_id c) rt). destruct (kh_block h) as [[]|] eqn:Hb; simpl; [done|..|done].
  all: destruct (kh_blocked_until h) as [u|]; simpl; [destruct (_ <? u)%Z; simpl; [done|]|];
    by rewrite insert_insert_eq.
Qed.

Lemma available_keeps_rejected id c :
  keeps (fun rt => rejected id (rt_key_health rt)) (provider_key_is_available c).
Proof.
  intros rt H. destruct (available_effect c rt) as (_ & -> & _). apply rejected_insert; [done|].
  intros <-. unfold key_blocked. by rewrite !health_at_rejected.
Qed.

Lemma release_keeps_rejected id cs :
  keeps (fun rt => rejected id (rt_key_health rt)) (release_key_cooldowns_when_all_are_blocked cs).
Proof.
  intros rt H. unfold release_key_cooldowns_when_all_are_blocked, rthen. simpl.
  destruct (is_empty _); [done|]. destruct (forallb _ _); [|done]. simpl. clear -H.
  generalize (map health_id cs) as ids. intros ids. revert H. generalize (rt_key_health rt) as h.
  induction ids as [|i ids IH]; intros h H; simpl; [done|]. apply IH.
  unfold rejected in *. destruct (decide (i = id)) as [->|Hne].
  - rewrite lookup_alter_eq. destruct (h !! id) as [x|]; [|done]. simpl in *.
    unfold release_key. rewrite bool_decide_eq_true_2; congruence.
  - by rewrite lookup_alter_ne.
Qed.

Lemma call_keeps_rejected id k rt :
  reports_on id k = false -> rejected id (rt_key_health rt) ->
  rejected id (rt_key_health (run_rt_call k rt)).
Proof.
  set (Q := fun rt => rejected id (rt_key_health rt)).
  assert (forall c, keeps Q (provider_key_is_available c)) as Hav by apply available_keeps_rejected.
  assert (forall c, keeps Q (circuit_allows c)) as Hci.
  { intros c. apply keeps_health_same, circuit_allows_health. }
  destruct k; simpl; intros Hr H.
  - apply (candidates_keep Q); try done; intros; apply keeps_health_same;
      [apply select_key_health|apply select_route_health].
  - apply (relay_keeps Q); try done; [apply release_keeps_rejected|].
    apply keeps_health_same, release_circuits_health.
  - by apply available_keeps_rejected.
  - apply rejected_insert; [done|]. apply str_eqb_false in Hr. congruence.
  - apply str_eqb_false in Hr. unfold record_provider_key_failure, rthen.
    destruct (classify_provider_key_failure e) as [[]|]; simpl; apply rejected_insert; done.
  - by apply release_keeps_rejected.
  - apply bool_decide_eq_false_1 in Hr. unfold clear_provider_key_block.
    destruct (configured_health_id _ _ _) as [i|]; [|done].
    destruct (rt_key_health rt !! i) eqn:Hi; [|done]. apply rejected_insert; [done|]. congruence.
  - by rewrite circuit_allows_health.
  - by rewrite release_circuits_health.
  - done.
  - by rewrite record_failure_health.
Qed.

(** A credential that was rejected is not offered again after any sequence of
    selections, checks, releases and reports on other credentials: only a report on it
    or the user's reset can bring it back. *)
Theorem rejected_key_stays_out c ks rt :
  kh_block (health_at (health_id c) rt) = Some KeyRejected ->
  Forall (fun k => reports_on (health_id c) k = false) ks ->
  fst (provider_key_is_available c (run_rt_calls ks rt)) = false.
Proof.
  intros Hb Hks. assert (rejected (health_id c) (rt_key_health rt)) as H.
  { unfold health_at in Hb. unfold rejected. destruct (_ !! _); simpl in *; congruence. }
  clear Hb. revert rt H. induction Hks as [|k ks Hk Hks IH]; intros rt H; simpl.
  - destruct (available_effect c rt) as (-> & _). unfold key_blocked. by rewrite health_at_rejected.
  - apply IH. by apply call_keeps_rejected.
Qed.
End Calls.

(** ** Cooldowns *)

Section Cooldown.
Context {K : Clock}.

(** How long a failure blocks a key: the endpoint's own hint for a rate limit,
    otherwise a step of the ladder of its class. *)
Definition cooldown_of (e : AgentError) (b : ProviderKeyBlock) (strikes : Z) : Z :=
  match b with
  | KeyRateLimited =>
    default (cooldown_step RATE_LIMIT_COOLDOWNS_SECS strikes)
      (match e with AgentProvider pe => retry_after pe | _ => None end)
  | _ => cooldown_step UNSTABLE_COOLDOWNS_SECS strikes
  end.

Definition next_strikes (b : ProviderKeyBlock) (old : ProviderKeyHealth) : Z :=
  if bool_decide (kh_block old = Some b) then sat U32 (kh_cooldown_strikes old + 1) else 1%Z.

Lemma cooldown_step_bounds ladder strikes :
  length ladder = 3 ->
  exists i, i < 3 /\ cooldown_step ladder strikes = (default 0 (ladder !! i) * NANOS_PER_SEC)%Z.
Proof.
  intros Hl. unfold cooldown_step. rewrite Hl. eexists. split; [|reflexivity]. lia.
Qed.

Lemma key_failure_effect c e b rt :
  classify_provider_key_failure e = Some b -> b <> KeyRejected ->
  let d := cooldown_of e b (next_strikes b (health_at (health_id c) rt)) in
  exists h rt1, record_provider_key_failure c e rt = (Some b, rt1)
    /\ rt_key_health rt1 !! health_id c = Some h
    /\ kh_block h = Some b /\ kh_blocked_until h = Some (instant (rt_ticks rt) + d)%Z.
Proof.
  intros Hc Hb d. unfold record_provider_key_failure, rthen. rewrite Hc. cbv zeta.
  fold (next_strikes b (health_at (health_id c) rt)).
  destruct b; [done|..]; do 2 eexists; (split; [reflexivity|]); simpl;
    rewrite lookup_insert_eq; done.
Qed.

(** After a failure that blocks a credential for a time the credential is
    unavailable until exactly that time has passed; without a hint of the endpoint the
    time is between 10 and 120 seconds. *)
Theorem cooldown_window c e b rt :
  classify_provider_key_failure e = Some b -> b <> KeyRejected ->
  let d := cooldown_of e b (next_strikes b (health_at (health_id c) rt)) in
  exists rt1, record_provider_key_failure c e rt = (Some b, rt1)
    /\ (forall rt2, rt_key_health rt2 !! health_id c = rt_key_health rt1 !! health_id c ->
         fst (provider_key_is_available c rt2)
         = (instant (rt_ticks rt) + d <=? instant (rt_ticks rt2))%Z)
    /\ ((forall pe, e = AgentProvider pe -> retry_after pe = None) ->
         (10 * NANOS_PER_SEC <= d <= 120 * NANOS_PER_SEC)%Z).
Proof.
  intros Hc Hb d. destruct (key_failure_effect c e b rt Hc Hb) as (h & rt1 & Heq & Hrt & Hbl & Hun).
  exists rt1. split; [done|]. split.
  - intros rt2 H2. destruct (available_effect c rt2) as (-> & _).
    unfold health_at. rewrite H2, Hrt. unfold key_blocked. simpl. rewrite Hbl, Hun. fold d.
    destruct b; [done|..]; by rewrite Z.leb_antisym.
  - intros Hnone. subst d. unfold cooldown_of.
    assert (match e with AgentProvider pe => retry_after pe | _ => None end = None) as ->.
    { destruct e; try done. by apply Hnone. }
    destruct b; [done|..]; simpl;
      match goal with |- context [cooldown_step ?l ?s] =>
        destruct (cooldown_step_bounds l s eq_refl) as (i & Hi & ->) end;
      (destruct i as [|[|[|i]]]; [..|lia]); unfold NANOS_PER_SEC; simpl; lia.
Qed.
End Cooldown.

(** ** The circuit breaker *)

Section Circuit.
Context {K : Clock}.

(** Counters stay in their width, failures are requests, and a circuit is not
    open and half-open at once. *)
Record circuit_ok (s : CircuitState) : Prop := {
  co_consecutive : (0 <= ct_consecutive_failures s < U32)%Z;
  co_failures : (0 <= ct_failure_count s <= ct_request_count s)%Z;
  co_requests : (ct_request_count s < U32)%Z;
  co_successes : (0 <= ct_half_open_successes s < U32)%Z;
  co_state : ct_half_open s = true -> ct_opened_until s = None;
}.

Definition circuits_ok (m : gmap (list N) CircuitState) : Prop := map_Forall (fun _ s => circuit_ok s) m.

Ltac circuit_fields := constructor; simpl; unfold sat, U32 in *; first [done | by auto | lia].

Lemma default_circuit_ok : circuit_ok default_circuit.
Proof. by constructor; simpl. Qed.

Lemma half_open_ok s : circuit_ok s -> circuit_ok (half_open_circuit s).
Proof. intros []. by constructor. Qed.

Lemma success_ok settings s : circuit_ok s -> circuit_ok (circuit_success settings s).
Proof.
  intros []. unfold circuit_success. destruct (ct_half_open s) eqn:Hh.
  - destruct (_ <=? _)%Z; [apply default_circuit_ok|]. circuit_fields.
  - circuit_fields.
Qed.

Lemma count_failure_ok s : circuit_ok s -> circuit_ok (count_failure s).
Proof. intros []. circuit_fields. Qed.

Lemma reopened_ok s until :
  circuit_ok s ->
  circuit_ok (mkCircuit (ct_consecutive_failures s) (ct_request_count s) (ct_failure_count s)
                (Some until) false 0).
Proof. intros []. by constructor. Qed.

Lemma circuit_at_ok key rt : circuits_ok (rt_circuits rt) -> circuit_ok (circuit_at key rt).
Proof.
  intros H. unfold circuit_at. destruct (_ !! key) as [s|] eqn:Hs; [by apply (H key)|apply default_circuit_ok].
Qed.

Definition Okc (rt : Runtime) : Prop := circuits_ok (rt_circuits rt).

Lemma keeps_put key c : circuit_ok c -> keeps Okc (put_circuit key c).
Proof. intros Hc rt H. by apply map_Forall_insert_2. Qed.

Lemma circuit_allows_keeps c : keeps Okc (circuit_allows c).
Proof.
  intros rt H. pose proof (circuit_at_ok (provider_circuit_key c) rt H) as Hc.
  unfold circuit_allows. apply (keeps_then Okc); [by apply keeps_put|intros _|done].
  destruct (ct_opened_until _) as [u|]; [|apply keeps_ret].
  apply keeps_then; [intros ? ?; done|]. intros now. destruct (_ <? u)%Z; [apply keeps_ret|].
  apply keeps_then; [by apply keeps_put, half_open_ok|intros; apply keeps_ret].
Qed.

Lemma failure_keeps c s : keeps Okc (record_provider_failure c s).
Proof.
  intros rt H. pose proof (count_failure_ok _ (circuit_at_ok (provider_circuit_key c) rt H)) as Hc.
  unfold record_provider_failure. destruct (failure_opens _ _); [|by apply keeps_put].
  apply (keeps_then Okc); [intros ? ?; done|intros; by apply keeps_put, reopened_ok|done].
Qed.

Lemma release_circuits_keeps cs : keeps Okc (release_circuits_when_all_are_open cs).
Proof.
  intros rt H. unfold release_circuits_when_all_are_open, rthen. simpl. destruct (_ && _); [|done].
  unfold Okc in *. simpl. generalize (map provider_circuit_key cs) as keys. intros keys. revert H.
  generalize (rt_circuits rt) as m. induction keys as [|k keys IH]; intros m H; simpl; [done|].
  apply IH. intros i x Hx. apply lookup_alter_Some in Hx as [(-> & y & Hy & ->)|[_ Hx]];
    [by eapply half_open_ok, (H i)|by apply (H i)].
Qed.

Lemma call_keeps_circuits k : keeps Okc (fun rt => (tt, run_rt_call k rt)).
Proof.
  assert (forall c, keeps Okc (provider_key_is_available c)) as Hav.
  { intros c rt H. unfold Okc. by destruct (available_effect c rt) as (_ & _ & ->). }
  assert (forall cs, keeps Okc (release_key_cooldowns_when_all_are_blocked cs)) as Hrel.
  { intros cs rt H. unfold release_key_cooldowns_when_all_are_blocked, rthen. simpl.
    destruct (is_empty _); [done|]. by destruct (forallb _ _). }
  intros rt H. destruct k; simpl.
  - apply (candidates_keep Okc); try done; [apply circuit_allows_keeps|..].
    + intros p rt' H'. unfold select_provider_key.
      destruct (cp_api_keys p); [destruct (cp_api_key p)|]; simpl; try done; by destruct (select_key _ _).
    + intros m es rt' H'. unfold select_route. by destruct (select_weighted _ _).
  - apply (relay_keeps Okc); try done; [apply circuit_allows_keeps|apply release_circuits_keeps].
  - by apply Hav.
  - done.
  - unfold record_provider_key_failure, rthen. by destruct (classify_provider_key_failure e) as [[]|].
  - by apply Hrel.
  - unfold clear_provider_key_block. destruct (configured_health_id _ _ _) as [i|]; [|done].
    by destruct (rt_key_health rt !! i).
  - by apply circuit_allows_keeps.
  - by apply release_circuits_keeps.
  - apply (keeps_put (provider_circuit_key c)); [|done]. by apply success_ok, circuit_at_ok.
  - by apply failure_keeps.
Qed.

Lemma reachable_circuits ks : Okc (run_rt_calls ks new_runtime).
Proof.
  assert (Okc new_runtime) as H by apply map_Forall_empty. revert H. generalize new_runtime as rt.
  induction ks as [|k ks IH]; intros rt H; simpl; [done|]. apply IH.
  by apply (call_keeps_circuits k rt).
Qed.

Fixpoint fail_times (n : nat) (c : ProviderCandidate) (s : CircuitSettings) (rt : Runtime) : Runtime :=
  match n with
  | 0 => rt
  | S k => snd (record_provider_failure c s (fail_times k c s rt))
  end.
Fixpoint succeed_times (n : nat) (c : ProviderCandidate) (s : CircuitSettings) (rt : Runtime) : Runtime :=
  match n with
  | 0 => rt
  | S k => snd (record_provider_success c s (succeed_times k c s rt))
  end.

Lemma circuit_at_put key c rt : circuit_at key (snd (put_circuit key c rt)) = c.
Proof. unfold circuit_at. simpl. by rewrite lookup_insert_eq. Qed.

Lemma failure_effect c settings rt :
  let key := provider_circuit_key c in
  let s := count_failure (circuit_at key rt) in
  circuit_at key (snd (record_provider_failure c settings rt))
  = if failure_opens settings s
    then mkCircuit (ct_consecutive_failures s) (ct_request_count s) (ct_failure_count s)
           (Some (instant (rt_ticks rt) + cs_recovery_wait settings)%Z) false 0
    else s.
Proof.
  unfold record_provider_failure. cbv zeta. destruct (failure_opens _ _); [|apply circuit_at_put].
  unfold rthen, circuit_at. simpl. by rewrite lookup_insert_eq.
Qed.

(** Failures in a row are counted, whether or not they open the circuit. *)
Lemma fail_times_consecutive n c settings rt :
  circuit_ok (circuit_at (provider_circuit_key c) rt) -> (Z.of_nat n < U32)%Z ->
  (Z.of_nat n <= ct_consecutive_failures (circuit_at (provider_circuit_key c) (fail_times n c settings rt)))%Z.
Proof.
  intros Hok. induction n as [|n IH]; intros Hn; simpl; [apply (co_consecutive _ Hok)|].
  specialize (IH ltac:(lia)). rewrite failure_effect.
  destruct (failure_opens _ _); simpl; unfold sat; lia.
Qed.

Lemma fail_opens n c settings rt :
  circuit_ok (circuit_at (provider_circuit_key c) rt) ->
  (Z.of_nat (S n) < U32)%Z -> (cs_failure_threshold settings <= Z.of_nat (S n))%Z ->
  exists t, ct_opened_until (circuit_at (provider_circuit_key c) (fail_times (S n) c settings rt))
              = Some (instant t + cs_recovery_wait settings)%Z
    /\ t = rt_ticks (fail_times n c settings rt)
    /\ ct_half_open (circuit_at (provider_circuit_key c) (fail_times (S n) c settings rt)) = false.
Proof.
  intros Hok Hn Ht. pose proof (fail_times_consecutive (S n) c settings rt Hok Hn) as Hc.
  simpl in *. rewrite failure_effect in *.
  destruct (failure_opens settings _) eqn:Ho; [by eexists|].
  exfalso. unfold failure_opens in Ho. apply orb_false_iff in Ho as [Ho _].
  apply orb_false_iff in Ho as [_ Ho]. apply Z.leb_gt in Ho. lia.
Qed.

Lemma allows_effect c rt :
  let s := circuit_at (provider_circuit_key c) rt in
  fst (circuit_allows c rt) = negb (circuit_open (instant (rt_ticks rt)) s)
  /\ circuit_at (provider_circuit_key c) (snd (circuit_allows c rt))
     = if circuit_open (instant (rt_ticks rt)) s then s
       else match ct_opened_until s with Some _ => half_open_circuit s | None => s end.
Proof.
  cbv zeta. unfold circuit_allows, rthen, circuit_open. simpl.
  set (s := circuit_at (provider_circuit_key c) rt).
  destruct (ct_opened_until s) as [u|]; simpl; [destruct (_ <? u)%Z|]; simpl; split; try done;
    unfold circuit_at; simpl; by rewrite lookup_insert_eq.
Qed.

(** Successes in the half-open state are counted until the circuit closes. *)
Lemma succeed_times_half_open n c settings rt :
  let key := provider_circuit_key c in
  ct_half_open (circuit_at key rt) = true -> ct_half_open_successes (circuit_at key rt) = 0%Z ->
  (Z.of_nat n < Z.max 1 (cs_recovery_success_threshold settings) < U32)%Z ->
  ct_half_open (circuit_at key (succeed_times n c settings rt)) = true
  /\ ct_half_open_successes (circuit_at key (succeed_times n c settings rt)) = Z.of_nat n.
Proof.
  intros key Hh Hs. induction n as [|n IH]; intros Hn; cbn [succeed_times]; [done|].
  destruct (IH ltac:(lia)) as [Hh' Hs']. unfold record_provider_success.
  cbv beta zeta. fold key. rewrite circuit_at_put. unfold circuit_success. rewrite Hh', Hs'. unfold sat.
  rewrite Z.min_l by lia. rewrite (proj2 (Z.leb_gt _ _)) by lia. simpl. split; [done|lia].
Qed.

Lemma succeed_closes n c settings rt :
  let key := provider_circuit_key c in
  ct_half_open (circuit_at key rt) = true -> ct_half_open_successes (circuit_at key rt) = 0%Z ->
  Z.of_nat n = Z.max 1 (cs_recovery_success_threshold settings) -> (Z.of_nat n < U32)%Z ->
  circuit_at key (succeed_times n c settings rt) = default_circuit.
Proof.
  intros key Hh Hs Hn Hu. destruct n as [|n]; [lia|]. cbn [succeed_times].
  destruct (succeed_times_half_open n c settings rt Hh Hs ltac:(lia)) as [Hh' Hs'].
  unfold record_provider_success. cbv beta zeta. fold key in Hh', Hs' |- *. rewrite circuit_at_put.
  unfold circuit_success. rewrite Hh', Hs'. unfold sat. rewrite Z.min_l by lia.
  by rewrite (proj2 (Z.leb_le _ _)) by lia.
Qed.

(** On every reachable runtime, as many failures in a row as the threshold open the
    circuit: requests are refused until the recovery wait has passed, the next check
    admits them half-open, one more failure opens the circuit again at once, and the
    recovery threshold of successes closes it with all counters reset. *)
Theorem circuit_breaker_cycle ks c s n :
  let rt := run_rt_calls ks new_runtime in
  let key := provider_circuit_key c in
  (cs_failure_threshold s <= Z.of_nat (S n) < U32)%Z ->
  (Z.max 1 (cs_recovery_success_threshold s) < U32)%Z ->
  exists until,
    until = (instant (rt_ticks (fail_times n c s rt)) + cs_recovery_wait s)%Z
    /\ forall rt2, circuit_at key rt2 = circuit_at key (fail_times (S n) c s rt) ->
         let t := instant (rt_ticks rt2) in
         let rt3 := snd (circuit_allows c rt2) in
         ((t < until)%Z -> fst (circuit_allows c rt2) = false /\ circuit_at key rt3 = circuit_at key rt2)
         /\ ((until <= t)%Z ->
              fst (circuit_allows c rt2) = true
              /\ (exists t', ct_opened_until (circuit_at key (snd (record_provider_failure c s rt3)))
                             = Some (instant t' + cs_recovery_wait s)%Z)
              /\ forall m, Z.of_nat m = Z.max 1 (cs_recovery_success_threshold s) ->
                   circuit_at key (succeed_times m c s rt3) = default_circuit).
Proof.
  intros rt key Hn Hr.
  destruct (fail_opens n c s rt) as (t & Hop & -> & Hh); [apply circuit_at_ok, reachable_circuits|lia|lia|].
  eexists. split; [reflexivity|]. intros rt2 H2 t rt3. fold key in Hop, Hh.
  destruct (allows_effect c rt2) as [Ha Hs]. fold key rt3 in Ha, Hs. rewrite H2 in Ha, Hs |- *.
  fold t in Ha, Hs. unfold circuit_open in Ha, Hs. rewrite Hop in Ha, Hs.
  split; intros Ht.
  - rewrite (proj2 (Z.ltb_lt _ _) Ht) in Ha, Hs. done.
  - rewrite (proj2 (Z.ltb_ge _ _) Ht) in Ha, Hs. split; [done|]. split.
    + exists (rt_ticks rt3). unfold key. rewrite failure_effect. fold key. rewrite Hs. simpl. done.
    + intros m Hm. apply succeed_closes; fold key; [by rewrite Hs|by rewrite Hs|done|lia].
Qed.
End Circuit.

(** ** Releases *)

Section Release.
Context {K : Clock}.

Lemma foldl_alter_other {A} (f : A -> A) (ids : list (list N)) (m : gmap (list N) A) i :
  i ∉ ids -> foldl (fun m id => alter f id m) m ids !! i = m !! i.
Proof.
  revert m. induction ids as [|k ids IH]; intros m Hi; simpl; [done|].
  rewrite IH by set_solver. apply lookup_alter_ne. set_solver.
Qed.

Lemma foldl_alter {A} (f : A -> A) (ids : list (list N)) (m : gmap (list N) A) i :
  (forall x, f (f x) = f x) -> i ∈ ids ->
  foldl (fun m id => alter f id m) m ids !! i = f <$> m !! i.
Proof.
  intros Hf. revert m. induction ids as [|k ids IH]; intros m Hi; simpl; [set_solver|].
  destruct (decide (k = i)) as [->|Hne].
  - destruct (decide (i ∈ ids)); [rewrite IH by done|rewrite foldl_alter_other by done];
      rewrite lookup_alter_eq; [|done]. destruct (m !! i); simpl; [by rewrite Hf|done].
  - rewrite IH by set_solver. by rewrite lookup_alter_ne.
Qed.

Lemma release_key_idem h : release_key (release_key h) = release_key h.
Proof.
  unfold release_key. destruct (bool_decide (kh_block h = Some KeyRejected)) eqn:E; [by rewrite E|done].
Qed.

(** Every candidate has a block that holds now. *)
Definition all_keys_blocked (cs : list ProviderCandidate) (rt : Runtime) : bool :=
  forallb (fun c => key_blocked (instant (rt_ticks rt)) (health_at (health_id c) rt)) cs.
Definition all_circuits_open (cs : list ProviderCandidate) (rt : Runtime) : bool :=
  forallb (fun c => circuit_open (instant (rt_ticks rt)) (circuit_at (provider_circuit_key c) rt)) cs.

Lemma all_keys_blocked_ids cs rt :
  forallb (fun id => match rt_key_health rt !! id with
                     | Some h => key_blocked (instant (rt_ticks rt)) h
                     | None => false
                     end) (map health_id cs) = all_keys_blocked cs rt.
Proof.
  unfold all_keys_blocked, health_at. induction cs as [|c cs IH]; simpl; [done|]. rewrite IH.
  by destruct (_ !! health_id c).
Qed.

Lemma all_circuits_open_keys cs rt :
  forallb (fun k => match rt_circuits rt !! k with
                    | Some s => circuit_open (instant (rt_ticks rt)) s
                    | None => false
                    end) (map provider_circuit_key cs) = all_circuits_open cs rt.
Proof.
  unfold all_circuits_open, circuit_at. induction cs as [|c cs IH]; simpl; [done|]. rewrite IH.
  by destruct (_ !! provider_circuit_key c).
Qed.

(** A release that does not apply only reads the clock. *)
Lemma release_keys_noop cs rt :
  all_keys_blocked cs rt = false ->
  release_key_cooldowns_when_all_are_blocked cs rt = (tt, snd (now_instant rt)).
Proof.
  intros H. unfold release_key_cooldowns_when_all_are_blocked, rthen. simpl.
  rewrite all_keys_blocked_ids, H. by destruct (is_empty _).
Qed.

Lemma release_circuits_noop cs rt :
  all_circuits_open cs rt = false ->
  release_circuits_when_all_are_open cs rt = (tt, snd (now_instant rt)).
Proof.
  intros H. unfold release_circuits_when_all_are_open, rthen. simpl.
  rewrite all_circuits_open_keys, H. by rewrite andb_false_r.
Qed.

(** When the keys of all candidates are blocked, the release makes every candidate
    available whose key was not rejected, and when the circuits of all candidates are
    open, the release admits every candidate. *)
Theorem releases_admit cs rt c :
  c ∈ cs ->
  (all_keys_blocked cs rt = true -> kh_block (health_at (health_id c) rt) <> Some KeyRejected ->
   fst (provider_key_is_available c (snd (release_key_cooldowns_when_all_are_blocked cs rt))) = true)
  /\ (all_circuits_open cs rt = true ->
      fst (circuit_allows c (snd (release_circuits_when_all_are_open cs rt))) = true).
Proof.
  intros Hc. assert (forall B (f : ProviderCandidate -> B), is_empty (map f cs) = false) as Hne.
  { intros B f. by destruct cs; [apply not_elem_of_nil in Hc|]. }
  split.
  - intros Hb Hr. unfold release_key_cooldowns_when_all_are_blocked, rthen. simpl.
    rewrite Hne, all_keys_blocked_ids, Hb. rewrite (proj1 (available_effect c _)).
    unfold health_at in *. simpl. rewrite foldl_alter by (apply release_key_idem || (apply list_elem_of_fmap; by exists c)).
    destruct (rt_key_health rt !! health_id c) as [h|]; [|done]. simpl in *.
    unfold release_key. by rewrite bool_decide_eq_false_2.
  - intros Hb. unfold release_circuits_when_all_are_open, rthen. simpl.
    rewrite Hne, all_circuits_open_keys, Hb. rewrite (proj1 (allows_effect c _)).
    unfold circuit_at. simpl. rewrite foldl_alter by (done || (apply list_elem_of_fmap; by exists c)).
    by destruct (rt_circuits rt !! provider_circuit_key c).
Qed.

(** ** Mixed blocks *)

(** Refused at every time before [T], by the key or by the circuit. *)
Definition refused (T : Z) (c : ProviderCandidate) (rt : Runtime) : Prop :=
  (forall t, (t < T)%Z -> key_blocked t (health_at (health_id c) rt) = true)
  \/ (forall t, (t < T)%Z -> circuit_open t (circuit_at (provider_circuit_key c) rt) = true).

Definition mixed (T : Z) (cs : list ProviderCandidate) (a b : ProviderCandidate) (rt : Runtime) : Prop :=
  (forall c, c ∈ cs -> refused T c rt)
  /\ ct_opened_until (circuit_at (provider_circuit_key a) rt) = None
  /\ kh_block (health_at (health_id b) rt) = None.

Section Mixed.
Context (T : Z) (HT : forall n, (instant n < T)%Z) (cs : list ProviderCandidate) (a b : ProviderCandidate).
Context (Ha : a ∈ cs) (Hb : b ∈ cs).

(** A check changes a key only if its block has expired. *)
Lemma available_health_at c id rt :
  let h := health_at id rt in
  health_at id (snd (provider_key_is_available c rt)) = h
  \/ (key_blocked (instant (rt_ticks rt)) h = false /\ kh_block h <> None).
Proof.
  cbv zeta. destruct (available_effect c rt) as (_ & Hh & _).
  destruct (decide (health_id c = id)) as [<-|Hne].
  - destruct (key_blocked (instant (rt_ticks rt)) (health_at (health_id c) rt)) eqn:Hk;
      [|destruct (decide (kh_block (health_at (health_id c) rt) = None))]; [left|left|by right];
      unfold health_at at 1; by rewrite Hh, lookup_insert_eq.
  - left. unfold health_at at 1. by rewrite Hh, lookup_insert_ne.
Qed.

Lemma allows_circuit_at c key rt :
  let s := circuit_at key rt in
  circuit_at key (snd (circuit_allows c rt)) = s
  \/ (circuit_open (instant (rt_ticks rt)) s = false /\ ct_opened_until s <> None).
Proof.
  cbv zeta. destruct (decide (provider_circuit_key c = key)) as [<-|Hne].
  - destruct (allows_effect c rt) as [_ ->].
    destruct (circuit_open _ _); [by left|]. destruct (ct_opened_until _) eqn:Hu; [by right|by left].
  - left. unfold circuit_allows, rthen. simpl.
    destruct (ct_opened_until _) as [u|]; simpl; [destruct (_ <? u)%Z|]; simpl;
      unfold circuit_at at 1; simpl; by rewrite !lookup_insert_ne by done.
Qed.

Lemma mixed_available c : keeps (mixed T cs a b) (provider_key_is_available c).
Proof.
  intros rt (Hr & Hca & Hkb). destruct (available_effect c rt) as (_ & _ & Hci).
  unfold mixed, refused, circuit_at in *. rewrite Hci. split; [|split; [done|]].
  - intros c' Hc'. destruct (Hr c' Hc') as [Hk|Hk]; [left|by right]. intros t Ht.
    destruct (available_health_at c (health_id c') rt) as [->|[Hf _]]; [by apply Hk|].
    by rewrite Hk in Hf by apply HT.
  - destruct (available_health_at c (health_id b) rt) as [->|[_ Hf]]; done.
Qed.

Lemma mixed_circuit c : keeps (mixed T cs a b) (circuit_allows c).
Proof.
  intros rt (Hr & Hca & Hkb). pose proof (circuit_allows_health c rt) as Hh.
  unfold mixed, refused, health_at in *. rewrite Hh. split; [|split; [|done]].
  - intros c' Hc'. destruct (Hr c' Hc') as [Hk|Hk]; [by left|right]. intros t Ht.
    destruct (allows_circuit_at c (provider_circuit_key c') rt) as [->|[Hf _]]; [by apply Hk|].
    by rewrite Hk in Hf by apply HT.
  - destruct (allows_circuit_at c (provider_circuit_key a) rt) as [->|[_ Hf]]; done.
Qed.

Lemma mixed_unusable c rt : c ∈ cs -> mixed T cs a b rt -> fst (candidate_usable c rt) = false.
Proof.
  intros Hc [Hr _]. unfold candidate_usable, rthen. pose proof (available_effect c rt) as (Hav & _ & Hci).
  destruct (provider_key_is_available c rt) as [[] rt']; simpl in *; [|done].
  rewrite (proj1 (allows_effect c rt')). apply negb_false_iff. unfold circuit_at. rewrite Hci.
  destruct (Hr c Hc) as [Hk|Hk]; [by rewrite Hk in Hav by apply HT|by apply Hk].
Qed.

Lemma mixed_find l rt :
  (forall c, c ∈ l -> c ∈ cs) -> mixed T cs a b rt -> fst (run_find candidate_usable l rt) = None.
Proof.
  revert rt. induction l as [|c l IH]; intros rt Hl Hm; simpl; [done|]. unfold rthen.
  pose proof (mixed_unusable c rt (Hl c ltac:(by left)) Hm) as Hu.
  pose proof (usable_keeps (mixed T cs a b) mixed_available mixed_circuit c rt Hm) as Hm'.
  destruct (candidate_usable c rt) as [u rt']. simpl in *. subst u. apply IH; [set_solver|done].
Qed.

(** Neither release applies: one circuit is closed and one key is free. *)
Lemma mixed_not_all rt :
  mixed T cs a b rt -> all_keys_blocked cs rt = false /\ all_circuits_open cs rt = false.
Proof.
  intros (_ & Hca & Hkb). split.
  - apply not_true_iff_false. intros Hall. unfold all_keys_blocked in Hall.
    rewrite forallb_forall in Hall. apply list_elem_of_In in Hb. specialize (Hall b Hb).
    unfold key_blocked in Hall. by rewrite Hkb in Hall.
  - apply not_true_iff_false. intros Hall. unfold all_circuits_open in Hall.
    rewrite forallb_forall in Hall. apply list_elem_of_In in Ha. specialize (Hall a Ha).
    unfold circuit_open in Hall. by rewrite Hca in Hall.
Qed.

(** When every candidate is refused but one by a cooling key and another by an open
    circuit, neither release applies and no candidate is chosen. *)
Theorem mixed_blocks_lock_out rt : mixed T cs a b rt -> fst (relay_candidate cs rt) = None.
Proof.
  intros Hm. unfold relay_candidate. unfold rthen at 1.
  pose proof (mixed_find cs rt ltac:(done) Hm) as Hf.
  pose proof (keeps_run_find _ _ cs (usable_keeps (mixed T cs a b) mixed_available mixed_circuit) rt Hm) as Hm'.
  destruct (run_find candidate_usable cs rt) as [r rt1]. simpl in *. subst r.
  unfold rthen. rewrite (release_keys_noop cs rt1 (proj1 (mixed_not_all rt1 Hm'))).
  rewrite (release_circuits_noop cs _ (proj2 (mixed_not_all (snd (now_instant rt1)) Hm'))).
  by apply mixed_find.
Qed.
End Mixed.
End Release.

(** ** Example runs *)

Definition demo_clock : Clock := fun n => (Z.of_nat n * NANOS_PER_SEC)%Z.
Definition still_clock : Clock := fun _ => 0%Z.

Definition demo_provider (id : str) (trust : ProviderTrustLevel) : CloudProviderConfig :=
  mkProvider id id $"https://api.example" ChatCompletions trust None
    [mkApiKey $"k1" [] $"secret-one" 2 true; mkApiKey $"k2" [] $"secret-two" 1 true] None.
Definition demo_user_config : UserConfig :=
  mkUserConfig (Some $"top") [demo_provider $"p" Official; demo_provider $"q" Official;
                              demo_provider $"r" Relay] (Some $"p") true [].
Definition demo_candidate (id key : str) : ProviderCandidate :=
  mkCandidate id key id $"https://api.example" ChatCompletions Official (Some $"secret-one") None.
Definition demo_settings : CircuitSettings :=
  mkCircuitSettings 3 2 (60 * NANOS_PER_SEC) 50 10.

Lemma candidates_within_trust_witness :
  Some Official = active_trust_level demo_user_config
  /\ exists p, p ∈ uc_providers demo_user_config /\ $"q" = cp_id p
       /\ $"https://api.example" = cp_base_url p /\ Official = cp_trust_level p
       /\ credential_source demo_user_config p (demo_candidate $"q" $"k1").
Proof.
  apply (@candidates_within_trust demo_clock demo_user_config) with
    (model := $"m") (rt := new_runtime) (c := demo_candidate $"q" $"k1").
  - apply (bool_decide_eq_true_1 (NoDup _)). vm_compute. reflexivity.
  - vm_compute. do 2 right. left.
Defined.

Definition rejecting : AgentError := AgentProvider (HttpStatus 401 [] None).
Definition limiting : AgentError := AgentProvider (HttpStatus 429 [] None).

Lemma rejected_key_stays_out_witness :
  fst (@provider_key_is_available demo_clock (demo_candidate $"p" $"k1")
    (@run_rt_calls demo_clock
       [RtCandidates demo_user_config $"m"; RtReleaseKeys [demo_candidate $"p" $"k1"];
        RtKeySuccess (demo_candidate $"q" $"k1")]
       (snd (@record_provider_key_failure demo_clock (demo_candidate $"p" $"k1") rejecting new_runtime))))
  = false.
Proof.
  apply (@rejected_key_stays_out demo_clock); [vm_compute; reflexivity|].
  repeat constructor.
Defined.

Lemma cooldown_window_witness :
  let c := demo_candidate $"p" $"k1" in
  exists rt1, @record_provider_key_failure demo_clock c limiting new_runtime = (Some KeyRateLimited, rt1)
    /\ (forall rt2, rt_key_health rt2 !! health_id c = rt_key_health rt1 !! health_id c ->
         fst (@provider_key_is_available demo_clock c rt2)
         = (@instant demo_clock 0 + cooldown_of limiting KeyRateLimited 1
            <=? @instant demo_clock (rt_ticks rt2))%Z)
    /\ ((forall pe, limiting = AgentProvider pe -> retry_after pe = None) ->
         (10 * NANOS_PER_SEC <= cooldown_of limiting KeyRateLimited 1 <= 120 * NANOS_PER_SEC)%Z).
Proof.
  apply (@cooldown_window demo_clock (demo_candidate $"p" $"k1") limiting KeyRateLimited new_runtime);
    [vm_compute; reflexivity|discriminate].
Defined.

Lemma circuit_breaker_cycle_witness :
  let c := demo_candidate $"p" $"k1" in
  let key := provider_circuit_key c in
  exists until,
    until = (@instant demo_clock (rt_ticks (@fail_times demo_clock 2 c demo_settings new_runtime))
             + cs_recovery_wait demo_settings)%Z
    /\ forall rt2, circuit_at key rt2 = circuit_at key (@fail_times demo_clock 3 c demo_settings new_runtime) ->
         let t := @instant demo_clock (rt_ticks rt2) in
         let rt3 := snd (@circuit_allows demo_clock c rt2) in
         ((t < until)%Z -> fst (@circuit_allows demo_clock c rt2) = false
                           /\ circuit_at key rt3 = circuit_at key rt2)
         /\ ((until <= t)%Z ->
              fst (@circuit_allows demo_clock c rt2) = true
              /\ (exists t', ct_opened_until (circuit_at key
                    (snd (@record_provider_failure demo_clock c demo_settings rt3)))
                    = Some (@instant demo_clock t' + cs_recovery_wait demo_settings)%Z)
              /\ forall m, Z.of_nat m = Z.max 1 (cs_recovery_success_threshold demo_settings) ->
                   circuit_at key (succeed_times m c demo_settings rt3) = default_circuit).
Proof.
  apply (@circuit_breaker_cycle demo_clock [] (demo_candidate $"p" $"k1") demo_settings 2);
    vm_compute; intuition discriminate.
Defined.

Lemma releases_admit_witness :
  let c := demo_candidate $"p" $"k1" in
  let rt := snd (@record_provider_key_failure demo_clock c limiting new_runtime) in
  (@all_keys_blocked demo_clock [c] rt = true ->
   kh_block (health_at (health_id c) rt) <> Some KeyRejected ->
   fst (@provider_key_is_available demo_clock c
          (snd (@release_key_cooldowns_when_all_are_blocked demo_clock [c] rt))) = true)
  /\ (@all_circuits_open demo_clock [c] rt = true ->
      fst (@circuit_allows demo_clock c
             (snd (@release_circuits_when_all_are_open demo_clock [c] rt))) = true).
Proof. apply (@releases_admit demo_clock). left. Defined.

(** One key is rate limited, the circuit of the other is open. *)
Definition mixed_runtime : Runtime :=
  let a := demo_candidate $"p" $"k1" in
  let b := demo_candidate $"p" $"k2" in
  @fail_times still_clock 3 b demo_settings
    (snd (@record_provider_key_failure still_clock a limiting new_runtime)).

Lemma mixed_blocks_lock_out_witness :
  fst (@relay_candidate still_clock [demo_candidate $"p" $"k1"; demo_candidate $"p" $"k2"] mixed_runtime)
  = None.
Proof.
  apply (@mixed_blocks_lock_out still_clock 1) with
    (a := demo_candidate $"p" $"k1") (b := demo_candidate $"p" $"k2").
  - intros n. vm_compute. reflexivity.
  - left.
  - right. left.
  - split; [|split; vm_compute; reflexivity]. intros c [->|[->|[]%not_elem_of_nil]%elem_of_cons]%elem_of_cons.
    + left. intros t Ht. unfold key_blocked.
      replace (kh_block _) with (Some KeyRateLimited) by (vm_compute; reflexivity).
      replace (kh_blocked_until _) with (Some (30 * NANOS_PER_SEC)%Z) by (vm_compute; reflexivity).
      apply Z.ltb_lt. unfold NANOS_PER_SEC. lia.
    + right. intros t Ht. unfold circuit_open.
      replace (ct_opened_until _) with (Some (60 * NANOS_PER_SEC)%Z) by (vm_compute; reflexivity).
      apply Z.ltb_lt. unfold NANOS_PER_SEC. lia.
Defined.

(** ** What the settings show *)

Section Shown.
Context {K : Clock}.

Lemma key_use_spec id rt :
  key_use (instant (rt_ticks rt)) (rt_key_health rt !! id) = Usable
  <-> key_blocked (instant (rt_ticks rt)) (health_at id rt) = false.
Proof.
  unfold key_use, key_blocked, health_at. destruct (rt_key_health rt !! id) as [h|]; simpl; [|done].
  destruct (kh_block h) as [[]|]; simpl; [done|..|done];
    (destruct (kh_blocked_until h) as [u|]; simpl; [|done]); by destruct (_ <? u)%Z.
Qed.

Lemma key_available_use c rt :
  fst (provider_key_is_available c rt) = true
  <-> key_use (instant (rt_ticks rt)) (rt_key_health rt !! health_id c) = Usable.
Proof.
  destruct (available_effect c rt) as (-> & _). by rewrite negb_true_iff, key_use_spec.
Qed.

Lemma key_state_ready now usable state :
  fst (key_state now usable state) = $"ready" <-> usable = true /\ key_use now state = Usable.
Proof.
  unfold key_state, key_use. destruct usable; simpl; [|by split; [|intros []]].
  destruct state as [h|]; simpl; [|done]. destruct (kh_block h) as [[]|]; simpl; [by split; [|intros []]|..|done];
    (destruct (kh_blocked_until h) as [u|]; simpl; [|done]); destruct (now <? u)%Z; simpl; by split; [|intros []].
Qed.

(** The state of a key is what the choice of a credential makes of it. *)
Definition gated_key (config : UserConfig) (rt : Runtime) (s : ProviderKeyStatus) : Prop :=
  exists provider entry, provider ∈ uc_providers config /\ entry ∈ listed_keys provider
  /\ ks_provider_id s = cp_id provider /\ ks_key_id s = ak_id entry
  /\ (ks_state s = $"ready" <-> usable_key entry = true /\
      fst (provider_key_is_available (candidate_of provider None (ak_id entry, Some (ak_key entry))) rt) = true)
  /\ (forall secs, ks_cooldown_secs s = Some secs -> ks_state s <> $"ready" /\ (1 <= secs)%Z).

Lemma key_cooldown now usable state secs :
  snd (key_state now usable state) = Some secs ->
  fst (key_state now usable state) <> $"ready" /\ (1 <= secs)%Z.
Proof.
  unfold key_state. destruct usable; simpl; [|done].
  destruct (state ≫= kh_block) as [[]|]; simpl; try done;
    (destruct (state ≫= kh_blocked_until) as [u|]; simpl; [|done]);
    (destruct (now <? u)%Z; simpl; [|done]); intros [= <-]; (split; [done|lia]).
Qed.

(** the view of the keys changes nothing but the clock, and a key is shown ready exactly
    when it is enabled, weighted and present and the gate of the rotation lets it through;
    a remaining cooldown is at least a second and only shown for a key that is not ready. *)
Theorem shown_keys_are_gated config rt :
  Forall (gated_key config rt) (fst (provider_key_statuses config rt))
  /\ rt_key_health (snd (provider_key_statuses config rt)) = rt_key_health rt
  /\ rt_circuits (snd (provider_key_statuses config rt)) = rt_circuits rt.
Proof.
  split; [|done]. apply Forall_forall. intros s Hs. simpl in Hs.
  apply elem_of_concat_map in Hs as (provider & Hp & Hs).
  apply list_elem_of_fmap in Hs as (entry & -> & He). exists provider, entry.
  split; [done|]. split; [done|]. unfold key_status.
  set (state := rt_key_health rt !! _).
  pose proof (key_state_ready (instant (rt_ticks rt)) (usable_key entry) state) as Hr.
  pose proof (key_cooldown (instant (rt_ticks rt)) (usable_key entry) state) as Hc.
  destruct (key_state _ _ _) as [label secs]. simpl in *. split; [done|]. split; [done|]. split; [|done].
  rewrite Hr, key_available_use. done.
Qed.

(** The routes as [normalize_user_config] leaves them: keyed by normalized ids. *)
Definition routes_ok (config : UserConfig) : Prop :=
  NoDup (map fst (uc_model_routes config))
  /\ forall model routes, (model, routes) ∈ uc_model_routes config ->
     normalized_model_id model = model /\ forall route, route ∈ routes -> (0 <= mr_weight route)%Z.

Definition eligible_route (config : UserConfig) (rt : Runtime) (s : ModelRouteStatus) : Prop :=
  exists route, rs_provider_id s = mr_provider_id route
  /\ (rs_state s = $"ready" <->
      exists provider key, (provider, route) ∈ eligible_model_routes config (rs_model s)
      /\ key ∈ provider_credential_list config provider (uc_active_provider_id config)
      /\ fst (provider_key_is_available (candidate_of provider (mr_model_override route) key) rt) = true).

Lemma btree_get_elem {V} (m : list (list N * V)) k v :
  NoDup (map fst m) -> (k, v) ∈ m -> btree_get k m = Some v.
Proof.
  induction m as [|[k' v'] m IH]; simpl; [set_solver|]. rewrite NoDup_cons, elem_of_cons.
  intros [Hk Hm] [[= -> ->]|Hin]; [by rewrite str_eqb_refl|].
  destruct (k =s k') eqn:E; [|by apply IH]. apply str_eqb_true in E. subst. destruct Hk.
  by apply (list_elem_of_fmap_2 fst _ (k', v)).
Qed.

Lemma count_use_pos x uses : (0 <? count_use x uses) = true <-> x ∈ uses.
Proof.
  unfold count_use. rewrite Nat.ltb_lt. split.
  - intros H. destruct (List.filter _ uses) as [|u l] eqn:Hf; [simpl in H; lia|].
    assert (In u (List.filter (fun u => bool_decide (u = x)) uses)) as Hin by (rewrite Hf; by left).
    apply filter_In in Hin as [Hin Hu]. apply bool_decide_eq_true in Hu. subst. by apply list_elem_of_In.
  - intros Hx. destruct (List.filter _ uses) as [|u l] eqn:Hf; [|simpl; lia].
    assert (In x []) as []. rewrite <- Hf. apply filter_In. split; [by apply list_elem_of_In|].
    by apply bool_decide_eq_true.
Qed.

Lemma route_state_ready provider route trust uses :
  (0 <= mr_weight route)%Z ->
  route_state provider route trust uses = $"ready" <->
  exists p, provider = Some p /\ mr_enabled route && (0 <? mr_weight route)%Z = true
    /\ Some (cp_trust_level p) = trust /\ Usable ∈ uses.
Proof.
  intros Hw. unfold route_state. destruct provider as [p|]; [|split; [done|by intros (? & ? & _)]].
  assert (negb (mr_enabled route) || (mr_weight route =? 0)%Z = negb (mr_enabled route && (0 <? mr_weight route)%Z))
    as ->.
  { destruct (mr_enabled route); simpl; [|done]. destruct (Z.eqb_spec (mr_weight route) 0) as [->|]; [done|].
    by rewrite (proj2 (Z.ltb_lt 0 (mr_weight route))) by lia. }
  destruct (mr_enabled route && _); simpl; [|split; [done|by intros (? & [= <-] & ? & _)]].
  case_bool_decide as Ht; simpl; [|split; [done|by intros (? & [= <-] & _ & ? & _)]].
  setoid_rewrite <- (count_use_pos Usable). destruct (0 <? count_use Usable uses).
  - split; [intros _; by exists p|done].
  - split; [|by intros (? & _ & _ & _ & ?)]. destruct (0 <? count_use Cooling uses); [done|].
    by destruct (0 <? count_use Blocked uses).
Qed.

(** a route is shown ready exactly when it is eligible for its model and some credential
    of its provider passes the gate of the rotation. *)
Theorem shown_routes_are_eligible config rt :
  routes_ok config -> Forall (eligible_route config rt) (fst (model_route_statuses config rt)).
Proof.
  intros [Hn Hok]. apply Forall_forall. intros s Hs. simpl in Hs.
  apply elem_of_concat_map in Hs as ([model routes] & Hm & Hs).
  apply list_elem_of_fmap in Hs as (route & -> & Hr). exists route. split; [done|].
  destruct (Hok model routes Hm) as [Hid Hw]. specialize (Hw route Hr).
  unfold eligible_model_routes. simpl rs_model. rewrite Hid, (btree_get_elem _ _ _ Hn Hm).
  unfold route_status. simpl rs_state. rewrite route_state_ready by done. split.
  - intros (provider & Hp & He & Ht & Hu). apply list_elem_of_fmap in Hu as (state & Hu & Hst).
    rewrite Hp in Hst. apply list_elem_of_fmap in Hst as ([kid key] & -> & Hk).
    exists provider, (kid, key). split; [|split; [done|by apply key_available_use]].
    apply list_elem_of_omap. exists route. rewrite Hp, bool_decide_true by done. split; [|done].
    apply list_elem_of_In, filter_In. by rewrite <- list_elem_of_In.
  - intros (provider & [kid key] & He & Hk & Ha). apply list_elem_of_omap in He as (r & Hin & He).
    destruct (find_provider config (mr_provider_id r)) as [q|] eqn:Hq; [|done].
    case_bool_decide as Ht; [|done]. injection He as -> ->.
    apply list_elem_of_In, filter_In in Hin as [_ Hin]. exists provider. rewrite Hq.
    split; [done|]. split; [done|]. split; [done|]. apply list_elem_of_fmap.
    eexists. split; [symmetry; by apply key_available_use|].
    apply (list_elem_of_fmap_2 (fun '(key_id, api_key) =>
             rt_key_health rt !! provider_key_health_id (cp_id provider) key_id api_key) _ (kid, key)). done.
Qed.
End Shown.

(** A route to a provider whose circuit is open: it is shown ready, with one usable key, while
    the circuit holds its only credential back. *)
Definition routed_config : UserConfig :=
  mkUserConfig None [mkProvider $"p" $"p" $"https://api.example" ChatCompletions Official None
                       [mkApiKey $"k1" [] $"secret-one" 1 true] None]
    (Some $"p") false [($"m", [mkRoute $"p" 1 true None])].

Theorem ready_route_with_open_circuit :
  let rt := @fail_times still_clock 3 (demo_candidate $"p" $"k1") demo_settings new_runtime in
  map (fun s => (rs_state s, rs_usable_key_count s)) (fst (@model_route_statuses still_clock routed_config rt))
  = [($"ready", 1)]
  /\ fst (@provider_candidates still_clock routed_config $"m" rt) = [demo_candidate $"p" $"k1"]
  /\ fst (@candidate_usable still_clock (demo_candidate $"p" $"k1") rt) = false.
Proof. vm_compute. done. Qed.

Lemma shown_routes_are_eligible_witness :
  Forall (@eligible_route still_clock routed_config new_runtime)
    (fst (@model_route_statuses still_clock routed_config new_runtime)).
Proof.
  apply (@shown_routes_are_eligible still_clock). split.
  - apply (bool_decide_eq_true_1 (NoDup _)). vm_compute. reflexivity.
  - intros model routes [= -> ->]%list_elem_of_singleton. split; [reflexivity|].
    intros route ->%list_elem_of_singleton. vm_compute. discriminate.
Defined.
