(* ===== verification/Transcript.v ===== *)
(** * The provider transcript (crates/xcoding-agent/src/lib.rs)

    The list of chat messages that a request carries: the estimate of its tokens
    against the context window of the model, the removal of its oldest blocks,
    and the repair of tool results that have lost their call. *)

From S2P Require Import Prelude Protocol Routing.
From Stdlib Require Import SpecFloat.

(** ** Messages (crates/xcoding-providers/src/lib.rs) *)

Inductive ChatContentPart := PartText (text : str) | PartImageUrl (url : str).
Inductive ChatMessageContent := ContentText (text : str) | ContentParts (parts : list ChatContentPart).

Record ProviderToolCall := mkProviderCall {
  ptc_id : str;
  ptc_kind : str;
  ptc_name : str;        (** [function.name] *)
  ptc_arguments : str;   (** [function.arguments] *)
  ptc_truncated : bool;
}.

Record ChatMessage := mkChat {
  cm_role : str;
  cm_content : option ChatMessageContent;
  cm_tool_calls : option (list ProviderToolCall);
  cm_tool_call_id : option str;
}.

Record ToolDefinition := mkToolDefinition {
  td_name : str;
  td_description : str;
  td_parameters : Value;
}.

Definition chat_text (role content : str) : ChatMessage :=
  mkChat role (Some (ContentText content)) None None.
Definition chat_system (content : str) : ChatMessage := chat_text $"system" content.
Definition chat_user (content : str) : ChatMessage := chat_text $"user" content.
Definition assistant_tool_calls (calls : list ProviderToolCall) : ChatMessage :=
  mkChat $"assistant" None (Some calls) None.
Definition tool_result (tool_call_id content : str) : ChatMessage :=
  mkChat $"tool" (Some (ContentText content)) None (Some tool_call_id).

Definition has_role (role : str) (m : ChatMessage) : bool := cm_role m =s role.

(** ** Binary64 arithmetic *)

Definition f64_of (m e : Z) : spec_float := binary_normalize 53 1024 m e false.
Definition F64_ONE : spec_float := f64_of 1 0.
Definition F64_EPSILON : spec_float := f64_of 1 (-52).

(** [f64::ceil] and the saturating cast to [usize]. *)
Definition ceil_usize (x : spec_float) : Z :=
  match x with
  | S754_finite false m e =>
    sat U64 (if (0 <=? e)%Z then Z.pos m * 2 ^ e else - (- Z.pos m / 2 ^ (- e)))
  | S754_infinity false => U64 - 1
  | _ => 0
  end%Z.

(** ** Estimates *)

Definition IMAGE_CONTEXT_TOKEN_ESTIMATE : Z := 2000.
Definition DEFAULT_CONTEXT_WINDOW : Z := 128000.
Definition REQUEST_TOKEN_OVERHEAD : Z := 128.
Definition MAX_TOOL_RESULT_CHARS : nat := Z.to_nat 24000.
Definition TOOL_OUTPUT_TRUNCATION_MARKER : str := LF :: $"[tool output truncated by Codex]".
Definition MIN_CONTEXT_COMPACTION_THRESHOLD_PERCENT : Z := 50.
Definition MAX_CONTEXT_COMPACTION_THRESHOLD_PERCENT : Z := 95.

Definition add64 (a b : Z) : Z := sat U64 (a + b).
Infix "+sat" := add64 (at level 50, left associativity) : xc_scope.

(** Quarters of a token; sums of 0.25 and 1.5 are exact in binary64 for every
    text that fits in memory. *)
Definition quarter_tokens (c : char) : Z :=
  if in_range 11904 40959 c || in_range 63744 64255 c then 6 else 1.

Definition estimate_text_tokens (value : str) : Z :=
  ((sumZ (map quarter_tokens value) + 3) / 4)%Z.

Definition estimate_part_tokens (p : ChatContentPart) : Z :=
  match p with
  | PartText text => estimate_text_tokens text
  | PartImageUrl _ => IMAGE_CONTEXT_TOKEN_ESTIMATE
  end.

Definition estimate_content_tokens (c : ChatMessageContent) : Z :=
  match c with
  | ContentText text => estimate_text_tokens text
  | ContentParts parts => sumZ (map estimate_part_tokens parts)
  end.

Definition estimate_chat_message_tokens (m : ChatMessage) : Z :=
  let tokens := estimate_text_tokens (cm_role m) +sat REQUEST_TOKEN_OVERHEAD in
  let tokens := match cm_content m with
                | Some content => tokens +sat estimate_content_tokens content
                | None => tokens
                end in
  let tokens := foldl (fun t call =>
    t +sat estimate_text_tokens (ptc_id call) +sat estimate_text_tokens (ptc_kind call)
      +sat estimate_text_tokens (ptc_name call) +sat estimate_text_tokens (ptc_arguments call))
    tokens (default [] (cm_tool_calls m)) in
  tokens +sat match cm_tool_call_id m with Some id => estimate_text_tokens id | None => 0%Z end.

(** [serde_json::Value::to_string] *)
Class JsonText := json_text : Value -> str.

Section Budget.
Context {J : JsonText}.

Definition estimate_tool_definitions_tokens (definitions : list ToolDefinition) : Z :=
  sumZ (map (fun d => estimate_text_tokens (td_name d) + estimate_text_tokens (td_description d)
    + estimate_text_tokens (json_text (td_parameters d)) + REQUEST_TOKEN_OVERHEAD)%Z definitions).

Definition estimate_chat_request_tokens (messages : list ChatMessage)
    (definitions : list ToolDefinition) : Z :=
  sumZ (map estimate_chat_message_tokens messages) +sat estimate_tool_definitions_tokens definitions.

(** ** Context windows *)

Definition canonical_model_name (value : str) : str := replace_char 46%N $"-" value.

(** [max_by_key] keeps the last of several maxima. *)
Definition max_by_length (l : list (nat * Z)) : option (nat * Z) :=
  foldl (fun best x => match best with
                       | Some b => if fst b <=? fst x then Some x else best
                       | None => Some x
                       end) None l.

Definition configured_context_window (normalized_model : str) (windows : list (list N * Z))
  : option Z :=
  match btree_get normalized_model windows with
  | Some window => Some window
  | None =>
    let canonical_model := canonical_model_name normalized_model in
    match List.find (fun kw => canonical_model_name (fst kw) =s canonical_model) windows with
    | Some (_, window) => Some window
    | None =>
      option_map snd (max_by_length (omap (fun kw =>
        let canonical_key := canonical_model_name (fst kw) in
        if starts_with canonical_key canonical_model
           && bool_decide (as_bytes normalized_model !! byte_len canonical_key = Some 45%N)
        then Some (byte_len canonical_key, snd kw) else None) windows))
    end
  end.

Definition context_window_for_model (model : str) (windows : list (list N * Z)) : Z :=
  let normalized := to_ascii_lowercase (trim model) in
  match configured_context_window normalized windows with
  | Some window => window
  | None =>
    if contains $"gemini" normalized then 1000000
    else if contains $"deepseek" normalized then 1048576
    else if contains $"grok" normalized then 256000
    else if contains $"claude" normalized then 200000
    else if contains $"gpt-5" normalized || contains $"gpt-4.1" normalized then 272000
    else if contains_any [$"qwen"; $"kimi"; $"mimo"] normalized then 256000
    else DEFAULT_CONTEXT_WINDOW
  end%Z.

Definition context_budget_tokens (model : str) (windows : list (list N * Z)) (threshold_percent : Z) : Z :=
  let threshold := Z.min (Z.max threshold_percent MIN_CONTEXT_COMPACTION_THRESHOLD_PERCENT)
                     MAX_CONTEXT_COMPACTION_THRESHOLD_PERCENT in
  (sat U64 (context_window_for_model model windows * threshold) / 100)%Z.

Record RequestBudget := mkRequestBudget {
  rb_model : str;
  rb_model_context_windows : list (list N * Z);
  rb_compaction_threshold_percent : Z;
  rb_system_prompt : str;
  rb_definitions : list ToolDefinition;
  rb_calibration : spec_float;
}.

Definition budget_tokens (r : RequestBudget) : Z :=
  context_budget_tokens (rb_model r) (rb_model_context_windows r) (rb_compaction_threshold_percent r).

Definition calibrated_tokens (estimated : Z) (calibration : spec_float) : Z :=
  if SFltb (SFabs (SFsub 53 1024 calibration F64_ONE)) F64_EPSILON then estimated
  else ceil_usize (SFmul 53 1024 (f64_of estimated 0) calibration).

Definition request_tokens (r : RequestBudget) (messages : list ChatMessage) : Z :=
  calibrated_tokens (estimate_chat_request_tokens messages (rb_definitions r)) (rb_calibration r).

(** ** Blocks *)

Definition is_system (m : ChatMessage) : bool := has_role $"system" m.
Definition is_tool (m : ChatMessage) : bool := has_role $"tool" m.
Definition is_assistant (m : ChatMessage) : bool := has_role $"assistant" m.

(** [messages] from the first message that is not a system message, with the
    system messages before it. *)
Fixpoint split_system (messages : list ChatMessage) : list ChatMessage * list ChatMessage :=
  match messages with
  | [] => ([], [])
  | m :: rest => if is_system m then let '(s, r) := split_system rest in (m :: s, r)
                 else ([], messages)
  end.

Fixpoint count_tools (messages : list ChatMessage) : nat :=
  match messages with
  | m :: rest => if is_tool m then S (count_tools rest) else 0
  | [] => 0
  end.

(** [context_block_end]: the number of messages of the block that starts the list. *)
Definition block_length (messages : list ChatMessage) : nat :=
  match messages with
  | [] => 0
  | m :: rest => if is_assistant m && bool_decide (is_Some (cm_tool_calls m))
                 then S (count_tools rest) else 1
  end.

Fixpoint trim_oldest_message_blocks (block_count : nat) (messages : list ChatMessage)
  : nat * list ChatMessage :=
  match block_count with
  | 0 => (0, messages)
  | S k =>
    match split_system messages with
    | (_, []) => (0, messages)
    | (systems, rest) =>
      let '(removed, kept) := trim_oldest_message_blocks k (systems ++ drop (block_length rest) rest) in
      (S removed, kept)
    end
  end.

Definition truncate_tool_output (output : str) (max_chars : nat) : str :=
  if length output <=? max_chars then output
  else take (max_chars - length TOOL_OUTPUT_TRUNCATION_MARKER) output ++ TOOL_OUTPUT_TRUNCATION_MARKER.

Definition truncate_message (m : ChatMessage) : ChatMessage :=
  if is_tool m then
    match cm_content m with
    | Some (ContentText content) =>
      mkChat (cm_role m) (Some (ContentText (truncate_tool_output content MAX_TOOL_RESULT_CHARS)))
        (cm_tool_calls m) (cm_tool_call_id m)
    | _ => m
    end
  else m.

(** The [while] loop of [prepare_request_messages]; a round removes a message, so
    the number of messages is enough fuel. *)
Fixpoint trim_to_budget (fuel : nat) (r : RequestBudget) (messages : list ChatMessage)
  : list ChatMessage :=
  match fuel with
  | 0 => messages
  | S k =>
    if (budget_tokens r <? request_tokens r messages)%Z then
      if negb (existsb (fun m => negb (is_system m)) messages) then messages
      else match trim_oldest_message_blocks 1 messages with
           | (0, _) => messages
           | (_, messages') => trim_to_budget k r messages'
           end
    else messages
  end.

Definition prepare_request_messages (r : RequestBudget) (allow_lossy : bool)
    (messages : list ChatMessage) : list ChatMessage :=
  if negb allow_lossy then messages
  else let messages := map truncate_message messages in
       trim_to_budget (length messages) r messages.

Definition overflow_trim_drop_count (conv_count : nat) : option nat :=
  if conv_count <=? 4 then None
  else Some (conv_count - Nat.max (conv_count / 2) 4).

(** The trimming step of the retry after a context overflow. *)
Definition overflow_trim (messages : list ChatMessage) : option (nat * list ChatMessage) :=
  match overflow_trim_drop_count (length (List.filter (fun m => negb (is_system m)) messages)) with
  | Some drop_count => Some (trim_oldest_message_blocks drop_count messages)
  | None => None
  end.
End Budget.

(** ** Repair *)

Definition chat_message_content_as_text (content : ChatMessageContent) : str :=
  match content with
  | ContentText text => text
  | ContentParts parts =>
    join [LF] (omap (fun p => match p with PartText t => Some t | PartImageUrl _ => None end) parts)
  end.

Definition call_ids (m : ChatMessage) : list (list N) := map ptc_id (default [] (cm_tool_calls m)).

Definition recovered (m : ChatMessage) : list ChatMessage :=
  let output := default [] (option_map chat_message_content_as_text (cm_content m)) in
  if is_empty (trim output) then []
  else [chat_user ($"[Recovered tool output]" ++ LF :: output)].

Fixpoint repair_loop (pending : gset (list N)) (messages : list ChatMessage)
  : list ChatMessage * nat :=
  match messages with
  | [] => ([], 0)
  | m :: rest =>
    if is_assistant m then
      let '(out, n) := repair_loop (list_to_set (call_ids m)) rest in (m :: out, n)
    else if is_tool m then
      let id := default [] (cm_tool_call_id m) in
      if negb (is_empty id) && bool_decide (id ∈ pending) then
        let '(out, n) := repair_loop (pending ∖ {[id]}) rest in (m :: out, n)
      else
        let '(out, n) := repair_loop pending rest in (recovered m ++ out, S n)
    else
      let '(out, n) := repair_loop (if is_system m then pending else ∅) rest in (m :: out, n)
  end.

Definition repair_tool_transcript (messages : list ChatMessage) : list ChatMessage * nat :=
  repair_loop ∅ messages.
