(* ===== verification/TranscriptFacts.v ===== *)
(** * Correctness of the transcript operations

    Which tool results a repair keeps, that trimming never separates a result
    from its call, and that a prepared request fits its budget. *)

From S2P Require Import Prelude Protocol Routing Transcript.

Lemma role_exclusive r r' m : has_role r m = true -> r <> r' -> has_role r' m = false.
Proof. unfold has_role. intros H%str_eqb_true Hne. apply str_eqb_false. congruence. Qed.

Lemma tool_not_assistant m : is_tool m = true -> is_assistant m = false.
Proof. intros H. apply (role_exclusive _ _ _ H). discriminate. Qed.
Lemma system_not_tool m : is_system m = true -> is_tool m = false.
Proof. intros H. apply (role_exclusive _ _ _ H). discriminate. Qed.
Lemma system_not_assistant m : is_system m = true -> is_assistant m = false.
Proof. intros H. apply (role_exclusive _ _ _ H). discriminate. Qed.
Lemma assistant_not_tool m : is_assistant m = true -> is_tool m = false.
Proof. intros H. apply (role_exclusive _ _ _ H). discriminate. Qed.
Lemma tool_not_system m : is_tool m = true -> is_system m = false.
Proof. intros H. apply (role_exclusive _ _ _ H). discriminate. Qed.
Create HintDb xc_role.
#[export] Hint Resolve tool_not_assistant system_not_tool system_not_assistant assistant_not_tool
  tool_not_system : xc_role.

(** ** Open calls *)

Definition result_id (m : ChatMessage) : list N := default [] (cm_tool_call_id m).

(** The call [id] is open after the messages [pre]: an assistant message made it,
    only tool results and system messages follow, and none of them answers it. *)
Definition open_call (pre : list ChatMessage) (id : list N) : Prop :=
  exists before a mid, pre = before ++ a :: mid /\ is_assistant a = true /\ id ∈ call_ids a
    /\ Forall (fun m => is_system m = true \/ (is_tool m = true /\ result_id m <> id)) mid.

Definition answers (pre : list ChatMessage) (m : ChatMessage) : Prop :=
  result_id m <> [] /\ open_call pre (result_id m).

Definition pending_step (pending : gset (list N)) (m : ChatMessage) : gset (list N) :=
  if is_assistant m then list_to_set (call_ids m)
  else if is_tool m then
    if negb (is_empty (result_id m)) && bool_decide (result_id m ∈ pending)
    then pending ∖ {[result_id m]} else pending
  else if is_system m then pending else ∅.

Definition pending_after (pre : list ChatMessage) : gset (list N) := foldl pending_step ∅ pre.

Lemma repair_loop_app p pre rest :
  repair_loop p (pre ++ rest)
  = (fst (repair_loop p pre) ++ fst (repair_loop (foldl pending_step p pre) rest),
     snd (repair_loop p pre) + snd (repair_loop (foldl pending_step p pre) rest)).
Proof.
  revert p. induction pre as [|m pre IH]; intros p; simpl; [by destruct (repair_loop p rest)|].
  unfold pending_step at 2 4. fold (result_id m).
  destruct (is_assistant m); [rewrite IH; by destruct (repair_loop _ pre)|].
  destruct (is_tool m).
  - destruct (_ && _); rewrite IH; [by destruct (repair_loop _ pre)|].
    destruct (repair_loop _ pre). simpl. by rewrite app_assoc.
  - rewrite IH. destruct (is_system m); by destruct (repair_loop _ pre).
Qed.

Lemma open_call_snoc pre m id :
  id <> [] ->
  (open_call (pre ++ [m]) id <->
   (is_assistant m = true /\ id ∈ call_ids m)
   \/ (open_call pre id /\ (is_system m = true \/ (is_tool m = true /\ result_id m <> id)))).
Proof.
  intros Hid. split.
  - intros (before & a & mid & Heq & Ha & Hin & Hmid). destruct mid as [|x mid _] using rev_ind.
    + apply app_inj_tail in Heq as [_ ->]. by left.
    + rewrite app_comm_cons, app_assoc in Heq. apply app_inj_tail in Heq as [-> ->].
      apply Forall_app in Hmid as [Hmid Hx]. apply Forall_cons in Hx as [Hx _]. right. split; [|exact Hx].
      by exists before, a, mid.
  - intros [[Ha Hin]|[(before & a & mid & -> & Ha & Hin & Hmid) Hm]].
    + exists pre, m, []. done.
    + exists before, a, (mid ++ [m]). rewrite <- app_assoc. split; [done|]. split; [done|]. split; [done|].
      apply Forall_app. split; [done|]. by apply Forall_singleton.
Qed.

Lemma pending_open pre id : id <> [] -> id ∈ pending_after pre <-> open_call pre id.
Proof.
  intros Hid. induction pre as [|m pre IH] using rev_ind.
  { split; [set_solver|]. intros (before & a & mid & Heq & _). by destruct before. }
  rewrite open_call_snoc by done. unfold pending_after in *. rewrite foldl_app. simpl.
  unfold pending_step at 1.
  destruct (is_assistant m) eqn:Ha; [|destruct (is_tool m) eqn:Ht; [|destruct (is_system m) eqn:Hs]].
  - rewrite elem_of_list_to_set. split; [by left|]. intros [[_ H]|[_ [Hs|[Ht _]]]]; [done|..].
    + by rewrite (system_not_assistant m Hs) in Ha.
    + by rewrite (tool_not_assistant m Ht) in Ha.
  - destruct (is_empty (result_id m)) eqn:He; simpl.
    + rewrite IH. split; [intros H; right; split; [done|right; split; [done|]]|naive_solver].
      intros Hr. by rewrite Hr in He; destruct id.
    + case_bool_decide as Hp; rewrite ?elem_of_difference, ?elem_of_singleton, IH.
      * split; [intros [H Hn]; right; split; [done|right; done]|].
        intros [[? _]|[H [Hs|[_ Hn]]]]; [done| |done]. by rewrite (tool_not_system m Ht) in Hs.
      * split; [|naive_solver]. intros H. right. split; [done|]. right. split; [done|].
        intros Hr. apply Hp. by rewrite Hr, IH.
  - rewrite IH. split; [intros H; right; split; [done|by left]|naive_solver].
  - split; [set_solver|]. naive_solver.
Qed.

(** Repair keeps a message exactly when it is not a tool result or answers an open
    call, that is a call of an assistant message followed only by system messages and
    results of other calls; any other result becomes recovered text and is counted. *)
Theorem repair_step pre m :
  (is_tool m = false \/ answers pre m ->
   repair_tool_transcript (pre ++ [m])
   = (fst (repair_tool_transcript pre) ++ [m], snd (repair_tool_transcript pre)))
  /\ (is_tool m = true -> ~ answers pre m ->
      repair_tool_transcript (pre ++ [m])
      = (fst (repair_tool_transcript pre) ++ recovered m, S (snd (repair_tool_transcript pre)))).
Proof.
  unfold repair_tool_transcript. rewrite repair_loop_app. simpl. fold (pending_after pre).
  fold (result_id m).
  assert (negb (is_empty (result_id m)) && bool_decide (result_id m ∈ pending_after pre) = true
          <-> answers pre m) as Hans.
  { unfold answers. rewrite andb_true_iff, negb_true_iff, bool_decide_eq_true.
    destruct (result_id m) as [|c id] eqn:Hr; simpl; [naive_solver|].
    rewrite <- pending_open by done. naive_solver. }
  split.
  - intros [Ht|Ha].
    + destruct (is_assistant m); [|rewrite Ht; destruct (is_system m)]; simpl; f_equal; lia.
    + destruct (is_assistant m); simpl; [f_equal; lia|].
      destruct (is_tool m); [|destruct (is_system m); simpl; f_equal; lia].
      rewrite (proj2 Hans Ha). simpl. f_equal. lia.
  - intros Ht Ha. rewrite (tool_not_assistant m Ht), Ht.
    destruct (_ && _); [by destruct Ha; apply Hans|]. simpl. rewrite app_nil_r. f_equal. lia.
Qed.

(** *)
Theorem repair_identity ms :
  (forall pre m post, ms = pre ++ m :: post -> is_tool m = true -> answers pre m) ->
  repair_tool_transcript ms = (ms, 0).
Proof.
  induction ms as [|m ms IH] using rev_ind; intros H; [done|].
  assert (repair_tool_transcript ms = (ms, 0)) as Hms.
  { apply IH. intros pre x post -> Hx. apply (H pre x (post ++ [m])); [|done].
    by rewrite <- app_assoc. }
  destruct (repair_step ms m) as [Hkeep _]. rewrite Hms in Hkeep. apply Hkeep.
  destruct (is_tool m) eqn:Ht; [right|by left]. by apply (H ms m []).
Qed.

(** ** Results next to their call *)

(** Every tool result directly follows its call or another result of it. *)
Fixpoint paired (pending : gset (list N)) (ms : list ChatMessage) : bool :=
  match ms with
  | [] => true
  | m :: rest =>
    if is_assistant m then paired (list_to_set (call_ids m)) rest
    else if is_tool m then
      negb (is_empty (result_id m)) && bool_decide (result_id m ∈ pending)
      && paired (pending ∖ {[result_id m]}) rest
    else paired ∅ rest
  end.

Lemma paired_repair p q ms : p ⊆ q -> paired p ms = true -> repair_loop q ms = (ms, 0).
Proof.
  revert p q. induction ms as [|m ms IH]; intros p q Hpq; simpl; [done|]. fold (result_id m).
  destruct (is_assistant m); [intros H; by rewrite (IH _ _ (reflexivity _) H)|].
  destruct (is_tool m).
  - rewrite !andb_true_iff, negb_true_iff, bool_decide_eq_true. intros [[-> Hin] Hr].
    rewrite bool_decide_eq_true_2 by set_solver. simpl.
    by rewrite (IH (p ∖ {[result_id m]}) (q ∖ {[result_id m]}) ltac:(set_solver) Hr).
  - intros H. rewrite (IH ∅ (if is_system m then q else ∅)); [done|set_solver|done].
Qed.

Definition starts_with_tool (ms : list ChatMessage) : bool :=
  match ms with m :: _ => is_tool m | [] => false end.

Lemma paired_no_tool p q ms : starts_with_tool ms = false -> paired p ms = paired q ms.
Proof. destruct ms as [|m ms]; simpl; [done|]. intros ->. by destruct (is_assistant m). Qed.

Lemma paired_systems p systems rest :
  Forall (fun m => is_system m = true) systems -> systems <> [] \/ p = ∅ ->
  paired p (systems ++ rest) = paired ∅ rest.
Proof.
  intros H. revert p. induction H as [|m systems Hm Hs IH]; intros p Hp; simpl.
  - by destruct Hp as [?| ->].
  - rewrite (system_not_assistant m Hm), (system_not_tool m Hm). apply IH. by right.
Qed.

Lemma split_system_spec ms :
  ms = fst (split_system ms) ++ snd (split_system ms)
  /\ Forall (fun m => is_system m = true) (fst (split_system ms))
  /\ match snd (split_system ms) with m :: _ => is_system m = false | [] => True end.
Proof.
  induction ms as [|m ms IH]; simpl; [done|]. destruct (is_system m) eqn:Hm; [|by simpl; rewrite Hm].
  destruct (split_system ms) as [s r]. simpl in *. destruct IH as (-> & Hs & Hr).
  split; [done|]. split; [by constructor|done].
Qed.

Lemma count_tools_split ms :
  Forall (fun m => is_tool m = true) (take (count_tools ms) ms)
  /\ starts_with_tool (drop (count_tools ms) ms) = false.
Proof.
  induction ms as [|m ms IH]; simpl; [done|]. destruct (is_tool m) eqn:Hm; simpl; [|by rewrite Hm].
  destruct IH as [H1 H2]. split; [by constructor|done].
Qed.

Lemma paired_tools p tools rest :
  Forall (fun m => is_tool m = true) tools -> paired p (tools ++ rest) = true ->
  exists q, paired q rest = true.
Proof.
  intros H. revert p. induction H as [|m tools Hm Ht IH]; intros p; simpl; [by exists p|].
  rewrite (tool_not_assistant m Hm), Hm, !andb_true_iff. intros [_ Hp]. by eapply IH.
Qed.

(** What follows the first block is paired on its own. *)
Lemma paired_drop_block rest :
  paired ∅ rest = true -> paired ∅ (drop (block_length rest) rest) = true.
Proof.
  destruct rest as [|m rest]; [done|]. simpl.
  destruct (is_assistant m) eqn:Ha; simpl.
  - case_bool_decide as Hc; simpl; intros H.
    + destruct (count_tools_split rest) as [Ht Hn].
      rewrite <- (take_drop (count_tools rest) rest) in H.
      destruct (paired_tools _ _ _ Ht H) as [q Hq]. by rewrite (paired_no_tool ∅ q).
    + rewrite drop_0. destruct rest as [|x rest]; [done|]. simpl in *.
      destruct (is_assistant x); [done|]. destruct (is_tool x); [|done].
      exfalso. apply andb_true_iff in H as [[_ H]%andb_true_iff _].
      apply bool_decide_eq_true_1 in H. unfold call_ids in H.
      destruct (cm_tool_calls m); [by destruct Hc|]. set_solver.
  - destruct (is_tool m) eqn:Ht; simpl; [|by rewrite drop_0].
    rewrite (bool_decide_eq_false_2 (_ ∈ ∅)) by set_solver. by rewrite andb_false_r.
Qed.

Lemma trim_pairs k ms :
  paired ∅ ms = true -> paired ∅ (snd (trim_oldest_message_blocks k ms)) = true.
Proof.
  revert ms. induction k as [|k IH]; intros ms H; simpl; [done|].
  pose proof (split_system_spec ms) as (Heq & Hs & _).
  destruct (split_system ms) as [systems [|x rest]]; [done|]. simpl in Heq, Hs. subst ms.
  specialize (IH (systems ++ drop (block_length (x :: rest)) (x :: rest))).
  destruct (trim_oldest_message_blocks k _) as [removed kept]. simpl in *. apply IH.
  rewrite paired_systems in H |- * by (done || by right). by apply (paired_drop_block (x :: rest)).
Qed.

(** ** What trimming removes *)

Definition systems_of (ms : list ChatMessage) : list ChatMessage := List.filter is_system ms.
Definition turns_of (ms : list ChatMessage) : list ChatMessage :=
  List.filter (fun m => negb (is_system m)) ms.

Lemma filter_all {A} (p : A -> bool) l : Forall (fun x => p x = true) l -> List.filter p l = l.
Proof. induction 1 as [|x l Hx Hl IH]; simpl; [done|]. by rewrite Hx, IH. Qed.
Lemma filter_none {A} (p : A -> bool) l : Forall (fun x => p x = false) l -> List.filter p l = [].
Proof. induction 1 as [|x l Hx Hl IH]; simpl; [done|]. by rewrite Hx, IH. Qed.

Lemma block_turns rest :
  match rest with m :: _ => is_system m = false | [] => True end ->
  Forall (fun m => is_system m = false) (take (block_length rest) rest).
Proof.
  destruct rest as [|m rest]; [done|]. intros Hm. simpl.
  destruct (_ && _); simpl; (constructor; [done|]); [|rewrite ?take_0; constructor].
  eapply Forall_impl; [apply (count_tools_split rest)|]. intros x Hx. auto with xc_role.
Qed.

Lemma trim_shape k ms :
  systems_of (snd (trim_oldest_message_blocks k ms)) = systems_of ms
  /\ exists dropped, turns_of ms = dropped ++ turns_of (snd (trim_oldest_message_blocks k ms)).
Proof.
  revert ms. induction k as [|k IH]; intros ms; simpl; [split; [done|by exists []]|].
  pose proof (split_system_spec ms) as (Heq & Hs & Hr).
  destruct (split_system ms) as [systems [|x rest]]; [split; [done|by exists []]|].
  simpl fst in *. simpl snd in *. pose proof (block_turns (x :: rest) Hr) as Hb.
  set (n := block_length (x :: rest)) in *. specialize (IH (systems ++ drop n (x :: rest))).
  destruct (trim_oldest_message_blocks k _) as [removed kept]. simpl snd in *.
  rewrite <- (take_drop n (x :: rest)) in Heq. destruct IH as [-> [dropped Hd]]. subst ms.
  unfold systems_of, turns_of in *. rewrite !List.filter_app in *. split.
  - by rewrite (filter_none _ (take n _) Hb).
  - exists (take n (x :: rest) ++ dropped). rewrite <- app_assoc, <- Hd.
    rewrite (filter_all _ (take n (x :: rest)))
      by (eapply Forall_impl; [exact Hb|]; intros y Hy; by rewrite Hy).
    by rewrite (filter_none _ systems)
      by (eapply Forall_impl; [exact Hs|]; intros y Hy; by rewrite Hy).
Qed.

(** Removing the oldest blocks of a transcript in which every result stands next to
    its call leaves such a transcript, which needs no repair, keeps every system
    message, and removes a prefix of the conversation. *)
Theorem trim_keeps_pairs k ms :
  paired ∅ ms = true ->
  let out := snd (trim_oldest_message_blocks k ms) in
  paired ∅ out = true /\ repair_tool_transcript out = (out, 0)
  /\ systems_of out = systems_of ms
  /\ exists dropped, turns_of ms = dropped ++ turns_of out.
Proof.
  intros H out. pose proof (trim_pairs k ms H) as Hp. split; [done|].
  split; [by apply (paired_repair ∅)|]. apply trim_shape.
Qed.

(** ** Budgets *)

Section Prepare.
Context {J : JsonText}.

Lemma truncate_message_same m :
  is_system (truncate_message m) = is_system m /\ is_assistant (truncate_message m) = is_assistant m
  /\ is_tool (truncate_message m) = is_tool m /\ call_ids (truncate_message m) = call_ids m
  /\ result_id (truncate_message m) = result_id m
  /\ (is_tool m = false -> truncate_message m = m).
Proof.
  unfold truncate_message. destruct (is_tool m) eqn:Ht; [|done].
  by destruct (cm_content m) as [[]|].
Qed.

Lemma paired_truncate p ms : paired p (map truncate_message ms) = paired p ms.
Proof.
  revert p. induction ms as [|m ms IH]; intros p; simpl; [done|].
  destruct (truncate_message_same m) as (_ & -> & -> & -> & -> & _).
  destruct (is_assistant m); [apply IH|]. destruct (is_tool m); [by rewrite IH|apply IH].
Qed.

Lemma systems_truncate ms : systems_of (map truncate_message ms) = systems_of ms.
Proof.
  unfold systems_of. induction ms as [|m ms IH]; simpl; [done|].
  destruct (truncate_message_same m) as (-> & _ & _ & _ & _ & Hm).
  destruct (is_system m) eqn:Hs; [|done]. rewrite IH, Hm; [done|]. auto with xc_role.
Qed.

(** A step of trimming makes progress while there is a conversation. *)
Lemma trim_one ms :
  existsb (fun m => negb (is_system m)) ms = true ->
  exists out, trim_oldest_message_blocks 1 ms = (1, out) /\ length out < length ms.
Proof.
  intros He. simpl. pose proof (split_system_spec ms) as (Heq & Hs & _).
  destruct (split_system ms) as [systems [|x rest]]; simpl in Heq, Hs.
  - exfalso. subst ms. rewrite app_nil_r in He. apply existsb_exists in He as (m & Hm & Hn).
    rewrite Forall_forall in Hs. apply list_elem_of_In in Hm. by rewrite (Hs m Hm) in Hn.
  - eexists. split; [reflexivity|]. rewrite Heq, !length_app, length_drop. simpl.
    destruct (_ && _); simpl; lia.
Qed.

Lemma trim_to_budget_spec fuel r ms :
  length ms <= fuel ->
  let out := trim_to_budget fuel r ms in
  ((request_tokens r out <= budget_tokens r)%Z \/ turns_of out = [])
  /\ systems_of out = systems_of ms
  /\ (exists dropped, turns_of ms = dropped ++ turns_of out)
  /\ (paired ∅ ms = true -> paired ∅ out = true).
Proof.
  revert ms. induction fuel as [|k IH]; intros ms Hlen; cbn [trim_to_budget].
  { destruct ms; [|simpl in Hlen; lia]. split; [by right|]. split; [done|]. split; [by exists []|done]. }
  destruct (Z.ltb_spec (budget_tokens r) (request_tokens r ms)) as [Hover|Hfit].
  2: { split; [by left|]. split; [done|]. split; [by exists []|done]. }
  destruct (existsb (fun m => negb (is_system m)) ms) eqn:He; simpl negb; cbv iota.
  2: { split; [right|split; [done|split; [by exists []|done]]]. apply filter_none, Forall_forall.
       intros m Hm. by apply (proj1 (existsb_false_elem _ ms) He). }
  destruct (trim_one ms He) as (out & Hone & Hlt).
  pose proof (trim_shape 1 ms) as (Hs1 & d1 & Hd1). pose proof (trim_pairs 1 ms) as Hp1.
  rewrite Hone in *. simpl snd in *. destruct (IH out ltac:(lia)) as (Hf & Hs & [d Hd] & Hp).
  split; [done|]. split; [congruence|]. split; [|auto].
  exists (d1 ++ d). by rewrite <- app_assoc, <- Hd.
Qed.

(** Preparing a request ends with a transcript whose calibrated token estimate is
    within the budget of the model or that has no conversation left; it keeps the system
    messages, drops a prefix of the conversation and keeps results next to their calls. *)
Theorem prepared_request_fits r ms :
  let out := prepare_request_messages r true ms in
  ((request_tokens r out <= budget_tokens r)%Z \/ turns_of out = [])
  /\ systems_of out = systems_of ms
  /\ (exists dropped, turns_of (map truncate_message ms) = dropped ++ turns_of out)
  /\ (paired ∅ ms = true -> paired ∅ out = true).
Proof.
  unfold prepare_request_messages. simpl negb. cbv iota.
  destruct (trim_to_budget_spec (length (map truncate_message ms)) r (map truncate_message ms) (Nat.le_refl _))
    as (Hf & Hs & Hd & Hp).
  rewrite systems_truncate in Hs. rewrite paired_truncate in Hp. done.
Qed.

Lemma split_system_app systems x rest :
  Forall (fun m => is_system m = true) systems -> is_system x = false ->
  split_system (systems ++ x :: rest) = (systems, x :: rest).
Proof.
  intros Hs Hx. induction Hs as [|m systems Hm Hs IH]; simpl; [by rewrite Hx|].
  by rewrite Hm, IH.
Qed.

Lemma count_tools_all tools : Forall (fun m => is_tool m = true) tools -> count_tools tools = length tools.
Proof. induction 1 as [|m tools Hm Ht IH]; simpl; [done|]. by rewrite Hm, IH. Qed.

(** A conversation of one block is gone after one removal. *)
Lemma trim_single_block k systems a tools :
  Forall (fun m => is_system m = true) systems -> is_system a = false ->
  is_assistant a = true -> is_Some (cm_tool_calls a) -> Forall (fun m => is_tool m = true) tools ->
  trim_oldest_message_blocks (S k) (systems ++ a :: tools) = (1, systems).
Proof.
  intros Hs Hsa Ha Hc Ht. cbn [trim_oldest_message_blocks]. rewrite split_system_app by done.
  cbn [block_length].
  rewrite Ha, bool_decide_eq_true_2 by done. simpl. rewrite (count_tools_all tools Ht), drop_all, app_nil_r.
  assert (split_system systems = (systems, [])) as Hsplit.
  { clear -Hs. induction Hs as [|m systems Hm Hs IH]; simpl; [done|]. by rewrite Hm, IH. }
  destruct k; simpl; [done|]. by rewrite Hsplit.
Qed.

(** ** Behaviours the operations do not exclude *)

(** The retry after a context overflow removes the whole conversation when it is
    one assistant message with four or more tool results, although it means to keep at
    least four messages. *)
Theorem overflow_trim_empties systems a tools :
  Forall (fun m => is_system m = true) systems ->
  is_assistant a = true -> is_Some (cm_tool_calls a) ->
  Forall (fun m => is_tool m = true) tools -> 4 <= length tools ->
  exists removed, overflow_trim (systems ++ a :: tools) = Some (removed, systems).
Proof.
  intros Hs Ha Hc Ht Hlen. unfold overflow_trim. rewrite List.filter_app. simpl.
  assert (is_system a = false) as Has.
  { apply not_true_iff_false. intros Hsa. by rewrite (system_not_assistant a Hsa) in Ha. }
  rewrite (filter_none _ systems) by (eapply Forall_impl; [exact Hs|]; intros y Hy; by rewrite Hy).
  rewrite Has, (filter_all _ tools)
    by (eapply Forall_impl; [exact Ht|]; intros y Hy; by rewrite (tool_not_system y Hy)).
  simpl app. cbn [length]. unfold overflow_trim_drop_count.
  rewrite (proj2 (Nat.leb_gt _ _)) by lia.
  pose proof (Nat.div_lt (S (length tools)) 2 ltac:(lia) ltac:(lia)) as Hhalf.
  assert (exists k, S (length tools) - Nat.max (S (length tools) / 2) 4 = S k) as [k ->].
  { exists (length tools - Nat.max (S (length tools) / 2) 4). lia. }
  exists 1. f_equal. by apply trim_single_block.
Qed.

Lemma repair_calls p calls rest :
  repair_loop p (assistant_tool_calls calls :: rest)
  = (assistant_tool_calls calls :: fst (repair_loop (list_to_set (map ptc_id calls)) rest),
     snd (repair_loop (list_to_set (map ptc_id calls)) rest)).
Proof. simpl. by destruct (repair_loop _ rest). Qed.

Lemma repair_result p id o rest :
  id <> [] -> id ∈ p ->
  repair_loop p (tool_result id o :: rest)
  = (tool_result id o :: fst (repair_loop (p ∖ {[id]}) rest), snd (repair_loop (p ∖ {[id]}) rest)).
Proof.
  intros Hne Hid. simpl. rewrite bool_decide_eq_true_2 by done.
  destruct id; [done|]. simpl. by destruct (repair_loop _ rest).
Qed.

Lemma repair_orphan p id o rest :
  id ∉ p -> trim o <> [] ->
  repair_loop p (tool_result id o :: rest)
  = (chat_user ($"[Recovered tool output]" ++ LF :: o) :: fst (repair_loop p rest),
     S (snd (repair_loop p rest))).
Proof.
  intros Hid Ho. simpl. rewrite bool_decide_eq_false_2, andb_false_r by done.
  destruct (repair_loop p rest). unfold recovered. simpl. by destruct (trim o).
Qed.

(** When an orphaned result stands between two results of one assistant message,
    repair leaves the second result behind the recovered user text, where a second
    repair finds it orphaned. *)
Theorem repair_separates_results a b x o1 o2 o3 :
  a <> [] -> b <> [] -> a <> b -> x <> a -> x <> b -> trim o2 <> [] ->
  let call id := mkProviderCall id $"function" $"read_file" $"{}" false in
  let ms := [assistant_tool_calls [call a; call b]; tool_result a o1; tool_result x o2;
             tool_result b o3] in
  let once := repair_tool_transcript ms in
  once = ([assistant_tool_calls [call a; call b]; tool_result a o1;
           chat_user ($"[Recovered tool output]" ++ LF :: o2); tool_result b o3], 1)
  /\ snd (repair_tool_transcript (fst once)) = 1.
Proof.
  intros Ha Hb Hab Hxa Hxb Ho call ms once.
  assert (once = ([assistant_tool_calls [call a; call b]; tool_result a o1;
    chat_user ($"[Recovered tool output]" ++ LF :: o2); tool_result b o3], 1)) as Honce.
  { unfold once, repair_tool_transcript, ms. rewrite repair_calls. cbn [map ptc_id call].
    rewrite repair_result by (done || set_solver). rewrite repair_orphan by (done || set_solver).
    by rewrite repair_result by (done || set_solver). }
  split; [done|]. rewrite Honce. unfold repair_tool_transcript. cbn [fst].
  rewrite repair_calls. cbn [map ptc_id call]. rewrite repair_result by (done || set_solver).
  cbn [snd]. simpl. by rewrite andb_false_r.
Qed.
End Prepare.

(** ** Example runs *)

Definition demo_tool_call (id : str) : ProviderToolCall :=
  mkProviderCall id $"function" $"read_file" $"{}" false.
Definition demo_transcript : list ChatMessage :=
  [chat_system $"prompt"; chat_user $"hi"; assistant_tool_calls [demo_tool_call $"a"; demo_tool_call $"b"];
   tool_result $"a" $"1"; tool_result $"b" $"2"; chat_text $"assistant" $"done"].

Lemma trim_keeps_pairs_witness :
  let out := snd (trim_oldest_message_blocks 1 demo_transcript) in
  paired ∅ out = true /\ repair_tool_transcript out = (out, 0)
  /\ systems_of out = systems_of demo_transcript
  /\ exists dropped, turns_of demo_transcript = dropped ++ turns_of out.
Proof. apply trim_keeps_pairs. vm_compute. reflexivity. Defined.

Lemma repair_identity_witness :
  repair_tool_transcript [assistant_tool_calls [demo_tool_call $"a"]; tool_result $"a" $"1"]
  = ([assistant_tool_calls [demo_tool_call $"a"]; tool_result $"a" $"1"], 0).
Proof.
  apply repair_identity. intros pre m post Heq Ht.
  destruct pre as [|m0 [|m1 pre]].
  - injection Heq as <- _. discriminate.
  - injection Heq as <- <- _. split; [discriminate|].
    exists [], (assistant_tool_calls [demo_tool_call $"a"]), [].
    split; [reflexivity|]. split; [reflexivity|]. split; [left|constructor].
  - injection Heq as _ _ Heq. destruct pre; discriminate.
Defined.

Lemma overflow_trim_empties_witness :
  exists removed, overflow_trim
    ([chat_system $"prompt"]
     ++ assistant_tool_calls (map demo_tool_call [$"a"; $"b"; $"c"; $"d"])
     :: map (fun id => tool_result id $"1") [$"a"; $"b"; $"c"; $"d"])
    = Some (removed, [chat_system $"prompt"]).
Proof.
  apply overflow_trim_empties.
  - repeat constructor.
  - reflexivity.
  - eexists. reflexivity.
  - repeat constructor.
  - simpl. lia.
Defined.

Lemma repair_separates_results_witness :
  let call id := mkProviderCall id $"function" $"read_file" $"{}" false in
  let ms := [assistant_tool_calls [call $"a"; call $"b"]; tool_result $"a" $"1";
             tool_result $"x" $"2"; tool_result $"b" $"3"] in
  let once := repair_tool_transcript ms in
  once = ([assistant_tool_calls [call $"a"; call $"b"]; tool_result $"a" $"1";
           chat_user ($"[Recovered tool output]" ++ LF :: $"2"); tool_result $"b" $"3"], 1)
  /\ snd (repair_tool_transcript (fst once)) = 1.
Proof. apply (repair_separates_results $"a" $"b" $"x" $"1" $"2" $"3"); vm_compute; discriminate. Defined.
