(* ===== verification/Text.v ===== *)
(** * Scanning text

    The methods of [str] that the tools, the compression of tool output and the
    agent use besides those of the prelude: searching, slicing at byte offsets and
    replacing.  A position is a number of characters; where the source works with
    byte offsets that a search returned, both name the same place. *)

From S2P Require Import Prelude.

(** [str::find] with a string pattern and with a character predicate. *)
Fixpoint find_str (p s : str) : option nat :=
  if starts_with p s then Some 0
  else match s with [] => None | _ :: r => S <$> find_str p r end.

Fixpoint find_char (p : char -> bool) (s : str) : option nat :=
  match s with
  | [] => None
  | c :: r => if p c then Some 0 else S <$> find_char p r
  end.

Fixpoint take_while {A} (p : A -> bool) (s : list A) : list A :=
  match s with
  | [] => []
  | c :: r => if p c then c :: take_while p r else []
  end.

(** [rsplit(p).next()]: the part after the last separator. *)
Definition last_part (p : char -> bool) (s : str) : str := List.last (split_on p s) [].
Definition first_part (p : char -> bool) (s : str) : str := hd [] (split_on p s).

(** [str::parse::<u64>] *)
Fixpoint decimal_value (acc : N) (s : str) : option N :=
  match s with
  | [] => Some acc
  | c :: r =>
    if is_ascii_digit c
    then let v := (acc * 10 + (c - 48))%N in
         if (v <? 2 ^ 64)%N then decimal_value v r else None
    else None
  end.
Definition parse_u64 (s : str) : option N :=
  let digits := match s with c :: r => if (c =? 43)%N then r else s | [] => [] end in
  if is_empty digits then None else decimal_value 0 digits.

(** [str::split_once] with a string. *)
Definition split_once_str (sep s : str) : option (str * str) :=
  match find_str sep s with
  | Some i => Some (take i s, drop (i + length sep) s)
  | None => None
  end.

Definition ends_with (p s : str) : bool :=
  match strip_suffix p s with Some _ => true | None => false end.

(** [str::replace] with a non-empty pattern: left to right, without overlap. *)
Fixpoint replace_from (p by_ : str) (skip : nat) (s : str) : str :=
  match s with
  | [] => []
  | c :: r =>
    match skip with
    | S k => replace_from p by_ k r
    | 0 => if starts_with p s then by_ ++ replace_from p by_ (length p - 1) r
           else c :: replace_from p by_ 0 r
    end
  end.
Definition replace_str (p by_ s : str) : str := replace_from p by_ 0 s.

(** [&s[..s.floor_char_boundary(n)]]: the longest prefix of at most [n] bytes. *)
Fixpoint byte_prefix (n : N) (s : str) : str :=
  match s with
  | [] => []
  | c :: r =>
    let k := N.of_nat (length (utf8_char c)) in
    if (k <=? n)%N then c :: byte_prefix (n - k) r else []
  end.

(** [&s[n..]]; [None] where the slice panics, out of range or inside a character. *)
Fixpoint byte_drop (n : nat) (s : str) : option str :=
  match n with
  | 0 => Some s
  | _ => match s with
         | [] => None
         | c :: r => let k := length (utf8_char c) in
                     if k <=? n then byte_drop (n - k) r else None
         end
  end.

(** [str::len] as a binary number, for comparison with large limits. *)
Definition blen (s : str) : N := N.of_nat (byte_len s).

(** [Ord::clamp] *)
Definition clamp (lo hi x : N) : N := if (x <? lo)%N then lo else if (hi <? x)%N then hi else x.

(** ** Lemmas *)

Lemma starts_with_true p s : starts_with p s = true <-> exists r, s = p ++ r.
Proof.
  unfold starts_with. destruct (strip_prefix p s) as [r|] eqn:E.
  - apply strip_prefix_Some in E as ->. naive_solver.
  - split; [done|]. intros [r Hr]. by rewrite (proj2 (strip_prefix_Some p s r)) in E.
Qed.

Lemma ends_with_true p s : ends_with p s = true <-> exists r, s = r ++ p.
Proof.
  unfold ends_with. destruct (strip_suffix p s) as [r|] eqn:E.
  - apply strip_suffix_Some in E as ->. naive_solver.
  - split; [done|]. intros [r Hr]. by rewrite (proj2 (strip_suffix_Some p s r)) in E.
Qed.

Lemma starts_with_app p s r : starts_with p s = true -> starts_with p (s ++ r) = true.
Proof. rewrite !starts_with_true. intros [x ->]. exists (x ++ r). by rewrite app_assoc. Qed.

Lemma contains_true p s : contains p s = true <-> exists a b, s = a ++ p ++ b.
Proof.
  induction s as [|c s IH].
  - cbn [contains]. rewrite orb_false_r, starts_with_true. split.
    + intros [r Hr]. by exists [], r.
    + intros (a & b & Hab). symmetry in Hab. apply app_nil in Hab as [-> Hab].
      by exists b.
  - cbn [contains]. rewrite orb_true_iff, starts_with_true, IH. split.
    + intros [[r ->]|(a & b & ->)]; [by exists [], r | by exists (c :: a), b].
    + intros ([|x a] & b & Hab); simplify_eq/=; eauto.
Qed.

Lemma starts_with_cut p a c r : c ∉ p -> starts_with p (a ++ c :: r) = starts_with p a.
Proof.
  unfold starts_with. revert a. induction p as [|x p IH]; intros a Hc; [by destruct a|].
  apply not_elem_of_cons in Hc as [Hx Hc].
  destruct a as [|y a]; cbn [app strip_prefix].
  - rewrite (proj2 (N.eqb_neq x c)) by congruence. done.
  - destruct (x =? y)%N; [by apply IH|done].
Qed.

Lemma contains_cut p a c r :
  c ∉ p -> contains p (a ++ c :: r) = contains p a || contains p r.
Proof.
  intros Hc. induction a as [|x a IH]; cbn [app contains].
  - pose proof (starts_with_cut p [] c r Hc) as Hs. cbn [app] in Hs. rewrite Hs. by rewrite orb_false_r.
  - pose proof (starts_with_cut p (x :: a) c r Hc) as Hs. cbn [app] in Hs. rewrite Hs, IH.
    by rewrite orb_assoc.
Qed.

Lemma contains_at p s : contains p s = false <-> forall j, starts_with p (drop j s) = false.
Proof.
  rewrite <- not_true_iff_false, contains_true. split.
  - intros Hn j. apply not_true_iff_false. intros [r Hr]%starts_with_true. apply Hn.
    exists (take j s), r. by rewrite <- Hr, take_drop.
  - intros Hj (a & b & ->). specialize (Hj (length a)). rewrite drop_app_length in Hj.
    assert (starts_with p (p ++ b) = true) by (apply starts_with_true; eauto). congruence.
Qed.

(** The first occurrence: where it is, and that there is none before it. *)
Lemma find_str_Some p s i :
  find_str p s = Some i <->
  starts_with p (drop i s) = true /\ i <= length s /\
  (forall j, j < i -> starts_with p (drop j s) = false).
Proof.
  revert i. induction s as [|c s IH]; intros i; cbn [find_str].
  - destruct (starts_with p []) eqn:E.
    + split; [intros [= <-]; simpl; repeat split; [done|lia|intros; lia]|].
      intros (H & Hl & Hj). simpl in Hl. f_equal. lia.
    + split; [done|]. rewrite drop_nil. intros [? _]. congruence.
  - destruct (starts_with p (c :: s)) eqn:E.
    + split; [intros [= <-]; simpl; repeat split; [done|lia|intros; lia]|].
      intros (H & Hl & Hj). destruct i as [|i]; [done|].
      specialize (Hj 0 ltac:(lia)). simpl in Hj. congruence.
    + rewrite fmap_Some. split.
      * intros (j & Hj & ->). apply IH in Hj as (H1 & H2 & H3). simpl. split_and!; [done|lia|].
        intros [|k] Hk; [done|]. simpl. apply H3. lia.
      * destruct i as [|i]; [simpl; intros []; congruence|]. intros (H1 & H2 & H3).
        exists i. split; [|done]. apply IH. simpl in *. split_and!; [done|lia|].
        intros j Hj. apply (H3 (S j)). lia.
Qed.

Lemma find_str_None p s :
  find_str p s = None <-> contains p s = false.
Proof.
  induction s as [|c s IH]; cbn [find_str contains].
  - destruct (starts_with p []); naive_solver.
  - destruct (starts_with p (c :: s)); [naive_solver|]. rewrite fmap_None, IH. done.
Qed.

Lemma find_str_split p s i :
  find_str p s = Some i -> exists r, s = take i s ++ p ++ r.
Proof.
  intros (H & Hl & _)%find_str_Some. apply starts_with_true in H as [r Hr].
  exists r. by rewrite <- Hr, take_drop.
Qed.

Lemma find_str_bound p s i : find_str p s = Some i -> i + length p <= length s.
Proof.
  intros Hi. pose proof (proj1 (find_str_Some _ _ _) Hi) as (_ & Hl & _).
  apply find_str_split in Hi as [r Hr]. apply (f_equal length) in Hr.
  rewrite !length_app, length_take in Hr. lia.
Qed.

Lemma take_drop_while {A} (p : A -> bool) s : take_while p s ++ drop_while p s = s.
Proof. induction s as [|c s IH]; simpl; [done|]. destruct (p c); simpl; by rewrite ?IH. Qed.

Lemma take_while_all {A} (p : A -> bool) s : Forall (fun c => p c = true) (take_while p s).
Proof. induction s as [|c s IH]; simpl; [done|]. destruct (p c) eqn:E; auto. Qed.

Lemma take_while_app {A} (p : A -> bool) a b :
  Forall (fun c => p c = true) a -> take_while p (a ++ b) = a ++ take_while p b.
Proof. induction 1 as [|c a Hc Ha IH]; simpl; [done|]. by rewrite Hc, IH. Qed.

Lemma drop_while_head {A} (p : A -> bool) s c r : drop_while p s = c :: r -> p c = false.
Proof. induction s as [|x s IH]; simpl; [done|]. destruct (p x) eqn:E; naive_solver. Qed.

Lemma take_while_take {A} (p : A -> bool) s : take (length (take_while p s)) s = take_while p s.
Proof. rewrite <- (take_drop_while p s) at 2. by rewrite take_app_length. Qed.

Lemma drop_while_drop {A} (p : A -> bool) s : drop (length (take_while p s)) s = drop_while p s.
Proof. rewrite <- (take_drop_while p s) at 2. by rewrite drop_app_length. Qed.

Lemma find_char_take_while p s :
  or_else (find_char p s) (length s) = length (take_while (fun c => negb (p c)) s).
Proof.
  induction s as [|c s IH]; simpl; [done|]. destruct (p c); simpl; [done|].
  rewrite <- IH. by destruct (find_char p s).
Qed.

Lemma find_char_Some p s i :
  find_char p s = Some i ->
  exists c r, s = take i s ++ c :: r /\ p c = true /\ Forall (fun x => p x = false) (take i s).
Proof.
  revert i. induction s as [|c s IH]; intros i; simpl; [done|].
  destruct (p c) eqn:E; [intros [= <-]; exists c, s; simpl; auto|].
  rewrite fmap_Some. intros (j & Hj & ->). apply IH in Hj as (d & r & Hs & Hd & Hf).
  exists d, r. simpl. rewrite <- Hs. auto.
Qed.

Lemma find_char_None p s : find_char p s = None <-> Forall (fun x => p x = false) s.
Proof.
  induction s as [|c s IH]; simpl; [naive_solver|]. rewrite Forall_cons.
  destruct (p c); [naive_solver|]. rewrite fmap_None, IH. naive_solver.
Qed.

Lemma split_on_join p s c : (forall x, p x = true -> x = c) -> join [c] (split_on p s) = s.
Proof.
  intros Hp. induction s as [|x s IH]; simpl; [done|].
  pose proof (split_on_nonempty p s) as Hn.
  destruct (p x) eqn:E.
  - apply Hp in E as ->. destruct (split_on p s); [done|]. by rewrite <- IH.
  - destruct (split_on p s) as [|w ws]; [done|]. rewrite <- IH. by destruct ws.
Qed.

Lemma split_on_none p s : Forall (fun x => p x = false) s -> split_on p s = [s].
Proof. induction 1 as [|c s Hc Hs IH]; simpl; [done|]. by rewrite Hc, IH. Qed.

Lemma split_on_pieces p s : Forall (Forall (fun x => p x = false)) (split_on p s).
Proof.
  induction s as [|c s IH]; simpl; [by repeat constructor|].
  destruct (p c) eqn:E; [by constructor|].
  destruct (split_on p s) as [|w ws]; [by repeat constructor|].
  apply Forall_cons in IH as [Hw Hws]. by repeat constructor.
Qed.

Lemma first_part_take_while p s : first_part p s = take_while (fun c => negb (p c)) s.
Proof.
  unfold first_part. induction s as [|c s IH]; simpl; [done|].
  pose proof (split_on_nonempty p s). destruct (p c); simpl; [done|].
  destruct (split_on p s); simpl in *; [done|]. by rewrite IH.
Qed.

Lemma last_part_app p a c b :
  p c = true -> Forall (fun x => p x = false) b -> last_part p (a ++ c :: b) = b.
Proof.
  intros Hc Hb. unfold last_part. induction a as [|x a IH]; simpl.
  - rewrite Hc, split_on_none by done. done.
  - pose proof (split_on_nonempty p (a ++ c :: b)) as Hn.
    destruct (split_on p (a ++ c :: b)) as [|w ws] eqn:E; [done|].
    destruct (p x); [done|].
    destruct ws as [|w' ws]; [|done]. exfalso.
    assert (length (split_on p (a ++ c :: b)) <> 1) as Hl; [|by rewrite E in Hl].
    clear -Hc. intros Hl. induction a as [|x a IH]; simpl in Hl.
    + rewrite Hc in Hl. simpl in Hl. pose proof (split_on_nonempty p b).
      destruct (split_on p b); [done|]. by simpl in Hl.
    + pose proof (split_on_nonempty p (a ++ c :: b)).
      destruct (split_on p (a ++ c :: b)); [done|].
      destruct (p x); simpl in *; [by destruct l | auto].
Qed.

Lemma byte_len_cons c s : byte_len (c :: s) = length (utf8_char c) + byte_len s.
Proof. unfold byte_len, as_bytes. simpl. by rewrite length_app. Qed.

Lemma byte_len_app a b : byte_len (a ++ b) = byte_len a + byte_len b.
Proof. unfold byte_len, as_bytes. by rewrite map_app, concat_app, length_app. Qed.

Lemma utf8_char_length c : 1 <= length (utf8_char c) <= 4.
Proof. unfold utf8_char. split_tests; simpl; lia. Qed.

Lemma length_le_byte_len s : length s <= byte_len s.
Proof.
  induction s as [|c s IH]; [done|]. rewrite byte_len_cons.
  pose proof (utf8_char_length c). simpl. lia.
Qed.

Lemma byte_prefix_spec n s :
  exists r, s = byte_prefix n s ++ r /\ (blen (byte_prefix n s) <= n)%N /\
    (forall c r', r = c :: r' -> n < blen (byte_prefix n s ++ [c]))%N.
Proof.
  revert n. induction s as [|c s IH]; intros n; simpl.
  - exists []. split_and!; [done|unfold blen, byte_len; simpl; lia|done].
  - destruct (N.leb_spec (N.of_nat (length (utf8_char c))) n) as [Hle|Hgt].
    + destruct (IH (n - N.of_nat (length (utf8_char c)))%N) as (r & Hs & Hb & Hm).
      exists r. unfold blen in *. rewrite byte_len_cons. split_and!.
      * simpl. by rewrite <- Hs.
      * lia.
      * intros d r' Hr. specialize (Hm d r' Hr). rewrite <- app_comm_cons, byte_len_cons. lia.
    + exists (c :: s). split_and!; [done|unfold blen, byte_len; simpl; lia|].
      intros d r' [= -> ->]. unfold blen. simpl. rewrite byte_len_cons. lia.
Qed.

Lemma byte_drop_app a b : byte_drop (byte_len a) (a ++ b) = Some b.
Proof.
  induction a as [|c a IH]; [by destruct b|].
  rewrite byte_len_cons. pose proof (utf8_char_length c) as Hc. cbn [app byte_drop].
  destruct (length (utf8_char c) + byte_len a) eqn:E; [lia|]. rewrite <- E.
  destruct (Nat.leb_spec (length (utf8_char c)) (length (utf8_char c) + byte_len a)); [|lia].
  by replace (_ - _) with (byte_len a) by lia.
Qed.

Lemma clamp_bounds lo hi x : (lo <= hi)%N -> (lo <= clamp lo hi x <= hi)%N.
Proof.
  unfold clamp. intros H. destruct (N.ltb_spec x lo); [lia|].
  destruct (N.ltb_spec hi x); lia.
Qed.

(** A text without an occurrence of the pattern is left alone. *)
Lemma replace_str_id p by_ s : contains p s = false -> replace_str p by_ s = s.
Proof.
  unfold replace_str. induction s as [|c s IH]; [done|]. cbn [contains replace_from].
  rewrite orb_false_iff. intros [-> Hs]. by rewrite IH.
Qed.

(** ** Trimming *)

Lemma drop_while_app_all {A} (p : A -> bool) x y :
  Forall (fun c => p c = true) x -> drop_while p (x ++ y) = drop_while p y.
Proof. induction 1 as [|c x Hc Hx IH]; simpl; [done|]. by rewrite Hc. Qed.

Lemma drop_while_app_some {A} (p : A -> bool) x y :
  drop_while p x <> [] -> drop_while p (x ++ y) = drop_while p x ++ y.
Proof. induction x as [|c x IH]; simpl; [done|]. by destruct (p c). Qed.

Lemma drop_while_nil {A} (p : A -> bool) x :
  drop_while p x = [] <-> Forall (fun c => p c = true) x.
Proof.
  induction x as [|c x IH]; simpl; [by split|]. rewrite Forall_cons.
  destruct (p c); naive_solver.
Qed.

Lemma trim_end_all p a b :
  Forall (fun c => p c = true) b -> trim_end_matches p (a ++ b) = trim_end_matches p a.
Proof.
  intros Hb. unfold trim_end_matches. rewrite rev_app_distr, drop_while_app_all; [done|].
  by apply Forall_rev.
Qed.

Lemma trim_end_some p a b :
  ~ Forall (fun c => p c = true) b -> trim_end_matches p (a ++ b) = a ++ trim_end_matches p b.
Proof.
  intros Hb. unfold trim_end_matches. rewrite rev_app_distr, drop_while_app_some.
  - by rewrite rev_app_distr, rev_involutive.
  - intros H%drop_while_nil. apply Hb. apply Forall_rev in H. by rewrite rev_involutive in H.
Qed.

Lemma trim_end_last p a c : p c = false -> trim_end_matches p (a ++ [c]) = a ++ [c].
Proof.
  intros Hc. rewrite trim_end_some.
  - unfold trim_end_matches. simpl. by rewrite Hc.
  - intros H. inversion H. congruence.
Qed.

Lemma trim_end_spec p (s : str) :
  exists l, s = trim_end_matches p s ++ l /\ Forall (fun c => p c = true) l /\
            (forall x c, trim_end_matches p s = x ++ [c] -> p c = false).
Proof.
  unfold trim_end_matches. destruct (drop_while_suffix p (rev s)) as (l & Hl & Hf).
  exists (rev l). split_and!.
  - rewrite <- rev_app_distr, <- Hl. by rewrite rev_involutive.
  - by apply Forall_rev.
  - intros x c Hx. apply (f_equal (@rev _)) in Hx. rewrite rev_involutive, rev_app_distr in Hx.
    by apply drop_while_head in Hx.
Qed.

Lemma drop_while_id {A} (p : A -> bool) s :
  (forall c r, s = c :: r -> p c = false) -> drop_while p s = s.
Proof. destruct s as [|c s]; simpl; [done|]. intros Hp. by rewrite (Hp c s eq_refl). Qed.

Lemma trim_end_id p (s : str) :
  (forall x c, s = x ++ [c] -> p c = false) -> trim_end_matches p s = s.
Proof.
  intros Hp. unfold trim_end_matches. rewrite drop_while_id; [by rewrite rev_involutive|].
  intros c r Hr. apply (Hp (rev r)). rewrite <- (rev_involutive s), Hr. done.
Qed.

Lemma trim_idem s : trim (trim s) = trim s.
Proof.
  unfold trim, trim_matches, trim_start_matches. set (t := drop_while is_whitespace s).
  destruct (trim_end_spec is_whitespace t) as (l & Hl & _ & Hlast).
  rewrite (drop_while_id _ (trim_end_matches is_whitespace t)).
  - by apply trim_end_id.
  - intros c r Hc. rewrite Hc in Hl. cbn in Hl. by apply drop_while_head in Hl.
Qed.

Lemma trim_nonempty c r : is_whitespace c = false -> trim (c :: r) <> [].
Proof.
  intros Hc. unfold trim, trim_matches, trim_start_matches, trim_end_matches. cbn [drop_while]. rewrite Hc.
  cbn [rev]. intros E. apply (f_equal (@rev _)) in E. rewrite rev_involutive in E. cbn in E.
  induction (rev r) as [|x l IH]; cbn [app drop_while] in E; [by rewrite Hc in E|].
  destruct (is_whitespace x); [auto|done].
Qed.

Lemma trim_start_id s : (forall c r, s = c :: r -> is_whitespace c = false) -> trim_start s = s.
Proof. apply drop_while_id. Qed.

(** A trimmed text starts and ends with a character that is not white space. *)
Lemma trim_fixed s :
  (forall c r, s = c :: r -> is_whitespace c = false) ->
  (forall r c, s = r ++ [c] -> is_whitespace c = false) -> trim s = s.
Proof.
  intros Hf Hl. unfold trim, trim_matches, trim_start_matches.
  rewrite drop_while_id by done. by apply trim_end_id.
Qed.

Lemma trim_head s c r : trim s = c :: r -> is_whitespace c = false.
Proof.
  unfold trim, trim_matches, trim_start_matches. intros Ht.
  destruct (trim_end_spec is_whitespace (drop_while is_whitespace s)) as (l & Hl & _).
  rewrite Ht in Hl. cbn in Hl. by apply drop_while_head in Hl.
Qed.

Lemma trim_last s r c : trim s = r ++ [c] -> is_whitespace c = false.
Proof.
  unfold trim, trim_matches. intros Ht.
  destruct (trim_end_spec is_whitespace (trim_start_matches is_whitespace s)) as (_ & _ & _ & Hl).
  by eapply Hl.
Qed.

Lemma trim_pad a s b :
  Forall (fun c => is_whitespace c = true) a -> Forall (fun c => is_whitespace c = true) b ->
  trim (a ++ s ++ b) = trim s.
Proof.
  intros Ha Hb. unfold trim, trim_matches, trim_start_matches.
  rewrite drop_while_app_all by done.
  destruct (decide (drop_while is_whitespace s = [])) as [Hs|Hs].
  - rewrite Hs. apply drop_while_nil in Hs. rewrite (drop_while_app_all _ s) by done.
    by rewrite (proj2 (drop_while_nil _ b) Hb).
  - by rewrite drop_while_app_some, trim_end_all.
Qed.

Lemma trim_all s : trim s = [] <-> Forall (fun c => is_whitespace c = true) s.
Proof.
  split.
  - intros Ht. unfold trim, trim_matches, trim_start_matches in Ht.
    destruct (trim_end_spec is_whitespace (drop_while is_whitespace s)) as (l & Hl & Hw & _).
    rewrite Ht in Hl. cbn in Hl. destruct (drop_while_suffix is_whitespace s) as (w & Hs & Hp).
    rewrite Hs, Hl. by apply Forall_app.
  - intros Hs. pose proof (trim_pad s [] [] Hs ltac:(constructor)) as Ht.
    by rewrite !app_nil_r in Ht.
Qed.
