(* ===== verification/Files.v ===== *)
(** * Paths, files and processes (std::path, std::fs, std::process)

    What the tools use of the standard library on a system other than Windows: the
    components of a path, a tree of files, directories and symbolic links, the
    resolution of a path, the operations that read and change the tree, and the
    processes that were started.  An
    operation that the operating system may refuse also fails when the class [Disk]
    says so; a refused write leaves arbitrary bytes in its file. *)

From S2P Require Import Prelude.
From S2P Require Import Text.

(** ** Paths *)

Inductive Component := RootDir | CurDir | ParentDir | Normal (name : str).

#[export] Instance Component_eq_dec : EqDecision Component.
Proof. solve_decision. Defined.

Definition component_of (part : str) : option Component :=
  if is_empty part || (part =s $".") then None
  else if part =s $".." then Some ParentDir
  else Some (Normal part).

(** [Path::components]: empty parts and [.] are dropped, but a leading [.] of a
    relative path is kept. *)
Definition components (path : str) : list Component :=
  let parts := split_on (N.eqb SLASH) path in
  if starts_with $"/" path then RootDir :: omap component_of parts
  else (if hd [] parts =s $"." then [CurDir] else []) ++ omap component_of parts.

Definition is_absolute (path : str) : bool := starts_with $"/" path.

(** An absolute path without [.] and [..]: its names from the root. *)
Abbreviation apath := (list (list N)) (only parsing).

Definition normals (cs : list Component) : list str :=
  omap (fun c => match c with Normal n => Some n | _ => None end) cs.

(** [Path::join] of a relative path that has no [..]. *)
Definition join_path (root : apath) (path : str) : apath := root ++ normals (components path).

(** [Path::parent], [Path::file_name] of an absolute path. *)
Definition parent_of (p : apath) : option apath :=
  match p with [] => None | _ => Some (removelast p) end.
Definition file_name_of (p : apath) : option str := last p.

(** [Path::starts_with], [Path::strip_prefix] *)
Fixpoint strip_path (root p : apath) : option apath :=
  match root, p with
  | [], _ => Some p
  | a :: root', b :: p' => if a =s b then strip_path root' p' else None
  | _ :: _, [] => None
  end.
Definition path_starts_with (p root : apath) : bool :=
  match strip_path root p with Some _ => true | None => false end.

(** ** The tree *)

(** The bytes of a file: valid UTF-8 text, or other bytes by their number. *)
Inductive Content := Utf8 (s : str) | NotUtf8 (size : N).
Inductive Node := File (c : Content) | Directory | Symlink (target : str) | Special.

Definition content_len (c : Content) : N :=
  match c with Utf8 s => blen s | NotUtf8 n => n end.

Abbreviation FileSystem := (gmap (list (list N)) Node) (only parsing).

(** The root always exists and is not stored. *)
Definition node_at (fs : FileSystem) (p : apath) : option Node :=
  match p with [] => Some Directory | _ => fs !! p end.
Definition is_directory_at (fs : FileSystem) (p : apath) : bool :=
  match node_at fs p with Some Directory => true | _ => false end.

Inductive IoError :=
| NotFound | AlreadyExists | NotADirectory | IsADirectory | InvalidData | FilesystemLoop
| Refused.

(** Symbolic links that one resolution follows at most. *)
Definition MAX_SYMLINKS : nat := 40.

(** Resolution from the directory [cur].  With [create] the last name may be absent,
    as when a file is opened for creation.  The result has the links left. *)
Fixpoint walk (create : bool) (fs : FileSystem) (links : nat)
  : apath -> list Component -> result (apath * nat) IoError :=
  fix go (cur : apath) (todo : list Component) : result (apath * nat) IoError :=
    match todo with
    | [] => Ok (cur, links)
    | RootDir :: t => go [] t
    | c :: t =>
      if negb (is_directory_at fs cur) then Err NotADirectory
      else match c with
      | Normal name =>
        match node_at fs (cur ++ [name]) with
        | None => if create && is_empty t then Ok (cur ++ [name], links) else Err NotFound
        | Some (Symlink target) =>
          match links with
          | 0 => Err FilesystemLoop
          | S l => walk create fs l cur (components target ++ t)
          end
        | Some _ => go (cur ++ [name]) t
        end
      | ParentDir => go (removelast cur) t
      | _ => go cur t
      end
    end.

Definition comps (p : apath) : list Component := map Normal p.

Definition resolve_path (fs : FileSystem) (p : apath) : result apath IoError :=
  let? r := walk false fs MAX_SYMLINKS [] (comps p) in Ok (fst r).

(** Where opening [p] for creation leads. *)
Definition resolve_create (fs : FileSystem) (p : apath) : result apath IoError :=
  let? r := walk true fs MAX_SYMLINKS [] (comps p) in Ok (fst r).

(** The directory entry that [p] names, its last name not followed. *)
Definition resolve_entry (fs : FileSystem) (p : apath) : result apath IoError :=
  match last p with
  | None => Ok []
  | Some name =>
    let? dir := resolve_path fs (removelast p) in
    if is_directory_at fs dir then Ok (dir ++ [name]) else Err NotADirectory
  end.

(** [Path::exists], [is_dir], [is_file]: false when the path cannot be resolved. *)
Definition stat (fs : FileSystem) (p : apath) : option Node :=
  match resolve_path fs p with Ok r => node_at fs r | Err _ => None end.
Definition path_exists (fs : FileSystem) (p : apath) : bool :=
  match stat fs p with Some _ => true | None => false end.
Definition path_is_dir (fs : FileSystem) (p : apath) : bool :=
  match stat fs p with Some Directory => true | _ => false end.
Definition path_is_file (fs : FileSystem) (p : apath) : bool :=
  match stat fs p with Some (File _) => true | _ => false end.

(** ** Operations on the tree, when the system does not refuse them *)

Definition fs_read (fs : FileSystem) (p : apath) : result str IoError :=
  let? r := resolve_path fs p in
  match node_at fs r with
  | Some (File (Utf8 s)) => Ok s
  | Some (File (NotUtf8 _)) => Err InvalidData
  | Some Directory => Err IsADirectory
  | _ => Err NotFound
  end.

Definition fs_lstat (fs : FileSystem) (p : apath) : result Node IoError :=
  let? r := resolve_entry fs p in
  match node_at fs r with Some n => Ok n | None => Err NotFound end.

Definition fs_mkdir (fs : FileSystem) (p : apath) : result FileSystem IoError :=
  let? r := resolve_entry fs p in
  match node_at fs r with
  | Some _ => Err AlreadyExists
  | None => Ok (<[r := Directory]> fs)
  end.

(** [File::create]: the place of the file, which is empty afterwards. *)
Definition fs_create (fs : FileSystem) (p : apath) : result (apath * FileSystem) IoError :=
  let? r := resolve_create fs p in
  match node_at fs r with
  | None | Some (File _) => Ok (r, <[r := File (Utf8 [])]> fs)
  | Some Directory => Err IsADirectory
  | Some _ => Err Refused
  end.

(** [fs::rename] of a file; the name at the destination is replaced, not followed. *)
Definition fs_rename (fs : FileSystem) (from to : apath) : result FileSystem IoError :=
  let? source := resolve_entry fs from in
  let? destination := resolve_entry fs to in
  match node_at fs source with
  | None => Err NotFound
  | Some Directory => Err Refused
  | Some n =>
    match node_at fs destination with
    | Some Directory => Err IsADirectory
    | _ => Ok (<[destination := n]> (delete source fs))
    end
  end.

Definition fs_remove_file (fs : FileSystem) (p : apath) : result FileSystem IoError :=
  let? r := resolve_entry fs p in
  match node_at fs r with
  | None => Err NotFound
  | Some Directory => Err IsADirectory
  | Some _ => Ok (delete r fs)
  end.

(** The entries of a directory by name, in the order of the map. *)
Definition entries_of (fs : FileSystem) (dir : apath) : list (list N * Node) :=
  omap (fun kv => match strip_path dir (fst kv) with
                  | Some [name] => Some (name, snd kv)
                  | _ => None
                  end) (map_to_list fs).

(** ** The world of a tool

    [w_ops] counts the operations; [fault n] is what becomes of the [n]-th.
    [dir_order] is the order in which a directory is read. *)
Class Disk := {
  fault : nat -> option Content;
  dir_order : list (list N * Node) -> list (list N * Node);
}.
Class DiskOk `{Disk} := dir_order_perm l : dir_order l ≡ₚ l.

(** A program is looked up by name or is the file at a path. *)
Inductive Program := ByName (name : str) | AtPath (p : apath).
Record Spawn := mkSpawn {
  sp_program : Program; sp_args : list str; sp_cwd : apath; sp_background : bool }.

(** [w_spawned] lists the processes that were started, the last one first. *)
Record World := mkWorld { w_fs : FileSystem; w_ops : nat; w_spawned : list Spawn }.
Definition tick (w : World) : World := mkWorld (w_fs w) (S (w_ops w)) (w_spawned w).
Definition set_fs (fs : FileSystem) (w : World) : World := mkWorld fs (w_ops w) (w_spawned w).
Definition log_spawn (s : Spawn) (w : World) : World :=
  mkWorld (w_fs w) (w_ops w) (s :: w_spawned w).

Section Operations.
Context `{Disk}.

(** An operation of type [IO A] changes the world also when it fails. *)
Definition IO (A : Type) : Type := World -> result A IoError * World.

Definition io_ret {A} (a : A) : IO A := fun w => (Ok a, w).
Definition io_bind {A B} (m : IO A) (f : A -> IO B) : IO B := fun w =>
  match m w with
  | (Ok a, w') => f a w'
  | (Err e, w') => (Err e, w')
  end.

(** One operation: refused, or performed by [f]. *)
Definition attempt {A} (f : FileSystem -> result (A * FileSystem) IoError) : IO A := fun w =>
  match fault (w_ops w) with
  | Some _ => (Err Refused, tick w)
  | None => match f (w_fs w) with
            | Ok (a, fs) => (Ok a, set_fs fs (tick w))
            | Err e => (Err e, tick w)
            end
  end.
Definition query {A} (f : FileSystem -> result A IoError) : IO A :=
  attempt (fun fs => let? a := f fs in Ok (a, fs)).
Definition change (f : FileSystem -> result FileSystem IoError) : IO unit :=
  attempt (fun fs => let? fs' := f fs in Ok (tt, fs')).
(** A test of the tree that cannot fail. *)
Definition look {A} (f : FileSystem -> A) : IO A := fun w => (Ok (f (w_fs w)), w).

Definition canonicalize (p : apath) : IO apath := query (fun fs => resolve_path fs p).
Definition read_to_string (p : apath) : IO str := query (fun fs => fs_read fs p).
Definition symlink_metadata (p : apath) : IO Node := query (fun fs => fs_lstat fs p).
Definition create_dir (p : apath) : IO unit := change (fun fs => fs_mkdir fs p).
Definition rename (from to : apath) : IO unit := change (fun fs => fs_rename fs from to).
Definition remove_file (p : apath) : IO unit := change (fun fs => fs_remove_file fs p).
Definition file_create (p : apath) : IO apath := attempt (fun fs => fs_create fs p).
Definition sync_data : IO unit := query (fun _ => Ok tt).
Definition read_dir (p : apath) : IO (list (list N * Node)) :=
  query (fun fs =>
    let? r := resolve_path fs p in
    match node_at fs r with
    | Some Directory => Ok (dir_order (entries_of fs r))
    | _ => Err NotADirectory
    end).

(** [write_all] to the file opened at [r]; a refused write may have written a part. *)
Definition write_all (r : apath) (text : str) : IO unit := fun w =>
  match fault (w_ops w) with
  | Some partial => (Err Refused, set_fs (<[r := File partial]> (w_fs w)) (tick w))
  | None => (Ok tt, set_fs (<[r := File (Utf8 text)]> (w_fs w)) (tick w))
  end.

(** [fs::create_dir_all]: the directory, else its parents first; the names of the
    path bound the recursion. *)
Fixpoint create_dir_all_loop (fuel : nat) (p : apath) : IO unit := fun w =>
  match create_dir p w with
  | (Ok _, w1) => (Ok tt, w1)
  | (Err NotFound, w1) =>
    match fuel, parent_of p with
    | S f, Some up =>
      match create_dir_all_loop f up w1 with
      | (Err e, w2) => (Err e, w2)
      | (Ok _, w2) =>
        match create_dir p w2 with
        | (Ok _, w3) => (Ok tt, w3)
        | (Err e, w3) => if path_is_dir (w_fs w3) p then (Ok tt, w3) else (Err e, w3)
        end
      end
    | _, _ => (Err NotFound, w1)
    end
  | (Err e, w1) => if path_is_dir (w_fs w1) p then (Ok tt, w1) else (Err e, w1)
  end.
Definition create_dir_all (p : apath) : IO unit := create_dir_all_loop (length p) p.
End Operations.

(** Conversion unfolds resolution last. *)
Strategy 1000 [walk resolve_path resolve_create resolve_entry MAX_SYMLINKS].
