(* ===== verification/FilesFacts.v ===== *)
(** * Resolution of paths and changes below a directory

    Resolution splits at every name of a path; a new directory changes the meaning of
    no path that resolved before; and what is created, renamed or removed through a
    path whose directory resolves below a root changes nothing outside the root. *)

From S2P Require Import Prelude.
From S2P Require Import Text.
From S2P Require Import Files.

(** ** Paths *)

Lemma strip_path_Some root p r : strip_path root p = Some r <-> p = root ++ r.
Proof.
  revert p. induction root as [|a root IH]; intros p; simpl; [naive_solver|].
  destruct p as [|b p]; [naive_solver|]. destruct (a =s b) eqn:E.
  - apply str_eqb_true in E as ->. rewrite IH. naive_solver.
  - apply str_eqb_false in E. naive_solver.
Qed.

Lemma path_starts_with_true p root : path_starts_with p root = true <-> root `prefix_of` p.
Proof.
  unfold path_starts_with. destruct (strip_path root p) as [r|] eqn:E.
  - apply strip_path_Some in E as ->. split; [intros _; by exists r | done].
  - split; [done|]. intros [r Hr]. by rewrite (proj2 (strip_path_Some root p r)) in E.
Qed.

Lemma removelast_snoc {A} (l : list A) x : removelast (l ++ [x]) = l.
Proof. rewrite removelast_app by done. simpl. by rewrite app_nil_r. Qed.

Lemma parent_of_snoc p n : parent_of (p ++ [n]) = Some p.
Proof.
  unfold parent_of. rewrite removelast_snoc. destruct (p ++ [n]) eqn:E; [|done].
  by apply app_nil in E as [_ ?].
Qed.

Lemma node_at_snoc fs p n : node_at fs (p ++ [n]) = fs !! (p ++ [n]).
Proof. unfold node_at. destruct (p ++ [n]) eqn:E; [|done]. by apply app_nil in E as [_ ?]. Qed.

(** ** Resolution, step by step *)

Lemma walk_nil create fs l cur : walk create fs l cur [] = Ok (cur, l).
Proof. by destruct l. Qed.

Lemma walk_cons create fs l cur c t :
  walk create fs l cur (c :: t) =
  match c with
  | RootDir => walk create fs l [] t
  | _ =>
    if negb (is_directory_at fs cur) then Err NotADirectory
    else match c with
    | Normal name =>
      match node_at fs (cur ++ [name]) with
      | None => if create && is_empty t then Ok (cur ++ [name], l) else Err NotFound
      | Some (Symlink target) =>
        match l with
        | 0 => Err FilesystemLoop
        | S l' => walk create fs l' cur (components target ++ t)
        end
      | Some _ => walk create fs l (cur ++ [name]) t
      end
    | ParentDir => walk create fs l (removelast cur) t
    | _ => walk create fs l cur t
    end
  end.
Proof. destruct l, c; reflexivity. Qed.

Lemma walk_app create fs l cur a b :
  b <> [] ->
  walk create fs l cur (a ++ b) =
  let? r := walk false fs l cur a in walk create fs (snd r) (fst r) b.
Proof.
  intros Hb. revert cur a. induction l as [|l IHl]; intros cur a; revert cur;
    (induction a as [|c a IHa]; intros cur; [by rewrite walk_nil|]);
    cbn [app]; rewrite !walk_cons; destruct c; rewrite ?IHa; try done;
    (destruct (negb _); [done|]); try done;
    (destruct (node_at fs _) as [[]|]; try done).
  - destruct (a ++ b) eqn:E; [by apply app_nil in E as [_ ?]|]. by rewrite andb_false_r.
  - rewrite app_assoc. by rewrite IHl.
  - destruct (a ++ b) eqn:E; [by apply app_nil in E as [_ ?]|]. by rewrite andb_false_r.
Qed.

Lemma comps_snoc p n : comps (p ++ [n]) = comps p ++ [Normal n].
Proof. unfold comps. by rewrite map_app. Qed.

(** Resolution of a path is resolution of its directory and one more name. *)
Lemma resolve_snoc fs p n :
  resolve_path fs (p ++ [n]) =
  match walk false fs MAX_SYMLINKS [] (comps p) with
  | Ok (d, l) => let? r := walk false fs l d [Normal n] in Ok (fst r)
  | Err e => Err e
  end.
Proof.
  unfold resolve_path. rewrite comps_snoc, walk_app by done.
  destruct (walk false fs MAX_SYMLINKS [] (comps p)) as [[d l]|]; done.
Qed.

Lemma resolve_walk fs p d :
  resolve_path fs p = Ok d <-> exists l, walk false fs MAX_SYMLINKS [] (comps p) = Ok (d, l).
Proof.
  unfold resolve_path. destruct (walk _ _ _ _ _) as [[d' l]|]; simpl; naive_solver.
Qed.

(** A prefix of a path that resolves, resolves, and to a directory if proper. *)
Lemma resolve_prefix fs p n c :
  resolve_path fs (p ++ [n]) = Ok c ->
  exists d, resolve_path fs p = Ok d /\ is_directory_at fs d = true /\
    exists x, node_at fs (d ++ [n]) = Some x.
Proof.
  rewrite resolve_snoc. destruct (walk _ _ _ _ _) as [[d l]|] eqn:E; [|done].
  rewrite walk_cons. destruct (is_directory_at fs d) eqn:Ed; simpl; [|done].
  destruct (node_at fs (d ++ [n])) as [x|] eqn:En; [|done]. intros _.
  exists d. split_and!; [|done|by exists x]. apply resolve_walk. eauto.
Qed.

Lemma resolve_prefixes fs p q c :
  p `prefix_of` q -> resolve_path fs q = Ok c -> exists d, resolve_path fs p = Ok d.
Proof.
  intros [r ->]. revert c. induction r as [|n r IH] using rev_ind; intros c.
  - rewrite app_nil_r. eauto.
  - rewrite app_assoc. intros (d & Hd & _)%resolve_prefix. eauto.
Qed.

(** A name that is not a link is added to its directory. *)
Lemma resolve_plain fs p n d x :
  resolve_path fs p = Ok d -> is_directory_at fs d = true ->
  node_at fs (d ++ [n]) = Some x -> (forall t, x <> Symlink t) ->
  resolve_path fs (p ++ [n]) = Ok (d ++ [n]).
Proof.
  intros [l Hl]%resolve_walk Hd Hx Hs. rewrite resolve_snoc, Hl, walk_cons, Hd, Hx. simpl.
  destruct x; rewrite ?walk_nil; try done. by destruct (Hs target).
Qed.

Lemma resolve_create_plain fs p n r :
  resolve_create fs (p ++ [n]) = Ok r ->
  exists d, resolve_path fs p = Ok d /\ is_directory_at fs d = true /\
    ((forall t, node_at fs (d ++ [n]) <> Some (Symlink t)) -> r = d ++ [n]).
Proof.
  unfold resolve_create. rewrite comps_snoc, walk_app by done.
  destruct (walk false fs MAX_SYMLINKS [] (comps p)) as [[d l]|] eqn:E; [|done].
  cbn [rbind fst snd]. rewrite walk_cons.
  destruct (is_directory_at fs d) eqn:Ed; simpl; [|done]. intros Hr.
  exists d. split_and!; [apply resolve_walk; eauto|done|]. intros Hs.
  destruct (node_at fs (d ++ [n])) as [[]|] eqn:En; simpl in Hr;
    rewrite ?walk_nil in Hr; simpl in Hr; try congruence.
Qed.

Lemma resolve_entry_snoc fs p n r :
  resolve_entry fs (p ++ [n]) = Ok r <->
  exists d, resolve_path fs p = Ok d /\ is_directory_at fs d = true /\ r = d ++ [n].
Proof.
  unfold resolve_entry. rewrite last_snoc, removelast_snoc.
  destruct (resolve_path fs p) as [d|]; cbn [rbind].
  - destruct (is_directory_at fs d) eqn:E; split.
    + intros [= <-]. eauto.
    + intros (d' & [= ->] & _ & ->). done.
    + done.
    + intros (d' & [= ->] & Hd & _). congruence.
  - split; [done|]. by intros (d' & ? & _).
Qed.

(** ** Trees in which every node lies in a directory *)

Definition fs_wf (fs : FileSystem) : Prop :=
  forall p n x, fs !! (p ++ [n]) = Some x -> is_directory_at fs p = true.

(** What a new directory changes. *)
Lemma new_directory_node fs r n p :
  node_at (<[r ++ [n] := Directory]> fs) p =
  if decide (p = r ++ [n]) then Some Directory else node_at fs p.
Proof.
  destruct p as [|a p].
  - rewrite decide_False; [done|]. intros E. by apply eq_sym, app_nil in E as [_ ?].
  - cbn [node_at]. destruct (decide _) as [->|Hne]; [by rewrite lookup_insert_eq|].
    by rewrite lookup_insert_ne.
Qed.

Lemma new_directory_wf fs r n :
  fs_wf fs -> is_directory_at fs r = true -> fs !! (r ++ [n]) = None ->
  fs_wf (<[r ++ [n] := Directory]> fs).
Proof.
  intros Hwf Hr Hn p m x. unfold is_directory_at. rewrite new_directory_node.
  destruct (decide (p = r ++ [n])) as [->|Hne]; [done|].
  destruct (decide (p ++ [m] = r ++ [n])) as [E|Hne'].
  - apply app_inj_tail in E as [-> ->]. intros _. exact Hr.
  - rewrite lookup_insert_ne by done. intros Hx. exact (Hwf _ _ _ Hx).
Qed.

(** A tree that extends another: every node stays, a file with any content. *)
Definition same_node (x y : Node) : Prop :=
  match x, y with
  | File _, File _ => True
  | _, _ => x = y
  end.
Definition extends (fs fs' : FileSystem) : Prop :=
  forall p x, node_at fs p = Some x -> exists y, node_at fs' p = Some y /\ same_node x y.

Lemma same_node_refl x : same_node x x.
Proof. by destruct x. Qed.

Lemma extends_directory fs fs' p :
  extends fs fs' -> is_directory_at fs p = true -> is_directory_at fs' p = true.
Proof.
  intros He. unfold is_directory_at. destruct (node_at fs p) as [x|] eqn:E; [|done].
  destruct (He _ _ E) as (y & -> & Hy). by destruct x, y.
Qed.

(** Paths that resolve keep their meaning. *)
Lemma extends_walk fs fs' l cur todo y :
  extends fs fs' -> walk false fs l cur todo = Ok y -> walk false fs' l cur todo = Ok y.
Proof.
  intros He. revert cur todo. induction l as [|l IHl]; intros cur todo; revert cur;
    (induction todo as [|c t IH]; intros cur; [by rewrite !walk_nil|]);
    rewrite !walk_cons; destruct c; try apply IH;
    (destruct (is_directory_at fs cur) eqn:Ed; [|done]); rewrite (extends_directory _ _ _ He Ed);
    cbn [negb]; try apply IH;
    (destruct (node_at fs (cur ++ [name])) as [x|] eqn:En; [|done]);
    destruct (He _ _ En) as (z & -> & Hz); destruct x, z; simplify_eq/=; try apply IH; try done.
  apply IHl.
Qed.

Lemma extends_resolve fs fs' p d :
  extends fs fs' -> resolve_path fs p = Ok d -> resolve_path fs' p = Ok d.
Proof.
  intros He [l Hl]%resolve_walk. apply resolve_walk. exists l. by eapply extends_walk.
Qed.

(** A new node, and new content of a file, extend the tree. *)
Lemma extends_insert fs r n x :
  match fs !! (r ++ [n]) with Some y => same_node y x | None => True end ->
  extends fs (<[r ++ [n] := x]> fs).
Proof.
  intros Hx p y Hp. destruct (decide (p = r ++ [n])) as [->|Hne].
  - rewrite node_at_snoc in *. rewrite Hp in Hx. rewrite lookup_insert_eq. eauto.
  - exists y. split; [|apply same_node_refl]. destruct p as [|a p]; [done|].
    cbn [node_at] in *. by rewrite lookup_insert_ne.
Qed.

Lemma new_directory_resolve fs r n p d :
  fs !! (r ++ [n]) = None -> resolve_path fs p = Ok d ->
  resolve_path (<[r ++ [n] := Directory]> fs) p = Ok d.
Proof. intros Hn. apply extends_resolve, extends_insert. by rewrite Hn. Qed.

(** In a well-formed tree, what a path resolves to exists. *)
Lemma walk_exists fs l cur todo d l' :
  fs_wf fs -> (exists x, node_at fs cur = Some x) -> walk false fs l cur todo = Ok (d, l') ->
  exists x, node_at fs d = Some x.
Proof.
  intros Hwf.
  assert (forall p, (exists x, node_at fs p = Some x) -> exists x, node_at fs (removelast p) = Some x) as Hup.
  { intros p [x Hx]. destruct p as [|n p _] using rev_ind; [by exists Directory|].
    rewrite removelast_snoc. rewrite node_at_snoc in Hx. apply Hwf in Hx.
    unfold is_directory_at in Hx. destruct (node_at fs p); [eauto|done]. }
  revert cur todo. induction l as [|l IHl]; intros cur todo; revert cur;
    (induction todo as [|c t IH]; intros cur Hc; [rewrite walk_nil; naive_solver|]);
    rewrite walk_cons; destruct c; try (apply IH; by exists Directory);
    (destruct (negb _); [done|]); try (by apply IH; auto);
    (destruct (node_at fs (cur ++ [name])) as [x|] eqn:En; [|done]);
    destruct x; try (by apply IH; eauto); try done.
  by apply IHl.
Qed.

Lemma resolve_exists fs p d :
  fs_wf fs -> resolve_path fs p = Ok d -> exists x, node_at fs d = Some x.
Proof.
  intros Hwf [l Hl]%resolve_walk. eapply walk_exists; [done| |exact Hl]. by exists Directory.
Qed.

(** A new directory is empty. *)
Lemma below_new_directory fs q d n m k e :
  fs_wf fs -> fs !! (d ++ [n]) = None ->
  resolve_path (<[d ++ [n] := Directory]> fs) q = Ok (d ++ [n]) ->
  resolve_path (<[d ++ [n] := Directory]> fs) (q ++ m :: k) <> Ok e.
Proof.
  intros Hwf En Hnew He.
  destruct (resolve_prefixes (<[d ++ [n] := Directory]> fs) (q ++ [m]) (q ++ m :: k) e) as [e2 He2];
    [exists k; by rewrite <- app_assoc | done |].
  apply resolve_prefix in He2 as (d2 & Hd2 & _ & x & Hx).
  rewrite Hnew in Hd2. injection Hd2 as <-. rewrite node_at_snoc, lookup_insert_ne in Hx.
  - apply Hwf in Hx. unfold is_directory_at in Hx. by rewrite node_at_snoc, En in Hx.
  - intros E. apply (f_equal length) in E. rewrite !length_app in E. simpl in E. lia.
Qed.

(** ** Changes below a root *)

Definition outside_same (root : apath) (fs fs' : FileSystem) : Prop :=
  forall p, ~ root `prefix_of` p -> fs' !! p = fs !! p.

Lemma outside_same_refl root fs : outside_same root fs fs.
Proof. done. Qed.

Lemma outside_same_trans root fs1 fs2 fs3 :
  outside_same root fs1 fs2 -> outside_same root fs2 fs3 -> outside_same root fs1 fs3.
Proof. intros H1 H2 p Hp. rewrite H2, H1; done. Qed.

Lemma outside_same_insert root fs p x :
  root `prefix_of` p -> outside_same root fs (<[p := x]> fs).
Proof. intros Hp q Hq. rewrite lookup_insert_ne; [done|]. by intros ->. Qed.

Lemma outside_same_delete root fs p :
  root `prefix_of` p -> outside_same root fs (delete p fs).
Proof. intros Hp q Hq. rewrite lookup_delete_ne; [done|]. by intros ->. Qed.

Lemma prefix_of_snoc {A} (root d : list A) n : root `prefix_of` d -> root `prefix_of` d ++ [n].
Proof. apply prefix_app_r. Qed.

#[export] Hint Resolve outside_same_refl outside_same_insert outside_same_delete
  prefix_of_snoc : xc_spec.

(** Two prefixes of the same path: the second, one name longer, is within the first or
    extends it. *)
Lemma prefix_cases {A} (a q par : list A) n :
  a `prefix_of` par -> q ++ [n] `prefix_of` par -> a `prefix_of` q \/ q ++ [n] `prefix_of` a.
Proof.
  intros Ha Hq. destruct (prefix_weak_total a (q ++ [n]) par Ha Hq) as [H|H]; [|by right].
  destruct H as [k Hk]. destruct k as [|x k] using rev_ind.
  - rewrite app_nil_r in Hk. right. by rewrite Hk.
  - left. rewrite app_assoc in Hk. apply app_inj_tail in Hk as [-> _]. by exists k.
Qed.

Section Confined.
Context `{Disk}.
Variables root anc par : list (list N).
Hypothesis anc_par : anc `prefix_of` par.

(** The invariant of the creation of directories on the way to [par]: [anc] exists, and
    whatever resolves between [anc] and [par] lies below the root. *)
Record confined (fs : FileSystem) : Prop := mkConfined {
  cf_wf : fs_wf fs;
  cf_anc : exists c, resolve_path fs anc = Ok c;
  cf_inside : forall q d, anc `prefix_of` q -> q `prefix_of` par ->
    resolve_path fs q = Ok d -> root `prefix_of` d;
}.

(** New directories below the root and nothing else. *)
Definition grows (fs fs' : FileSystem) : Prop :=
  forall p, fs' !! p = fs !! p \/
    (root `prefix_of` p /\ fs !! p = None /\ fs' !! p = Some Directory).

Lemma grows_refl fs : grows fs fs.
Proof. left. done. Qed.

Lemma grows_trans fs1 fs2 fs3 : grows fs1 fs2 -> grows fs2 fs3 -> grows fs1 fs3.
Proof.
  intros H1 H2 p. destruct (H1 p) as [E1|(Hr & Hn & Hd)], (H2 p) as [E2|(Hr' & Hn' & Hd')].
  - left. congruence.
  - right. split_and!; congruence.
  - right. split_and!; congruence.
  - congruence.
Qed.

Lemma grows_outside fs fs' : grows fs fs' -> outside_same root fs fs'.
Proof. intros Hg p Hp. destruct (Hg p) as [?|(? & _)]; done. Qed.

Lemma mkdir_confined fs fs' q :
  confined fs -> q `prefix_of` par -> fs_mkdir fs q = Ok fs' ->
  confined fs' /\ grows fs fs'.
Proof.
  intros [Hwf [c Hc] Hin] Hq. destruct q as [|n q _] using rev_ind; [done|].
  unfold fs_mkdir. destruct (resolve_entry fs (q ++ [n])) as [r|] eqn:Er; [|done].
  apply resolve_entry_snoc in Er as (d & Hd & Hdir & ->). cbn [rbind].
  rewrite node_at_snoc. destruct (fs !! (d ++ [n])) eqn:En; [done|]. intros [= <-].
  destruct (prefix_cases anc q par n anc_par Hq) as [Hanc|Hshort].
  2:{ exfalso. destruct (resolve_prefixes fs (q ++ [n]) anc c Hshort Hc) as [e He].
      apply resolve_prefix in He as (d' & Hd' & _ & x & Hx).
      rewrite Hd in Hd'. injection Hd' as <-. rewrite node_at_snoc in Hx. congruence. }
  assert (root `prefix_of` d) as Hroot.
  { apply (Hin q d Hanc); [|done]. etrans; [|exact Hq]. by apply prefix_app_r. }
  assert (resolve_path (<[d ++ [n] := Directory]> fs) (q ++ [n]) = Ok (d ++ [n])) as Hnew.
  { apply (resolve_plain _ _ _ _ Directory); [by apply new_directory_resolve| | |done].
    - unfold is_directory_at. rewrite new_directory_node. by destruct (decide _).
    - rewrite new_directory_node. by rewrite decide_True. }
  split.
  - split.
    + by apply new_directory_wf.
    + exists c. by apply new_directory_resolve.
    + intros p e Hp1 Hp2 He. destruct (resolve_path fs p) as [e'|] eqn:Eo.
      * rewrite (new_directory_resolve _ _ _ _ _ En Eo) in He. injection He as <-.
        by apply (Hin p).
      * destruct (prefix_weak_total p (q ++ [n]) par Hp2 Hq) as [Hle|[k Hk]].
        -- destruct Hle as [k Hk]. destruct k as [|x k _] using rev_ind.
           ++ rewrite app_nil_r in Hk. rewrite <- Hk, Hnew in He. injection He as <-. auto with xc_spec.
           ++ rewrite app_assoc in Hk. apply app_inj_tail in Hk as [-> _].
              destruct (resolve_prefixes fs p (p ++ k) d) as [? ?]; [by exists k|done|congruence].
        -- destruct k as [|m k]; [rewrite app_nil_r in Hk; rewrite Hk, Hnew in He; injection He as <-; auto with xc_spec|].
           exfalso. rewrite Hk in He. by eapply below_new_directory.
  - intros p. destruct (decide (p = d ++ [n])) as [->|Hne].
    + right. rewrite lookup_insert_eq. auto with xc_spec.
    + left. by rewrite lookup_insert_ne.
Qed.

Lemma create_dir_confined q w :
  confined (w_fs w) -> q `prefix_of` par ->
  let w' := snd (create_dir q w) in
  confined (w_fs w') /\ grows (w_fs w) (w_fs w') /\ w_spawned w' = w_spawned w.
Proof.
  intros Hc Hq. unfold create_dir, change, attempt.
  destruct (fault (w_ops w)); [split_and!; [done|apply grows_refl|done]|].
  destruct (fs_mkdir (w_fs w) q) as [fs'|] eqn:E; cbn.
  - apply mkdir_confined in E as [H1 H2]; done.
  - split_and!; [done|apply grows_refl|done].
Qed.

Lemma create_dir_all_confined fuel q w :
  confined (w_fs w) -> q `prefix_of` par ->
  let w' := snd (create_dir_all_loop fuel q w) in
  confined (w_fs w') /\ grows (w_fs w) (w_fs w') /\ w_spawned w' = w_spawned w.
Proof.
  revert q w. induction fuel as [|f IH]; intros q w Hc Hq; cbn [create_dir_all_loop];
    destruct (create_dir_confined q w Hc Hq) as (H1 & H2 & H3);
    destruct (create_dir q w) as [[u|e] w1]; cbn [fst snd] in *; try done;
    destruct e; try (by destruct (path_is_dir _ _)); try done.
  destruct (parent_of q) as [up|] eqn:Eu; [|done].
  assert (up `prefix_of` par) as Hup.
  { destruct q as [|n q _] using rev_ind; [done|]. rewrite parent_of_snoc in Eu.
    injection Eu as <-. etrans; [|exact Hq]. by apply prefix_app_r. }
  destruct (IH up w1 H1 Hup) as (H4 & H5 & H6).
  destruct (create_dir_all_loop f up w1) as [[u|e] w2]; cbn [fst snd] in *;
    [|split_and!; [done|by eapply grows_trans|congruence]].
  destruct (create_dir_confined q w2 H4 Hq) as (H7 & H8 & H9).
  assert (grows (w_fs w) (w_fs (snd (create_dir q w2)))) as Hg
    by (eapply grows_trans; [|exact H8]; by eapply grows_trans).
  destruct (create_dir q w2) as [[u'|e'] w3]; cbn [fst snd] in *;
    [|destruct (path_is_dir _ _)]; cbn [fst snd]; (split_and!; [done|done|congruence]).
Qed.
End Confined.

(** ** Canonical paths *)

(** Every directory on the way is a directory, and no name is a link. *)
Inductive canonical (fs : FileSystem) : apath -> Prop :=
| canonical_root : canonical fs []
| canonical_name p n x :
    canonical fs p -> is_directory_at fs p = true ->
    fs !! (p ++ [n]) = Some x -> (forall t, x <> Symlink t) -> canonical fs (p ++ [n]).

Lemma canonical_up fs p : canonical fs p -> canonical fs (removelast p).
Proof. induction 1; [constructor|]. by rewrite removelast_snoc. Qed.

Lemma walk_canonical fs l cur todo r l' :
  canonical fs cur -> walk false fs l cur todo = Ok (r, l') -> canonical fs r.
Proof.
  revert cur todo. induction l as [|l IHl]; intros cur todo; revert cur;
    (induction todo as [|c t IHt]; intros cur Hc;
      [rewrite walk_nil; by intros [= <- <-]|]);
    rewrite walk_cons; destruct c as [| | |name];
    try (intros E; apply IHt in E; [done|constructor]);
    (destruct (is_directory_at fs cur) eqn:Ed; cbn [negb]; [|done]);
    try (intros E; apply IHt in E; [done|auto using canonical_up]);
    (destruct (node_at fs (cur ++ [name])) as [x|] eqn:En; [|done]);
    (rewrite node_at_snoc in En);
    destruct x; intros E; try done;
    try (apply IHt in E; [done|by eapply canonical_name]).
  by apply IHl in E.
Qed.

Lemma resolve_canonical fs p r : resolve_path fs p = Ok r -> canonical fs r.
Proof. intros [l Hl]%resolve_walk. eapply walk_canonical; [constructor|exact Hl]. Qed.

Lemma canonical_resolves fs p : canonical fs p -> resolve_path fs p = Ok p.
Proof.
  induction 1 as [|p n x Hp IH Hd Hx Hs].
  - unfold resolve_path. cbn [comps map]. by rewrite walk_nil.
  - eapply resolve_plain; [done|done|by rewrite node_at_snoc|done].
Qed.

(** ** The entries of a directory *)

Lemma elem_of_entries fs d n x : (n, x) ∈ entries_of fs d <-> fs !! (d ++ [n]) = Some x.
Proof.
  unfold entries_of. rewrite list_elem_of_omap. split.
  - intros ([k v] & Hk & E). cbn in E. destruct (strip_path d k) as [[|m [|? ?]]|] eqn:Es; try done.
    injection E as -> ->. apply strip_path_Some in Es as ->. by apply elem_of_map_to_list.
  - intros Hx. exists (d ++ [n], x). split; [by apply elem_of_map_to_list|]. cbn.
    by rewrite (proj2 (strip_path_Some d (d ++ [n]) [n])).
Qed.

Lemma entries_NoDup fs d : NoDup (entries_of fs d).*1.
Proof.
  unfold entries_of. pose proof (NoDup_fst_map_to_list fs) as Hnd.
  induction (map_to_list fs) as [|[k v] l IH]; [constructor|].
  cbn [fmap list_fmap] in Hnd. apply NoDup_cons in Hnd as [Hk Hnd]. specialize (IH Hnd).
  cbn [omap list_omap fst snd]. destruct (strip_path d k) as [[|n [|? ?]]|] eqn:Es; try done.
  cbn [fmap list_fmap fst]. constructor; [|done].
  intros ([m x] & E & Hm)%list_elem_of_fmap. cbn in E. subst m.
  apply list_elem_of_omap in Hm as ([k' v'] & Hk' & E'). cbn in E'.
  destruct (strip_path d k') as [[|m [|? ?]]|] eqn:Es'; try done. injection E' as -> ->.
  apply strip_path_Some in Es, Es'. subst k k'. apply Hk. by apply (list_elem_of_fmap_2 fst l (d ++ [n], x)).
Qed.
