(* ===== verification/ToolArgs.v ===== *)
(** * Calls, errors and results of the tools (crates/xcoding-tools/src/lib.rs)

    The arguments that the model passes to a tool, the errors and the result of a
    tool.  Arguments arrive as JSON; the decoders that [serde] derives are the
    members of the class [Serde]. *)

From S2P Require Import Prelude.
From S2P Require Import Protocol.
From S2P Require Import Text.
From S2P Require Import Files.

(** ** Limits *)
Definition DEFAULT_LIST_ENTRIES : N := 200.
Definition MAX_LIST_ENTRIES : N := 1000.
Definition DEFAULT_READ_LINES : N := 200.
Definition MAX_READ_LINES : N := 400.
Definition MAX_READ_BYTES : N := 512 * 1024.
Definition DEFAULT_SEARCH_RESULTS : N := 50.
Definition MAX_SEARCH_RESULTS : N := 100.
Definition MAX_SEARCH_FILE_BYTES : N := 1024 * 1024.
Definition MAX_SEARCH_CONTEXT_LINES : N := 3.
Definition MAX_SKILL_CONTENT_CHARS : N := 20000.
Definition MAX_SKILL_DESCRIPTION_CHARS : nat := 240.
Definition MAX_SEARCH_CANDIDATES : N := 500.
Definition DEFAULT_GIT_LOG_COUNT : N := 20.
Definition MAX_GIT_LOG_COUNT : N := 50.
Definition MAX_TOOL_JSON_BYTES : N := 32 * 1024.
Definition DEFAULT_COMMAND_TIMEOUT : N := 600.
Definition MAX_COMMAND_TIMEOUT_SECONDS : N := 3600.
Definition DEFAULT_READY_TIMEOUT_SECONDS : N := 15.
Definition MAX_READY_TIMEOUT_SECONDS : N := 120.
Definition MAX_PLAN_STEPS : nat := 20.
Definition MAX_PLAN_STEP_DESCRIPTION_CHARS : nat := 200.

(** ** Arguments *)
Record ListDirArgs := mkListDirArgs { ld_path : str; ld_max_entries : option N }.
Record ReadFileArgs := mkReadFileArgs {
  rf_path : str; rf_start_line : option N; rf_end_line : option N }.
Record ApplyPatchArgs := mkApplyPatchArgs {
  ap_path : str; ap_old_text : str; ap_new_text : str }.
Record RunCommandArgs := mkRunCommandArgs {
  rc_executable : str;
  rc_args : list str;
  rc_timeout_seconds : option N;
  rc_background : bool;
  rc_cwd : option str;
  rc_ready_port : option N;
  rc_ready_timeout_seconds : option N;
}.
Record SearchCodeArgs := mkSearchCodeArgs {
  sc_query : str;
  sc_path : str;
  sc_max_results : option N;
  sc_case_insensitive : bool;
  sc_glob : option str;
  sc_context_lines : option N;
}.
Record LoadSkillArgs := mkLoadSkillArgs { ls_name : str }.
Record GitStatusArgs := mkGitStatusArgs { gs_path : option str }.
Record GitDiffArgs := mkGitDiffArgs { gd_path : option str }.
Record GitLogArgs := mkGitLogArgs { gl_max_count : option N; gl_path : option str }.
Record GitShowArgs := mkGitShowArgs { gw_revision : str; gw_path : option str }.
Record GitAddArgs := mkGitAddArgs { ga_paths : list str }.
Record GitCommitArgs := mkGitCommitArgs { gc_message : str; gc_allow_empty : option bool }.
Record GitPushArgs := mkGitPushArgs {
  gp_remote : option str; gp_branch : option str; gp_set_upstream : option bool }.
Record GitFetchArgs := mkGitFetchArgs { gf_remote : option str; gf_branch : option str }.
Record GitPullArgs := mkGitPullArgs {
  gl_remote : option str; gl_branch : option str; gl_ff_only : option bool }.
Record UpdatePlanStepArgs := mkPlanStepArgs { up_description : str; up_status : option str }.
Record UpdatePlanArgs := mkUpdatePlanArgs { up_steps : list UpdatePlanStepArgs }.

(** The derived decoders, one per type: the value or the message of the error. *)
Class Serde := {
  from_list_dir : Value -> result ListDirArgs str;
  from_read_file : Value -> result ReadFileArgs str;
  from_search_code : Value -> result SearchCodeArgs str;
  from_load_skill : Value -> result LoadSkillArgs str;
  from_apply_patch : Value -> result ApplyPatchArgs str;
  from_run_command : Value -> result RunCommandArgs str;
  from_git_status : Value -> result GitStatusArgs str;
  from_git_diff : Value -> result GitDiffArgs str;
  from_git_log : Value -> result GitLogArgs str;
  from_git_show : Value -> result GitShowArgs str;
  from_git_add : Value -> result GitAddArgs str;
  from_git_commit : Value -> result GitCommitArgs str;
  from_git_push : Value -> result GitPushArgs str;
  from_git_fetch : Value -> result GitFetchArgs str;
  from_git_pull : Value -> result GitPullArgs str;
  from_update_plan : Value -> result UpdatePlanArgs str;
}.

(** [RunCommandArgs::effective_timeout] and [effective_ready_timeout], in seconds. *)
Definition effective_timeout (args : RunCommandArgs) : N :=
  match rc_timeout_seconds args with
  | Some seconds => clamp 1 MAX_COMMAND_TIMEOUT_SECONDS seconds
  | None => DEFAULT_COMMAND_TIMEOUT
  end.

Definition effective_ready_timeout (args : RunCommandArgs) : N :=
  clamp 1 MAX_READY_TIMEOUT_SECONDS
    (or_else (rc_ready_timeout_seconds args) DEFAULT_READY_TIMEOUT_SECONDS).

Definition bounded (value : option N) (default maximum : N) : N :=
  clamp 1 maximum (or_else value default).

(** ** Errors *)
Inductive ToolError :=
| WorkspaceNotFound (path : str)
| PathOutsideWorkspace (path : str)
| NotDirectory (path : str)
| NotFile (path : str)
| FileTooLarge (path : str)
| InvalidArguments (m : str)
| PermissionDenied
| PatchConflict (path : str)
| InvalidCommand (m : str)
| CommandPolicyDenied (code reason : str)
| ToolCancelled
| ToolIo (e : IoError)
| ToolJson (m : str).

(** [parse_arguments], at each type of arguments. *)
Definition parse_arguments {A} (from_value : Value -> result A str) (arguments : Value)
  : result A ToolError :=
  match from_value arguments with
  | Ok a => Ok a
  | Err e => Err (InvalidArguments e)
  end.

(** The text of an error of the operating system. *)
Class IoText := io_text : IoError -> str.

Definition ToolError_to_string `{IoText} (e : ToolError) : str :=
  match e with
  | WorkspaceNotFound p => $"workspace does not exist: " ++ p
  | PathOutsideWorkspace p => $"path is outside the workspace: " ++ p
  | NotDirectory p => $"path is not a directory: " ++ p
  | NotFile p => $"path is not a regular file: " ++ p
  | FileTooLarge p => $"file is too large to read: " ++ p
  | InvalidArguments m => $"tool arguments are invalid: " ++ m
  | PermissionDenied => $"permission was not granted"
  | PatchConflict p =>
    $"patch conflict on " ++ p
    ++ $": file contents changed; re-read the file and retry with updated old_text"
  | InvalidCommand m => $"command arguments are invalid: " ++ m
  | CommandPolicyDenied code reason =>
    $"command blocked by policy (" ++ code ++ $"): " ++ reason
  | ToolCancelled => $"command was cancelled"
  | ToolIo e => io_text e
  | ToolJson m => m
  end.

Definition ToolError_code (e : ToolError) : option str :=
  match e with
  | PatchConflict _ => Some $"patch_conflict"
  | PermissionDenied => Some $"permission_denied"
  | ToolCancelled => Some $"cancelled"
  | InvalidArguments _ => Some $"invalid_arguments"
  | InvalidCommand _ => Some $"invalid_command"
  | CommandPolicyDenied _ _ => Some $"command_policy_denied"
  | _ => None
  end.

Definition ToolError_path (e : ToolError) : option str :=
  match e with
  | PatchConflict p | NotDirectory p | NotFile p | FileTooLarge p
  | PathOutsideWorkspace p | WorkspaceNotFound p => Some p
  | _ => None
  end.

(** The fields in the order in which the source inserts them. *)
Definition tool_result_value `{IoText} (e : ToolError) : Value :=
  JObject (
    [($"error", JString (ToolError_to_string e))]
    ++ match ToolError_code e with Some c => [($"code", JString c)] | None => [] end
    ++ match ToolError_path e with Some p => [($"path", JString p)] | None => [] end
    ++ match e with
       | CommandPolicyDenied code reason =>
         [($"policy_code", JString code); ($"reason", JString reason);
          ($"hint", JString $"This command is hard-denied by Codex policy or the workspace denylist. Choose a safer command.")]
       | PatchConflict _ =>
         [($"hint", JString $"Re-read the file with read_file, then retry apply_patch using the current contents as old_text.")]
       | _ => []
       end).

Record ToolExecution := mkToolExecution { te_output : Value; te_summary : str }.

(** ** JSON *)

(** [Value::get] of an object, [as_str], [as_bool]; [json!] of optional values. *)
Definition json_get (key : str) (v : Value) : option Value :=
  match v with
  | JObject fields => snd <$> List.find (fun kv => fst kv =s key) fields
  | _ => None
  end.
Definition as_str (v : Value) : option str := match v with JString s => Some s | _ => None end.
Definition as_bool (v : Value) : option bool := match v with JBool b => Some b | _ => None end.
Definition json_opt_str (o : option str) : Value :=
  match o with Some s => JString s | None => JNull end.
Definition json_N (n : N) : Value := JInt (Z.of_N n).

(** ** Lemmas *)

Lemma parse_arguments_ok {A} (from_value : Value -> result A str) v a :
  parse_arguments from_value v = Ok a <-> from_value v = Ok a.
Proof. unfold parse_arguments. destruct (from_value v); naive_solver. Qed.

Lemma bounded_range value default maximum :
  (1 <= maximum)%N -> (1 <= bounded value default maximum <= maximum)%N.
Proof. apply clamp_bounds. Qed.
