(* ===== verification/ToolText.v ===== *)
(** * Text that the tools read and write (crates/xcoding-tools/src/lib.rs)

    Plans, the output of git, skill files, the classes of paths, the redaction of
    configuration files and logs, the limits on output, and the globs of the search. *)

From S2P Require Import Prelude.
From S2P Require Import Protocol.
From S2P Require Import Text.
From S2P Require Import ToolArgs.
From S2P Require Import Transcript.

Definition NUL : char := 0%N.
Definition RS : char := 30%N.

(** [str::to_lowercase], which maps characters by the tables of Unicode. *)
Class UnicodeCase := to_lowercase : str -> str.

(** ** Plans *)

Definition normalize_plan_status (status : option str) : PlanStepStatus :=
  let s := or_else (trim <$> status) [] in
  if one_of s [$"in_progress"; $"in-progress"; $"current"; $"running"] then StepInProgress
  else if one_of s [$"done"; $"completed"; $"complete"] then StepDone
  else StepPending.

Definition truncate_plan_description (description : str) : str :=
  if length description <=? MAX_PLAN_STEP_DESCRIPTION_CHARS then description
  else take MAX_PLAN_STEP_DESCRIPTION_CHARS description.

(** The loop over the steps; [index] counts from 0. *)
Fixpoint plan_steps (index : nat) (steps : list UpdatePlanStepArgs)
  : result (list PlanStep) ToolError :=
  match steps with
  | [] => Ok []
  | step :: r =>
    let description := trim (up_description step) in
    if is_empty description then
      Err (InvalidArguments ($"step " ++ show_nat (index + 1)
                             ++ $" description must not be empty"))
    else
      let? rest := plan_steps (S index) r in
      Ok (mkPlanStep ($"step_" ++ show_nat (index + 1)) (truncate_plan_description description)
            (normalize_plan_status (up_status step)) :: rest)
  end.

Definition PlanStepStatus_as_str (s : PlanStepStatus) : str :=
  match s with
  | StepPending => $"pending"
  | StepInProgress => $"in_progress"
  | StepDone => $"done"
  end.

Definition is_done (s : PlanStep) : bool :=
  match ps_status s with StepDone => true | _ => false end.

Definition plan_step_value (s : PlanStep) : Value :=
  JObject [($"id", JString (ps_id s)); ($"description", JString (ps_description s));
           ($"status", JString (PlanStepStatus_as_str (ps_status s)))].

Definition plan_of (args : UpdatePlanArgs) : result (list PlanStep) ToolError :=
  if is_empty (up_steps args) then
    Err (InvalidArguments $"steps must contain at least one step")
  else if MAX_PLAN_STEPS <? length (up_steps args) then
    Err (InvalidArguments ($"steps must contain at most " ++ show_nat MAX_PLAN_STEPS ++ $" steps"))
  else plan_steps 0 (up_steps args).

Definition update_plan (args : UpdatePlanArgs) : result ToolExecution ToolError :=
  let? steps := plan_of args in
  let done := length (List.filter is_done steps) in
  Ok (mkToolExecution (JObject [($"steps", JArray (map plan_step_value steps))])
        ($"Updated plan (" ++ show_nat done ++ $"/" ++ show_nat (length steps) ++ $" done)")).

(** ** Output of git *)

(** One line of [git status]; [None] where the slice of the line panics, [Some
    None] where the line yields no entry. *)
Definition parse_git_status_line (line : str) : option (option Value) :=
  if starts_with $"## " line then
    let branch := trim_start_matches_str $"## " line in
    Some (Some (JObject [($"kind", JString $"branch"); ($"branch", JString branch)]))
  else if byte_len line <? 3 then Some None
  else
    let index_status := or_else (head line) 32%N in
    let worktree_status := or_else (line !! 1) 32%N in
    match byte_drop 3 line with
    | None => None
    | Some path =>
      Some (Some (JObject [($"kind", JString $"entry");
        ($"index_status", JString [index_status]);
        ($"worktree_status", JString [worktree_status]);
        ($"path", JString path)]))
    end.

Fixpoint parse_git_status (ls : list str) : option (list Value) :=
  match ls with
  | [] => Some []
  | line :: r =>
    match parse_git_status_line line, parse_git_status r with
    | Some e, Some es => Some (match e with Some v => v :: es | None => es end)
    | _, _ => None
    end
  end.
Definition parse_git_status_lines (stdout : str) : option (list Value) :=
  parse_git_status (lines stdout).

Definition is_record_edge (c : char) : bool := (c =? NUL)%N || (c =? LF)%N || (c =? CR)%N.

Definition commit_value (hash short_hash author email date subject body : str) : Value :=
  JObject [($"hash", JString hash); ($"short_hash", JString short_hash);
           ($"author", JString author); ($"email", JString email); ($"date", JString date);
           ($"subject", JString subject); ($"body", JString body)].

Definition parse_git_log_record (record0 : str) : option Value :=
  let record := trim_matches is_record_edge record0 in
  if is_empty record then None
  else match split_on (N.eqb NUL) record with
       | hash :: short_hash :: author :: email :: date :: subject :: rest =>
         let body := if is_empty rest then [] else trim (join [NUL] rest) in
         Some (commit_value hash short_hash author email date subject body)
       | _ => None
       end.
Definition parse_git_log_records (stdout : str) : list Value :=
  omap parse_git_log_record (split_on (N.eqb RS) stdout).

(** [commit.get(key).and_then(Value::as_str).unwrap_or("")] *)
Definition str_field (key : str) (v : Value) : str :=
  or_else (json_get key v ≫= as_str) [].

Definition format_git_log_raw (commits : list Value) : str :=
  join [LF] (map (fun commit =>
    str_field $"short_hash" commit ++ $" " ++ str_field $"subject" commit ++ $" ("
    ++ str_field $"author" commit ++ $", " ++ str_field $"date" commit ++ $")") commits).

(** [str::splitn(n, c)] *)
Fixpoint splitn (n : nat) (c : char) (s : str) : list str :=
  match n with
  | 0 => []
  | 1 => [s]
  | S k => match split_once c s with
           | Some (a, b) => a :: splitn k c b
           | None => [s]
           end
  end.

Definition is_newline (c : char) : bool := (c =? LF)%N || (c =? CR)%N.

(** The fields of the commit, when there are any, and the patch. *)
Definition parse_git_show_output (stdout : str) : list (str * Value) * str :=
  match splitn 8 NUL stdout with
  | hash :: short_hash :: author :: email :: date :: subject :: body :: rest =>
    ([($"hash", JString hash); ($"short_hash", JString short_hash);
      ($"author", JString author); ($"email", JString email); ($"date", JString date);
      ($"subject", JString subject);
      ($"body", JString (trim_end_matches is_newline body))],
     match rest with patch :: _ => trim_start_matches is_newline patch | [] => [] end)
  | _ => ([], stdout)
  end.

Definition validate_git_name (kind value : str) : result unit ToolError :=
  if is_empty value then Err (InvalidArguments (kind ++ $" must not be empty"))
  else if starts_with $"-" value then
    Err (InvalidArguments (kind ++ $" must not start with '-'"))
  else if existsb (fun ch => is_whitespace ch || (ch =? NUL)%N) value then
    Err (InvalidArguments (kind ++ $" must not contain whitespace"))
  else if contains_char COLON value || contains $".." value then
    Err (InvalidArguments (kind ++ $" must not contain ':' or '..'"))
  else Ok tt.

(** ** Skills *)

Definition is_skill_char (ch : char) : bool :=
  is_ascii_alphanumeric ch || contains_char ch $"-_.".

Definition is_valid_skill_name (name : str) : bool :=
  if is_empty name || (64 <? byte_len name) then false
  else match name with
       | [] => false
       | first :: _ => if negb (is_ascii_alphanumeric first) then false
                       else forallb is_skill_char name
       end.

Record ParsedSkillFile := mkParsedSkill { sk_description : str; sk_body : str }.

Definition skill_fallback_description (body : str) : str :=
  let trimmed := map trim (lines body) in
  or_else
    (List.find (fun line => negb (is_empty line) && negb (starts_with $"#" line)) trimmed
     <||> ((fun line => trim (trim_start_matches (N.eqb HASH) line)) <$>
           List.find (fun line => negb (is_empty line)) trimmed))
    $"Workspace skill".

(** The last non-empty [description] of the front matter. *)
Definition frontmatter_description (frontmatter : str) : option str :=
  foldl (fun description line0 =>
    let line := trim line0 in
    if is_empty line || starts_with $"#" line then description
    else match split_once COLON line with
         | Some (key, value0) =>
           let value := trim_matches (N.eqb SQUOTE) (trim_matches (N.eqb DQUOTE) (trim value0)) in
           if (trim key =s $"description") && negb (is_empty value)
           then Some value else description
         | None => description
         end) None (lines frontmatter).

Definition FRONTMATTER_END : str := [LF] ++ $"---" ++ [LF].

Definition parse_skill_file (raw : str) : ParsedSkillFile :=
  let normalized := replace_str [CR; LF] [LF] raw in
  let whole := (skill_fallback_description normalized, normalized) in
  let (description, body) :=
    match strip_prefix ($"---" ++ [LF]) normalized with
    | Some rest =>
      match find_str FRONTMATTER_END rest with
      | Some end_ =>
        let body := drop (end_ + length FRONTMATTER_END) rest in
        (or_else (frontmatter_description (take end_ rest)) (skill_fallback_description body),
         body)
      | None => whole
      end
    | None => whole
    end in
  mkParsedSkill
    (if MAX_SKILL_DESCRIPTION_CHARS <? length description
     then take MAX_SKILL_DESCRIPTION_CHARS description else description)
    body.

(** ** Classes of paths *)

Definition is_slash (c : char) : bool := (c =? SLASH)%N || (c =? BACKSLASH)%N.

(** [windows(2).any(|w| w[0] == a && w[1] == b)] *)
Fixpoint adjacent (a b : str) (parts : list str) : bool :=
  match parts with
  | x :: ((y :: _) as r) => ((x =s a) && (y =s b)) || adjacent a b r
  | _ => false
  end.

Definition is_high_risk_path (path : str) : bool :=
  let parts := map to_ascii_lowercase (split_on is_slash path) in
  let file_name := List.last parts [] in
  existsb (fun part => (part =s $".git") || (part =s $".xcoding")) parts
  || adjacent $".git" $"hooks" parts
  || adjacent $".github" $"workflows" parts
  || existsb (fun part => (part =s $".gitlab") || (part =s $".circleci")) parts
  || one_of file_name [$".gitlab-ci.yml"; $".gitlab-ci.yaml"; $".circleci.yml"].

(** Backslashes become slashes, ASCII letters lower case. *)
Definition normalized_path (path : str) : str :=
  to_ascii_lowercase (replace_char BACKSLASH [SLASH] path).
Definition normalized_name (path : str) : str :=
  last_part (N.eqb SLASH) (normalized_path path).

Definition is_high_sensitivity_file (path : str) : bool :=
  let normalized := normalized_path path in
  let name := normalized_name path in
  one_of name [$"credentials"; $"credentials.json"; $"id_rsa"; $"id_ed25519"]
  || existsb (fun suffix => ends_with suffix name)
       [$".pem"; $".key"; $".p12"; $".pfx"; $".jks"]
  || contains $"/.aws/credentials" normalized
  || contains $"/.ssh/" normalized.

Definition is_config_file (path : str) : bool :=
  let name := normalized_name path in
  (name =s $".env") || starts_with $".env." name
  || existsb (fun suffix => ends_with suffix name)
       [$".json"; $".yaml"; $".yml"; $".toml"; $".ini"; $".conf"].

Definition is_background_log_path (path : str) : bool :=
  starts_with $".xcoding/logs/" (normalized_path path).

(** ** Redaction *)

Definition CONFIG_SECRET_FIELDS : list str :=
  [$"api_key"; $"apikey"; $"access_token"; $"client_secret"; $"secret_key"; $"password";
   $"authorization"].

Definition is_separator (c : char) : bool := contains_char c $"=:".
Definition is_value_end (c : char) : bool := contains_char c $",;#".
Definition REDACTED : str := $"[REDACTED]".

(** Where the value that starts at the head of [value] ends. *)
Definition secret_value_end (value : str) : nat :=
  match value with
  | [] => 0
  | q :: r =>
    if (q =? DQUOTE)%N || (q =? SQUOTE)%N
    then match find_char (N.eqb q) r with
         | Some offset => 1 + offset + 1
         | None => length value
         end
    else match find_char is_value_end value with
         | Some offset => offset
         | None => length value
         end
  end.

Definition redact_config_line (line : str) : str :=
  let lower := to_ascii_lowercase line in
  match List.find (fun field => contains field lower) CONFIG_SECRET_FIELDS with
  | None => line
  | Some field =>
    match find_str field lower with
    | None => line
    | Some field_start =>
      match find_char is_separator (drop (field_start + length field) line) with
      | None => line
      | Some separator_offset =>
        let separator := field_start + length field + separator_offset in
        match find_char (fun c => negb (is_whitespace c)) (drop (separator + 1) line) with
        | None => line
        | Some offset =>
          let value_start := separator + 1 + offset in
          let value_end := value_start + secret_value_end (drop value_start line) in
          take value_start line ++ REDACTED ++ drop value_end line
        end
      end
    end
  end.

Definition redact_config_text (text : str) : str :=
  join [LF] (map redact_config_line (lines text)).

Definition is_token_edge (c : char) : bool :=
  negb (is_ascii_alphanumeric c) && negb (contains_char c $"._-").

Definition redact_log_part (part : str) : str :=
  let trimmed := trim_matches is_token_edge part in
  let dot_count := length (List.filter (N.eqb 46%N) (as_bytes trimmed)) in
  if (starts_with $"sk-" trimmed && (20 <=? byte_len trimmed))
     || (starts_with $"eyJ" trimmed && (dot_count =? 2) && (30 <=? byte_len trimmed))
  then replace_str trimmed REDACTED part
  else part.

Definition REDACTED_KEY : str := $"[REDACTED PRIVATE KEY]".
Definition begins_private_key (lower : str) : bool :=
  contains $"-----begin " lower && contains $"private key-----" lower.
Definition ends_private_key (lower : str) : bool :=
  contains $"-----end " lower && contains $"private key-----" lower.

Definition redact_log_line (line : str) : str :=
  join $" " (map redact_log_part (split_whitespace (redact_config_line line))).

(** The closure of [map] carries [in_private_key] from line to line. *)
Fixpoint redact_log_lines (in_private_key : bool) (ls : list str) : list str :=
  match ls with
  | [] => []
  | line :: r =>
    let lower := to_ascii_lowercase line in
    if begins_private_key lower then REDACTED_KEY :: redact_log_lines true r
    else if in_private_key then REDACTED_KEY :: redact_log_lines (negb (ends_private_key lower)) r
    else redact_log_line line :: redact_log_lines false r
  end.

Definition redact_log_text (text : str) : str :=
  join [LF] (redact_log_lines false (lines text)).

(** ** Limits on output *)

Definition MAX_OUTPUT_BYTES : N := 32 * 1024.

Definition truncate_output (value : str) : str :=
  if (blen value <=? MAX_OUTPUT_BYTES)%N then value
  else byte_prefix MAX_OUTPUT_BYTES value ++ [LF] ++ $"[output truncated]".

(** The loop of [cap_json_items]; [size] is the length of an item's JSON text. *)
Fixpoint cap_items {A} (size : A -> N) (used : N) (none_kept : bool) (items : list A)
  : list A * bool :=
  match items with
  | [] => ([], false)
  | item :: r =>
    if negb none_kept && (MAX_TOOL_JSON_BYTES <? used + size item)%N then ([], true)
    else let (kept, dropped) := cap_items size (used + size item)%N false r in
         (item :: kept, dropped)
  end.

Definition cap_json_items `{JsonText} {A} (to_value : A -> Value) (items : list A) : list A * bool :=
  cap_items (fun item => blen (json_text (to_value item))) 0 true items.

(** ** Search *)

Definition is_ignored_directory (name : str) : bool :=
  one_of name [$".git"; $".xcoding"; $"node_modules"; $"target"; $"dist"; $"build"; $".next";
               $"coverage"; $"__pycache__"; $".venv"; $"venv"; $".cargo"].

Definition STAR : char := 42%N.
Definition QUESTION : char := 63%N.

(** The inner function [matches]; the loop over the split points is [existsb]. *)
Fixpoint glob_match (pattern text : str) : bool :=
  match pattern with
  | [] => is_empty text
  | c :: p =>
    if (c =? STAR)%N then
      existsb (fun index => glob_match p (drop index text)) (seq 0 (S (length text)))
    else match text with
         | [] => false
         | t :: ts => if (c =? QUESTION)%N || (c =? t)%N then glob_match p ts else false
         end
  end.

Definition SOURCE_EXTS : list str :=
  [$".rs"; $".ts"; $".tsx"; $".js"; $".jsx"; $".mjs"; $".cjs"; $".vue"; $".go"; $".py"; $".java";
   $".kt"; $".cs"; $".cpp"; $".c"; $".h"; $".hpp"; $".md"; $".toml"; $".json"].

Section Lowercase.
Context `{UnicodeCase}.

Definition is_low_value_search_file (relative_path : str) : bool :=
  let lower := to_lowercase (replace_char BACKSLASH [SLASH] relative_path) in
  existsb (fun suffix => ends_with suffix lower)
    [$".min.js"; $".map"; $".lock"; $"package-lock.json"; $"pnpm-lock.yaml"; $"yarn.lock";
     $"cargo.lock"].

Definition path_rank_score (relative_path : str) : Z :=
  let lower := to_lowercase (replace_char BACKSLASH [SLASH] relative_path) in
  ((if starts_with $"src/" lower || contains $"/src/" lower then 30 else 0)
   + (if starts_with $"crates/" lower || starts_with $"apps/" lower
         || starts_with $"packages/" lower || starts_with $"lib/" lower then 25 else 0)
   + (if starts_with $"tests/" lower || contains $"/tests/" lower then 10 else 0)
   + (if existsb (fun ext => ends_with ext lower) SOURCE_EXTS then 10 else 0)
   - (if starts_with $"dist/" lower || contains $"/dist/" lower then 40 else 0)
   - (if ends_with $".min.js" lower || ends_with $".map" lower then 50 else 0))%Z.

Definition path_matches_glob (relative_path pattern0 : str) (case_insensitive : bool) : bool :=
  let path := replace_char BACKSLASH [SLASH] relative_path in
  let pattern := replace_char BACKSLASH [SLASH] pattern0 in
  let path := if case_insensitive then to_lowercase path else path in
  let pattern := if case_insensitive then to_lowercase pattern else pattern in
  if contains_char SLASH pattern then glob_match pattern path
  else glob_match pattern (last_part (N.eqb SLASH) path).
End Lowercase.
