(* ===== verification/Tools.v ===== *)
(** * Tools on the workspace (crates/xcoding-tools/src/lib.rs)

    [ToolRegistry] and the tools that read and change files, call git or load a skill.
    An operation has type [T A]: it changes the [World] also when it fails.  The
    program [git] is the member [run_git] of the class [Processes]. *)

From S2P Require Import Prelude.
From S2P Require Import Protocol.
From S2P Require Import Policy.
From S2P Require Import Sql.
From S2P Require Import Transcript.
From S2P Require Import Text.
From S2P Require Import Files.
From S2P Require Import ToolArgs.
From S2P Require Import ToolText.

(** ** The operations *)

Definition T (A : Type) : Type := World -> result A ToolError * World.
Definition tret {A} (a : A) : T A := fun w => (Ok a, w).
Definition terr {A} (e : ToolError) : T A := fun w => (Err e, w).
Definition tbind {A B} (m : T A) (f : A -> T B) : T B := fun w =>
  match m w with
  | (Ok a, w') => f a w'
  | (Err e, w') => (Err e, w')
  end.
Definition of_result {A} (r : result A ToolError) : T A := fun w => (r, w).
Definition of_io {A} (m : IO A) : T A := fun w =>
  match m w with
  | (Ok a, w') => (Ok a, w')
  | (Err e, w') => (Err (ToolIo e), w')
  end.
Notation "'let*' x := m 'in' k" := (tbind m (fun x => k))
  (at level 10, x pattern, m at level 100, k at level 200) : xc_scope.
Notation "m ;;* k" := (tbind m (fun _ => k)) (at level 100, right associativity) : xc_scope.

(** The error of an operation is dropped: [let _ = ...], [.ok()]. *)
Definition try_ok {A} (m : T A) : T (option A) := fun w =>
  match m w with
  | (Ok a, w') => (Ok (Some a), w')
  | (Err _, w') => (Ok None, w')
  end.

(** ** Writing a file *)

Definition temporary_sibling (p : apath) : apath :=
  match file_name_of p with
  | Some name => or_else (parent_of p) [] ++ [$"." ++ name ++ $".xcoding.tmp"]
  | None => p
  end.

Section Writing.
Context `{Disk}.

(** The text goes to a temporary file, which then takes the name of the file. *)
Definition replace_file (path : apath) (text : str) : T unit :=
  let temporary := temporary_sibling path in
  let* file := of_io (file_create temporary) in
  of_io (write_all file text) ;;*
  of_io sync_data ;;*
  let* renamed := (fun w => match of_io (rename temporary path) w with
                            | (Ok _, w') => (Ok None, w')
                            | (Err e, w') => (Ok (Some e), w')
                            end) in
  match renamed with
  | None => tret tt
  | Some e => try_ok (of_io (remove_file temporary)) ;;* terr e
  end.

Definition write_text_utf8 (path : apath) (text : str) : T unit :=
  match parent_of path with
  | Some up => of_io (create_dir_all up)
  | None => tret tt
  end ;;*
  replace_file path text.

End Writing.

(** ** The registry *)

Record ToolRegistry := mkToolRegistry {
  tr_workspace_root : apath;
  tr_command_allowlist : list str;
  tr_command_denylist : list str;
  tr_skill_enabled : list (list N * bool);
}.

Definition checked_relative_path (requested_path : str) : result str ToolError :=
  let requested := if is_empty (trim requested_path) then $"." else requested_path in
  if is_absolute requested
     || existsb (fun c => match c with ParentDir | RootDir => true | _ => false end)
          (components requested)
  then Err (PathOutsideWorkspace requested)
  else Ok requested.

(** [Path::to_string_lossy] *)
Definition render_path (absolute : bool) (p : apath) : str :=
  (if absolute then [SLASH] else []) ++ join [SLASH] p.

Definition relative_path (root : apath) (path : apath) : str :=
  let rendered := replace_char BACKSLASH [SLASH]
    (match strip_path root path with
     | Some relative => render_path false relative
     | None => render_path true path
     end) in
  if is_empty rendered then $"." else rendered.

(** [while !ancestor.exists()]: the path itself or its nearest existing parent. *)
Fixpoint nearest_existing (fs : FileSystem) (fuel : nat) (p : apath) : option apath :=
  if path_exists fs p then Some p
  else match fuel, parent_of p with
       | S f, Some up => nearest_existing fs f up
       | _, _ => None
       end.

Section Registry.
Context `{Disk}.
Variable reg : ToolRegistry.
Local Abbreviation root := (tr_workspace_root reg).

Definition resolve (requested_path0 : str) : T apath :=
  let* requested_path := of_result (checked_relative_path requested_path0) in
  let* resolved := of_io (canonicalize (join_path root requested_path)) in
  if negb (path_starts_with resolved root) then terr (PathOutsideWorkspace requested_path)
  else tret resolved.

Definition resolve_writable (requested_path : str) : T apath :=
  let* requested := of_result (checked_relative_path requested_path) in
  let target := join_path root requested in
  match parent_of target with
  | None => terr (PathOutsideWorkspace requested_path)
  | Some up =>
    let* found := of_io (look (fun fs => nearest_existing fs (length up) up)) in
    match found with
    | None => terr (PathOutsideWorkspace requested_path)
    | Some ancestor =>
      let* canonical_ancestor := of_io (canonicalize ancestor) in
      if negb (path_starts_with canonical_ancestor root)
      then terr (PathOutsideWorkspace requested_path)
      else
        let* exists_ := of_io (look (fun fs => path_exists fs target)) in
        let* is_link :=
          (if exists_
           then let* node := of_io (symlink_metadata target) in
                tret (match node with Symlink _ => true | _ => false end)
           else tret false) in
        if is_link then terr (PathOutsideWorkspace requested_path) else tret target
    end
  end.

(** The program of [run_command]. *)
Definition resolve_executable `{IoText} (executable : str) : T Program :=
  if negb (contains_char SLASH executable) && negb (contains_char BACKSLASH executable)
  then tret (ByName executable)
  else
    let* requested := of_result (checked_relative_path executable) in
    let* canonical := (fun w =>
      match of_io (canonicalize (join_path root requested)) w with
      | (Ok p, w') => (Ok p, w')
      | (Err (ToolIo e), w') =>
        (Err (InvalidCommand ($"executable `" ++ executable ++ $"` not found: " ++ io_text e)), w')
      | (Err e, w') => (Err e, w')
      end) in
    if negb (path_starts_with canonical root) then terr (PathOutsideWorkspace executable)
    else tret (AtPath canonical).

(** ** Patches *)

(** The text of the file, empty when it does not exist. *)
Definition current_text (path : apath) : T (bool * str) :=
  let* file_existed := of_io (look (fun fs => path_exists fs path)) in
  if file_existed
  then let* text := of_io (read_to_string path) in tret (true, text)
  else tret (false, []).

Definition patch_preview_args (args : ApplyPatchArgs) : T PatchPreview :=
  let* path := resolve_writable (ap_path args) in
  let* (file_existed, current) := current_text path in
  if negb (current =s ap_old_text args) then terr (PatchConflict (relative_path root path))
  else tret (mkPatchPreview (relative_path root path) file_existed
               (ap_old_text args) (ap_new_text args)).

Definition patch_preview `{Serde} (tool_call : ToolCall) : T PatchPreview :=
  if decide (tc_name tool_call = ApplyPatch) then
    let* args := of_result (parse_arguments from_apply_patch (tc_arguments tool_call)) in
    patch_preview_args args
  else terr (InvalidArguments $"patch preview requires apply_patch").

Definition apply_patch (args : ApplyPatchArgs) : T ToolExecution :=
  let* path := resolve_writable (ap_path args) in
  let* (file_existed, current) := current_text path in
  if negb (current =s ap_old_text args) then terr (PatchConflict (relative_path root path))
  else
    write_text_utf8 path (ap_new_text args) ;;*
    let path := relative_path root path in
    tret (mkToolExecution (JObject [($"path", JString path); ($"changed", JBool true)])
            ($"Applied patch to " ++ path)).

Definition rollback_patch (path0 expected_text : str) (original_text : option str)
  : T ToolExecution :=
  let* path := resolve_writable path0 in
  let* (file_existed, current) := current_text path in
  if negb (current =s expected_text) then terr (PatchConflict (relative_path root path))
  else
    match original_text with
    | Some original => write_text_utf8 path original
    | None =>
      let* exists_ := of_io (look (fun fs => path_exists fs path)) in
      if exists_ then of_io (remove_file path) else tret tt
    end ;;*
    let relative := relative_path root path in
    tret (mkToolExecution
            (JObject [($"path", JString relative); ($"changed", JBool true);
                      ($"rolled_back", JBool true)])
            ($"Restored " ++ relative)).

(** ** Reading *)

Record DirectoryEntry := mkDirectoryEntry { de_name : str; de_kind : str }.

Definition directory_entry (e : str * Node) : option DirectoryEntry :=
  match snd e with
  | Symlink _ => None
  | Directory => Some (mkDirectoryEntry (fst e) $"dir")
  | File _ => Some (mkDirectoryEntry (fst e) $"file")
  | Special => Some (mkDirectoryEntry (fst e) $"other")
  end.

Definition str_leb (a b : str) : bool := negb (str_ltb b a).
Definition entry_le (a b : DirectoryEntry) : bool := str_leb (de_name a) (de_name b).

(** The sorted entries of a directory, at most [limit], and whether some are left out. *)
Definition listing (limit : N) (read : list (str * Node)) : list DirectoryEntry * bool :=
  let entries := order_by entry_le (omap directory_entry read) in
  (take (N.to_nat limit) entries, (limit <? N.of_nat (length entries))%N).

Definition entry_value (e : DirectoryEntry) : Value :=
  JObject [($"name", JString (de_name e)); ($"kind", JString (de_kind e))].

Definition list_dir (args : ListDirArgs) : T ToolExecution :=
  let* path := resolve (ld_path args) in
  let* is_dir := of_io (look (fun fs => path_is_dir fs path)) in
  if negb is_dir then terr (NotDirectory (relative_path root path))
  else
    let limit := bounded (ld_max_entries args) DEFAULT_LIST_ENTRIES MAX_LIST_ENTRIES in
    let* read := of_io (read_dir path) in
    let (entries, truncated) := listing limit read in
    let path := relative_path root path in
    tret (mkToolExecution
            (JObject [($"path", JString path); ($"entries", JArray (map entry_value entries));
                      ($"truncated", JBool truncated)])
            ($"Listed " ++ path)).

(** The size that [metadata] reports. *)
Definition file_size (fs : FileSystem) (p : apath) : N :=
  match stat fs p with Some (File c) => content_len c | _ => 0%N end.

Definition USIZE_MAX : N := 18446744073709551615.
Definition sat_add (a b : N) : N := N.min (a + b) USIZE_MAX.

(** The requested lines: the first and last number, and the text. *)
Definition line_range (args : ReadFileArgs) (ls : list str) : N * N * str :=
  let start_line := N.max (or_else (rf_start_line args) 1%N) 1 in
  let requested_end := or_else (rf_end_line args) (sat_add start_line (DEFAULT_READ_LINES - 1)) in
  let end_line := N.min (N.min requested_end (sat_add start_line (MAX_READ_LINES - 1)))
                        (N.of_nat (length ls)) in
  (start_line, end_line,
   if (start_line <=? end_line)%N
   then join [LF] (take (N.to_nat (end_line - (start_line - 1)))
                     (drop (N.to_nat (start_line - 1)) ls))
   else []).

(** The text that a read of [relative_path] shows, and whether it is redacted. *)
Definition visible_text (relative content : str) : str * bool :=
  let is_background_log := is_background_log_path relative in
  if is_config_file relative || is_background_log
  then (if is_background_log then redact_log_text content else redact_config_text content, true)
  else (content, false).

Definition redaction_reason (relative : str) : str :=
  if is_background_log_path relative then $"background log; secret values redacted"
  else $"configuration file; secret values redacted".

Definition read_file (args : ReadFileArgs) : T ToolExecution :=
  let* path := resolve (rf_path args) in
  let* is_file := of_io (look (fun fs => path_is_file fs path)) in
  if negb is_file then terr (NotFile (relative_path root path))
  else
    let* size := of_io (look (fun fs => file_size fs path)) in
    if (MAX_READ_BYTES <? size)%N then terr (FileTooLarge (relative_path root path))
    else
      let relative := relative_path root path in
      if is_high_sensitivity_file relative then
        tret (mkToolExecution
          (JObject [($"path", JString relative); ($"content", JString []);
                    ($"start_line", JInt 0); ($"end_line", JInt 0);
                    ($"truncated", JBool false); ($"content_redacted", JBool true);
                    ($"redaction_reason",
                     JString $"sensitive credential file; content withheld")])
          ($"Read metadata for sensitive file " ++ relative ++ $" (" ++ show_N size ++ $" bytes)"))
      else
        let* raw := of_io (read_to_string path) in
        let (content, content_redacted) := visible_text relative raw in
        let ls := lines content in
        let '(start_line, end_line, text) := line_range args ls in
        tret (mkToolExecution
          (JObject ([($"path", JString relative); ($"content", JString text);
                     ($"start_line", json_N start_line); ($"end_line", json_N end_line);
                     ($"truncated", JBool (end_line <? N.of_nat (length ls))%N);
                     ($"content_redacted", JBool content_redacted)]
            ++ if content_redacted
               then [($"redaction_reason", JString (redaction_reason relative))] else []))
          ($"Read " ++ relative ++ $":" ++ show_N start_line ++ $"-" ++ show_N end_line)).

(** ** Skills *)

Definition skill_flag (key : str) : bool := or_else (btree_get key (tr_skill_enabled reg)) true.

Definition skill_content (body : str) : str :=
  if (MAX_SKILL_CONTENT_CHARS <? N.of_nat (length body))%N
  then take (N.to_nat MAX_SKILL_CONTENT_CHARS) body ++ LF :: $"...[truncated skill content]..."
  else body.

(** [user_skill_root] is the skill directory of the user. *)
Definition load_skill (user_skill_root : apath) (args : LoadSkillArgs) : T ToolExecution :=
  let name := trim (ls_name args) in
  if negb (is_valid_skill_name name) then
    terr (InvalidArguments
      $"skill name must be 1-64 chars of [A-Za-z0-9._-] starting with alphanumeric")
  else
    let workspace_relative := $".xcoding/skills/" ++ name ++ $"/SKILL.md" in
    let* in_workspace := of_io (look (fun fs =>
      path_is_file fs (join_path root workspace_relative)))  in
    let* (path, display_path, source) :=
      (if in_workspace && skill_flag ($"workspace:" ++ name) then
         let* path := resolve workspace_relative in
         tret (path, workspace_relative, $"workspace")
       else
         let user_path := user_skill_root ++ [name; $"SKILL.md"] in
         let* is_file := of_io (look (fun fs => path_is_file fs user_path)) in
         if negb is_file || negb (skill_flag ($"user:" ++ name))
         then terr (NotFile workspace_relative)
         else tret (user_path, $"~/.xcoding/skills/" ++ name ++ $"/SKILL.md", $"user")) in
    let* is_file := of_io (look (fun fs => path_is_file fs path)) in
    if negb is_file then terr (NotFile display_path)
    else
      let* size := of_io (look (fun fs => file_size fs path)) in
      if (MAX_READ_BYTES <? size)%N then terr (FileTooLarge (relative_path root path))
      else
        let* raw := of_io (read_to_string path) in
        let parsed := parse_skill_file raw in
        tret (mkToolExecution
          (JObject [($"name", JString name); ($"path", JString display_path);
                    ($"source", JString source); ($"description", JString (sk_description parsed));
                    ($"content", JString (skill_content (sk_body parsed)))])
          ($"Loaded skill " ++ name)).

(** [ToolRegistry::new_with_plugin_config] *)
Definition load_list (parse : str -> list str) (workspace_root : apath) (relative : str)
  : T (list str) :=
  let* text := try_ok (of_io (read_to_string (join_path workspace_root relative))) in
  tret (match text with Some t => parse t | None => [] end).
End Registry.

Definition new_with_plugin_config `{Disk} (workspace_root : apath)
    (skill_enabled : list (list N * bool)) : T ToolRegistry :=
  let* is_dir := of_io (look (fun fs => path_is_dir fs workspace_root)) in
  if negb is_dir then terr (WorkspaceNotFound (render_path true workspace_root))
  else
    let* root := of_io (canonicalize workspace_root) in
    let* allowlist := load_list parse_command_allowlist root $".xcoding/command-allowlist" in
    let* denylist := load_list parse_command_denylist root $".xcoding/command-denylist" in
    tret (mkToolRegistry root allowlist denylist skill_enabled).
