(* ===== verification/PatchFacts.v ===== *)
(** * Patches: confined, atomic, reversible

    A patch and its rollback change files of the workspace only, unless the name of the
    temporary file is a symbolic link; a file holds its old or its new text after any
    failure; and a rollback restores the tree. *)

From S2P Require Import Prelude.
From S2P Require Import Protocol.
From S2P Require Import Text.
From S2P Require Import Files.
From S2P Require Import FilesFacts.
From S2P Require Import ToolArgs.
From S2P Require Import Tools.

Definition tmp_name (n : str) : str := $"." ++ n ++ $".xcoding.tmp".

Lemma temporary_sibling_snoc up n : temporary_sibling (up ++ [n]) = up ++ [tmp_name n].
Proof. unfold temporary_sibling, file_name_of. by rewrite last_snoc, parent_of_snoc. Qed.

Lemma tmp_name_other n : tmp_name n <> n.
Proof.
  intros E. apply (f_equal length) in E. unfold tmp_name in E. rewrite !length_app in E.
  change (length $".") with 1 in E. lia.
Qed.

Lemma snoc_ne {A} (d : list A) a b : a <> b -> d ++ [a] <> d ++ [b].
Proof. intros Hab E. apply app_inj_tail in E as [_ E]. done. Qed.

Lemma snoc_cases {A} (l : list A) : l = [] \/ exists up n, l = up ++ [n].
Proof. destruct l as [|n l _] using rev_ind; eauto. Qed.

(** A query leaves the tree and the processes alone. *)
Lemma query_world `{Disk} {A} (f : FileSystem -> result A IoError) w :
  w_fs (snd (query f w)) = w_fs w /\ w_spawned (snd (query f w)) = w_spawned w.
Proof.
  unfold query, attempt. destruct (fault _); [done|]. by destruct (f (w_fs w)).
Qed.

Lemma query_ok `{Disk} {A} (f : FileSystem -> result A IoError) w a w' :
  query f w = (Ok a, w') -> f (w_fs w) = Ok a /\ w_fs w' = w_fs w /\ w_spawned w' = w_spawned w.
Proof.
  unfold query, attempt. destruct (fault _); [done|].
  destruct (f (w_fs w)); simpl; [|done]. intros [= <- <-]. done.
Qed.

(** Inversion of a sequence that succeeds. *)
Lemma tbind_ok {A B} (m : T A) (f : A -> T B) w b w' :
  tbind m f w = (Ok b, w') -> exists a w1, m w = (Ok a, w1) /\ f a w1 = (Ok b, w').
Proof. unfold tbind. destruct (m w) as [[a|e] w1]; [eauto|done]. Qed.

Lemma of_io_ok {A} (m : IO A) w a w' : of_io m w = (Ok a, w') <-> m w = (Ok a, w').
Proof. unfold of_io. destruct (m w) as [[]]; naive_solver. Qed.

Lemma look_ok {A} (f : FileSystem -> A) w a w' :
  of_io (look f) w = (Ok a, w') -> a = f (w_fs w) /\ w' = w.
Proof. rewrite of_io_ok. unfold look. by intros [= <- <-]. Qed.

Lemma of_result_ok {A} (r : result A ToolError) w a w' :
  of_result r w = (Ok a, w') -> r = Ok a /\ w' = w.
Proof. unfold of_result. by intros [= <- <-]. Qed.

(** Runs backwards through a sequence that succeeded. *)
Ltac run_back :=
  repeat match goal with
  | Hx : tbind _ _ _ = (Ok _, _) |- _ => apply tbind_ok in Hx as (? & ? & ? & Hx)
  | Hx : of_io (look _) _ = (Ok _, _) |- _ => apply look_ok in Hx as [? ?]; subst
  | Hx : of_io (query _) _ = (Ok _, _) |- _ => apply of_io_ok, query_ok in Hx as (? & ? & ?)
  | Hx : of_result _ _ = (Ok _, _) |- _ => apply of_result_ok in Hx as [? ?]; subst
  | Hx : terr _ _ = (Ok _, _) |- _ => discriminate Hx
  | Hx : tret _ _ = (Ok _, _) |- _ => unfold tret in Hx; injection Hx as <- <-
  end.

(** Operations that leave the tree and the processes alone. *)
Definition observes {A} (m : T A) : Prop :=
  forall w, w_fs (snd (m w)) = w_fs w /\ w_spawned (snd (m w)) = w_spawned w.

Lemma observes_ret {A} (a : A) : observes (tret a).
Proof. done. Qed.
Lemma observes_err {A} e : observes (@terr A e).
Proof. done. Qed.
Lemma observes_result {A} (r : result A ToolError) : observes (of_result r).
Proof. done. Qed.
Lemma observes_look {A} (f : FileSystem -> A) : observes (of_io (look f)).
Proof. done. Qed.
Lemma observes_query `{Disk} {A} (f : FileSystem -> result A IoError) : observes (of_io (query f)).
Proof.
  intros w. destruct (query_world f w) as [H1 H2]. unfold of_io.
  by destruct (query f w) as [[] w'].
Qed.
Lemma observes_bind {A B} (m : T A) (f : A -> T B) :
  observes m -> (forall a, observes (f a)) -> observes (tbind m f).
Proof.
  intros Hm Hf w. destruct (Hm w) as [H1 H2]. unfold tbind.
  destruct (m w) as [[a|e] w']; cbn [snd] in *; [|done].
  destruct (Hf a w') as [H3 H4]. split; congruence.
Qed.
Lemma observes_try {A} (m : T A) : observes m -> observes (try_ok m).
Proof.
  intros Hm w. destruct (Hm w) as [H1 H2]. unfold try_ok. by destruct (m w) as [[] w'].
Qed.

(** Walks through a definition. *)
Ltac observe :=
  repeat first
  [ apply observes_ret | apply observes_err | apply observes_result | apply observes_look
  | apply observes_query | apply observes_try
  | (apply observes_bind; [|intros ?])
  | match goal with
    | |- forall _, _ => intros ?
    | |- observes (match ?x with _ => _ end) => destruct x
    | |- observes (if ?b then _ else _) => destruct b
    | |- observes (let (_, _) := ?x in _) => destruct x
    end ].

(** ** Replacing a file *)

Section Replace.
Context `{Disk}.

Lemma remove_file_at p n d w :
  resolve_path (w_fs w) p = Ok d -> is_directory_at (w_fs w) d = true ->
  let (r, w') := remove_file (p ++ [n]) w in
  w_spawned w' = w_spawned w /\
  (w_fs w' = w_fs w \/ w_fs w' = delete (d ++ [n]) (w_fs w)) /\
  (is_ok r = true -> w_fs w' = delete (d ++ [n]) (w_fs w)).
Proof.
  intros Hp Hd. unfold remove_file, change, attempt. destruct (fault _); [cbn; split_and!; [done|auto|done]|].
  unfold fs_remove_file. cbv beta. rewrite (proj2 (resolve_entry_snoc _ p n (d ++ [n]))) by eauto.
  cbn [rbind]. destruct (node_at (w_fs w) (d ++ [n])) as [[]|]; cbn; (split_and!; [done|auto|done]).
Qed.

Lemma rename_at p a b d w x :
  resolve_path (w_fs w) p = Ok d -> is_directory_at (w_fs w) d = true ->
  w_fs w !! (d ++ [a]) = Some x -> x <> Directory ->
  let (r, w') := rename (p ++ [a]) (p ++ [b]) w in
  w_spawned w' = w_spawned w /\
  if is_ok r then w_fs w' = <[d ++ [b] := x]> (delete (d ++ [a]) (w_fs w))
  else w_fs w' = w_fs w.
Proof.
  intros Hp Hd Hx Hne. unfold rename, change, attempt. destruct (fault _); [done|].
  unfold fs_rename. cbv beta.
  rewrite (proj2 (resolve_entry_snoc _ p a (d ++ [a]))) by eauto. cbn [rbind].
  rewrite (proj2 (resolve_entry_snoc _ p b (d ++ [b]))) by eauto. cbn [rbind].
  rewrite (node_at_snoc _ d a), Hx.
  destruct x; try done; by destruct (node_at (w_fs w) (d ++ [b])) as [[]|].
Qed.

Lemma file_create_at p n d w :
  resolve_path (w_fs w) p = Ok d -> (forall t, w_fs w !! (d ++ [n]) <> Some (Symlink t)) ->
  let (r, w') := file_create (p ++ [n]) w in
  w_spawned w' = w_spawned w /\
  match r with
  | Ok place => place = d ++ [n] /\ w_fs w' = <[d ++ [n] := File (Utf8 [])]> (w_fs w) /\
      (forall c, extends (w_fs w) (<[d ++ [n] := File c]> (w_fs w)))
  | Err _ => w_fs w' = w_fs w
  end.
Proof.
  intros Hp Hlink. unfold file_create, attempt. destruct (fault _); [done|].
  unfold fs_create. destruct (resolve_create (w_fs w) (p ++ [n])) as [r|] eqn:Er; [|done].
  apply resolve_create_plain in Er as (d' & Hd' & _ & Hr). rewrite Hp in Hd'. injection Hd' as <-.
  rewrite node_at_snoc in Hr. specialize (Hr Hlink) as ->. cbn [rbind]. rewrite node_at_snoc.
  assert (match w_fs w !! (d ++ [n]) with None | Some (File _) => True | _ => False end ->
          forall c, extends (w_fs w) (<[d ++ [n] := File c]> (w_fs w))) as He.
  { intros Hk c. apply extends_insert. by destruct (w_fs w !! (d ++ [n])) as [[]|]. }
  destruct (w_fs w !! (d ++ [n])) as [[]|]; try done; cbn; auto.
Qed.

(** A write leaves some content in the opened file, and the text if it succeeds. *)
Lemma write_all_at place text w :
  let (r, w') := write_all place text w in
  w_spawned w' = w_spawned w /\
  exists c, w_fs w' = <[place := File c]> (w_fs w) /\ (is_ok r = true -> c = Utf8 text).
Proof. unfold write_all. destruct (fault _); cbn; (split; [done|eexists; split; [done|by intros]]). Qed.

(** The file after a replacement that finds its directory at [d]: other names are
    unchanged; the file has the new text, or after a failure its old node. *)
Definition replaced (d : apath) (n text : str) (fs : FileSystem) (ok : bool) (fs' : FileSystem) : Prop :=
  (forall p, p <> d ++ [n] -> p <> d ++ [tmp_name n] -> fs' !! p = fs !! p) /\
  (if ok then fs' !! (d ++ [n]) = Some (File (Utf8 text)) /\ fs' !! (d ++ [tmp_name n]) = None
   else fs' !! (d ++ [n]) = fs !! (d ++ [n])).

Lemma tmp_path_other (d : apath) n : d ++ [n] <> d ++ [tmp_name n].
Proof. apply snoc_ne. intros E. by apply (tmp_name_other n). Qed.

(** Only the temporary file differs: the outcome of every failure. *)
Lemma replaced_failed d n text fs fs' :
  (forall p, p <> d ++ [tmp_name n] -> fs' !! p = fs !! p) -> replaced d n text fs false fs'.
Proof. intros Hp. split; [auto|]. apply Hp, tmp_path_other. Qed.

(** The last step: the temporary file with the text is renamed. *)
Lemma rename_replaces up n d text fs w :
  resolve_path (w_fs w) up = Ok d -> is_directory_at (w_fs w) d = true ->
  w_fs w = <[d ++ [tmp_name n] := File (Utf8 text)]> fs ->
  let (r, w') := tbind (fun w => match of_io (rename (up ++ [tmp_name n]) (up ++ [n])) w with
                                 | (Ok _, w') => (Ok None, w')
                                 | (Err e, w') => (Ok (Some e), w')
                                 end)
                   (fun renamed => match renamed with
                    | None => tret tt
                    | Some e => tbind (try_ok (of_io (remove_file (up ++ [tmp_name n])))) (fun _ => terr e)
                    end) w in
  w_spawned w' = w_spawned w /\ replaced d n text fs (is_ok r) (w_fs w').
Proof.
  intros Hup Hd Hw. pose proof (tmp_path_other d n) as Hne.
  pose proof (rename_at up (tmp_name n) n d w (File (Utf8 text)) Hup Hd) as Hrn.
  rewrite Hw in Hrn at 1. specialize (Hrn (lookup_insert_eq _ _ _) ltac:(done)).
  unfold tbind, of_io at 1. destruct (rename _ _ w) as [[u|e] w1]; destruct Hrn as [Hsp Hrn];
    cbn [is_ok] in Hrn.
  - split; [done|]. cbn [snd tret is_ok w_fs]. rewrite Hrn, Hw, delete_insert_eq. split.
    + intros p ? ?. by rewrite lookup_insert_ne, lookup_delete_ne.
    + rewrite lookup_insert_eq, lookup_insert_ne by done. by rewrite lookup_delete_eq.
  - pose proof (remove_file_at up (tmp_name n) d w1) as Hrm. rewrite Hrn in Hrm.
    specialize (Hrm Hup Hd). unfold try_ok, of_io, terr.
    destruct (remove_file _ w1) as [[u|e2] w2]; destruct Hrm as (Hs & Hf & _);
      (split; [congruence|]); apply replaced_failed; intros p Hp;
      destruct Hf as [-> | ->]; rewrite ?lookup_delete_ne by done; rewrite Hw;
      by rewrite lookup_insert_ne.
Qed.

Lemma replace_file_spec up n d text w :
  resolve_path (w_fs w) up = Ok d -> is_directory_at (w_fs w) d = true ->
  (forall t, w_fs w !! (d ++ [tmp_name n]) <> Some (Symlink t)) ->
  let (r, w') := replace_file (up ++ [n]) text w in
  w_spawned w' = w_spawned w /\ replaced d n text (w_fs w) (is_ok r) (w_fs w').
Proof.
  intros Hup Hd Hlink. unfold replace_file. rewrite temporary_sibling_snoc. cbv zeta.
  pose proof (file_create_at up (tmp_name n) d w Hup Hlink) as Hc.
  unfold tbind at 1, of_io at 1. destruct (file_create _ w) as [[place|e] w1]; destruct Hc as [Hs1 Hc].
  2:{ split; [done|]. apply replaced_failed. intros p _. by rewrite Hc. }
  destruct Hc as (-> & Hf1 & Hext).
  pose proof (write_all_at (d ++ [tmp_name n]) text w1) as Hwr.
  unfold tbind at 1, of_io at 1. destruct (write_all _ _ w1) as [[u|e] w2];
    destruct Hwr as (Hs2 & c & Hf2 & Hok); rewrite Hf1, insert_insert_eq in Hf2.
  2:{ split; [congruence|]. apply replaced_failed. intros p Hp. by rewrite Hf2, lookup_insert_ne. }
  rewrite (Hok eq_refl) in Hf2.
  unfold tbind at 1, of_io at 1, sync_data.
  destruct (query_world (fun _ : FileSystem => Ok tt) w2) as [Hf3 Hs3].
  destruct (query _ w2) as [[u'|e] w3]; cbn [snd] in Hf3, Hs3.
  2:{ split; [congruence|]. apply replaced_failed. intros p Hp.
      by rewrite Hf3, Hf2, lookup_insert_ne. }
  assert (w_fs w3 = <[d ++ [tmp_name n] := File (Utf8 text)]> (w_fs w)) as Hf by congruence.
  pose proof (rename_replaces up n d text (w_fs w) w3) as Hlast. rewrite Hf in Hlast at 1 2.
  specialize (Hlast (extends_resolve _ _ _ _ (Hext _) Hup) (extends_directory _ _ _ (Hext _) Hd) Hf).
  destruct (tbind _ _ w3) as [r w4]. destruct Hlast as [Hs4 Hr]. split; [congruence|done].
Qed.

(** Without a directory for the temporary file nothing happens. *)
Lemma replace_file_nowhere up n text w :
  (forall d, resolve_path (w_fs w) up = Ok d -> is_directory_at (w_fs w) d = false) ->
  let w' := snd (replace_file (up ++ [n]) text w) in
  w_fs w' = w_fs w /\ w_spawned w' = w_spawned w.
Proof.
  intros Hno. cut (exists e, replace_file (up ++ [n]) text w = (Err e, tick w)).
  { intros [e ->]. done. }
  unfold replace_file. rewrite temporary_sibling_snoc. cbv zeta.
  unfold tbind at 1, of_io at 1, file_create, attempt. destruct (fault (w_ops w)); [eauto|].
  unfold fs_create. destruct (resolve_create _ _) as [r|] eqn:Er; [|eauto].
  apply resolve_create_plain in Er as (d & Hd & Hdir & _). by rewrite (Hno d) in Hdir.
Qed.

Lemma write_text_eq up n text w :
  write_text_utf8 (up ++ [n]) text w =
  match create_dir_all up w with
  | (Ok _, w1) => replace_file (up ++ [n]) text w1
  | (Err e, w1) => (Err (ToolIo e), w1)
  end.
Proof.
  unfold write_text_utf8. rewrite parent_of_snoc. unfold tbind at 1, of_io at 1.
  by destruct (create_dir_all up w) as [[]].
Qed.
End Replace.

(** ** Where a patch goes *)

Lemma nearest_existing_spec fs fuel p a :
  nearest_existing fs fuel p = Some a ->
  a `prefix_of` p /\ path_exists fs a = true /\
  (forall q, a `prefix_of` q -> q `prefix_of` p -> q <> a -> path_exists fs q = false).
Proof.
  revert p. induction fuel as [|f IH]; intros p; cbn [nearest_existing];
    (destruct (path_exists fs p) eqn:E;
     [intros [= <-]; split_and!; [done|done|]; intros q H1 H2 Hne;
      destruct Hne; by apply (anti_symm prefix)|]); [done|].
  destruct p as [|n p _] using rev_ind; [done|]. rewrite parent_of_snoc.
  intros (H1 & H2 & H3)%IH. split_and!; [by apply prefix_of_snoc|done|].
  intros q Ha Hq Hne. destruct (decide (q = p ++ [n])) as [->|Hqp]; [done|].
  apply H3; [done| |done]. destruct Hq as [k Hk]. destruct k as [|x k _] using rev_ind.
  - rewrite app_nil_r in Hk. congruence.
  - rewrite app_assoc in Hk. apply app_inj_tail in Hk as [-> _]. by exists k.
Qed.

Section Patch.
Context `{Disk}.
Variable reg : ToolRegistry.
Local Abbreviation root := (tr_workspace_root reg).

(** Finding the target reads only. *)
Lemma resolve_writable_observes requested : observes (resolve_writable reg requested).
Proof. unfold resolve_writable, canonicalize, symlink_metadata. observe. Qed.

(** What an accepted target tells: its directory is confined to the workspace. *)
Lemma resolve_writable_spec requested w target w' :
  fs_wf (w_fs w) -> resolve_writable reg requested w = (Ok target, w') ->
  w_fs w' = w_fs w /\ w_spawned w' = w_spawned w /\
  exists up n anc, target = up ++ [n] /\ anc `prefix_of` up /\
    confined root anc up (w_fs w).
Proof.
  intros Hwf Hr. unfold resolve_writable in Hr. run_back.
  destruct (snoc_cases (join_path root x)) as [Et|(up & n & Et)]; rewrite Et in Hr; [done|].
  rewrite parent_of_snoc in Hr. run_back.
  destruct (nearest_existing (w_fs _) (length up) up) as [anc|] eqn:En; [|done].
  apply nearest_existing_spec in En as (H1 & H2 & H3).
  unfold canonicalize in Hr. run_back.
  destruct (path_starts_with _ root) eqn:Ec in Hr; cbn [negb] in Hr; [|done].
  apply path_starts_with_true in Ec.
  match goal with Hx : resolve_path (w_fs w) anc = Ok ?c |- _ =>
    rename Hx into Hc; rename c into canonical end.
  assert (confined root anc up (w_fs w)) as Hconf.
  { split; [done|by exists canonical|]. intros q d Hq1 Hq2 Hd.
    destruct (decide (q = anc)) as [->|Hne]; [rewrite Hc in Hd; by injection Hd as <-|].
    specialize (H3 q Hq1 Hq2 Hne). unfold path_exists, stat in H3. rewrite Hd in H3.
    destruct (resolve_exists _ _ _ Hwf Hd) as [node Hx]. by rewrite Hx in H3. }
  run_back. destruct (path_exists _ (up ++ [n])) eqn:Ee.
  - unfold symlink_metadata in *. run_back.
    destruct (match _ with Symlink _ => true | _ => false end) eqn:El in Hr; [done|]. run_back.
    split_and!; [congruence|congruence|]. by exists up, n, anc.
  - run_back. split_and!; [congruence|congruence|]. by exists up, n, anc.
Qed.

Lemma current_text_observes path : observes (current_text path).
Proof. unfold current_text, read_to_string. observe. Qed.

(** No entry of the workspace with the temporary name of [n] is a symbolic link. *)
Definition no_link_named (fs : FileSystem) (n : str) : Prop :=
  forall p t, root `prefix_of` p -> fs !! (p ++ [tmp_name n]) <> Some (Symlink t).

Lemma write_text_confined up n anc text w :
  anc `prefix_of` up -> confined root anc up (w_fs w) -> no_link_named (w_fs w) n ->
  let w' := snd (write_text_utf8 (up ++ [n]) text w) in
  outside_same root (w_fs w) (w_fs w') /\ w_spawned w' = w_spawned w.
Proof.
  intros Ha Hc Hlink. cbv zeta. rewrite write_text_eq. unfold create_dir_all.
  destruct (create_dir_all_confined root anc up Ha (length up) up w Hc) as (H1 & H2 & H3); [done|].
  destruct (create_dir_all_loop (length up) up w) as [[u|e] w1]; cbn [snd] in *;
    [|split; [by apply (grows_outside root)|done]].
  assert ((exists d, resolve_path (w_fs w1) up = Ok d /\ is_directory_at (w_fs w1) d = true) \/
          forall d, resolve_path (w_fs w1) up = Ok d -> is_directory_at (w_fs w1) d = false)
    as [(d & Eup & Edir)|Hno].
  { destruct (resolve_path (w_fs w1) up) as [d|] eqn:E; [|by right].
    destruct (is_directory_at (w_fs w1) d) eqn:E'; [eauto|right; naive_solver]. }
  - assert (root `prefix_of` d) as Hd by (eapply cf_inside; [exact H1|exact Ha|done|done]).
    pose proof (replace_file_spec up n d text w1 Eup Edir) as Hr.
    destruct (replace_file (up ++ [n]) text w1) as [r w2]. cbn [snd].
    destruct Hr as [Hs [Hp _]].
    { intros t Ht. destruct (H2 (d ++ [tmp_name n])) as [E|(_ & _ & E)]; [|congruence].
      apply (Hlink d t Hd). congruence. }
    split; [|congruence]. eapply outside_same_trans; [by apply (grows_outside root)|].
    intros p Hout. apply Hp; intros ->; apply Hout; by apply prefix_of_snoc.
  - destruct (replace_file_nowhere up n text w1 Hno) as [Hf Hs]. rewrite Hf.
    split; [by apply (grows_outside root)|congruence].
Qed.

Lemma remove_confined up n anc w :
  anc `prefix_of` up -> confined root anc up (w_fs w) ->
  let w' := snd (remove_file (up ++ [n]) w) in
  outside_same root (w_fs w) (w_fs w') /\ w_spawned w' = w_spawned w.
Proof.
  intros Ha Hc. cbv zeta.
  destruct (resolve_entry (w_fs w) (up ++ [n])) as [r|e] eqn:Er.
  - apply resolve_entry_snoc in Er as (d & Hd & Hdir & _).
    assert (root `prefix_of` d) as Hroot by (eapply cf_inside; [exact Hc|exact Ha|done|done]).
    pose proof (remove_file_at up n d w Hd Hdir) as Hrm.
    destruct (remove_file (up ++ [n]) w) as [r' w']. cbn [snd]. destruct Hrm as (Hs & Hf & _).
    split; [|done]. destruct Hf as [-> | ->]; auto with xc_spec.
  - unfold remove_file, change, attempt, fs_remove_file. rewrite Er. by destruct (fault _).
Qed.

(** C2: When no directory below the workspace holds a symbolic link with the name of a
    temporary file, applying or rolling back any patch, also one that fails or is
    refused by the system half-way, starts no process and changes nothing outside the
    workspace root. *)
Theorem patches_confined w :
  fs_wf (w_fs w) -> (forall n, no_link_named (w_fs w) n) ->
  (forall args, let w' := snd (apply_patch reg args w) in
     outside_same root (w_fs w) (w_fs w') /\ w_spawned w' = w_spawned w) /\
  (forall path expected original, let w' := snd (rollback_patch reg path expected original w) in
     outside_same root (w_fs w) (w_fs w') /\ w_spawned w' = w_spawned w).
Proof.
  intros Hwf Hlink.
  assert (forall A path (k : apath -> bool * str -> T A),
    (forall up n anc existed text w1, w_fs w1 = w_fs w -> w_spawned w1 = w_spawned w ->
       anc `prefix_of` up -> confined root anc up (w_fs w1) ->
       let w' := snd (k (up ++ [n]) (existed, text) w1) in
       outside_same root (w_fs w1) (w_fs w') /\ w_spawned w' = w_spawned w1) ->
    let w' := snd (tbind (resolve_writable reg path) (fun p => tbind (current_text p) (k p)) w) in
    outside_same root (w_fs w) (w_fs w') /\ w_spawned w' = w_spawned w) as Hstart.
  { intros A path k Hk. cbv zeta.
    destruct (resolve_writable_observes path w) as [Hf Hs].
    destruct (resolve_writable reg path w) as [[target|e] w1] eqn:Er;
      unfold tbind; rewrite Er; cbn [snd] in *; [|by rewrite Hf].
    apply resolve_writable_spec in Er as (_ & _ & up & n & anc & -> & Ha & Hc); [|done].
    destruct (current_text_observes (up ++ [n]) w1) as [Hf2 Hs2].
    destruct (current_text (up ++ [n]) w1) as [[[existed text]|e] w2]; cbn [snd] in *.
    - rewrite <- Hf, <- Hs, <- Hf2, <- Hs2 in *. by apply (Hk _ _ anc).
    - by rewrite Hf2, Hs2, Hf. }
  split.
  - intros args. apply Hstart. intros up n anc existed text w1 Hf Hs Ha Hc. cbv beta iota.
    destruct (negb _); [done|].
    pose proof (write_text_confined up n anc (ap_new_text args) w1 Ha Hc) as Hw.
    rewrite Hf in Hw at 1. specialize (Hw (Hlink n)). unfold tbind.
    by destruct (write_text_utf8 _ _ w1) as [[] w2].
  - intros path expected original. apply Hstart.
    intros up n anc existed text w1 Hf Hs Ha Hc. cbv beta iota.
    destruct (negb _); [done|]. destruct original as [original|].
    + pose proof (write_text_confined up n anc original w1 Ha Hc) as Hw.
      rewrite Hf in Hw at 1. specialize (Hw (Hlink n)). unfold tbind.
      by destruct (write_text_utf8 _ _ w1) as [[] w2].
    + pose proof (remove_confined up n anc w1 Ha Hc) as Hw.
      unfold tbind, of_io, look, tret. destruct (path_exists _ _); [|done].
      by destruct (remove_file _ w1) as [[] w2].
Qed.
End Patch.

(** ** Existing directories, and disks without faults *)

Section Accepted.
Context `{Disk}.
Variable reg : ToolRegistry.
Local Abbreviation root := (tr_workspace_root reg).

(** The requested path names [n] in the directory at [d], below the root. *)
Record lands (fs : FileSystem) (requested : str) (up : apath) (n : str) (d : apath) : Prop := {
  la_path : exists req, checked_relative_path requested = Ok req /\ join_path root req = up ++ [n];
  la_dir : resolve_path fs up = Ok d;
  la_isdir : is_directory_at fs d = true;
  la_root : root `prefix_of` d;
  la_tmp : forall t, fs !! (d ++ [tmp_name n]) <> Some (Symlink t);
}.

Lemma path_is_dir_resolved fs p d :
  resolve_path fs p = Ok d -> is_directory_at fs d = true -> path_is_dir fs p = true.
Proof. unfold path_is_dir, stat, is_directory_at. by intros ->. Qed.

(** The directory exists: creating it changes nothing, and succeeds. *)
Lemma create_dir_all_existing up d w :
  resolve_path (w_fs w) up = Ok d -> is_directory_at (w_fs w) d = true ->
  exists w', create_dir_all up w = (Ok tt, w') /\ w_fs w' = w_fs w /\ w_spawned w' = w_spawned w.
Proof.
  intros Hr Hd. exists (tick w). split; [|done].
  pose proof (path_is_dir_resolved _ _ _ Hr Hd) as Hp.
  assert (exists e, create_dir up w = (Err e, tick w) /\ e <> NotFound) as (e & He & Hne).
  { unfold create_dir, change, attempt. destruct (fault _); [by eexists|].
    unfold fs_mkdir. destruct (snoc_cases up) as [->|(p & n & ->)]; [by eexists|].
    apply resolve_prefix in Hr as (d' & Hd' & Hdir' & x & Hx).
    rewrite (proj2 (resolve_entry_snoc _ p n (d' ++ [n]))) by eauto.
    cbn [rbind]. rewrite Hx. by eexists. }
  unfold create_dir_all. destruct (length up); cbn [create_dir_all_loop]; rewrite He;
    destruct e; try done; cbn [tick w_fs]; by rewrite Hp.
Qed.

Lemma write_text_replaces up n d text w :
  resolve_path (w_fs w) up = Ok d -> is_directory_at (w_fs w) d = true ->
  (forall t, w_fs w !! (d ++ [tmp_name n]) <> Some (Symlink t)) ->
  let (r, w') := write_text_utf8 (up ++ [n]) text w in
  w_spawned w' = w_spawned w /\ replaced d n text (w_fs w) (is_ok r) (w_fs w').
Proof.
  intros Hr Hd Ht. rewrite write_text_eq.
  destruct (create_dir_all_existing up d w Hr Hd) as (w1 & -> & Hf & Hs).
  rewrite <- Hf, <- Hs in *. by apply replace_file_spec.
Qed.


(** *** Without faults *)
Hypothesis no_fault : forall k, fault k = None.

Lemma query_runs {A} (f : FileSystem -> result A IoError) w : query f w = (f (w_fs w), tick w).
Proof. unfold query, attempt. rewrite no_fault. by destruct (f (w_fs w)), w. Qed.

Lemma of_io_query {A} (f : FileSystem -> result A IoError) a w :
  f (w_fs w) = Ok a -> of_io (query f) w = (Ok a, tick w).
Proof. intros Hf. unfold of_io. by rewrite query_runs, Hf. Qed.

Lemma resolve_create_new fs up n d :
  resolve_path fs up = Ok d -> is_directory_at fs d = true -> fs !! (d ++ [n]) = None ->
  resolve_create fs (up ++ [n]) = Ok (d ++ [n]).
Proof.
  intros [l Hl]%resolve_walk Hd Hn. unfold resolve_create. rewrite comps_snoc, walk_app by done.
  rewrite Hl. cbn [rbind fst snd]. by rewrite walk_cons, Hd, node_at_snoc, Hn.
Qed.

Lemma write_text_succeeds up n d text w :
  resolve_path (w_fs w) up = Ok d -> is_directory_at (w_fs w) d = true ->
  w_fs w !! (d ++ [tmp_name n]) = None ->
  match w_fs w !! (d ++ [n]) with None | Some (File _) => True | _ => False end ->
  exists w', write_text_utf8 (up ++ [n]) text w = (Ok tt, w') /\
    w_fs w' = <[d ++ [n] := File (Utf8 text)]> (w_fs w).
Proof.
  intros Hr Hd Htmp Hn.
  pose proof (write_text_replaces up n d text w Hr Hd) as Hspec.
  destruct (write_text_utf8 (up ++ [n]) text w) as [r w'] eqn:Ew.
  destruct Hspec as [_ Hspec]; [by rewrite Htmp|].
  assert (r = Ok tt) as ->.
  { rewrite write_text_eq in Ew.
    destruct (create_dir_all_existing up d w Hr Hd) as (w1 & Ec & Hf & _). rewrite Ec in Ew.
    unfold replace_file in Ew. rewrite temporary_sibling_snoc in Ew. cbv zeta in Ew.
    set (tmp := d ++ [tmp_name n]) in *.
    assert (file_create (up ++ [tmp_name n]) w1
            = (Ok tmp, set_fs (<[tmp := File (Utf8 [])]> (w_fs w)) (tick w1))) as Efc.
    { unfold file_create, attempt, fs_create. rewrite no_fault, Hf, (resolve_create_new _ _ _ d) by done.
      cbn [rbind]. rewrite node_at_snoc. fold tmp. by rewrite Htmp. }
    unfold tbind at 1, of_io at 1 in Ew. rewrite Efc in Ew.
    unfold tbind at 1, of_io at 1, write_all in Ew. rewrite no_fault in Ew.
    cbn [set_fs tick w_fs w_ops w_spawned] in Ew. rewrite insert_insert_eq in Ew.
    unfold tbind at 1, of_io at 1, sync_data in Ew. rewrite query_runs in Ew.
    cbn [set_fs tick w_fs w_ops w_spawned] in Ew.
    assert (extends (w_fs w) (<[tmp := File (Utf8 text)]> (w_fs w))) as He
      by (apply extends_insert; fold tmp; by rewrite Htmp).
    assert (forall m x, resolve_entry (<[tmp := File (Utf8 text)]> (w_fs w)) (up ++ [m]) = Ok x <-> x = d ++ [m]) as Hent.
    { intros m x. rewrite resolve_entry_snoc. split.
      - intros (d' & Hd' & _ & ->). rewrite (extends_resolve _ _ _ _ He Hr) in Hd'. congruence.
      - intros ->. exists d. split_and!; [by eapply extends_resolve|by eapply extends_directory|done]. }
    unfold tbind at 1, of_io at 1, rename, change, attempt, fs_rename in Ew. rewrite no_fault in Ew.
    cbn [set_fs tick w_fs w_ops w_spawned] in Ew.
    rewrite (proj2 (Hent (tmp_name n) tmp) eq_refl), (proj2 (Hent n (d ++ [n])) eq_refl) in Ew.
    assert (node_at (<[tmp := File (Utf8 text)]> (w_fs w)) tmp = Some (File (Utf8 text))) as Hn1.
    { unfold tmp. by rewrite node_at_snoc, lookup_insert_eq. }
    assert (node_at (<[tmp := File (Utf8 text)]> (w_fs w)) (d ++ [n]) = w_fs w !! (d ++ [n])) as Hn2.
    { rewrite node_at_snoc, lookup_insert_ne; [done|]. intros E. by apply (tmp_path_other d n). }
    cbn [rbind] in Ew. rewrite Hn1, Hn2 in Ew.
    destruct (w_fs w !! (d ++ [n])) as [[]|]; try done; simpl in Ew; unfold tret in Ew; congruence. }
  exists w'. split; [done|]. destruct Hspec as [Hp [H1 H2]]. cbn [is_ok] in *.
  apply map_eq. intros p. destruct (decide (p = d ++ [n])) as [->|Hne].
  - by rewrite lookup_insert_eq.
  - rewrite lookup_insert_ne by done. destruct (decide (p = d ++ [tmp_name n])) as [->|Hne']; [congruence|auto].
Qed.

Definition present {A} (o : option A) : bool := match o with Some _ => true | None => false end.

(** The text that the file of a patch holds, if it can be patched at all. *)
Definition patchable (fs : FileSystem) (p : apath) (old : str) : Prop :=
  match fs !! p with
  | Some (File (Utf8 s)) => s = old
  | None => old = []
  | _ => False
  end.

Lemma target_exists fs up n d :
  resolve_path fs up = Ok d -> is_directory_at fs d = true ->
  (forall t, fs !! (d ++ [n]) <> Some (Symlink t)) ->
  path_exists fs (up ++ [n]) = present (fs !! (d ++ [n])) /\
  (forall x, fs !! (d ++ [n]) = Some x -> resolve_path fs (up ++ [n]) = Ok (d ++ [n])).
Proof.
  intros Hr Hd Hl. unfold path_exists, stat. destruct (fs !! (d ++ [n])) as [x|] eqn:Ex.
  - assert (resolve_path fs (up ++ [n]) = Ok (d ++ [n])) as E.
    { apply (resolve_plain _ _ _ _ x); [done|done|by rewrite node_at_snoc|]. intros t ->. by destruct (Hl t). }
    rewrite E, node_at_snoc, Ex. auto.
  - split; [|done]. destruct (resolve_path fs (up ++ [n])) as [c|] eqn:E; [|done].
    apply resolve_prefix in E as (d' & Hd' & _ & x & Hx). rewrite Hr in Hd'. injection Hd' as <-.
    rewrite node_at_snoc in Hx. congruence.
Qed.

Lemma resolve_writable_accepts w requested up n d :
  lands (w_fs w) requested up n d -> (forall t, w_fs w !! (d ++ [n]) <> Some (Symlink t)) ->
  exists w', resolve_writable reg requested w = (Ok (up ++ [n]), w') /\ w_fs w' = w_fs w.
Proof.
  intros [(req & Hreq & Hjoin) Hdir Hisdir Hroot Htmp] Hlink.
  assert (path_exists (w_fs w) up = true) as Hex.
  { unfold path_exists, stat. rewrite Hdir. unfold is_directory_at in Hisdir.
    by destruct (node_at (w_fs w) d). }
  destruct (target_exists (w_fs w) up n d Hdir Hisdir Hlink) as [He Hres].
  unfold resolve_writable. unfold tbind at 1, of_result. rewrite Hreq, Hjoin, parent_of_snoc.
  unfold tbind at 1, of_io at 1, look at 1.
  assert (nearest_existing (w_fs w) (length up) up = Some up) as ->
    by (destruct (length up); cbn [nearest_existing]; by rewrite Hex).
  unfold tbind at 1, canonicalize. rewrite (of_io_query _ d) by done.
  rewrite (proj2 (path_starts_with_true d root)) by done. cbn [negb].
  unfold tbind at 1, of_io at 1, look at 1. cbn [tick w_fs]. rewrite He.
  destruct (w_fs w !! (d ++ [n])) as [x|] eqn:Ex.
  - unfold tbind, symlink_metadata. cbn [present]. rewrite (of_io_query _ x).
    + destruct x; try (by eexists). by destruct (Hlink target).
    + cbn [tick w_fs]. unfold fs_lstat. rewrite (proj2 (resolve_entry_snoc _ up n (d ++ [n]))) by eauto.
      cbn [rbind]. by rewrite node_at_snoc, Ex.
  - cbn [present]. by eexists.
Qed.

Lemma patchable_no_link fs p old : patchable fs p old -> forall t, fs !! p <> Some (Symlink t).
Proof. unfold patchable. by destruct (fs !! p) as [[[]| | |]|]. Qed.

Lemma current_text_reads w up n d old :
  resolve_path (w_fs w) up = Ok d -> is_directory_at (w_fs w) d = true ->
  patchable (w_fs w) (d ++ [n]) old ->
  exists b w', current_text (up ++ [n]) w = (Ok (b, old), w') /\ w_fs w' = w_fs w.
Proof.
  intros Hr Hd Hp. destruct (target_exists _ up n d Hr Hd (patchable_no_link _ _ _ Hp)) as [He Hres].
  unfold current_text. unfold tbind at 1, of_io at 1, look. rewrite He. unfold patchable in Hp.
  destruct (w_fs w !! (d ++ [n])) as [[[s|]| | |]|] eqn:Ex; try done.
  - subst s. unfold tbind, read_to_string. cbn [present]. rewrite (of_io_query _ old); [by eexists _, _|].
    unfold fs_read. rewrite (Hres _ eq_refl). cbn [rbind]. by rewrite node_at_snoc, Ex.
  - subst old. cbn [present]. by eexists _, _.
Qed.

Lemma lands_insert fs requested up n d x :
  lands fs requested up n d -> fs !! (d ++ [tmp_name n]) = None ->
  match fs !! (d ++ [n]) with Some y => same_node y x | None => True end ->
  lands (<[d ++ [n] := x]> fs) requested up n d.
Proof.
  intros [Hp Hr Hd Hroot Ht] Htmp Hx.
  assert (extends fs (<[d ++ [n] := x]> fs)) as He by by apply extends_insert.
  split; [done|by eapply extends_resolve|by eapply extends_directory|done|].
  intros t. rewrite lookup_insert_ne by apply tmp_path_other. by rewrite Htmp.
Qed.

Lemma apply_patch_succeeds args up n d w :
  lands (w_fs w) (ap_path args) up n d ->
  w_fs w !! (d ++ [tmp_name n]) = None ->
  patchable (w_fs w) (d ++ [n]) (ap_old_text args) ->
  exists out w', apply_patch reg args w = (Ok out, w') /\
    w_fs w' = <[d ++ [n] := File (Utf8 (ap_new_text args))]> (w_fs w).
Proof.
  intros Hland Htmp Hpat. pose proof (la_dir _ _ _ _ _ Hland) as Hr.
  pose proof (la_isdir _ _ _ _ _ Hland) as Hd.
  unfold apply_patch, tbind at 1.
  destruct (resolve_writable_accepts w _ _ _ _ Hland (patchable_no_link _ _ _ Hpat)) as (wa & -> & Hfa).
  unfold tbind at 1.
  destruct (current_text_reads wa up n d (ap_old_text args)) as (b & wb & -> & Hfb);
    [by rewrite Hfa..|].
  rewrite str_eqb_refl. cbn [negb]. unfold tbind at 1.
  assert (w_fs wb = w_fs w) as Hb by congruence.
  destruct (write_text_succeeds up n d (ap_new_text args) wb) as (wc & -> & Hc); [by rewrite Hb..| |].
  - unfold patchable in Hpat. rewrite Hb. by destruct (w_fs w !! (d ++ [n])) as [[[]| | |]|].
  - rewrite Hb in Hc. by eexists _, wc.
Qed.

(** A rollback of a file with the expected text writes the original or removes it. *)
Lemma rollback_patch_succeeds path expected original up n d w :
  lands (w_fs w) path up n d ->
  w_fs w !! (d ++ [tmp_name n]) = None ->
  w_fs w !! (d ++ [n]) = Some (File (Utf8 expected)) ->
  exists out w', rollback_patch reg path expected original w = (Ok out, w') /\
    w_fs w' = match original with
              | Some text => <[d ++ [n] := File (Utf8 text)]> (w_fs w)
              | None => delete (d ++ [n]) (w_fs w)
              end.
Proof.
  intros Hland Htmp Hfile. pose proof (la_dir _ _ _ _ _ Hland) as Hr.
  pose proof (la_isdir _ _ _ _ _ Hland) as Hd.
  assert (patchable (w_fs w) (d ++ [n]) expected) as Hpat by (unfold patchable; by rewrite Hfile).
  destruct (target_exists _ up n d Hr Hd (patchable_no_link _ _ _ Hpat)) as [He _].
  unfold rollback_patch. unfold tbind at 1.
  destruct (resolve_writable_accepts w _ _ _ _ Hland (patchable_no_link _ _ _ Hpat)) as (wa & -> & Hfa).
  unfold tbind at 1.
  destruct (current_text_reads wa up n d expected) as (b & wb & -> & Hfb); [by rewrite Hfa..|].
  rewrite str_eqb_refl. cbn [negb]. assert (w_fs wb = w_fs w) as Hb by congruence.
  destruct original as [text|].
  - destruct (write_text_succeeds up n d text wb) as (wc & Hwc & Hc); [by rewrite Hb..|by rewrite Hb, Hfile|].
    unfold tbind. rewrite Hwc. rewrite Hb in Hc. by eexists _, wc.
  - unfold tbind, of_io, look. rewrite Hb, He, Hfile. cbn [present].
    unfold remove_file, change, attempt, fs_remove_file. rewrite no_fault, Hb.
    rewrite (proj2 (resolve_entry_snoc (w_fs w) up n (d ++ [n]))) by eauto. cbn [rbind].
    rewrite node_at_snoc, Hfile. by eexists _, _.
Qed.

(** On a system that refuses nothing, a patch whose expected text is right
    succeeds, and rolling it back with the recorded texts succeeds and restores the tree
    exactly, removing a file that the patch created. *)
Theorem rollback_restores args up n d w :
  lands (w_fs w) (ap_path args) up n d ->
  w_fs w !! (d ++ [tmp_name n]) = None ->
  patchable (w_fs w) (d ++ [n]) (ap_old_text args) ->
  exists out w1 out' w2,
    apply_patch reg args w = (Ok out, w1) /\
    w_fs w1 = <[d ++ [n] := File (Utf8 (ap_new_text args))]> (w_fs w) /\
    rollback_patch reg (ap_path args) (ap_new_text args)
      (if present (w_fs w !! (d ++ [n])) then Some (ap_old_text args) else None) w1 = (Ok out', w2) /\
    w_fs w2 = w_fs w.
Proof.
  intros Hland Htmp Hpat.
  destruct (apply_patch_succeeds args up n d w Hland Htmp Hpat) as (out & w1 & Hap & H1).
  exists out, w1.
  destruct (rollback_patch_succeeds (ap_path args) (ap_new_text args)
    (if present (w_fs w !! (d ++ [n])) then Some (ap_old_text args) else None) up n d w1)
    as (out' & w2 & Hrb & H2).
  - rewrite H1. apply lands_insert; [done|done|]. unfold patchable in Hpat.
    by destruct (w_fs w !! (d ++ [n])) as [[[]| | |]|].
  - rewrite H1, lookup_insert_ne by apply tmp_path_other. done.
  - by rewrite H1, lookup_insert_eq.
  - exists out', w2. split_and!; [done|done|done|]. rewrite H2, H1. unfold patchable in Hpat.
    destruct (w_fs w !! (d ++ [n])) as [[[]| | |]|] eqn:E; cbn [present] in *; try done.
    + rewrite insert_insert_eq. apply insert_id. by subst.
    + by apply delete_insert_id.
Qed.
End Accepted.

(** ** Concrete trees *)

Definition check_wf (fs : FileSystem) : bool :=
  forallb (fun kv => is_directory_at fs (removelast (fst kv))) (map_to_list fs).
Definition check_no_links (fs : FileSystem) : bool :=
  forallb (fun kv => match snd kv with Symlink _ => false | _ => true end) (map_to_list fs).

Lemma check_wf_ok fs : check_wf fs = true -> fs_wf fs.
Proof.
  unfold check_wf. rewrite forallb_forall. intros Hc p n x Hx.
  specialize (Hc (p ++ [n], x)). cbn [fst] in Hc. rewrite removelast_snoc in Hc.
  apply Hc, list_elem_of_In, elem_of_map_to_list. done.
Qed.

Lemma check_no_links_ok reg fs n : check_no_links fs = true -> no_link_named reg fs n.
Proof.
  unfold check_no_links. rewrite forallb_forall. intros Hc p t _ Hx.
  specialize (Hc (p ++ [tmp_name n], Symlink t)). cbn [snd] in Hc.
  discriminate Hc. by apply list_elem_of_In, elem_of_map_to_list.
Qed.

#[export] Instance quiet_disk : Disk := {| fault := fun _ => None; dir_order := fun l => l |}.

Definition demo_reg : ToolRegistry := mkToolRegistry [$"ws"] [] [] [].
Definition demo_fs : FileSystem :=
  list_to_map [([$"ws"], Directory); ([$"ws"; $"a.txt"], File (Utf8 $"old"));
               ([$"etc"], Directory); ([$"etc"; $"passwd"], File (Utf8 $"root"))].
Definition demo_world : World := mkWorld demo_fs 0 [].
Definition demo_patch : ApplyPatchArgs := mkApplyPatchArgs $"a.txt" $"old" $"new".

Lemma demo_wf : fs_wf (w_fs demo_world).
Proof. apply check_wf_ok. vm_compute. reflexivity. Qed.

Lemma demo_no_link n : no_link_named demo_reg (w_fs demo_world) n.
Proof. apply check_no_links_ok. vm_compute. reflexivity. Qed.

Lemma demo_lands :
  lands demo_reg (w_fs demo_world) (ap_path demo_patch) [$"ws"] $"a.txt" [$"ws"].
Proof.
  split; [exists $"a.txt"; split; vm_compute; reflexivity|vm_compute; reflexivity..|by exists []|].
  intros t Ht. vm_compute in Ht. discriminate Ht.
Qed.

Lemma patches_confined_witness :
  let w' := snd (apply_patch demo_reg demo_patch demo_world) in
  outside_same (tr_workspace_root demo_reg) (w_fs demo_world) (w_fs w') /\
  w_spawned w' = w_spawned demo_world.
Proof.
  pose proof (patches_confined demo_reg demo_world demo_wf demo_no_link) as [H _].
  exact (H demo_patch).
Defined.


Lemma rollback_restores_witness :
  exists out w1 out' w2,
    apply_patch demo_reg demo_patch demo_world = (Ok out, w1) /\
    w_fs w1 = <[[$"ws"] ++ [$"a.txt"] := File (Utf8 (ap_new_text demo_patch))]> (w_fs demo_world) /\
    rollback_patch demo_reg (ap_path demo_patch) (ap_new_text demo_patch)
      (if present (w_fs demo_world !! ([$"ws"] ++ [$"a.txt"]))
       then Some (ap_old_text demo_patch) else None) w1 = (Ok out', w2) /\
    w_fs w2 = w_fs demo_world.
Proof.
  apply (@rollback_restores quiet_disk demo_reg (fun _ => eq_refl) demo_patch [$"ws"] $"a.txt" [$"ws"] demo_world demo_lands);
    vm_compute; reflexivity.
Defined.

(** A workspace that came with a link under the temporary name. *)
Definition trap_fs : FileSystem :=
  <[[$"ws"; $".a.txt.xcoding.tmp"] := Symlink $"/etc/passwd"]> demo_fs.

(** The temporary file is opened through a symbolic link of that name: in a workspace
    that contains [.a.txt.xcoding.tmp] as a link to a file elsewhere, a patch to
    [a.txt] writes the new text to that file and leaves the link in its place. *)
Theorem temporary_link_escapes :
  let (r, w') := apply_patch demo_reg demo_patch (mkWorld trap_fs 0 []) in
  is_ok r = true /\
  w_fs w' !! [$"etc"; $"passwd"] = Some (File (Utf8 $"new")) /\
  w_fs w' !! [$"ws"; $"a.txt"] = Some (Symlink $"/etc/passwd").
Proof. vm_compute. auto. Qed.
