(* ===== verification/ToolGit.v ===== *)
(** * The git tools (crates/xcoding-tools/src/lib.rs)

    The tools that call the program [git], which is a parameter: what it prints, its
    exit code and the tree that it leaves are the class [Git].  Every call is recorded
    among the started processes, so that the theorems speak of what git is asked. *)

From S2P Require Import Prelude.
From S2P Require Import Protocol.
From S2P Require Import Transcript.
From S2P Require Import Text.
From S2P Require Import Files.
From S2P Require Import ToolArgs.
From S2P Require Import ToolText.
From S2P Require Import Tools.

Record GitOutput := mkGitOutput {
  go_success : bool;
  go_code : option Z;
  go_stdout : str;
  go_stderr : str;
  go_fs : FileSystem;
}.

(** [git] with arguments, in the workspace. *)
Class Git := run_git : list (list N) -> FileSystem -> result GitOutput IoError.

(** [format!("{:?}", code)] *)
Definition show_Z (z : Z) : str :=
  if (z <? 0)%Z then $"-" ++ show_N (Z.abs_N z) else show_N (Z.abs_N z).
Definition show_code (code : option Z) : str :=
  match code with Some z => $"Some(" ++ show_Z z ++ $")" | None => $"None" end.

Section GitTools.
Context `{Git} `{JsonText}.
Variable reg : ToolRegistry.

(** [Command::output] *)
Definition git_output (args : list str) : T GitOutput := fun w =>
  match run_git args (w_fs w) with
  | Ok o => (Ok o, set_fs (go_fs o)
              (log_spawn (mkSpawn (ByName $"git") args (tr_workspace_root reg) false) w))
  | Err e => (Err (ToolIo e), w)
  end.

(** [args.path.as_deref().filter(|value| !value.trim().is_empty())], and its check. *)
Definition pathspec_of (path : option str) : option str :=
  match path with Some p => if is_empty (trim p) then None else Some p | None => None end.
Definition check_pathspec (pathspec : option str) : T unit :=
  match pathspec with
  | Some path => let* _ := of_result (checked_relative_path path) in tret tt
  | None => tret tt
  end.
Definition pathspec_args (pathspec : option str) : list str :=
  match pathspec with Some path => [$"--"; path] | None => [] end.

(** The error of [status], [log], [show], [add] and [commit]. *)
Definition git_failure (name : str) (o : GitOutput) : ToolError :=
  InvalidCommand
    (if is_empty (trim (go_stderr o))
     then $"git " ++ name ++ $" failed with exit code " ++ show_code (go_code o)
     else truncate_output (go_stderr o)).
(** The error of [push], [fetch] and [pull]. *)
Definition git_remote_failure (name : str) (o : GitOutput) : ToolError :=
  InvalidCommand
    (if negb (is_empty (trim (go_stderr o))) then truncate_output (trim (go_stderr o))
     else if negb (is_empty (trim (go_stdout o))) then truncate_output (trim (go_stdout o))
     else $"git " ++ name ++ $" failed with exit code " ++ show_code (go_code o)).

(** The slice of a line of [git status] stays within its ASCII prefix; a panic is
    outside the model. *)
Definition git_status (args : GitStatusArgs) : T ToolExecution :=
  let pathspec := pathspec_of (gs_path args) in
  check_pathspec pathspec ;;*
  let* output := git_output ([$"status"; $"--porcelain=v1"; $"--branch";
                              $"--untracked-files=normal"] ++ pathspec_args pathspec) in
  if negb (go_success output) then terr (git_failure $"status" output)
  else
    let entries := or_else (parse_git_status_lines (go_stdout output)) [] in
    let branch := head (omap (fun entry => json_get $"branch" entry ≫= as_str) entries) in
    let (entries, truncated) := cap_json_items (fun v => v) entries in
    let shown := or_else pathspec $"." in
    tret (mkToolExecution
      (JObject [($"path", JString shown); ($"branch", json_opt_str branch);
                ($"entries", JArray entries); ($"truncated", JBool truncated);
                ($"raw", JString (truncate_output (go_stdout output)))])
      ($"Git status for " ++ shown)).

Definition git_diff (args : GitDiffArgs) : T ToolExecution :=
  let pathspec := pathspec_of (gd_path args) in
  check_pathspec pathspec ;;*
  let* staged := git_output ([$"diff"; $"--cached"; $"--no-ext-diff"; $"--no-color"]
                             ++ pathspec_args pathspec) in
  let* unstaged := git_output ([$"diff"; $"--no-ext-diff"; $"--no-color"]
                               ++ pathspec_args pathspec) in
  if negb (go_success staged) || negb (go_success unstaged) then
    let stderr := go_stderr staged ++ [LF] ++ go_stderr unstaged in
    terr (InvalidCommand (if is_empty (trim stderr) then $"git diff failed"
                          else truncate_output (trim stderr)))
  else
    let shown := or_else pathspec $"." in
    tret (mkToolExecution
      (JObject [($"path", JString shown);
                ($"staged", JString (truncate_output (go_stdout staged)));
                ($"unstaged", JString (truncate_output (go_stdout unstaged)))])
      ($"Git diff for " ++ shown)).

Definition LOG_FORMAT : str :=
  $"--pretty=format:%H%x00%h%x00%an%x00%ae%x00%aI%x00%s%x00%b%x1e".
Definition SHOW_FORMAT : str :=
  $"--pretty=format:%H%x00%h%x00%an%x00%ae%x00%aI%x00%s%x00%b%x00".

Definition git_log (args : GitLogArgs) : T ToolExecution :=
  let pathspec := pathspec_of (gl_path args) in
  check_pathspec pathspec ;;*
  let max_count := bounded (gl_max_count args) DEFAULT_GIT_LOG_COUNT MAX_GIT_LOG_COUNT in
  let* output := git_output ([$"log"; $"--max-count=" ++ show_N max_count; LOG_FORMAT]
                             ++ pathspec_args pathspec) in
  if negb (go_success output) then terr (git_failure $"log" output)
  else
    let commits := parse_git_log_records (go_stdout output) in
    let shown := or_else pathspec $"." in
    tret (mkToolExecution
      (JObject [($"path", JString shown); ($"max_count", json_N max_count);
                ($"commits", JArray commits);
                ($"raw", JString (truncate_output (format_git_log_raw commits)))])
      ($"Git log (" ++ show_nat (length commits) ++ $" commit"
       ++ (if length commits =? 1 then [] else $"s") ++ $") for " ++ shown)).

Definition meta_field (key : str) (meta : list (str * Value)) : Value :=
  or_else (json_get key (JObject meta)) JNull.

Definition git_show (args : GitShowArgs) : T ToolExecution :=
  let revision := trim (gw_revision args) in
  if is_empty revision then terr (InvalidArguments $"revision must not be empty")
  else if starts_with $"-" revision then
    terr (InvalidArguments $"revision must not start with '-'")
  else
    let pathspec := pathspec_of (gw_path args) in
    check_pathspec pathspec ;;*
    let* output := git_output ([$"show"; $"--no-color"; $"--no-ext-diff"; SHOW_FORMAT; revision]
                               ++ pathspec_args pathspec) in
    if negb (go_success output) then terr (git_failure $"show" output)
    else
      let (meta, patch) := parse_git_show_output (go_stdout output) in
      tret (mkToolExecution
        (JObject ([($"revision", JString revision); ($"path", json_opt_str pathspec)]
          ++ map (fun key => (key, meta_field key meta))
               [$"hash"; $"short_hash"; $"author"; $"email"; $"date"; $"subject"; $"body"]
          ++ [($"patch", JString (truncate_output patch));
              ($"raw", JString (truncate_output (go_stdout output)))]))
        ($"Git show " ++ revision
         ++ match pathspec with Some path => $" -- " ++ path | None => [] end)).

(** [relative.display()] is the trimmed path. *)
Fixpoint check_add_paths (paths : list str) : result (list str) ToolError :=
  match paths with
  | [] => Ok []
  | path :: r =>
    let trimmed := trim path in
    if is_empty trimmed then Err (InvalidArguments $"paths must not contain empty entries")
    else
      let? relative := checked_relative_path trimmed in
      if is_high_risk_path trimmed then
        Err (InvalidArguments ($"refusing to stage high-risk path: " ++ trimmed))
      else let? rest := check_add_paths r in Ok (relative :: rest)
  end.

Definition plural (n : nat) : str := if n =? 1 then [] else $"s".

Definition git_add (args : GitAddArgs) : T ToolExecution :=
  if is_empty (ga_paths args) then terr (InvalidArguments $"paths must not be empty")
  else
    let* normalized := of_result (check_add_paths (ga_paths args)) in
    let* output := git_output ([$"add"; $"--"] ++ normalized) in
    if negb (go_success output) then terr (git_failure $"add" output)
    else tret (mkToolExecution
      (JObject [($"paths", JArray (map JString normalized)); ($"success", JBool true);
                ($"stdout", JString (truncate_output (go_stdout output)));
                ($"stderr", JString (truncate_output (go_stderr output)))])
      ($"Staged " ++ show_nat (length normalized) ++ $" path" ++ plural (length normalized))).

Definition git_rev_parse_head : T str :=
  let* output := git_output [$"rev-parse"; $"HEAD"] in
  if negb (go_success output) then
    terr (InvalidCommand $"git rev-parse HEAD failed after commit")
  else tret (trim (go_stdout output)).

Definition current_branch_name : T str :=
  let* output := git_output [$"rev-parse"; $"--abbrev-ref"; $"HEAD"] in
  if negb (go_success output) then
    terr (InvalidCommand (if is_empty (trim (go_stderr output))
                          then $"failed to resolve current branch"
                          else truncate_output (trim (go_stderr output))))
  else
    let branch := trim (go_stdout output) in
    if is_empty branch || (branch =s $"HEAD") then
      terr (InvalidArguments $"detached HEAD: pass branch explicitly")
    else
      of_result (validate_git_name $"branch" branch) ;;*
      tret branch.

Definition git_commit (args : GitCommitArgs) : T ToolExecution :=
  let message := trim (gc_message args) in
  if is_empty message then terr (InvalidArguments $"message must not be empty")
  else
    let allow_empty := or_else (gc_allow_empty args) false in
    let* output := git_output ([$"commit"; $"-m"; message]
                               ++ if allow_empty then [$"--allow-empty"] else []) in
    if negb (go_success output) then terr (git_failure $"commit" output)
    else
      let* hash := try_ok git_rev_parse_head in
      let subject := or_else (head (lines message)) message in
      tret (mkToolExecution
        (JObject [($"message", JString message); ($"subject", JString subject);
                  ($"hash", json_opt_str hash); ($"allow_empty", JBool allow_empty);
                  ($"stdout", JString (truncate_output (go_stdout output)));
                  ($"stderr", JString (truncate_output (go_stderr output)))])
        match hash with
        | Some value =>
          if 7 <=? byte_len value
          then $"Committed " ++ byte_prefix 7 value ++ $" (" ++ subject ++ $")"
          else $"Committed " ++ value ++ $" (" ++ subject ++ $")"
        | None => $"Committed (" ++ subject ++ $")"
        end).

(** [as_deref().map(str::trim).filter(|value| !value.is_empty())] *)
Definition given_name (o : option str) : option str :=
  match o with
  | Some s => let t := trim s in if is_empty t then None else Some t
  | None => None
  end.

Definition remote_of (o : option str) : T str :=
  let remote := or_else (given_name o) $"origin" in
  of_result (validate_git_name $"remote" remote) ;;*
  tret remote.

(** The named branch, checked, or the current one. *)
Definition branch_or_current (o : option str) : T str :=
  match given_name o with
  | Some branch => of_result (validate_git_name $"branch" branch) ;;* tret branch
  | None => current_branch_name
  end.

Definition stdio_fields (output : GitOutput) : list (str * Value) :=
  [($"success", JBool true); ($"stdout", JString (truncate_output (go_stdout output)));
   ($"stderr", JString (truncate_output (go_stderr output)))].

Definition git_push (args : GitPushArgs) : T ToolExecution :=
  let* remote := remote_of (gp_remote args) in
  let set_upstream := or_else (gp_set_upstream args) false in
  let* branch := branch_or_current (gp_branch args) in
  let* output := git_output ([$"push"] ++ (if set_upstream then [$"--set-upstream"] else [])
                             ++ [remote; branch]) in
  if negb (go_success output) then terr (git_remote_failure $"push" output)
  else
    let* head_ := try_ok git_rev_parse_head in
    tret (mkToolExecution
      (JObject ([($"remote", JString remote); ($"branch", JString branch);
                 ($"set_upstream", JBool set_upstream); ($"head", json_opt_str head_)]
                ++ stdio_fields output))
      ($"Pushed " ++ branch ++ $" to " ++ remote
       ++ if set_upstream then $" (set upstream)" else [])).

Definition git_fetch (args : GitFetchArgs) : T ToolExecution :=
  let* remote := remote_of (gf_remote args) in
  let* branch :=
    match given_name (gf_branch args) with
    | Some value => of_result (validate_git_name $"branch" value) ;;* tret (Some value)
    | None => tret None
    end in
  let* output := git_output ([$"fetch"; remote]
                             ++ match branch with Some b => [b] | None => [] end) in
  if negb (go_success output) then terr (git_remote_failure $"fetch" output)
  else
    tret (mkToolExecution
      (JObject ([($"remote", JString remote); ($"branch", json_opt_str branch)]
                ++ stdio_fields output))
      match branch with
      | Some b => $"Fetched " ++ b ++ $" from " ++ remote
      | None => $"Fetched from " ++ remote
      end).

Definition git_pull (args : GitPullArgs) : T ToolExecution :=
  let* remote := remote_of (gl_remote args) in
  let ff_only := or_else (gl_ff_only args) true in
  let* branch := branch_or_current (gl_branch args) in
  let* output := git_output [$"pull"; if ff_only then $"--ff-only" else $"--no-rebase";
                             remote; branch] in
  if negb (go_success output) then terr (git_remote_failure $"pull" output)
  else
    let* head_ := try_ok git_rev_parse_head in
    tret (mkToolExecution
      (JObject ([($"remote", JString remote); ($"branch", JString branch);
                 ($"ff_only", JBool ff_only); ($"head", json_opt_str head_)]
                ++ stdio_fields output))
      ($"Pulled " ++ branch ++ $" from " ++ remote
       ++ if ff_only then $" (ff-only)" else $" (no-rebase)")).
End GitTools.
