(* ===== verification/ToolCommand.v ===== *)
(** * Commands (crates/xcoding-tools/src/lib.rs)

    [run_command]: the checks before a process is started, a background launch with
    its log and port, and a foreground process that is polled until it exits, is
    cancelled or has used up its time.  The process, the clock and the caller's wish to
    cancel are the class [Child]; [ChildOk] states that a sleep lasts as long as asked. *)

From S2P Require Import Prelude.
From S2P Require Import Protocol.
From S2P Require Import Policy.
From S2P Require Import Text.
From S2P Require Import Files.
From S2P Require Import ToolArgs.
From S2P Require Import ToolText.
From S2P Require Import Tools.
From S2P Require Import ToolGit.

Record ExitStatus := mkExit { es_success : bool; es_code : option Z }.

(** What is observed of a process.  Rounds and readings of a loop count from 0; times
    are in milliseconds. *)
Class Child := {
  spawn_child : Spawn -> FileSystem -> result N IoError;      (** its pid *)
  child_effect : Spawn -> FileSystem -> FileSystem;           (** what it does to the tree *)
  cancelled_at : Spawn -> nat -> bool;                        (** [is_cancelled()] *)
  try_wait_at : Spawn -> nat -> result (option ExitStatus) IoError;
  wait_killed : Spawn -> result ExitStatus IoError;           (** [wait] after [kill] *)
  now_at : Spawn -> nat -> N;                                 (** [Instant::now()] *)
  child_stdout : Spawn -> str;
  child_stderr : Spawn -> str;
  startup_wait : Spawn -> result (option ExitStatus) IoError; (** [try_wait] after the probe *)
  connects_at : Spawn -> nat -> bool;                         (** [connect_timeout().is_ok()] *)
  launch_stamp : N;
  log_text : N -> str;                                        (** a log that is not UTF-8 *)
}.

Definition POLL_INTERVAL : N := 50.
Definition READY_PROBE_INTERVAL : N := 250.

Section Supervise.
Context `{Child}.
Variable sp : Spawn.

(** The end of the foreground loop. *)
Inductive Waited :=
| Exited (status : ExitStatus) (timed_out : bool)
| WaitCancelled
| WaitFailed (e : IoError)
| StillRunning.

(** One round per unit of fuel; [now_at sp 0] was read before the loop. *)
Fixpoint supervise (fuel round : nat) (deadline : N) : Waited :=
  match fuel with
  | 0 => StillRunning
  | S f =>
    if cancelled_at sp round then WaitCancelled
    else match try_wait_at sp round with
         | Err e => WaitFailed e
         | Ok (Some status) => Exited status false
         | Ok None =>
           if (deadline <=? now_at sp (S round))%N then
             match wait_killed sp with
             | Ok status => Exited status true
             | Err e => WaitFailed e
             end
           else supervise f (S round) deadline
         end
  end.

Definition rounds_for (timeout_ms interval : N) : nat := N.to_nat (timeout_ms / interval) + 2.

Definition wait_child (timeout_ms : N) : Waited :=
  supervise (rounds_for timeout_ms POLL_INTERVAL) 0 (now_at sp 0 + timeout_ms)%N.

Inductive PortReadyOutcome :=
| Ready (waited : N)
| PortExited (status : ExitStatus)
| PortTimedOut
| PortCancelled
| PortFailed (e : IoError)
| PortPending.

Fixpoint await_port (fuel round : nat) (deadline : N) : PortReadyOutcome :=
  match fuel with
  | 0 => PortPending
  | S f =>
    if cancelled_at sp round then PortCancelled
    else if connects_at sp round then Ready (now_at sp (S round) - now_at sp 0)%N
    else match try_wait_at sp round with
         | Err e => PortFailed e
         | Ok (Some status) => PortExited status
         | Ok None =>
           if (deadline <=? now_at sp (S round))%N then PortTimedOut
           else await_port f (S round) deadline
         end
  end.

Definition await_port_ready (timeout_ms : N) : PortReadyOutcome :=
  await_port (rounds_for timeout_ms READY_PROBE_INTERVAL) 0 (now_at sp 0 + timeout_ms)%N.
End Supervise.

(** [thread::sleep] lasts at least as long as asked, and the clock does not go back. *)
Class ChildOk `{Child} := {
  clock_starts : forall sp, (now_at sp 0 <= now_at sp 1)%N;
  poll_sleeps : forall sp k, sp_background sp = false ->
    (now_at sp (S k) + POLL_INTERVAL <= now_at sp (S (S k)))%N;
  probe_sleeps : forall sp k, sp_background sp = true ->
    (now_at sp (S k) + READY_PROBE_INTERVAL <= now_at sp (S (S k)))%N;
}.

(** ** Logs of background launches *)

Definition BACKGROUND_LOG_DIR : str := $".xcoding/logs".
Definition BACKGROUND_LOG_TAIL_BYTES : N := 8 * 1024.

(** [String::from_utf8_lossy] of a text without its first [n] bytes: the bytes that are
    left of a cut character become one replacement character each. *)
Fixpoint lossy_suffix (n : N) (s : str) : str :=
  match s with
  | [] => []
  | c :: r =>
    let k := N.of_nat (length (utf8_char c)) in
    if (k <=? n)%N then lossy_suffix (n - k) r
    else if (n =? 0)%N then s
    else repeat 65533%N (N.to_nat (k - n)) ++ r
  end.

Definition tail_text (s : str) (limit : N) : str :=
  if (limit <? blen s)%N then lossy_suffix (blen s - limit) s else s.

Definition is_log_char (c : char) : bool :=
  is_ascii_alphanumeric c || (c =? DASH)%N || (c =? 95)%N.

(** The name of a log, from the last part of the program's name. *)
Definition log_stem (executable : str) : str :=
  let stem := first_part (N.eqb 46%N) (last_part is_slash executable) in
  let safe := map (fun c => if is_log_char c then c else DASH) stem in
  if is_empty (trim_matches (N.eqb DASH) safe) then $"command" else safe.

Section Command.
Context `{Disk} `{Child} `{IoText}.
Variable reg : ToolRegistry.
Local Abbreviation root := (tr_workspace_root reg).

Definition background_log_path (executable : str) : T apath :=
  let directory := join_path root BACKGROUND_LOG_DIR in
  of_io (create_dir_all directory) ;;*
  tret (directory ++ [log_stem executable ++ $"-" ++ show_N launch_stamp ++ $".log"]).

(** An unreadable log reads as empty. *)
Definition read_tail (path : apath) (limit : N) : T str :=
  let* text := of_io (look (fun fs =>
    match stat fs path with
    | Some (File (Utf8 s)) => tail_text s limit
    | Some (File (NotUtf8 n)) => log_text n
    | _ => []
    end)) in
  tret (truncate_output (redact_log_text text)).

(** ** Paths in the arguments of git *)

(** The paths after [-C], [--git-dir] and [--work-tree]. *)
Fixpoint git_option_paths (args : list str) : list str :=
  match args with
  | [] => []
  | arg :: r =>
    if one_of arg [$"-C"; $"--git-dir"; $"--work-tree"] then
      match r with
      | path :: r' => path :: git_option_paths r'
      | [] => []
      end
    else match strip_prefix $"--git-dir=" arg <||> strip_prefix $"--work-tree=" arg with
         | Some path => path :: git_option_paths r
         | None => git_option_paths r
         end
  end.

Fixpoint resolve_all (paths : list str) : T unit :=
  match paths with
  | [] => tret tt
  | path :: r => let* _ := resolve reg path in resolve_all r
  end.

Definition validate_git_command_paths (executable : str) (args : list str) (cwd : option str)
  : T unit :=
  if negb (eq_ignore_ascii_case executable $"git") then tret tt
  else
    match cwd with
    | Some path => let* _ := resolve reg path in tret tt
    | None => tret tt
    end ;;*
    resolve_all (git_option_paths args).

(** ** [run_command] *)

Definition check_command (args : RunCommandArgs) : T CommandAssessment :=
  let assessment := assess_command_with_lists (rc_executable args) (rc_args args)
                      (tr_command_allowlist reg) (tr_command_denylist reg) in
  if decide (decision assessment = Deny) then
    terr (CommandPolicyDenied (code_as_str (code assessment)) (reason assessment))
  else
    validate_git_command_paths (rc_executable args) (rc_args args) (rc_cwd args) ;;*
    tret assessment.

Definition working_directory (args : RunCommandArgs) : T apath :=
  match rc_cwd args with
  | Some requested =>
    let* resolved := resolve reg requested in
    let* is_dir := of_io (look (fun fs => path_is_dir fs resolved)) in
    if negb is_dir then terr (NotDirectory (relative_path root resolved)) else tret resolved
  | None => tret root
  end.

(** [Command::spawn], with the effect of the process on the tree. *)
Definition start (sp : Spawn) : T N := fun w =>
  match spawn_child sp (w_fs w) with
  | Err e => (Err (ToolIo e), w)
  | Ok pid => (Ok pid, set_fs (child_effect sp (w_fs w)) (log_spawn sp w))
  end.

Definition command_fields (args : RunCommandArgs) (cwd : str) (success : bool)
  : list (str * Value) :=
  [($"executable", JString (rc_executable args)); ($"args", JArray (map JString (rc_args args)));
   ($"cwd", JString cwd); ($"success", JBool success)].
Definition json_code (code : option Z) : Value :=
  match code with Some z => JInt z | None => JNull end.

Definition run_background (args : RunCommandArgs) (program : Program) (working_dir : apath)
  : T ToolExecution :=
  let cwd := relative_path root working_dir in
  let* log_path := background_log_path (rc_executable args) in
  let* _ := of_io (file_create log_path) in
  let log := relative_path root log_path in
  let sp := mkSpawn program (rc_args args) working_dir true in
  let* pid := start sp in
  let* early := of_result (match startup_wait sp with Ok o => Ok o | Err e => Err (ToolIo e) end) in
  match early with
  | Some status =>
    let* log_tail := read_tail log_path BACKGROUND_LOG_TAIL_BYTES in
    tret (mkToolExecution
      (JObject (command_fields args cwd false
        ++ [($"background", JBool true); ($"exited_immediately", JBool true);
            ($"exit_code", json_code (es_code status)); ($"log_path", JString log);
            ($"log_tail", JString log_tail)]))
      ($"Exited immediately with code " ++ show_code (es_code status) ++ $"; output in " ++ log))
  | None =>
    match rc_ready_port args with
    | None =>
      tret (mkToolExecution
        (JObject (command_fields args cwd true
          ++ [($"background", JBool true); ($"exited_immediately", JBool false);
              ($"pid", json_N pid); ($"ready", JNull); ($"log_path", JString log)]))
        ($"Started in background with pid " ++ show_N pid ++ $"; output in " ++ log))
    | Some port =>
      let timeout := effective_ready_timeout args in
      let url := $"http://127.0.0.1:" ++ show_N port in
      match await_port_ready sp (timeout * 1000) with
      | PortCancelled => terr ToolCancelled
      | PortFailed e => terr (ToolIo e)
      | Ready waited =>
        tret (mkToolExecution
          (JObject (command_fields args cwd true
            ++ [($"background", JBool true); ($"exited_immediately", JBool false);
                ($"pid", json_N pid); ($"ready", JBool true); ($"ready_port", json_N port);
                ($"url", JString url); ($"waited_ms", json_N waited);
                ($"log_path", JString log)]))
          ($"Service ready on " ++ url ++ $" with pid " ++ show_N pid))
      | PortExited status =>
        let* log_tail := read_tail log_path BACKGROUND_LOG_TAIL_BYTES in
        tret (mkToolExecution
          (JObject (command_fields args cwd false
            ++ [($"background", JBool true); ($"exited_immediately", JBool true);
                ($"exit_code", json_code (es_code status)); ($"ready", JBool false);
                ($"ready_port", json_N port); ($"log_path", JString log);
                ($"log_tail", JString log_tail)]))
          ($"Died before listening on port " ++ show_N port ++ $" with code "
           ++ show_code (es_code status) ++ $"; output in " ++ log))
      | PortTimedOut | PortPending =>
        let* log_tail := read_tail log_path BACKGROUND_LOG_TAIL_BYTES in
        tret (mkToolExecution
          (JObject (command_fields args cwd false
            ++ [($"background", JBool true); ($"exited_immediately", JBool false);
                ($"pid", json_N pid); ($"ready", JBool false); ($"ready_port", json_N port);
                ($"ready_timed_out", JBool true); ($"waited_ms", json_N (timeout * 1000));
                ($"log_path", JString log); ($"log_tail", JString log_tail)]))
          ($"Still not listening on port " ++ show_N port ++ $" after " ++ show_N timeout
           ++ $"s with pid " ++ show_N pid ++ $"; output in " ++ log))
      end
    end
  end.

(** [StillRunning] is unreachable with the fuel of [wait_child]. *)
Definition run_foreground (args : RunCommandArgs) (program : Program) (working_dir : apath)
  : T ToolExecution :=
  let cwd := relative_path root working_dir in
  let sp := mkSpawn program (rc_args args) working_dir false in
  let* _ := start sp in
  let timeout := effective_timeout args in
  match wait_child sp (timeout * 1000) with
  | WaitCancelled => terr ToolCancelled
  | WaitFailed e => terr (ToolIo e)
  | StillRunning => terr (ToolIo Refused)
  | Exited status timed_out =>
    let success := es_success status && negb timed_out in
    tret (mkToolExecution
      (JObject (command_fields args cwd success
        ++ [($"exit_code", json_code (es_code status));
            ($"stdout", JString (truncate_output (child_stdout sp)));
            ($"stderr", JString (truncate_output (child_stderr sp)));
            ($"timed_out", JBool timed_out)]))
      (if timed_out
       then $"Command timed out after " ++ show_N timeout ++ $"s and was terminated"
       else if success then $"Command completed" else $"Command failed"))
  end.

Definition run_command (args : RunCommandArgs) : T ToolExecution :=
  let* _ := check_command args in
  let* program := resolve_executable reg (rc_executable args) in
  let* working_dir := working_directory args in
  if rc_background args then run_background args program working_dir
  else run_foreground args program working_dir.
End Command.
