(* ===== verification/ToolSearch.v ===== *)
(** * Search in the workspace (crates/xcoding-tools/src/lib.rs)

    [search_code]: a breadth-first walk over the directories, a scan of every text
    file line by line with a window of context, and the ranking of the hits. *)

From S2P Require Import Prelude.
From S2P Require Import Protocol.
From S2P Require Import Sql.
From S2P Require Import Transcript.
From S2P Require Import Text.
From S2P Require Import Files.
From S2P Require Import ToolArgs.
From S2P Require Import ToolText.
From S2P Require Import Tools.

Record SearchResult := mkSearchResult {
  sr_path : str; sr_line : nat; sr_text : str; sr_before : list str; sr_after : list str }.
Record RankedSearchHit := mkHit { rh_score : Z; rh_result : SearchResult }.

(** Serialized: empty context is left out. *)
Definition search_value (r : SearchResult) : Value :=
  JObject ([($"path", JString (sr_path r)); ($"line", JInt (Z.of_nat (sr_line r)));
            ($"text", JString (sr_text r))]
    ++ (if is_empty (sr_before r) then [] else [($"before", JArray (map JString (sr_before r)))])
    ++ (if is_empty (sr_after r) then [] else [($"after", JArray (map JString (sr_after r)))])).

(** ** One file *)

(** The lines that [read_line] delivers: a line end, with a carriage return before it,
    is stripped; so is a carriage return at the end of the file. *)
Fixpoint read_pieces (ws : list str) : list str :=
  match ws with
  | [] => []
  | [w] => if is_empty w then [] else [strip_cr w]
  | w :: r => strip_cr w :: read_pieces r
  end.
Definition read_lines (s : str) : list str := read_pieces (split_on (N.eqb LF) s).

Record Scan := mkScan {
  sn_line : nat;                            (** [line_number] *)
  sn_previous : list str;                   (** [previous_lines] *)
  sn_pending : list (SearchResult * nat);   (** [pending_hits] *)
  sn_hits : list SearchResult;              (** [file_hits] *)
}.

Definition push_after (line : str) (p : SearchResult * nat) : SearchResult * nat :=
  let (r, remaining) := p in
  (mkSearchResult (sr_path r) (sr_line r) (sr_text r) (sr_before r) (sr_after r ++ [line]),
   remaining - 1).

Definition is_complete (p : SearchResult * nat) : bool := snd p =? 0.

Section ScanFile.
Variable matched : str -> bool.
Variable relative : str.
Variable context_lines remaining_capacity : nat.

(** The body of the loop for one line. *)
Definition scan_line (st : Scan) (line : str) : Scan :=
  let line_number := S (sn_line st) in
  let advanced := map (push_after line) (sn_pending st) in
  let file_hits := sn_hits st ++ map fst (List.filter is_complete advanced) in
  let pending := List.filter (fun p => negb (is_complete p)) advanced in
  let room := length file_hits + length pending <? remaining_capacity in
  let result := mkSearchResult relative line_number line (sn_previous st) [] in
  let '(file_hits, pending) :=
    if matched line && room
    then if context_lines =? 0 then (file_hits ++ [result], pending)
         else (file_hits, pending ++ [(result, context_lines)])
    else (file_hits, pending) in
  let previous :=
    if 0 <? context_lines
    then (if length (sn_previous st) =? context_lines then tl (sn_previous st)
          else sn_previous st) ++ [line]
    else sn_previous st in
  mkScan line_number previous pending file_hits.

Definition scan_full (st : Scan) : bool :=
  (remaining_capacity <=? length (sn_hits st)) && is_empty (sn_pending st).

Fixpoint scan_loop (st : Scan) (ls : list str) : Scan :=
  match ls with
  | [] => st
  | line :: r => let st' := scan_line st line in
                 if scan_full st' then st' else scan_loop st' r
  end.

Definition scan_start : Scan := mkScan 0 [] [] [].

(** The hits of a file, those whose context the file cuts short last. *)
Definition scan_file (ls : list str) : list SearchResult :=
  let st := scan_loop scan_start ls in
  sn_hits st ++ map fst (sn_pending st).

(** Whether the loop breaks because the capacity is used up. *)
Definition scan_breaks (ls : list str) : bool :=
  negb (is_empty ls) && scan_full (scan_loop scan_start ls).

(** How many lines the loop reads. *)
Fixpoint lines_read (st : Scan) (ls : list str) : nat :=
  match ls with
  | [] => 0
  | line :: r => let st' := scan_line st line in
                 if scan_full st' then 1 else S (lines_read st' r)
  end.
End ScanFile.

(** ** The walk *)

(** [elapsed_ms] of the call, the whole lines that a file that is not UTF-8 has before
    its first invalid line, and the text that [{:?}] gives for a string. *)
Class Stopwatch := {
  elapsed_ms : N; text_before_error : N -> list N; debug_text : list N -> list N }.

Record Walk := mkWalk {
  wk_candidates : list RankedSearchHit;
  wk_directories : N;
  wk_files : N;
  wk_bytes : N;
}.

(** Bytes of the first [n] lines of a text, line ends included. *)
Definition bytes_of_lines (n : nat) (s : str) : N :=
  let pieces := split_on (N.eqb LF) s in
  if length pieces <=? n then blen s
  else (blen (join [LF] (take n pieces)) + 1)%N.

Section Search.
Context `{Disk} `{UnicodeCase} `{JsonText} `{Stopwatch}.
Variable reg : ToolRegistry.
Local Abbreviation root := (tr_workspace_root reg).

Record Query := mkQuery {
  q_matched : str -> bool; q_glob : option str; q_case_insensitive : bool;
  q_context : nat; q_cap : nat }.

Definition glob_admits (q : Query) (relative : str) : bool :=
  match q_glob q with
  | Some pattern => path_matches_glob relative pattern (q_case_insensitive q)
  | None => true
  end.

(** The text that [read_line] delivers before the end or an error. *)
Definition readable (c : Content) : str :=
  match c with Utf8 s => s | NotUtf8 size => text_before_error size end.

(** One entry of a directory: the directories to visit, and the state of the walk. *)
Definition visit_entry (q : Query) (dir : apath) (e : str * Node) (wk : Walk)
  : list apath * Walk :=
  let path := dir ++ [fst e] in
  match snd e with
  | Symlink _ | Special => ([], wk)
  | Directory => (if is_ignored_directory (fst e) then [] else [path], wk)
  | File c =>
    let relative := relative_path root path in
    if (MAX_SEARCH_FILE_BYTES <? content_len c)%N then ([], wk)
    else if negb (glob_admits q relative) then ([], wk)
    else if is_low_value_search_file relative then ([], wk)
    else
      let ls := read_lines (readable c) in
      let capacity := q_cap q - length (wk_candidates wk) in
      let read_succeeded :=
        match c with
        | Utf8 _ => true
        | NotUtf8 _ => scan_breaks (q_matched q) relative (q_context q) capacity ls
        end in
      let hits := if read_succeeded
                  then scan_file (q_matched q) relative (q_context q) capacity ls else [] in
      let read := lines_read (q_matched q) relative (q_context q) capacity scan_start ls in
      ([], mkWalk (wk_candidates wk ++ map (mkHit (path_rank_score relative)) hits)
             (wk_directories wk) (wk_files wk + 1)%N
             (wk_bytes wk + bytes_of_lines read (readable c))%N)
  end.

(** The entries of a directory; [true] for [break 'walk]. *)
Fixpoint visit_entries (q : Query) (dir : apath) (es : list (str * Node)) (wk : Walk)
  : list apath * Walk * bool :=
  match es with
  | [] => ([], wk, false)
  | e :: r =>
    let (dirs, wk1) := visit_entry q dir e wk in
    if (match snd e with File _ => true | _ => false end)
       && (q_cap q <=? length (wk_candidates wk1)) then (dirs, wk1, true)
    else let '(more, wk2, stop) := visit_entries q dir r wk1 in (dirs ++ more, wk2, stop)
  end.

(** The queue of directories.  [None] when the fuel ends before the queue. *)
Fixpoint walk_loop (fuel : nat) (q : Query) (pending : list apath) (wk : Walk)
  : T (option Walk) :=
  match pending with
  | [] => tret (Some wk)
  | dir :: rest =>
    match fuel with
    | 0 => tret None
    | S f =>
      let wk := mkWalk (wk_candidates wk) (wk_directories wk + 1)%N (wk_files wk) (wk_bytes wk) in
      let* es := of_io (read_dir dir) in
      let '(dirs, wk', stop) := visit_entries q dir es wk in
      if stop then tret (Some wk') else walk_loop f q (rest ++ dirs) wk'
    end
  end.

(** By falling score, then path, then line. *)
Definition hit_le (a b : RankedSearchHit) : bool :=
  if (rh_score b <? rh_score a)%Z then true
  else if (rh_score a <? rh_score b)%Z then false
  else let pa := sr_path (rh_result a) in let pb := sr_path (rh_result b) in
       if str_ltb pa pb then true
       else if str_ltb pb pa then false
       else sr_line (rh_result a) <=? sr_line (rh_result b).

Definition search_query (args : SearchCodeArgs) (limit : N) : Query :=
  let query_cmp := if sc_case_insensitive args then to_lowercase (sc_query args)
                   else sc_query args in
  mkQuery
    (fun line => contains query_cmp
       (if sc_case_insensitive args then to_lowercase line else line))
    (match sc_glob args with
     | Some g => let t := trim g in if is_empty t then None else Some t
     | None => None
     end)
    (sc_case_insensitive args)
    (N.to_nat (N.min (or_else (sc_context_lines args) 0%N) MAX_SEARCH_CONTEXT_LINES))
    (N.to_nat (clamp limit MAX_SEARCH_CANDIDATES (N.min (limit * 5) USIZE_MAX))).

(** The ranked results within the limit and the budget, and whether any are left out. *)
Definition rank_results (limit : N) (cap : nat) (candidates : list RankedSearchHit)
  : list SearchResult * bool :=
  let sorted := order_by hit_le candidates in
  let over_limit := (cap <=? length candidates) || (limit <? N.of_nat (length candidates))%N in
  let (results, over_budget) :=
    cap_json_items search_value (map rh_result (take (N.to_nat limit) sorted)) in
  (results, over_limit || over_budget).

(** Fuel for the walk: every directory is visited at most once. *)
Definition walk_fuel (fs : FileSystem) : nat := S (size fs).

Definition search_code (args : SearchCodeArgs) : T ToolExecution :=
  if is_empty (trim (sc_query args)) then
    terr (InvalidArguments $"query must not be empty")
  else
    let* start := resolve reg (sc_path args) in
    let* is_dir := of_io (look (fun fs => path_is_dir fs start)) in
    if negb is_dir then terr (NotDirectory (relative_path root start))
    else
      let limit := bounded (sc_max_results args) DEFAULT_SEARCH_RESULTS MAX_SEARCH_RESULTS in
      let q := search_query args limit in
      if match q_glob q with
         | Some pattern => contains_char 91%N pattern || contains_char 93%N pattern
         | None => false
         end
      then terr (InvalidArguments $"glob character classes are not supported")
      else
        let* fuel := of_io (look walk_fuel) in
        let* walked := walk_loop fuel q [start] (mkWalk [] 0 0 0) in
        let wk := or_else walked (mkWalk [] 0 0 0) in
        let (results, truncated) := rank_results limit (q_cap q) (wk_candidates wk) in
        tret (mkToolExecution
          (JObject [($"results", JArray (map search_value results));
                    ($"truncated", JBool truncated);
                    ($"stats", JObject
                       [($"directories_scanned", json_N (wk_directories wk));
                        ($"files_scanned", json_N (wk_files wk));
                        ($"bytes_scanned", json_N (wk_bytes wk));
                        ($"elapsed_ms", json_N elapsed_ms)])])
          ($"Searched for " ++ debug_text (sc_query args))).
End Search.
