(* ===== verification/ToolGate.v ===== *)
(** * The gate in front of the tools (crates/xcoding-tools/src/lib.rs)

    [permission_for] gives what the policy needs to know of a call, [execute] runs a
    call only when the policy allows it, [execute_authorized] dispatches a call that has
    been allowed or approved. *)

From S2P Require Import Prelude.
From S2P Require Import Protocol.
From S2P Require Import Policy.
From S2P Require Import Transcript.
From S2P Require Import Text.
From S2P Require Import Files.
From S2P Require Import ToolArgs.
From S2P Require Import ToolText.
From S2P Require Import Tools.
From S2P Require Import ToolGit.
From S2P Require Import ToolCommand.
From S2P Require Import ToolSearch.

(** The embedded browser's state file and the user's skills are outside the workspace;
    [parse_json] is [serde_json::from_str]. *)
Class Home := {
  user_skill_root : list (list N);
  browser_state_path : list (list N);
  parse_json : list N -> option Value;
}.

Section Gate.
Context `{Disk} `{Child} `{Git} `{Serde} `{IoText} `{UnicodeCase} `{JsonText} `{Stopwatch} `{Home}.
Variable reg : ToolRegistry.

Definition permission_for (tool_call : ToolCall) : T (PermissionKind * bool * bool) :=
  match tc_name tool_call with
  | ListDir | ReadFile | SearchCode | LoadSkill | GitStatus | GitDiff | GitLog | GitShow
  | BrowserState | UpdatePlan | NewContext | HistoryList | HistoryRead | HistorySearch
  | NotesList | NotesRead | NotesSearch => tret (Read, false, false)
  | NotesAppend | NotesWrite => tret (Write, false, false)
  | GitAdd | GitCommit | GitPush | GitFetch | GitPull => tret (Write, true, false)
  | Mcp => tret (Exec, true, false)
  | ApplyPatch =>
    let* args := of_result (parse_arguments from_apply_patch (tc_arguments tool_call)) in
    tret (Write, is_high_risk_path (ap_path args), false)
  | RunCommand =>
    let* args := of_result (parse_arguments from_run_command (tc_arguments tool_call)) in
    let* assessment := check_command reg args in
    tret (Exec, high_risk assessment, allowlisted assessment)
  end.

Definition unavailable : ToolExecution :=
  mkToolExecution (JObject [($"available", JBool false)]) $"Embedded browser is not available".

Definition browser_state : T ToolExecution :=
  let* raw := try_ok (of_io (read_to_string browser_state_path)) in
  tret match raw ≫= parse_json with
  | None => unavailable
  | Some value =>
    if negb (or_else (json_get $"available" value ≫= as_bool) false) then unavailable
    else
      let url := str_field $"url" value in
      let title := str_field $"title" value in
      mkToolExecution
        (JObject [($"available", JBool true); ($"url", JString url); ($"title", JString title);
                  ($"visible", JBool (or_else (json_get $"visible" value ≫= as_bool) false));
                  ($"updated_at", or_else (json_get $"updated_at" value) JNull)])
        (if is_empty (trim url) then $"Embedded browser is available"
         else if is_empty (trim title) then $"Embedded browser at " ++ url
         else $"Embedded browser at " ++ url ++ $" (" ++ title ++ $")")
  end.

(** Decoding of the arguments, then the tool. *)
Definition with_args {A} (from_value : Value -> result A str) (tool_call : ToolCall)
    (run : A -> T ToolExecution) : T ToolExecution :=
  let* args := of_result (parse_arguments from_value (tc_arguments tool_call)) in run args.

Definition execute_authorized (tool_call : ToolCall) : T ToolExecution :=
  match tc_name tool_call with
  | ListDir => with_args from_list_dir tool_call (list_dir reg)
  | ReadFile => with_args from_read_file tool_call (read_file reg)
  | SearchCode => with_args from_search_code tool_call (search_code reg)
  | LoadSkill => with_args from_load_skill tool_call (load_skill reg user_skill_root)
  | ApplyPatch => with_args from_apply_patch tool_call (apply_patch reg)
  | RunCommand => with_args from_run_command tool_call (run_command reg)
  | GitStatus => with_args from_git_status tool_call (git_status reg)
  | GitDiff => with_args from_git_diff tool_call (git_diff reg)
  | GitLog => with_args from_git_log tool_call (git_log reg)
  | GitShow => with_args from_git_show tool_call (git_show reg)
  | GitAdd => with_args from_git_add tool_call (git_add reg)
  | GitCommit => with_args from_git_commit tool_call (git_commit reg)
  | GitPush => with_args from_git_push tool_call (git_push reg)
  | GitFetch => with_args from_git_fetch tool_call (git_fetch reg)
  | GitPull => with_args from_git_pull tool_call (git_pull reg)
  | BrowserState => browser_state
  | UpdatePlan => with_args from_update_plan tool_call (fun args => of_result (update_plan args))
  | NewContext | HistoryList | HistoryRead | HistorySearch | NotesList | NotesRead
  | NotesSearch | NotesAppend | NotesWrite =>
    terr (InvalidArguments
      $"context, history, and notes tools must be executed by the agent runtime")
  | Mcp => terr (InvalidArguments $"MCP tools must be executed by the agent MCP runtime")
  end.

Definition execute (mode : Mode) (tool_call : ToolCall) : T ToolExecution :=
  let* (kind, high_risk, allowlisted) := permission_for tool_call in
  if decide (evaluate_detailed mode kind high_risk allowlisted = Allow)
  then execute_authorized tool_call
  else terr PermissionDenied.
End Gate.
