(* ===== verification/ToolGateFacts.v ===== *)
(** * What the gate and the commands guarantee

    A refused call changes nothing; a process is started only for a command that the
    policy does not deny, inside the workspace; waiting for a process ends; git is never
    handed an option by the model. *)

From S2P Require Import Prelude.
From S2P Require Import Protocol.
From S2P Require Import Policy.
From S2P Require Import PolicyFacts.
From S2P Require Import Transcript.
From S2P Require Import Text.
From S2P Require Import Files.
From S2P Require Import FilesFacts.
From S2P Require Import ToolArgs.
From S2P Require Import ToolText.
From S2P Require Import Tools.
From S2P Require Import PatchFacts.
From S2P Require Import ToolGit.
From S2P Require Import ToolCommand.
From S2P Require Import ToolSearch.
From S2P Require Import ToolGate.

(** ** Started processes and results

    [m] starts processes satisfying [P] only, at most one if [single], and its result
    satisfies [Q]. *)
Definition ensures {A} (P : Spawn -> Prop) (Q : A -> Prop) (m : T A) : Prop :=
  forall w, (exists new, w_spawned (snd (m w)) = new ++ w_spawned w /\ Forall P new) /\
            (forall a, fst (m w) = Ok a -> Q a).

Lemma ensures_ret {A} P (Q : A -> Prop) a : Q a -> ensures P Q (tret a).
Proof. intros HQ w. split; [by exists []|]. by intros ? [= <-]. Qed.

Lemma ensures_err {A} P (Q : A -> Prop) e : ensures P Q (terr e).
Proof. intros w. split; [by exists []|done]. Qed.

Lemma ensures_result {A} P (Q : A -> Prop) r :
  (forall a, r = Ok a -> Q a) -> ensures P Q (of_result r).
Proof. intros HQ w. split; [by exists []|]. exact HQ. Qed.

Lemma ensures_bind {A B} P (Q : A -> Prop) (R : B -> Prop) m f :
  ensures P Q m -> (forall a, Q a -> ensures P R (f a)) -> ensures P R (tbind m f).
Proof.
  intros Hm Hf w. destruct (Hm w) as [(new & Hn & HP) HQ]. unfold tbind.
  destruct (m w) as [[a|e] w1]; cbn [fst snd] in *; [|split; [by exists new|done]].
  destruct (Hf a (HQ a eq_refl) w1) as [(new' & Hn' & HP') HR]. split; [|done].
  exists (new' ++ new). rewrite Hn', Hn, app_assoc. split; [done|by apply Forall_app].
Qed.

Lemma ensures_try {A} P (Q : A -> Prop) m : ensures P Q m -> ensures P (fun _ => True) (try_ok m).
Proof.
  intros Hm w. destruct (Hm w) as [Hn _]. unfold try_ok.
  destruct (m w) as [[a|e] w1]; cbn [fst snd] in *; done.
Qed.

Lemma ensures_weaken {A} (P P' : Spawn -> Prop) (Q Q' : A -> Prop) m :
  ensures P Q m -> (forall s, P s -> P' s) -> (forall a, Q a -> Q' a) -> ensures P' Q' m.
Proof.
  intros Hm HP HQ w. destruct (Hm w) as [(new & Hn & Hf) Ha]. split; [|auto].
  exists new. split; [done|]. eapply Forall_impl; eauto.
Qed.

(** An operation that only observes starts nothing. *)
Lemma ensures_observes {A} P (m : T A) : observes m -> ensures P (fun _ => True) m.
Proof. intros Hm w. split; [|done]. exists []. by destruct (Hm w) as [_ ->]. Qed.

(** Operations on files start nothing either. *)
Definition spawns_none {A} (m : T A) : Prop := forall w, w_spawned (snd (m w)) = w_spawned w.

Lemma ensures_none {A} P (m : T A) : spawns_none m -> ensures P (fun _ => True) m.
Proof. intros Hm w. split; [|done]. exists []. by rewrite Hm. Qed.

Section Facts.
Context `{Disk} `{Child} `{IoText}.
Variable reg : ToolRegistry.
Local Abbreviation root := (tr_workspace_root reg).

(** ** Places *)

Lemma resolve_observes path : observes (resolve reg path).
Proof. unfold resolve, canonicalize. observe. Qed.

(** What is resolved lies below the root. *)
Lemma resolve_inside P path : ensures P (fun p => root `prefix_of` p) (resolve reg path).
Proof.
  intros w. split.
  - exists []. by destruct (resolve_observes path w) as [_ ->].
  - intros p. destruct (resolve reg path w) as [r w'] eqn:E. cbn [fst]. intros ->.
    unfold resolve, canonicalize in E. run_back.
    destruct (path_starts_with _ _) eqn:Ep in E; cbn [negb] in E; [|done]. run_back.
    by apply path_starts_with_true.
Qed.

Lemma resolve_all_observes paths : observes (resolve_all reg paths).
Proof.
  induction paths as [|p ps IH]; cbn [resolve_all]; [observe|].
  apply observes_bind; [apply resolve_observes|done].
Qed.

Lemma validate_observes e args cwd : observes (validate_git_command_paths reg e args cwd).
Proof.
  unfold validate_git_command_paths. destruct (negb _); [observe|]. apply observes_bind.
  - destruct cwd; [|observe]. apply observes_bind; [apply resolve_observes|observe].
  - intros _. apply resolve_all_observes.
Qed.

Lemma check_command_observes args : observes (check_command reg args).
Proof.
  unfold check_command. destruct (decide _); [observe|].
  apply observes_bind; [apply validate_observes|observe].
Qed.

Definition assessed (args : RunCommandArgs) : CommandAssessment :=
  assess_command_with_lists (rc_executable args) (rc_args args)
    (tr_command_allowlist reg) (tr_command_denylist reg).

Lemma check_command_ensures P args :
  ensures P (fun a => a = assessed args /\ decision a <> Deny) (check_command reg args).
Proof.
  intros w. split; [exists []; by destruct (check_command_observes args w) as [_ ->]|].
  intros a. destruct (check_command reg args w) as [r w'] eqn:E. cbn [fst]. intros ->.
  unfold check_command in E. fold (assessed args) in E.
  destruct (decide (decision (assessed args) = Deny)); [done|]. by run_back.
Qed.

(** A bare name of the command, or a file of the workspace. *)
Definition program_ok (executable : str) (p : Program) : Prop :=
  match p with
  | ByName name => name = executable /\ (SLASH ∉ executable) /\ (BACKSLASH ∉ executable)
  | AtPath path => root `prefix_of` path
  end.

Lemma resolve_executable_observes e : observes (resolve_executable reg e).
Proof.
  unfold resolve_executable. destruct (_ && _); [observe|].
  apply observes_bind; [observe|]. intros req. apply observes_bind.
  - intros w. destruct (observes_query (fun fs => resolve_path fs (join_path root req)) w) as [Ha Hb].
    unfold canonicalize. destruct (of_io (query _) w) as [[p|err] w']; [done|]. by destruct err.
  - intros p. observe.
Qed.

Lemma resolve_executable_ensures P e :
  ensures P (program_ok e) (resolve_executable reg e).
Proof.
  intros w. split; [exists []; by destruct (resolve_executable_observes e w) as [_ ->]|].
  intros p. destruct (resolve_executable reg e w) as [r w'] eqn:E. cbn [fst]. intros ->.
  unfold resolve_executable in E.
  destruct (contains_char SLASH e) eqn:E1; cbn [negb andb] in E.
  2:{ destruct (contains_char BACKSLASH e) eqn:E2; cbn [negb] in E.
      - run_back. destruct (path_starts_with _ _) eqn:Ep in E; cbn [negb] in E; [|done]. run_back.
        by apply path_starts_with_true.
      - run_back. apply contains_char_not in E1, E2. done. }
  run_back. destruct (path_starts_with _ _) eqn:Ep in E; cbn [negb] in E; [|done]. run_back.
  by apply path_starts_with_true.
Qed.

Lemma working_directory_ensures P args :
  ensures P (fun p => root `prefix_of` p) (working_directory reg args).
Proof.
  unfold working_directory. destruct (rc_cwd args); [|by apply ensures_ret].
  eapply ensures_bind; [apply resolve_inside|]. intros p Hp.
  eapply ensures_bind; [apply ensures_observes; observe|]. intros b _.
  destruct (negb b); [apply ensures_err|by apply ensures_ret].
Qed.

(** ** Commands *)

(** What a process of [run_command] is. *)
Definition command_spawn (args : RunCommandArgs) (s : Spawn) : Prop :=
  sp_args s = rc_args args /\ program_ok (rc_executable args) (sp_program s) /\
  root `prefix_of` sp_cwd s /\ decision (assessed args) <> Deny.

Lemma start_ensures (P : Spawn -> Prop) sp : P sp -> ensures P (fun _ => True) (start sp).
Proof.
  intros HP w. split; [|done]. unfold start. destruct (spawn_child sp (w_fs w)); cbn.
  - by exists [sp]; repeat constructor.
  - by exists [].
Qed.

Lemma create_dir_all_spawns fuel p w :
  w_spawned (snd (create_dir_all_loop fuel p w)) = w_spawned w.
Proof.
  assert (forall q w0, w_spawned (snd (create_dir q w0)) = w_spawned w0) as Hc.
  { intros q w0. unfold create_dir, change, attempt. destruct (fault _); [done|].
    by destruct (fs_mkdir _ _). }
  revert p w. induction fuel as [|f IH]; intros p w; cbn [create_dir_all_loop];
    pose proof (Hc p w) as Hp1; destruct (create_dir p w) as [[u|[]] w1]; cbn [snd] in *; try done;
    try (by destruct (path_is_dir _ _)).
  destruct (parent_of p) as [up|]; [|done]. pose proof (IH up w1) as Hp2.
  destruct (create_dir_all_loop f up w1) as [[u|e] w2]; cbn [snd] in *; [|congruence].
  pose proof (Hc p w2) as Hp3. destruct (create_dir p w2) as [[u'|e'] w3]; cbn [snd] in *;
    [congruence|destruct (path_is_dir _ _); cbn; congruence].
Qed.

Lemma file_create_spawns p : spawns_none (of_io (file_create p)).
Proof.
  intros w. unfold of_io, file_create, attempt. destruct (fault _); [done|].
  by destruct (fs_create (w_fs w) p) as [[]|].
Qed.

Lemma run_background_ensures args program dir :
  program_ok (rc_executable args) program -> root `prefix_of` dir ->
  decision (assessed args) <> Deny ->
  ensures (command_spawn args) (fun _ => True) (run_background reg args program dir).
Proof.
  intros Hp Hd Ha. unfold run_background.
  eapply ensures_bind.
  { apply ensures_none. intros w. unfold background_log_path, tbind, of_io, create_dir_all.
    pose proof (create_dir_all_spawns (length (join_path root BACKGROUND_LOG_DIR))
      (join_path root BACKGROUND_LOG_DIR) w) as Hs.
    by destruct (create_dir_all_loop _ _ w) as [[] w']. }
  intros log _. eapply ensures_bind; [apply ensures_none, file_create_spawns|]. intros _ _.
  eapply ensures_bind; [by apply start_ensures|]. intros pid _.
  eapply ensures_bind; [by apply (ensures_result _ (fun _ => True))|]. intros early _.
  assert (forall (k : str -> ToolExecution) l,
    ensures (command_spawn args) (fun _ => True) (let* t := read_tail log l in tret (k t))) as Htail.
  { intros k l. eapply ensures_bind; [apply ensures_observes; unfold read_tail; observe|].
    intros t _. by apply ensures_ret. }
  destruct early as [status|]; [apply Htail|].
  destruct (rc_ready_port args) as [port|]; [|by apply ensures_ret].
  destruct (await_port_ready _ _); try (by apply ensures_ret); try apply ensures_err; apply Htail.
Qed.

Lemma run_foreground_ensures args program dir :
  program_ok (rc_executable args) program -> root `prefix_of` dir ->
  decision (assessed args) <> Deny ->
  ensures (command_spawn args) (fun _ => True) (run_foreground reg args program dir).
Proof.
  intros Hp Hd Ha. unfold run_foreground.
  eapply ensures_bind; [by apply start_ensures|]. intros pid _.
  destruct (wait_child _ _); first [by apply ensures_ret | apply ensures_err].
Qed.

Lemma run_command_ensures args :
  ensures (command_spawn args) (fun _ => True) (run_command reg args).
Proof.
  unfold run_command. eapply ensures_bind; [apply check_command_ensures|]. intros a [-> Ha].
  eapply ensures_bind; [apply resolve_executable_ensures|]. intros p Hp.
  eapply ensures_bind; [apply working_directory_ensures|]. intros d Hd.
  destruct (rc_background args); [by apply run_background_ensures|by apply run_foreground_ensures].
Qed.


(** ** Waiting *)

Lemma clock_rounds (ok : ChildOk) sp interval k :
  (forall k, (now_at sp (S k) + interval <= now_at sp (S (S k)))%N) ->
  (now_at sp 0 + N.of_nat k * interval <= now_at sp (S k))%N.
Proof.
  intros Hs. pose proof (clock_starts sp) as Hstart. induction k as [|k IH]; [lia|].
  specialize (Hs k). lia.
Qed.

Lemma rounds_enough timeout interval k :
  (0 < interval)%N -> rounds_for timeout interval <= S k ->
  (timeout <= N.of_nat k * interval)%N.
Proof.
  intros Hi Hk. unfold rounds_for in Hk.
  pose proof (N.div_mod timeout interval ltac:(lia)) as Hd.
  pose proof (N.mod_lt timeout interval ltac:(lia)) as Hm.
  assert (timeout / interval + 1 <= N.of_nat k)%N as Hle by lia. nia.
Qed.

Lemma supervise_ends sp timeout (interval : N) fuel round :
  (0 < interval)%N ->
  (forall k, (now_at sp 0 + N.of_nat k * interval <= now_at sp (S k))%N) ->
  rounds_for timeout interval <= fuel + round ->
  0 < fuel ->
  supervise sp fuel round (now_at sp 0 + timeout) <> StillRunning.
Proof.
  intros Hi Hclock. revert round. induction fuel as [|f IH]; intros round Hr Hf; [lia|].
  cbn [supervise]. destruct (cancelled_at sp round); [done|].
  destruct (try_wait_at sp round) as [[status|]|e]; try done.
  destruct (N.leb_spec (now_at sp 0 + timeout) (now_at sp (S round))) as [|Hlt];
    [by destruct (wait_killed sp)|].
  assert (0 < f) as Hpos.
  { destruct f; [|lia]. exfalso.
    pose proof (rounds_enough timeout interval round Hi ltac:(lia)). specialize (Hclock round). lia. }
  apply IH; [lia|done].
Qed.

Lemma await_port_ends sp timeout (interval : N) fuel round :
  (0 < interval)%N ->
  (forall k, (now_at sp 0 + N.of_nat k * interval <= now_at sp (S k))%N) ->
  rounds_for timeout interval <= fuel + round ->
  0 < fuel ->
  await_port sp fuel round (now_at sp 0 + timeout) <> PortPending.
Proof.
  intros Hi Hclock. revert round. induction fuel as [|f IH]; intros round Hr Hf; [lia|].
  cbn [await_port]. destruct (cancelled_at sp round); [done|].
  destruct (connects_at sp round); [done|].
  destruct (try_wait_at sp round) as [[status|]|e]; try done.
  destruct (N.leb_spec (now_at sp 0 + timeout) (now_at sp (S round))) as [|Hlt]; [done|].
  assert (0 < f) as Hpos.
  { destruct f; [|lia]. exfalso.
    pose proof (rounds_enough timeout interval round Hi ltac:(lia)). specialize (Hclock round). lia. }
  apply IH; [lia|done].
Qed.

(** Waiting for a process ends: a process in the foreground exits, is cancelled or
    is killed at its deadline, and the watch of a port gets an answer or times out,
    within the number of rounds that the clock allows. *)
Theorem waiting_ends (ok : ChildOk) sp timeout :
  (sp_background sp = false -> wait_child sp timeout <> StillRunning) /\
  (sp_background sp = true -> await_port_ready sp timeout <> PortPending).
Proof.
  split; intros Hb.
  - apply (supervise_ends sp timeout POLL_INTERVAL); [done| |by rewrite Nat.add_0_r|unfold rounds_for; apply Nat.add_pos_r, Nat.lt_0_succ].
    intros k. apply clock_rounds; [done|]. intros j. by apply poll_sleeps.
  - apply (await_port_ends sp timeout READY_PROBE_INTERVAL); [done| |by rewrite Nat.add_0_r|unfold rounds_for; apply Nat.add_pos_r, Nat.lt_0_succ].
    intros k. apply clock_rounds; [done|]. intros j. by apply probe_sleeps.
Qed.
End Facts.

(** ** The gate *)

Section GateFacts.
Context `{Disk} `{Child} `{Git} `{Serde} `{IoText} `{UnicodeCase} `{JsonText} `{Stopwatch} `{Home}.
Variable reg : ToolRegistry.

Lemma permission_for_observes call : observes (permission_for reg call).
Proof.
  unfold permission_for. destruct (tc_name call); try (by observe).
  apply observes_bind; [observe|]. intros args.
  apply observes_bind; [apply check_command_observes|]. intros a. observe.
Qed.

Definition unchanged (w w' : World) : Prop :=
  w_fs w' = w_fs w /\ w_spawned w' = w_spawned w.

Lemma execute_cases mode call w :
  let (r, w') := execute reg mode call w in
  (unchanged w w' /\ is_ok r = false) \/
  exists kind hr al w1, permission_for reg call w = (Ok (kind, hr, al), w1) /\
    evaluate_detailed mode kind hr al = Allow /\ unchanged w w1 /\
    execute_authorized reg call w1 = (r, w').
Proof.
  destruct (permission_for_observes call w) as [Hf Hs]. unfold execute, tbind.
  destruct (permission_for reg call w) as [[[[kind hr] al]|e] w1]; cbn [snd] in *; [|by left].
  destruct (decide _); [|by left].
  destruct (execute_authorized reg call w1) as [r w'] eqn:E.
  right. by exists kind, hr, al, w1.
Qed.


Lemma execute_refused mode call w :
  (forall kind hr al w1, permission_for reg call w = (Ok (kind, hr, al), w1) ->
     evaluate_detailed mode kind hr al <> Allow) ->
  unchanged w (snd (execute reg mode call w)).
Proof.
  intros Hno. pose proof (execute_cases mode call w) as Hc.
  destruct (execute reg mode call w) as [r w']. cbn [snd].
  destruct Hc as [[Hc _]|(k & hr & al & w1 & Hp & Ha & _)]; [done|]. by destruct (Hno _ _ _ _ Hp).
Qed.

Lemma high_risk_asks mode kind al :
  mode <> FullAuto -> kind <> Read -> evaluate_detailed mode kind true al <> Allow.
Proof.
  intros Hm Hk. unfold evaluate_detailed. rewrite (bool_decide_eq_false_2 (mode = FullAuto)) by done.
  by destruct kind.
Qed.

(** C4: Outside full-auto mode no git write, no MCP call, no patch of a high-risk path,
    and no command other than an allowlisted one in auto-edit mode has any effect
    without approval. *)
Theorem unattended_effects mode call w :
  mode <> FullAuto ->
  let w' := snd (execute reg mode call w) in
  (tc_name call ∈ [GitAdd; GitCommit; GitPush; GitFetch; GitPull; Mcp] -> unchanged w w') /\
  (forall args, tc_name call = ApplyPatch -> from_apply_patch (tc_arguments call) = Ok args ->
     is_high_risk_path (ap_path args) = true -> unchanged w w') /\
  (forall args, tc_name call = RunCommand -> from_run_command (tc_arguments call) = Ok args ->
     ~ (mode = AutoEdit /\ code (assessed reg args) = Allowlisted) -> unchanged w w').
Proof.
  intros Hm. cbv zeta. split_and!.
  - intros Hn. apply execute_refused. intros kind hr al w1 Hp.
    assert (hr = true /\ kind <> Read) as [-> Hk].
    { unfold permission_for in Hp. rewrite !elem_of_cons, elem_of_nil in Hn.
      destruct Hn as [Hn|[Hn|[Hn|[Hn|[Hn|[Hn|[]]]]]]]; rewrite Hn in Hp; by run_back. }
    by apply high_risk_asks.
  - intros args Hn Ha Hr. apply execute_refused. intros kind hr al w1 Hp.
    unfold permission_for, parse_arguments in Hp. rewrite Hn, Ha in Hp. run_back. simplify_eq.
    rewrite Hr. by apply high_risk_asks.
  - intros args Hn Ha Hno. apply execute_refused. intros kind hr al w1 Hp.
    unfold permission_for, parse_arguments in Hp. rewrite Hn, Ha in Hp.
    run_back. simplify_eq.
    match goal with Hx : check_command _ ?b w = (Ok ?a, _) |- _ =>
      destruct (check_command_ensures reg (fun _ => True) b w) as [_ Hc];
      specialize (Hc a); rewrite Hx in Hc; specialize (Hc eq_refl) as [-> Hd];
      rename b into args end.
    intros Hal. apply Hno.
    pose proof (assess_command_wf (rc_executable args) (rc_args args)
                  (tr_command_allowlist reg) (tr_command_denylist reg)) as Hwf.
    fold (assessed reg args) in Hwf. revert Hwf Hal. generalize (assessed reg args).
    intros [d h al c rs]. unfold assessment_wf, evaluate_detailed. simpl.
    rewrite (bool_decide_eq_false_2 (mode = FullAuto)) by done. simpl.
    destruct (class_of c) eqn:Ec; intros (_ & -> & ->); simpl;
      destruct c; try done; destruct mode; naive_solver.
Qed.

(** ** Tools that only read *)

Lemma walk_loop_observes fuel q pending wk : observes (walk_loop reg fuel q pending wk).
Proof.
  revert pending wk. induction fuel as [|f IH]; intros [|dir rest] wk; cbn [walk_loop];
    [observe|observe|observe|].
  unfold read_dir. apply observes_bind; [observe|]. intros es.
  destruct (visit_entries _ _ _ _ _) as [[dirs wk'] stop]. destruct stop; [observe|apply IH].
Qed.

(** The tools that read. *)
Lemma reading_observes call :
  tc_name call ∈ [ListDir; ReadFile; SearchCode; LoadSkill; BrowserState; UpdatePlan] ->
  observes (execute_authorized reg call).
Proof.
  intros Hn. unfold execute_authorized.
  rewrite !elem_of_cons, elem_of_nil in Hn.
  destruct Hn as [->|[->|[->|[->|[->|[->|[]]]]]]]; unfold with_args.
  - apply observes_bind; [observe|]. intros args. unfold list_dir, read_dir.
    apply observes_bind; [apply resolve_observes|observe].
  - apply observes_bind; [observe|]. intros args. unfold read_file, read_to_string.
    apply observes_bind; [apply resolve_observes|observe].
  - apply observes_bind; [observe|]. intros args. unfold search_code. destruct (is_empty _); [observe|].
    apply observes_bind; [apply resolve_observes|]. intros p.
    apply observes_bind; [observe|]. intros b. destruct (negb b); [observe|].
    cbv zeta. match goal with |- observes (if ?c then _ else _) => destruct c end; [observe|].
    apply observes_bind; [observe|]. intros fuel.
    apply observes_bind; [apply walk_loop_observes|observe].
  - apply observes_bind; [observe|]. intros args. unfold load_skill, read_to_string.
    destruct (negb _); [observe|]. apply observes_bind; [observe|]. intros b.
    apply observes_bind; [|observe]. destruct (_ && _); [|observe].
    apply observes_bind; [apply resolve_observes|observe].
  - unfold browser_state, read_to_string. observe.
  - observe.
Qed.

(** Listing, reading and searching, loading a skill, reading the state of the browser
    and recording a plan leave every file as it is and start no process. *)
Theorem reading_tools_observe call :
  tc_name call ∈ [ListDir; ReadFile; SearchCode; LoadSkill; BrowserState; UpdatePlan] ->
  forall w, let w' := snd (execute_authorized reg call w) in
    w_fs w' = w_fs w /\ w_spawned w' = w_spawned w.
Proof. intros Hn w. by apply reading_observes. Qed.
End GateFacts.

(** ** What git is asked *)

(** Every option that the source passes to git. *)
Definition git_options : list str :=
  [$"--porcelain=v1"; $"--branch"; $"--untracked-files=normal"; $"--cached"; $"--no-ext-diff";
   $"--no-color"; LOG_FORMAT; SHOW_FORMAT; $"--abbrev-ref"; $"--allow-empty"; $"--set-upstream";
   $"--ff-only"; $"--no-rebase"].

(** Up to [--], an argument is one of these options, a count, the message of [-m], or
    not an option at all. *)
Fixpoint argv_ok (args : list str) : bool :=
  match args with
  | [] => true
  | a :: r =>
    if a =s $"--" then true
    else if a =s $"-m" then match r with [] => true | _ :: r' => argv_ok r' end
    else (one_of a git_options || starts_with $"--max-count=" a || negb (starts_with $"-" a))
         && argv_ok r
  end.

Section GitFacts.
Context `{Git} `{JsonText}.
Variable reg : ToolRegistry.

Definition git_spawn (s : Spawn) : Prop :=
  sp_program s = ByName $"git" /\ sp_cwd s = tr_workspace_root reg /\ argv_ok (sp_args s) = true.

Lemma git_output_ensures args :
  argv_ok args = true -> ensures git_spawn (fun _ => True) (git_output reg args).
Proof.
  intros Ha w. split; [|done]. unfold git_output. destruct (run_git args (w_fs w)); cbn.
  - eexists [_]. split; [done|]. by repeat constructor.
  - by exists [].
Qed.

Definition no_dash (s : str) : Prop := starts_with $"-" s = false.

Lemma argv_ok_plain a r : no_dash a -> argv_ok (a :: r) = argv_ok r.
Proof.
  intros Ha. cbn [argv_ok].
  assert (forall p, starts_with $"-" p = true -> (a =s p) = false) as Hne.
  { intros p Hp. apply str_eqb_false. intros ->. unfold no_dash in Ha. congruence. }
  rewrite !Hne by reflexivity. unfold no_dash in Ha. rewrite Ha. cbn [negb]. by rewrite orb_true_r.
Qed.

Lemma argv_ok_path pathspec : argv_ok (pathspec_args pathspec) = true.
Proof. by destruct pathspec. Qed.

Lemma validate_git_name_ok kind value : validate_git_name kind value = Ok tt -> no_dash value.
Proof.
  unfold validate_git_name, no_dash. destruct (is_empty value); [done|].
  by destruct (starts_with $"-" value).
Qed.

Lemma check_pathspec_ensures pathspec :
  ensures git_spawn (fun _ => True) (check_pathspec pathspec).
Proof.
  apply ensures_observes. unfold check_pathspec. destruct pathspec; observe.
Qed.

Lemma valid_name_ensures kind value :
  ensures git_spawn (fun _ => no_dash value) (of_result (validate_git_name kind value)).
Proof. apply ensures_result. intros []. apply validate_git_name_ok. Qed.

Lemma remote_of_ensures o : ensures git_spawn no_dash (remote_of o).
Proof.
  unfold remote_of. eapply ensures_bind; [apply valid_name_ensures|]. intros u Hn.
  by apply ensures_ret.
Qed.

Lemma current_branch_ensures : ensures git_spawn no_dash (current_branch_name reg).
Proof.
  unfold current_branch_name. eapply ensures_bind; [by apply git_output_ensures|]. intros o _.
  destruct (negb _); [apply ensures_err|]. destruct (_ || _); [apply ensures_err|].
  eapply ensures_bind; [apply valid_name_ensures|]. intros u Hn. by apply ensures_ret.
Qed.

Lemma branch_ensures o : ensures git_spawn no_dash (branch_or_current reg o).
Proof.
  unfold branch_or_current. destruct (given_name o); [|apply current_branch_ensures].
  eapply ensures_bind; [apply valid_name_ensures|]. intros u Hn. by apply ensures_ret.
Qed.

Lemma head_ensures : ensures git_spawn (fun _ => True) (try_ok (git_rev_parse_head reg)).
Proof.
  eapply ensures_try. unfold git_rev_parse_head.
  eapply ensures_bind; [by apply git_output_ensures|]. intros o _.
  destruct (negb _); [apply ensures_err|by apply (ensures_ret _ (fun _ => True))].
Qed.

(** The result of a call that succeeded, without further calls. *)
Ltac git_end :=
  repeat match goal with
  | |- ensures _ _ (if ?b then _ else _) => destruct b
  | |- ensures _ _ (let (_, _) := ?x in _) => destruct x
  | |- ensures _ _ (terr _) => apply ensures_err
  | |- ensures _ _ (tret _) => by apply ensures_ret
  end.

Lemma git_reads_ensure :
  (forall a, ensures git_spawn (fun _ => True) (git_status reg a)) /\
  (forall a, ensures git_spawn (fun _ => True) (git_diff reg a)) /\
  (forall a, ensures git_spawn (fun _ => True) (git_log reg a)) /\
  (forall a, ensures git_spawn (fun _ => True) (git_show reg a)).
Proof.
  split_and!; intros a.
  - unfold git_status. eapply ensures_bind; [apply check_pathspec_ensures|]. intros _ _.
    eapply ensures_bind; [by apply git_output_ensures; destruct (pathspec_of _)|]. intros o _.
    by git_end.
  - unfold git_diff. eapply ensures_bind; [apply check_pathspec_ensures|]. intros _ _.
    eapply ensures_bind; [by apply git_output_ensures; destruct (pathspec_of _)|]. intros o _.
    eapply ensures_bind; [by apply git_output_ensures; destruct (pathspec_of _)|]. intros o' _.
    by git_end.
  - unfold git_log. eapply ensures_bind; [apply check_pathspec_ensures|]. intros _ _.
    eapply ensures_bind.
    { apply git_output_ensures. by destruct (pathspec_of _). }
    intros o _. by git_end.
  - unfold git_show. destruct (is_empty _); [apply ensures_err|].
    destruct (starts_with $"-" _) eqn:Er; [apply ensures_err|].
    eapply ensures_bind; [apply check_pathspec_ensures|]. intros _ _.
    eapply ensures_bind.
    { apply git_output_ensures.
      change (argv_ok (trim (gw_revision a) :: pathspec_args (pathspec_of (gw_path a))) = true).
      rewrite argv_ok_plain by done. apply argv_ok_path. }
    intros o _. by git_end.
Qed.

Lemma git_writes_ensure :
  (forall a, ensures git_spawn (fun _ => True) (git_add reg a)) /\
  (forall a, ensures git_spawn (fun _ => True) (git_commit reg a)) /\
  (forall a, ensures git_spawn (fun _ => True) (git_push reg a)) /\
  (forall a, ensures git_spawn (fun _ => True) (git_fetch reg a)) /\
  (forall a, ensures git_spawn (fun _ => True) (git_pull reg a)).
Proof.
  split_and!; intros a.
  - unfold git_add. destruct (is_empty _); [apply ensures_err|].
    eapply ensures_bind; [by apply (ensures_result _ (fun _ => True))|]. intros paths _.
    eapply ensures_bind; [by apply git_output_ensures|]. intros o _. by git_end.
  - unfold git_commit. destruct (is_empty _); [apply ensures_err|].
    eapply ensures_bind; [by apply git_output_ensures; destruct (or_else _ _)|]. intros o _.
    destruct (negb _); [apply ensures_err|].
    eapply ensures_bind; [apply head_ensures|]. intros h _. by git_end.
  - unfold git_push. eapply ensures_bind; [apply remote_of_ensures|]. intros remote Hr.
    eapply ensures_bind; [apply branch_ensures|]. intros branch Hb.
    eapply ensures_bind.
    { apply git_output_ensures. destruct (or_else _ _); cbn [app].
      - change (argv_ok [remote; branch] = true). by rewrite !argv_ok_plain.
      - change (argv_ok [remote; branch] = true). by rewrite !argv_ok_plain. }
    intros o _. destruct (negb _); [apply ensures_err|].
    eapply ensures_bind; [apply head_ensures|]. intros h _. by git_end.
  - unfold git_fetch. eapply ensures_bind; [apply remote_of_ensures|]. intros remote Hr.
    eapply (ensures_bind _ (fun b => match b with Some x => no_dash x | None => True end)).
    { destruct (given_name _); [|by apply ensures_ret].
      eapply ensures_bind; [apply valid_name_ensures|]. intros u Hn. by apply ensures_ret. }
    intros branch Hb. eapply ensures_bind.
    { apply git_output_ensures.
      change (argv_ok (remote :: match branch with Some b => [b] | None => [] end) = true).
      rewrite argv_ok_plain by done. destruct branch; [by rewrite argv_ok_plain|done]. }
    intros o _. by git_end.
  - unfold git_pull. eapply ensures_bind; [apply remote_of_ensures|]. intros remote Hr.
    eapply ensures_bind; [apply branch_ensures|]. intros branch Hb.
    eapply ensures_bind.
    { apply git_output_ensures. destruct (or_else _ _);
        change (argv_ok [remote; branch] = true); by rewrite !argv_ok_plain. }
    intros o _. destruct (negb _); [apply ensures_err|].
    eapply ensures_bind; [apply head_ensures|]. intros h _. by git_end.
Qed.
End GitFacts.

Section GitCalls.
Context `{Disk} `{Child} `{Git} `{Serde} `{IoText} `{UnicodeCase} `{JsonText} `{Stopwatch} `{Home}.
Variable reg : ToolRegistry.

Lemma with_args_ensures {A} P (f : Value -> result A str) call run :
  (forall a, ensures P (fun _ => True) (run a)) ->
  ensures P (fun _ => True) (with_args f call run).
Proof.
  intros Hr. unfold with_args.
  eapply ensures_bind; [by apply (ensures_result _ (fun _ => True))|]. auto.
Qed.

Lemma git_tools_ensure call :
  tc_name call ∈ [GitStatus; GitDiff; GitLog; GitShow; GitAdd; GitCommit; GitPush; GitFetch; GitPull] ->
  ensures (git_spawn reg) (fun _ => True) (execute_authorized reg call).
Proof.
  intros Hn. destruct (git_reads_ensure reg) as (H1' & H2' & H3' & H4').
  destruct (git_writes_ensure reg) as (H5' & H6' & H7' & H8' & H9').
  unfold execute_authorized. rewrite !elem_of_cons, elem_of_nil in Hn.
  destruct Hn as [->|[->|[->|[->|[->|[->|[->|[->|[->|[]]]]]]]]]]; by apply with_args_ensures.
Qed.

End GitCalls.

(** ** Instances and examples *)

(** A process that never exits. *)
#[export] Instance endless_child : Child := {|
  spawn_child := fun _ _ => Ok 1%N;
  child_effect := fun _ fs => fs;
  cancelled_at := fun _ _ => false;
  try_wait_at := fun _ _ => Ok None;
  wait_killed := fun _ => Ok (mkExit false None);
  now_at := fun _ k => (250 * N.of_nat k)%N;
  child_stdout := fun _ => [];
  child_stderr := fun _ => [];
  startup_wait := fun _ => Ok None;
  connects_at := fun _ _ => false;
  launch_stamp := 0%N;
  log_text := fun _ => [];
|}.

Lemma endless_child_ok : @ChildOk endless_child.
Proof.
  split; [intros; cbn [now_at endless_child]; lia|..];
    intros sp k _; cbn [now_at endless_child]; unfold POLL_INTERVAL, READY_PROBE_INTERVAL; lia.
Qed.

Definition sleeper : Spawn := mkSpawn (ByName $"sleep") [] [$"ws"] false.

Lemma waiting_ends_witness : wait_child sleeper 600000 <> StillRunning.
Proof. apply (waiting_ends endless_child_ok sleeper 600000%N). reflexivity. Defined.

#[export] Instance quiet_git : Git := fun _ fs => Ok (mkGitOutput true (Some 0%Z) [] [] fs).
#[export] Instance plain_io_text : IoText := fun _ => [].
#[export] Instance ascii_case : UnicodeCase := to_ascii_lowercase.
#[export] Instance no_json_text : JsonText := fun _ => [].
#[export] Instance no_stopwatch : Stopwatch := {|
  elapsed_ms := 0%N; text_before_error := fun _ => []; debug_text := fun s => s |}.
#[export] Instance no_home : Home := {|
  user_skill_root := [$"skills"]; browser_state_path := [$"browser"]; parse_json := fun _ => None |}.

Definition refuse {A} : Value -> result A str := fun _ => Err [].
Definition text_field (key : str) (v : Value) : str := or_else (json_get key v ≫= as_str) [].

(** Decoders of two of the arguments, from objects. *)
#[export] Instance demo_serde : Serde := {|
  from_list_dir := refuse; from_read_file := refuse; from_search_code := refuse;
  from_load_skill := refuse;
  from_apply_patch := fun v =>
    Ok (mkApplyPatchArgs (text_field $"path" v) (text_field $"old_text" v) (text_field $"new_text" v));
  from_run_command := fun v =>
    Ok (mkRunCommandArgs (text_field $"executable" v) [] None false None None None);
  from_git_status := fun _ => Ok (mkGitStatusArgs None);
  from_git_diff := refuse; from_git_log := refuse; from_git_show := refuse;
  from_git_add := refuse; from_git_commit := refuse;
  from_git_push := fun v => Ok (mkGitPushArgs None (json_get $"branch" v ≫= as_str) None);
  from_git_fetch := refuse; from_git_pull := refuse; from_update_plan := refuse;
|}.

Definition demo_call (name : ToolName) (fields : list (list N * Value)) : ToolCall :=
  mkToolCall $"1" name (JObject fields).

Lemma unattended_effects_witness :
  unchanged demo_world
    (snd (execute demo_reg AutoEdit (demo_call RunCommand [($"executable", JString $"curl")]) demo_world)).
Proof.
  pose proof (unattended_effects demo_reg AutoEdit
    (demo_call RunCommand [($"executable", JString $"curl")]) demo_world ltac:(done)) as (_ & _ & H).
  apply (H (mkRunCommandArgs $"curl" [] None false None None None)); [reflexivity|vm_compute; reflexivity|].
  intros [_ Hc]. vm_compute in Hc. discriminate Hc.
Defined.

Lemma reading_tools_observe_witness :
  w_fs (snd (execute_authorized demo_reg (demo_call ReadFile []) demo_world)) = w_fs demo_world /\
  w_spawned (snd (execute_authorized demo_reg (demo_call ReadFile []) demo_world)) = w_spawned demo_world.
Proof.
  apply (reading_tools_observe demo_reg (demo_call ReadFile [])).
  apply elem_of_cons. right. apply elem_of_cons. by left.
Defined.


(** The check of a branch name forbids a leading dash, a colon and a double dot, but a
    leading plus passes: [git_push] with the branch [+main] starts a push that overwrites
    the remote branch. *)
Theorem plus_branch_forces_push :
  map sp_args (w_spawned (snd (execute_authorized demo_reg
    (demo_call GitPush [($"branch", JString $"+main")]) demo_world)))
  = [[$"rev-parse"; $"HEAD"]; [$"push"; $"origin"; $"+main"]].
Proof. vm_compute. reflexivity. Qed.

Definition demo_command (executable : string) (args : list (list N)) : RunCommandArgs :=
  mkRunCommandArgs $executable args None false None None None.

(** The policy reads the executable [git.exe] as [git], but the check that keeps the
    directories given to git inside the workspace compares the name as it was written: with
    [git] a repository elsewhere is refused, with [git.exe] every such path is accepted. *)
Theorem git_exe_skips_path_check :
  command_exe $"git.exe" = command_exe $"git" /\
  fst (check_command demo_reg (demo_command "git" [$"status"; $"--git-dir=/etc"]) demo_world)
  = Err (PathOutsideWorkspace $"/etc") /\
  is_ok (fst (check_command demo_reg
    (demo_command "git.exe" [$"status"; $"--git-dir=/etc"]) demo_world)) = true /\
  forall reg args cwd w, validate_git_command_paths reg $"git.exe" args cwd w = (Ok tt, w).
Proof. split_and!; [vm_compute; reflexivity..|]. intros reg args cwd w. reflexivity. Qed.
