(* ===== verification/ToolSearchFacts.v ===== *)
(** * What a search finds

    The scan of a file line by line, with its pending hits and its window of previous
    lines, equals a definition by positions; the walk over the directories visits each
    at most once and ends; and every result is a line of a file of the workspace. *)

From S2P Require Import Prelude.
From S2P Require Import Protocol.
From S2P Require Import Sql.
From S2P Require Import Transcript.
From S2P Require Import Text.
From S2P Require Import Files.
From S2P Require Import FilesFacts.
From S2P Require Import ToolArgs.
From S2P Require Import ToolText.
From S2P Require Import ToolTextFacts.
From S2P Require Import Tools.
From S2P Require Import PatchFacts.
From S2P Require Import ToolSearch.

(** ** The scan of a file *)

(** The last [n] elements. *)
Definition lastn {A} (n : nat) (l : list A) : list A := drop (length l - n) l.

Section Scanning.
Variable matched : str -> bool.
Variable relative : str.
Variable context_lines capacity : nat.

(** The hit on line [i] (from 0) with its neighbours. *)
Definition hit_at (ls : list str) (i : nat) (text : str) : SearchResult :=
  mkSearchResult relative (S i) text (lastn context_lines (take i ls))
    (take context_lines (drop (S i) ls)).

(** Every matching line, in order. *)
Definition all_hits (ls : list str) : list SearchResult :=
  omap (fun i => match ls !! i with
                 | Some text => if matched text then Some (hit_at ls i text) else None
                 | None => None
                 end) (seq 0 (length ls)).

Definition extend (x : str) (r : SearchResult) : SearchResult :=
  mkSearchResult (sr_path r) (sr_line r) (sr_text r) (sr_before r)
    (take context_lines (sr_after r ++ [x])).

Lemma take_snoc_take {A} n (l : list A) x : take n (l ++ [x]) = take n (take n l ++ [x]).
Proof.
  destruct (decide (length l < n)) as [Hl|Hl]; [by rewrite (take_ge l) by lia|].
  rewrite take_app_le by lia. rewrite take_app_le by (rewrite length_take; lia).
  by rewrite take_take, Nat.min_id.
Qed.

Lemma all_hits_snoc pre x :
  all_hits (pre ++ [x]) = map (extend x) (all_hits pre)
    ++ (if matched x
        then [mkSearchResult relative (S (length pre)) x (lastn context_lines pre) []] else []).
Proof.
  unfold all_hits. rewrite length_app. cbn [length]. rewrite Nat.add_1_r, seq_S, omap_app. f_equal.
  - assert (forall n, n <= length pre ->
      omap (fun i => match (pre ++ [x]) !! i with
                     | Some text => if matched text then Some (hit_at (pre ++ [x]) i text) else None
                     | None => None end) (seq 0 n) =
      map (extend x) (omap (fun i => match pre !! i with
                     | Some text => if matched text then Some (hit_at pre i text) else None
                     | None => None end) (seq 0 n))) as Hn; [|by apply Hn].
    induction n as [|n IH]; intros Hle; [done|].
    rewrite seq_S, !omap_app, map_app, IH by lia. f_equal. cbn [omap list_omap Nat.add].
    rewrite lookup_app_l by lia. destruct (pre !! n) as [text|]; [|done].
    destruct (matched text); [|done]. cbn [map]. f_equal. unfold hit_at, extend. cbn.
    rewrite take_app_le by lia. f_equal.
    rewrite drop_app_le by lia. apply take_snoc_take.
  - cbn [omap list_omap Nat.add]. rewrite lookup_app_r, Nat.sub_diag by lia. cbn [lookup list_lookup].
    destruct (matched x); [|done]. unfold hit_at. rewrite take_app_length.
    rewrite drop_ge by (rewrite length_app; simpl; lia). by rewrite take_nil.
Qed.

Lemma all_hits_nil : all_hits [] = [].
Proof. done. Qed.

Record scan_inv (pre : list str) (st : Scan) : Prop := {
  si_line : sn_line st = length pre;
  si_previous : sn_previous st = lastn context_lines pre;
  si_hits : sn_hits st ++ map fst (sn_pending st) = take capacity (all_hits pre);
  si_done : Forall (fun r => length (sr_after r) = context_lines) (sn_hits st);
  si_open : Forall (fun p => snd p + length (sr_after (fst p)) = context_lines /\ 0 < snd p)
              (sn_pending st);
  si_order : StronglySorted (fun p q => snd p < snd q) (sn_pending st);
}.

Lemma lastn_snoc prev pre (x : str) :
  prev = lastn context_lines pre ->
  (if 0 <? context_lines
   then (if length prev =? context_lines then tl prev else prev) ++ [x] else prev)
  = lastn context_lines (pre ++ [x]).
Proof.
  intros ->. unfold lastn. rewrite length_app. cbn [length].
  destruct (Nat.ltb_spec 0 context_lines) as [Hc|Hc].
  - rewrite length_drop. destruct (Nat.eqb_spec (length pre - (length pre - context_lines)) context_lines) as [He|He].
    + replace (length pre + 1 - context_lines) with (S (length pre - context_lines)) by lia.
      rewrite drop_app_le by lia. f_equal.
      destruct (drop (length pre - context_lines) pre) as [|y l] eqn:Ed.
      * apply (f_equal length) in Ed. rewrite length_drop in Ed. simpl in Ed. lia.
      * simpl. replace (S (length pre - context_lines)) with ((length pre - context_lines) + 1) by lia.
        rewrite <- drop_drop, Ed. done.
    + replace (length pre - context_lines) with 0 by lia.
      replace (length pre + 1 - context_lines) with 0 by lia. done.
  - replace context_lines with 0 by lia. rewrite !Nat.sub_0_r, !drop_ge; [done|..];
      rewrite ?length_app; simpl; lia.
Qed.

Lemma zeros_first (l : list (SearchResult * nat)) :
  StronglySorted (fun p q => snd p < snd q) l ->
  List.filter is_complete l ++ List.filter (fun p => negb (is_complete p)) l = l.
Proof.
  induction 1 as [|p l Hl IH Hp]; [done|].
  assert (Forall (fun q => is_complete q = false) l) as Hnone.
  { eapply Forall_impl; [exact Hp|]. intros q Hq. simpl in Hq. unfold is_complete.
    apply Nat.eqb_neq. lia. }
  assert (List.filter is_complete l = []) as Hf.
  { clear -Hnone. induction Hnone as [|q l Hq _ IH]; simpl; [done|]. by rewrite Hq. }
  rewrite Hf in IH. cbn [List.filter app] in *. rewrite Hf.
  destruct (is_complete p); cbn [negb app]; by rewrite IH.
Qed.

Lemma push_after_extend x p :
  snd p + length (sr_after (fst p)) = context_lines -> 0 < snd p ->
  fst (push_after x p) = extend x (fst p) /\ snd (push_after x p) = snd p - 1 /\
  length (sr_after (fst (push_after x p))) = S (length (sr_after (fst p))).
Proof.
  destruct p as [r k]. cbn. intros Hk Hpos. unfold extend. split_and!; [|done|rewrite length_app; simpl; lia].
  f_equal. rewrite take_ge; [done|]. rewrite length_app. simpl. lia.
Qed.

Lemma extend_full x r : length (sr_after r) = context_lines -> extend x r = r.
Proof.
  intros Hr. unfold extend. rewrite take_app_le by lia. rewrite take_ge by lia. by destruct r.
Qed.

Lemma map_extend_full x l :
  Forall (fun r => length (sr_after r) = context_lines) l -> map (extend x) l = l.
Proof. induction 1 as [|r l Hr Hl IH]; simpl; [done|]. by rewrite extend_full, IH. Qed.

(** The pending hits after one more line. *)
Lemma advance_pending x l :
  Forall (fun p => snd p + length (sr_after (fst p)) = context_lines /\ 0 < snd p) l ->
  StronglySorted (fun p q => snd p < snd q) l ->
  let advanced := map (push_after x) l in
  map fst advanced = map (extend x) (map fst l) /\
  StronglySorted (fun p q => snd p < snd q) advanced /\
  Forall (fun p => snd p + length (sr_after (fst p)) = context_lines /\ snd p < context_lines) advanced.
Proof.
  intros Ho Hs. cbv zeta. induction Hs as [|p l Hl IH Hp]; [by repeat constructor|].
  apply Forall_cons in Ho as [[Hp1 Hp2] Ho]. destruct (IH Ho) as (H1 & H2 & H3).
  destruct (push_after_extend x p Hp1 Hp2) as (E1 & E2 & E3). cbn [map].
  split_and!.
  - by rewrite E1, H1.
  - constructor; [done|]. apply Forall_fmap. apply Forall_forall. intros q Hq. unfold compose.
    destruct (proj1 (Forall_forall _ _) Ho q Hq) as [Hq1 Hq2].
    destruct (push_after_extend x q Hq1 Hq2) as (_ & E2' & _).
    pose proof (proj1 (Forall_forall _ _) Hp q Hq) as Hlt. simpl in Hlt. lia.
  - constructor; [lia|done].
Qed.

Lemma filter_forall {A} (P : A -> Prop) f (l : list A) :
  Forall P l -> Forall P (List.filter f l).
Proof. induction 1; simpl; [done|]. destruct (f x); auto. Qed.

Lemma filter_sorted {A} (R : A -> A -> Prop) f (l : list A) :
  StronglySorted R l -> StronglySorted R (List.filter f l).
Proof.
  induction 1 as [|x l Hl IH Hx]; simpl; [constructor|].
  destruct (f x); [constructor; [done|by apply filter_forall]|done].
Qed.

Lemma sorted_snoc {A} (R : A -> A -> Prop) l x :
  StronglySorted R l -> Forall (fun y => R y x) l -> StronglySorted R (l ++ [x]).
Proof.
  induction 1 as [|y l Hl IH Hy]; intros Hx; simpl; [by repeat constructor|].
  apply Forall_cons in Hx as [Hyx Hx]. constructor; [auto|]. apply Forall_app. auto.
Qed.

Lemma filter_true_forall {A} f (l : list A) : Forall (fun x => f x = true) (List.filter f l).
Proof. induction l as [|x l IH]; simpl; [done|]. destruct (f x) eqn:E; auto. Qed.

Lemma scan_line_inv pre st x :
  scan_inv pre st -> scan_inv (pre ++ [x]) (scan_line matched relative context_lines capacity st x).
Proof.
  intros [Hline Hprev Hhits Hdone Hopen Hord].
  destruct (advance_pending x (sn_pending st) Hopen Hord) as (Hadv & Hsort & Hsum).
  set (advanced := map (push_after x) (sn_pending st)) in *.
  set (complete := List.filter is_complete advanced).
  set (rest := List.filter (fun p => negb (is_complete p)) advanced).
  assert (complete ++ rest = advanced) as Hsplit by (by apply zeros_first).
  assert ((sn_hits st ++ map fst complete) ++ map fst rest
          = take capacity (map (extend x) (all_hits pre))) as Hall.
  { rewrite <- app_assoc, <- map_app, Hsplit, Hadv, <- (map_extend_full x (sn_hits st) Hdone).
    rewrite <- map_app, Hhits. symmetry. apply firstn_map. }
  assert (Forall (fun r => length (sr_after r) = context_lines) (sn_hits st ++ map fst complete)) as Hd.
  { apply Forall_app. split; [done|]. apply Forall_fmap.
    pose proof (filter_true_forall is_complete advanced) as Hz. fold complete in Hz.
    pose proof (filter_forall _ is_complete _ Hsum) as Hs2. fold complete in Hs2.
    apply Forall_forall. intros p Hp. unfold compose.
    pose proof (proj1 (Forall_forall _ _) Hz p Hp) as Hz1. apply Nat.eqb_eq in Hz1.
    pose proof (proj1 (Forall_forall _ _) Hs2 p Hp) as Hs3. simpl in Hs3. lia. }
  assert (Forall (fun p => (snd p + length (sr_after (fst p)) = context_lines /\ 0 < snd p)
                           /\ snd p < context_lines) rest) as Ho.
  { pose proof (filter_true_forall (fun p => negb (is_complete p)) advanced) as Hz. fold rest in Hz.
    pose proof (filter_forall _ (fun p => negb (is_complete p)) _ Hsum) as Hs2. fold rest in Hs2.
    apply Forall_forall. intros p Hp.
    pose proof (proj1 (Forall_forall _ _) Hz p Hp) as Hz1. simpl in Hz1.
    apply negb_true_iff, Nat.eqb_neq in Hz1.
    pose proof (proj1 (Forall_forall _ _) Hs2 p Hp) as Hs3. simpl in Hs3. lia. }
  assert (StronglySorted (fun p q => snd p < snd q) rest) as Hr by (by apply filter_sorted).
  assert (length (sn_hits st ++ map fst complete) + length rest
          = Nat.min capacity (length (all_hits pre))) as Hlen.
  { apply (f_equal length) in Hall. by rewrite length_app, !length_map, length_take, length_map in Hall. }
  unfold scan_line. fold advanced complete rest. rewrite Hlen, Hline, Hprev.
  set (new := mkSearchResult relative (S (length pre)) x (lastn context_lines pre) []).
  assert (forall hits pending,
    hits ++ map fst pending = take capacity (all_hits (pre ++ [x])) ->
    Forall (fun r => length (sr_after r) = context_lines) hits ->
    Forall (fun p => snd p + length (sr_after (fst p)) = context_lines /\ 0 < snd p) pending ->
    StronglySorted (fun p q => snd p < snd q) pending ->
    scan_inv (pre ++ [x]) (mkScan (S (length pre))
      (if 0 <? context_lines
       then (if length (lastn context_lines pre) =? context_lines then tl (lastn context_lines pre)
             else lastn context_lines pre) ++ [x] else lastn context_lines pre) pending hits)) as Hmk.
  { intros hits pending Ha1 Ha2 Ha3 Ha4. split; cbn; try done.
    - rewrite length_app. simpl. lia.
    - by apply lastn_snoc. }
  assert (Forall (fun p => snd p + length (sr_after (fst p)) = context_lines /\ 0 < snd p) rest) as Ho'.
  { eapply Forall_impl; [exact Ho|]. naive_solver. }
  rewrite all_hits_snoc in Hmk. fold new in Hmk.
  destruct (matched x); cbn [andb].
  - destruct (Nat.ltb_spec (Nat.min capacity (length (all_hits pre))) capacity) as [Hroom|Hfull].
    + assert (take capacity (map (extend x) (all_hits pre) ++ [new])
              = take capacity (map (extend x) (all_hits pre)) ++ [new]) as Htake.
      { rewrite !take_ge; [done|rewrite length_map; lia|rewrite length_app, length_map; simpl; lia]. }
      rewrite Htake, <- Hall in Hmk. destruct (Nat.eqb_spec context_lines 0) as [Hz|Hz].
      * apply Hmk; [|apply Forall_app; split; [done|by repeat constructor]|done|done].
        assert (rest = []) as ->; [|by rewrite !app_nil_r].
        destruct rest as [|p rest']; [done|]. apply Forall_cons in Ho as [Hp _]. lia.
      * apply Hmk; [by rewrite map_app, app_assoc|done| |].
        -- apply Forall_app. split; [done|]. repeat constructor; simpl; lia.
        -- apply sorted_snoc; [done|]. eapply Forall_impl; [exact Ho|]. simpl. naive_solver.
    + apply Hmk; [|done|done|done]. rewrite Hall, take_app_le; [done|]. rewrite length_map. lia.
  - rewrite app_nil_r in Hmk. by apply Hmk.
Qed.

(** Once the capacity is used up and no hit is open, more lines change nothing. *)
Lemma full_stays pre post l :
  take capacity (all_hits pre) = l -> length l = capacity ->
  Forall (fun r => length (sr_after r) = context_lines) l ->
  take capacity (all_hits (pre ++ post)) = l.
Proof.
  intros Ht Hl Hf. induction post as [|x post IH] using rev_ind; [by rewrite app_nil_r|].
  rewrite app_assoc, all_hits_snoc.
  assert (capacity <= length (all_hits (pre ++ post))) as Hle.
  { rewrite <- IH, length_take in Hl. lia. }
  rewrite take_app_le by (rewrite length_map; lia).
  rewrite <- (map_extend_full x l Hf), <- IH. apply firstn_map.
Qed.

Lemma scan_loop_spec pre ls st :
  scan_inv pre st ->
  let st' := scan_loop matched relative context_lines capacity st ls in
  sn_hits st' ++ map fst (sn_pending st') = take capacity (all_hits (pre ++ ls)).
Proof.
  revert pre st. induction ls as [|x ls IH]; intros pre st Hinv; cbn [scan_loop].
  - rewrite app_nil_r. apply Hinv.
  - pose proof (scan_line_inv pre st x Hinv) as Hinv'.
    set (st' := scan_line matched relative context_lines capacity st x) in *.
    destruct (scan_full capacity st') eqn:Ef.
    + unfold scan_full in Ef. apply andb_prop in Ef as [Hc%Nat.leb_le He].
      destruct Hinv' as [_ _ Hh Hd _ _]. destruct (sn_pending st') as [|p q]; [|done].
      cbn [map] in *. rewrite app_nil_r in *.
      replace (pre ++ x :: ls) with ((pre ++ [x]) ++ ls) by (by rewrite <- app_assoc).
      symmetry. apply full_stays; [done| |done].
      pose proof (f_equal length Hh) as Hlen. rewrite length_take in Hlen. lia.
    + replace (pre ++ x :: ls) with ((pre ++ [x]) ++ ls) by (by rewrite <- app_assoc).
      by apply IH.
Qed.

(** The scan of a file, which reads each line once with a window of previous lines
    and a list of hits that wait for context, finds exactly the first matching lines up
    to its capacity, in order, each with its number and its context. *)
Theorem scan_file_spec ls :
  scan_file matched relative context_lines capacity ls = take capacity (all_hits ls).
Proof.
  apply (scan_loop_spec [] ls scan_start).
  split; cbn; try done; [by rewrite take_nil|constructor].
Qed.
End Scanning.
