(* ===== verification/ToolWalkFacts.v ===== *)
(** * What the tools that read the workspace return

    A search ends, returns matching lines only, and all of them unless it says that
    the result is truncated; a read returns at most [MAX_READ_LINES] lines of one file of
    the workspace, nothing of a credential file. *)

From S2P Require Import Prelude.
From S2P Require Import Protocol.
From S2P Require Import Sql.
From S2P Require Import Transcript.
From S2P Require Import Text.
From S2P Require Import Files.
From S2P Require Import FilesFacts.
From S2P Require Import ToolArgs.
From S2P Require Import ToolText.
From S2P Require Import ToolTextFacts.
From S2P Require Import Tools.
From S2P Require Import PatchFacts.
From S2P Require Import ToolSearch.
From S2P Require Import ToolGateFacts.
From S2P Require Import ToolSearchFacts.

(** ** The size of a subtree *)

Definition below (fs : FileSystem) (d : apath) : gset (list (list N)) :=
  filter (fun k => d `prefix_of` k) (dom fs).

Lemma elem_of_below fs d k : k ∈ below fs d <-> d `prefix_of` k /\ k ∈ dom fs.
Proof. unfold below. by rewrite elem_of_filter. Qed.

(** One more than the number of names strictly below the directory. *)
Definition weight (fs : FileSystem) (d : apath) : nat := S (size (below fs d ∖ {[d]})).

Lemma weight_stored fs d : d ∈ dom fs -> weight fs d = size (below fs d).
Proof.
  intros Hd. unfold weight. rewrite size_difference, size_singleton.
  - assert (0 < size (below fs d)); [|lia].
    destruct (decide (size (below fs d) = 0)) as [Hz|Hz]; [|lia].
    apply size_empty_inv in Hz. assert (d ∈ below fs d) by (by apply elem_of_below). set_solver.
  - intros x ->%elem_of_singleton. by apply elem_of_below.
Qed.

Definition queue_weight (fs : FileSystem) (ds : list apath) : nat := sum_list_with (weight fs) ds.

Lemma sum_sizes_disjoint {A} `{Countable A} (sets : list (gset A)) :
  ForallOrdPairs (fun a b => a ## b) sets -> sum_list_with size sets = size (⋃ sets).
Proof.
  induction 1 as [|s sets Hs Hd IH]; [done|]. cbn. rewrite size_union; [by rewrite IH|].
  intros x Hx (t & Ht & Hx')%elem_of_union_list. 
  pose proof (proj1 (Forall_forall _ _) Hs t Ht) as Hdis. set_solver.
Qed.

Lemma children_weight fs d ns :
  NoDup ns -> (forall n, n ∈ ns -> (d ++ [n]) ∈ dom fs) ->
  queue_weight fs (map (fun n => d ++ [n]) ns) < weight fs d.
Proof.
  intros Hnd Hin. unfold weight. apply Nat.lt_succ_r.
  set (sets := map (fun n => below fs (d ++ [n])) ns).
  assert (queue_weight fs (map (fun n => d ++ [n]) ns) = sum_list_with size sets) as ->.
  { unfold queue_weight, sets. clear Hnd. induction ns as [|n ns IH]; [done|].
    cbn [map sum_list_with]. rewrite weight_stored by (apply Hin; set_solver). f_equal. apply IH. set_solver. }
  rewrite sum_sizes_disjoint.
  - apply subseteq_size. intros k (t & Ht & Hk)%elem_of_union_list.
    apply list_elem_of_fmap in Ht as (n & -> & Hn). apply elem_of_below in Hk as [[r ->] Hd].
    apply elem_of_difference. split.
    + apply elem_of_below. split; [|done]. rewrite <- app_assoc. by apply prefix_app_r.
    + rewrite elem_of_singleton, <- app_assoc. intros E. apply (f_equal length) in E.
      rewrite !length_app in E. simpl in E. lia.
  - unfold sets. clear Hin. induction Hnd as [|n ns Hn Hnd IH]; cbn; [constructor|].
    constructor; [|done]. apply Forall_fmap, Forall_forall. intros m Hm. unfold compose.
    intros k [[r1 ->] _]%elem_of_below [[r2 E] _]%elem_of_below.
    rewrite <- !app_assoc in E. apply app_inv_head in E. simplify_eq. done.
Qed.

Section Walking.
Context `{Disk} `{UnicodeCase}.
Context `{Stopwatch}.
Variable reg : ToolRegistry.
Variable q : Query.
Local Abbreviation root := (tr_workspace_root reg).

(** The files that the search reads. *)
Definition searched (p : apath) (c : Content) : bool :=
  (content_len c <=? MAX_SEARCH_FILE_BYTES)%N && glob_admits q (relative_path root p)
  && negb (is_low_value_search_file (relative_path root p)).

(** The directory that an entry adds to the queue. *)
Definition subdirectory (d : apath) (e : str * Node) : option (list (list N)) :=
  match snd e with
  | Directory => if is_ignored_directory (fst e) then None else Some (d ++ [fst e])
  | _ => None
  end.

Definition found (wk : Walk) : list SearchResult := map rh_result (wk_candidates wk).

Lemma length_found wk : length (found wk) = length (wk_candidates wk).
Proof. unfold found. by rewrite length_map. Qed.

(** The hits of a file, and those of a file that is text throughout. *)
Definition file_hits (p : apath) (c : Content) : list SearchResult :=
  if searched p c
  then all_hits (q_matched q) (relative_path root p) (q_context q) (read_lines (readable c)) else [].
Definition entry_hits (d : apath) (e : str * Node) : list SearchResult :=
  match snd e with File c => file_hits (d ++ [fst e]) c | _ => [] end.
Definition text_hits (d : apath) (e : str * Node) : list SearchResult :=
  match snd e with File (Utf8 s) => file_hits (d ++ [fst e]) (Utf8 s) | _ => [] end.

Lemma text_hits_entry d e r : r ∈ text_hits d e -> r ∈ entry_hits d e.
Proof. unfold text_hits, entry_hits. destruct (snd e) as [[]| | |]; set_solver. Qed.

(** What a visit adds. *)
Definition adds (wk wk' : Walk) (sound complete : SearchResult -> Prop) : Prop :=
  (exists more, found wk' = found wk ++ more /\ forall r, r ∈ more -> sound r) /\
  (length (found wk') < q_cap q -> forall r, complete r -> r ∈ found wk').

Lemma adds_nothing wk wk' (sound complete : SearchResult -> Prop) :
  found wk' = found wk -> (forall r, ~ complete r) -> adds wk wk' sound complete.
Proof.
  intros Hf Hn. split; [exists []; rewrite app_nil_r; split; [done|set_solver]|].
  intros _ r Hr. by destruct (Hn r).
Qed.

Lemma adds_trans wk wk1 wk2 (s1 c1 s2 c2 s c : SearchResult -> Prop) :
  adds wk wk1 s1 c1 -> adds wk1 wk2 s2 c2 ->
  (forall r, s1 r \/ s2 r -> s r) -> (forall r, c r -> c1 r \/ c2 r) -> adds wk wk2 s c.
Proof.
  intros [(m1 & E1 & S1) C1] [(m2 & E2 & S2) C2] Hs Hc. split.
  - exists (m1 ++ m2). rewrite E2, E1, app_assoc. split; [done|].
    intros r [Hr|Hr]%elem_of_app; apply Hs; auto.
  - intros Hl r Hr. destruct (Hc r Hr) as [Hr1|Hr2]; [|auto].
    rewrite E2 in *. apply elem_of_app. left. apply C1; [|done]. rewrite length_app in Hl. lia.
Qed.

Lemma visit_file_spec d n c wk :
  let (dirs, wk') := visit_entry reg q d (n, File c) wk in
  dirs = [] /\ adds wk wk' (fun r => r ∈ entry_hits d (n, File c)) (fun r => r ∈ text_hits d (n, File c)).
Proof.
  unfold visit_entry, entry_hits, text_hits. cbn [fst snd].
  assert (searched (d ++ [n]) c = false ->
    adds wk wk (fun r => r ∈ file_hits (d ++ [n]) c)
      (fun r => r ∈ match c with Utf8 s => file_hits (d ++ [n]) (Utf8 s) | NotUtf8 _ => [] end)) as Hno.
  { intros Hs. apply adds_nothing; [done|]. intros r. destruct c; [|set_solver].
    unfold file_hits. rewrite Hs. set_solver. }
  unfold searched in Hno. rewrite (N.leb_antisym MAX_SEARCH_FILE_BYTES (content_len c)) in Hno.
  destruct (MAX_SEARCH_FILE_BYTES <? content_len c)%N eqn:E1; cbn [negb andb] in Hno; [by auto|].
  destruct (glob_admits q _) eqn:E2; cbn [negb andb] in Hno |- *; [|by auto].
  destruct (is_low_value_search_file _) eqn:E3; cbn [negb andb] in Hno |- *; [by auto|]. clear Hno.
  split; [done|]. assert (searched (d ++ [n]) c = true) as Hs.
  { unfold searched. by rewrite (N.leb_antisym MAX_SEARCH_FILE_BYTES (content_len c)), E1, E2, E3. }
  rewrite scan_file_spec, <- length_found. set (hits := all_hits _ _ _ _).
  assert (file_hits (d ++ [n]) c = hits) as Hh by (unfold file_hits; by rewrite Hs).
  unfold adds, found. cbn [wk_candidates]. rewrite map_app, map_map. cbn [rh_result]. rewrite map_id.
  fold (found wk). split.
  - eexists. split; [done|]. rewrite Hh. intros r Hr. destruct (match c with Utf8 _ => _ | NotUtf8 _ => _ end);
      [by eapply subseteq_take|set_solver].
  - intros Hl r Hr. destruct c; [|set_solver]. rewrite Hh in Hr.
    rewrite length_app, length_take in Hl. rewrite take_ge; [set_solver|]. lia.
Qed.

Lemma visit_entry_spec d e wk :
  let (dirs, wk') := visit_entry reg q d e wk in
  dirs = option_list (subdirectory d e) /\
  adds wk wk' (fun r => r ∈ entry_hits d e) (fun r => r ∈ text_hits d e).
Proof.
  destruct e as [n x]. destruct x as [c| | |]; [apply visit_file_spec| | |];
    unfold visit_entry, subdirectory; cbn [fst snd];
    try destruct (is_ignored_directory n); (split; [done|]); (apply adds_nothing; [done|]);
    unfold text_hits; cbn [snd]; set_solver.
Qed.

Lemma visit_entries_spec d es wk :
  let '(dirs, wk', stop) := visit_entries reg q d es wk in
  (exists es', es' `prefix_of` es /\ dirs = omap (subdirectory d) es') /\
  adds wk wk' (fun r => exists e, e ∈ es /\ r ∈ entry_hits d e)
    (fun r => exists e, e ∈ es /\ r ∈ text_hits d e) /\
  (stop = true -> q_cap q <= length (found wk')) /\
  (stop = false -> dirs = omap (subdirectory d) es).
Proof.
  revert wk. induction es as [|e es IH]; intros wk; cbn [visit_entries].
  { split_and!; [by exists []|apply adds_nothing; set_solver|done|done]. }
  pose proof (visit_entry_spec d e wk) as Hv. destruct (visit_entry reg q d e wk) as [dirs wk1].
  destruct Hv as [-> Hf].
  destruct (match snd e with File _ => true | _ => false end && (q_cap q <=? length (wk_candidates wk1))) eqn:Es.
  - apply andb_prop in Es as [_ Hc%Nat.leb_le]. rewrite <- length_found in Hc.
    split_and!; [| |done|done].
    + exists [e]. split; [by exists es|]. simpl. by destruct (subdirectory d e).
    + destruct Hf as [(more & Hm & Hs) _]. split; [|lia]. exists more. split; [done|]. set_solver.
  - specialize (IH wk1). destruct (visit_entries reg q d es wk1) as [[dirs wk2] stop].
    destruct IH as ((es' & Hp & Hd) & Ha & Hs & Hns).
    split_and!; [| |done|].
    + exists (e :: es'). split; [by apply prefix_cons|]. subst dirs. simpl. by destruct (subdirectory d e).
    + eapply adds_trans; [exact Hf|exact Ha|set_solver|]. intros r (e' & [-> | He']%elem_of_cons & Hr); eauto.
    + intros E. rewrite (Hns E). simpl. by destruct (subdirectory d e).
Qed.

(** The directories that the search visits from [d]. *)
Inductive reached (fs : FileSystem) (start : apath) : apath -> Prop :=
| reached_start : reached fs start start
| reached_sub d n :
    reached fs start d -> fs !! (d ++ [n]) = Some Directory ->
    is_ignored_directory n = false -> reached fs start (d ++ [n]).

(** A hit in a file below [start] with the content [c]. *)
Definition hit_below (fs : FileSystem) (start : apath) (c : Content) (r : SearchResult) : Prop :=
  exists d n, reached fs start d /\ fs !! (d ++ [n]) = Some (File c) /\
    searched (d ++ [n]) c = true /\
    r ∈ all_hits (q_matched q) (relative_path root (d ++ [n])) (q_context q) (read_lines (readable c)).

Lemma entry_hits_below fs start d e r :
  reached fs start d -> e ∈ entries_of fs d -> r ∈ entry_hits d e ->
  exists c, hit_below fs start c r.
Proof.
  destruct e as [n x]. intros Hd Hx%elem_of_entries Hr. unfold entry_hits, file_hits in Hr.
  cbn [fst snd] in Hr. destruct x as [c| | |]; try by apply elem_of_nil in Hr.
  destruct (searched _ _) eqn:Es; [|by apply elem_of_nil in Hr]. exists c, d, n. done.
Qed.

Lemma reached_trans fs a b c : reached fs a b -> reached fs b c -> reached fs a c.
Proof. intros Hab. induction 1; [done|by constructor]. Qed.

(** The first step of a visit that is not over. *)
Lemma reached_head fs a c :
  reached fs a c -> c = a \/
  exists n, fs !! (a ++ [n]) = Some Directory /\ is_ignored_directory n = false /\ reached fs (a ++ [n]) c.
Proof.
  induction 1 as [|d n Hd IH Hn Hi]; [by left|]. right. destruct IH as [->|(m & Hm & Hmi & Hr)].
  - exists n. split_and!; [done|done|constructor].
  - exists m. split_and!; [done|done|by constructor].
Qed.

Definition visitable (fs : FileSystem) (d : apath) : Prop :=
  canonical fs d /\ is_directory_at fs d = true.

Lemma subdirectories fs d es dirs :
  visitable fs d -> es ≡ₚ entries_of fs d -> (exists es', es' `prefix_of` es /\ dirs = omap (subdirectory d) es') ->
  Forall (visitable fs) dirs /\ (forall d', d' ∈ dirs -> reached fs d d') /\
  queue_weight fs dirs < weight fs d.
Proof.
  intros [Hc Hd] Hes (es' & [es2 ->] & ->).
  assert (forall n x, (n, x) ∈ es' -> fs !! (d ++ [n]) = Some x) as Hin.
  { intros n x Hx. apply elem_of_entries. rewrite <- Hes. set_solver. }
  assert (forall d', d' ∈ omap (subdirectory d) es' -> exists n, d' = d ++ [n] /\
    fs !! (d ++ [n]) = Some Directory /\ is_ignored_directory n = false) as Hsub.
  { intros d' ([n x] & Hx & E)%list_elem_of_omap. unfold subdirectory in E. cbn [fst snd] in E.
    destruct x; try done. destruct (is_ignored_directory n) eqn:Ei; [done|]. injection E as <-.
    exists n. auto. }
  split_and!.
  - apply Forall_forall. intros d' (n & -> & Hn & _)%Hsub. split; [by eapply canonical_name|].
    unfold is_directory_at. by rewrite node_at_snoc, Hn.
  - intros d' (n & -> & Hn & Hi)%Hsub. constructor; [constructor|done|done].
  - assert (exists ns, omap (subdirectory d) es' = map (fun n => d ++ [n]) ns /\ ns `sublist_of` es'.*1) as (ns & -> & Hns).
    { clear. induction es' as [|[n x] es IH]; [by exists []|]. destruct IH as (ns & E & Hs).
      cbn [omap list_omap fmap list_fmap fst]. destruct (subdirectory d (n, x)) as [p|] eqn:Ep.
      - unfold subdirectory in Ep. cbn [fst snd] in Ep. destruct x; try done.
        destruct (is_ignored_directory n); [done|]. injection Ep as <-.
        exists (n :: ns). split; [by rewrite E|by constructor].
      - exists ns. split; [done|by constructor]. }
    apply children_weight.
    + eapply sublist_NoDup; [|exact Hns]. pose proof (entries_NoDup fs d) as Hnd.
      rewrite <- Hes, fmap_app in Hnd. by apply NoDup_app in Hnd as [? _].
    + intros n Hn. eapply elem_of_sublist in Hn; [|exact Hns].
      apply list_elem_of_fmap in Hn as ([m x] & -> & Hx). apply elem_of_dom. eauto.
Qed.

Context `{!DiskOk}.

Lemma read_dir_visitable d w es w' :
  visitable (w_fs w) d -> read_dir d w = (Ok es, w') ->
  es ≡ₚ entries_of (w_fs w) d /\ w_fs w' = w_fs w.
Proof.
  intros [Hc Hd] Hr. unfold read_dir in Hr. apply query_ok in Hr as (Hr & Hf & _).
  rewrite (canonical_resolves _ _ Hc) in Hr. cbn [rbind] in Hr.
  unfold is_directory_at in Hd. destruct (node_at (w_fs w) d) as [[]|]; try done.
  injection Hr as <-. split; [apply dir_order_perm|done].
Qed.

Lemma walk_loop_ends fuel pending wk w :
  Forall (visitable (w_fs w)) pending -> queue_weight (w_fs w) pending <= fuel ->
  fst (walk_loop reg fuel q pending wk w) <> Ok None.
Proof.
  revert pending wk w. induction fuel as [|fuel IH]; intros [|d rest] wk w Hv Hw; cbn [walk_loop]; try done;
    [by apply Nat.le_0_r in Hw|].
  apply Forall_cons in Hv as [Hd Hv]. unfold queue_weight in Hw. cbn [sum_list_with] in Hw.
  unfold tbind, of_io. destruct (read_dir d w) as [[es|e] w1] eqn:Er; [|done].
  destruct (read_dir_visitable _ _ _ _ Hd Er) as [Hes Hf].
  pose proof (visit_entries_spec d es (mkWalk (wk_candidates wk) (wk_directories wk + 1) (wk_files wk) (wk_bytes wk))) as Hvs.
  destruct (visit_entries _ _ _ _ _) as [[dirs wk'] stop]. destruct stop; [done|].
  destruct Hvs as (Hdirs & _).
  destruct (subdirectories _ _ _ _ Hd Hes Hdirs) as (Hvd & _ & Hwd).
  apply IH; rewrite Hf; [by apply Forall_app|].
  unfold queue_weight in *. rewrite sum_list_with_app. lia.
Qed.

Lemma walk_loop_finds fuel pending wk w wk' w' :
  Forall (visitable (w_fs w)) pending ->
  walk_loop reg fuel q pending wk w = (Ok (Some wk'), w') ->
  adds wk wk' (fun r => exists d c, d ∈ pending /\ hit_below (w_fs w) d c r)
    (fun r => exists d s, d ∈ pending /\ hit_below (w_fs w) d (Utf8 s) r).
Proof.
  revert pending wk w. induction fuel as [|fuel IH]; intros [|d rest] wk w Hv; cbn [walk_loop]; try done;
    try (intros [= <- <-]; apply adds_nothing; set_solver).
  apply Forall_cons in Hv as [Hd Hv].
  unfold tbind at 1, of_io. destruct (read_dir d w) as [[es|e] w1] eqn:Er; [|done].
  destruct (read_dir_visitable _ _ _ _ Hd Er) as [Hes Hf].
  set (wk0 := mkWalk (wk_candidates wk) (wk_directories wk + 1) (wk_files wk) (wk_bytes wk)).
  pose proof (visit_entries_spec d es wk0) as Hvs.
  destruct (visit_entries reg q d es wk0) as [[dirs wk1] stop].
  destruct Hvs as (Hdirs & Hadd & Hstop & Hgo).
  destruct (subdirectories _ _ _ _ Hd Hes Hdirs) as (Hvd & Hrd & _).
  change (adds wk0) with (adds wk) in Hadd.
  assert (forall r e, e ∈ es -> r ∈ entry_hits d e -> exists c, hit_below (w_fs w) d c r) as Hmore.
  { intros r e He Hr. rewrite Hes in He. eapply entry_hits_below; [constructor|done|done]. }
  destruct stop.
  { intros [= <- <-]. destruct Hadd as [(more & Hm & Hs) _]. specialize (Hstop eq_refl).
    split; [|lia]. exists more. split; [done|]. intros r (e & He & Hr)%Hs.
    destruct (Hmore r e He Hr) as [c Hc]. exists d, c. set_solver. }
  specialize (Hgo eq_refl). intros Hrun. apply IH in Hrun; [|rewrite Hf; by apply Forall_app].
  rewrite Hf in Hrun. eapply adds_trans; [exact Hadd|exact Hrun|..]; cbv beta.
  - intros r [(e & He & Hr)|(d' & c & [Hd'|Hd']%elem_of_app & Hh)].
    + destruct (Hmore r e He Hr) as [c Hc]. exists d, c. set_solver.
    + exists d', c. set_solver.
    + exists d, c. split; [set_solver|]. destruct Hh as (a & n & Ha & Hh).
      exists a, n. split; [|done]. eapply reached_trans; [by apply Hrd|done].
  - intros r (d' & s & [-> |Hd']%elem_of_cons & Hh); [|right; exists d', s; set_solver].
    destruct Hh as (a & n & Ha & Hn & Hse & Hr).
    destruct (reached_head _ _ _ Ha) as [->|(m & Hmn & Hi & Hr2)].
    + left. exists (n, File (Utf8 s)). split; [rewrite Hes; by apply elem_of_entries|].
      unfold text_hits, file_hits. cbn [fst snd]. by rewrite Hse.
    + right. exists (d ++ [m]), s. split; [|by exists a, n]. apply elem_of_app. right. rewrite Hgo.
      apply list_elem_of_omap. exists (m, Directory). split; [rewrite Hes; by apply elem_of_entries|].
      unfold subdirectory. cbn [fst snd]. by rewrite Hi.
Qed.
End Walking.

(** ** The search *)

Section Searching.
Context `{Disk} `{!DiskOk} `{UnicodeCase} `{JsonText} `{Stopwatch}.
Variable reg : ToolRegistry.

Lemma resolve_start path w start w1 :
  resolve reg path w = (Ok start, w1) -> path_is_dir (w_fs w1) start = true ->
  visitable (w_fs w1) start /\ tr_workspace_root reg `prefix_of` start /\ w_fs w1 = w_fs w.
Proof.
  intros Hr Hd. unfold resolve, canonicalize in Hr.
  apply tbind_ok in Hr as (p & w2 & [_ ->]%of_result_ok & Hr).
  apply tbind_ok in Hr as (r & w2 & (Hc & Hfs & _)%of_io_ok%query_ok & Hr).
  destruct (path_starts_with r _) eqn:Ep in Hr; cbn [negb] in Hr; [|done].
  injection Hr as -> ->. rewrite <- Hfs in Hc. apply resolve_canonical in Hc.
  apply path_starts_with_true in Ep. split; [|done]. split; [done|].
  unfold path_is_dir, stat in Hd. rewrite (canonical_resolves _ _ Hc) in Hd.
  unfold is_directory_at. by destruct (node_at _ start) as [[]|].
Qed.

Lemma start_weight fs start : queue_weight fs [start] <= walk_fuel fs.
Proof.
  unfold queue_weight, weight, walk_fuel. cbn [sum_list_with].
  rewrite Nat.add_0_r. apply le_n_S. rewrite <- size_dom. apply subseteq_size.
  intros k [Hk _]%elem_of_difference. by apply elem_of_below in Hk as [_ Hk].
Qed.

(** The walk over the directories ends, whatever the order in which directories are
    listed and whatever links the tree contains: every directory below the start is
    visited at most once. *)
Theorem search_walk_ends q path w start w1 wk :
  resolve reg path w = (Ok start, w1) -> path_is_dir (w_fs w1) start = true ->
  fst (walk_loop reg (walk_fuel (w_fs w1)) q [start] wk w1) <> Ok None.
Proof.
  intros Hr Hd. destruct (resolve_start _ _ _ _ Hr Hd) as (Hv & _ & _).
  apply walk_loop_ends; [done|by apply Forall_singleton|apply start_weight].
Qed.

Lemma cap_json_items_prefix {A} (to_value : A -> Value) items :
  let (kept, dropped) := cap_json_items to_value items in
  exists rest, items = kept ++ rest /\ dropped = negb (is_empty rest).
Proof.
  unfold cap_json_items. pose proof (cap_items_spec (fun i => blen (json_text (to_value i))) 0 true items) as Hs.
  destruct (cap_items _ _ _ _) as [kept dropped]. destruct Hs as (rest & He & Hd & _). eauto.
Qed.

Lemma rank_results_spec limit cap candidates :
  let (results, truncated) := rank_results limit cap candidates in
  length results <= N.to_nat limit /\
  (forall r, r ∈ results -> r ∈ map rh_result candidates) /\
  (truncated = false -> length candidates < cap /\
     forall r, r ∈ map rh_result candidates -> r ∈ results).
Proof.
  unfold rank_results.
  pose proof (cap_json_items_prefix search_value (map rh_result (take (N.to_nat limit) (order_by hit_le candidates)))) as Hc.
  destruct (cap_json_items _ _) as [results over]. destruct Hc as (rest & He & Ho).
  assert (forall r, r ∈ map rh_result (order_by hit_le candidates) <-> r ∈ map rh_result candidates) as Hp.
  { intros r. pose proof (order_by_perm hit_le candidates) as Hperm.
    by apply (Permutation_map rh_result), (elem_of_Permutation_proper r) in Hperm. }
  split_and!.
  - apply (f_equal length) in He. rewrite length_map, length_take, length_app in He. lia.
  - intros r Hr. apply Hp. assert (r ∈ results ++ rest) as Hin by set_solver. rewrite <- He in Hin.
    apply list_elem_of_fmap in Hin as (h & -> & Hh). apply list_elem_of_fmap. exists h.
    split; [done|]. by eapply subseteq_take.
  - intros [[Hcap%Nat.leb_gt Hlim%N.ltb_ge]%orb_false_iff ->]%orb_false_iff. split; [done|].
    intros r Hr%Hp. destruct rest; [|done]. rewrite app_nil_r in He. rewrite <- He.
    rewrite take_ge; [done|]. pose proof (order_by_perm hit_le candidates) as Hl%Permutation_length. lia.
Qed.

(** A search returns at most the requested number of results, each a matching line
    of a file below the start directory, itself in the workspace, with its context; and
    when the result is not marked as truncated, every matching line of every UTF-8 file
    that the search reads is among them. *)
Theorem search_code_spec args w ex w' :
  search_code reg args w = (Ok ex, w') ->
  let limit := bounded (sc_max_results args) DEFAULT_SEARCH_RESULTS MAX_SEARCH_RESULTS in
  let q := search_query args limit in
  exists start results truncated stats,
    te_output ex = JObject [($"results", JArray (map search_value results));
                            ($"truncated", JBool truncated); ($"stats", stats)] /\
    tr_workspace_root reg `prefix_of` start /\ length results <= N.to_nat limit /\
    (forall r, r ∈ results -> exists c, hit_below reg q (w_fs w) start c r) /\
    (truncated = false -> forall s r, hit_below reg q (w_fs w) start (Utf8 s) r -> r ∈ results).
Proof.
  intros Hs limit q. unfold search_code in Hs. destruct (is_empty _); [done|].
  apply tbind_ok in Hs as (start & w1 & Hr & Hs).
  apply tbind_ok in Hs as (b & w2 & [-> ->]%look_ok & Hs).
  destruct (path_is_dir (w_fs w1) start) eqn:Hd; cbn [negb] in Hs; [|done].
  destruct (resolve_start _ _ _ _ Hr Hd) as (Hv & Hroot & Hfs).
  fold limit in Hs. fold q in Hs. destruct (match q_glob q with Some _ => _ | None => _ end); [done|].
  apply tbind_ok in Hs as (fuel & w2 & [-> ->]%look_ok & Hs).
  apply tbind_ok in Hs as (walked & w2 & Hw & Hs).
  assert (exists wk, walked = Some wk) as [wk ->].
  { destruct walked as [wk|]; [by exists wk|]. exfalso.
    eapply walk_loop_ends; [done|by apply Forall_singleton|apply start_weight|]. by rewrite Hw. }
  apply walk_loop_finds in Hw as [(more & Hm & Hms) Hc]; [|done|by apply Forall_singleton].
  cbn [or_else] in Hs. pose proof (rank_results_spec limit (q_cap q) (wk_candidates wk)) as Hrank.
  destruct (rank_results _ _ _) as [results truncated]. destruct Hrank as (Hlen & Hsub & Hall). injection Hs as <- <-.
  rewrite Hfs in *. exists start, results, truncated. eexists. split_and!; [reflexivity|done|done| |].
  - intros r Hin%Hsub. change (map rh_result _) with (found wk) in Hin.
    rewrite Hm in Hin. cbn in Hin. destruct (Hms r Hin) as (d & c & ->%list_elem_of_singleton & Hh). eauto.
  - intros Ht s r Hb. destruct (Hall Ht) as [Hcap Hin]. apply Hin.
    change (map rh_result _) with (found wk). apply Hc; [by rewrite length_found|]. exists start, s. set_solver.
Qed.
End Searching.

(** ** Reading a file *)

Section Reading.
Context `{Disk} `{UnicodeCase}.
Variable reg : ToolRegistry.

(** What [read_file] may show of a file: nothing of a credential file; of a configuration
    file or a log the redacted text; and at most [MAX_READ_LINES] lines. *)
Definition shown_lines (relative raw : str) (shown : list str) : Prop :=
  is_high_sensitivity_file relative = false /\ length shown <= N.to_nat MAX_READ_LINES /\
  exists before after, lines (fst (visible_text relative raw)) = before ++ shown ++ after.

Lemma line_range_spec args ls :
  let '(start_line, end_line, text) := line_range args ls in
  exists before shown after, ls = before ++ shown ++ after /\ text = join [LF] shown /\
    length shown <= N.to_nat MAX_READ_LINES /\
    (shown <> [] -> N.of_nat (length before) + 1 = start_line /\
                    N.of_nat (length before + length shown) = end_line)%N.
Proof.
  unfold line_range. set (s := N.max _ _). set (e := N.min _ _).
  assert (1 <= s)%N as Hs by lia.
  assert (e <= s + (MAX_READ_LINES - 1) /\ e <= N.of_nat (length ls))%N as [He1 He2]
    by (unfold e, sat_add; lia).
  destruct (N.leb_spec s e) as [Hse|Hse].
  - set (a := N.to_nat (s - 1)). set (n := N.to_nat (e - (s - 1))).
    exists (take a ls), (take n (drop a ls)), (drop n (drop a ls)).
    assert (length (take a ls) = a /\ length (take n (drop a ls)) = n) as [Ha Hn].
    { rewrite !length_take, length_drop. lia. }
    split_and!; [by rewrite !take_drop|done| |].
    + rewrite Hn. unfold n, MAX_READ_LINES in *. lia.
    + rewrite Ha, Hn. intros _. lia.
  - exists ls, [], []. split_and!; [by rewrite !app_nil_r|done|cbn [length]; lia|done].
Qed.

(** What read_file returns comes from a regular file of the workspace of at most
    MAX_READ_BYTES: nothing if it is a credential file, and otherwise consecutive lines,
    at most MAX_READ_LINES, of its text, redacted if it is a configuration file or a
    background log. *)
Theorem read_file_spec args w ex w' :
  read_file reg args w = (Ok ex, w') ->
  exists path c content,
    tr_workspace_root reg `prefix_of` path /\ node_at (w_fs w) path = Some (File c) /\
    (content_len c <= MAX_READ_BYTES)%N /\
    json_get $"content" (te_output ex) = Some (JString content) /\
    let relative := relative_path (tr_workspace_root reg) path in
    if is_high_sensitivity_file relative then content = []
    else exists raw shown, c = Utf8 raw /\ content = join [LF] shown /\
           shown_lines relative raw shown.
Proof.
  intros Hr. unfold read_file in Hr. apply tbind_ok in Hr as (path & w1 & Hp & Hr).
  apply tbind_ok in Hr as (b & w2 & [-> ->]%look_ok & Hr).
  destruct (path_is_file (w_fs w1) path) eqn:Hfile; cbn [negb] in Hr; [|done].
  unfold resolve, canonicalize in Hp. apply tbind_ok in Hp as (q & w2 & [_ ->]%of_result_ok & Hp).
  apply tbind_ok in Hp as (r & w2 & (Hc & Hfs & _)%of_io_ok%query_ok & Hp).
  destruct (path_starts_with r _) eqn:Ep in Hp; cbn [negb] in Hp; [|done]. injection Hp as -> ->.
  apply path_starts_with_true in Ep. rewrite <- Hfs in *. clear w Hfs.
  apply resolve_canonical, canonical_resolves in Hc.
  unfold path_is_file, stat in Hfile. rewrite Hc in Hfile.
  destruct (node_at (w_fs w1) path) as [[c| | |]|] eqn:Hn; try done. clear Hfile.
  apply tbind_ok in Hr as (size & w2 & [-> ->]%look_ok & Hr).
  unfold file_size, stat in Hr. rewrite Hc, Hn in Hr.
  destruct (N.ltb_spec MAX_READ_BYTES (content_len c)) as [Hb|Hb]; [done|].
  exists path, c. cbv zeta in Hr. cbv zeta.
  destruct (is_high_sensitivity_file _) eqn:Hsen.
  { injection Hr as <- <-. exists []. split_and!; done. }
  apply tbind_ok in Hr as (raw & w2 & (Hraw & _ & _)%of_io_ok%query_ok & Hr).
  unfold fs_read in Hraw. rewrite Hc in Hraw. cbn [rbind] in Hraw. rewrite Hn in Hraw.
  destruct c as [s|]; [|done]. injection Hraw as ->.
  destruct (visible_text _ raw) as [content red] eqn:Hv.
  pose proof (line_range_spec args (lines content)) as Hl.
  destruct (line_range args (lines content)) as [[a z] text].
  destruct Hl as (before & shown & after & Hls & -> & Hlen & _). injection Hr as <- <-.
  exists (join [LF] shown). split_and!; [done|done|done|by destruct red|].
  exists raw, shown. split_and!; [done|done|]. split_and!; [done|done|]. rewrite Hv. eauto.
Qed.
End Reading.

(** ** Examples *)

Definition search_args (query : string) : SearchCodeArgs :=
  mkSearchCodeArgs $query $"." None false None None.

Definition secret_fs : FileSystem :=
  list_to_map [([$"ws"], Directory); ([$"ws"; $"src"], Directory);
               ([$"ws"; $"src"; $"a.rs"], File (Utf8 $"fn a() {}"));
               ([$"ws"; $"server.key"], File (Utf8 $"PRIVATE 42"))].
Definition secret_world : World := mkWorld secret_fs 0 [].

Lemma quiet_disk_ok : @DiskOk quiet_disk.
Proof. by intros l. Qed.

Lemma search_walk_ends_witness :
  fst (walk_loop demo_reg (walk_fuel (w_fs (tick secret_world))) (search_query (search_args "fn") 10)
         [[$"ws"]] (mkWalk [] 0 0 0) (tick secret_world)) <> Ok None.
Proof.
  apply (search_walk_ends (H0 := quiet_disk_ok) demo_reg _ $"." secret_world);
    vm_compute; reflexivity.
Defined.

Definition search_result (query : string) : ToolExecution :=
  match fst (search_code demo_reg (search_args query) secret_world) with
  | Ok ex => ex | Err _ => mkToolExecution JNull [] end.

Lemma search_code_spec_witness :
  exists start results truncated stats,
    te_output (search_result "fn") =
      JObject [($"results", JArray (map search_value results));
               ($"truncated", JBool truncated); ($"stats", stats)] /\
    tr_workspace_root demo_reg `prefix_of` start /\ length results <= N.to_nat 50 /\
    (forall r, r ∈ results -> exists c, hit_below demo_reg (search_query (search_args "fn") 50)
       (w_fs secret_world) start c r) /\
    (truncated = false -> forall s r, hit_below demo_reg (search_query (search_args "fn") 50)
       (w_fs secret_world) start (Utf8 s) r -> r ∈ results).
Proof.
  apply (search_code_spec (H0 := quiet_disk_ok) demo_reg (search_args "fn") secret_world
           (search_result "fn") (snd (search_code demo_reg (search_args "fn") secret_world))).
  vm_compute. reflexivity.
Defined.

Definition read_result (path : string) : ToolExecution :=
  match fst (read_file demo_reg (mkReadFileArgs $path None None) secret_world) with
  | Ok ex => ex | Err _ => mkToolExecution JNull [] end.

Lemma read_file_spec_witness :
  exists path c content,
    tr_workspace_root demo_reg `prefix_of` path /\ node_at (w_fs secret_world) path = Some (File c) /\
    (content_len c <= MAX_READ_BYTES)%N /\
    json_get $"content" (te_output (read_result "src/a.rs")) = Some (JString content) /\
    let relative := relative_path (tr_workspace_root demo_reg) path in
    if is_high_sensitivity_file relative then content = []
    else exists raw shown, c = Utf8 raw /\ content = join [LF] shown /\
           shown_lines relative raw shown.
Proof.
  apply (read_file_spec demo_reg (mkReadFileArgs $"src/a.rs" None None) secret_world
           (read_result "src/a.rs")
           (snd (read_file demo_reg (mkReadFileArgs $"src/a.rs" None None) secret_world))).
  vm_compute. reflexivity.
Defined.

(** A credential file whose content read_file withholds is searched like any other
    file: search_code returns its matching lines as they are. *)
Theorem search_shows_withheld :
  json_get $"content" (te_output (read_result "server.key")) = Some (JString []) /\
  json_get $"results" (te_output (search_result "PRIVATE"))
  = Some (JArray [search_value (mkSearchResult $"server.key" 1 $"PRIVATE 42" [] [])]).
Proof. split; vm_compute; reflexivity. Qed.
