(* ===== verification/Compression.v ===== *)
(** * Compression of tool output (crates/xcoding-context/src/compression.rs)

    The smaller form of a successful tool output that a request carries; the stored
    message keeps the whole output.  [serde_json] is the pair of [json_text] and
    [from_str]. *)

From S2P Require Import Prelude.
From S2P Require Import Protocol.
From S2P Require Import Transcript.
From S2P Require Import Text.
From S2P Require Import ToolArgs.

Definition RECOVERY_HEADER_PREFIX : str := $"[XCoding compressed tool output;".
Definition RUN_COMMAND_HEAD_LINES : nat := 16.
Definition RUN_COMMAND_TAIL_LINES : nat := 16.
Definition RUN_COMMAND_DIAGNOSTIC_LINES : nat := 16.
Definition RUN_COMMAND_LINE_CHARS : nat := 1200.
Definition DIAGNOSTIC_KEYWORDS : list str :=
  [$"error"; $"warning"; $"panic"; $"failed"; $"exception"].

Record CompressionOptions := mkCompressionOptions {
  co_enabled : bool; co_min_chars : nat; co_min_savings_percent : nat }.
Definition default_options : CompressionOptions := mkCompressionOptions false 4000 20.

Record CompressionResult := mkCompressionResult {
  cr_content : str; cr_compressed : bool; cr_strategy : option str }.
Definition unchanged_result (content : str) : CompressionResult :=
  mkCompressionResult content false None.

(** ** One stream *)

Definition is_diagnostic_line (line : str) : bool :=
  let lower := to_ascii_lowercase line in
  existsb (fun keyword => contains keyword lower) DIAGNOSTIC_KEYWORDS.

Definition truncate_line (line : str) (max_chars : nat) : str :=
  if length line <=? max_chars then line
  else take max_chars line ++ $"... [line truncated]".

(** [BTreeSet<usize>] *)
Fixpoint set_insert (i : nat) (s : list nat) : list nat :=
  match s with
  | [] => [i]
  | j :: r => if i =? j then s else if i <? j then i :: s else j :: set_insert i r
  end.

(** The loop over the lines: [index] of the next line, [count] diagnostics so far. *)
Fixpoint select_diagnostics (index count : nat) (seen : list str) (selected : list nat)
    (ls : list str) : list nat :=
  match ls with
  | [] => selected
  | line :: r =>
    if RUN_COMMAND_DIAGNOSTIC_LINES <=? count then selected
    else if negb (is_diagnostic_line line) || one_of line seen
    then select_diagnostics (S index) count seen selected r
    else select_diagnostics (S index) (S count) (line :: seen) (set_insert index selected) r
  end.

Definition select_lines (ls : list str) : list nat :=
  let n := length ls in
  let head := foldl (fun s i => set_insert i s) [] (seq 0 (Nat.min n RUN_COMMAND_HEAD_LINES)) in
  let tail_start := n - RUN_COMMAND_TAIL_LINES in
  let tail := foldl (fun s i => set_insert i s) head (seq tail_start (n - tail_start)) in
  select_diagnostics 0 0 [] tail ls.

Definition omitted_note (n : nat) : str := $"[... " ++ show_nat n ++ $" lines omitted ...]".

Fixpoint emit_lines (ls : list str) (previous : option nat) (selected : list nat) : list str :=
  match selected with
  | [] =>
    match previous with
    | Some p => if p + 1 <? length ls then [omitted_note (length ls - p - 1)] else []
    | None => []
    end
  | index :: r =>
    match previous with
    | Some p => if p + 1 <? index then [omitted_note (index - p - 1)] else []
    | None => []
    end
    ++ truncate_line (nth index ls []) RUN_COMMAND_LINE_CHARS :: emit_lines ls (Some index) r
  end.

Definition compact_stream (text : str) : str :=
  let ls := lines text in
  if is_empty ls then text
  else
    let has_long_line := existsb (fun line => RUN_COMMAND_LINE_CHARS <? length line) ls in
    if (length ls <=? RUN_COMMAND_HEAD_LINES + RUN_COMMAND_TAIL_LINES) && negb has_long_line
    then text
    else join [LF] (emit_lines ls None (select_lines ls)).

(** ** Values *)

Definition as_i64 (v : Value) : option Z :=
  match v with
  | JInt z => if ((- 2 ^ 63 <=? z) && (z <? 2 ^ 63))%Z then Some z else None
  | _ => None
  end.
Definition as_u64 (v : Value) : option N :=
  match v with
  | JInt z => if ((0 <=? z) && (z <? 2 ^ 64))%Z then Some (Z.to_N z) else None
  | _ => None
  end.
Definition as_array (v : Value) : option (list Value) :=
  match v with JArray l => Some l | _ => None end.
Definition as_object (v : Value) : option (list (list N * Value)) :=
  match v with JObject fields => Some fields | _ => None end.

(** One turn of the loop over the two streams. *)
Definition compact_field (object : Value) (st : list (list N * Value) * bool) (key : str)
  : list (list N * Value) * bool :=
  match json_get key object ≫= as_str with
  | Some text =>
    let next := compact_stream text in
    if next =s text then st else (btree_insert key (JString next) (fst st), true)
  | None => st
  end.

Definition command_succeeded (object : Value) : bool :=
  bool_decide (json_get $"success" object ≫= as_bool = Some true)
  && bool_decide (json_get $"exit_code" object ≫= as_i64 = Some 0%Z)
  && bool_decide (json_get $"timed_out" object ≫= as_bool = Some false).

Definition compact_run_command (value : Value) : option Value :=
  match as_object value with
  | None => None
  | Some fields =>
    if negb (command_succeeded value) then None
    else
      let (compacted, changed) :=
        foldl (compact_field value) (fields, false) [$"stdout"; $"stderr"] in
      if changed then Some (JObject compacted) else None
  end.

(** A field that is absent or fits. *)
Definition absent_or (key : str) (ok : Value -> bool) (object : Value) : bool :=
  match json_get key object with Some v => ok v | None => true end.
Definition is_some {A} (o : option A) : bool := match o with Some _ => true | None => false end.

Definition STATS_FIELDS : list str :=
  [$"directories_scanned"; $"files_scanned"; $"bytes_scanned"; $"elapsed_ms"].

Definition compact_result (result : Value) : option Value :=
  match as_object result with
  | None => None
  | Some _ =>
    match json_get $"path" result, json_get $"line" result, json_get $"text" result with
    | Some path, Some line, Some text =>
      if is_some (as_str path) && is_some (as_u64 line) && is_some (as_str text)
         && absent_or $"before" (fun v => is_some (as_array v)) result
         && absent_or $"after" (fun v => is_some (as_array v)) result
      then Some (JObject (btree_insert $"text" text
                   (btree_insert $"line" line (btree_insert $"path" path []))))
      else None
    | _, _, _ => None
    end
  end.

(** [?] in the loop over the results. *)
Fixpoint compact_results (results : list Value) : option (list Value) :=
  match results with
  | [] => Some []
  | v :: r =>
    match compact_result v with
    | None => None
    | Some c => match compact_results r with Some cs => Some (c :: cs) | None => None end
    end
  end.

Definition compact_search_code (value : Value) : option Value :=
  match as_object value with
  | None => None
  | Some fields =>
    if negb (absent_or $"success" (fun v => bool_decide (as_bool v = Some true)) value)
       || negb (absent_or $"timed_out" (fun v => bool_decide (as_bool v = Some false)) value)
    then None
    else
      match json_get $"results" value ≫= as_array,
            json_get $"truncated" value ≫= as_bool,
            json_get $"stats" value with
      | Some results, Some _, Some stats =>
        if is_some (as_object stats)
           && forallb (fun key => is_some (json_get key stats ≫= as_u64)) STATS_FIELDS
        then match compact_results results with
             | Some compacted => Some (JObject (btree_insert $"results" (JArray compacted) fields))
             | None => None
             end
        else None
      | _, _, _ => None
      end
  end.

(** ** The two entry points *)

(** [serde_json::from_str] *)
Class JsonParse := from_str : list N -> option Value.

Section Compress.
Context `{JsonText} `{JsonParse}.

Definition recovery_header (message_id strategy : str) (original_chars : nat) : str :=
  RECOVERY_HEADER_PREFIX ++ $" message_id=" ++ message_id ++ $"; strategy=" ++ strategy
  ++ $"; original_chars=" ++ show_nat original_chars
  ++ $"; use history_read with message_id=" ++ message_id ++ $" to recover.]".

Definition finish (original compacted strategy message_id : str) (original_chars : nat)
    (options : CompressionOptions) : CompressionResult :=
  if original_chars <=? length compacted then unchanged_result original
  else
    let content := recovery_header message_id strategy original_chars ++ LF :: compacted in
    let final_chars := length content in
    if original_chars <=? final_chars then unchanged_result original
    else
      let saved := original_chars - final_chars in
      let min_savings := Nat.min (co_min_savings_percent options) 100 in
      if saved * 100 <? original_chars * min_savings then unchanged_result original
      else mkCompressionResult content true (Some strategy).

(** The common early returns. *)
Definition skips (content message_id : str) (options : CompressionOptions) : bool :=
  negb (co_enabled options) || is_empty (trim message_id)
  || starts_with RECOVERY_HEADER_PREFIX (trim_start content)
  || (length content <? co_min_chars options).

Definition compress_tool_output (tool_name content original_message_id : str)
    (options : CompressionOptions) : CompressionResult :=
  if skips content original_message_id options then unchanged_result content
  else if negb (one_of tool_name [$"run_command"; $"search_code"]) then unchanged_result content
  else
    match from_str content with
    | None => unchanged_result content
    | Some value =>
      let compacted := if tool_name =s $"run_command" then compact_run_command value
                       else compact_search_code value in
      match compacted with
      | None => unchanged_result content
      | Some c => finish content (json_text c) tool_name original_message_id (length content) options
      end
    end.

Definition compress_stored_tool_output (content message_id : str)
    (options : CompressionOptions) : CompressionResult :=
  if skips content message_id options then unchanged_result content
  else
    match from_str content with
    | None => unchanged_result content
    | Some value =>
      match compact_run_command value with
      | Some c => finish content (json_text c) $"run_command" message_id (length content) options
      | None =>
        match compact_search_code value with
        | Some c => finish content (json_text c) $"search_code" message_id (length content) options
        | None => unchanged_result content
        end
      end
    end.
End Compress.

(** ** What a compressed tool output keeps

    A compacted stream accounts for every line: each is shown, or counted in a note at
    its place.  A compressed output is shorter by the demanded share, names the message
    that holds the original, and is not compressed again. *)

(** ** The set of selected lines *)

Lemma elem_of_set_insert i j s : i ∈ set_insert j s <-> i = j \/ i ∈ s.
Proof.
  induction s as [|k s IH]; cbn [set_insert]; [set_solver|].
  destruct (Nat.eqb_spec j k) as [->|]; [set_solver|].
  destruct (j <? k); [set_solver|]. rewrite !elem_of_cons, IH. tauto.
Qed.

Lemma set_insert_sorted j s : StronglySorted lt s -> StronglySorted lt (set_insert j s).
Proof.
  induction 1 as [|k s Hs IH Hk]; cbn [set_insert]; [by repeat constructor|].
  destruct (Nat.eqb_spec j k) as [->|Hn]; [by constructor|].
  destruct (Nat.ltb_spec j k) as [Hlt|Hge].
  - constructor; [by constructor|]. constructor; [done|]. eapply Forall_impl; [exact Hk|]. simpl. lia.
  - constructor; [done|]. apply Forall_forall. intros x [-> |Hx]%elem_of_set_insert; [lia|].
    by apply (proj1 (Forall_forall _ _) Hk).
Qed.

Lemma elem_of_inserts i s js : i ∈ foldl (fun s i => set_insert i s) s js <-> i ∈ js \/ i ∈ s.
Proof.
  revert s. induction js as [|j js IH]; intros s; simpl; [set_solver|].
  rewrite IH, elem_of_set_insert, elem_of_cons. tauto.
Qed.

Lemma inserts_sorted s js :
  StronglySorted lt s -> StronglySorted lt (foldl (fun s i => set_insert i s) s js).
Proof. revert s. induction js as [|j js IH]; intros s Hs; simpl; auto using set_insert_sorted. Qed.

(** Two increasing lists with the same elements are equal. *)
Lemma increasing_unique a b :
  StronglySorted lt a -> StronglySorted lt b -> (forall i, i ∈ a <-> i ∈ b) -> a = b.
Proof.
  intros Ha. revert b. induction Ha as [|x a Ha IH Hx]; intros b Hb Hab.
  - destruct b as [|y b]; [done|]. specialize (Hab y). set_solver.
  - destruct Hb as [|y b Hb Hy]; [specialize (Hab x); set_solver|].
    rewrite Forall_forall in Hx, Hy.
    assert (x = y) as ->.
    { assert (x ∈ y :: b) as [?|Hxb]%elem_of_cons by (apply Hab; set_solver); [done|].
      assert (y ∈ x :: a) as [?|Hya]%elem_of_cons by (apply Hab; set_solver); [done|].
      specialize (Hx y Hya). specialize (Hy x Hxb). lia. }
    f_equal. apply IH; [done|]. intros i. specialize (Hab i). rewrite !elem_of_cons in Hab.
    split; intros Hi.
    + destruct Hab as [[->|?] _]; [by right| |done]. specialize (Hx y Hi). lia.
    + destruct Hab as [_ [->|?]]; [by right| |done]. specialize (Hy y Hi). lia.
Qed.

Lemma seq_increasing a n : StronglySorted lt (seq a n).
Proof.
  revert a. induction n as [|n IH]; intros a; [constructor|].
  constructor; [apply IH|]. apply Forall_forall. intros x Hx%elem_of_seq. lia.
Qed.

Lemma filter_increasing f l : StronglySorted lt l -> StronglySorted lt (List.filter f l).
Proof.
  induction 1 as [|x l Hl IH Hx]; simpl; [constructor|]. destruct (f x); [|done].
  constructor; [done|]. apply Forall_forall. intros y Hy. rewrite list_elem_of_In, filter_In in Hy.
  destruct Hy as [Hy _]. rewrite <- list_elem_of_In in Hy. by apply (proj1 (Forall_forall _ _) Hx).
Qed.

(** ** Which lines are shown *)

(** A line with a keyword that no earlier line repeats. *)
Definition new_diagnostic (ls : list str) (i : nat) : bool :=
  match ls !! i with
  | Some line => is_diagnostic_line line && negb (one_of line (take i ls))
  | None => false
  end.
Definition diagnostics (ls : list str) : list nat :=
  List.filter (new_diagnostic ls) (seq 0 (length ls)).

(** The first lines, the last lines, and the first diagnostics. *)
Definition wanted (ls : list str) (i : nat) : bool :=
  (i <? RUN_COMMAND_HEAD_LINES) || (length ls - RUN_COMMAND_TAIL_LINES <=? i)
  || existsb (Nat.eqb i) (take RUN_COMMAND_DIAGNOSTIC_LINES (diagnostics ls)).

Lemma select_diagnostics_spec pre post count seen selected :
  (forall l, is_diagnostic_line l = true -> l ∈ seen <-> l ∈ pre) ->
  select_diagnostics (length pre) count seen selected post =
  foldl (fun s i => set_insert i s) selected
    (take (RUN_COMMAND_DIAGNOSTIC_LINES - count)
       (List.filter (new_diagnostic (pre ++ post)) (seq (length pre) (length post)))).
Proof.
  revert pre count seen selected. induction post as [|line post IH]; intros pre count seen selected Hseen;
    cbn [select_diagnostics length seq List.filter]; [by rewrite take_nil|].
  destruct (Nat.leb_spec RUN_COMMAND_DIAGNOSTIC_LINES count) as [Hc|Hc].
  { replace (RUN_COMMAND_DIAGNOSTIC_LINES - count) with 0 by lia. done. }
  assert (new_diagnostic (pre ++ line :: post) (length pre)
          = is_diagnostic_line line && negb (one_of line seen)) as ->.
  { unfold new_diagnostic. rewrite list_lookup_middle, take_app_length by done.
    destruct (is_diagnostic_line line) eqn:Ed; [|done]. cbn [andb]. f_equal.
    apply Bool.eq_true_iff_eq. rewrite !one_of_true. symmetry. by apply Hseen. }
  replace (S (length pre)) with (length (pre ++ [line])) by (rewrite length_app; simpl; lia).
  replace (pre ++ line :: post) with ((pre ++ [line]) ++ post) by (by rewrite <- app_assoc).
  destruct (is_diagnostic_line line && negb (one_of line seen)) eqn:E.
  - apply andb_prop in E as [Ed En]. rewrite Ed. apply negb_true_iff in En as En'. rewrite En'. cbn [negb orb].
    rewrite IH.
    + replace (RUN_COMMAND_DIAGNOSTIC_LINES - count) with (S (RUN_COMMAND_DIAGNOSTIC_LINES - S count)) by lia.
      done.
    + intros l Hl. specialize (Hseen l Hl). set_solver.
  - assert (negb (is_diagnostic_line line) || one_of line seen = true) as ->.
    { destruct (is_diagnostic_line line), (one_of line seen); done. }
    apply IH. intros l Hl. rewrite Hseen by done. rewrite elem_of_app, list_elem_of_singleton.
    split; [by left|]. intros [?| ->]; [done|]. rewrite Hl in E. cbn in E.
    apply negb_false_iff, one_of_true in E. by apply Hseen.
Qed.

Lemma select_lines_spec ls : select_lines ls = List.filter (wanted ls) (seq 0 (length ls)).
Proof.
  unfold select_lines. set (n := length ls). set (head := foldl _ [] _). set (tail := foldl _ head _).
  pose proof (select_diagnostics_spec [] ls 0 [] tail ltac:(done)) as Hsel.
  cbn [app length] in Hsel. rewrite Hsel, Nat.sub_0_r. clear Hsel.
  change (List.filter (new_diagnostic ls) (seq 0 (length ls))) with (diagnostics ls).
  apply increasing_unique.
  - apply inserts_sorted, inserts_sorted, inserts_sorted. constructor.
  - apply filter_increasing, seq_increasing.
  - intros i. unfold tail, head. rewrite !elem_of_inserts, !elem_of_seq, elem_of_nil.
    rewrite (list_elem_of_In (List.filter _ _)), filter_In, <- list_elem_of_In, elem_of_seq.
    unfold wanted. rewrite !orb_true_iff, Nat.ltb_lt, Nat.leb_le, existsb_exists.
    assert (i ∈ take RUN_COMMAND_DIAGNOSTIC_LINES (diagnostics ls) -> i < n) as Hd.
    { intros Hi. apply subseteq_take in Hi. unfold diagnostics in Hi.
      rewrite list_elem_of_In, filter_In, <- list_elem_of_In, elem_of_seq in Hi. lia. }
    assert ((exists x, In x (take RUN_COMMAND_DIAGNOSTIC_LINES (diagnostics ls)) /\ (i =? x) = true)
            <-> i ∈ take RUN_COMMAND_DIAGNOSTIC_LINES (diagnostics ls)) as ->.
    { split; [intros (x & Hx & ->%Nat.eqb_eq); by apply list_elem_of_In|].
      intros Hi. exists i. rewrite <- list_elem_of_In, Nat.eqb_eq. done. }
    fold n. unfold RUN_COMMAND_HEAD_LINES, RUN_COMMAND_TAIL_LINES in *. intuition lia.
Qed.

(** ** The text that is shown *)

(** A line, or a note for [count] lines from [from]. *)
Inductive Item := Shown (i : nat) | Omitted (from count : nat).
Definition covered (it : Item) : list nat :=
  match it with Shown i => [i] | Omitted from count => seq from count end.
Definition render_item (ls : list str) (it : Item) : str :=
  match it with
  | Shown i => truncate_line (nth i ls []) RUN_COMMAND_LINE_CHARS
  | Omitted _ count => omitted_note count
  end.

(** The items from position [from] to the end. *)
Fixpoint items (n from : nat) (selected : list nat) : list Item :=
  match selected with
  | [] => if from <? n then [Omitted from (n - from)] else []
  | i :: r => (if from <? i then [Omitted from (i - from)] else []) ++ Shown i :: items n (S i) r
  end.

Lemma emit_lines_items ls p selected :
  emit_lines ls (Some p) selected = map (render_item ls) (items (length ls) (S p) selected).
Proof.
  revert p. induction selected as [|i r IH]; intros p; cbn [emit_lines items];
    rewrite Nat.add_1_r.
  - replace (length ls - p - 1) with (length ls - S p) by lia. by destruct (S p <? length ls).
  - rewrite map_app. cbn [map]. rewrite <- IH. f_equal.
    replace (i - p - 1) with (i - S p) by lia. by destruct (S p <? i).
Qed.

Lemma items_cover n from selected :
  StronglySorted lt selected -> Forall (fun i => from <= i < n) selected -> from <= n ->
  concat (map covered (items n from selected)) = seq from (n - from).
Proof.
  intros Hs. revert from. induction Hs as [|i r Hr IH Hi]; intros from Hf Hle; cbn [items].
  - destruct (Nat.ltb_spec from n) as [Hn|Hn]; cbn; [by rewrite app_nil_r|].
    by replace (n - from) with 0 by lia.
  - apply Forall_cons in Hf as [Hfi Hf].
    assert (concat (map covered (Shown i :: items n (S i) r)) = seq i (n - i)) as Hrest.
    { cbn. rewrite IH; [|rewrite Forall_forall in *; intros x Hx; specialize (Hi x Hx); specialize (Hf x Hx); lia|lia].
      replace (n - i) with (S (n - S i)) by lia. done. }
    destruct (Nat.ltb_spec from i) as [Hlt|Hge]; cbn [app].
    + transitivity (seq from (i - from) ++ concat (map covered (Shown i :: items n (S i) r))); [done|].
      rewrite Hrest.
      replace (seq i (n - i)) with (seq (from + (i - from)) (n - i)) by (f_equal; lia).
      rewrite <- seq_app. f_equal. lia.
    + rewrite Hrest. by replace i with from by lia.
Qed.

Lemma items_shown n from selected i : Shown i ∈ items n from selected <-> i ∈ selected.
Proof.
  revert from. induction selected as [|j r IH]; intros from; cbn [items].
  - destruct (from <? n); set_solver.
  - rewrite elem_of_app, !elem_of_cons, IH. destruct (from <? j); set_solver.
Qed.

(** A stream of at most 32 lines without an overlong one is kept; any other is
    rewritten as lines and notes that cover every line once and in order: shown are
    exactly the first sixteen lines, the last sixteen and the first sixteen different
    lines with an error keyword, and every other line is counted by the note in its
    place. *)
Theorem compact_stream_accounts text :
  compact_stream text = text /\
    length (lines text) <= RUN_COMMAND_HEAD_LINES + RUN_COMMAND_TAIL_LINES /\
    Forall (fun line => length line <= RUN_COMMAND_LINE_CHARS) (lines text) \/
  exists its, compact_stream text = join [LF] (map (render_item (lines text)) its) /\
    concat (map covered its) = seq 0 (length (lines text)) /\
    forall i, Shown i ∈ its <-> i < length (lines text) /\ wanted (lines text) i = true.
Proof.
  unfold compact_stream. set (ls := lines text). destruct (is_empty ls) eqn:He.
  { left. destruct ls; [|done]. split_and!; [done|simpl; lia|constructor]. }
  destruct (_ && _) eqn:Ek.
  { left. apply andb_prop in Ek as [Hl%Nat.leb_le Hn%negb_true_iff]. split_and!; [done|done|].
    apply Forall_forall. intros line Hline. apply Nat.nlt_ge. intros Hlong.
    apply not_true_iff_false in Hn. apply Hn. apply existsb_exists. exists line.
    split; [by apply list_elem_of_In|by apply Nat.ltb_lt]. }
  right.
  assert (0 < length ls) as Hn by (destruct ls; [done|simpl; lia]).
  rewrite select_lines_spec. set (selected := List.filter (wanted ls) (seq 0 (length ls))).
  assert (forall i, i ∈ selected <-> i < length ls /\ wanted ls i = true) as Hsel.
  { intros i. unfold selected. rewrite list_elem_of_In, filter_In, <- list_elem_of_In, elem_of_seq.
    intuition lia. }
  assert (StronglySorted lt selected) as Hsort by apply filter_increasing, seq_increasing.
  exists (items (length ls) 0 selected). split_and!.
  - f_equal. assert (exists r, selected = 0 :: r) as [r Er].
    { unfold selected. destruct (length ls) as [|k]; [lia|]. cbn [seq List.filter].
      unfold wanted at 1. cbn [Nat.ltb Nat.leb orb RUN_COMMAND_HEAD_LINES]. eauto. }
    rewrite Er. cbn [emit_lines items app map]. by rewrite emit_lines_items.
  - rewrite items_cover; [by rewrite Nat.sub_0_r|done| |lia].
    apply Forall_forall. intros i Hi%Hsel. lia.
  - intros i. by rewrite items_shown.
Qed.

(** ** The contract of a compressed output *)

Lemma starts_with_prefix p s : starts_with p (p ++ s) = true.
Proof. unfold starts_with. induction p as [|c p IH]; cbn; [done|]. by rewrite N.eqb_refl. Qed.

Lemma untrimmed (p s : str) :
  match p with c :: _ => is_whitespace c | [] => true end = false -> trim_start (p ++ s) = p ++ s.
Proof.
  destruct p as [|c p]; [done|]. intros Hc. unfold trim_start, trim_start_matches. cbn [app drop_while].
  by rewrite Hc.
Qed.

Section Contract.
Context `{JsonText} `{JsonParse}.

Lemma skips_compressed id strategy n rest id' options :
  skips (recovery_header id strategy n ++ rest) id' options = true.
Proof.
  unfold skips. unfold recovery_header. rewrite <- app_assoc, untrimmed by (vm_compute; reflexivity).
  by rewrite starts_with_prefix, orb_true_r.
Qed.

(** What a compressed result is, in terms of the compacted value. *)
Definition compresses_to (content message_id strategy : str) (options : CompressionOptions)
    (compacted : Value) (r : CompressionResult) : Prop :=
  let header := recovery_header message_id strategy (length content) in
  r = mkCompressionResult (header ++ LF :: json_text compacted) true (Some strategy) /\
  co_enabled options = true /\ trim message_id <> [] /\ co_min_chars options <= length content /\
  length (cr_content r) < length content /\
  length content * Nat.min (co_min_savings_percent options) 100
    <= (length content - length (cr_content r)) * 100.

Lemma finish_spec content c strategy message_id options :
  skips content message_id options = false ->
  let r := finish content (json_text c) strategy message_id (length content) options in
  r = unchanged_result content \/ compresses_to content message_id strategy options c r.
Proof.
  intros Hsk r. unfold skips in Hsk. rewrite !orb_false_iff in Hsk. destruct Hsk as [[[H1 H2] _] H3].
  apply negb_false_iff in H1. apply Nat.ltb_ge in H3. unfold r, finish. clear r.
  destruct (length content <=? length (json_text c)); [by left|].
  destruct (Nat.leb_spec (length content) (length (recovery_header message_id strategy (length content) ++ LF :: json_text c)))
    as [Hl|Hl]; [by left|].
  destruct (Nat.ltb_spec ((length content - length (recovery_header message_id strategy (length content) ++ LF :: json_text c)) * 100)
    (length content * Nat.min (co_min_savings_percent options) 100)) as [Hp|Hp]; [by left|].
  right. unfold compresses_to. cbn [cr_content]. split_and!; try done. intros E. by rewrite E in H2.
Qed.

(** A tool output, fresh or stored, is sent as it is, or in a form that is shorter
    by at least the demanded share, starts with the header that names the stored
    message, holds the compacted value of a run that succeeded, and is never compressed
    a second time. *)
Theorem compression_contract content message_id options r :
  (exists tool_name, r = compress_tool_output tool_name content message_id options) \/
  r = compress_stored_tool_output content message_id options ->
  r = unchanged_result content \/
  exists value compacted strategy,
    from_str content = Some value /\
    (strategy = $"run_command" /\ compact_run_command value = Some compacted \/
     strategy = $"search_code" /\ compact_search_code value = Some compacted) /\
    compresses_to content message_id strategy options compacted r /\
    forall tool_name id' options',
      compress_tool_output tool_name (cr_content r) id' options' = unchanged_result (cr_content r) /\
      compress_stored_tool_output (cr_content r) id' options' = unchanged_result (cr_content r).
Proof.
  assert (forall value c strategy, skips content message_id options = false ->
    from_str content = Some value ->
    (strategy = $"run_command" /\ compact_run_command value = Some c \/
     strategy = $"search_code" /\ compact_search_code value = Some c) ->
    r = finish content (json_text c) strategy message_id (length content) options ->
    r = unchanged_result content \/ exists value compacted strategy,
      from_str content = Some value /\
      (strategy = $"run_command" /\ compact_run_command value = Some compacted \/
       strategy = $"search_code" /\ compact_search_code value = Some compacted) /\
      compresses_to content message_id strategy options compacted r /\
      forall tool_name id' options',
        compress_tool_output tool_name (cr_content r) id' options' = unchanged_result (cr_content r) /\
        compress_stored_tool_output (cr_content r) id' options' = unchanged_result (cr_content r)) as Hfin.
  { intros value c strategy Hsk Hv Hc ->.
    destruct (finish_spec content c strategy message_id options Hsk) as [->|Hto]; [by left|]. right.
    exists value, c, strategy. split_and!; [done|done|done|]. destruct Hto as [-> _]. cbn [cr_content].
    intros tool_name id' options'. unfold compress_tool_output, compress_stored_tool_output.
    by rewrite !skips_compressed. }
  intros [[tool_name Hr]|Hr].
  - unfold compress_tool_output in Hr. destruct (skips _ _ _) eqn:Hsk; [by left|].
    destruct (one_of _ _) eqn:Ht; cbn [negb] in Hr; [|by left].
    destruct (from_str content) as [value|] eqn:Hv; [|by left].
    apply one_of_true in Ht. rewrite !elem_of_cons, elem_of_nil in Ht.
    destruct Ht as [->|[->|[]]]; rewrite ?str_eqb_refl in Hr.
    + destruct (compact_run_command value) as [c|] eqn:Hc; [|by left]. eapply Hfin; eauto.
    + change ($"search_code" =s $"run_command") with false in Hr. cbv iota zeta in Hr.
      destruct (compact_search_code value) as [c|] eqn:Hc; [|by left]. eapply Hfin; eauto.
  - unfold compress_stored_tool_output in Hr. destruct (skips _ _ _) eqn:Hsk; [by left|].
    destruct (from_str content) as [value|] eqn:Hv; [|by left].
    destruct (compact_run_command value) as [c|] eqn:Hc; [eapply Hfin; eauto|].
    destruct (compact_search_code value) as [c|] eqn:Hc'; [|by left]. eapply Hfin; eauto.
Qed.
End Contract.

(** ** What a compacted value keeps *)

Lemma json_get_insert key k v fields :
  json_get key (JObject (btree_insert k v fields))
  = if k =s key then Some v else json_get key (JObject fields).
Proof.
  unfold json_get. induction fields as [|[k' v'] r IH]; cbn [btree_insert List.find fst].
  - destruct (k =s key); done.
  - destruct (k =s k') eqn:E; cbn [List.find fst].
    + apply str_eqb_true in E as ->. by destruct (k' =s key).
    + destruct (str_ltb k k'); cbn [List.find fst]; [by destruct (k =s key)|].
      destruct (k' =s key) eqn:E2; [|done]. apply str_eqb_true in E2 as ->. by rewrite E.
Qed.

(** What a stream field becomes. *)
Definition compacted_stream (v : Value) (key : str) : option Value :=
  match json_get key v ≫= as_str with
  | Some text => Some (JString (compact_stream text))
  | None => json_get key v
  end.

Lemma compact_field_get v st key k :
  json_get key (JObject (fst st)) = json_get key v ->
  json_get k (JObject (fst (compact_field v st key)))
  = if key =s k then compacted_stream v key else json_get k (JObject (fst st)).
Proof.
  intros Hst. unfold compact_field, compacted_stream.
  destruct (json_get key v ≫= as_str) as [text|] eqn:Et.
  - destruct (compact_stream text =s text) eqn:Ec.
    + destruct (key =s k) eqn:Ek; [|done]. apply str_eqb_true in Ek as ->, Ec as ->. rewrite Hst.
      destruct (json_get k v) as [[]|]; try done. cbn in Et. by injection Et as ->.
    + cbn [fst]. apply json_get_insert.
  - destruct (key =s k) eqn:Ek; [|done]. apply str_eqb_true in Ek as ->. done.
Qed.

(** The same place, number and text, and nothing else. *)
Definition same_hit (v c : Value) : Prop :=
  exists path line text,
    json_get $"path" v = Some path /\ json_get $"line" v = Some line /\
    json_get $"text" v = Some text /\
    c = JObject [($"line", line); ($"path", path); ($"text", text)].

Lemma compact_result_same v c : compact_result v = Some c -> same_hit v c.
Proof.
  unfold compact_result. destruct (as_object v); [|done].
  destruct (json_get $"path" v) as [path|] eqn:E1; [|done].
  destruct (json_get $"line" v) as [line|] eqn:E2; [|done].
  destruct (json_get $"text" v) as [text|] eqn:E3; [|done].
  destruct (_ && _); [|done]. intros [= <-]. exists path, line, text. split_and!; done.
Qed.

Lemma compact_results_same vs cs : compact_results vs = Some cs -> Forall2 same_hit vs cs.
Proof.
  revert cs. induction vs as [|v vs IH]; intros cs; cbn [compact_results]; [intros [= <-]; constructor|].
  destruct (compact_result v) as [c|] eqn:Ec; [|done].
  destruct (compact_results vs) as [cs'|]; [|done]. intros [= <-].
  constructor; [by apply compact_result_same|auto].
Qed.

(** Compaction changes only what it may: of a run that succeeded it replaces the two
    streams by their compacted texts, of a search it keeps the path, the line and the text
    of every result in order; every other field has its value, and a run that failed, timed
    out or ended with another exit code is not compacted. *)
Theorem compaction_keeps_fields value compacted :
  (compact_run_command value = Some compacted ->
     command_succeeded value = true /\
     forall key, json_get key compacted =
       if one_of key [$"stdout"; $"stderr"] then compacted_stream value key
       else json_get key value) /\
  (compact_search_code value = Some compacted ->
     (forall key, (key =s $"results") = false -> json_get key compacted = json_get key value) /\
     exists results kept,
       json_get $"results" value = Some (JArray results) /\
       json_get $"results" compacted = Some (JArray kept) /\ Forall2 same_hit results kept).
Proof.
  split.
  - unfold compact_run_command. destruct value as [| | | | | |fields]; try done. cbn [as_object].
    set (v := JObject fields). destruct (command_succeeded v); cbn [negb]; [|done].
    destruct (foldl _ _ _) as [out changed] eqn:Ef. destruct changed; [|done]. intros [= <-].
    split; [done|]. intros key. cbn [foldl] in Ef. apply (f_equal fst) in Ef. cbn [fst] in Ef. subst out.
    rewrite compact_field_get.
    + rewrite compact_field_get by done.
      destruct ($"stderr" =s key) eqn:E1, ($"stdout" =s key) eqn:E2;
        repeat match goal with
        | Hx : (_ =s key) = true |- _ => apply str_eqb_true in Hx
        | Hx : (_ =s key) = false |- _ => rewrite str_eqb_false in Hx
        end; subst.
      * discriminate.
      * by change (one_of $"stderr" [$"stdout"; $"stderr"]) with true.
      * by change (one_of $"stdout" [$"stdout"; $"stderr"]) with true.
      * destruct (one_of key _) eqn:Ek; [|done]. apply one_of_true in Ek. set_solver.
    + rewrite compact_field_get by done. by change ($"stdout" =s $"stderr") with false.
  - unfold compact_search_code. destruct value as [| | | | | |fields]; try done. cbn [as_object].
    set (v := JObject fields). destruct (_ || _); [done|].
    destruct (json_get $"results" v) as [[| | | | |results|]|] eqn:Er; try done. cbn [as_array mbind option_bind].
    destruct (json_get $"truncated" v ≫= as_bool); [|done]. destruct (json_get $"stats" v) as [stats|]; [|done].
    destruct (_ && _); [|done]. destruct (compact_results results) as [kept|] eqn:Ek; [|done].
    intros [= <-]. split.
    + intros key Hk. rewrite json_get_insert. destruct ($"results" =s key) eqn:E; [|done].
      apply str_eqb_true in E as <-. by rewrite str_eqb_refl in Hk.
    + exists results, kept. split_and!; [done| |by apply compact_results_same].
      by rewrite json_get_insert, str_eqb_refl.
Qed.

(** ** Examples *)

Definition demo_output : Value :=
  JObject [($"exit_code", JInt 0); ($"stdout", JString (join [LF] (repeat $"line" 40)));
           ($"success", JBool true); ($"timed_out", JBool false)].
#[local] Instance brief_json : JsonText := fun _ => $"{}".
#[local] Instance demo_parse : JsonParse := fun _ => Some demo_output.
Definition demo_content : str := repeat 120%N 300.
Definition demo_options : CompressionOptions := mkCompressionOptions true 200 20.

Lemma compression_contract_witness :
  length (cr_content (compress_tool_output $"run_command" demo_content $"m1" demo_options))
  < length demo_content.
Proof.
  destruct (compression_contract demo_content $"m1" demo_options _
    (or_introl (ex_intro _ $"run_command" eq_refl))) as [Hu|(v & c & s & _ & _ & Hto & _)].
  - apply (f_equal cr_compressed) in Hu. vm_compute in Hu. discriminate Hu.
  - apply Hto.
Defined.

Lemma compaction_keeps_fields_witness :
  exists compacted, compact_run_command demo_output = Some compacted /\
    json_get $"success" compacted = Some (JBool true) /\
    json_get $"stdout" compacted
    = Some (JString (compact_stream (join [LF] (repeat $"line" 40)))).
Proof.
  destruct (compact_run_command demo_output) as [c|] eqn:E; [|vm_compute in E; discriminate E].
  exists c. destruct (proj1 (compaction_keeps_fields demo_output c) E) as [_ Hk].
  split_and!; [reflexivity|by rewrite (Hk $"success")|by rewrite (Hk $"stdout")].
Defined.
