(* ===== verification/Context.v ===== *)
(** * Project context (crates/xcoding-context/src/lib.rs)

    The rules, the skills and the sketch of a workspace, and the system prompt made of
    them.  Reading goes through the tree of [Files]; an error skips the rule, the
    skill or the directory. *)

From S2P Require Import Prelude.
From S2P Require Import Protocol.
From S2P Require Import Sql.
From S2P Require Import Text.
From S2P Require Import Files.
From S2P Require Import FilesFacts.
From S2P Require Import ToolArgs.
From S2P Require Import ToolText.
From S2P Require Import Tools.
From S2P Require Import PatchFacts.
From S2P Require Import ToolGate.
From S2P Require Import ToolGateFacts.
From S2P Require Import ToolWalkFacts.

(** Workspace-root rule files, in load order. *)
Definition RULE_FILES : list str := [$"AGENTS.md"; $"XCoding.md"; $".xcoding/rules.md"].
Definition MAX_RULE_CHARS : nat := N.to_nat 20000.
Definition MAX_RELEVANT_PATHS : nat := 40.
Definition SKETCH_MAX_DEPTH : nat := 2.
Definition MAX_SKILLS : nat := 32.
Definition MAX_CATALOG_DESCRIPTION_CHARS : nat := 240.
Definition SKILLS_DIR : str := $".xcoding/skills".

Record ProjectRule := mkProjectRule { pr_path : str; pr_content : str }.
Record SkillSummary := mkSkillSummary {
  ss_name : str; ss_description : str; ss_path : str; ss_source : str }.
Record ContextSnapshot := mkContextSnapshot {
  cs_project_rules : list ProjectRule; cs_relevant_paths : list str;
  cs_skills : list SkillSummary }.

Definition truncate_chars (content : str) (max_chars : nat) (label : str) : str :=
  if length content <=? max_chars then content
  else take max_chars content ++ LF :: $"...[truncated " ++ label ++ $"]...".

(** ** Skill documents *)

Record ParsedSkill := mkParsedSkillDocument { pd_name : str; pd_description : str; pd_body : str }.

Definition unquote (value : str) : str :=
  trim_matches (N.eqb SQUOTE) (trim_matches (N.eqb DQUOTE) (trim value)).

(** One line of the front matter: the name and the description so far. *)
Definition frontmatter_line (st : option str * option str) (line0 : str) : option str * option str :=
  let line := trim line0 in
  if is_empty line || starts_with $"#" line then st
  else match split_once COLON line with
       | Some (key0, value0) =>
         let key := trim key0 in
         let value := unquote value0 in
         if (key =s $"name") && negb (is_empty value) then (Some value, snd st)
         else if (key =s $"description") && negb (is_empty value) then (fst st, Some value)
         else st
       | None => st
       end.

Definition parse_skill_document (folder_name raw : str) : ParsedSkill :=
  let normalized := replace_str [CR; LF] [LF] raw in
  let whole := mkParsedSkillDocument folder_name (skill_fallback_description normalized) normalized in
  match strip_prefix ($"---" ++ [LF]) normalized with
  | Some rest =>
    match find_str FRONTMATTER_END rest with
    | Some end_ =>
      let body := drop (end_ + length FRONTMATTER_END) rest in
      let (name, description) := foldl frontmatter_line (None, None) (lines (take end_ rest)) in
      mkParsedSkillDocument (or_else name folder_name)
        (or_else description (skill_fallback_description body)) body
    | None => whole
    end
  | None => whole
  end.

(** ** The system prompt *)

Definition PROMPT_BEFORE_MODE : str :=
  $"You are Codex, a local coding agent for a software workspace. "
  ++ $"When repository facts are needed, use tools before answering. "
  ++ $"Never claim a file was inspected unless a tool result contains it. "
  ++ $"Available tools: list_dir, read_file, search_code, load_skill, apply_patch, run_command, git_status, git_diff, git_log, git_show, git_add, git_commit, git_push, git_fetch, git_pull, browser_state, update_plan. "
  ++ $"Current mode: ".
Definition PROMPT_AFTER_MODE : str :=
  $". "
  ++ $"In ask mode, propose writes and wait for required approval. "
  ++ $"In auto-edit mode, ordinary file patches and allowlisted safe commands may apply without approval; high-risk writes and non-allowlisted commands still require user approval. "
  ++ $"In full-auto mode, every permitted write and command runs without approval; hard-denied destructive commands are still blocked, so act with extra care. "
  ++ $"Prefer minimal, scoped changes. "
  ++ $"Do not invent secrets or commit credentials. "
  ++ $"If apply_patch fails with a patch conflict, re-read the file and retry with updated old_text; do not force-write without matching the current contents. "
  ++ $"When several independent read-only lookups are needed, request them as parallel tool calls in one turn instead of one call per turn. "
  ++ $"For any request that needs more than one action, call update_plan first with your own concrete steps for this task, and choose the number of steps the task actually needs instead of a fixed count. "
  ++ $"Name real work such as the files, symbols, or commands involved, not generic phases. "
  ++ $"Call update_plan again as you go to mark the finished step done and the next one in_progress, keeping at most one step in_progress. "
  ++ $"Skip update_plan for a trivial single-action request. "
  ++ $"When starting a local service, launch it with run_command background=true plus ready_port and, when it needs its own directory, cwd. "
  ++ $"A ready=true result already proves the service is up, so do not add health-check commands after it. "
  ++ $"Once the user's stated goal is met, answer and stop. "
  ++ $"Do not extend a finished request into further exploration such as unrelated credentials, auth flows, or code reading; if follow-up work looks useful, name it in the answer and let the user decide. "
  ++ $"When giving the user a URL to open, write it as bare text. "
  ++ $"Do not wrap it in backticks or a fenced code block, because only unwrapped URLs render as clickable links in the desktop UI. "
  ++ $"When a workspace skill matches the task, call load_skill with its name before following its instructions.".

Definition rule_section (rule : ProjectRule) : str :=
  LF :: $"--- " ++ pr_path rule ++ $" ---" ++ LF :: pr_content rule ++ [LF].
Definition skill_line (skill : SkillSummary) : str :=
  $"- " ++ ss_name skill ++ $": " ++ ss_description skill ++ [LF].
Definition path_line (path : str) : str := $"- " ++ path ++ [LF].

(** A titled section, left out when it has no entry. *)
Definition prompt_section {A} (title : str) (show : A -> str) (entries : list A) : str :=
  if is_empty entries then [] else LF :: LF :: title ++ LF :: concat (map show entries).

Definition system_prompt (self : ContextSnapshot) (mode : str) : str :=
  PROMPT_BEFORE_MODE ++ mode ++ PROMPT_AFTER_MODE
  ++ prompt_section $"Project rules (follow these for this workspace):"
       rule_section (cs_project_rules self)
  ++ prompt_section
       $"Workspace skills (catalog only; call load_skill to load full instructions):"
       skill_line (cs_skills self)
  ++ prompt_section
       $"Workspace sketch (shallow paths for orientation; still use tools before quoting file contents):"
       path_line (cs_relevant_paths self).

(** ** Loading *)

Section Load.
Context `{Disk} `{Home}.
Variable workspace_root : apath.
Variable skill_enabled : list (list N * bool).

Definition load_rule (name : str) : T (option ProjectRule) :=
  let* text := try_ok (of_io (read_to_string (join_path workspace_root name))) in
  tret (match text with
        | None => None
        | Some t =>
          let content := truncate_chars (trim t) MAX_RULE_CHARS $"project rule" in
          if is_empty content then None else Some (mkProjectRule name content)
        end).

Fixpoint load_rules (names : list str) : T (list ProjectRule) :=
  match names with
  | [] => tret []
  | name :: r =>
    let* rule := load_rule name in
    let* rest := load_rules r in
    tret (option_list rule ++ rest)
  end.

(** The entries of a directory by name; none when it cannot be read. *)
Definition sorted_entries (dir : apath) : T (option (list (str * Node))) :=
  let* es := try_ok (of_io (read_dir dir)) in
  tret (order_by (fun a b => str_leb (fst a) (fst b)) <$> es).

Definition is_folder (e : str * Node) : bool :=
  match snd e with Directory => true | _ => false end.

(** The loop over the folders of one root: the names seen and the skills so far. *)
Fixpoint catalog_folders (source : str) (skills_root : apath) (display_root : str)
    (seen : list str) (skills : list SkillSummary) (folders : list str)
  : T (list str * list SkillSummary) :=
  match folders with
  | [] => tret (seen, skills)
  | name :: r =>
    if MAX_SKILLS <=? length skills then tret (seen, skills)
    else if negb (is_valid_skill_name name) then
      catalog_folders source skills_root display_root seen skills r
    else if negb (or_else (btree_get (source ++ $":" ++ name) skill_enabled) true) then
      catalog_folders source skills_root display_root seen skills r
    else if one_of name seen then
      catalog_folders source skills_root display_root seen skills r
    else
      let seen := name :: seen in
      let* raw := try_ok (of_io (read_to_string (skills_root ++ [name; $"SKILL.md"]))) in
      match raw with
      | None => catalog_folders source skills_root display_root seen skills r
      | Some raw =>
        let parsed := parse_skill_document name raw in
        let skill :=
          mkSkillSummary name
            (truncate_chars (trim (pd_description parsed)) MAX_CATALOG_DESCRIPTION_CHARS
               $"skill description")
            (display_root ++ $"/" ++ name ++ $"/SKILL.md") source in
        catalog_folders source skills_root display_root seen (skills ++ [skill]) r
      end
  end.

Fixpoint catalog_roots (roots : list (str * apath * str)) (seen : list str)
    (skills : list SkillSummary) : T (list SkillSummary) :=
  match roots with
  | [] => tret skills
  | (source, skills_root, display_root) :: r =>
    let* entries := sorted_entries skills_root in
    match entries with
    | None => catalog_roots r seen skills
    | Some es =>
      let* (seen, skills) :=
        catalog_folders source skills_root display_root seen skills
          (map fst (List.filter is_folder es)) in
      catalog_roots r seen skills
    end
  end.

Definition skill_roots : list (str * apath * str) :=
  [($"workspace", join_path workspace_root SKILLS_DIR, $".xcoding/skills");
   ($"user", user_skill_root, $"~/.xcoding/skills")].

Definition load_skill_catalog : T (list SkillSummary) := catalog_roots skill_roots [] [].

(** The children of a directory of the sketch: its paths, the directories to visit, and
    whether the limit ends the sketch. *)
Fixpoint sketch_children (directory : apath) (depth : nat) (paths : list str)
    (es : list (str * Node)) : list str * list (apath * nat) * bool :=
  match es with
  | [] => (paths, [], false)
  | (name, node) :: r =>
    if MAX_RELEVANT_PATHS <=? length paths then (paths, [], true)
    else
      let absolute := directory ++ [name] in
      match node, strip_path workspace_root absolute with
      | Directory, Some relative =>
        if is_ignored_directory name then sketch_children directory depth paths r
        else
          let paths := paths ++ [replace_char BACKSLASH [SLASH] (render_path false relative) ++ $"/"] in
          let '(out, more, stop) := sketch_children directory depth paths r in
          (out, (if depth + 1 <=? SKETCH_MAX_DEPTH then [(absolute, depth + 1)] else []) ++ more, stop)
      | File _, Some relative =>
        sketch_children directory depth
          (paths ++ [replace_char BACKSLASH [SLASH] (render_path false relative)]) r
      | _, _ => sketch_children directory depth paths r
      end
  end.

(** The queue; [None] when the fuel ends before it. *)
Fixpoint sketch_loop (fuel : nat) (pending : list (apath * nat)) (paths : list str)
  : T (option (list str)) :=
  match pending with
  | [] => tret (Some paths)
  | (directory, depth) :: rest =>
    match fuel with
    | 0 => tret None
    | S f =>
      let* entries := sorted_entries directory in
      match entries with
      | None => sketch_loop f rest paths
      | Some es =>
        let '(paths, dirs, stop) := sketch_children directory depth paths es in
        if stop then tret (Some paths) else sketch_loop f (rest ++ dirs) paths
      end
    end
  end.

(** Every directory but the root was listed before it is visited. *)
Definition sketch_fuel : nat := S MAX_RELEVANT_PATHS.

Definition workspace_path_sketch : T (list str) :=
  let* paths := sketch_loop sketch_fuel [(workspace_root, 0)] [] in
  tret (or_else paths []).

Definition load_context : T ContextSnapshot :=
  let* rules := load_rules RULE_FILES in
  let* paths := workspace_path_sketch in
  let* skills := load_skill_catalog in
  tret (mkContextSnapshot rules paths skills).
End Load.

(** ** What the project context holds

    The sketch ends within its limit and lists only what is in the workspace; a skill
    of the catalog is the one that the tool [load_skill] reads. *)

(** ** Directories *)

Lemma sorted_entries_ok `{Disk} d w :
  exists r w', sorted_entries d w = (Ok r, w') /\ w_fs w' = w_fs w.
Proof.
  pose proof (observes_bind (try_ok (of_io (read_dir d)))
    (fun es => tret (order_by (fun a b => str_leb (fst a) (fst b)) <$> es))) as Ho.
  destruct (Ho ltac:(unfold read_dir; observe) ltac:(observe) w) as [Hf _]. fold (sorted_entries d) in Hf.
  revert Hf. unfold sorted_entries, tbind, try_ok. destruct (of_io (read_dir d) w) as [[es|e] w1];
    cbn [tret snd]; intros Hf; eauto.
Qed.

(** ** The sketch *)

Section Sketch.
Context `{Disk} `{!DiskOk}.
Variable root : apath.

(** The names below the root, none of them an ignored directory. *)
Inductive sketched (fs : FileSystem) : apath -> Prop :=
| sketched_root : sketched fs []
| sketched_sub ns n :
    sketched fs ns -> fs !! (root ++ ns ++ [n]) = Some Directory ->
    is_ignored_directory n = false -> sketched fs (ns ++ [n]).

(** The text of a path in the prompt. *)
Definition shown_path (ns : apath) : str := replace_char BACKSLASH [SLASH] (render_path false ns).

(** A path of the sketch: a directory or a file at most three names below the root. *)
Definition listed (fs : FileSystem) (p : str) : Prop :=
  exists ns n, sketched fs ns /\ length ns <= SKETCH_MAX_DEPTH /\
    (p = shown_path (ns ++ [n]) ++ $"/" /\ fs !! (root ++ ns ++ [n]) = Some Directory /\
       is_ignored_directory n = false \/
     p = shown_path (ns ++ [n]) /\ exists c, fs !! (root ++ ns ++ [n]) = Some (File c)).

(** A pending directory with its depth. *)
Definition queued (fs : FileSystem) (d : apath * nat) : Prop :=
  exists ns, fst d = root ++ ns /\ snd d = length ns /\ length ns <= SKETCH_MAX_DEPTH /\ sketched fs ns.

Lemma sorted_entries_perm d w r w' es x :
  sorted_entries d w = (Ok r, w') -> r = Some es -> resolve_path (w_fs w) d = Ok x ->
  es ≡ₚ entries_of (w_fs w) x.
Proof.
  unfold sorted_entries, tbind, try_ok, of_io. destruct (read_dir d w) as [[es'|e] w1] eqn:Er.
  - unfold read_dir in Er. apply query_ok in Er as (Er & _ & _).
    intros [= <- <-] [= <-] Hx. rewrite Hx in Er. cbn [rbind] in Er.
    rewrite order_by_perm. destruct (node_at (w_fs w) x) as [[]|]; try done.
    injection Er as <-. apply dir_order_perm.
  - by intros [= <- <-].
Qed.

Lemma strip_self ns n : strip_path root (root ++ ns ++ [n]) = Some (ns ++ [n]).
Proof. by apply strip_path_Some. Qed.

Lemma sketch_children_spec fs ns paths es :
  sketched fs ns -> length ns <= SKETCH_MAX_DEPTH ->
  (forall n x, (n, x) ∈ es -> fs !! (root ++ ns ++ [n]) = Some x) ->
  let '(paths', dirs, stop) := sketch_children root (root ++ ns) (length ns) paths es in
  length dirs + length paths <= length paths' /\
  (length paths <= MAX_RELEVANT_PATHS -> length paths' <= MAX_RELEVANT_PATHS) /\
  (Forall (listed fs) paths -> Forall (listed fs) paths') /\ Forall (queued fs) dirs.
Proof.
  intros Hns Hl. revert paths. induction es as [|[n x] es IH]; intros paths Hes; cbn [sketch_children].
  { split_and!; [simpl; lia|done|done|constructor]. }
  destruct (Nat.leb_spec MAX_RELEVANT_PATHS (length paths)) as [Hm|Hm].
  { split_and!; [simpl; lia|done|done|constructor]. }
  assert (forall m y, (m, y) ∈ es -> fs !! (root ++ ns ++ [m]) = Some y) as Hes' by set_solver.
  assert (fs !! (root ++ ns ++ [n]) = Some x) as Hx by (apply Hes; set_solver).
  assert (forall p, length (paths ++ [p]) = S (length paths)) as Hlen by (intros; rewrite length_app; simpl; lia).
  rewrite <- app_assoc, strip_self. destruct x as [c| | |]; try exact (IH paths Hes').
  - specialize (IH (paths ++ [shown_path (ns ++ [n])]) Hes'). fold (shown_path (ns ++ [n])).
    destruct (sketch_children _ _ _ _ es) as [[paths' dirs] stop]. rewrite Hlen in IH.
    destruct IH as (H1 & H2 & H3 & H4). split_and!; [lia|intros; apply H2; lia| |done].
    intros Hp. apply H3, Forall_app. split; [done|]. apply Forall_singleton. exists ns, n. eauto 10.
  - destruct (is_ignored_directory n) eqn:Hi; [exact (IH paths Hes')|]. fold (shown_path (ns ++ [n])).
    specialize (IH (paths ++ [shown_path (ns ++ [n]) ++ $"/"]) Hes').
    destruct (sketch_children _ _ _ _ es) as [[paths' dirs] stop]. rewrite Hlen in IH.
    destruct IH as (H1 & H2 & H3 & H4). split_and!.
    + rewrite length_app. destruct (_ <=? _); simpl; lia.
    + intros; apply H2; lia.
    + intros Hp. apply H3, Forall_app. split; [done|]. apply Forall_singleton. exists ns, n. eauto 10.
    + apply Forall_app. split; [|done].
      destruct (Nat.leb_spec (length ns + 1) SKETCH_MAX_DEPTH) as [Hd|]; [|constructor].
      apply Forall_singleton. exists (ns ++ [n]). cbn [fst snd]. rewrite length_app. cbn [length].
      split_and!; [done|done|done|by constructor].
Qed.

Lemma sketched_canonical fs ns :
  canonical fs root -> is_directory_at fs root = true -> sketched fs ns ->
  canonical fs (root ++ ns) /\ is_directory_at fs (root ++ ns) = true.
Proof.
  intros Hc Hd. induction 1 as [|ns n Hns [IHc IHd] Hn _]; [by rewrite app_nil_r|].
  rewrite app_assoc in *. split; [by eapply canonical_name|].
  unfold is_directory_at. by rewrite node_at_snoc, Hn.
Qed.

Lemma sketch_loop_spec fuel pending paths w :
  canonical (w_fs w) root -> is_directory_at (w_fs w) root = true ->
  Forall (queued (w_fs w)) pending -> Forall (listed (w_fs w)) paths ->
  length paths <= MAX_RELEVANT_PATHS ->
  length pending + (MAX_RELEVANT_PATHS - length paths) <= fuel ->
  exists out w', sketch_loop root fuel pending paths w = (Ok (Some out), w') /\
    length out <= MAX_RELEVANT_PATHS /\ Forall (listed (w_fs w)) out.
Proof.
  intros Hc Hd. revert pending paths w Hc Hd.
  induction fuel as [|fuel IH]; intros [|[d k] rest] paths w Hc Hd Hq Hp Hle Hf; cbn [sketch_loop];
    try (by eexists _, _; split_and!); [simpl in Hf; lia|].
  apply Forall_cons in Hq as [(ns & Hdn & Hk & Hl & Hns) Hq]. cbn [fst snd] in Hdn, Hk. subst d k.
  destruct (sketched_canonical _ _ Hc Hd Hns) as [Hcn Hdn].
  destruct (sorted_entries_ok (root ++ ns) w) as (r & w1 & Hr & Hfs).
  unfold tbind. rewrite Hr. cbn [length] in Hf. destruct r as [es|].
  - pose proof (sorted_entries_perm _ _ _ _ es _ Hr eq_refl (canonical_resolves _ _ Hcn)) as Hes.
    pose proof (sketch_children_spec (w_fs w) ns paths es Hns Hl) as Hch.
    destruct (sketch_children _ _ _ _ _) as [[paths' dirs] stop].
    destruct Hch as (H1 & H2 & H3 & H4).
    { intros n x Hx. rewrite Hes in Hx. apply elem_of_entries in Hx. by rewrite <- app_assoc in Hx. }
    destruct stop; [eexists _, _; split_and!; [reflexivity|auto|auto]|].
    specialize (H2 Hle). specialize (H3 Hp).
    destruct (IH (rest ++ dirs) paths' w1) as (out & w' & Ho & Hol & Hof);
      rewrite ?Hfs; try done; [by apply Forall_app|rewrite length_app; lia|].
    rewrite Hfs in Hof. eauto.
  - destruct (IH rest paths w1) as (out & w' & Ho & Hol & Hof); rewrite ?Hfs; try done; [lia|].
    rewrite Hfs in Hof. eauto.
Qed.

(** The sketch of a workspace always ends, with at most forty paths, and each of them
    is a file or a directory at most three names below the root that is reached through
    directories only, never through a link or an ignored directory. *)
Theorem sketch_lists_workspace w :
  canonical (w_fs w) root -> is_directory_at (w_fs w) root = true ->
  exists paths w',
    sketch_loop root sketch_fuel [(root, 0)] [] w = (Ok (Some paths), w') /\
    workspace_path_sketch root w = (Ok paths, w') /\
    length paths <= MAX_RELEVANT_PATHS /\ Forall (listed (w_fs w)) paths.
Proof.
  intros Hc Hd. destruct (sketch_loop_spec sketch_fuel [(root, 0)] [] w Hc Hd) as (out & w' & Ho & Hl & Hf).
  - apply Forall_singleton. exists []. cbn. rewrite app_nil_r. split_and!; [done|done|lia|constructor].
  - constructor.
  - cbn [length]. apply Nat.le_0_l.
  - unfold sketch_fuel. cbn [length]. lia.
  - exists out, w'. split_and!; [done| |done|done].
    unfold workspace_path_sketch, tbind. by rewrite Ho.
Qed.
End Sketch.

(** ** The catalog of skills *)

Section Names.

Lemma skill_char_plain c :
  is_skill_char c = true -> is_whitespace c = false /\ (c =? SLASH)%N = false.
Proof.
  intros Hc. unfold is_skill_char in Hc. apply orb_prop in Hc as [Hc|Hc].
  - unfold is_ascii_alphanumeric, is_ascii_alphabetic, is_ascii_upper, is_ascii_lower, is_ascii_digit, in_range in Hc.
    assert (48 <= c <= 122)%N as Hr.
    { rewrite !orb_true_iff, !andb_true_iff, !N.leb_le in Hc. lia. }
    split; [|apply N.eqb_neq; unfold SLASH; intros ->; vm_compute in Hc; discriminate Hc].
    unfold is_whitespace, in_range. rewrite !orb_false_iff, ?andb_false_iff, ?N.eqb_neq, ?N.leb_gt.
    lia.
  - unfold contains_char in Hc. apply existsb_exists in Hc as (x & Hx & ->%N.eqb_eq).
    repeat (destruct Hx as [<-|Hx]; [split; vm_compute; reflexivity|]). destruct Hx.
Qed.
End Names.

Lemma valid_name_chars name :
  is_valid_skill_name name = true ->
  name <> [] /\ Forall (fun c => is_whitespace c = false /\ (c =? SLASH)%N = false) name /\
  component_of name = Some (Normal name).
Proof.
  unfold is_valid_skill_name. destruct (is_empty name || _); [done|]. destruct name as [|c r]; [done|].
  destruct (is_ascii_alphanumeric c) eqn:Ec; cbn [negb]; [|done]. rewrite forallb_forall. intros Hall.
  split_and!; [done| |].
  - apply Forall_forall. intros x Hx%list_elem_of_In. by apply skill_char_plain, Hall.
  - unfold component_of. cbn [is_empty orb].
    assert (c <> 46%N) as Hdot by (intros ->; vm_compute in Ec; discriminate Ec).
    destruct (c :: r =s $".") eqn:E1; [apply str_eqb_true in E1; by injection E1|].
    destruct (c :: r =s $"..") eqn:E2; [apply str_eqb_true in E2; by injection E2|]. done.
Qed.

Lemma valid_name_trim name : is_valid_skill_name name = true -> trim name = name.
Proof.
  intros (_ & Hf & _)%valid_name_chars. unfold trim, trim_matches, trim_end_matches, trim_start_matches.
  assert (forall l, Forall (fun c => is_whitespace c = false /\ (c =? SLASH)%N = false) l ->
    drop_while is_whitespace l = l) as Hd.
  { intros [|c l] Hl; [done|]. cbn [drop_while]. apply Forall_cons in Hl as [[-> _] _]. done. }
  rewrite (Hd name Hf), Hd, rev_involutive; [done|]. by apply Forall_rev.
Qed.

Definition skill_relative (name : str) : str := $".xcoding/skills/" ++ name ++ $"/SKILL.md".

Lemma skill_relative_components name :
  is_valid_skill_name name = true ->
  components (skill_relative name) = map Normal [$".xcoding"; $"skills"; name; $"SKILL.md"].
Proof.
  intros (_ & Hf & Hc)%valid_name_chars.
  assert (skill_relative name = $".xcoding" ++ SLASH :: ($"skills" ++ SLASH :: (name ++ SLASH :: $"SKILL.md"))) as ->
    by reflexivity.
  unfold components.
  assert (Forall (fun x => (SLASH =? x)%N = false) name) as Hs.
  { eapply Forall_impl; [exact Hf|]. intros x [_ Hx]. by rewrite N.eqb_sym. }
  rewrite split_on_app; [|by repeat constructor|done].
  rewrite split_on_app; [|by repeat constructor|done].
  rewrite split_on_app; [|done|done].
  cbn [omap list_omap]. rewrite Hc. reflexivity.
Qed.

(** Both parsers read the same description and body. *)
Lemma frontmatter_same ls n d :
  snd (foldl frontmatter_line (n, d) ls)
  = foldl (fun description line0 =>
      let line := trim line0 in
      if is_empty line || starts_with $"#" line then description
      else match split_once COLON line with
           | Some (key, value0) =>
             let value := trim_matches (N.eqb SQUOTE) (trim_matches (N.eqb DQUOTE) (trim value0)) in
             if (trim key =s $"description") && negb (is_empty value)
             then Some value else description
           | None => description
           end) d ls.
Proof.
  revert n d. induction ls as [|l ls IH]; intros n d; cbn [foldl]; [done|].
  rewrite <- (IH (fst (frontmatter_line (n, d) l))). f_equal. f_equal.
  assert (forall st : option str * option str, st = (fst st, snd st)) as Hpair by (by intros []).
  rewrite (Hpair (frontmatter_line (n, d) l)). f_equal. unfold frontmatter_line, unquote. cbv zeta.
  destruct (is_empty (trim l) || starts_with $"#" (trim l)); [done|].
  destruct (split_once COLON (trim l)) as [[key value]|]; [|done].
  destruct (trim key =s $"name") eqn:Ek; cbn [andb].
  - apply str_eqb_true in Ek as ->. change ($"name" =s $"description") with false. cbn [andb].
    destruct (negb _); done.
  - destruct (trim key =s $"description"); cbn [andb]; [|done]. destruct (negb _); done.
Qed.

Lemma parse_skill_same name raw :
  let d := parse_skill_document name raw in
  let f := parse_skill_file raw in
  sk_body f = pd_body d /\
  sk_description f = (if MAX_SKILL_DESCRIPTION_CHARS <? length (pd_description d)
                      then take MAX_SKILL_DESCRIPTION_CHARS (pd_description d) else pd_description d).
Proof.
  unfold parse_skill_document, parse_skill_file. cbv zeta.
  destruct (strip_prefix _ _) as [rest|]; [|done].
  destruct (find_str _ _) as [e|]; [|done].
  unfold frontmatter_description. rewrite <- (frontmatter_same _ None None).
  destruct (foldl frontmatter_line (None, None) _) as [n d]. done.
Qed.

Section Catalog.
Context `{Disk} `{Home}.
Variable root : apath.
Variable enabled : list (list N * bool).

(** A skill that the catalog took from a folder of [skills_root]. *)
Record catalogued (fs : FileSystem) (root_ : str * apath * str) (s : SkillSummary) : Prop := {
  ct_source : ss_source s = fst (fst root_);
  ct_valid : is_valid_skill_name (ss_name s) = true;
  ct_enabled : or_else (btree_get (ss_source s ++ $":" ++ ss_name s) enabled) true = true;
  ct_path : ss_path s = snd root_ ++ $"/" ++ ss_name s ++ $"/SKILL.md";
  ct_file : exists raw,
    fs_read fs (snd (fst root_) ++ [ss_name s; $"SKILL.md"]) = Ok raw /\
    ss_description s =
      truncate_chars (trim (pd_description (parse_skill_document (ss_name s) raw)))
        MAX_CATALOG_DESCRIPTION_CHARS $"skill description";
}.

(** The catalog so far: no name twice, none unseen, and at most [MAX_SKILLS]. *)
Definition catalog_ok (seen : list str) (skills : list SkillSummary) : Prop :=
  NoDup (map ss_name skills) /\ (forall s, s ∈ skills -> ss_name s ∈ seen) /\
  length skills <= MAX_SKILLS.

Lemma catalog_folders_spec r seen skills folders w :
  catalog_ok seen skills ->
  exists seen' skills' w',
    catalog_folders enabled (fst (fst r)) (snd (fst r)) (snd r) seen skills folders w
      = (Ok (seen', skills'), w') /\ w_fs w' = w_fs w /\ catalog_ok seen' skills' /\
    forall s, s ∈ skills' -> s ∈ skills \/ catalogued (w_fs w) r s.
Proof.
  revert seen skills w. induction folders as [|name folders IH]; intros seen skills w Hok; cbn [catalog_folders].
  { eexists _, _, _. split_and!; [reflexivity|done|apply Hok..|auto]. }
  destruct (Nat.leb_spec MAX_SKILLS (length skills)) as [Hm|Hm].
  { eexists _, _, _. split_and!; [reflexivity|done|apply Hok..|auto]. }
  destruct (is_valid_skill_name name) eqn:Ev; cbn [negb]; [|by apply IH].
  destruct (or_else _ _) eqn:Ee; cbn [negb]; [|by apply IH].
  destruct (one_of name seen) eqn:Es; [by apply IH|].
  destruct Hok as (Hnd & Hseen & Hlen).
  assert (forall s, s ∈ skills -> ss_name s ∈ name :: seen) as Hseen' by (intros s Hs; right; auto).
  unfold tbind, try_ok, of_io. destruct (read_to_string _ w) as [[raw|e] w1] eqn:Er.
  - unfold read_to_string in Er. apply query_ok in Er as (Er & Hf & _).
    set (new := mkSkillSummary _ _ _ _).
    destruct (IH (name :: seen) (skills ++ [new]) w1) as (seen' & skills' & w' & Hc & Hf' & Hok' & Hs').
    { split_and!.
      - rewrite map_app. apply NoDup_app. split_and!; [done| |apply NoDup_singleton].
        intros x Hx ->%list_elem_of_singleton. apply list_elem_of_fmap in Hx as (s & Hxs & Hs).
        cbn in Hxs. apply Hseen in Hs. rewrite <- Hxs in Hs. apply one_of_true in Hs. congruence.
      - intros s [Hs|Hs]%elem_of_app; [auto|]. apply list_elem_of_singleton in Hs as ->. by left.
      - rewrite length_app. simpl. lia. }
    exists seen', skills', w'. split_and!; [done|congruence|apply Hok'..|].
    intros s Hs. destruct (Hs' s Hs) as [[Hin|Hin]%elem_of_app|Hin]; [by left| |right; by rewrite Hf in Hin].
    apply list_elem_of_singleton in Hin as ->. right. split; try done. eauto.
  - pose proof (query_world (fun fs => fs_read fs (snd (fst r) ++ [name; $"SKILL.md"])) w) as [Hf _].
    unfold read_to_string in Er. rewrite Er in Hf. cbn [snd] in Hf.
    destruct (IH (name :: seen) skills w1) as (seen' & skills' & w' & Hc & Hf' & Hok' & Hs'); [done|].
    exists seen', skills', w'. split_and!; [done|congruence|apply Hok'..|].
    intros s Hs. destruct (Hs' s Hs); [by left|right; by rewrite Hf in *].
Qed.

Lemma catalog_roots_spec roots seen skills w :
  catalog_ok seen skills ->
  exists skills' w',
    catalog_roots enabled roots seen skills w = (Ok skills', w') /\ w_fs w' = w_fs w /\
    NoDup (map ss_name skills') /\ length skills' <= MAX_SKILLS /\
    forall s, s ∈ skills' -> s ∈ skills \/ exists r, r ∈ roots /\ catalogued (w_fs w) r s.
Proof.
  revert seen skills w. induction roots as [|r roots IH]; intros seen skills w Hok; cbn [catalog_roots].
  { eexists _, _. destruct Hok as (? & ? & ?). split_and!; [reflexivity|done|done|done|auto]. }
  destruct r as [[source sroot] disp] eqn:Er. rewrite <- Er. unfold tbind at 1.
  destruct (sorted_entries_ok sroot w) as (es & w1 & Hs & Hf). rewrite Hs.
  destruct es as [es|].
  - unfold tbind. destruct (catalog_folders_spec r seen skills (map fst (List.filter is_folder es)) w1 Hok)
      as (seen' & skills1 & w2 & Hc & Hf1 & Hok1 & Hin1).
    rewrite Er in Hc. cbn [fst snd] in Hc. rewrite Hc.
    destruct (IH seen' skills1 w2 Hok1) as (skills' & w' & Hc2 & Hf2 & Hnd & Hlen & Hin2).
    exists skills', w'. split_and!; [done|congruence|done|done|].
    intros s Hx. destruct (Hin2 s Hx) as [Hx1|(r' & Hr' & Hx1)].
    + destruct (Hin1 s Hx1) as [?|Hx2]; [by left|]. right. exists r. rewrite Hf in Hx2. set_solver.
    + right. exists r'. rewrite Hf1, Hf in Hx1. set_solver.
  - destruct (IH seen skills w1 Hok) as (skills' & w' & Hc2 & Hf2 & Hnd & Hlen & Hin2).
    exists skills', w'. split_and!; [done|congruence|done|done|].
    intros s Hx. destruct (Hin2 s Hx) as [Hx1|(r' & Hr' & Hx1)]; [by left|].
    right. exists r'. rewrite Hf in Hx1. set_solver.
Qed.

Lemma catalog_spec w :
  exists skills w', load_skill_catalog root enabled w = (Ok skills, w') /\ w_fs w' = w_fs w /\
    NoDup (map ss_name skills) /\ length skills <= MAX_SKILLS /\
    forall s, s ∈ skills -> exists r, r ∈ skill_roots root /\ catalogued (w_fs w) r s.
Proof.
  destruct (catalog_roots_spec (skill_roots root) [] [] w) as (skills & w' & Hc & Hf & Hnd & Hl & Hin).
  { split_and!; [constructor|set_solver|simpl; lia]. }
  exists skills, w'. split_and!; [done|done|done|done|].
  intros s Hs. destruct (Hin s Hs) as [?|?]; [set_solver|done].
Qed.
End Catalog.

Section LoadSkill.
Context `{Disk} `{Home}.
Variable reg : ToolRegistry.
Local Abbreviation root := (tr_workspace_root reg).

(** The file of a skill of the catalog. *)
Definition skill_file (s : SkillSummary) : apath :=
  if ss_source s =s $"workspace" then join_path root (skill_relative (ss_name s))
  else user_skill_root ++ [ss_name s; $"SKILL.md"].

Lemma quiet_query {A} (f : FileSystem -> result A IoError) w :
  (forall n, fault n = None) ->
  query f w = (match f (w_fs w) with Ok a => Ok a | Err e => Err e end, tick w).
Proof.
  intros Hq. unfold query, attempt. rewrite Hq. destruct (f (w_fs w)); cbn; [|done].
  unfold set_fs, tick. by destruct w.
Qed.

Lemma fs_read_file fs p raw :
  fs_read fs p = Ok raw ->
  exists c, resolve_path fs p = Ok c /\ resolve_path fs c = Ok c /\ node_at fs c = Some (File (Utf8 raw)).
Proof.
  unfold fs_read. destruct (resolve_path fs p) as [c|] eqn:E; cbn [rbind]; [|done].
  destruct (node_at fs c) as [[[]| | |]|] eqn:En; try done. intros [= ->].
  exists c. split_and!; [done| |done]. by apply canonical_resolves, (resolve_canonical fs p).
Qed.

Lemma tbind_look {A B : Type} (f : FileSystem -> A) (k : A -> T B) w :
  tbind (of_io (look f)) k w = k (f (w_fs w)) w.
Proof. done. Qed.
Lemma tbind_ret {A B : Type} (a : A) (k : A -> T B) w : tbind (tret a) k w = k a w.
Proof. done. Qed.
Lemma tbind_assoc {A B C : Type} (m : T A) (f : A -> T B) (k : B -> T C) w :
  tbind (tbind m f) k w = tbind m (fun a => tbind (f a) k) w.
Proof. unfold tbind. by destruct (m w) as [[]]. Qed.
Lemma tbind_query {A B : Type} (f : FileSystem -> result A IoError) (k : A -> T B) w a :
  (forall n, fault n = None) -> f (w_fs w) = Ok a -> tbind (of_io (query f)) k w = k a (tick w).
Proof. intros Hq Hf. unfold tbind, of_io. by rewrite quiet_query, Hf by done. Qed.

(** A path of the workspace that resolves inside it. *)
Lemma resolve_quiet relative c w :
  (forall n, fault n = None) -> components relative <> [] -> trim relative <> [] ->
  is_absolute relative = false ->
  existsb (fun c => match c with ParentDir | RootDir => true | _ => false end) (components relative) = false ->
  resolve_path (w_fs w) (join_path root relative) = Ok c -> root `prefix_of` c ->
  resolve reg relative w = (Ok c, tick w).
Proof.
  intros Hq _ Ht Ha He Hc Hp. unfold resolve, checked_relative_path.
  destruct (trim relative) as [|x t]; [done|]. cbn [is_empty]. rewrite Ha, He. cbn [orb].
  unfold tbind at 1. cbn [of_result]. unfold canonicalize.
  rewrite (tbind_query _ _ _ c Hq Hc).
  by rewrite (proj2 (path_starts_with_true c root) Hp).
Qed.

(** The catalog of skills has at most MAX_SKILLS entries with different names, and
    every entry, when nothing is refused, is loaded by the tool load_skill under its
    name and from the same place, if its file is not too large, that of the workspace
    resolves inside the workspace, and no file of the workspace shadows a user's skill. *)
Theorem catalog_skill_loads w :
  (forall n, fault n = None) ->
  exists skills w', load_skill_catalog root (tr_skill_enabled reg) w = (Ok skills, w') /\
    NoDup (map ss_name skills) /\ length skills <= MAX_SKILLS /\
    forall s, s ∈ skills ->
      (file_size (w_fs w) (skill_file s) <= MAX_READ_BYTES)%N ->
      (ss_source s = $"workspace" ->
         exists p, resolve_path (w_fs w) (skill_file s) = Ok p /\ root `prefix_of` p) ->
      (ss_source s = $"user" ->
         path_is_file (w_fs w) (join_path root (skill_relative (ss_name s))) = false) ->
      exists ex w'', load_skill reg user_skill_root (mkLoadSkillArgs (ss_name s)) w = (Ok ex, w'') /\
        json_get $"name" (te_output ex) = Some (JString (ss_name s)) /\
        json_get $"path" (te_output ex) = Some (JString (ss_path s)) /\
        json_get $"source" (te_output ex) = Some (JString (ss_source s)).
Proof.
  intros Hq. destruct (catalog_spec root (tr_skill_enabled reg) w) as (skills & w' & Hc & _ & Hnd & Hl & Hin).
  exists skills, w'. split_and!; [done..|]. intros s Hs Hsize Hws Huser.
  destruct (Hin s Hs) as (r & Hr & [Hsrc Hv Hen Hpath (raw & Hraw & _)]). clear Hin Hs Hc.
  pose proof (valid_name_trim _ Hv) as Htrim.
  pose proof (skill_relative_components _ Hv) as Hcomp.
  unfold load_skill. cbn [ls_name]. rewrite Htrim, Hv. cbn [negb].
  fold (skill_relative (ss_name s)).
  unfold skill_roots in Hr. rewrite !elem_of_cons, elem_of_nil in Hr.
  destruct Hr as [->|[->|[]]]; cbn [fst snd] in *.
  - rewrite Hsrc in *. specialize (Hws eq_refl) as (p & Hp & Hpre). unfold skill_file in *.
    rewrite Hsrc in *. change ($"workspace" =s $"workspace") with true in *. cbv iota in *.
    assert (join_path root SKILLS_DIR ++ [ss_name s; $"SKILL.md"] = join_path root (skill_relative (ss_name s))) as Hj.
    { unfold join_path. rewrite Hcomp, <- app_assoc. reflexivity. }
    rewrite Hj in Hraw. destruct (fs_read_file _ _ _ Hraw) as (c & Hc1 & Hc2 & Hn).
    rewrite Hp in Hc1. injection Hc1 as <-.
    rewrite tbind_look. unfold path_is_file at 1, stat. rewrite Hp, Hn.
    assert (skill_flag reg ($"workspace:" ++ ss_name s) = true) as Hflag by done.
    rewrite Hflag. cbn [andb]. rewrite tbind_assoc.
    unfold tbind at 1. rewrite (resolve_quiet _ p w Hq); try done.
    + rewrite tbind_ret. cbv beta iota. rewrite tbind_look. cbn [w_fs tick].
      unfold path_is_file, stat. rewrite Hc2, Hn. cbn [negb]. rewrite tbind_look. cbn [w_fs tick].
      unfold file_size, stat in *. rewrite Hp, Hn in Hsize. rewrite Hc2, Hn.
      rewrite (proj2 (N.ltb_ge _ _)) by done. unfold read_to_string.
      rewrite (tbind_query _ _ _ raw Hq) by (unfold fs_read; cbn [w_fs tick]; by rewrite Hc2; cbn [rbind]; rewrite Hn).
      eexists _, _. split_and!; [reflexivity|done| |done]. cbn. by rewrite Hpath.
    + by apply trim_nonempty.
    + by rewrite Hcomp.
  - rewrite Hsrc in *. specialize (Huser eq_refl). unfold skill_file in *. rewrite Hsrc in *.
    change ($"user" =s $"workspace") with false in *. cbv iota in *.
    destruct (fs_read_file _ _ _ Hraw) as (c & Hc1 & Hc2 & Hn).
    rewrite tbind_look, Huser. cbn [andb]. rewrite tbind_assoc, tbind_look.
    unfold path_is_file at 1, stat. rewrite Hc1, Hn.
    assert (skill_flag reg ($"user:" ++ ss_name s) = true) as Hflag by done.
    rewrite Hflag. cbn [negb orb]. rewrite tbind_ret. cbv beta iota. rewrite tbind_look.
    unfold path_is_file, stat. rewrite Hc1, Hn. cbn [negb]. rewrite tbind_look.
    unfold file_size, stat in *. rewrite Hc1, Hn in *.
    rewrite (proj2 (N.ltb_ge _ _)) by done. unfold read_to_string.
    rewrite (tbind_query _ _ _ raw Hq) by done.
    eexists _, _. split_and!; [reflexivity|done| |done]. cbn. by rewrite Hpath.
Qed.
End LoadSkill.

(** ** Examples *)

Definition skill_text : str :=
  $"---" ++ LF :: $"description: A demo" ++ LF :: $"---" ++ LF :: $"Do it.".
Definition skill_fs : FileSystem :=
  list_to_map [([$"ws"], Directory); ([$"ws"; $"a.rs"], File (Utf8 []));
               ([$"ws"; $".xcoding"], Directory); ([$"ws"; $".xcoding"; $"skills"], Directory);
               ([$"ws"; $".xcoding"; $"skills"; $"demo"], Directory);
               ([$"ws"; $".xcoding"; $"skills"; $"demo"; $"SKILL.md"], File (Utf8 skill_text));
               ([$"ws"; $".xcoding"; $"skills"; $"empty"], Directory);
               ([$"skills"], Directory); ([$"skills"; $"empty"], Directory);
               ([$"skills"; $"empty"; $"SKILL.md"], File (Utf8 skill_text))].
Definition skill_world : World := mkWorld skill_fs 0 [].

Lemma skill_root_canonical : canonical (w_fs skill_world) [$"ws"].
Proof. apply (resolve_canonical _ [$"ws"]). vm_compute. reflexivity. Qed.

Lemma sketch_lists_workspace_witness :
  exists paths w',
    sketch_loop [$"ws"] sketch_fuel [([$"ws"], 0)] [] skill_world = (Ok (Some paths), w') /\
    workspace_path_sketch [$"ws"] skill_world = (Ok paths, w') /\
    length paths <= MAX_RELEVANT_PATHS /\ Forall (listed [$"ws"] (w_fs skill_world)) paths.
Proof.
  apply (sketch_lists_workspace (H0 := quiet_disk_ok) [$"ws"] skill_world skill_root_canonical).
  vm_compute. reflexivity.
Defined.

Lemma catalog_skill_loads_witness :
  exists skills w', load_skill_catalog [$"ws"] [] skill_world = (Ok skills, w') /\
    NoDup (map ss_name skills) /\ length skills <= MAX_SKILLS.
Proof.
  destruct (catalog_skill_loads demo_reg skill_world ltac:(done))
    as (skills & w' & Hc & Hnd & Hl & _).
  exists skills, w'. split; [exact Hc|]. split; [exact Hnd|exact Hl].
Defined.

(** A folder of the workspace without a skill file takes its name away from a skill of
    the user: the catalog does not list the skill, although [load_skill] loads it. *)
Theorem empty_folder_hides_skill :
  (map ss_name <$> (match fst (load_skill_catalog [$"ws"] [] skill_world) with
                    | Ok l => Some l | Err _ => None end)) = Some [$"demo"] /\
  (match fst (load_skill demo_reg user_skill_root (mkLoadSkillArgs $"empty") skill_world) with
   | Ok ex => json_get $"source" (te_output ex) | Err _ => None end) = Some (JString $"user").
Proof. split; vm_compute; reflexivity. Qed.
