(* ===== verification/Mcp.v ===== *)
(** * MCP client (crates/xcoding-mcp/src/lib.rs)

    The configuration of the servers, the names of their tools, and the sessions: a
    session writes JSON-RPC messages to a server and reads lines until the answer to its
    own request.  What a server writes is the class [Peer]. *)

From S2P Require Import Prelude.
From S2P Require Import Protocol.
From S2P Require Import Sql.
From S2P Require Import Transcript.
From S2P Require Import Text.
From S2P Require Import Files.
From S2P Require Import ToolArgs.
From S2P Require Import Tools.
From S2P Require Import Compression.

Definition MCP_CONFIG_RELATIVE_PATH : str := $".xcoding/mcp.json".
Definition MCP_PROTOCOL_VERSION : str := $"2024-11-05".
Definition MAX_SERVERS : nat := 16.
Definition MAX_TOOLS_PER_SERVER : nat := 64.

Inductive McpError :=
| McpConfig (message : str)
| McpSpawn (server message : str)
| McpProtocol (server message : str)
| McpTimeout (server : str)
| McpUnavailable (server : str)
| UnknownTool (server tool : str)
| McpIo (e : IoError).

Section Text.
Context `{IoText}.
Definition McpError_to_string (e : McpError) : str :=
  match e with
  | McpConfig m => $"MCP config error: " ++ m
  | McpSpawn server m => $"MCP server `" ++ server ++ $"` failed to start: " ++ m
  | McpProtocol server m => $"MCP server `" ++ server ++ $"` protocol error: " ++ m
  | McpTimeout server => $"MCP server `" ++ server ++ $"` timed out"
  | McpUnavailable server => $"MCP server `" ++ server ++ $"` is not available"
  | UnknownTool server tool => $"unknown MCP tool `" ++ server ++ $"::" ++ tool ++ $"`"
  | McpIo e => io_text e
  end.
End Text.

(** ** Configuration *)

(** The environment of a server, in the order of its map. *)
Record McpServerEntry := mkMcpServerEntry {
  me_command : str; me_args : list str; me_env : list (list N * list N); me_enabled : bool }.
Record PluginConfig := mkPluginConfig {
  pc_mcp_servers : list (list N * McpServerEntry);
  pc_mcp_enabled : list (list N * bool);
  pc_skill_enabled : list (list N * bool) }.
Record McpServerConfig := mkMcpServerConfig {
  mc_name : str; mc_command : str; mc_args : list str; mc_env : list (list N * list N);
  mc_enabled : bool }.
Record McpToolDefinition := mkMcpToolDefinition {
  mt_server : str; mt_tool : str; mt_namespaced_name : str; mt_description : str;
  mt_parameters : Value }.
Record McpCallResult := mkMcpCallResult {
  rs_server : str; rs_tool : str; rs_is_error : bool; rs_content : Value;
  rs_structured_content : option Value }.

(** [serde_json::from_str::<McpFileConfig>]: the servers in the order of the hash map, or
    the text of the error. *)
Class McpFile := parse_mcp_file : list N -> result (list (list N * McpServerEntry)) (list N).

Definition MCP_PREFIX : str := $"mcp__".
Definition MCP_SEPARATOR : str := $"__".

Definition encode_tool_name (server tool : str) : str :=
  MCP_PREFIX ++ server ++ MCP_SEPARATOR ++ tool.

Definition is_server_char (ch : char) : bool :=
  is_ascii_alphanumeric ch || (ch =? 95)%N || (ch =? 45)%N.
Definition is_valid_server_name (name : str) : bool :=
  negb (is_empty name) && (byte_len name <=? 64) && forallb is_server_char name.

Definition decode_tool_name (name : str) : option (str * str) :=
  match strip_prefix MCP_PREFIX name with
  | None => None
  | Some rest =>
    match split_once_str MCP_SEPARATOR rest with
    | None => None
    | Some (server, tool) =>
      if is_empty server || is_empty tool then None
      else if negb (is_valid_server_name server) then None
      else Some (server, tool)
    end
  end.

Definition server_config (name : str) (entry : McpServerEntry) (enabled : bool) : McpServerConfig :=
  mkMcpServerConfig name (trim (me_command entry)) (me_args entry) (me_env entry) enabled.

Definition missing_command (name : str) : McpError :=
  McpConfig ($"server `" ++ name ++ $"` is missing a command").

Fixpoint check_servers (entries : list (str * McpServerEntry)) : result (list McpServerConfig) McpError :=
  match entries with
  | [] => Ok []
  | (name, entry) :: r =>
    if negb (is_valid_server_name name) then
      Err (McpConfig ($"invalid server name `" ++ name ++ $"` (use letters, digits, `_`, `-`)"))
    else if is_empty (trim (me_command entry)) then Err (missing_command name)
    else let? rest := check_servers r in Ok (server_config name entry (me_enabled entry) :: rest)
  end.

Definition by_name_le (a b : McpServerConfig) : bool := str_leb (mc_name a) (mc_name b).

Definition parse_mcp_config_text `{McpFile} (raw : str) : result (list McpServerConfig) McpError :=
  let trimmed := trim raw in
  if is_empty trimmed then Ok []
  else match parse_mcp_file trimmed with
       | Err e => Err (McpConfig ($"invalid JSON: " ++ e))
       | Ok entries =>
         let? servers := check_servers entries in
         Ok (take MAX_SERVERS (order_by by_name_le servers))
       end.

Definition load_mcp_config `{Disk} `{McpFile} (workspace_root : apath) (w : World)
  : result (list McpServerConfig) McpError * World :=
  let path := join_path workspace_root MCP_CONFIG_RELATIVE_PATH in
  if negb (path_exists (w_fs w) path) then (Ok [], w)
  else match read_to_string path w with
       | (Err e, w') => (Err (McpIo e), w')
       | (Ok raw, w') => (parse_mcp_config_text raw, w')
       end.

(** Numbers of configured and of enabled servers. *)
Definition summarize_mcp_config `{Disk} `{McpFile} (workspace_root : apath) (w : World)
  : result (nat * nat) McpError * World :=
  match load_mcp_config workspace_root w with
  | (Err e, w') => (Err e, w')
  | (Ok servers, w') => (Ok (length servers, length (List.filter mc_enabled servers)), w')
  end.

Definition plugin_enabled (overrides : list (list N * bool)) (source name : str) (default : bool) : bool :=
  or_else (btree_get (source ++ $":" ++ name) overrides) default.

(** The servers of the user that the workspace does not name. *)
Fixpoint add_user_servers (plugin_config : PluginConfig) (entries : list (str * McpServerEntry))
    (by_name : gmap (list N) McpServerConfig) : result (gmap (list N) McpServerConfig) McpError :=
  match entries with
  | [] => Ok by_name
  | (name, entry) :: r =>
    if negb (is_valid_server_name name) then
      Err (McpConfig ($"invalid server name `" ++ name ++ $"`"))
    else if is_empty (trim (me_command entry)) then Err (missing_command name)
    else match by_name !! name with
         | Some _ => add_user_servers plugin_config r by_name
         | None =>
           let enabled := plugin_enabled (pc_mcp_enabled plugin_config) $"user" name (me_enabled entry) in
           add_user_servers plugin_config r (<[name := server_config name entry enabled]> by_name)
         end
  end.

Definition workspace_server (plugin_config : PluginConfig) (c : McpServerConfig) : McpServerConfig :=
  mkMcpServerConfig (mc_name c) (mc_command c) (mc_args c) (mc_env c)
    (plugin_enabled (pc_mcp_enabled plugin_config) $"workspace" (mc_name c) (mc_enabled c)).

Definition effective_servers (plugin_config : PluginConfig) (workspace : list McpServerConfig)
  : result (list McpServerConfig) McpError :=
  let by_name := foldl (fun m c => <[mc_name c := workspace_server plugin_config c]> m) ∅ workspace in
  let? all := add_user_servers plugin_config (pc_mcp_servers plugin_config) by_name in
  Ok (take MAX_SERVERS (order_by by_name_le (map snd (map_to_list all)))).

Definition load_effective_mcp_config `{Disk} `{McpFile} (workspace_root : apath)
    (plugin_config : PluginConfig) (w : World) : result (list McpServerConfig) McpError * World :=
  match load_mcp_config workspace_root w with
  | (Err e, w') => (Err e, w')
  | (Ok workspace, w') => (effective_servers plugin_config workspace, w')
  end.

(** ** Sessions *)

(** What the process of a server does.  Every answer depends on the server, the lines
    that were written to it and the number of lines that were read from it: whether
    it starts, whether a write fails, whether it has exited, the next line ([None] at the
    end), and whether the deadline of a request has passed that began when [first] lines
    were read.  [max_lines] bounds the lines that one request reads before that. *)
Class Peer := {
  spawn_server : McpServerConfig -> option (list N);
  write_error : list N -> list (list N) -> option IoError;
  server_exited : list N -> list (list N) -> nat -> option (list N);
  server_line : list N -> list (list N) -> nat -> result (option (list N)) IoError;
  deadline_passed : list N -> list (list N) -> nat -> nat -> bool;
  max_lines : nat;
}.
Class PeerOk `{Peer} := deadline_passes name written first :
  deadline_passed name written first (first + max_lines) = true.

Record McpSession := mkMcpSession {
  ms_name : str; ms_written : list str; ms_read : nat; ms_next_id : N }.

(** Whether the [id] of a message is that of the request. *)
Definition id_matches (expected_id : N) (id : Value) : bool :=
  match id with
  | JInt _ => match as_u64 id with Some value => (value =? expected_id)%N | None => false end
  | JString text => match parse_u64 text with Some value => (value =? expected_id)%N | None => false end
  | _ => false
  end.

(** What one line means for the request. *)
Inductive Reply := Skip | Answer (v : Value) | Failure (message : str).

Section Session.
Context `{Peer} `{JsonText} `{JsonParse} `{IoText}.
(** The text of the error of [serde_json::from_str]. *)
Context (json_error : list N -> list N).

Definition Sess A : Type := McpSession -> result A McpError * McpSession.
Definition sret {A} (a : A) : Sess A := fun s => (Ok a, s).
Definition sbind {A B} (m : Sess A) (f : A -> Sess B) : Sess B := fun s =>
  match m s with
  | (Ok a, s') => f a s'
  | (Err e, s') => (Err e, s')
  end.
Notation "'let!' x := m 'in' k" := (sbind m (fun x => k))
  (at level 10, x pattern, m at level 100, k at level 200).

Definition write_message (payload : Value) : Sess unit := fun s =>
  let line := json_text payload ++ [LF] in
  match write_error (ms_name s) (ms_written s) with
  | Some e => (Err (McpIo e), s)
  | None => (Ok tt, mkMcpSession (ms_name s) (ms_written s ++ [line]) (ms_read s) (ms_next_id s))
  end.

Definition interpret (expected_id : N) (line : str) : Reply :=
  let trimmed := trim line in
  if is_empty trimmed then Skip
  else match from_str trimmed with
       | None => Failure ($"invalid JSON from server: " ++ json_error trimmed)
       | Some message =>
         match json_get $"id" message with
         | None => Skip
         | Some id =>
           if negb (id_matches expected_id id) then Skip
           else match json_get $"error" message with
                | Some error =>
                  Failure (or_else (json_get $"message" error ≫= as_str) $"unknown MCP error")
                | None => Answer (or_else (json_get $"result" message) JNull)
                end
         end
       end.

(** The loop of [read_response]; [None] when the fuel ends before the deadline. *)
Fixpoint read_loop (fuel first : nat) (expected_id : N) (s : McpSession)
  : option (result Value McpError) * McpSession :=
  let name := ms_name s in
  if deadline_passed name (ms_written s) first (ms_read s) then (Some (Err (McpTimeout name)), s)
  else match server_exited name (ms_written s) (ms_read s) with
  | Some status => (Some (Err (McpProtocol name ($"process exited early with " ++ status))), s)
  | None =>
    match server_line name (ms_written s) (ms_read s) with
    | Err e => (Some (Err (McpIo e)), s)
    | Ok None => (Some (Err (McpProtocol name $"stdout closed")), s)
    | Ok (Some line) =>
      let s' := mkMcpSession name (ms_written s) (ms_read s + 1) (ms_next_id s) in
      match interpret expected_id line with
      | Answer v => (Some (Ok v), s')
      | Failure m => (Some (Err (McpProtocol name m)), s')
      | Skip => match fuel with
                | 0 => (None, s')
                | S f => read_loop f first expected_id s'
                end
      end
    end
  end.

Definition read_response (expected_id : N) : Sess Value := fun s =>
  match read_loop max_lines (ms_read s) expected_id s with
  | (Some r, s') => (r, s')
  | (None, s') => (Err (McpTimeout (ms_name s)), s')
  end.

Definition request (method : str) (params : Value) : Sess Value := fun s =>
  let id := ms_next_id s in
  let s1 := mkMcpSession (ms_name s) (ms_written s) (ms_read s) ((id + 1) mod 2 ^ 64)%N in
  (let! _ := write_message
      (JObject [($"id", json_N id); ($"jsonrpc", JString $"2.0"); ($"method", JString method);
                ($"params", params)]) in
   read_response id) s1.

Definition notify (method : str) (params : Value) : Sess unit :=
  write_message (JObject [($"jsonrpc", JString $"2.0"); ($"method", JString method);
                          ($"params", params)]).

Definition initialize : Sess unit :=
  let! _ := request $"initialize"
    (JObject [($"capabilities", JObject []);
              ($"clientInfo", JObject [($"name", JString $"xcoding"); ($"version", JString $"0.1.0")]);
              ($"protocolVersion", JString MCP_PROTOCOL_VERSION)]) in
  notify $"notifications/initialized" (JObject []).

Definition start_session (config : McpServerConfig) : result McpSession McpError :=
  match spawn_server config with
  | Some message => Err (McpSpawn (mc_name config) message)
  | None =>
    match initialize (mkMcpSession (mc_name config) [] 0 1) with
    | (Ok _, s) => Ok s
    | (Err e, _) => Err e
    end
  end.

Definition tool_definition (server : str) (tool : Value) : option McpToolDefinition :=
  let name := trim (or_else (json_get $"name" tool ≫= as_str) []) in
  if is_empty name then None
  else
    let description := or_else (json_get $"description" tool ≫= as_str) $"MCP tool" in
    Some (mkMcpToolDefinition server name (encode_tool_name server name)
            ($"[MCP:" ++ server ++ $"] " ++ description)
            (or_else (json_get $"inputSchema" tool)
               (JObject [($"properties", JObject []); ($"type", JString $"object")]))).

Definition list_tools : Sess (list McpToolDefinition) :=
  let! result := request $"tools/list" (JObject []) in
  let tools := or_else (json_get $"tools" result ≫= as_array) [] in
  fun s => (Ok (omap (tool_definition (ms_name s)) tools), s).

Definition call_tool (tool : str) (arguments : Value) : Sess McpCallResult :=
  let! result := request $"tools/call"
    (JObject [($"arguments", match arguments with JNull => JObject [] | v => v end);
              ($"name", JString tool)]) in
  fun s => (Ok (mkMcpCallResult (ms_name s) tool
                  (or_else (json_get $"isError" result ≫= as_bool) false)
                  (or_else (json_get $"content" result) (JArray []))
                  (json_get $"structuredContent" result)), s).

(** ** The runtime *)

Record McpRuntime := mkMcpRuntime {
  mr_sessions : gmap (list N) McpSession;
  mr_tools : list McpToolDefinition;
  mr_startup_errors : list str }.

Definition prepare_server (rt : McpRuntime) (config : McpServerConfig) : McpRuntime :=
  let failed e := mkMcpRuntime (mr_sessions rt) (mr_tools rt)
                    (mr_startup_errors rt ++ [McpError_to_string e]) in
  match start_session config with
  | Err e => failed e
  | Ok session =>
    match list_tools session with
    | (Err e, _) => failed e
    | (Ok listed, session') =>
      mkMcpRuntime (<[mc_name config := session']> (mr_sessions rt))
        (mr_tools rt ++ take MAX_TOOLS_PER_SERVER listed) (mr_startup_errors rt)
    end
  end.

Definition tool_le (a b : McpToolDefinition) : bool :=
  str_leb (mt_namespaced_name a) (mt_namespaced_name b).

Definition prepare_servers (configs : list McpServerConfig) : McpRuntime :=
  let rt := foldl prepare_server (mkMcpRuntime ∅ [] []) (List.filter mc_enabled configs) in
  mkMcpRuntime (mr_sessions rt) (order_by tool_le (mr_tools rt)) (mr_startup_errors rt).

Definition prepare_with_plugin_config `{Disk} `{McpFile} (workspace_root : apath)
    (plugin_config : PluginConfig) (w : World) : result McpRuntime McpError * World :=
  match load_effective_mcp_config workspace_root plugin_config w with
  | (Err e, w') => (Err e, w')
  | (Ok configs, w') => (Ok (prepare_servers configs), w')
  end.

Definition mcp_call (server tool : str) (arguments : Value) (rt : McpRuntime)
  : result McpCallResult McpError * McpRuntime :=
  if negb (existsb (fun item => (mt_server item =s server) && (mt_tool item =s tool)) (mr_tools rt))
  then (Err (UnknownTool server tool), rt)
  else match mr_sessions rt !! server with
       | None => (Err (McpUnavailable server), rt)
       | Some session =>
         let (r, session') := call_tool tool arguments session in
         (r, mkMcpRuntime (<[server := session']> (mr_sessions rt)) (mr_tools rt) (mr_startup_errors rt))
       end.
End Session.

(** ** What the MCP client promises

    Which tool names can be decoded, how the servers of the workspace and of the user
    are merged, and that a request ends and returns the answer to itself. *)

(** ** Names *)

Lemma starts_with_two a b (s : str) :
  starts_with [a; b] s = true <-> s !! 0 = Some a /\ s !! 1 = Some b.
Proof.
  rewrite starts_with_true. split; [by intros [r ->]|].
  destruct s as [|x [|y r]]; [by intros []..|]. intros [[= ->] [= ->]]. by exists r.
Qed.

(** A separator that starts inside the server's name, or on its last character. *)
Lemma separator_inside server tool j :
  j < length server ->
  starts_with MCP_SEPARATOR (drop j (server ++ MCP_SEPARATOR ++ tool))
  = starts_with MCP_SEPARATOR (drop j (server ++ $"_")).
Proof.
  intros Hj. change MCP_SEPARATOR with [95%N; 95%N]. change ($"_") with [95%N].
  apply Bool.eq_true_iff_eq. rewrite !starts_with_two, !lookup_drop.
  rewrite !(lookup_app_l server _ (j + 0)) by lia.
  destruct (decide (j + 1 < length server)) as [Hl|Hl]; [rewrite !(lookup_app_l server _ (j + 1)) by lia; tauto|].
  rewrite !(lookup_app_r server _ (j + 1)) by lia. replace (j + 1 - length server) with 0 by lia. cbn. tauto.
Qed.

Lemma find_separator server tool :
  find_str MCP_SEPARATOR (server ++ MCP_SEPARATOR ++ tool) = Some (length server) <->
  contains $"__" (server ++ $"_") = false.
Proof.
  rewrite find_str_Some, contains_at. split.
  - intros (_ & _ & Hj) j. destruct (decide (j < length server)) as [Hl|Hl].
    + rewrite <- (separator_inside server tool) by done. by apply Hj.
    + apply not_true_iff_false. change ($"__") with [95%N; 95%N]. change ($"_") with [95%N].
      rewrite starts_with_two, !lookup_drop.
      intros [_ Hx]. apply lookup_lt_Some in Hx. rewrite length_app in Hx. simpl in Hx. lia.
  - intros Hj. split_and!.
    + rewrite drop_app_length. apply starts_with_true. eauto.
    + rewrite length_app. lia.
    + intros j Hl. by rewrite separator_inside.
Qed.

Lemma decode_tool_name_Some name server tool :
  decode_tool_name name = Some (server, tool) <->
  name = encode_tool_name server tool /\ is_valid_server_name server = true /\
  tool <> [] /\ contains $"__" (server ++ $"_") = false.
Proof.
  unfold decode_tool_name, encode_tool_name. split.
  - destruct (strip_prefix MCP_PREFIX name) as [rest|] eqn:Ep; [|done].
    apply strip_prefix_Some in Ep as ->. unfold split_once_str.
    destruct (find_str MCP_SEPARATOR rest) as [i|] eqn:Ef; [|done].
    destruct (find_str_split _ _ _ Ef) as [r Hr].
    pose proof (proj1 (find_str_Some _ _ _) Ef) as (_ & Hil & _).
    assert (drop (i + length MCP_SEPARATOR) rest = r) as ->.
    { rewrite Hr at 1. rewrite <- drop_drop, drop_app_length', drop_app_length; [done|].
      rewrite length_take. lia. }
    destruct (is_empty (take i rest) || is_empty r) eqn:Ee; [done|].
    destruct (is_valid_server_name _) eqn:Ev; cbn [negb]; [|done]. intros [= <- <-].
    apply orb_false_iff in Ee as [_ Er]. split_and!.
    + by rewrite <- Hr.
    + done.
    + by destruct r.
    + rewrite <- (find_separator _ r), <- Hr, Ef. by rewrite length_take_le by lia.
  - intros (-> & Hv & Ht & Hc). rewrite (proj2 (strip_prefix_Some _ _ _) eq_refl).
    unfold split_once_str. rewrite (proj2 (find_separator server tool) Hc).
    rewrite take_app_length, <- drop_drop, drop_app_length, drop_app_length, Hv.
    destruct server; [done|]. by destruct tool.
Qed.

(** A name decodes to a server and a tool exactly when it is their encoding, the
    server has a valid name, the tool has one at all, and the server's name neither
    contains two underscores in a row nor ends with one. *)
Theorem mcp_name_roundtrip name server tool :
  decode_tool_name name = Some (server, tool) <->
  name = encode_tool_name server tool /\ is_valid_server_name server = true /\
  tool <> [] /\ contains $"__" (server ++ $"_") = false.
Proof. apply decode_tool_name_Some. Qed.

(** ** The effective configuration *)

Lemma str_leb_total a b : str_leb a b = true \/ str_leb b a = true.
Proof.
  unfold str_leb. destruct (str_ltb b a) eqn:E; [|by left]. right. by rewrite (str_ltb_asym b a).
Qed.

(** A server of the user that no workspace server hides. *)
Definition user_server (cfg : PluginConfig) (workspace : list McpServerConfig) (c : McpServerConfig) : Prop :=
  exists entry, (mc_name c, entry) ∈ pc_mcp_servers cfg /\
    (mc_name c ∉ map mc_name workspace) /\
    c = server_config (mc_name c) entry
          (plugin_enabled (pc_mcp_enabled cfg) $"user" (mc_name c) (me_enabled entry)).

Lemma add_user_servers_spec cfg entries m all :
  NoDup (map fst entries) -> add_user_servers cfg entries m = Ok all ->
  forall name c, all !! name = Some c <->
    m !! name = Some c \/
    m !! name = None /\ exists entry, (name, entry) ∈ entries /\
      c = server_config name entry
            (plugin_enabled (pc_mcp_enabled cfg) $"user" name (me_enabled entry)).
Proof.
  revert m. induction entries as [|[n e] r IH]; intros m Hnd; cbn [add_user_servers].
  { intros [= <-] name c. split; [by left|]. intros [?|(_ & entry & Hin & _)]; [done|set_solver]. }
  cbn [map fst] in Hnd. apply NoDup_cons in Hnd as [Hn Hnd].
  destruct (is_valid_server_name n); cbn [negb]; [|done]. destruct (is_empty _); [done|].
  assert (forall entry, (n, entry) ∉ r) as Hfresh.
  { intros entry Hin. apply Hn. by apply (list_elem_of_fmap_2 fst r (n, entry)). }
  destruct (m !! n) as [c0|] eqn:Em; intros Ha name c; rewrite (IH _ Hnd Ha).
  - split; (intros [?|(Hm & entry & Hin & ->)]; [by left|right; split; [done|]; exists entry; split; [|done]]).
    + by right.
    + apply elem_of_cons in Hin as [[= -> ->]|?]; [congruence|done].
  - destruct (decide (name = n)) as [->|Hne].
    + rewrite lookup_insert_eq, Em. split.
      * intros [[= <-]|[? _]]; [|done]. right. split; [done|]. exists e. split; [by left|done].
      * intros [?|(_ & entry & [[= ->]|Hin]%elem_of_cons & ->)]; [done|by left|by destruct (Hfresh entry)].
    + rewrite lookup_insert_ne by done. split; (intros [?|(Hm & entry & Hin & ->)]; [by left|right; split; [done|]; exists entry; split; [|done]]).
      * by right.
      * apply elem_of_cons in Hin as [[= -> ->]|?]; [congruence|done].
Qed.

Lemma workspace_map cfg ws name c :
  NoDup (map mc_name ws) ->
  (foldl (fun m c => <[mc_name c := workspace_server cfg c]> m) ∅ ws : gmap (list N) McpServerConfig) !! name = Some c <->
  exists w, w ∈ ws /\ mc_name w = name /\ c = workspace_server cfg w.
Proof.
  induction ws as [|w ws IH] using rev_ind; intros Hnd.
  { cbn. rewrite lookup_empty. set_solver. }
  rewrite map_app in Hnd. apply NoDup_app in Hnd as (Hnd & Hd & _).
  rewrite foldl_app. cbn [foldl]. destruct (decide (mc_name w = name)) as [<-|Hne].
  - rewrite lookup_insert_eq. split; [intros [= <-]; exists w; set_solver|].
    intros (w' & [Hw|Hw]%elem_of_app & Hn & ->); [|by apply list_elem_of_singleton in Hw as ->].
    exfalso. apply (Hd (mc_name w)); [rewrite <- Hn; by apply (list_elem_of_fmap_2 mc_name ws w')|by left].
  - rewrite lookup_insert_ne, (IH Hnd) by done. split; intros (w' & Hw & Hn & ->); exists w'; [set_solver|].
    apply elem_of_app in Hw as [?|Hw%list_elem_of_singleton]; [done|by subst w'].
Qed.

(** The effective servers are the first [MAX_SERVERS] by name of all servers, whose
    names differ: every server of the workspace with the user's switch for it, and those of
    the user that no server of the workspace has the name of. *)
Theorem effective_servers_spec cfg workspace servers :
  NoDup (map mc_name workspace) -> NoDup (map fst (pc_mcp_servers cfg)) ->
  effective_servers cfg workspace = Ok servers ->
  exists all, servers = take MAX_SERVERS all /\ NoDup (map mc_name all) /\
    Sorted (fun a b => by_name_le a b = true) all /\
    forall c, c ∈ all <->
      (exists w, w ∈ workspace /\ c = workspace_server cfg w) \/ user_server cfg workspace c.
Proof.
  intros Hws Hus He. unfold effective_servers in He.
  destruct (add_user_servers _ _ _) as [m|] eqn:Ea; cbn [rbind] in He; [|done]. injection He as <-.
  pose proof (add_user_servers_spec _ _ _ _ Hus Ea) as Hm.
  assert (forall name c, m !! name = Some c -> mc_name c = name) as Hname.
  { intros name c [Hc|(_ & entry & _ & ->)]%Hm; [|done].
    by apply workspace_map in Hc as (w & _ & <- & ->). }
  assert (forall c, c ∈ map snd (map_to_list m) <-> m !! mc_name c = Some c) as Hin.
  { intros c. rewrite list_elem_of_fmap. split.
    - intros ([n c'] & -> & Hc%elem_of_map_to_list). cbn. by rewrite (Hname _ _ Hc).
    - intros Hc. exists (mc_name c, c). split; [done|]. by apply elem_of_map_to_list. }
  exists (order_by by_name_le (map snd (map_to_list m))).
  pose proof (order_by_perm by_name_le (map snd (map_to_list m))) as Hp. split_and!; [done| | |].
  - rewrite Hp. assert (map mc_name (map snd (map_to_list m)) = map fst (map_to_list m)) as ->.
    { rewrite map_map. apply map_ext_in. intros [n c] Hc%list_elem_of_In%elem_of_map_to_list. by apply Hname. }
    apply NoDup_fst_map_to_list.
  - apply order_by_sorted. intros a b. unfold by_name_le. apply str_leb_total.
  - intros c. rewrite Hp, Hin, Hm, (workspace_map cfg workspace) by done. split.
    + intros [(w & Hw & _ & ->)|(Hn & entry & He & ->)]; [left; eauto|].
      right. exists entry. split_and!; [done| |done]. intros Hc. cbn in Hc.
      apply list_elem_of_fmap in Hc as (w & Hw & Hwin).
      assert (exists x, (foldl (fun m c => <[mc_name c := workspace_server cfg c]> m) ∅ workspace
        : gmap (list N) McpServerConfig) !! mc_name w = Some x) as [x Hx].
      { exists (workspace_server cfg w). apply workspace_map; eauto. }
      cbn [mc_name server_config] in Hn. rewrite Hw in Hn. congruence.
    + intros [(w & Hw & ->)|(entry & He & Hn & Hc)]; [left; exists w; done|right].
      split; [|exists entry; done]. apply eq_None_not_Some. intros [x Hx].
      apply workspace_map in Hx as (w & Hw & Hnw & _); [|done]. apply Hn. rewrite <- Hnw.
      by apply (list_elem_of_fmap_2 mc_name workspace w).
Qed.

(** ** Requests *)

Section Requests.
Context `{Peer} `{JsonText} `{JsonParse} `{IoText}.
Variable json_error : list N -> list N.

(** The line that a session in state [s] reads as number [k]. *)
Definition line_at (s : McpSession) (k : nat) : result (option str) IoError :=
  server_line (ms_name s) (ms_written s) k.

(** Line [k] has nothing to do with the request. *)
Definition skipped (id : N) (s : McpSession) (k : nat) : Prop :=
  exists line, line_at s k = Ok (Some line) /\ interpret json_error id line = Skip.

Lemma read_loop_spec fuel first id s :
  let (r, s') := read_loop json_error fuel first id s in
  ms_name s' = ms_name s /\ ms_written s' = ms_written s /\ ms_next_id s' = ms_next_id s /\
  ms_read s <= ms_read s' /\
  (r = None -> forall n, ms_read s <= n -> n <= ms_read s + fuel ->
     deadline_passed (ms_name s) (ms_written s) first n = false) /\
  (forall v, r = Some (Ok v) -> exists k line, ms_read s' = S k /\ line_at s k = Ok (Some line) /\
     interpret json_error id line = Answer v /\
     forall j, ms_read s <= j -> j < k -> skipped id s j).
Proof.
  revert s. induction fuel as [|fuel IH]; intros s; cbn [read_loop];
    (destruct (deadline_passed _ _ _ _) eqn:Ed; [by split_and!|]);
    (destruct (server_exited _ _ _); [by split_and!|]);
    (destruct (server_line _ _ _) as [[line|]|] eqn:El; [|by split_and!..]);
    (destruct (interpret json_error id line) as [|v|] eqn:Ei; cbn [ms_name ms_written ms_next_id ms_read]).
  - split_and!; [done|done|done|lia| |done]. intros _ n Hn1 Hn2. by replace n with (ms_read s) by lia.
  - split_and!; [done|done|done|lia|done|]. intros v' [= <-]. exists (ms_read s), line.
    split_and!; [lia|done|done|lia].
  - split_and!; [done|done|done|lia|done|done].
  - set (s1 := mkMcpSession _ _ _ _). specialize (IH s1).
    destruct (read_loop json_error fuel first id s1) as [r s'].
    destruct IH as (H1' & H2' & H3' & H4' & H5' & H6'). cbn [s1 ms_name ms_written ms_next_id ms_read] in *.
    split_and!; [done|done|done|lia| |].
    + intros Hr n Hn1 Hn2. destruct (decide (n = ms_read s)) as [->|]; [done|]. apply H5'; [done|lia|lia].
    + intros v Hv. destruct (H6' v Hv) as (k & l & Hk & Hl & Hi & Hj). exists k, l.
      split_and!; [done|done|done|]. intros j Hj1 Hj2. destruct (decide (j = ms_read s)) as [->|].
      * exists line. done.
      * apply Hj; lia.
  - split_and!; [done|done|done|lia|done|]. intros v' [= <-]. exists (ms_read s), line.
    split_and!; [lia|done|done|lia].
  - split_and!; [done|done|done|lia|done|done].
Qed.

(** The message of a request. *)
Definition request_line (id : N) (method : str) (params : Value) : str :=
  json_text (JObject [($"id", json_N id); ($"jsonrpc", JString $"2.0"); ($"method", JString method);
                      ($"params", params)]) ++ [LF].

(** A request to an MCP server ends: it writes one line with a fresh identifier and
    reads lines before its deadline until one answers this identifier; every line it
    passes over is blank, a notification or the answer to another request, so its result
    is never that of an earlier request. *)
Theorem request_answers `{!PeerOk} method params s :
  let id := ms_next_id s in
  let (r, s') := request json_error method params s in
  fst (read_loop json_error max_lines (ms_read s) id
         (mkMcpSession (ms_name s) (ms_written s ++ [request_line id method params])
            (ms_read s) ((id + 1) mod 2 ^ 64)%N)) <> None /\
  ms_name s' = ms_name s /\ ms_next_id s' = ((id + 1) mod 2 ^ 64)%N /\ ms_read s <= ms_read s' /\
  forall v, r = Ok v ->
    ms_written s' = ms_written s ++ [request_line id method params] /\
    exists k line, ms_read s' = S k /\ line_at s' k = Ok (Some line) /\
      interpret json_error id line = Answer v /\
      forall j, ms_read s <= j -> j < k -> skipped id s' j.
Proof.
  cbv zeta. unfold request, sbind, write_message. cbn [ms_name ms_written ms_read ms_next_id].
  fold (request_line (ms_next_id s) method params).
  set (s1 := mkMcpSession (ms_name s) (ms_written s ++ _) _ _).
  pose proof (read_loop_spec max_lines (ms_read s) (ms_next_id s) s1) as Hl.
  assert (fst (read_loop json_error max_lines (ms_read s) (ms_next_id s) s1) <> None) as Hend.
  { destruct (read_loop _ _ _ _ s1) as [[r|] s'] eqn:E; [done|]. exfalso.
    destruct Hl as (_ & _ & _ & _ & Hn & _).
    specialize (Hn eq_refl (ms_read s + max_lines)). cbn [s1 ms_read ms_name ms_written] in Hn.
    rewrite (deadline_passes (ms_name s)) in Hn. discriminate Hn; lia. }
  destruct (write_error _ _) as [e|]; [split_and!; first [done|cbn; lia]|]. fold s1.
  unfold read_response. cbn [ms_read]. change (ms_read s1) with (ms_read s).
  destruct (read_loop _ _ _ _ s1) as [[r|] s'] eqn:E; [|done].
  destruct Hl as (Hn & Hw & Hi & Hle & _ & Hok). split_and!; [done|done|done|done|].
  intros v ->. split; [done|]. destruct (Hok v eq_refl) as (k & line & Hk & Hline & Hint & Hskip).
  exists k, line. unfold skipped, line_at in *. rewrite Hn, Hw. done.
Qed.
End Requests.

(** ** The runtime *)

Section Runtime.
Context `{Peer} `{JsonText} `{JsonParse} `{IoText}.
Variable json_error : list N -> list N.

(** Every tool has the session of its server, and the name of its encoding. *)
Definition runtime_ok (rt : McpRuntime) : Prop :=
  forall td, td ∈ mr_tools rt ->
    mt_namespaced_name td = encode_tool_name (mt_server td) (mt_tool td) /\
    mt_tool td <> [] /\ is_Some (mr_sessions rt !! mt_server td).

Lemma request_name method params s :
  ms_name (snd (request json_error method params s)) = ms_name s.
Proof.
  unfold request, sbind, write_message. cbn [ms_name ms_written ms_read ms_next_id].
  destruct (write_error _ _); [done|]. unfold read_response. set (s1 := mkMcpSession _ _ _ _).
  pose proof (read_loop_spec json_error max_lines (ms_read s1) (ms_next_id s) s1) as Hl.
  destruct (read_loop _ _ _ _ s1) as [[r|] s'] eqn:E; apply Hl.
Qed.

Lemma start_session_name config s : start_session json_error config = Ok s -> ms_name s = mc_name config.
Proof.
  unfold start_session. destruct (spawn_server config); [done|]. unfold initialize, sbind.
  set (s0 := mkMcpSession _ _ _ _). pose proof (fun m p => request_name m p s0) as Hn.
  destruct (request _ _ _ s0) as [[v|e] s1] eqn:E; [|done]. specialize (Hn $"initialize").
  match type of E with request _ _ ?p _ = _ => specialize (Hn p) end. rewrite E in Hn. cbn [snd] in Hn.
  unfold notify, write_message. destruct (write_error _ _); [done|]. intros [= <-]. done.
Qed.

Lemma list_tools_spec s tools s' :
  list_tools json_error s = (Ok tools, s') ->
  forall td, td ∈ tools -> mt_server td = ms_name s /\
    mt_namespaced_name td = encode_tool_name (mt_server td) (mt_tool td) /\ mt_tool td <> [].
Proof.
  unfold list_tools, sbind. pose proof (request_name $"tools/list" (JObject []) s) as Hn.
  destruct (request _ _ _ s) as [[v|e] s1]; [|done]. cbn [snd] in Hn. intros [= <- <-] td Htd.
  apply list_elem_of_omap in Htd as (tool & _ & Ht). unfold tool_definition in Ht.
  destruct (is_empty _) eqn:Ee; [done|]. injection Ht as <-. cbn. split_and!; [done|done|].
  intros E. by rewrite E in Ee.
Qed.

Lemma prepare_server_ok rt config : runtime_ok rt -> runtime_ok (prepare_server json_error rt config).
Proof.
  intros Hok. unfold prepare_server. destruct (start_session json_error config) as [session|e] eqn:Es; [|exact Hok].
  apply start_session_name in Es. destruct (list_tools json_error session) as [[listed|e] session'] eqn:El; [|exact Hok].
  intros td [Htd|Htd]%elem_of_app; cbn [mr_tools mr_sessions] in *.
  - destruct (Hok td Htd) as (H1' & H2' & H3'). split_and!; [done|done|].
    destruct (decide (mc_name config = mt_server td)) as [->|]; [rewrite lookup_insert_eq; eauto|].
    by rewrite lookup_insert_ne.
  - apply subseteq_take in Htd. destruct (list_tools_spec _ _ _ El td Htd) as (Hs & Hn & Ht).
    split_and!; [done|done|]. rewrite Hs, Es, lookup_insert_eq. eauto.
Qed.

(** Every tool that a prepared runtime offers belongs to a server with a live session,
    so a call of it goes to that server and is never refused as unknown or unavailable; and
    a tool that is not offered is refused without a message to any server. *)
Theorem offered_tools_callable configs server tool arguments :
  let rt := prepare_servers json_error configs in
  let (r, rt') := mcp_call json_error server tool arguments rt in
  ((exists td, td ∈ mr_tools rt /\ mt_server td = server /\ mt_tool td = tool) ->
     exists session, mr_sessions rt !! server = Some session /\
       r = fst (call_tool json_error tool arguments session) /\
       forall other, other <> server -> mr_sessions rt' !! other = mr_sessions rt !! other) /\
  ((forall td, td ∈ mr_tools rt -> mt_server td = server -> mt_tool td = tool -> False) ->
     r = Err (UnknownTool server tool) /\ rt' = rt).
Proof.
  intros rt. assert (runtime_ok rt) as Hok.
  { unfold rt, prepare_servers. intros td. cbn [mr_tools mr_sessions]. rewrite order_by_perm. revert td.
    set (cs := List.filter mc_enabled configs).
    assert (forall cs rt, runtime_ok rt -> runtime_ok (foldl (prepare_server json_error) rt cs)) as Hf.
    { clear. intros cs. induction cs as [|c cs IH]; intros rt Hrt; cbn [foldl]; auto using prepare_server_ok. }
    apply (Hf cs). intros td Htd. by apply elem_of_nil in Htd. }
  clearbody rt. unfold mcp_call.
  destruct (existsb _ (mr_tools rt)) eqn:Ex; cbn [negb].
  - apply existsb_exists in Ex as (td & Htd%list_elem_of_In & [Hs%str_eqb_true Ht%str_eqb_true]%andb_prop).
    destruct (Hok td Htd) as (_ & _ & [session Hsess]). rewrite Hs in Hsess. rewrite Hsess.
    destruct (call_tool json_error tool arguments session) as [r session'] eqn:Ec. split.
    + intros _. exists session. rewrite Ec. split_and!; [done|done|]. intros other Ho. cbn.
      by rewrite lookup_insert_ne.
    + intros Hno. by destruct (Hno td Htd Hs Ht).
  - split; [|done]. intros (td & Htd & Hs & Ht). apply not_true_iff_false in Ex. exfalso. apply Ex.
    apply existsb_exists. exists td. apply list_elem_of_In in Htd. split; [done|].
    apply andb_true_intro. by rewrite !str_eqb_true.
Qed.
End Runtime.

(** ** Examples *)

Definition demo_entry : McpServerEntry := mkMcpServerEntry $"node" [] [] true.
Definition demo_plugins : PluginConfig :=
  mkPluginConfig [($"docs", demo_entry); ($"web", demo_entry)] [($"user:web", false)] [].
Definition demo_workspace : list McpServerConfig := [server_config $"docs" demo_entry false].

Lemma effective_servers_spec_witness :
  exists servers, effective_servers demo_plugins demo_workspace = Ok servers /\
  exists all, servers = take MAX_SERVERS all /\ NoDup (map mc_name all).
Proof.
  destruct (effective_servers demo_plugins demo_workspace) as [servers|e] eqn:E;
    [|vm_compute in E; discriminate E].
  exists servers. split; [reflexivity|].
  destruct (effective_servers_spec demo_plugins demo_workspace servers
    ltac:(apply NoDup_singleton) ltac:(by apply (bool_decide_unpack _))
    E) as (all & H1 & H2 & _).
  exists all. split; assumption.
Defined.

(** A server that writes nothing useful. *)
#[export] Instance chatty_peer : Peer := {|
  spawn_server := fun _ => None;
  write_error := fun _ _ => None;
  server_exited := fun _ _ _ => None;
  server_line := fun _ _ _ => Ok (Some $"{}");
  deadline_passed := fun _ _ first n => first + 3 <=? n;
  max_lines := 3;
|}.
Lemma chatty_peer_ok : @PeerOk chatty_peer.
Proof. intros name written first. apply Nat.leb_le. cbn [max_lines chatty_peer]. lia. Qed.
#[local] Instance brief_json_text : JsonText := fun _ => $"{}".
#[local] Instance empty_parse : JsonParse := fun _ => Some (JObject []).

Definition demo_session : McpSession := mkMcpSession $"docs" [] 0 1.

Lemma request_answers_witness :
  ms_next_id (snd (request (fun s => s) $"tools/list" (JObject []) demo_session)) = 2%N.
Proof.
  pose proof (request_answers (fun s => s) (H3 := chatty_peer_ok) $"tools/list" (JObject []) demo_session) as H.
  cbv zeta in H. destruct (request (fun s => s) $"tools/list" (JObject []) demo_session) as [r s'].
  destruct H as (_ & _ & Hid & _). exact Hid.
Defined.

(** The configuration accepts server names whose tools cannot be called: the name that
    is offered for such a tool decodes to another server and another tool. *)
Theorem accepted_name_misdecoded :
  is_valid_server_name $"my__docs" = true /\
  decode_tool_name (encode_tool_name $"my__docs" $"read") = Some ($"my", $"docs__read") /\
  is_valid_server_name $"docs_" = true /\
  decode_tool_name (encode_tool_name $"docs_" $"read") = Some ($"docs", $"_read").
Proof. split_and!; vm_compute; reflexivity. Qed.
