(* ===== verification/Secrets.v ===== *)
(** * The secret scanner (crates/xcoding-agent/src/lib.rs)

    Which parts of a text read as live credentials, the redaction of what is stored or
    sent, and the opaque references that stand for secrets in a request to a relay.
    A position is a number of characters, a length limit of the source a number of
    bytes. *)

From S2P Require Import Prelude.
From S2P Require Import Protocol.
From S2P Require Import Policy.
From S2P Require Import Sql.
From S2P Require Import Routing.
From S2P Require Import Transcript.
From S2P Require Import Text.

Record SecretValueSpan := mkSpan { sv_start : nat; sv_end : nat; sv_category : str }.

Definition SECRET_FIELDS : list (str * str) :=
  [($"aws_secret_access_key", $"known_secret"); ($"client_secret", $"known_secret");
   ($"access_token", $"access_token"); ($"refresh_token", $"refresh_token");
   ($"api_key", $"api_key"); ($"api-key", $"api_key"); ($"x-api-key", $"api_key");
   ($"authorization", $"authorization_bearer")].
Definition COOKIE_FIELD_NAMES : list str :=
  [$"cookie"; $"set-cookie"; $"phpsessid"; $"connect.sid"].
Definition SESSION_FIELD_NAMES : list str := [$"session"; $"session_token"; $"admin_session"].
Definition SECRET_REFERENCE_PREFIX : str := $"{{secret:".
Definition SECRET_REFERENCE_SUFFIX : str := $"}}".

(** ** Occurrences *)

(** [lower[from..].find(p)] *)
Definition find_from (p s : str) (from : nat) : option nat := find_str p (drop from s).
Definition slice (s : str) (start end_ : nat) : str := take (end_ - start) (drop start s).

(** [str::match_indices]: leftmost occurrences without overlap. *)
Fixpoint match_loop (fuel : nat) (p s : str) (from : nat) : list nat :=
  match fuel with
  | 0 => []
  | S f =>
    match find_from p s from with
    | None => []
    | Some offset => (from + offset) :: match_loop f p s (from + offset + length p)
    end
  end.
Definition match_indices (p s : str) : list nat := match_loop (S (length s)) p s 0.

Definition is_identifier_byte (c : char) : bool :=
  is_ascii_alphanumeric c || contains_char c $"_-.".
Definition char_at (s : str) (i : nat) (p : char -> bool) : bool :=
  match s !! i with Some c => p c | None => false end.

Definition has_field_name_boundary_before (text : str) (start : nat) : bool :=
  match start with
  | 0 => true
  | S before =>
    negb (char_at text before is_identifier_byte)
    || (char_at text before (fun c => contains_char c $"nrt")
        && (2 <=? start) && char_at text (start - 2) (N.eqb BACKSLASH))
  end.

Definition field_occurrences (lower name : str) : list nat :=
  List.filter (fun start => has_field_name_boundary_before lower start
                            && negb (char_at lower (start + length name) is_identifier_byte))
    (match_indices name lower).

(** ** Values *)

Definition is_space_or_tab (c : char) : bool := (c =? 32)%N || (c =? 9)%N.
Definition is_quote_or_blank (c : char) : bool :=
  (c =? DQUOTE)%N || (c =? SQUOTE)%N || is_space_or_tab c.

Definition assignment_value_start (text : str) (name_end : nat) : option nat :=
  let rest := drop name_end text in
  let line := take_while (fun c => negb ((c =? CR)%N || (c =? LF)%N)) rest in
  match find_char (fun c => contains_char c $"=:") line with
  | None => None
  | Some delimiter =>
    if negb (forallb is_quote_or_blank (take delimiter line)) then None
    else let start := name_end + delimiter + 1 in
         Some (start + length (take_while is_quote_or_blank (drop start text)))
  end.

Definition ends_value (c : char) : bool :=
  is_whitespace c || (c =? DQUOTE)%N || (c =? SQUOTE)%N || contains_char c $",;})]\&#".

Definition value_span_from (text : str) (start : nat) : nat * nat :=
  let tail := drop start text in
  let skip := length (take_while is_quote_or_blank tail) in
  let value := drop skip tail in
  (start + skip, start + skip + or_else (find_char ends_value value) (length value)).

Definition ends_header (c : char) : bool :=
  (c =? CR)%N || (c =? LF)%N || (c =? DQUOTE)%N || (c =? SQUOTE)%N || (c =? BACKSLASH)%N.

Definition header_value_span_from (text : str) (start : nat) : nat * nat :=
  let tail := drop start text in
  let skip := length (take_while is_quote_or_blank tail) in
  let value := drop skip tail in
  let end_ := or_else (find_char ends_header value) (length value) in
  (start + skip, start + skip + length (trim_end_matches is_space_or_tab (take end_ value))).

Definition is_quoted_json_key (text : str) (start name_len : nat) : bool :=
  (0 <? start) && char_at text (start - 1) (N.eqb DQUOTE)
  && char_at text (start + name_len) (N.eqb DQUOTE).

(** Placeholders left behind by the redaction paths. *)
Definition is_redacted_placeholder (value : str) : bool :=
  starts_with $"redacted"
    (to_ascii_lowercase (trim_matches (fun c => negb (is_ascii_alphanumeric c)) value)).

Definition is_secret_reference (value : str) : bool :=
  let trimmed := trim value in
  is_redacted_placeholder trimmed || starts_with $"$" trimmed
  || (starts_with $"<" trimmed && ends_with $">" trimmed)
  || starts_with SECRET_REFERENCE_PREFIX trimmed.

Definition is_hex_digit (c : char) : bool :=
  is_ascii_digit c || in_range 65 70 c || in_range 97 102 c.
Definition is_64_hex (value : str) : bool :=
  (byte_len value =? 64) && forallb is_hex_digit value.

(** Dotted identifier chains are source code, not credentials. *)
Definition is_code_segment (segment : str) : bool :=
  match segment with
  | [] => false
  | first :: r => (is_ascii_alphabetic first || (first =? 95)%N)
                  && forallb (fun c => is_ascii_alphanumeric c || (c =? 95)%N) r
  end.
Definition looks_like_code_path (value : str) : bool :=
  contains_char 46%N value && forallb is_code_segment (split_on (N.eqb 46%N) value).

Definition is_secret_char (c : char) : bool :=
  is_ascii_alphanumeric c || contains_char c $"-_.~+/=:".
Definition looks_like_secret_value (value : str) : bool :=
  if (byte_len value <? 8) || is_redacted_placeholder value then false
  else if negb (forallb is_secret_char value) then false
  else negb ((byte_len value <=? 32) && looks_like_code_path value).

Definition is_token_char (c : char) : bool :=
  is_ascii_alphanumeric c || contains_char c $"._-".
Definition looks_like_credential_token (part : str) : bool :=
  let trimmed := trim_matches (fun c => negb (is_token_char c)) part in
  if starts_with $"sk-" trimmed && (20 <=? byte_len trimmed) then true
  else starts_with $"eyJ" trimmed
       && (length (List.filter (N.eqb 46%N) trimmed) =? 2) && (30 <=? byte_len trimmed).

(** [&text[start..end]] of a span. *)
Definition span_text (text : str) (v : nat * nat) : str := slice text (fst v) (snd v).

(** ** The collectors *)

Definition BEGIN_MARKER : str := $"-----begin ".
Definition PRIVATE_KEY_MARKER : str := $"private key-----".
Definition END_MARKER : str := $"-----end ".

Fixpoint private_key_loop (fuel : nat) (lower : str) (searched : nat) : list SecretValueSpan :=
  match fuel with
  | 0 => []
  | S f =>
    match find_from BEGIN_MARKER lower searched with
    | None => []
    | Some offset =>
      let begin := searched + offset in
      let after_begin := begin + length BEGIN_MARKER in
      match find_from PRIVATE_KEY_MARKER lower after_begin with
      | None => private_key_loop f lower after_begin
      | Some key_offset =>
        if 80 <? byte_len (take key_offset (drop after_begin lower))
        then private_key_loop f lower after_begin
        else
          let marker_end := after_begin + key_offset + length PRIVATE_KEY_MARKER in
          let to_the_end := [mkSpan begin (length lower) $"private_key"] in
          match find_from END_MARKER lower marker_end with
          | None => to_the_end
          | Some end_offset =>
            let after_end := marker_end + end_offset + length END_MARKER in
            match find_from PRIVATE_KEY_MARKER lower after_end with
            | None => to_the_end
            | Some end_key_offset =>
              let end_ := after_end + end_key_offset + length PRIVATE_KEY_MARKER in
              mkSpan begin end_ $"private_key" :: private_key_loop f lower end_
            end
          end
      end
    end
  end.
Definition collect_private_key_spans (lower : str) : list SecretValueSpan :=
  private_key_loop (S (length lower)) lower 0.

Definition collect_literal_spans (text secret category : str) : list SecretValueSpan :=
  if is_empty (trim secret) then []
  else map (fun start => mkSpan start (start + length secret) category) (match_indices secret text).

(** [known] is the set [KNOWN_SECRETS], in the order of its iteration. *)
Definition collect_literal_secret_spans (known : list str) (text : str) (api_key : option str)
  : list SecretValueSpan :=
  match api_key with
  | Some key => let key := trim key in
                if is_empty key then [] else collect_literal_spans text key $"provider_api_key"
  | None => []
  end
  ++ concat (map (fun secret => collect_literal_spans text secret $"known_secret")
               (List.filter (fun secret => 4 <=? byte_len secret) known)).

(** The value assigned to each occurrence of a field, if [select] takes it. *)
Definition field_values (text lower name : str) (value_of : str -> nat -> nat * nat)
    (select : nat -> nat * nat -> bool) (category : str) : list SecretValueSpan :=
  omap (fun start =>
    match assignment_value_start text (start + length name) with
    | None => None
    | Some value_start =>
      let v := value_of text value_start in
      if select start v then Some (mkSpan (fst v) (snd v) category) else None
    end) (field_occurrences lower name).

Definition collect_field_assignment_spans (text lower : str) : list SecretValueSpan :=
  concat (map (fun '(name, category) =>
    if name =s $"authorization" then []
    else field_values text lower name value_span_from
           (fun start v =>
              (fst v <? snd v)
              && (looks_like_secret_value (span_text text v)
                  || (is_quoted_json_key text start (length name)
                      && negb (is_secret_reference (span_text text v)))))
           category) SECRET_FIELDS).

Definition SESSION_PREFIX : str := $"ciwce:".
Definition SESSION_MARKER : str := $":session:".

Fixpoint session_loop (fuel : nat) (text lower : str) (searched : nat) : list SecretValueSpan :=
  match fuel with
  | 0 => []
  | S f =>
    match find_from SESSION_PREFIX lower searched with
    | None => []
    | Some offset =>
      let token_prefix := searched + offset in
      match find_from SESSION_MARKER lower token_prefix with
      | None => session_loop f text lower (token_prefix + length SESSION_PREFIX)
      | Some session_offset =>
        let session_marker := token_prefix + session_offset in
        let after := session_marker + length SESSION_MARKER in
        if existsb is_whitespace (slice lower token_prefix session_marker)
        then session_loop f text lower after
        else
          let v := value_span_from text after in
          (if is_64_hex (span_text text v) then [mkSpan (fst v) (snd v) $"session_token"] else [])
          ++ session_loop f text lower (Nat.max (snd v) after)
      end
    end
  end.

Definition collect_session_token_spans (text lower : str) : list SecretValueSpan :=
  concat (map (fun name =>
    field_values text lower name value_span_from
      (fun _ v => is_64_hex (span_text text v)) $"session_token") SESSION_FIELD_NAMES)
  ++ session_loop (S (length lower)) text lower 0.

Definition bearer_prefix_end (text : str) (value_start : nat) : option nat :=
  if negb (starts_with $"bearer" (to_ascii_lowercase (drop value_start text))) then None
  else let after := value_start + 6 in
       if char_at text after is_identifier_byte then None else Some after.

(** The token after [Bearer] and at least one blank. *)
Definition bearer_token (text : str) (value_start : nat) : option (nat * nat) :=
  match bearer_prefix_end text value_start with
  | None => None
  | Some after_bearer =>
    let token_offset := length (take_while is_space_or_tab (drop after_bearer text)) in
    if token_offset =? 0 then None else Some (value_span_from text (after_bearer + token_offset))
  end.

Definition collect_authorization_spans (text lower : str) : list SecretValueSpan :=
  omap (fun start =>
    match assignment_value_start text (start + length $"authorization") with
    | None => None
    | Some value_start =>
      match bearer_token text value_start with
      | None => None
      | Some v =>
        if (fst v <? snd v) && looks_like_secret_value (span_text text v)
        then Some (mkSpan (fst v) (snd v) $"authorization_bearer") else None
      end
    end) (field_occurrences lower $"authorization").

Definition collect_cookie_spans (text lower : str) : list SecretValueSpan :=
  concat (map (fun name =>
    if one_of name [$"cookie"; $"set-cookie"] then
      field_values text lower name header_value_span_from
        (fun _ v => (fst v <? snd v) && negb (is_secret_reference (span_text text v))
                    && negb (is_redacted_placeholder (span_text text v))) $"cookie"
    else
      field_values text lower name value_span_from
        (fun _ v => (fst v <? snd v) && looks_like_secret_value (span_text text v)) $"cookie")
    COOKIE_FIELD_NAMES).

Definition collect_bare_credential_token (text : str) (start end_ : nat) : list SecretValueSpan :=
  let token := slice text start end_ in
  if negb (looks_like_credential_token token) then []
  else [mkSpan start end_
          (if starts_with $"sk-" token then $"api_key" else $"authorization_bearer")].

(** The loop over the characters: [index] of the next one, and the open token. *)
Fixpoint bare_token_loop (text : str) (index : nat) (token_start : option nat) (rest : str)
  : list SecretValueSpan :=
  match rest with
  | [] => match token_start with
          | Some start => collect_bare_credential_token text start (length text)
          | None => []
          end
  | c :: r =>
    if is_token_char c
    then bare_token_loop text (S index) (Some (or_else token_start index)) r
    else match token_start with
         | Some start => collect_bare_credential_token text start index
         | None => []
         end ++ bare_token_loop text (S index) None r
  end.
Definition collect_bare_credential_token_spans (text : str) : list SecretValueSpan :=
  bare_token_loop text 0 None text.

(** ** Normal form *)

Definition span_category_priority (category : str) : nat :=
  if category =s $"private_key" then 0
  else if category =s $"provider_api_key" then 1
  else if category =s $"session_token" then 2
  else if category =s $"authorization_bearer" then 3
  else if category =s $"cookie" then 4
  else if category =s $"access_token" then 5
  else if category =s $"refresh_token" then 6
  else if category =s $"api_key" then 7
  else if category =s $"known_secret" then 8
  else 9.

(** By start, then the longer one, then the category. *)
Definition span_le (a b : SecretValueSpan) : bool :=
  if sv_start a <? sv_start b then true
  else if sv_start b <? sv_start a then false
  else if sv_end b <? sv_end a then true
  else if sv_end a <? sv_end b then false
  else span_category_priority (sv_category a) <=? span_category_priority (sv_category b).

Definition merge_span (current span : SecretValueSpan) : SecretValueSpan :=
  mkSpan (sv_start current) (Nat.max (sv_end current) (sv_end span))
    (if span_category_priority (sv_category span) <? span_category_priority (sv_category current)
     then sv_category span else sv_category current).

(** The loop with the last span of [normalized] apart. *)
Fixpoint merge_spans (current : SecretValueSpan) (spans : list SecretValueSpan)
  : list SecretValueSpan :=
  match spans with
  | [] => [current]
  | span :: r =>
    if sv_start span <? sv_end current then merge_spans (merge_span current span) r
    else current :: merge_spans span r
  end.
Definition normalize_secret_spans (spans : list SecretValueSpan) : list SecretValueSpan :=
  match order_by span_le spans with
  | [] => []
  | span :: r => merge_spans span r
  end.

(** Every span that a collector finds. *)
Definition collected_spans (known : list str) (text : str) (api_key : option str)
  : list SecretValueSpan :=
  let lower := to_ascii_lowercase text in
  collect_private_key_spans lower
  ++ collect_literal_secret_spans known text api_key
  ++ collect_field_assignment_spans text lower
  ++ collect_session_token_spans text lower
  ++ collect_authorization_spans text lower
  ++ collect_cookie_spans text lower
  ++ collect_bare_credential_token_spans text.

Definition secret_value_spans (known : list str) (text : str) (api_key : option str)
  : list SecretValueSpan :=
  normalize_secret_spans (collected_spans known text api_key).
