(* ===== verification/SecretRefs.v ===== *)
(** * Redaction and secret references (crates/xcoding-agent/src/lib.rs)

    What is written in the place of a credential: a placeholder in stored text, an
    opaque reference in a request to a relay.  The references of a session live in the
    [Registry], a table of the process. *)

From S2P Require Import Prelude.
From S2P Require Import Protocol.
From S2P Require Import Policy.
From S2P Require Import Sql.
From S2P Require Import Routing.
From S2P Require Import Transcript.
From S2P Require Import Text.
From S2P Require Import Secrets.

(** ** Known secrets *)

(** Insertion into the set [KNOWN_SECRETS], kept as a list. *)
Definition remember (secret : str) (known : list str) : list str :=
  if one_of secret known then known else secret :: known.
Definition remember_trimmed (key : option str) (known : list str) : list str :=
  match key with
  | Some key => let key := trim key in if is_empty key then known else remember key known
  | None => known
  end.

(** [local_relay_api_key] is the field of the configuration of that name, which the
    routing does not use, and [openai_api_key] the environment variable. *)
Definition register_known_secrets (config : UserConfig)
    (local_relay_api_key openai_api_key : option str)
    (known : list str) : list str :=
  let known := remember_trimmed (uc_api_key config) known in
  let known := foldl (fun known provider =>
    foldl (fun known entry => remember_trimmed (Some (ak_key entry)) known)
      (remember_trimmed (cp_api_key provider) known) (cp_api_keys provider)) known
    (uc_providers config) in
  remember_trimmed openai_api_key (remember_trimmed local_relay_api_key known).

(** ** Placeholders *)

(** The loop of the redaction from [cursor]; [mark] gives the text for a span. *)
Fixpoint replace_spans (text : str) (mark : SecretValueSpan -> str) (cursor : nat)
    (spans : list SecretValueSpan) : str :=
  match spans with
  | [] => drop cursor text
  | span :: r =>
    if (sv_start span <? cursor) || (sv_end span <=? sv_start span) || (length text <? sv_end span)
    then replace_spans text mark cursor r
    else slice text cursor (sv_start span) ++ mark span ++ replace_spans text mark (sv_end span) r
  end.

Definition placeholder (span : SecretValueSpan) : str :=
  if sv_category span =s $"private_key" then $"[REDACTED PRIVATE KEY]" else $"[REDACTED]".

Section Redact.
(** [KNOWN_SECRETS] *)
Variable known : list str.

Definition redact_sensitive_text_with_api_key (text : str) (api_key : option str) : str :=
  let spans := secret_value_spans known text api_key in
  if is_empty spans then text else replace_spans text placeholder 0 spans.
Definition redact_sensitive_tool_output (output : str) : str :=
  redact_sensitive_text_with_api_key output None.

(** ** JSON *)

Definition secret_category_for_field_name (name : str) : option str :=
  let lower := to_ascii_lowercase name in
  if lower =s $"authorization" then Some $"authorization_bearer"
  else if one_of lower COOKIE_FIELD_NAMES then Some $"cookie"
  else if one_of lower SESSION_FIELD_NAMES then Some $"session_token"
  else snd <$> List.find (fun f => fst f =s lower) SECRET_FIELDS.

Definition redact_bearer_value (text : str) : str :=
  match bearer_prefix_end text 0 with
  | None => redact_sensitive_text_with_api_key text None
  | Some after_bearer =>
    let token_offset := length (take_while is_space_or_tab (drop after_bearer text)) in
    if token_offset =? 0 then text
    else
      let v := value_span_from text (after_bearer + token_offset) in
      if (snd v <=? fst v) || negb (looks_like_secret_value (span_text text v)) then text
      else take (fst v) text ++ $"[REDACTED]" ++ drop (snd v) text
  end.

Definition redact_json_sensitive_field (category : str) (value : Value) : Value :=
  match value with
  | JString text =>
    if is_empty (trim text) || is_secret_reference text then value
    else if category =s $"session_token" then
      if is_64_hex text then JString $"[REDACTED]"
      else JString (redact_sensitive_text_with_api_key text None)
    else if category =s $"authorization_bearer" then JString (redact_bearer_value text)
    else JString $"[REDACTED]"
  | _ => value
  end.

(** A field of an object is redacted by its name and then like any value. *)
Fixpoint redact_sensitive_json_value (value : Value) : Value :=
  match value with
  | JObject fields =>
    JObject ((fix go (fields : list (list N * Value)) : list (list N * Value) :=
      match fields with
      | [] => []
      | (key, child) :: r =>
        (key, match secret_category_for_field_name key with
              | Some category =>
                match child with
                | JString _ =>
                  match redact_json_sensitive_field category child with
                  | JString text => JString (redact_sensitive_text_with_api_key text None)
                  | other => other
                  end
                | _ => redact_sensitive_json_value child
                end
              | None => redact_sensitive_json_value child
              end) :: go r
      end) fields)
  | JArray items => JArray (map redact_sensitive_json_value items)
  | JString text => JString (redact_sensitive_text_with_api_key text None)
  | _ => value
  end.
End Redact.

(** ** The registry of references *)

Record SessionSecretReferences := mkReferences {
  sr_by_value : gmap (list N) (list N); sr_by_reference : gmap (list N) (list N) }.
Definition no_references : SessionSecretReferences := mkReferences ∅ ∅.

(** [rg_draws] counts the identifiers drawn. *)
Record Registry := mkRegistry {
  rg_sessions : gmap N SessionSecretReferences; rg_draws : nat }.

Definition X (A : Type) : Type := Registry -> A * Registry.
Definition xret {A} (a : A) : X A := fun g => (a, g).
Definition xbind {A B} (m : X A) (f : A -> X B) : X B := fun g => let (a, g') := m g in f a g'.
Notation "'let%' x := m 'in' k" := (xbind m (fun x => k))
  (at level 10, x pattern, m at level 100, k at level 200) : xc_scope.

Fixpoint xmap {A B} (f : A -> X B) (l : list A) : X (list B) :=
  match l with
  | [] => xret []
  | a :: r => let% b := f a in let% bs := xmap f r in xret (b :: bs)
  end.

Definition session_references (sid : N) (g : Registry) : SessionSecretReferences :=
  or_else (rg_sessions g !! sid) no_references.

Section References.
Context `{Env}.

Definition reference_of (id : str) : str :=
  SECRET_REFERENCE_PREFIX ++ id ++ SECRET_REFERENCE_SUFFIX.

Definition secret_reference_for (sid : N) (value : str) : X str := fun g =>
  let session := session_references sid g in
  match sr_by_value session !! value with
  | Some reference => (reference, mkRegistry (<[sid := session]> (rg_sessions g)) (rg_draws g))
  | None =>
    let reference := reference_of (uuid_text (new_v4 (rg_draws g))) in
    (reference,
     mkRegistry (<[sid := mkReferences (<[value := reference]> (sr_by_value session))
                           (<[reference := value]> (sr_by_reference session))]> (rg_sessions g))
       (S (rg_draws g)))
  end.

Definition raw_secret_for_reference (sid : N) (reference : str) (g : Registry) : option str :=
  rg_sessions g !! sid ≫= fun session => sr_by_reference session !! reference.

(** ** The copy for a provider *)

Section Provider.
Variable known : list str.

Fixpoint reference_spans (text : str) (sid : N) (cursor : nat) (spans : list SecretValueSpan) : X str :=
  match spans with
  | [] => xret (drop cursor text)
  | span :: r =>
    if (sv_start span <? cursor) || (sv_end span <=? sv_start span) || (length text <? sv_end span)
    then reference_spans text sid cursor r
    else
      let% reference := secret_reference_for sid (slice text (sv_start span) (sv_end span)) in
      let% rest := reference_spans text sid (sv_end span) r in
      xret (slice text cursor (sv_start span) ++ reference ++ rest)
  end.

Definition redact_text_for_provider (text : str) (api_key : option str) (sid : N) : X str :=
  let spans := secret_value_spans known text api_key in
  if is_empty spans then xret text else reference_spans text sid 0 spans.

Definition provider_facing_tool_output (output : str) (sid : N) (trust_level : ProviderTrustLevel)
  : X str :=
  if bool_decide (trust_level = Relay) then redact_text_for_provider output None sid else xret output.

Definition redact_part (api_key : option str) (sid : N) (part : ChatContentPart) : X ChatContentPart :=
  match part with
  | PartText text => let% t := redact_text_for_provider text api_key sid in xret (PartText t)
  | PartImageUrl _ => xret part
  end.

Definition redact_content (api_key : option str) (sid : N) (content : ChatMessageContent)
  : X ChatMessageContent :=
  match content with
  | ContentText text => let% t := redact_text_for_provider text api_key sid in xret (ContentText t)
  | ContentParts parts => let% ps := xmap (redact_part api_key sid) parts in xret (ContentParts ps)
  end.

Definition redact_call (api_key : option str) (sid : N) (call : ProviderToolCall) : X ProviderToolCall :=
  let% arguments := redact_text_for_provider (ptc_arguments call) api_key sid in
  xret (mkProviderCall (ptc_id call) (ptc_kind call) (ptc_name call) arguments (ptc_truncated call)).

Definition xoption {A} (f : A -> X A) (o : option A) : X (option A) :=
  match o with
  | Some a => let% b := f a in xret (Some b)
  | None => xret None
  end.

Definition redact_message (api_key : option str) (sid : N) (m : ChatMessage) : X ChatMessage :=
  let% content := xoption (redact_content api_key sid) (cm_content m) in
  let% calls := xoption (xmap (redact_call api_key sid)) (cm_tool_calls m) in
  xret (mkChat (cm_role m) content calls (cm_tool_call_id m)).

Definition redact_provider_messages (messages : list ChatMessage) (api_key : option str) (sid : N)
  : X (list ChatMessage) :=
  xmap (redact_message api_key sid) messages.

(** The first of some texts with a secret, with its location. *)
Definition first_secret (api_key : option str) (segments : list (str * str)) : option (str * str) :=
  head (omap (fun '(text, location) =>
    match secret_value_spans known text api_key with
    | [] => None
    | span :: _ => Some (sv_category span, location)
    end) segments).

Definition content_texts (content : option ChatMessageContent) : list str :=
  match content with
  | Some (ContentText text) => [text]
  | Some (ContentParts parts) =>
    omap (fun part => match part with PartText text => Some text | PartImageUrl _ => None end) parts
  | None => []
  end.

(** The texts of a message that can be redacted, and those that cannot. *)
Definition message_segments (m : ChatMessage) : list (str * str) :=
  let content_location := if cm_role m =s $"tool" then $"tool_output" else $"message_content" in
  map (fun text => (text, content_location)) (content_texts (cm_content m))
  ++ map (fun call => (ptc_arguments call, $"tool_call_arguments")) (default [] (cm_tool_calls m)).

Definition structural_segments (m : ChatMessage) : list (str * str) :=
  [(cm_role m, $"message_content");
   (default [] (cm_tool_call_id m),
    if cm_role m =s $"tool" then $"tool_output" else $"tool_call_arguments")]
  ++ concat (map (fun call => [(ptc_id call, $"tool_call_arguments");
                               (ptc_kind call, $"tool_call_arguments");
                               (ptc_name call, $"tool_call_arguments")])
               (default [] (cm_tool_calls m))).

Definition first_sensitive_message_segment (messages : list ChatMessage) (api_key : option str) :=
  first_secret api_key (concat (map message_segments messages)).
Definition first_unredactable_structural_segment (messages : list ChatMessage) (api_key : option str) :=
  first_secret api_key (concat (map structural_segments messages)).

Definition mapped_request_location (requested_location detected_location : str) : str :=
  if requested_location =s $"message_content" then detected_location else requested_location.

Record SensitiveContentBlock := mkBlock { sb_category : str; sb_location : str; sb_provider : str }.

Definition chat_message_has_images (m : ChatMessage) : bool :=
  match cm_content m with
  | Some (ContentParts parts) =>
    existsb (fun part => match part with PartImageUrl _ => true | PartText _ => false end) parts
  | _ => false
  end.

Definition messages_contain_secret_reference (messages : list ChatMessage) : bool :=
  existsb (fun m => existsb (fun s => contains SECRET_REFERENCE_PREFIX (fst s)) (message_segments m))
    messages.

Definition SECRET_REFERENCE_INSTRUCTIONS : str :=
  $"Sensitive values may be represented as `{{secret:<id>}}`. If a tool needs one, pass the reference verbatim in the tool arguments; the local runtime resolves it. Never ask the user to reveal the underlying value and never try to decode it.".

Definition provider_messages_for_request (messages : list ChatMessage) (candidate : ProviderCandidate)
    (sid : N) (requested_location : str) : X (result (list ChatMessage) SensitiveContentBlock) :=
  let blocked category location : X (result (list ChatMessage) SensitiveContentBlock) :=
    xret (Err (mkBlock category location (pc_name candidate))) in
  let finish projected : X (result (list ChatMessage) SensitiveContentBlock) :=
    xret (Ok (if messages_contain_secret_reference projected
              then chat_system SECRET_REFERENCE_INSTRUCTIONS :: projected else projected)) in
  if bool_decide (pc_trust_level candidate = Relay) then
    let% projected := redact_provider_messages messages (pc_api_key candidate) sid in
    match first_sensitive_message_segment projected (pc_api_key candidate) with
    | Some (_, detected) =>
      blocked $"unredactable_content" (mapped_request_location requested_location detected)
    | None =>
      match first_unredactable_structural_segment projected (pc_api_key candidate) with
      | Some (_, detected) =>
        blocked $"unredactable_content" (mapped_request_location requested_location detected)
      | None =>
        if existsb chat_message_has_images projected then blocked $"image_payload" $"vision"
        else finish projected
      end
    end
  else finish messages.
End Provider.

(** ** Resolution of references *)

Inductive ReferenceError := MalformedReference | UnknownReference.

Fixpoint resolve_loop (fuel : nat) (text : str) (sid : N) (g : Registry) : result str ReferenceError :=
  match fuel with
  | 0 => Ok text
  | S f =>
    match find_str SECRET_REFERENCE_PREFIX text with
    | None => Ok text
    | Some start =>
      let after := drop (start + length SECRET_REFERENCE_PREFIX) text in
      match find_str SECRET_REFERENCE_SUFFIX after with
      | None => Err MalformedReference
      | Some offset =>
        let reference := SECRET_REFERENCE_PREFIX ++ take offset after ++ SECRET_REFERENCE_SUFFIX in
        match raw_secret_for_reference sid reference g with
        | None => Err UnknownReference
        | Some secret =>
          let? rest := resolve_loop f (drop (offset + length SECRET_REFERENCE_SUFFIX) after) sid g in
          Ok (take start text ++ secret ++ rest)
        end
      end
    end
  end.

Definition replace_secret_references_in_text (text : str) (sid : N) (g : Registry)
  : result str ReferenceError :=
  resolve_loop (length text) text sid g.

Fixpoint rmap {A B E} (f : A -> result B E) (l : list A) : result (list B) E :=
  match l with
  | [] => Ok []
  | a :: r => let? b := f a in let? bs := rmap f r in Ok (b :: bs)
  end.

Fixpoint resolve_secret_references_in_json (sid : N) (g : Registry) (value : Value)
  : result Value ReferenceError :=
  match value with
  | JObject fields =>
    let? out := rmap (fun kv => let? v := resolve_secret_references_in_json sid g (snd kv) in
                                Ok (fst kv, v)) fields in
    Ok (JObject out)
  | JArray items =>
    let? out := rmap (resolve_secret_references_in_json sid g) items in Ok (JArray out)
  | JString text => let? t := replace_secret_references_in_text text sid g in Ok (JString t)
  | _ => Ok value
  end.

Definition resolve_tool_call_secret_references (tool_call : ToolCall) (sid : N) (g : Registry)
    (provider_name : str) : result ToolCall SensitiveContentBlock :=
  match resolve_secret_references_in_json sid g (tc_arguments tool_call) with
  | Ok arguments => Ok (mkToolCall (tc_id tool_call) (tc_name tool_call) arguments)
  | Err _ => Err (mkBlock $"unredactable_content" $"tool_call_arguments" provider_name)
  end.
End References.

(** ** Confirmation of tool calls from a relay *)

Definition enforce_relay_tool_confirmation (mode : Mode) (trust_level : ProviderTrustLevel)
    (decision : PermissionDecision) (kind : PermissionKind) (tool_call : ToolCall)
  : PermissionDecision :=
  let guarded := negb (bool_decide (mode = FullAuto)) && bool_decide (trust_level = Relay)
                 && bool_decide (decision = Allow) in
  if guarded && (bool_decide (kind = Write) || bool_decide (kind = Exec)) then AskUser
  else if guarded && bool_decide (tc_name tool_call = Mcp) then AskUser
  else decision.
