(* ===== verification/SecretFacts.v ===== *)
(** * What the secret scanner finds

    The collected spans lie in the text, the normal form covers the same characters
    with spans in order and apart, and redaction replaces exactly those characters. *)

From S2P Require Import Prelude.
From S2P Require Import Protocol.
From S2P Require Import Sql.
From S2P Require Import Routing.
From S2P Require Import Transcript.
From S2P Require Import Text.
From S2P Require Import Secrets.
From S2P Require Import SecretRefs.

(** ** Bounds of the collected spans *)

(** A span of [n] characters of text. *)
Definition span_in (n : nat) (v : SecretValueSpan) : Prop := sv_start v < sv_end v <= n.
Definition covers (spans : list SecretValueSpan) (i : nat) : Prop :=
  exists v, v ∈ spans /\ sv_start v <= i < sv_end v.

Lemma find_from_bound p s from o :
  from <= length s -> find_from p s from = Some o -> from + o + length p <= length s.
Proof.
  intros Hf Ho%find_str_bound. rewrite length_drop in Ho. lia.
Qed.

Lemma length_lower s : length (to_ascii_lowercase s) = length s.
Proof. apply length_map. Qed.

Lemma match_loop_bound fuel p s from i :
  from <= length s -> i ∈ match_loop fuel p s from -> from <= i /\ i + length p <= length s.
Proof.
  revert from. induction fuel as [|fuel IH]; intros from Hf; cbn [match_loop]; [set_solver|].
  destruct (find_from p s from) as [o|] eqn:Eo; [|set_solver].
  pose proof (find_from_bound _ _ _ _ Hf Eo). intros [->|Hi]%elem_of_cons; [lia|].
  apply IH in Hi; lia.
Qed.

Lemma match_indices_bound p s i : i ∈ match_indices p s -> i + length p <= length s.
Proof. intros Hi. apply match_loop_bound in Hi; lia. Qed.

(** Where there is an occurrence, one is found. *)
Lemma match_indices_some p s : contains p s = true -> match_indices p s <> [].
Proof.
  unfold match_indices. cbn [match_loop]. unfold find_from. rewrite drop_0.
  destruct (find_str p s) eqn:E; [done|]. apply find_str_None in E. congruence.
Qed.

Lemma take_while_length {A} (p : A -> bool) s : length (take_while p s) <= length s.
Proof. induction s as [|c s IH]; simpl; [lia|]. destruct (p c); simpl; lia. Qed.

Lemma find_char_bound p s i : find_char p s = Some i -> i < length s.
Proof.
  intros (c & r & Hs & _)%find_char_Some. apply (f_equal length) in Hs.
  rewrite length_app, length_take in Hs. simpl in Hs. lia.
Qed.

Lemma value_start_bound text n start :
  n <= length text -> assignment_value_start text n = Some start -> n <= start <= length text.
Proof.
  intros Hn. unfold assignment_value_start. set (line := take_while _ _).
  assert (length line <= length text - n) as Hline.
  { unfold line. rewrite <- length_drop. apply take_while_length. }
  destruct (find_char _ line) as [d|] eqn:Ed; [|done]. apply find_char_bound in Ed.
  destruct (negb _); [done|]. intros [= <-].
  pose proof (take_while_length is_quote_or_blank (drop (n + d + 1) text)) as Hw.
  rewrite length_drop in Hw. lia.
Qed.

Lemma value_span_bound text start :
  start <= length text ->
  start <= fst (value_span_from text start) <= snd (value_span_from text start) /\
  snd (value_span_from text start) <= length text.
Proof.
  intros Hs. unfold value_span_from. cbn [fst snd]. set (skip := length _).
  assert (skip <= length text - start) as Hk by (unfold skip; rewrite <- length_drop; apply take_while_length).
  destruct (find_char ends_value _) as [e|] eqn:E; cbn [or_else].
  - apply find_char_bound in E. rewrite !length_drop in E. lia.
  - rewrite !length_drop. lia.
Qed.

Lemma header_span_bound text start :
  start <= length text ->
  start <= fst (header_value_span_from text start) /\
  snd (header_value_span_from text start) <= length text.
Proof.
  intros Hs. unfold header_value_span_from. cbn [fst snd]. set (skip := length (take_while _ _)).
  assert (skip <= length text - start) as Hk by (unfold skip; rewrite <- length_drop; apply take_while_length).
  split; [lia|]. set (value := drop skip _). set (e := or_else _ _).
  assert (length (trim_end_matches is_space_or_tab (take e value)) <= length value) as Ht.
  { unfold trim_end_matches. rewrite length_rev.
    pose proof (drop_while_length is_space_or_tab (rev (take e value))) as Hd.
    rewrite length_rev, length_take in Hd. lia. }
  unfold value in Ht at 2. rewrite !length_drop in Ht. lia.
Qed.

Lemma field_values_in text lower name value_of select category v :
  length lower = length text ->
  (forall start, start <= length text -> snd (value_of text start) <= length text) ->
  (forall start u, select start u = true -> fst u < snd u) ->
  v ∈ field_values text lower name value_of select category -> span_in (length text) v.
Proof.
  intros Hl Hv Hsel Hin. unfold field_values in Hin.
  apply list_elem_of_omap in Hin as (start & Hst & E).
  unfold field_occurrences in Hst. rewrite list_elem_of_In, filter_In, <- list_elem_of_In in Hst.
  destruct Hst as [Hst%match_indices_bound _]. rewrite Hl in Hst.
  destruct (assignment_value_start _ _) as [vs|] eqn:Ea; [|done].
  apply value_start_bound in Ea; [|lia]. destruct (select start _) eqn:Es; [|done].
  injection E as <-. apply Hsel in Es. split; cbn; [done|]. apply Hv. lia.
Qed.

Lemma hex_nonempty text u : is_64_hex (span_text text u) = true -> fst u < snd u.
Proof.
  unfold is_64_hex, span_text, slice. intros [Hb _]%andb_prop. apply Nat.eqb_eq in Hb.
  destruct (Nat.lt_ge_cases (fst u) (snd u)) as [?|Hge]; [done|].
  replace (snd u - fst u) with 0 in Hb by lia. discriminate Hb.
Qed.

Lemma private_key_in fuel lower searched v :
  searched <= length lower -> v ∈ private_key_loop fuel lower searched -> span_in (length lower) v.
Proof.
  revert searched. induction fuel as [|fuel IH]; intros searched Hs; cbn [private_key_loop]; [set_solver|].
  destruct (find_from BEGIN_MARKER lower searched) as [o|] eqn:E1; [|set_solver].
  apply find_from_bound in E1; [|done].
  assert (0 < length BEGIN_MARKER) as Hb by (vm_compute; lia).
  set (after_begin := searched + o + length BEGIN_MARKER) in *.
  destruct (find_from PRIVATE_KEY_MARKER lower after_begin) as [k|] eqn:E2; [|by apply IH].
  apply find_from_bound in E2; [|done].
  destruct (80 <? _); [by apply IH|].
  set (marker_end := after_begin + k + length PRIVATE_KEY_MARKER) in *.
  assert (span_in (length lower) (mkSpan (searched + o) (length lower) $"private_key")) as Hend
    by (split; cbn; lia).
  destruct (find_from END_MARKER lower marker_end) as [e|] eqn:E3;
    [|by intros ->%list_elem_of_singleton].
  apply find_from_bound in E3; [|done].
  destruct (find_from PRIVATE_KEY_MARKER lower _) as [k2|] eqn:E4; [|by intros ->%list_elem_of_singleton].
  apply find_from_bound in E4; [|done].
  intros [->|Hv]%elem_of_cons; [split; cbn; lia|]. apply IH in Hv; [done|lia].
Qed.

Lemma literal_in text secret category v :
  v ∈ collect_literal_spans text secret category -> span_in (length text) v.
Proof.
  unfold collect_literal_spans. destruct (is_empty (trim secret)) eqn:E; [set_solver|].
  intros (start & -> & Hst%match_indices_bound)%list_elem_of_fmap. split; cbn; [|done].
  destruct secret; [done|]. simpl. lia.
Qed.

Lemma session_loop_in fuel text lower searched v :
  length lower = length text -> searched <= length lower ->
  v ∈ session_loop fuel text lower searched -> span_in (length text) v.
Proof.
  intros Hl. revert searched. induction fuel as [|fuel IH]; intros searched Hs; cbn [session_loop]; [set_solver|].
  destruct (find_from SESSION_PREFIX lower searched) as [o|] eqn:E1; [|set_solver].
  apply find_from_bound in E1; [|done].
  destruct (find_from SESSION_MARKER lower (searched + o)) as [k|] eqn:E2; [|by apply IH].
  apply find_from_bound in E2; [|lia].
  destruct (existsb _ _); [by apply IH|].
  set (after := searched + o + k + length SESSION_MARKER) in *.
  destruct (value_span_bound text after ltac:(lia)) as [H1 H2].
  intros [Hv|Hv]%elem_of_app.
  - destruct (is_64_hex _) eqn:E; [|by apply elem_of_nil in Hv].
    apply list_elem_of_singleton in Hv as ->. apply hex_nonempty in E. split; cbn [sv_start sv_end]; lia.
  - apply IH in Hv; [done|lia].
Qed.

Lemma bare_token_in text start end_ v :
  start < end_ <= length text -> v ∈ collect_bare_credential_token text start end_ ->
  span_in (length text) v.
Proof.
  intros Hb. unfold collect_bare_credential_token. destruct (negb _); [set_solver|].
  by intros ->%list_elem_of_singleton.
Qed.

Lemma bare_loop_in text index open rest v :
  index + length rest = length text -> (forall s, open = Some s -> s < index) ->
  v ∈ bare_token_loop text index open rest -> span_in (length text) v.
Proof.
  revert index open. induction rest as [|c rest IH]; intros index open Hi Ho; cbn [bare_token_loop length] in *.
  - destruct open as [s|]; [|set_solver]. specialize (Ho s eq_refl). apply bare_token_in. lia.
  - destruct (is_token_char c).
    + apply IH; [lia|]. intros s [= <-]. destruct open as [s|]; cbn; [specialize (Ho s eq_refl)|]; lia.
    + intros [Hv|Hv]%elem_of_app.
      * destruct open as [s|]; [|by apply elem_of_nil in Hv]. specialize (Ho s eq_refl).
        eapply bare_token_in; [|exact Hv]. lia.
      * apply IH in Hv; [done|lia|done].
Qed.

Lemma guard_nonempty (u : nat * nat) b : (fst u <? snd u) && b = true -> fst u < snd u.
Proof. intros [Hu _]%andb_prop. by apply Nat.ltb_lt. Qed.

Lemma authorization_in text v :
  v ∈ collect_authorization_spans text (to_ascii_lowercase text) -> span_in (length text) v.
Proof.
  unfold collect_authorization_spans. intros (start & Hst & E)%list_elem_of_omap.
  unfold field_occurrences in Hst. rewrite list_elem_of_In, filter_In, <- list_elem_of_In in Hst.
  destruct Hst as [Hst%match_indices_bound _]. rewrite length_lower in Hst.
  destruct (assignment_value_start _ _) as [vs|] eqn:Ea; [|done].
  apply value_start_bound in Ea; [|done]. unfold bearer_token in E.
  destruct (bearer_prefix_end text vs) as [after|] eqn:Eb; [|done].
  assert (after <= length text) as Haf.
  { unfold bearer_prefix_end in Eb. destruct (starts_with _ _) eqn:Es; [|done]. cbn [negb] in Eb.
    destruct (char_at _ _ _); [done|]. injection Eb as <-. apply starts_with_true in Es as [r Hr].
    apply (f_equal length) in Hr. rewrite length_lower, length_drop, length_app in Hr.
    change (length $"bearer") with 6 in Hr. lia. }
  destruct (_ =? 0); [done|]. set (u := value_span_from text _) in E.
  destruct ((fst u <? snd u) && _) eqn:Eg; [|done]. injection E as <-. apply guard_nonempty in Eg.
  split; cbn; [done|]. apply value_span_bound.
  pose proof (take_while_length is_space_or_tab (drop after text)) as Ht. rewrite length_drop in Ht. lia.
Qed.

(** Every collected span is a non-empty part of the text. *)
Lemma collected_in known text api_key v :
  v ∈ collected_spans known text api_key -> span_in (length text) v.
Proof.
  unfold collected_spans. pose proof (length_lower text) as Hl.
  assert (forall start, start <= length text -> snd (value_span_from text start) <= length text) as Hval
    by (intros; by apply value_span_bound).
  rewrite !elem_of_app. intros [Hv|[Hv|[Hv|[Hv|[Hv|[Hv|Hv]]]]]].
  - unfold collect_private_key_spans in Hv. apply private_key_in in Hv; [|lia]. by rewrite Hl in Hv.
  - unfold collect_literal_secret_spans in Hv. apply elem_of_app in Hv as [Hv|Hv].
    + destruct api_key as [key|]; [|by apply elem_of_nil in Hv].
      destruct (is_empty (trim key)); [by apply elem_of_nil in Hv|by apply literal_in in Hv].
    + apply elem_of_concat_map in Hv as (secret & _ & Hv). by apply literal_in in Hv.
  - apply elem_of_concat_map in Hv as ([name category] & _ & Hv).
    destruct (name =s _); [by apply elem_of_nil in Hv|]. eapply field_values_in; [done|done| |exact Hv].
    intros start u. apply guard_nonempty.
  - unfold collect_session_token_spans in Hv. apply elem_of_app in Hv as [Hv|Hv].
    + apply elem_of_concat_map in Hv as (name & _ & Hv). eapply field_values_in; [done|done| |exact Hv].
      intros start u. apply hex_nonempty.
    + apply session_loop_in in Hv; [done|done|lia].
  - by apply authorization_in.
  - apply elem_of_concat_map in Hv as (name & _ & Hv). destruct (one_of name _).
    + eapply field_values_in; [done| | |exact Hv]; [intros; by apply header_span_bound|].
      intros start u [Hg _]%andb_prop. by apply guard_nonempty in Hg.
    + eapply field_values_in; [done|done| |exact Hv]. intros start u. apply guard_nonempty.
  - unfold collect_bare_credential_token_spans in Hv. apply bare_loop_in in Hv; [done|done|done].
Qed.

(** ** The normal form *)

(** Spans from position [from], in order and apart. *)
Fixpoint ordered_from (from : nat) (spans : list SecretValueSpan) : Prop :=
  match spans with
  | [] => True
  | v :: r => from <= sv_start v /\ sv_start v < sv_end v /\ ordered_from (sv_end v) r
  end.

Lemma covers_cons a l i : covers (a :: l) i <-> sv_start a <= i < sv_end a \/ covers l i.
Proof.
  unfold covers. setoid_rewrite elem_of_cons. split.
  - intros (v & [->|Hv] & Hi); [by left|right; by exists v].
  - intros [Hi|(v & Hv & Hi)]; [exists a; tauto|exists v; tauto].
Qed.

Lemma merge_spans_spec current spans :
  sv_start current < sv_end current ->
  Forall (fun v => sv_start v < sv_end v) spans ->
  StronglySorted (fun a b => sv_start a <= sv_start b) (current :: spans) ->
  ordered_from (sv_start current) (merge_spans current spans) /\
  forall i, covers (merge_spans current spans) i <-> covers (current :: spans) i.
Proof.
  revert current. induction spans as [|span r IH]; intros current Hc Hf Hs; cbn [merge_spans].
  - split; [cbn; auto|done].
  - apply Forall_cons in Hf as [Hspan Hf]. inversion Hs as [|? ? Hs1 Hs2]; subst.
    inversion Hs1 as [|? ? Hs3 Hs4]; subst. apply Forall_cons in Hs2 as [Hle Hs2].
    destruct (Nat.ltb_spec (sv_start span) (sv_end current)) as [Hlt|Hge].
    + destruct (IH (merge_span current span)) as [Ho Hcov]; cbn [merge_span sv_start sv_end].
      * lia.
      * done.
      * constructor; [done|done].
      * split; [exact Ho|]. intros i. rewrite Hcov, !covers_cons. cbn [merge_span sv_start sv_end].
        destruct (decide (i < sv_end current)); [|destruct (decide (sv_start span <= i))]; intuition lia.
    + destruct (IH span Hspan Hf Hs1) as [Ho Hcov]. split.
      * cbn [ordered_from]. split_and!; [lia|done|]. clear -Ho Hge.
        destruct (merge_spans span r); cbn in *; [done|]. destruct Ho as (? & ? & ?).
        split_and!; [lia|done|done].
      * intros i. by rewrite (covers_cons current), (covers_cons current), Hcov.
Qed.

Lemma span_le_start a b : span_le a b = true -> sv_start a <= sv_start b.
Proof.
  unfold span_le. destruct (Nat.ltb_spec (sv_start a) (sv_start b)); [lia|].
  destruct (Nat.ltb_spec (sv_start b) (sv_start a)); [done|lia].
Qed.

Lemma span_le_total a b : span_le a b = true \/ span_le b a = true.
Proof.
  unfold span_le. destruct (Nat.ltb_spec (sv_start a) (sv_start b)); [by left|].
  destruct (Nat.ltb_spec (sv_start b) (sv_start a)); [by right|].
  destruct (Nat.ltb_spec (sv_end b) (sv_end a)); [by left|].
  destruct (Nat.ltb_spec (sv_end a) (sv_end b)); [by right|].
  rewrite !Nat.leb_le. lia.
Qed.

(** The normal form of any non-empty spans covers the same characters as they do, with
    non-empty spans that are in order and do not overlap. *)
Theorem normalize_secret_spans_spec spans :
  Forall (fun v => sv_start v < sv_end v) spans ->
  ordered_from 0 (normalize_secret_spans spans) /\
  forall i, covers (normalize_secret_spans spans) i <-> covers spans i.
Proof.
  intros Hf. unfold normalize_secret_spans.
  pose proof (order_by_perm span_le spans) as Hp.
  pose proof (order_by_sorted span_le spans span_le_total) as Hs.
  assert (forall i, covers (order_by span_le spans) i <-> covers spans i) as Hcov.
  { intros i. unfold covers. by setoid_rewrite Hp. }
  rewrite <- Hp in Hf. destruct (order_by span_le spans) as [|v r].
  - split; [done|exact Hcov].
  - apply Forall_cons in Hf as [Hv Hf].
    assert (StronglySorted (fun a b => sv_start a <= sv_start b) (v :: r)) as Hss.
    { apply Sorted_StronglySorted; [intros a b c; lia|].
      clear -Hs. induction Hs as [|a l Hs IH Ha]; constructor; [done|].
      destruct Ha; constructor. by apply span_le_start. }
    destruct (merge_spans_spec v r Hv Hf Hss) as [Ho Hc]. split.
    + clear -Ho. destruct (merge_spans v r); cbn in *; [done|]. destruct Ho as (? & ? & ?).
      split_and!; [lia|done|done].
    + intros i. rewrite Hc. apply Hcov.
Qed.

Lemma secret_spans_spec known text api_key :
  ordered_from 0 (secret_value_spans known text api_key) /\
  (forall i, covers (secret_value_spans known text api_key) i <->
             covers (collected_spans known text api_key) i) /\
  (forall i, covers (secret_value_spans known text api_key) i -> i < length text).
Proof.
  destruct (normalize_secret_spans_spec (collected_spans known text api_key)) as [Ho Hc].
  { apply Forall_forall. intros v Hv%collected_in. apply Hv. }
  split_and!; [done|done|]. intros i (v & Hv & Hi)%Hc. apply collected_in in Hv as [_ Hv]. lia.
Qed.
