(* ===== verification/SecretRefFacts.v ===== *)
(** * What redaction replaces, what a relay receives, and what references resolve to *)

From S2P Require Import Prelude.
From S2P Require Import Protocol.
From S2P Require Import Sql.
From S2P Require Import Routing.
From S2P Require Import Transcript.
From S2P Require Import Text.
From S2P Require Import Secrets.
From S2P Require Import SecretRefs.
From S2P Require Import SecretFacts.

(** ** Redaction, character by character *)

(** What stands in the place of the character [c] at position [i]. *)
Definition redacted_char (mark : SecretValueSpan -> str) (spans : list SecretValueSpan)
    (i : nat) (c : char) : str :=
  match List.find (fun v => sv_start v =? i) spans with
  | Some v => mark v
  | None => if existsb (fun v => (sv_start v <? i) && (i <? sv_end v)) spans then [] else [c]
  end.

Definition redacted_from (mark : SecretValueSpan -> str) (spans : list SecretValueSpan)
    (from : nat) (s : str) : str :=
  concat (imap (fun k c => redacted_char mark spans (from + k) c) s).

Lemma redacted_from_app mark spans from a b :
  redacted_from mark spans from (a ++ b)
  = redacted_from mark spans from a ++ redacted_from mark spans (from + length a) b.
Proof.
  unfold redacted_from. rewrite imap_app, concat_app. do 2 f_equal.
  apply imap_ext. intros k c _. cbn. by rewrite Nat.add_assoc.
Qed.

Lemma redacted_from_ext mark spans from s (f : char -> str) :
  (forall k c, s !! k = Some c -> redacted_char mark spans (from + k) c = f c) ->
  redacted_from mark spans from s = concat (map f s).
Proof.
  intros Hk. unfold redacted_from. f_equal. change (map f s) with (f <$> s). rewrite <- (imap_const f s).
  by apply imap_ext.
Qed.

Lemma redacted_from_spans mark spans spans' from s :
  (forall i c, from <= i -> redacted_char mark spans i c = redacted_char mark spans' i c) ->
  redacted_from mark spans from s = redacted_from mark spans' from s.
Proof. intros He. unfold redacted_from. f_equal. apply imap_ext. intros k c _. apply He. lia. Qed.

Lemma concat_singletons (s : str) : concat (map (fun c => [c]) s) = s.
Proof. induction s as [|c s IH]; cbn; by rewrite ?IH. Qed.

Lemma concat_nils {A} (s : list A) : concat (map (fun _ => [] : str) s) = [].
Proof. induction s; done. Qed.

Lemma ordered_start from spans v :
  ordered_from from spans -> v ∈ spans -> from <= sv_start v < sv_end v.
Proof.
  revert from. induction spans as [|u r IH]; intros from Ho Hv; [by apply elem_of_nil in Hv|].
  destruct Ho as (H1 & H2 & H3). apply elem_of_cons in Hv as [->|Hv]; [done|].
  apply IH in H3; [lia|done].
Qed.

(** A position before all spans keeps its character. *)
Lemma redacted_char_before mark from spans i c :
  ordered_from from spans -> i < from -> redacted_char mark spans i c = [c].
Proof.
  intros Ho Hi. unfold redacted_char.
  destruct (List.find _ spans) as [v|] eqn:Ef.
  - apply List.find_some in Ef as [Hv E]. rewrite <- list_elem_of_In in Hv.
    apply (ordered_start _ _ _ Ho) in Hv. apply Nat.eqb_eq in E. lia.
  - destruct (existsb _ spans) eqn:Ee; [|done].
    apply existsb_exists in Ee as (v & Hv & [E _]%andb_prop). rewrite <- list_elem_of_In in Hv.
    apply (ordered_start _ _ _ Ho) in Hv. apply Nat.ltb_lt in E. lia.
Qed.

Lemma redacted_char_cons mark v r i c :
  redacted_char mark (v :: r) i c
  = if sv_start v =? i then mark v
    else if (sv_start v <? i) && (i <? sv_end v)
         then match List.find (fun v => sv_start v =? i) r with Some u => mark u | None => [] end
         else redacted_char mark r i c.
Proof.
  unfold redacted_char. cbn [List.find existsb]. destruct (sv_start v =? i); [done|].
  by destruct ((sv_start v <? i) && (i <? sv_end v)).
Qed.

Lemma replace_spans_chars text mark cursor spans :
  ordered_from cursor spans -> Forall (fun v => sv_end v <= length text) spans ->
  cursor <= length text ->
  replace_spans text mark cursor spans = redacted_from mark spans cursor (drop cursor text).
Proof.
  revert cursor. induction spans as [|v r IH]; intros cursor Ho Hf Hc; cbn [replace_spans].
  { rewrite (redacted_from_ext _ _ _ _ (fun c => [c])); [by rewrite concat_singletons|done]. }
  destruct Ho as (H1 & H2 & H3). apply Forall_cons in Hf as [Hv Hf].
  rewrite (proj2 (Nat.ltb_ge _ _) H1), (proj2 (Nat.leb_gt _ _) H2), (proj2 (Nat.ltb_ge _ _) Hv).
  cbn [orb]. unfold slice.
  rewrite <- (take_drop (sv_start v - cursor) (drop cursor text)) at 2. rewrite drop_drop.
  replace (cursor + (sv_start v - cursor)) with (sv_start v) by lia.
  rewrite <- (take_drop (sv_end v - sv_start v) (drop (sv_start v) text)), drop_drop.
  replace (sv_start v + (sv_end v - sv_start v)) with (sv_end v) by lia.
  rewrite !redacted_from_app. rewrite !length_take, !length_drop.
  replace (cursor + _ `min` _) with (sv_start v) by lia.
  replace (sv_start v + _ `min` _) with (sv_end v) by lia. f_equal; [|f_equal].
  - rewrite (redacted_from_ext _ _ _ _ (fun c => [c])); [by rewrite concat_singletons|].
    intros k c Hk%lookup_lt_Some. rewrite length_take in Hk.
    apply (redacted_char_before _ (sv_start v)); [|lia]. cbn. auto.
  - destruct (take (sv_end v - sv_start v) (drop (sv_start v) text)) as [|c tl] eqn:Et.
    { apply (f_equal length) in Et. rewrite length_take, length_drop in Et. simpl in Et. lia. }
    assert (length tl < sv_end v - sv_start v) as Hl.
    { apply (f_equal length) in Et. rewrite length_take, length_drop in Et. simpl in Et. lia. }
    change (c :: tl) with ([c] ++ tl). rewrite redacted_from_app. cbn [length].
    rewrite (redacted_from_ext _ _ _ tl (fun _ => [])).
    + unfold redacted_from. cbn. rewrite redacted_char_cons, Nat.add_0_r, Nat.eqb_refl, app_nil_r.
      rewrite concat_nils. by rewrite app_nil_r.
    + intros k x Hk%lookup_lt_Some. rewrite redacted_char_cons.
      rewrite (proj2 (Nat.eqb_neq _ _)) by lia. rewrite !(proj2 (Nat.ltb_lt _ _)) by lia. cbn [andb].
      destruct (List.find _ r) as [u|] eqn:Ef; [|done].
      apply List.find_some in Ef as [Hu E]. rewrite <- list_elem_of_In in Hu.
      apply (ordered_start _ _ _ H3) in Hu. apply Nat.eqb_eq in E. lia.
  - rewrite (IH _ H3 Hf Hv). apply redacted_from_spans. intros i c Hi.
    rewrite redacted_char_cons, (proj2 (Nat.eqb_neq _ _)) by lia.
    by rewrite (proj2 (Nat.ltb_ge i (sv_end v))), andb_false_r by done.
Qed.

(** Redacting a text replaces each found span by its placeholder and keeps every
    other character: the result is the text with, at the first position of each span,
    the placeholder of the span, nothing at its other positions, and at each position
    outside the spans the character that was there. A position lies in a span exactly
    when some collector found it. *)
Theorem redaction_exact known text api_key :
  let spans := secret_value_spans known text api_key in
  redact_sensitive_text_with_api_key known text api_key
  = concat (imap (redacted_char placeholder spans) text) /\
  forall i, covers spans i <-> covers (collected_spans known text api_key) i.
Proof.
  intros spans. destruct (secret_spans_spec known text api_key) as (Ho & Hc & Hb). fold spans in Ho, Hc, Hb.
  split; [|exact Hc]. unfold redact_sensitive_text_with_api_key. fold spans.
  transitivity (replace_spans text placeholder 0 spans).
  { destruct spans; [|done]. cbn. by rewrite drop_0. }
  rewrite replace_spans_chars; [by rewrite drop_0|done| |lia].
  apply Forall_forall. intros v Hv. pose proof (ordered_start _ _ _ Ho Hv) as Hv'.
  specialize (Hb (sv_end v - 1)). ospecialize (Hb _); [exists v; split; [done|lia]|lia].
Qed.

(** ** What a relay receives *)

Lemma merge_spans_nonempty current spans : merge_spans current spans <> [].
Proof.
  revert current. induction spans as [|v r IH]; intros current; cbn [merge_spans]; [done|].
  destruct (_ <? _); [apply IH|done].
Qed.

Lemma no_spans_no_collected known text api_key :
  secret_value_spans known text api_key = [] -> collected_spans known text api_key = [].
Proof.
  unfold secret_value_spans, normalize_secret_spans.
  pose proof (order_by_perm span_le (collected_spans known text api_key)) as Hp.
  destruct (order_by _ _) as [|v r]; [by apply Permutation_nil_l in Hp|].
  intros Hm. by apply merge_spans_nonempty in Hm.
Qed.

(** The secrets that are looked for literally. *)
Definition literal_secret (known : list str) (api_key : option str) (secret : str) : Prop :=
  is_empty (trim secret) = false /\
  ((secret ∈ known /\ 4 <= byte_len secret) \/ exists key, api_key = Some key /\ secret = trim key).

Lemma literal_none text secret category :
  is_empty (trim secret) = false -> collect_literal_spans text secret category = [] ->
  contains secret text = false.
Proof.
  intros He. unfold collect_literal_spans. rewrite He. intros Hn%map_eq_nil.
  destruct (contains secret text) eqn:E; [|done]. by apply match_indices_some in E.
Qed.

Lemma clean_text known text api_key secret :
  secret_value_spans known text api_key = [] -> literal_secret known api_key secret ->
  contains secret text = false.
Proof.
  intros Hn%no_spans_no_collected [He Hs]. unfold collected_spans in Hn.
  apply app_eq_nil in Hn as [_ Hn]. apply app_eq_nil in Hn as [Hn _].
  unfold collect_literal_secret_spans in Hn. apply app_eq_nil in Hn as [Hk Hn].
  destruct Hs as [[Hs Hl]|(key & -> & ->)].
  - apply (literal_none text secret $"known_secret" He). apply List.concat_nil_Forall in Hn.
    rewrite List.Forall_forall in Hn.
    apply Hn, (List.in_map (fun secret => collect_literal_spans text secret $"known_secret")), List.filter_In.
    split; [by apply list_elem_of_In|by apply Nat.leb_le].
  - destruct (is_empty (trim key)) eqn:Ek.
    + destruct (trim key); discriminate.
    + by apply (literal_none _ _ _ He Hk).
Qed.

Lemma first_secret_none known api_key segments :
  first_secret known api_key segments = None ->
  forall text location, (text, location) ∈ segments -> secret_value_spans known text api_key = [].
Proof.
  unfold first_secret. intros Hn. apply head_None in Hn. intros text location Hin.
  destruct (secret_value_spans known text api_key) as [|v r] eqn:E; [done|].
  assert ((sv_category v, location) ∈ @nil (str * str)) as Hx; [|by apply elem_of_nil in Hx].
  rewrite <- Hn. apply list_elem_of_omap. exists (text, location). by rewrite E.
Qed.

(** Every text of a message that goes over the wire. *)
Definition message_texts (m : ChatMessage) : list str :=
  map fst (message_segments m ++ structural_segments m).

Section Relay.
Context `{Env}.

Lemma xmap_map {A B C} (f : A -> X B) (p : A -> C) (q : B -> C) l g bs g' :
  (forall a g b g', f a g = (b, g') -> q b = p a) ->
  xmap f l g = (bs, g') -> map q bs = map p l.
Proof.
  intros Hf. revert g bs g'. induction l as [|a l IH]; intros g bs g'; cbn [xmap].
  - by intros [= <- <-].
  - unfold xbind, xret. destruct (f a g) as [b g1] eqn:E1. destruct (xmap f l g1) as [bs1 g2] eqn:E2.
    intros [= <- <-]. cbn. by rewrite (Hf _ _ _ _ E1), (IH _ _ _ E2).
Qed.

Lemma redact_message_shape known api_key sid m g m' g' :
  redact_message known api_key sid m g = (m', g') ->
  cm_role m' = cm_role m /\ cm_tool_call_id m' = cm_tool_call_id m.
Proof.
  unfold redact_message, xbind, xret. destruct (xoption _ _ _) as [c g1].
  destruct (xoption _ _ _) as [t g2]. by intros [= <- <-].
Qed.

Lemma relay_request_parts known messages candidate sid location g sent g' :
  pc_trust_level candidate = Relay ->
  provider_messages_for_request known messages candidate sid location g = (Ok sent, g') ->
  exists projected,
    sent = (if messages_contain_secret_reference projected
            then [chat_system SECRET_REFERENCE_INSTRUCTIONS] else []) ++ projected /\
    map (fun m => (cm_role m, cm_tool_call_id m)) projected
    = map (fun m => (cm_role m, cm_tool_call_id m)) messages /\
    Forall (fun m =>
      chat_message_has_images m = false /\
      forall text, text ∈ message_texts m ->
        secret_value_spans known text (pc_api_key candidate) = [] /\
        forall secret, literal_secret known (pc_api_key candidate) secret ->
                       contains secret text = false) projected.
Proof.
  intros Ht. unfold provider_messages_for_request. rewrite bool_decide_eq_true_2 by done. unfold xbind.
  destruct (redact_provider_messages _ _ _ _ _) as [projected g1] eqn:Ep.
  destruct (first_sensitive_message_segment _ _ _) as [[]|] eqn:E1; [done|].
  destruct (first_unredactable_structural_segment _ _ _) as [[]|] eqn:E2; [done|].
  destruct (existsb chat_message_has_images projected) eqn:E3; [done|].
  intros [= <- _]. exists projected. split_and!.
  - by destruct (messages_contain_secret_reference projected).
  - eapply xmap_map; [|exact Ep]. cbn. intros m g0 m' g2 Hm.
    by destruct (redact_message_shape _ _ _ _ _ _ _ Hm) as [-> ->].
  - apply Forall_forall. intros m Hm. split.
    + apply not_true_iff_false. intros Hi. apply not_true_iff_false in E3. apply E3, existsb_exists.
      exists m. by rewrite <- list_elem_of_In.
    + intros text Htx.
      assert (secret_value_spans known text (pc_api_key candidate) = []) as Hn; [|by eauto using clean_text].
      unfold message_texts in Htx. apply list_elem_of_fmap in Htx as ([tx loc] & -> & Hin). cbn [fst].
      apply elem_of_app in Hin as [Hin|Hin].
      * eapply (first_secret_none _ _ _ E1). apply elem_of_concat_map. eauto.
      * eapply (first_secret_none _ _ _ E2). apply elem_of_concat_map. eauto.
Qed.

(** C24: A request to a relay that is not blocked carries the messages it was given,
    with their roles and call identifiers, after at most the instruction about
    references, and no text of any message, neither content nor arguments, identifiers
    or names, has a part that reads as a credential; in particular none contains a
    configured secret of four bytes or the provider's own key. No message carries an
    image. *)
Theorem relay_request_clean known messages candidate sid location g sent g' :
  pc_trust_level candidate = Relay ->
  provider_messages_for_request known messages candidate sid location g = (Ok sent, g') ->
  exists projected,
    sent = (if messages_contain_secret_reference projected
            then [chat_system SECRET_REFERENCE_INSTRUCTIONS] else []) ++ projected /\
    map (fun m => (cm_role m, cm_tool_call_id m)) projected
    = map (fun m => (cm_role m, cm_tool_call_id m)) messages /\
    Forall (fun m =>
      chat_message_has_images m = false /\
      forall text, text ∈ message_texts m ->
        secret_value_spans known text (pc_api_key candidate) = [] /\
        forall secret, literal_secret known (pc_api_key candidate) secret ->
                       contains secret text = false) projected.
Proof. apply relay_request_parts. Qed.
End Relay.

(** ** References resolve to what they stand for *)

(** A text without the mark of a reference, followed by one: the mark is found where the
    reference starts, for no proper end of the mark is a beginning of it. *)
Lemma find_reference gap rest :
  contains SECRET_REFERENCE_PREFIX gap = false ->
  find_str SECRET_REFERENCE_PREFIX (gap ++ SECRET_REFERENCE_PREFIX ++ rest) = Some (length gap).
Proof.
  intros Hc. rewrite contains_at in Hc. apply find_str_Some. split_and!.
  - rewrite drop_app_length. apply starts_with_true. eauto.
  - rewrite length_app. lia.
  - intros j Hj. apply not_true_iff_false. intros Hs. specialize (Hc j). apply not_true_iff_false in Hc.
    rewrite drop_app_le in Hs by lia. pose proof (length_drop gap j) as Hl.
    destruct (drop j gap) as [|c gap'] eqn:Ed; [simpl in Hl; lia|].
    destruct (decide (9 <= length (c :: gap'))) as [H9|H9].
    + apply Hc. apply starts_with_true in Hs as [r Hr]. apply starts_with_true.
      exists (drop 9 (c :: gap')). rewrite <- (take_drop 9 (c :: gap')) at 1. f_equal.
      apply (f_equal (take 9)) in Hr. rewrite take_app_le in Hr by done. rewrite Hr.
      by rewrite take_app_length'.
    + apply starts_with_true in Hs as [r Hr].
      do 8 (destruct gap' as [|? gap']; [by injection Hr|]). simpl in H9. lia.
Qed.

Lemma find_suffix id rest :
  (125%N ∉ id) -> find_str SECRET_REFERENCE_SUFFIX (id ++ SECRET_REFERENCE_SUFFIX ++ rest) = Some (length id).
Proof.
  intros Hid. apply find_str_Some. split_and!.
  - rewrite drop_app_length. apply starts_with_true. eauto.
  - rewrite length_app. lia.
  - intros j Hj. apply not_true_iff_false. intros [r Hr]%starts_with_true. apply Hid.
    apply (f_equal head) in Hr. rewrite drop_app_le in Hr by lia.
    destruct (drop j id) as [|c r'] eqn:Ed; [apply (f_equal length) in Ed; rewrite length_drop in Ed; simpl in Ed; lia|].
    injection Hr as ->. rewrite <- (take_drop j id), Ed. set_solver.
Qed.

Section Roundtrip.
Context {env : Env} {env_ok : EnvOk env}.
(** The text of an identifier has no brace. *)
Variable uuid_braces : forall u, 125%N ∉ uuid_text u.

Definition registry_step (g : Registry) (call : N * str) : Registry :=
  snd (secret_reference_for (fst call) (snd call) g).
Definition registry_after (calls : list (N * str)) : Registry :=
  foldl registry_step (mkRegistry ∅ 0) calls.

(** Every reference was made from a drawn identifier and leads back to its value. *)
Definition refs_ok (g : Registry) : Prop :=
  forall sid s, rg_sessions g !! sid = Some s ->
  (forall v r, sr_by_value s !! v = Some r -> sr_by_reference s !! r = Some v) /\
  (forall v r, sr_by_reference s !! r = Some v ->
     exists k, k < rg_draws g /\ r = reference_of (uuid_text (new_v4 k))).

Definition keeps (g g' : Registry) : Prop :=
  forall sid r v, raw_secret_for_reference sid r g = Some v -> raw_secret_for_reference sid r g' = Some v.

Lemma reference_of_inj a b : reference_of a = reference_of b -> a = b.
Proof. unfold reference_of. intros Hr%app_inv_head. by apply app_inv_tail in Hr. Qed.

Lemma session_ok g sid :
  refs_ok g ->
  let s := session_references sid g in
  (forall v r, sr_by_value s !! v = Some r -> sr_by_reference s !! r = Some v) /\
  (forall v r, sr_by_reference s !! r = Some v ->
     exists k, k < rg_draws g /\ r = reference_of (uuid_text (new_v4 k))).
Proof.
  intros Hg. unfold session_references. destruct (rg_sessions g !! sid) as [s|] eqn:E; cbn [or_else].
  - by apply (Hg sid).
  - split; cbn; intros v r; by rewrite lookup_empty.
Qed.

Lemma raw_session sid r g :
  raw_secret_for_reference sid r g = sr_by_reference (session_references sid g) !! r.
Proof.
  unfold raw_secret_for_reference, session_references.
  destruct (rg_sessions g !! sid); cbn; [done|by rewrite lookup_empty].
Qed.

Lemma secret_reference_spec sid value g r g' :
  refs_ok g -> secret_reference_for sid value g = (r, g') ->
  refs_ok g' /\ keeps g g' /\ raw_secret_for_reference sid r g' = Some value /\
  exists k, r = reference_of (uuid_text (new_v4 k)).
Proof.
  intros Hg. destruct (session_ok g sid Hg) as [Hv Hr]. unfold secret_reference_for.
  set (s := session_references sid g) in *.
  destruct (sr_by_value s !! value) as [r0|] eqn:Ev.
  - intros [= <- <-]. apply Hv in Ev. destruct (Hr _ _ Ev) as (k & Hk & Hr0). split_and!.
    + intros sid' s' Hs. cbn in Hs. apply lookup_insert_Some in Hs as [[<- <-]|[_ Hs]]; [done|by apply (Hg sid')].
    + intros sid' r' v'. rewrite !raw_session. unfold session_references at 2. cbn.
      destruct (decide (sid' = sid)) as [->|Hne]; [by rewrite lookup_insert_eq|by rewrite lookup_insert_ne].
    + unfold raw_secret_for_reference. cbn. by rewrite lookup_insert_eq.
    + by exists k.
  - intros [= <- <-]. set (r := reference_of _).
    assert (sr_by_reference s !! r = None) as Hnew.
    { destruct (sr_by_reference s !! r) as [v|] eqn:E; [|done]. apply Hr in E as (k & Hk & E).
      apply reference_of_inj, uuid_text_inj, new_v4_inj in E. lia. }
    split_and!.
    + intros sid' s' Hs. cbn in Hs. apply lookup_insert_Some in Hs as [[<- <-]|[_ Hs]]; cbn [sr_by_value sr_by_reference rg_draws].
      * split.
        -- intros v r' [[<- <-]|[Hne E]]%lookup_insert_Some; [by rewrite lookup_insert_eq|].
           apply Hv in E. rewrite lookup_insert_ne; [done|]. congruence.
        -- intros v r' [[<- <-]|[Hne E]]%lookup_insert_Some; [exists (rg_draws g); split; [lia|done]|].
           apply Hr in E as (k & Hk & ->). exists k. split; [lia|done].
      * destruct (Hg _ _ Hs) as [H1 H2]. split; [done|].
        intros v r' (k & Hk & ->)%H2. exists k. split; [lia|done].
    + intros sid' r' v'. rewrite !raw_session. unfold session_references at 2. cbn.
      destruct (decide (sid' = sid)) as [->|Hne]; [|by rewrite lookup_insert_ne].
      rewrite lookup_insert_eq. cbn. fold s. intros E. rewrite lookup_insert_ne; [done|congruence].
    + unfold raw_secret_for_reference. cbn. rewrite lookup_insert_eq. cbn. by rewrite lookup_insert_eq.
    + by exists (rg_draws g).
Qed.

Lemma registry_steps_ok calls g : refs_ok g -> refs_ok (foldl registry_step g calls) /\ keeps g (foldl registry_step g calls).
Proof.
  revert g. induction calls as [|[sid v] calls IH]; intros g Hg; cbn [foldl]; [split; [done|by intros ???]|].
  unfold registry_step at 2 4. cbn [fst snd].
  destruct (secret_reference_for sid v g) as [r g1] eqn:E. cbn [snd].
  destruct (secret_reference_spec _ _ _ _ _ Hg E) as (H1 & H2 & _).
  destruct (IH _ H1) as [H3 H4]. split; [done|]. intros ????. by apply H4, H2.
Qed.

Lemma registry_after_ok calls : refs_ok (registry_after calls).
Proof. apply registry_steps_ok. intros sid s. cbn. by rewrite lookup_empty. Qed.

Lemma contains_part p a b c : contains p (a ++ b ++ c) = false -> contains p b = false.
Proof.
  rewrite <- !not_true_iff_false, !contains_true. intros Hn (x & y & ->). apply Hn.
  exists (a ++ x), (y ++ c). by rewrite <- !app_assoc.
Qed.

Lemma resolve_reference fuel gap k rest sid secret g :
  contains SECRET_REFERENCE_PREFIX gap = false ->
  raw_secret_for_reference sid (reference_of (uuid_text (new_v4 k))) g = Some secret ->
  resolve_loop (S fuel) (gap ++ reference_of (uuid_text (new_v4 k)) ++ rest) sid g
  = (let? r := resolve_loop fuel rest sid g in Ok (gap ++ secret ++ r)).
Proof.
  intros Hc Hr. set (id := uuid_text (new_v4 k)) in *.
  assert (gap ++ reference_of id ++ rest
          = gap ++ SECRET_REFERENCE_PREFIX ++ id ++ SECRET_REFERENCE_SUFFIX ++ rest) as ->.
  { unfold reference_of. by rewrite <- !app_assoc. }
  cbn [resolve_loop]. rewrite find_reference by done.
  rewrite <- drop_drop, drop_app_length, drop_app_length, find_suffix by apply uuid_braces.
  rewrite (take_app_length id). unfold reference_of in Hr. rewrite Hr.
  by rewrite <- drop_drop, drop_app_length, drop_app_length, take_app_length.
Qed.

Lemma reference_spans_resolve text sid spans cursor g out g' :
  refs_ok g -> ordered_from cursor spans -> Forall (fun v => sv_end v <= length text) spans ->
  contains SECRET_REFERENCE_PREFIX (drop cursor text) = false ->
  reference_spans text sid cursor spans g = (out, g') ->
  refs_ok g' /\ keeps g g' /\
  forall g2 fuel, keeps g' g2 -> length out <= fuel -> resolve_loop fuel out sid g2 = Ok (drop cursor text).
Proof.
  revert cursor g out g'. induction spans as [|v r IH]; intros cursor g out g' Hg Ho Hf Hc; cbn [reference_spans].
  - intros [= <- <-]. split_and!; [done|by intros ???|]. intros g2 fuel _ _. destruct fuel; cbn [resolve_loop]; [done|].
    by rewrite (proj2 (find_str_None _ _) Hc).
  - destruct Ho as (H1 & H2 & H3). apply Forall_cons in Hf as [Hv Hf].
    rewrite (proj2 (Nat.ltb_ge _ _) H1), (proj2 (Nat.leb_gt _ _) H2), (proj2 (Nat.ltb_ge _ _) Hv). cbn [orb].
    unfold xbind, xret. destruct (secret_reference_for sid _ g) as [ref g1] eqn:E1.
    destruct (reference_spans text sid (sv_end v) r g1) as [rest g3] eqn:E2. intros [= <- <-].
    destruct (secret_reference_spec _ _ _ _ _ Hg E1) as (Hg1 & Hk1 & Hraw & k & ->).
    assert (drop cursor text = slice text cursor (sv_start v) ++ slice text (sv_start v) (sv_end v) ++ drop (sv_end v) text) as Hd.
    { unfold slice. rewrite <- (take_drop (sv_start v - cursor) (drop cursor text)) at 1. rewrite drop_drop.
      replace (cursor + (sv_start v - cursor)) with (sv_start v) by lia. f_equal.
      rewrite <- (take_drop (sv_end v - sv_start v) (drop (sv_start v) text)) at 1. rewrite drop_drop.
      by replace (sv_start v + (sv_end v - sv_start v)) with (sv_end v) by lia. }
    rewrite Hd in Hc |- *.
    destruct (IH _ _ _ _ Hg1 H3 Hf ltac:(rewrite app_assoc in Hc; rewrite <- (app_nil_r (drop _ text)) in Hc; by apply contains_part in Hc) E2) as (Hg3 & Hk3 & Hres).
    split_and!; [done|intros ????; by apply Hk3, Hk1|].
    intros g2 fuel Hk2 Hfuel. destruct fuel as [|fuel].
    { exfalso. rewrite !length_app in Hfuel. unfold reference_of in Hfuel. rewrite length_app in Hfuel.
      change (length SECRET_REFERENCE_PREFIX) with 9 in Hfuel. lia. }
    rewrite (resolve_reference _ _ _ _ _ (slice text (sv_start v) (sv_end v))).
    + rewrite Hres; [done|done|]. rewrite !length_app in Hfuel. unfold reference_of in Hfuel. rewrite length_app in Hfuel.
      change (length SECRET_REFERENCE_PREFIX) with 9 in Hfuel. lia.
    + by apply (contains_part _ []) in Hc.
    + by apply Hk2, Hk3.
Qed.

(** A text that mentions no reference, of which the parts that read as credentials
    were replaced by references, becomes that text again when its references are
    resolved, also after any further references were handed out to any session. *)
Theorem reference_roundtrip known text api_key sid calls later out g' :
  contains SECRET_REFERENCE_PREFIX text = false ->
  redact_text_for_provider known text api_key sid (registry_after calls) = (out, g') ->
  replace_secret_references_in_text out sid (foldl registry_step g' later) = Ok text.
Proof.
  intros Hc. unfold redact_text_for_provider, replace_secret_references_in_text.
  destruct (secret_spans_spec known text api_key) as (Ho & _ & Hb).
  set (spans := secret_value_spans known text api_key) in *. intros Hout.
  assert (reference_spans text sid 0 spans (registry_after calls) = (out, g')) as Hrs.
  { destruct spans; [|done]. cbn in Hout |- *. by rewrite drop_0. }
  assert (Forall (fun v => sv_end v <= length text) spans) as Hf.
  { apply Forall_forall. intros v Hv. pose proof (ordered_start _ _ _ Ho Hv) as Hv'.
    ospecialize (Hb (sv_end v - 1) _); [exists v; split; [done|lia]|lia]. }
  destruct (reference_spans_resolve _ _ _ _ _ _ _ (registry_after_ok calls) Ho Hf Hc Hrs) as (Hg & _ & Hres).
  rewrite Hres; [by rewrite drop_0|by apply registry_steps_ok|done].
Qed.
End Roundtrip.

(** ** Witnesses *)

Definition letters_env : Env := {|
  new_v4 := N.of_nat; utc_now := Z.of_nat;
  uuid_text := fun u => repeat 97%N (N.to_nat u);
  sql_like := like_match; foreign_keys := true |}.

Lemma letters_env_ok : EnvOk letters_env.
Proof.
  split; simpl; [lia|lia|]. intros a b E%(f_equal length). rewrite !repeat_length in E. lia.
Qed.

Lemma letters_no_brace u : 125%N ∉ @uuid_text letters_env u.
Proof. cbn. intros Hin%list_elem_of_In%repeat_spec. discriminate. Qed.

Definition a_secret_text : str := $"api_key=sk-1234567890abcdefghij then hunter22 too".
Definition a_relay : ProviderCandidate :=
  mkCandidate $"relay" $"key" $"Relay" $"https://relay.example" ChatCompletions Relay
    (Some $"hunter22") None.

Example a_redacted :
  redact_sensitive_text_with_api_key [] a_secret_text (Some $"hunter22")
  = $"api_key=[REDACTED] then [REDACTED] too".
Proof. vm_compute. reflexivity. Qed.

Definition reference_roundtrip_case :=
  @redact_text_for_provider letters_env [] a_secret_text (Some $"hunter22") 1%N
    (@registry_after letters_env [(1%N, $"other")]).

Theorem reference_roundtrip_witness :
  fst reference_roundtrip_case = $"api_key={{secret:a}} then {{secret:aa}} too" /\
  @replace_secret_references_in_text (fst reference_roundtrip_case) 1%N
    (foldl (@registry_step letters_env) (snd reference_roundtrip_case) [(1%N, $"later")])
  = Ok a_secret_text.
Proof.
  split; [vm_compute; reflexivity|].
  apply (@reference_roundtrip letters_env letters_env_ok letters_no_brace [] a_secret_text (Some $"hunter22")
           1%N [(1%N, $"other")]).
  - vm_compute. reflexivity.
  - apply surjective_pairing.
Defined.

Definition relay_request_case :=
  @provider_messages_for_request letters_env [$"swordfish"] [chat_user a_secret_text; chat_user $"swordfish"]
    a_relay 1%N $"message_content" (mkRegistry ∅ 0).

Theorem relay_request_clean_witness :
  exists sent, fst relay_request_case = Ok sent /\ length sent = 3 /\
    Forall (fun m => Forall (fun text => contains $"swordfish" text = false) (message_texts m)) (drop 1 sent).
Proof.
  destruct (fst relay_request_case) as [sent|] eqn:E; [|vm_compute in E; discriminate E].
  destruct (@relay_request_clean letters_env [$"swordfish"] [chat_user a_secret_text; chat_user $"swordfish"]
    a_relay 1%N $"message_content" (mkRegistry ∅ 0) sent (snd relay_request_case) eq_refl)
    as (projected & Hs & Hm & Hall).
  { etransitivity; [apply surjective_pairing|]. by rewrite <- E. }
  assert (length sent = 3) as Hl by (vm_compute in E; by injection E as <-).
  exists sent. split_and!; [reflexivity|exact Hl|].
  apply (f_equal length) in Hm. rewrite !length_map in Hm. cbn [length] in Hm.
  destruct (messages_contain_secret_reference projected); subst sent;
    rewrite length_app in Hl; cbn [length app] in Hl; [|lia]. cbn [drop app]. rewrite drop_0.
  eapply Forall_impl; [exact Hall|]. intros m [_ Ht]. apply Forall_forall. intros text Hin.
  apply Ht; [exact Hin|]. split; [vm_compute; reflexivity|]. left.
  split; [by apply list_elem_of_singleton|apply Nat.leb_le; vm_compute; reflexivity].
Defined.
