(* ===== verification/StoreReport.v ===== *)
(** * The report of model calls (crates/xcoding-store/src/lib.rs)

    [SessionStore::model_call_report] reads the events of all sessions in the
    order of their times and counts the model calls per day and provider, per day
    and key, and per day and model, in ordered maps.  The maps are association
    lists in the order of their keys; [report_counts] gives every entry of the
    report by the calls it stands for, [report_totals] the sums, and
    [report_errors] when there is no report. *)

From S2P Require Import Prelude Text Protocol Sql Store StoreRedact.

(** ** The report *)

Record ProviderCallReport := mkProviderCalls {
  pr_date : str; pr_provider_id : str; pr_provider_name : str;
  pr_success_count : N; pr_failure_count : N }.
Record KeyCallReport := mkKeyCalls {
  kr_date : str; kr_provider_id : str; kr_provider_name : str; kr_key_id : str;
  kr_key_hint : option str; kr_success_count : N; kr_failure_count : N }.
Record ModelCallReportEntry := mkModelCalls {
  mr_date : str; mr_model : str; mr_success_count : N; mr_failure_count : N }.
Record ModelCallReport := mkCallReport {
  cr_providers : list ProviderCallReport;
  cr_keys : list KeyCallReport;
  cr_models : list ModelCallReportEntry;
}.

(** [NaiveDate::to_string] of a day, counted from 1970-01-01. *)
Class DateText := date_text : Z -> list N.

(** ** Ordered maps with tuples of strings as keys *)

(** The order of tuples: by the first component that differs. *)
Fixpoint keys_ltb (a b : list (list N)) : bool :=
  match a, b with
  | _, [] => false
  | [], _ :: _ => true
  | x :: a, y :: b => str_ltb x y || ((x =s y) && keys_ltb a b)
  end.

(** [BTreeMap] in the order of its keys; [map.entry(key).or_insert(default)], modified by [f]. *)
Fixpoint tally {V} (key : list (list N)) (default : V) (f : V -> V) (m : list (list (list N) * V))
  : list (list (list N) * V) :=
  match m with
  | [] => [(key, f default)]
  | (k, v) :: rest =>
    if bool_decide (k = key) then (k, f v) :: rest
    else if keys_ltb key k then (key, f default) :: m
    else (k, v) :: tally key default f rest
  end.

(** ** The counting *)

Definition U64_MAX : N := 18446744073709551615.
(** [u64::saturating_add] of one. *)
Definition bump (n : N) : N := N.min (n + 1) U64_MAX.

(** The calls that succeeded and those that failed. *)
Definition counts : Type := N * N.
Definition count_call (success : bool) (c : counts) : counts :=
  if success then (bump (fst c), snd c) else (fst c, bump (snd c)).

(** A call as the report sees it: the day, the provider, and the rest. *)
Record Call := mkCall {
  ca_date : str; ca_provider_id : str; ca_provider_name : str;
  ca_key_id : str; ca_key_hint : option str; ca_model : str; ca_success : bool }.

(** The three maps: the name of the provider, and for a key its hint, are those of the
    first call. *)
Record CallMaps := mkMaps {
  cm_providers : list (list (list N) * (str * counts));
  cm_keys : list (list (list N) * (str * option str * counts));
  cm_models : list (list (list N) * counts);
}.

Definition provider_key (c : Call) : list str := [ca_date c; ca_provider_id c].
Definition key_key (c : Call) : list str := [ca_date c; ca_provider_id c; ca_key_id c].
Definition model_key (c : Call) : list str := [ca_date c; ca_model c].

Definition add_call (m : CallMaps) (c : Call) : CallMaps :=
  let counted {A} (v : A * counts) := (fst v, count_call (ca_success c) (snd v)) in
  mkMaps
    (tally (provider_key c) (ca_provider_name c, (0, 0)%N) counted (cm_providers m))
    (if is_empty (ca_key_id c) then cm_keys m
     else tally (key_key c) (ca_provider_name c, ca_key_hint c, (0, 0)%N) counted (cm_keys m))
    (tally (model_key c) (0, 0)%N (count_call (ca_success c)) (cm_models m)).

Definition SECS_PER_DAY : Z := 86400.
Definition NANOS_PER_SEC : Z := 1000000000.

(** [checked_mul(60)] of an [i32], then [FixedOffset::east_opt]. *)
Definition timezone_offset (minutes : Z) : option Z :=
  let seconds := (minutes * 60)%Z in
  if (- 2 ^ 31 <=? seconds)%Z && (seconds <? 2 ^ 31)%Z then
    if (- SECS_PER_DAY <? seconds)%Z && (seconds <? SECS_PER_DAY)%Z then Some seconds else None
  else None.

Section Report.
Context {Codec : EventText} {Dates : DateText}.

(** The day of a time in the zone. *)
Definition local_date (offset : Z) (t : timestamp) : str :=
  date_text ((t + offset * NANOS_PER_SEC) / (SECS_PER_DAY * NANOS_PER_SEC)).

Definition call_of (offset : Z) (t : timestamp) (i : ModelCallInfo) : Call :=
  let provider := trim (mc_provider i) in
  let or_provider text := if is_empty (trim text) then provider else trim text in
  mkCall (local_date offset t) (or_provider (mc_provider_id i)) (or_provider (mc_provider_name i))
    (trim (mc_key_id i))
    (match mc_key_hint i with
     | Some hint => if is_empty (trim hint) then None else Some hint
     | None => None
     end)
    (mc_model i) (mc_success i).

(** The loop over the rows; an event that cannot be read ends it, of any session and kind. *)
Fixpoint report_rows (offset : Z) (rows : list EventRow) (m : CallMaps) : result CallMaps StoreError :=
  match rows with
  | [] => Ok m
  | row :: rest =>
    match event_of_text (er_event row) with
    | Err error => Err (InvalidData error)
    | Ok (EvModelCall _ info) =>
      report_rows offset rest (add_call m (call_of offset (er_created_at row) info))
    | Ok _ => report_rows offset rest m
    end
  end.

Definition no_calls : CallMaps := mkMaps [] [] [].

Definition provider_entry (e : list (list N) * (str * counts)) : ProviderCallReport :=
  let '(key, (name, (ok, failed))) := e in
  mkProviderCalls (nth 0 key []) (nth 1 key []) name ok failed.
Definition key_entry (e : list (list N) * (str * option str * counts)) : KeyCallReport :=
  let '(key, (name, hint, (ok, failed))) := e in
  mkKeyCalls (nth 0 key []) (nth 1 key []) name (nth 2 key []) hint ok failed.
Definition model_entry (e : list (list N) * counts) : ModelCallReportEntry :=
  let '(key, (ok, failed)) := e in mkModelCalls (nth 0 key []) (nth 1 key []) ok failed.

Definition report_of (m : CallMaps) : ModelCallReport :=
  mkCallReport (map provider_entry (rev (cm_providers m))) (map key_entry (rev (cm_keys m)))
    (map model_entry (rev (cm_models m))).

Definition event_order (a b : EventRow) : bool := (er_created_at a <=? er_created_at b)%Z.

Definition model_call_report (timezone_offset_minutes : Z) : H ModelCallReport := fun r =>
  match timezone_offset timezone_offset_minutes with
  | None => (Err (InvalidInput $"timezone offset is out of range"), r)
  | Some offset =>
    match report_rows offset (order_by event_order (raw_events r)) no_calls with
    | Ok m => (Ok (report_of m), r)
    | Err e => (Err e, r)
    end
  end.
End Report.

(** ** The order of the keys *)

Lemma str_ltb_trans a b c : str_ltb a b = true -> str_ltb b c = true -> str_ltb a c = true.
Proof.
  revert b c. induction a as [|x a IH]; intros [|y b] [|z c]; cbn [str_ltb]; try done.
  rewrite !orb_true_iff, !andb_true_iff, !N.ltb_lt, !N.eqb_eq.
  intros [H1|[-> H1]] [H2|[-> H2]]; [left; lia|by left|by left|]. right. split; [done|by eapply IH].
Qed.
Lemma str_ltb_irrefl a : str_ltb a a = false.
Proof. induction a as [|x a IH]; cbn [str_ltb]; [done|]. by rewrite N.ltb_irrefl, N.eqb_refl, IH. Qed.
Lemma str_ltb_total a b : str_ltb a b = false -> a <> b -> str_ltb b a = true.
Proof.
  revert b. induction a as [|x a IH]; intros [|y b]; cbn [str_ltb]; try done.
  rewrite orb_false_iff, N.ltb_ge. intros [Hge Hab] Hne. rewrite orb_true_iff, andb_true_iff, N.ltb_lt, N.eqb_eq.
  destruct (N.eq_dec x y) as [->|]; [right; split; [done|]|left; lia].
  rewrite N.eqb_refl in Hab. apply IH; [done|congruence].
Qed.

Lemma keys_ltb_trans a b c : keys_ltb a b = true -> keys_ltb b c = true -> keys_ltb a c = true.
Proof.
  revert b c. induction a as [|x a IH]; intros [|y b] [|z c]; cbn [keys_ltb]; try done.
  rewrite !orb_true_iff, !andb_true_iff, !str_eqb_true.
  intros [H1|[-> H1]] [H2|[-> H2]]; [left; by eapply str_ltb_trans|by left|by left|].
  right. split; [done|by eapply IH].
Qed.
Lemma keys_ltb_irrefl a : keys_ltb a a = false.
Proof. induction a as [|x a IH]; cbn [keys_ltb]; [done|]. by rewrite str_ltb_irrefl, str_eqb_refl, IH. Qed.
Lemma keys_ltb_total a b : keys_ltb a b = false -> a <> b -> keys_ltb b a = true.
Proof.
  revert b. induction a as [|x a IH]; intros [|y b]; cbn [keys_ltb]; try done.
  rewrite orb_false_iff. intros [Hx Hab] Hne. rewrite orb_true_iff, andb_true_iff, str_eqb_true.
  destruct (decide (x = y)) as [->|Hxy].
  - right. split; [done|]. rewrite str_eqb_refl in Hab. apply IH; [done|congruence].
  - left. by apply str_ltb_total.
Qed.

(** ** The maps *)

Section Tally.
Context {C V : Type}.
Implicit Types (m : list (list (list N) * V)) (k : list (list N)).

Definition ascending m : Prop := StronglySorted (fun a b => keys_ltb a b = true) (map fst m).

Fixpoint tally_get k m : option V :=
  match m with
  | [] => None
  | (k', v) :: rest => if bool_decide (k' = k) then Some v else tally_get k rest
  end.

Lemma tally_get_smaller k m :
  ascending m -> (forall e, e ∈ m -> keys_ltb k (fst e) = true) -> tally_get k m = None.
Proof.
  intros _ Hm. induction m as [|[k' v] m IH]; simpl; [done|]. rewrite bool_decide_false.
  - apply IH. set_solver.
  - intros ->. specialize (Hm (k, v) ltac:(set_solver)). by rewrite keys_ltb_irrefl in Hm.
Qed.

Lemma tally_keys key default f m k :
  k ∈ map fst (tally key default f m) <-> k = key \/ k ∈ map fst m.
Proof.
  induction m as [|[k' v] m IH]; simpl; [set_solver|].
  destruct (bool_decide_reflect (k' = key)) as [->|]; simpl; [set_solver|].
  destruct (keys_ltb key k'); simpl; set_solver.
Qed.

Lemma tally_ascending key default f m : ascending m -> ascending (tally key default f m).
Proof.
  unfold ascending. induction m as [|[k v] m IH]; simpl; intros Hs; [by repeat constructor|].
  apply StronglySorted_inv in Hs as [Hs Hk].
  destruct (bool_decide_reflect (k = key)) as [->|Hne]; simpl; [by constructor|].
  destruct (keys_ltb key k) eqn:Hlt; simpl.
  - constructor; [by constructor|]. constructor; [done|]. eapply Forall_impl; [exact Hk|].
    intros k' Hk'. by eapply keys_ltb_trans.
  - constructor; [by apply IH|]. apply Forall_forall. intros k' Hin.
    apply tally_keys in Hin as [->|Hin]; [by apply keys_ltb_total|].
    rewrite Forall_forall in Hk. by apply Hk.
Qed.

Lemma tally_get_spec key default f m k :
  ascending m ->
  tally_get k (tally key default f m)
  = if bool_decide (k = key) then Some (f (or_else (tally_get key m) default)) else tally_get k m.
Proof.
  induction m as [|[k' v] m IH]; intros Hs; simpl.
  - rewrite (bool_decide_ext (key = k) (k = key)) by done. done.
  - apply StronglySorted_inv in Hs as [Hs Hk].
    destruct (bool_decide_reflect (k' = key)) as [->|Hne]; simpl.
    { rewrite (bool_decide_ext (key = k) (k = key)) by done. by destruct (bool_decide (k = key)). }
    destruct (keys_ltb key k') eqn:Hlt; simpl.
    + rewrite (bool_decide_ext (key = k) (k = key)) by done.
      destruct (bool_decide_reflect (k = key)) as [E|]; [|done]. clear E.
      rewrite (tally_get_smaller key m); [done|done|]. intros e He.
      rewrite Forall_forall in Hk. eapply keys_ltb_trans; [exact Hlt|]. apply Hk.
      by apply list_elem_of_fmap_2.
    + rewrite IH by done. destruct (bool_decide_reflect (k' = k)) as [->|]; [|done].
      by rewrite bool_decide_false.
Qed.

Lemma tally_get_elem k v m : ascending m -> (k, v) ∈ m <-> tally_get k m = Some v.
Proof.
  induction m as [|[k' v'] m IH]; intros Hs; simpl; [set_solver|].
  apply StronglySorted_inv in Hs as [Hs Hk]. rewrite elem_of_cons, (IH Hs).
  destruct (bool_decide_reflect (k' = k)) as [->|Hne].
  - split; [|intros [= ->]; by left]. intros [[= ->]|Hget]; [done|]. exfalso.
    apply (IH Hs) in Hget. rewrite Forall_forall in Hk. specialize (Hk k).
    rewrite keys_ltb_irrefl in Hk. discriminate Hk.
    by apply (list_elem_of_fmap_2 fst _ (k, v)).
  - split; [intros [[= -> ->]|]; done|by right].
Qed.

(** *** A sequence of calls *)

Variables (key : C -> list (list N)) (default : C -> V) (update : C -> V -> V).

Definition tallied (calls : list C) : list (list (list N) * V) :=
  foldl (fun m c => tally (key c) (default c) (update c) m) [] calls.
(** The calls of one key. *)
Definition calls_of k (calls : list C) : list C := select (fun c => bool_decide (key c = k)) calls.
(** What the calls of a key come to: the first one starts the entry. *)
Definition entry_of (calls : list C) : option V :=
  match calls with
  | [] => None
  | first :: _ => Some (foldl (fun v c => update c v) (default first) calls)
  end.

Lemma entry_of_snoc calls c :
  entry_of (calls ++ [c]) = Some (update c (or_else (entry_of calls) (default c))).
Proof. destruct calls as [|first calls]; [done|]. simpl. by rewrite foldl_app. Qed.

Lemma tallied_spec calls :
  ascending (tallied calls) /\ forall k, tally_get k (tallied calls) = entry_of (calls_of k calls).
Proof.
  unfold tallied, calls_of. induction calls as [|c calls [IHs IHg]] using rev_ind; [by split; [constructor|]|].
  rewrite foldl_app. simpl. split; [by apply tally_ascending|]. intros k.
  rewrite tally_get_spec by done. rewrite select_app. unfold select at 2. simpl.
  rewrite (bool_decide_ext (k = key c) (key c = k)) by done.
  destruct (bool_decide_reflect (key c = k)) as [<-|]; [|by rewrite app_nil_r].
  by rewrite entry_of_snoc, IHg.
Qed.
End Tally.

(** ** The report *)

Section Facts.
Context {Codec : EventText} {Dates : DateText}.

(** The calls among the rows, in their order. *)
Fixpoint read_calls (offset : Z) (rows : list EventRow) : result (list Call) StoreError :=
  match rows with
  | [] => Ok []
  | row :: rest =>
    match event_of_text (er_event row) with
    | Err error => Err (InvalidData error)
    | Ok (EvModelCall _ info) =>
      match read_calls offset rest with
      | Ok calls => Ok (call_of offset (er_created_at row) info :: calls)
      | Err e => Err e
      end
    | Ok _ => read_calls offset rest
    end
  end.

Lemma report_rows_fold offset rows m :
  report_rows offset rows m
  = match read_calls offset rows with Ok calls => Ok (foldl add_call m calls) | Err e => Err e end.
Proof.
  revert m. induction rows as [|row rows IH]; intros m; simpl; [done|].
  destruct (event_of_text (er_event row)) as [e|error]; [|done].
  destruct e; rewrite IH; by destruct (read_calls offset rows).
Qed.

(** Counted with saturation. *)
Definition saturated (n : nat) : N := N.min (N.of_nat n) U64_MAX.
Definition succeeded (calls : list Call) : N := saturated (count_where ca_success calls).
Definition failed (calls : list Call) : N := saturated (count_where (fun c => negb (ca_success c)) calls).

Definition counted {A} (c : Call) (v : A * counts) : A * counts := (fst v, count_call (ca_success c) (snd v)).

Lemma bump_saturated n : bump (saturated n) = saturated (S n).
Proof. unfold bump, saturated, U64_MAX. lia. Qed.

Lemma count_calls calls : foldl (fun v c => count_call (ca_success c) v) (0, 0)%N calls = (succeeded calls, failed calls).
Proof.
  unfold succeeded, failed, count_where. induction calls as [|c calls IH] using rev_ind; [done|].
  rewrite foldl_app, IH. simpl. unfold count_call. rewrite !select_app, !length_app. unfold select at 2 4. simpl.
  destruct (ca_success c); simpl; by rewrite bump_saturated, Nat.add_1_r, ?Nat.add_0_r.
Qed.

Lemma count_counted {A} (a : A) calls :
  foldl (fun v c => counted c v) (a, (0, 0)%N) calls = (a, (succeeded calls, failed calls)).
Proof.
  rewrite <- count_calls. set (v := (0, 0)%N). clearbody v. revert v.
  induction calls as [|c calls IH]; intros v; simpl; [done|]. apply IH.
Qed.

Definition keyed (c : Call) : bool := negb (is_empty (ca_key_id c)).
Definition provider_start (c : Call) : str * counts := (ca_provider_name c, (0, 0)%N).
Definition key_start (c : Call) : str * option str * counts := (ca_provider_name c, ca_key_hint c, (0, 0)%N).
Definition model_start (c : Call) : counts := (0, 0)%N.

Lemma maps_tallied calls :
  foldl add_call no_calls calls
  = mkMaps (tallied provider_key provider_start counted calls)
      (tallied key_key key_start counted (select keyed calls))
      (tallied model_key model_start (fun c => count_call (ca_success c)) calls).
Proof.
  unfold tallied. induction calls as [|c calls IH] using rev_ind; [done|].
  rewrite !foldl_app, IH, select_app, foldl_app. unfold add_call, select at 2, keyed. simpl.
  by destruct (is_empty (ca_key_id c)).
Qed.

Lemma in_tallied {V} (key : Call -> list (list N)) (start : Call -> V) update calls k v :
  (k, v) ∈ tallied key start update calls <->
  exists first rest, calls_of key k calls = first :: rest
    /\ v = foldl (fun v c => update c v) (start first) (first :: rest).
Proof.
  destruct (tallied_spec key start update calls) as [Ha Hg]. rewrite (tally_get_elem k v _ Ha), Hg.
  destruct (calls_of key k calls) as [|first rest]; simpl.
  - split; [done|]. by intros (? & ? & ? & _).
  - split; [intros [= <-]; by exists first, rest|]. by intros (? & ? & [= <- <-] & ->).
Qed.

Lemma key_of_calls (key : Call -> list (list N)) k calls first rest :
  calls_of key k calls = first :: rest -> key first = k.
Proof.
  intros H. assert (first ∈ calls_of key k calls) as Hin by (rewrite H; by left).
  apply elem_of_select in Hin as [_ Hk]. by apply bool_decide_eq_true in Hk.
Qed.

Lemma StronglySorted_rev {A} (R : A -> A -> Prop) l :
  StronglySorted R l -> StronglySorted (fun a b => R b a) (rev l).
Proof.
  induction 1 as [|x l Hl IH Hx]; simpl; [constructor|].
  apply (SSorted_snoc (fun a b => R b a)); [done|].
  intros y Hy. rewrite Forall_forall in Hx. apply Hx. rewrite list_elem_of_In in Hy |- *. by apply in_rev.
Qed.

(** The entries of a report, newest key first. *)
Lemma entries_descending {V E} (entry : list (list N) * V -> E) (show : E -> list (list N))
    (key : Call -> list (list N)) (start : Call -> V) update (calls : list Call) :
  (forall e, e ∈ tallied key start update calls -> show (entry e) = fst e) ->
  StronglySorted (fun a b => keys_ltb b a = true) (map show (map entry (rev (tallied key start update calls)))).
Proof.
  intros He. rewrite map_map, map_rev.
  assert (map (fun e => show (entry e)) (tallied key start update calls)
          = map fst (tallied key start update calls)) as ->.
  { apply map_ext_in. intros e Hin. apply He. by apply list_elem_of_In. }
  apply (StronglySorted_rev (fun a b => keys_ltb a b = true)). apply tallied_spec.
Qed.

Lemma in_entries {V E} (entry : list (list N) * V -> E)
    (key : Call -> list (list N)) (start : Call -> V) update (calls : list Call) x :
  x ∈ map entry (rev (tallied key start update calls)) <->
  exists k first rest, calls_of key k calls = first :: rest
    /\ x = entry (k, foldl (fun v c => update c v) (start first) (first :: rest)).
Proof.
  rewrite list_elem_of_In, in_map_iff. split.
  - intros ([k v] & <- & Hin). apply in_rev, list_elem_of_In, in_tallied in Hin as (first & rest & Hc & ->). eauto.
  - intros (k & first & rest & Hc & ->). eexists. split; [done|]. apply in_rev. rewrite rev_involutive.
    apply list_elem_of_In, in_tallied. eauto.
Qed.

(** What the entries say, by the calls of their keys. *)
Definition provider_reports (calls : list Call) (p : ProviderCallReport) : Prop :=
  exists first rest, calls_of provider_key [pr_date p; pr_provider_id p] calls = first :: rest
    /\ pr_provider_name p = ca_provider_name first
    /\ pr_success_count p = succeeded (first :: rest) /\ pr_failure_count p = failed (first :: rest).
Definition key_reports (calls : list Call) (k : KeyCallReport) : Prop :=
  exists first rest, calls_of key_key [kr_date k; kr_provider_id k; kr_key_id k] (select keyed calls) = first :: rest
    /\ kr_provider_name k = ca_provider_name first /\ kr_key_hint k = ca_key_hint first
    /\ kr_success_count k = succeeded (first :: rest) /\ kr_failure_count k = failed (first :: rest).
Definition model_reports (calls : list Call) (m : ModelCallReportEntry) : Prop :=
  exists first rest, calls_of model_key [mr_date m; mr_model m] calls = first :: rest
    /\ mr_success_count m = succeeded (first :: rest) /\ mr_failure_count m = failed (first :: rest).

Lemma provider_entries calls p :
  p ∈ map provider_entry (rev (tallied provider_key provider_start counted calls)) <-> provider_reports calls p.
Proof.
  rewrite in_entries. unfold provider_reports, provider_start. split.
  - intros (k & first & rest & Hc & ->). rewrite count_counted. pose proof (key_of_calls _ _ _ _ _ Hc) as <-.
    exists first, rest. by simpl.
  - intros (first & rest & Hc & Hn & Hs & Hf). eexists _, first, rest. split; [exact Hc|].
    rewrite count_counted. destruct p. simpl in *. by subst.
Qed.

Lemma key_entries calls k :
  k ∈ map key_entry (rev (tallied key_key key_start counted (select keyed calls))) <-> key_reports calls k.
Proof.
  rewrite in_entries. unfold key_reports, key_start. split.
  - intros (key & first & rest & Hc & ->). rewrite count_counted. pose proof (key_of_calls _ _ _ _ _ Hc) as <-.
    exists first, rest. by simpl.
  - intros (first & rest & Hc & Hn & Hh & Hs & Hf). eexists _, first, rest. split; [exact Hc|].
    rewrite count_counted. destruct k. simpl in *. by subst.
Qed.

Lemma model_entries calls m :
  m ∈ map model_entry (rev (tallied model_key model_start (fun c => count_call (ca_success c)) calls))
  <-> model_reports calls m.
Proof.
  rewrite in_entries. unfold model_reports, model_start. split.
  - intros (k & first & rest & Hc & ->). rewrite count_calls. pose proof (key_of_calls _ _ _ _ _ Hc) as <-.
    exists first, rest. by simpl.
  - intros (first & rest & Hc & Hs & Hf). eexists _, first, rest. split; [exact Hc|].
    rewrite count_calls. destruct m. simpl in *. by subst.
Qed.

Definition newest_first (keys : list (list str)) : Prop := StronglySorted (fun a b => keys_ltb b a = true) keys.


Lemma read_calls_ok offset rows :
  (exists calls, read_calls offset rows = Ok calls)
  <-> forall row, row ∈ rows -> exists e, event_of_text (er_event row) = Ok e.
Proof.
  induction rows as [|row rows IH]; simpl; [split; [set_solver|eauto]|]. split.
  - intros (calls & H) x [->|Hx]%elem_of_cons; [destruct (event_of_text (er_event row)); [eauto|done]|].
    apply IH; [|done]. destruct (event_of_text (er_event row)) as [e|]; [|done].
    destruct e; eauto. destruct (read_calls offset rows); [eauto|done].
  - intros H. destruct (H row) as (e & ->); [by left|].
    destruct IH as [_ IH]. destruct IH as (calls & ->); [intros x Hx; apply H; by right|]. destruct e; eauto.
Qed.

Lemma timezone_offset_spec minutes :
  timezone_offset minutes = if (-1440 <? minutes)%Z && (minutes <? 1440)%Z
                            then Some (minutes * 60)%Z else None.
Proof.
  unfold timezone_offset, SECS_PER_DAY.
  destruct (_ && _) eqn:H1; destruct ((-1440 <? minutes)%Z && _) eqn:H2;
    rewrite ?andb_true_iff, ?andb_false_iff, ?Z.leb_le, ?Z.ltb_lt, ?Z.leb_gt, ?Z.ltb_ge in *; try lia.
  - destruct (_ && _) eqn:H3; [done|]. rewrite andb_false_iff, !Z.ltb_ge in H3. lia.
  - destruct (_ && _) eqn:H3; [|done]. rewrite andb_true_iff, !Z.ltb_lt in H3. lia.
  - done.
Qed.

(** there is a report exactly when the offset is less than a day in either direction and
    every event of every session can be read; the store stays as it is. *)
Theorem report_errors minutes r :
  snd (model_call_report minutes r) = r
  /\ ((exists report, fst (model_call_report minutes r) = Ok report)
      <-> (-1440 < minutes < 1440)%Z
          /\ forall row, row ∈ raw_events r -> exists e, event_of_text (er_event row) = Ok e).
Proof.
  unfold model_call_report. rewrite timezone_offset_spec.
  destruct (_ && _) eqn:Hz; rewrite ?andb_true_iff, ?andb_false_iff, ?Z.ltb_lt, ?Z.ltb_ge in Hz.
  - rewrite report_rows_fold. split; [by destruct (read_calls _ _)|].
    assert ((forall row, row ∈ raw_events r -> exists e, event_of_text (er_event row) = Ok e)
      <-> exists calls, read_calls (minutes * 60) (order_by event_order (raw_events r)) = Ok calls) as ->.
    { rewrite read_calls_ok. split; intros H row Hrow; apply H; by rewrite order_by_perm in *. }
    destruct (read_calls _ _) as [calls|e]; simpl; split; [eauto|eauto|by intros (? & ?)|].
    by intros (_ & calls & ?).
  - split; [done|]. simpl. split; [by intros (? & ?)|lia].
Qed.

(** *** Sums *)

Definition sumN (l : list N) : N := foldr N.add 0%N l.
Definition calls_counted (c : counts) : N := (fst c + snd c)%N.

Section Sum.
Context {V : Type} (weight : V -> counts).

Lemma tally_sum key default f (m : list (list (list N) * V)) n :
  (n < U64_MAX)%N -> calls_counted (weight default) = 0%N ->
  (forall v, (calls_counted (weight v) < U64_MAX)%N -> calls_counted (weight (f v)) = (calls_counted (weight v) + 1)%N) ->
  sumN (map (fun e => calls_counted (weight (snd e))) m) = n ->
  sumN (map (fun e => calls_counted (weight (snd e))) (tally key default f m)) = (n + 1)%N.
Proof.
  intros Hn Hd Hf. revert n Hn. induction m as [|[k v] m IH]; intros n Hn Hs; simpl in *.
  - rewrite Hf; rewrite Hd; unfold sumN, U64_MAX in *; simpl in *; lia.
  - destruct (bool_decide (k = key)); simpl; [|destruct (keys_ltb key k); simpl].
    + rewrite Hf; unfold sumN in *; lia.
    + rewrite Hf; rewrite Hd; unfold sumN in *; lia.
    + rewrite (IH (sumN (map (fun e => calls_counted (weight (snd e))) m))); unfold sumN in *; lia.
Qed.

Lemma tallied_sum key (start : Call -> V) update calls :
  (forall c, calls_counted (weight (start c)) = 0%N) ->
  (forall c v, (calls_counted (weight v) < U64_MAX)%N ->
     calls_counted (weight (update c v)) = (calls_counted (weight v) + 1)%N) ->
  (N.of_nat (length calls) <= U64_MAX)%N ->
  sumN (map (fun e => calls_counted (weight (snd e))) (tallied key start update calls)) = N.of_nat (length calls).
Proof.
  intros Hs Hu. unfold tallied. induction calls as [|c calls IH] using rev_ind; [done|].
  rewrite length_app. simpl. intros Hl. rewrite foldl_app. simpl.
  rewrite (tally_sum _ _ _ _ (N.of_nat (length calls))); [lia|lia|apply Hs|apply Hu|apply IH; lia].
Qed.
End Sum.

Lemma count_call_counted success c :
  (calls_counted c < U64_MAX)%N -> calls_counted (count_call success c) = (calls_counted c + 1)%N.
Proof. unfold calls_counted, count_call, bump. destruct success; simpl; lia. Qed.

Lemma sumN_app l l' : sumN (l ++ l') = (sumN l + sumN l')%N.
Proof. unfold sumN. induction l as [|x l IH]; simpl; lia. Qed.
Lemma sumN_rev l : sumN (rev l) = sumN l.
Proof. induction l as [|x l IH]; simpl; [done|]. rewrite sumN_app, IH. unfold sumN. simpl. lia. Qed.

Lemma sum_entries {V E} (entry : list (list N) * V -> E) (total : E -> N) (weight : V -> counts) m :
  (forall e, total (entry e) = calls_counted (weight (snd e))) ->
  sumN (map total (map entry (rev m))) = sumN (map (fun e => calls_counted (weight (snd e))) m).
Proof.
  intros He. rewrite map_map. erewrite map_ext; [|exact He]. by rewrite map_rev, sumN_rev.
Qed.

(** below [2^64] calls, the counts of the providers add up to the number of model calls,
    those of the models too, and those of the keys to the calls that name one: no call is
    counted twice or left out. *)
Theorem report_totals minutes offset r calls report :
  timezone_offset minutes = Some offset ->
  read_calls offset (order_by event_order (raw_events r)) = Ok calls ->
  model_call_report minutes r = (Ok report, r) ->
  (N.of_nat (length calls) <= U64_MAX)%N ->
  sumN (map (fun p => pr_success_count p + pr_failure_count p)%N (cr_providers report)) = N.of_nat (length calls)
  /\ sumN (map (fun k => kr_success_count k + kr_failure_count k)%N (cr_keys report))
     = N.of_nat (count_where keyed calls)
  /\ sumN (map (fun m => mr_success_count m + mr_failure_count m)%N (cr_models report)) = N.of_nat (length calls).
Proof.
  intros Hz Hc. unfold model_call_report. rewrite Hz, report_rows_fold, Hc, maps_tallied.
  intros [= <-] Hl. unfold report_of. simpl. split; [|split].
  - rewrite (sum_entries _ _ snd) by (intros [k [n [ok bad]]]; done).
    apply tallied_sum; [done|intros c v; apply count_call_counted|done].
  - rewrite (sum_entries _ _ snd) by (intros [k [[n h] [ok bad]]]; done).
    apply tallied_sum; [done|intros c v; apply count_call_counted|].
    pose proof (List.filter_length_le keyed calls). unfold select. lia.
  - rewrite (sum_entries _ _ id) by (intros [k [ok bad]]; done).
    apply tallied_sum; [done|intros c v; apply count_call_counted|done].
Qed.

(** the run that [redaction_breaks_event] shows leaves a store without any report. *)
Theorem redaction_breaks_report `{Env} minutes :
  (forall text e, event_of_text text = Ok e -> ends_with $"}" text = true) ->
  (-1440 < minutes < 1440)%Z ->
  exists e, fst (model_call_report minutes
                   (snd (redact_historical_secrets (SecretRefs.redact_sensitive_tool_output []) key_events)))
            = Err (InvalidData e).
Proof.
  intros Hjson Hm.
  match goal with |- context [snd ?run] => let v := eval vm_compute in (snd run) in
    assert (snd run = v) as -> by (vm_compute; reflexivity) end.
  unfold model_call_report. rewrite timezone_offset_spec.
  rewrite (proj2 (andb_true_iff _ _)) by (rewrite !Z.ltb_lt; lia). simpl.
  match goal with |- context [event_of_text ?t] => destruct (event_of_text t) as [e|e] eqn:He end;
    [by apply Hjson in He|by eexists].
Qed.
End Facts.

(** ** Witnesses *)

Section Witness.
#[local] Instance day_number : DateText := fun day => [Z.to_N day].
(** A text with one character is a call that succeeded or failed. *)
#[local] Instance letters : EventText := {|
  event_text := fun _ => [];
  event_of_text := fun text =>
    Ok (EvModelCall 7 (mkModelCall $"p" [] [] $"k" None $"m" [] [] [] 1 1 1 (text =s $"+") 0 0 None None None None None)) |}.

Definition three_calls : RawStore :=
  mkRaw in_memory [mkEventRow 1 7 $"+" 0; mkEventRow 2 7 $"-" 5; mkEventRow 3 7 $"+" (90000 * 1000000000)].
Definition three : list Call :=
  match read_calls 0 (raw_events three_calls) with Ok calls => calls | Err _ => [] end.


Lemma report_totals_witness :
  exists report, model_call_report 0 three_calls = (Ok report, three_calls)
    /\ sumN (map (fun p => pr_success_count p + pr_failure_count p)%N (cr_providers report)) = 3%N.
Proof.
  eexists. split; [vm_compute; reflexivity|].
  eapply (report_totals 0 0 three_calls three); [vm_compute; reflexivity..|vm_compute; discriminate].
Defined.
End Witness.
