(* ===== verification/Rows.v ===== *)
(** * Rows and schema of the store (crates/xcoding-store/src/lib.rs)

    The tables of [Store] hold decoded rows.  Here are the rows as SQLite keeps them, the
    parameters of the statements that write them, the [row_to_*] functions that read them,
    and [migrate], which brings the tables of an older release to the present columns.
    What [serde_json], [uuid] and [chrono] print and parse is the class [ColumnCodec]. *)

From S2P Require Import Prelude Protocol Sql Store.

(** ** Values *)

Inductive SqlValue := Null | Integer (i : Z) | TextValue (s : str).
Abbreviation SqlRow := (list SqlValue) (only parsing).

(** [rusqlite::Error], of a row: a missing column, one of another type, and a conversion. *)
Inductive RowError :=
| InvalidColumnIndex (column : nat)
| InvalidColumnType (column : nat)
| ConversionFailure (e : StoreError).

Definition get_text (row : SqlRow) (i : nat) : result str RowError :=
  match row !! i with
  | Some (TextValue s) => Ok s
  | Some _ => Err (InvalidColumnType i)
  | None => Err (InvalidColumnIndex i)
  end.
Definition get_opt_text (row : SqlRow) (i : nat) : result (option str) RowError :=
  match row !! i with
  | Some Null => Ok None
  | _ => let? s := get_text row i in Ok (Some s)
  end.
Definition get_int (row : SqlRow) (i : nat) : result Z RowError :=
  match row !! i with
  | Some (Integer n) => Ok n
  | Some _ => Err (InvalidColumnType i)
  | None => Err (InvalidColumnIndex i)
  end.
Definition opt_text (s : option str) : SqlValue :=
  match s with Some s => TextValue s | None => Null end.

(** ** Columns *)

(** A type that [serde] derives: its JSON text, and the parser with its error. *)
Class Json (A : Type) := { to_json : A -> list N; from_json : list N -> result A (list N) }.

Class ColumnCodec := {
  parse_id : list N -> result uuid (list N);        (** [Uuid::parse_str] *)
  to_rfc3339 : timestamp -> list N;
  parse_rfc3339 : list N -> result timestamp (list N);
  #[global] mode_json :: Json Mode;
  #[global] session_status_json :: Json SessionStatus;
  #[global] role_json :: Json MessageRole;
  #[global] action_status_json :: Json PendingActionStatus;
  #[global] tool_call_json :: Json ToolCall;
  #[global] images_json :: Json (list ChatImageAttachment);
  #[global] text_files_json :: Json (list FollowUpQueueTextFile);
  #[global] event_json :: Json SessionEvent;
}.

Definition follow_up_status_key (status : FollowUpQueueStatus) : str :=
  match status with
  | Queued => $"queued"
  | NotStarted => $"not_started"
  | QCancelled => $"cancelled"
  end.
Definition follow_up_status_from_key (value : str) : option FollowUpQueueStatus :=
  if value =s $"queued" then Some Queued
  else if value =s $"not_started" then Some NotStarted
  else if value =s $"cancelled" then Some QCancelled
  else None.

(** [usize as i64], and back with [usize::try_from]. *)
Definition as_i64 (n : nat) : Z :=
  let z := (Z.of_nat n mod 18446744073709551616)%Z in
  if (z <? 9223372036854775808)%Z then z else (z - 18446744073709551616)%Z.

Section Rows.
Context {En : Env} {Co : ColumnCodec}.

Definition parse {A} (error : str -> StoreError) (r : result A str) : result A RowError :=
  match r with
  | Ok a => Ok a
  | Err m => Err (ConversionFailure (error m))
  end.
Definition column_id (s : str) : result uuid RowError := parse Identifier (parse_id s).
Definition column_time (s : str) : result timestamp RowError := parse Timestamp (parse_rfc3339 s).
Definition column_json {A} `{Json A} (s : str) : result A RowError := parse InvalidData (from_json s).
Definition column_usize (n : Z) (m : str) : result nat RowError :=
  if (n <? 0)%Z then Err (ConversionFailure (InvalidInput m)) else Ok (Z.to_nat n).

(** ** Reading *)

Definition row_to_session (row : SqlRow) : result Session RowError :=
  let? id := get_text row 0 in
  let? mode := get_text row 2 in
  let? status := get_text row 5 in
  let? created_at := get_text row 6 in
  let? updated_at := get_text row 7 in
  let? id := column_id id in
  let? workspace_root := get_text row 1 in
  let? mode := column_json mode in
  let? provider := get_text row 3 in
  let? model := get_text row 4 in
  let? status := column_json status in
  let? created_at := column_time created_at in
  let? updated_at := column_time updated_at in
  let? title := get_opt_text row 8 in
  Ok (mkSession id workspace_root mode provider model status created_at updated_at title).

Definition row_to_message (row : SqlRow) : result Message RowError :=
  let? id := get_text row 0 in
  let? session_id := get_text row 1 in
  let? role := get_text row 2 in
  let? created_at := get_text row 4 in
  let? id := column_id id in
  let? session_id := column_id session_id in
  let? role := column_json role in
  let? content := get_text row 3 in
  let? created_at := column_time created_at in
  Ok (mkMessage id session_id role content created_at).

Definition row_to_pending_action (row : SqlRow) : result PendingAction RowError :=
  let? id := get_text row 0 in
  let? session_id := get_text row 1 in
  let? tool_call := get_text row 2 in
  let? status := get_text row 3 in
  let? created_at := get_text row 4 in
  let? resolved_at := get_opt_text row 5 in
  let? id := column_id id in
  let? session_id := column_id session_id in
  let? tool_call := column_json tool_call in
  let? status := column_json status in
  let? created_at := column_time created_at in
  let? resolved_at :=
    match resolved_at with
    | None => Ok None
    | Some value => let? t := column_time value in Ok (Some t)
    end in
  Ok (mkPendingAction id session_id tool_call status created_at resolved_at).

Definition row_to_restore_point (row : SqlRow) : result RestorePoint RowError :=
  let? id := get_text row 0 in
  let? session_id := get_text row 1 in
  let? created_at := get_text row 5 in
  let? id := column_id id in
  let? session_id := column_id session_id in
  let? path := get_text row 2 in
  let? original_text := get_opt_text row 3 in
  let? applied_text := get_opt_text row 4 in
  let? created_at := column_time created_at in
  Ok (mkRestorePoint id session_id path original_text applied_text created_at).

Definition row_to_event (row : SqlRow) : result PersistedSessionEvent RowError :=
  let? id := get_text row 0 in
  let? session_id := get_text row 1 in
  let? event := get_text row 2 in
  let? created_at := get_text row 3 in
  let? id := column_id id in
  let? session_id := column_id session_id in
  let? event := column_json event in
  let? created_at := column_time created_at in
  Ok (mkPersistedEvent id session_id event created_at).

Definition row_to_follow_up_queue_entry (row : SqlRow) : result FollowUpQueueEntry RowError :=
  let? id := get_text row 0 in
  let? session_id := get_text row 1 in
  let? images := get_text row 3 in
  let? text_files := get_text row 4 in
  let? status := get_text row 5 in
  let? created_at := get_text row 6 in
  let? updated_at := get_text row 7 in
  let? id := column_id id in
  let? session_id := column_id session_id in
  let? text := get_text row 2 in
  let? images := column_json images in
  let? text_files := column_json text_files in
  let? status :=
    match follow_up_status_from_key status with
    | Some status => Ok status
    | None => Err (ConversionFailure (InvalidInput ($"invalid stored follow-up queue status: " ++ status)))
    end in
  let? created_at := column_time created_at in
  let? updated_at := column_time updated_at in
  Ok (mkFollowUp id session_id text images text_files status created_at updated_at).

Definition row_to_workspace_config (row : SqlRow) : result WorkspaceConfig RowError :=
  let? mode := get_text row 1 in
  let? updated_at := get_text row 4 in
  let? workspace_root := get_text row 0 in
  let? mode := column_json mode in
  let? provider := get_text row 2 in
  let? model := get_text row 3 in
  let? updated_at := column_time updated_at in
  Ok (mkWorkspaceConfig workspace_root mode provider model [] [] updated_at).

Definition row_to_context_compaction (row : SqlRow) : result ContextCompaction RowError :=
  let? session_id := get_text row 0 in
  let? compacted_message_count := get_int row 2 in
  let? updated_at := get_text row 3 in
  let? session_id := column_id session_id in
  let? summary := get_text row 1 in
  let? compacted_message_count :=
    column_usize compacted_message_count $"stored compacted message count is negative or too large" in
  let? updated_at := column_time updated_at in
  Ok (mkContextCompaction session_id summary compacted_message_count updated_at).

Definition row_to_context_window (row : SqlRow) : result ContextWindow RowError :=
  let? session_id := get_text row 0 in
  let? window_index := get_int row 1 in
  let? start_message_count := get_int row 2 in
  let? created_at := get_text row 3 in
  let? session_id := column_id session_id in
  let? window_index := column_usize window_index $"stored context window index is negative or too large" in
  let? start_message_count :=
    column_usize start_message_count $"stored context window boundary is negative or too large" in
  let? created_at := column_time created_at in
  Ok (mkContextWindow session_id window_index start_message_count created_at).

Definition row_to_local_memory (row : SqlRow) : result LocalMemory RowError :=
  let? id := get_text row 0 in
  let? created_at := get_text row 3 in
  let? id := column_id id in
  let? workspace_root := get_text row 1 in
  let? content := get_text row 2 in
  let? created_at := column_time created_at in
  Ok (mkLocalMemory id workspace_root content created_at).

(** [rows.collect::<Result<Vec<_>, _>>()] *)
Fixpoint collect_rows {A} (decode : SqlRow -> result A RowError) (rows : list SqlRow)
    : result (list A) RowError :=
  match rows with
  | [] => Ok []
  | row :: rest =>
    let? a := decode row in
    let? l := collect_rows decode rest in
    Ok (a :: l)
  end.

(** ** Writing: the parameters of the [INSERT] statements *)

Definition id_column (i : uuid) : SqlValue := TextValue (uuid_text i).
Definition time_column (t : timestamp) : SqlValue := TextValue (to_rfc3339 t).
Definition json_column {A} `{Json A} (a : A) : SqlValue := TextValue (to_json a).

Definition session_row (s : Session) : SqlRow :=
  [id_column (s_id s); TextValue (s_workspace_root s); json_column (s_mode s); TextValue (s_provider s);
   TextValue (s_model s); json_column (s_status s); time_column (s_created_at s);
   time_column (s_updated_at s); opt_text (s_title s)].
Definition message_row (m : Message) : SqlRow :=
  [id_column (m_id m); id_column (m_session_id m); json_column (m_role m); TextValue (m_content m);
   time_column (m_created_at m)].
Definition pending_action_row (a : PendingAction) : SqlRow :=
  [id_column (pa_id a); id_column (pa_session_id a); json_column (pa_tool_call a);
   json_column (pa_status a); time_column (pa_created_at a);
   match pa_resolved_at a with Some t => time_column t | None => Null end].
Definition restore_point_row (p : RestorePoint) : SqlRow :=
  [id_column (rp_id p); id_column (rp_session_id p); TextValue (rp_path p);
   opt_text (rp_original_text p); opt_text (rp_applied_text p); time_column (rp_created_at p)].
Definition event_row (e : PersistedSessionEvent) : SqlRow :=
  [id_column (pe_id e); id_column (pe_session_id e); json_column (pe_event e); time_column (pe_created_at e)].
Definition follow_up_row (q : FollowUpQueueEntry) : SqlRow :=
  [id_column (fq_id q); id_column (fq_session_id q); TextValue (fq_text q); json_column (fq_images q);
   json_column (fq_text_files q); TextValue (follow_up_status_key (fq_status q));
   time_column (fq_created_at q); time_column (fq_updated_at q)].
(** The lists of commands are not stored. *)
Definition workspace_config_row (c : WorkspaceConfig) : SqlRow :=
  [TextValue (wc_workspace_root c); json_column (wc_mode c); TextValue (wc_provider c);
   TextValue (wc_model c); time_column (wc_updated_at c)].
Definition context_compaction_row (c : ContextCompaction) : SqlRow :=
  [id_column (cc_session_id c); TextValue (cc_summary c); Integer (as_i64 (cc_compacted_message_count c));
   time_column (cc_updated_at c)].
Definition context_window_row (w : ContextWindow) : SqlRow :=
  [id_column (cw_session_id w); Integer (as_i64 (cw_window_index w));
   Integer (as_i64 (cw_start_message_count w)); time_column (cw_created_at w)].
Definition local_memory_row (m : LocalMemory) : SqlRow :=
  [id_column (lm_id m); TextValue (lm_workspace_root m); TextValue (lm_content m); time_column (lm_created_at m)].
End Rows.

(** ** The schema *)

(** A table: its columns and its rows, which have a value for each. *)
Record Table := mkTable { tb_name : str; tb_columns : list str; tb_rows : list (list SqlValue) }.
Definition Schema : Type := list Table.

Definition has_table (name : str) (s : Schema) : bool := existsb (fun t => tb_name t =s name) s.

(** [CREATE TABLE IF NOT EXISTS] *)
Definition create_table (name : str) (columns : list str) (s : Schema) : Schema :=
  if has_table name s then s else s ++ [mkTable name columns []].

(** [PRAGMA table_info] and [ALTER TABLE ADD COLUMN]: old rows hold [NULL] in the new column. *)
Definition add_column (column : str) (t : Table) : Table :=
  mkTable (tb_name t) (tb_columns t ++ [column]) (map (fun row => row ++ [Null]) (tb_rows t)).
Definition ensure_column (table column : str) (s : Schema) : Schema :=
  map (fun t =>
    if (tb_name t =s table) && negb (existsb (str_eqb column) (tb_columns t)) then add_column column t else t) s.

Definition TABLES : list (str * list str) :=
  [($"sessions", [$"id"; $"workspace_root"; $"mode"; $"provider"; $"model"; $"status"; $"created_at";
                  $"updated_at"; $"title"]);
   ($"messages", [$"id"; $"session_id"; $"role"; $"content"; $"created_at"]);
   ($"pending_actions", [$"id"; $"session_id"; $"tool_call"; $"status"; $"created_at"; $"resolved_at"]);
   ($"restore_points", [$"id"; $"session_id"; $"path"; $"original_text"; $"applied_text"; $"created_at"]);
   ($"session_events", [$"id"; $"session_id"; $"event"; $"created_at"]);
   ($"follow_up_queue", [$"id"; $"session_id"; $"text"; $"images"; $"text_files"; $"status"; $"created_at";
                         $"updated_at"]);
   ($"workspace_configs", [$"workspace_root"; $"mode"; $"provider"; $"model"; $"updated_at"]);
   ($"context_compactions", [$"session_id"; $"summary"; $"compacted_message_count"; $"updated_at"]);
   ($"context_windows", [$"session_id"; $"window_index"; $"start_message_count"; $"created_at"]);
   ($"local_memories", [$"id"; $"workspace_root"; $"content"; $"created_at"]);
   ($"vision_descriptions", [$"cache_key"; $"description"; $"updated_at"])].
Definition ATTACHMENT_COLUMNS : list str := [$"message_id"; $"session_id"; $"relative_path"; $"byte_length"].

Definition create_tables (tables : list (str * list str)) (s : Schema) : Schema :=
  foldl (fun s '(name, columns) => create_table name columns s) s tables.

Definition migrate (s : Schema) : Schema :=
  let s := create_tables TABLES s in
  let s := create_table $"tool_output_attachments" ATTACHMENT_COLUMNS s in
  let s := ensure_column $"restore_points" $"applied_text" s in
  let s := ensure_column $"vision_descriptions" $"delegate_model" s in
  let s := ensure_column $"vision_descriptions" $"session_id" s in
  let s := create_table $"vision_routes" [$"route_key"; $"status"; $"updated_at"] s in
  create_table $"tool_output_attachments" ATTACHMENT_COLUMNS s.

(** ** Facts about rows *)

(** The times that RFC 3339 can write: the years 0 to 9999, in nanoseconds. *)
Definition writable_time (t : timestamp) : Prop :=
  (-62167219200000000000 <= t < 253402300800000000000)%Z.

Definition reads_back {A} `{Json A} (a : A) : Prop := from_json (to_json a) = Ok a.

(** What the columns rely on: identifiers, times and names are read as they were written. *)
Class ColumnCodecOk (En : Env) (Co : ColumnCodec) : Prop := {
  parse_id_text : forall i, parse_id (uuid_text i) = Ok i;
  parse_rfc3339_text : forall t, writable_time t -> parse_rfc3339 (to_rfc3339 t) = Ok t;
  mode_reads_back : forall a : Mode, reads_back a;
  session_status_reads_back : forall a : SessionStatus, reads_back a;
  role_reads_back : forall a : MessageRole, reads_back a;
  action_status_reads_back : forall a : PendingActionStatus, reads_back a;
}.

Lemma as_i64_small n : (Z.of_nat n < 9223372036854775808)%Z -> as_i64 n = Z.of_nat n.
Proof.
  intros H. unfold as_i64. rewrite Z.mod_small by lia. by rewrite (proj2 (Z.ltb_lt _ _)) by lia.
Qed.

Lemma as_i64_negative n :
  (9223372036854775808 <= Z.of_nat n < 18446744073709551616)%Z -> (as_i64 n < 0)%Z.
Proof.
  intros H. unfold as_i64. rewrite Z.mod_small by lia. rewrite (proj2 (Z.ltb_ge _ _)) by lia. lia.
Qed.

Lemma follow_up_status_key_spec value status :
  follow_up_status_from_key value = Some status <-> value = follow_up_status_key status.
Proof.
  unfold follow_up_status_from_key. split.
  - destruct (value =s $"queued") eqn:E1; [apply str_eqb_true in E1; by intros [= <-]|].
    destruct (value =s $"not_started") eqn:E2; [apply str_eqb_true in E2; by intros [= <-]|].
    destruct (value =s $"cancelled") eqn:E3; [apply str_eqb_true in E3; by intros [= <-]|done].
  - intros ->. by destruct status.
Qed.

Section Facts.
Context {En : Env} {Co : ColumnCodec}.

Lemma collect_rows_app {A} (decode : list SqlValue -> result A RowError) rows rows' :
  collect_rows decode (rows ++ rows')
  = (let? l := collect_rows decode rows in let? l' := collect_rows decode rows' in Ok (l ++ l')).
Proof.
  induction rows as [|row rows IH]; cbn; [by destruct (collect_rows decode rows')|].
  destruct (decode row); [|done]. cbn. rewrite IH. destruct (collect_rows decode rows); [|done]. cbn.
  by destruct (collect_rows decode rows').
Qed.

Lemma collect_rows_map {A} (decode : list SqlValue -> result A RowError) (row : A -> list SqlValue) (g : A -> A) l :
  (forall a, a ∈ l -> decode (row a) = Ok (g a)) -> collect_rows decode (map row l) = Ok (map g l).
Proof.
  induction l as [|a l IH]; intros H; [done|]. cbn. rewrite H by left. cbn. rewrite IH; [done|].
  intros b Hb. apply H. by right.
Qed.

(** A query that decodes its rows fails exactly when one of them cannot be read, with the
    error of the first that cannot. *)
Theorem unreadable_row_stops_query {A} (decode : list SqlValue -> result A RowError) rows e :
  collect_rows decode rows = Err e <->
  exists before row after, rows = before ++ row :: after
    /\ Forall (fun r => is_ok (decode r) = true) before /\ decode row = Err e.
Proof.
  split.
  - induction rows as [|row rows IH]; [done|]. cbn. destruct (decode row) as [a|e'] eqn:E; cbn.
    + destruct (collect_rows decode rows) as [l|e'']; [done|]. intros [= ->].
      destruct (IH eq_refl) as (before & r & after & -> & Hb & He).
      exists (row :: before), r, after. split_and!; [done| |done]. constructor; [by rewrite E|done].
    + intros [= ->]. by exists [], row, rows.
  - intros (before & row & after & -> & Hb & He). rewrite collect_rows_app.
    assert (exists l, collect_rows decode before = Ok l) as [l ->].
    { induction Hb as [|r before Hr _ [l IH]]; [by exists []|]. cbn. destruct (decode r) as [a|]; [|done].
      cbn. rewrite IH. by eexists. }
    cbn. by rewrite He.
Qed.

(** A row of [messages] is read as a message exactly when its columns are texts of which the
    identifiers, the role and the time parse to those of the message. *)
Theorem row_to_message_spec row m :
  row_to_message row = Ok m <->
  exists id session_id role created_at rest,
    row = TextValue id :: TextValue session_id :: TextValue role :: TextValue (m_content m)
          :: TextValue created_at :: rest
    /\ parse_id id = Ok (m_id m) /\ parse_id session_id = Ok (m_session_id m)
    /\ from_json role = Ok (m_role m) /\ parse_rfc3339 created_at = Ok (m_created_at m).
Proof.
  unfold row_to_message, get_text, column_id, column_json, column_time, parse. split.
  - destruct row as [|[| |id] [|[| |sid] [|[| |role] [|content [|[| |created] row]]]]]; cbn; try done.
    destruct (parse_id id) as [i|] eqn:Ei; [cbn|done]. destruct (parse_id sid) as [j|] eqn:Ej; [cbn|done].
    destruct (from_json role) as [r|] eqn:Er; [cbn|done]. destruct content as [| |content]; [done..|]. cbn.
    destruct (parse_rfc3339 created) as [t|] eqn:Et; [cbn|done]. intros [= <-].
    by exists id, sid, role, created, row.
  - intros (id & sid & role & created & rest & -> & Hi & Hs & Hr & Ht). cbn. rewrite Hi, Hs. cbn.
    rewrite Hr. cbn. rewrite Ht. by destruct m.
Qed.

Context {Ok_ : ColumnCodecOk En Co}.

(** What a table can hold: times of four digits, counts of 63 bits, and values whose JSON
    text [serde_json] reads back. *)
Record readable (d : Db) : Prop := {
  rd_sessions s : s ∈ sessions d -> writable_time (s_created_at s) /\ writable_time (s_updated_at s);
  rd_messages m : m ∈ messages d -> writable_time (m_created_at m);
  rd_actions a : a ∈ pending_actions d ->
    writable_time (pa_created_at a) /\ (forall t, pa_resolved_at a = Some t -> writable_time t)
    /\ reads_back (pa_tool_call a);
  rd_restore_points p : p ∈ restore_points d -> writable_time (rp_created_at p);
  rd_events e : e ∈ session_events d -> writable_time (pe_created_at e) /\ reads_back (pe_event e);
  rd_follow_ups q : q ∈ follow_up_queue d ->
    writable_time (fq_created_at q) /\ writable_time (fq_updated_at q)
    /\ reads_back (fq_images q) /\ reads_back (fq_text_files q);
  rd_configs c : c ∈ workspace_configs d -> writable_time (wc_updated_at c);
  rd_compactions c : c ∈ context_compactions d ->
    writable_time (cc_updated_at c) /\ (Z.of_nat (cc_compacted_message_count c) < 9223372036854775808)%Z;
  rd_windows w : w ∈ context_windows d ->
    writable_time (cw_created_at w) /\ (Z.of_nat (cw_window_index w) < 9223372036854775808)%Z
    /\ (Z.of_nat (cw_start_message_count w) < 9223372036854775808)%Z;
  rd_memories m : m ∈ local_memories d -> writable_time (lm_created_at m);
}.

Lemma column_id_text i : column_id (uuid_text i) = Ok i.
Proof. unfold column_id. by rewrite (parse_id_text (ColumnCodecOk := Ok_)). Qed.
Lemma column_time_text t : writable_time t -> column_time (to_rfc3339 t) = Ok t.
Proof. intros H. unfold column_time. by rewrite (parse_rfc3339_text (ColumnCodecOk := Ok_)). Qed.
Lemma column_json_text {A} `{Json A} (a : A) : reads_back a -> column_json (to_json a) = Ok a.
Proof. intros R. unfold column_json. by rewrite R. Qed.
Lemma column_usize_text n m :
  (Z.of_nat n < 9223372036854775808)%Z -> column_usize (as_i64 n) m = Ok n.
Proof.
  intros H. rewrite as_i64_small by done. unfold column_usize.
  rewrite (proj2 (Z.ltb_ge _ _)) by lia. by rewrite Nat2Z.id.
Qed.
Lemma get_opt_text_text row i s : row !! i = Some (opt_text s) -> get_opt_text row i = Ok s.
Proof. unfold get_opt_text, get_text. intros ->. by destruct s. Qed.

#[local] Arguments get_opt_text : simpl never.
Ltac read_column :=
  first [ rewrite column_id_text | rewrite column_time_text by done
        | rewrite column_json_text
            by first [done | apply mode_reads_back | apply session_status_reads_back
                     | apply role_reads_back | apply action_status_reads_back]
        | rewrite column_usize_text by done
        | erewrite get_opt_text_text by reflexivity ].
Ltac read_row := cbn; repeat (read_column; cbn).

Lemma session_reads_back s :
  writable_time (s_created_at s) -> writable_time (s_updated_at s) -> row_to_session (session_row s) = Ok s.
Proof. intros. unfold row_to_session. read_row. by destruct s. Qed.
Lemma message_reads_back m : writable_time (m_created_at m) -> row_to_message (message_row m) = Ok m.
Proof. intros. unfold row_to_message. read_row. by destruct m. Qed.
Lemma pending_action_reads_back a :
  writable_time (pa_created_at a) -> (forall t, pa_resolved_at a = Some t -> writable_time t) ->
  reads_back (pa_tool_call a) -> row_to_pending_action (pending_action_row a) = Ok a.
Proof.
  intros ? Hr ?. unfold row_to_pending_action. destruct a as [i j c s t [r|]]; cbn in *; read_row; [|done].
  unfold get_opt_text. read_row. by rewrite column_time_text by auto.
Qed.
Lemma restore_point_reads_back p :
  writable_time (rp_created_at p) -> row_to_restore_point (restore_point_row p) = Ok p.
Proof. intros. unfold row_to_restore_point. read_row. by destruct p. Qed.
Lemma event_reads_back e :
  writable_time (pe_created_at e) -> reads_back (pe_event e) -> row_to_event (event_row e) = Ok e.
Proof. intros. unfold row_to_event. read_row. by destruct e. Qed.
Lemma follow_up_reads_back q :
  writable_time (fq_created_at q) -> writable_time (fq_updated_at q) ->
  reads_back (fq_images q) -> reads_back (fq_text_files q) ->
  row_to_follow_up_queue_entry (follow_up_row q) = Ok q.
Proof.
  intros. unfold row_to_follow_up_queue_entry. read_row.
  rewrite (proj2 (follow_up_status_key_spec _ _) eq_refl). read_row. by destruct q.
Qed.
Lemma workspace_config_reads_back c : writable_time (wc_updated_at c) ->
  row_to_workspace_config (workspace_config_row c)
  = Ok (mkWorkspaceConfig (wc_workspace_root c) (wc_mode c) (wc_provider c) (wc_model c) [] [] (wc_updated_at c)).
Proof. intros. unfold row_to_workspace_config. by read_row. Qed.
Lemma context_window_reads_back w :
  writable_time (cw_created_at w) -> (Z.of_nat (cw_window_index w) < 9223372036854775808)%Z ->
  (Z.of_nat (cw_start_message_count w) < 9223372036854775808)%Z ->
  row_to_context_window (context_window_row w) = Ok w.
Proof. intros. unfold row_to_context_window. read_row. by destruct w. Qed.
Lemma local_memory_reads_back m :
  writable_time (lm_created_at m) -> row_to_local_memory (local_memory_row m) = Ok m.
Proof. intros. unfold row_to_local_memory. read_row. by destruct m. Qed.

(** A compaction is read back exactly when its count fits into 63 bits: a larger one is
    written as a negative number, which is refused. *)
Lemma compaction_reads_back c :
  writable_time (cc_updated_at c) -> (Z.of_nat (cc_compacted_message_count c) < 18446744073709551616)%Z ->
  row_to_context_compaction (context_compaction_row c) = Ok c
  <-> (Z.of_nat (cc_compacted_message_count c) < 9223372036854775808)%Z.
Proof.
  intros Ht Hc. split; unfold row_to_context_compaction.
  - read_row. unfold column_usize. intros H. apply Z.nle_gt. intros Hn.
    pose proof (as_i64_negative (cc_compacted_message_count c) ltac:(lia)) as Hneg.
    by rewrite (proj2 (Z.ltb_lt _ _) Hneg) in H.
  - intros Hs. read_row. by destruct c.
Qed.
(** The configuration that a row keeps: the lists of commands are elsewhere. *)
Definition stored_config (c : WorkspaceConfig) : WorkspaceConfig :=
  mkWorkspaceConfig (wc_workspace_root c) (wc_mode c) (wc_provider c) (wc_model c) [] [] (wc_updated_at c).

End Facts.

(** ** Facts about the schema *)

Lemma has_table_create name columns s n :
  has_table n (create_table name columns s) = has_table n s || (name =s n).
Proof.
  unfold create_table. destruct (has_table name s) eqn:E.
  - destruct (name =s n) eqn:En; [|by rewrite orb_false_r].
    apply str_eqb_true in En as <-. by rewrite E.
  - unfold has_table. rewrite existsb_app. cbn. by rewrite orb_false_r.
Qed.

Lemma create_table_present name columns s : has_table name s = true -> create_table name columns s = s.
Proof. unfold create_table. by intros ->. Qed.

Lemma has_table_ensure t c s n : has_table n (ensure_column t c s) = has_table n s.
Proof.
  unfold has_table, ensure_column. induction s as [|x s IH]; [done|]. cbn. rewrite IH. by destruct (_ && _).
Qed.

Lemma has_table_create_tables tables s n :
  has_table n (create_tables tables s) = has_table n s || existsb (fun t => fst t =s n) tables.
Proof.
  unfold create_tables. revert s. induction tables as [|[name columns] tables IH]; intros s.
  - cbn. by rewrite orb_false_r.
  - cbn [foldl existsb fst]. by rewrite IH, has_table_create, orb_assoc.
Qed.

Lemma create_tables_present tables s :
  (forall t, t ∈ tables -> has_table (fst t) s = true) -> create_tables tables s = s.
Proof.
  unfold create_tables. revert s. induction tables as [|[name columns] tables IH]; intros s H; [done|]. cbn [foldl].
  rewrite create_table_present by (apply (H (name, columns)); left). apply IH. intros t Ht. apply H. by right.
Qed.

(** A table as it was before, with columns added at the end, which are [NULL] in its rows. *)
Definition extends (t t' : Table) : Prop :=
  exists added, t' = mkTable (tb_name t) (tb_columns t ++ added)
                       (map (fun row => row ++ repeat Null (length added)) (tb_rows t)).

Lemma extends_refl t : extends t t.
Proof.
  exists []. cbn. rewrite app_nil_r. rewrite (map_ext _ id) by (intros; apply app_nil_r). rewrite map_id. by destruct t.
Qed.
Lemma extends_add t t' column : extends t t' -> extends t (add_column column t').
Proof.
  intros [added ->]. exists (added ++ [column]). unfold add_column. cbn.
  rewrite length_app, map_map, <- app_assoc. cbn. f_equal. apply map_ext. intros row.
  by rewrite repeat_app, app_assoc.
Qed.

Definition grows (s s' : Schema) : Prop := exists kept new, s' = kept ++ new /\ Forall2 extends s kept.
Lemma grows_create name columns s s' : grows s s' -> grows s (create_table name columns s').
Proof.
  intros (kept & new & -> & H). unfold create_table. destruct (has_table _ _); [by exists kept, new|].
  exists kept, (new ++ [mkTable name columns []]). by rewrite app_assoc.
Qed.
Lemma grows_ensure table column s s' : grows s s' -> grows s (ensure_column table column s').
Proof.
  intros (kept & new & -> & H). unfold ensure_column. rewrite map_app. eexists _, _. split; [done|].
  induction H as [|t t' s kept Ht H IH]; constructor; [|done].
  destruct (_ && _); [by apply extends_add|done].
Qed.
Lemma grows_create_tables tables s s' : grows s s' -> grows s (create_tables tables s').
Proof.
  unfold create_tables. revert s'. induction tables as [|[name columns] tables IH]; intros s' H; [done|]. cbn [foldl].
  by apply IH, grows_create.
Qed.

(** [migrate] keeps every table with its rows, in order; it appends new columns, which hold
    [NULL] in the old rows, and new tables. *)
Lemma migrate_grows s : grows s (migrate s).
Proof.
  unfold migrate. repeat first [apply grows_create | apply grows_ensure | apply grows_create_tables].
  exists s, []. rewrite app_nil_r. split; [done|]. induction s; constructor; [apply extends_refl|done].
Qed.

(** The columns that the statements of the store name, and those that releases added. *)
Definition ADDED : list (str * str) :=
  [($"restore_points", $"applied_text"); ($"vision_descriptions", $"delegate_model");
   ($"vision_descriptions", $"session_id")].
Definition COLUMNS : list (str * list str) :=
  map (fun '(name, columns) =>
         (name, columns ++ if name =s $"vision_descriptions" then [$"delegate_model"; $"session_id"] else []))
    TABLES
  ++ [($"tool_output_attachments", ATTACHMENT_COLUMNS);
      ($"vision_routes", [$"route_key"; $"status"; $"updated_at"])].

Definition has_column (name column : str) (s : Schema) : Prop :=
  Forall (fun t => tb_name t = name -> column ∈ tb_columns t) s.

Lemma has_column_create n c name columns s :
  (name = n -> c ∈ columns) -> has_column n c s -> has_column n c (create_table name columns s).
Proof.
  intros Hn H. unfold create_table. destruct (has_table _ _); [done|]. apply Forall_app. split; [done|].
  by constructor.
Qed.
Lemma has_column_create_tables n c tables s :
  (forall t, t ∈ tables -> fst t = n -> c ∈ snd t) -> has_column n c s -> has_column n c (create_tables tables s).
Proof.
  unfold create_tables. revert s. induction tables as [|[name columns] tables IH]; intros s Hn H; [done|]. cbn [foldl].
  apply IH; [intros t Ht; apply Hn; by right|]. apply has_column_create; [|done]. apply (Hn (name, columns)). left.
Qed.
Lemma has_column_ensure n c table column s : has_column n c s -> has_column n c (ensure_column table column s).
Proof.
  unfold has_column, ensure_column. rewrite Forall_map. intros H.
  eapply Forall_impl; [exact H|]. intros t Ht. cbn.
  destruct (_ && _); [|done]. cbn. intros Hn. apply elem_of_app. left. by apply Ht.
Qed.
Lemma has_column_ensured table column s : has_column table column (ensure_column table column s).
Proof.
  unfold has_column, ensure_column. rewrite Forall_map. apply Forall_true. intros t. cbn.
  destruct (tb_name t =s table) eqn:En; cbn.
  - destruct (existsb _ _) eqn:Ec; cbn; intros _.
    + apply existsb_exists in Ec as (x & Hx & He). apply str_eqb_true in He as ->. by apply list_elem_of_In.
    + apply elem_of_app. right. by left.
  - intros <-. by rewrite str_eqb_refl in En.
Qed.
Lemma ensure_column_present table column s : has_column table column s -> ensure_column table column s = s.
Proof.
  intros H. unfold ensure_column. rewrite (map_ext_in _ id); [apply map_id|]. intros t Ht.
  destruct (tb_name t =s table) eqn:En; [|done]. apply str_eqb_true in En. cbn.
  assert (existsb (str_eqb column) (tb_columns t) = true) as ->; [|done].
  apply existsb_exists. exists column. split; [|apply str_eqb_refl]. apply list_elem_of_In.
  by apply (proj1 (Forall_forall _ _) H t); [apply list_elem_of_In|].
Qed.

Definition NAMES : list str := map fst TABLES ++ [$"tool_output_attachments"; $"vision_routes"].

Lemma migrate_tables s n : n ∈ NAMES -> has_table n (migrate s) = true.
Proof.
  intros H. unfold migrate.
  rewrite !has_table_create, !has_table_ensure, has_table_create, has_table_create_tables.
  unfold NAMES in H. apply elem_of_app in H as [H|H].
  - assert (existsb (fun t => fst t =s n) TABLES = true) as ->; [|by rewrite !orb_true_r].
    apply list_elem_of_In, in_map_iff in H as (t & <- & Ht). apply existsb_exists. exists t.
    split; [done|apply str_eqb_refl].
  - apply elem_of_cons in H as [->|H]; [by rewrite (str_eqb_refl $"tool_output_attachments"), !orb_true_r|].
    apply list_elem_of_singleton in H as ->. by rewrite (str_eqb_refl $"vision_routes"), !orb_true_r.
Qed.

Lemma migrate_columns s n c : (n, c) ∈ ADDED -> has_column n c (migrate s).
Proof.
  intros H. unfold migrate.
  repeat match goal with |- has_column _ _ (create_table _ _ _) =>
    apply has_column_create; [intros <-; by repeat (apply elem_of_cons in H as [[=]|H]); apply not_elem_of_nil in H|] end.
  repeat (apply elem_of_cons in H as [[= -> ->]|H]); [| | |by apply not_elem_of_nil in H].
  - do 2 apply has_column_ensure. apply has_column_ensured.
  - apply has_column_ensure, has_column_ensured.
  - apply has_column_ensured.
Qed.

(** Opening a database a second time changes nothing. *)
Theorem migrate_idempotent s : migrate (migrate s) = migrate s.
Proof.
  pose proof (migrate_tables s) as Ht. pose proof (migrate_columns s) as Hc.
  remember (migrate s) as s' eqn:E. clear E. unfold migrate.
  rewrite create_tables_present.
  2:{ intros t H. apply Ht. apply elem_of_app. left. by apply list_elem_of_fmap_2. }
  rewrite (create_table_present $"tool_output_attachments" _ s') by (apply Ht, elem_of_app; right; left).
  rewrite (ensure_column_present _ _ s') by (apply Hc; left).
  rewrite (ensure_column_present _ _ s') by (apply Hc; right; left).
  rewrite (ensure_column_present _ _ s') by (apply Hc; right; right; left).
  rewrite (create_table_present $"vision_routes" _ s') by (apply Ht, elem_of_app; right; right; left).
  by rewrite create_table_present by (apply Ht, elem_of_app; right; left).
Qed.

(** A database of an earlier release: a table that it has lacks at most the columns that
    later releases added. *)
Definition released (s : Schema) : Prop :=
  forall name columns c, (name, columns) ∈ COLUMNS -> c ∈ columns -> (name, c) ∉ ADDED -> has_column name c s.

Definition created_columns (name c : str) : bool :=
  forallb (fun t => negb (fst t =s name) || one_of c (snd t))
    (TABLES ++ [($"tool_output_attachments", ATTACHMENT_COLUMNS);
                ($"vision_routes", [$"route_key"; $"status"; $"updated_at"])]).
Lemma created_columns_all :
  forallb (fun '(name, columns) =>
    forallb (fun c => existsb (fun a => (fst a =s name) && (snd a =s c)) ADDED || created_columns name c) columns)
    COLUMNS = true.
Proof. by vm_compute. Qed.

Lemma created_column name columns c :
  (name, columns) ∈ COLUMNS -> c ∈ columns -> (name, c) ∉ ADDED -> created_columns name c = true.
Proof.
  intros Hn Hc Ha. pose proof created_columns_all as H. rewrite forallb_forall in H.
  specialize (H _ (proj1 (list_elem_of_In _ _) Hn)). cbv beta iota in H. rewrite forallb_forall in H.
  specialize (H _ (proj1 (list_elem_of_In _ _) Hc)). apply orb_true_iff in H as [H|H]; [|done].
  apply existsb_exists in H as ([n' c'] & Hin & He). apply andb_true_iff in He as [E1 E2].
  apply str_eqb_true in E1, E2. cbn in E1, E2. subst. exfalso. by apply Ha, list_elem_of_In.
Qed.

Lemma created_columns_spec name c n columns :
  created_columns name c = true ->
  (n, columns) ∈ TABLES ++ [($"tool_output_attachments", ATTACHMENT_COLUMNS);
                 ($"vision_routes", [$"route_key"; $"status"; $"updated_at"])] ->
  n = name -> c ∈ columns.
Proof.
  unfold created_columns. rewrite forallb_forall. intros H Ht <-.
  specialize (H (n, columns) (proj1 (list_elem_of_In _ _) Ht)). cbn [fst snd] in H. rewrite str_eqb_refl in H. cbn [negb orb] in H.
  apply existsb_exists in H as (x & Hx & He). apply str_eqb_true in He as ->. by apply list_elem_of_In.
Qed.

(** after [migrate] a database of any release, or an empty one, has every table and
    column that the statements of the store name; rows and columns that it had stay. *)
Theorem migrate_completes s :
  released s ->
  (forall name columns, (name, columns) ∈ COLUMNS ->
     has_table name (migrate s) = true /\ forall c, c ∈ columns -> has_column name c (migrate s))
  /\ grows s (migrate s).
Proof.
  intros Hs. split; [|apply migrate_grows]. intros name columns Hn. split.
  - apply migrate_tables. change NAMES with (map fst COLUMNS).
    change name with (fst (name, columns)). by apply list_elem_of_fmap_2.
  - intros c Hc. destruct (decide ((name, c) ∈ ADDED)) as [Ha|Ha]; [by apply migrate_columns|].
    pose proof (created_column _ _ _ Hn Hc Ha) as Hk. pose proof (created_columns_spec name c) as Hs'.
    unfold migrate. apply has_column_create; [|apply has_column_create; [|do 3 apply has_column_ensure;
      apply has_column_create; [|apply has_column_create_tables; [|by eapply Hs]]]].
    + apply Hs'; [done|apply elem_of_app; right; left].
    + apply Hs'; [done|apply elem_of_app; right; right; left].
    + apply Hs'; [done|apply elem_of_app; right; left].
    + intros [n cs] Ht. apply Hs'; [done|]. apply elem_of_app. by left.
Qed.

(** ** Examples *)

Section Example.
#[local] Instance row_env : Env := counter_env true.

Definition enum_json {A} (number : A -> N) (of_number : N -> option A) : Json A := {|
  to_json a := [number a];
  from_json s := match s with [n] => match of_number n with Some a => Ok a | None => Err [] end | _ => Err [] end;
|}.
Definition no_json {A} : Json A := {| to_json _ := []; from_json _ := Err [] |}.

#[local] Instance letters : ColumnCodec := {|
  parse_id s := match s with [u] => Ok u | _ => Err [] end;
  to_rfc3339 t := [if (t <? 0)%Z then 1%N else 0%N; Z.abs_N t];
  parse_rfc3339 s :=
    match s with [0%N; n] => Ok (Z.of_N n) | [_; n] => Ok (- Z.of_N n)%Z | _ => Err [] end;
  mode_json := enum_json (fun m => match m with Ask => 0 | AutoEdit => 1 | FullAuto => 2 end)%N
    (fun n => match n with 0%N => Some Ask | 1%N => Some AutoEdit | 2%N => Some FullAuto | _ => None end);
  session_status_json := enum_json
    (fun s => match s with Created => 0 | Running => 1 | NeedUser => 2 | Done => 3 | Failed => 4 | Cancelled => 5 end)%N
    (fun n => match n with 0%N => Some Created | 1%N => Some Running | 2%N => Some NeedUser | 3%N => Some Done
                      | 4%N => Some Failed | 5%N => Some Cancelled | _ => None end);
  role_json := enum_json (fun r => match r with System => 0 | User => 1 | Assistant => 2 | Tool => 3 end)%N
    (fun n => match n with 0%N => Some System | 1%N => Some User | 2%N => Some Assistant | 3%N => Some Tool
                      | _ => None end);
  action_status_json := enum_json (fun s => match s with Pending => 0 | Approved => 1 | Rejected => 2 end)%N
    (fun n => match n with 0%N => Some Pending | 1%N => Some Approved | 2%N => Some Rejected | _ => None end);
  tool_call_json := no_json; images_json := no_json; text_files_json := no_json; event_json := no_json;
|}.

#[local] Instance letters_ok : ColumnCodecOk row_env letters.
Proof.
  split; by intros [].
Qed.

Definition small_tables : Db :=
  set_sessions [mkSession 1 $"/w" AutoEdit $"openai" $"m" Running 5 7 None]
    (set_messages [mkMessage 2 1 User $"hello" 5; mkMessage 3 1 Assistant [] 6]
       (set_context_compactions [mkContextCompaction 1 $"summary" 1 7] empty_db)).


(** Restore points as the first release kept them. *)
Definition first_release : Schema :=
  [mkTable $"restore_points" [$"id"; $"session_id"; $"path"; $"original_text"; $"created_at"]
     [[TextValue $"i"; TextValue $"s"; TextValue $"p"; Null; TextValue $"t"]]].

Lemma migrate_completes_witness :
  has_table $"vision_routes" (migrate first_release) = true /\ grows first_release (migrate first_release).
Proof.
  destruct (migrate_completes first_release) as [H G].
  - intros name columns c Hn Hc Ha. constructor; [|constructor]. cbn. intros <-.
    unfold COLUMNS in Hn. cbn in Hn.
    repeat (apply elem_of_cons in Hn as [[=]|Hn]); subst; [|by apply not_elem_of_nil in Hn].
    repeat (apply elem_of_cons in Hc as [->|Hc]); try set_solver.
  - split; [|exact G]. refine (proj1 (H _ [$"route_key"; $"status"; $"updated_at"] _)).
    unfold COLUMNS. apply elem_of_app. right. right. left.
Defined.
End Example.
