(* ===== verification/ProviderWire.v ===== *)
(** * Requests of the model providers (crates/xcoding-providers/src/lib.rs)

    The JSON body of a request in the three wire formats: chat completions,
    responses, and Anthropic messages. *)

From S2P Require Import Prelude.
From S2P Require Import Protocol.
From S2P Require Import Routing.
From S2P Require Import Transcript.
From S2P Require Import Text.
From S2P Require Import ToolArgs.
From S2P Require Import Compression.

(** ** JSON objects

    [serde_json::Map] is a [BTreeMap]: the fields are in the order of their keys. *)

Definition insert_all (fields m : list (list N * Value)) : list (list N * Value) :=
  foldl (fun m kv => btree_insert (fst kv) (snd kv) m) m fields.
Definition json (fields : list (list N * Value)) : Value := JObject (insert_all fields []).

(** [body["key"] = value] on an object *)
Definition set_field (key : str) (value : Value) (body : Value) : Value :=
  match body with
  | JObject fields => JObject (btree_insert key value fields)
  | _ => body
  end.

(** [Value::pointer] with names only *)
Fixpoint pointer (path : list str) (v : Value) : option Value :=
  match path with
  | [] => Some v
  | key :: r => json_get key v ≫= pointer r
  end.

Definition non_blank (o : option str) : option str :=
  match trim <$> o with
  | Some value => if is_empty value then None else Some value
  | None => None
  end.

Definition BLANK_LINE : str := [LF; LF].

(** ** Messages *)

(** The fields that the derived [Serialize] writes; an absent option is skipped. *)
Definition part_json (part : ChatContentPart) : Value :=
  match part with
  | PartText text => json [($"type", JString $"text"); ($"text", JString text)]
  | PartImageUrl url =>
    json [($"type", JString $"image_url"); ($"image_url", json [($"url", JString url)])]
  end.
Definition content_json (content : ChatMessageContent) : Value :=
  match content with
  | ContentText text => JString text
  | ContentParts parts => JArray (map part_json parts)
  end.
Definition call_json (call : ProviderToolCall) : Value :=
  json [($"id", JString (ptc_id call)); ($"type", JString (ptc_kind call));
        ($"function", json [($"name", JString (ptc_name call));
                            ($"arguments", JString (ptc_arguments call))])].
Definition message_json (m : ChatMessage) : Value :=
  let optional key (o : option Value) := match o with Some v => [(key, v)] | None => [] end in
  json ([($"role", JString (cm_role m))]
        ++ optional $"content" (content_json <$> cm_content m)
        ++ optional $"tool_calls" ((fun calls => JArray (map call_json calls)) <$> cm_tool_calls m)
        ++ optional $"tool_call_id" (JString <$> cm_tool_call_id m)).
Definition tool_json (tool : ToolDefinition) : Value :=
  json [($"name", JString (td_name tool)); ($"description", JString (td_description tool));
        ($"parameters", td_parameters tool)].

Definition user_with_images (text : str) (images : list (str * str)) : ChatMessage :=
  if is_empty images then chat_user text
  else
    let parts := (if is_empty (trim text) then [] else [PartText text])
                 ++ map (fun '(mime, data_base64) =>
                           PartImageUrl ($"data:" ++ mime ++ $";base64," ++ data_base64)) images in
    let parts := if is_empty parts then [PartText []] else parts in
    mkChat $"user" (Some (ContentParts parts)) None None.

Definition part_text (part : ChatContentPart) : option str :=
  match part with PartText text => Some text | PartImageUrl _ => None end.
Definition chat_content_as_text (content : ChatMessageContent) : str :=
  match content with
  | ContentText text => text
  | ContentParts parts => join [LF] (omap part_text parts)
  end.

Section Wire.
Context `{JsonParse}.

(** ** Chat completions *)

Definition sanitize_call (call : ProviderToolCall) : ProviderToolCall :=
  match from_str (ptc_arguments call) with
  | Some _ => call
  | None => mkProviderCall (ptc_id call) (ptc_kind call) (ptc_name call) $"{}" (ptc_truncated call)
  end.
Definition sanitize_tool_call_arguments (messages : list ChatMessage) : list ChatMessage :=
  map (fun m => mkChat (cm_role m) (cm_content m) (map sanitize_call <$> cm_tool_calls m)
                       (cm_tool_call_id m)) messages.

Definition chat_completions_request_body (model : str) (messages : list ChatMessage)
    (tools : list ToolDefinition) (reasoning_effort : option str) (prompt_cache_key : str) : Value :=
  let messages := sanitize_tool_call_arguments messages in
  let body := json [($"model", JString model);
                    ($"messages", JArray (map message_json messages));
                    ($"stream", JBool true);
                    ($"include", JArray [JString $"reasoning.encrypted_content"]);
                    ($"prompt_cache_key", JString prompt_cache_key);
                    ($"stream_options", json [($"include_usage", JBool true)])] in
  let body := match non_blank reasoning_effort with
              | Some effort => set_field $"reasoning_effort" (JString effort) body
              | None => body
              end in
  if is_empty tools then body
  else
    set_field $"parallel_tool_calls" (JBool true)
      (set_field $"tool_choice" (JString $"auto")
        (set_field $"tools"
           (JArray (map (fun tool => json [($"type", JString $"function");
                                           ($"function", tool_json tool)]) tools)) body)).

(** ** Responses *)

Definition responses_part (content_type : str) (part : ChatContentPart) : Value :=
  match part with
  | PartText text => json [($"type", JString content_type); ($"text", JString text)]
  | PartImageUrl url => json [($"type", JString $"input_image"); ($"image_url", JString url);
                              ($"detail", JString $"auto")]
  end.
Definition responses_message_item (role : str) (content : ChatMessageContent) : Value :=
  let content_type := if role =s $"assistant" then $"output_text" else $"input_text" in
  let parts := match content with
               | ContentText text => [responses_part content_type (PartText text)]
               | ContentParts parts => map (responses_part content_type) parts
               end in
  json [($"type", JString $"message"); ($"role", JString role); ($"content", JArray parts)].

Definition function_call_item (call : ProviderToolCall) : Value :=
  json [($"type", JString $"function_call"); ($"call_id", JString (ptc_id call));
        ($"name", JString (ptc_name call)); ($"arguments", JString (ptc_arguments call))].

(** What one message adds to the instructions and to the input. *)
Definition responses_step (m : ChatMessage) : list str * list Value :=
  if cm_role m =s $"system" then
    (match cm_content m with Some content => [chat_content_as_text content] | None => [] end, [])
  else match cm_tool_calls m with
  | Some calls => ([], map function_call_item calls)
  | None =>
    if cm_role m =s $"tool" then
      ([], [json [($"type", JString $"function_call_output");
                  ($"call_id", JString (or_else (cm_tool_call_id m) []));
                  ($"output", JString (or_else (chat_content_as_text <$> cm_content m) []))]])
    else match cm_content m with
         | Some content => ([], [responses_message_item (cm_role m) content])
         | None => ([], [])
         end
  end.

Definition responses_request_body (model : str) (messages : list ChatMessage)
    (tools : list ToolDefinition) (reasoning_effort : option str) (prompt_cache_key : str) : Value :=
  let steps := map responses_step (sanitize_tool_call_arguments messages) in
  let body := json [($"model", JString model);
                    ($"instructions", JString (join BLANK_LINE (concat (map fst steps))));
                    ($"input", JArray (concat (map snd steps)));
                    ($"stream", JBool true);
                    ($"store", JBool false);
                    ($"include", JArray [JString $"reasoning.encrypted_content"]);
                    ($"prompt_cache_key", JString prompt_cache_key)] in
  let body :=
    if is_empty tools then body
    else set_field $"parallel_tool_calls" (JBool true)
           (set_field $"tool_choice" (JString $"auto")
             (set_field $"tools"
                (JArray (map (fun tool =>
                   json [($"type", JString $"function"); ($"name", JString (td_name tool));
                         ($"description", JString (td_description tool));
                         ($"parameters", td_parameters tool); ($"strict", JBool false)]) tools)) body)) in
  match non_blank reasoning_effort with
  | Some effort => set_field $"reasoning" (json [($"effort", JString effort)]) body
  | None => body
  end.

(** ** Anthropic messages *)

Definition ANTHROPIC_MAX_TOKENS : Z := 8192.

Definition text_block (text : str) : Value :=
  json [($"type", JString $"text"); ($"text", JString text)].

Definition anthropic_part (part : ChatContentPart) : option Value :=
  match part with
  | PartText text => Some (text_block text)
  | PartImageUrl url =>
    match strip_prefix $"data:" url with
    | None => None
    | Some data_url =>
      match split_once_str $";base64," data_url with
      | None => None
      | Some (media_type, data) =>
        Some (json [($"type", JString $"image");
                    ($"source", json [($"type", JString $"base64");
                                      ($"media_type", JString media_type);
                                      ($"data", JString data)])])
      end
    end
  end.
Definition anthropic_content_blocks (content : ChatMessageContent) : list Value :=
  match content with
  | ContentText text => [text_block text]
  | ContentParts parts => omap anthropic_part parts
  end.

(** Blocks join the last message when it has the same role. *)
Fixpoint push_anthropic_message (messages : list Value) (role : str) (blocks : list Value) : list Value :=
  match messages with
  | [] => [json [($"role", JString role); ($"content", JArray blocks)]]
  | previous :: r =>
    match r with
    | [] =>
      match json_get $"role" previous ≫= as_str, json_get $"content" previous ≫= as_array with
      | Some previous_role, Some content =>
        if previous_role =s role then [set_field $"content" (JArray (content ++ blocks)) previous]
        else [previous; json [($"role", JString role); ($"content", JArray blocks)]]
      | _, _ => [previous; json [($"role", JString role); ($"content", JArray blocks)]]
      end
    | _ => previous :: push_anthropic_message r role blocks
    end
  end.

Record AnthropicState := mkAnthropic {
  an_system : list str; an_messages : list Value; an_pending_tool_use_ids : gset (list N) }.

Definition tool_use_block (call : ProviderToolCall) : Value :=
  json [($"type", JString $"tool_use"); ($"id", JString (ptc_id call));
        ($"name", JString (ptc_name call));
        ($"input", or_else (from_str (ptc_arguments call)) (JObject []))].

Definition tool_result_block (tool_use_id : str) (content : list Value) : Value :=
  json [($"type", JString $"tool_result"); ($"tool_use_id", JString tool_use_id);
        ($"content", JArray content)].

(** One turn of the loop over the messages. *)
Definition anthropic_step (st : AnthropicState) (m : ChatMessage) : AnthropicState :=
  let push blocks pending :=
    mkAnthropic (an_system st) (push_anthropic_message (an_messages st) (cm_role m) blocks) pending in
  let push_user block pending :=
    mkAnthropic (an_system st) (push_anthropic_message (an_messages st) $"user" [block]) pending in
  if cm_role m =s $"system" then
    match cm_content m with
    | Some content => mkAnthropic (an_system st ++ [chat_content_as_text content]) (an_messages st)
                        (an_pending_tool_use_ids st)
    | None => st
    end
  else if cm_role m =s $"tool" then
    let tool_use_id := or_else (cm_tool_call_id m) [] in
    if bool_decide (tool_use_id ∈ an_pending_tool_use_ids st) then
      push_user (tool_result_block tool_use_id (or_else (anthropic_content_blocks <$> cm_content m) []))
        (an_pending_tool_use_ids st ∖ {[ tool_use_id ]})
    else match chat_content_as_text <$> cm_content m with
         | Some content =>
           if is_empty (trim content) then st
           else push_user (text_block ($"[Recovered tool output]" ++ [LF] ++ content))
                  (an_pending_tool_use_ids st)
         | None => st
         end
  else
    let pending : gset (list N) :=
      if cm_role m =s $"assistant" then list_to_set (map ptc_id (or_else (cm_tool_calls m) []))
      else ∅ in
    let blocks := or_else (anthropic_content_blocks <$> cm_content m) []
                  ++ map tool_use_block (or_else (cm_tool_calls m) []) in
    if is_empty blocks
    then mkAnthropic (an_system st) (an_messages st) pending
    else push blocks pending.

Definition anthropic_messages_request_body (model : str) (messages : list ChatMessage)
    (tools : list ToolDefinition) : Value :=
  let st := foldl anthropic_step (mkAnthropic [] [] ∅) messages in
  let body := json [($"model", JString model);
                    ($"max_tokens", JInt ANTHROPIC_MAX_TOKENS);
                    ($"stream", JBool true);
                    ($"system", JString (join BLANK_LINE (an_system st)));
                    ($"messages", JArray (an_messages st))] in
  if is_empty tools then body
  else
    set_field $"tool_choice" (json [($"type", JString $"auto")])
      (set_field $"tools"
        (JArray (map (fun tool =>
           json [($"name", JString (td_name tool)); ($"description", JString (td_description tool));
                 ($"input_schema", td_parameters tool)]) tools)) body).
End Wire.
