(* ===== verification/ProviderConfig.v ===== *)
(** * Settings of the model providers (crates/xcoding-providers/src/lib.rs)

    The normal form of the user's configuration, the addresses and credentials that come
    from it, the list of models, and the messages for failed requests. *)

From S2P Require Import Prelude.
From S2P Require Import Protocol.
From S2P Require Import Routing.
From S2P Require Import Rotation.
From S2P Require Import Transcript.
From S2P Require Import Text.
From S2P Require Import Sql.
From S2P Require Import ProviderWire.

(** ** Addresses *)

Definition DEFAULT_BASE_URL : str := $"https://ai.v58.dev".

(** The loop; every round but the last makes the value shorter. *)
Fixpoint strip_root (fuel : nat) (value : str) : str :=
  match fuel with
  | 0 => value
  | S f =>
    let without_slash := trim_end_matches (N.eqb SLASH) value in
    if negb (without_slash =s value) then strip_root f without_slash
    else if (3 <=? byte_len value) && ends_with $"/v1" (to_ascii_lowercase value)
    then strip_root f (take (length value - 3) value)
    else value
  end.
Definition normalize_base_url (input : str) : str := strip_root (S (length input)) (trim input).

Definition or_default_url (base : str) : str := if is_empty base then DEFAULT_BASE_URL else base.

Definition api_root_url (input : str) : str :=
  let normalized := normalize_base_url input in
  if is_empty normalized then DEFAULT_BASE_URL ++ $"/v1" else normalized ++ $"/v1".

Definition chat_url (base_url : str) (wire_api : ProviderWireApi) : str :=
  base_url ++ match wire_api with
              | ChatCompletions => $"/chat/completions"
              | Responses => $"/responses"
              | AnthropicMessages => $"/messages"
              end.

(** ** User agent and proxy *)

Definition DEFAULT_HTTP_USER_AGENT : str := $"codex_cli_rs/0.50.0".
Definition resolve_http_user_agent (configured env_override : option str) : str :=
  or_else (non_blank configured <||> non_blank env_override) DEFAULT_HTTP_USER_AGENT.

Inductive HttpProxyMode := ProxyOff | ProxySystem | ProxyCustom.
#[export] Instance HttpProxyMode_eq_dec : EqDecision HttpProxyMode.
Proof. solve_decision. Defined.
Inductive ResolvedHttpProxy := Off | System | Custom (url : str).

Definition resolve_http_proxy_setting (mode : HttpProxyMode) (url : option str) : ResolvedHttpProxy :=
  match mode with
  | ProxyOff => Off
  | ProxySystem => System
  | ProxyCustom => match non_blank url with Some value => Custom value | None => System end
  end.

Definition parse_http_proxy_override (raw : str) : option ResolvedHttpProxy :=
  let trimmed := trim raw in
  if is_empty trimmed then None
  else
    let lower := to_ascii_lowercase trimmed in
    if one_of lower [$"off"; $"none"; $"direct"; $"no"; $"false"; $"0"] then Some Off
    else if one_of lower [$"system"; $"auto"; $"default"] then Some System
    else Some (Custom trimmed).

(** [env_override] is the variable [XCODING_HTTP_PROXY]. *)
Definition resolve_http_proxy (env_override : option str) (mode : HttpProxyMode) (url : option str)
  : ResolvedHttpProxy :=
  match env_override ≫= parse_http_proxy_override with
  | Some resolved => resolved
  | None => resolve_http_proxy_setting mode url
  end.

Definition DEFAULT_PROXY_BYPASS : str := $"localhost,127.0.0.1,::1".
Definition proxy_bypass_list (upper lower : option str) : str :=
  match upper <||> lower with
  | Some raw => if is_empty (trim raw) then DEFAULT_PROXY_BYPASS
                else DEFAULT_PROXY_BYPASS ++ $"," ++ trim raw
  | None => DEFAULT_PROXY_BYPASS
  end.

(** ** Keys *)

Definition MAX_PROVIDER_KEY_WEIGHT : Z := 1000.
Definition key_id (index : nat) : str := $"key-" ++ show_nat index.

(** [while seen.contains(&entry.id)]; no more rounds than there are ids in [seen]. *)
Fixpoint fresh_key_id (fuel : nat) (seen : list str) (id : str) (index : nat) : str * nat :=
  match fuel with
  | 0 => (id, index)
  | S f => if one_of id seen then fresh_key_id f seen (key_id (S index)) (S index) else (id, index)
  end.

Fixpoint normalize_keys (entries : list ProviderApiKey) (seen : list str) (index : nat)
  : list ProviderApiKey :=
  match entries with
  | [] => []
  | entry :: r =>
    let index := S index in
    let key := trim (ak_key entry) in
    if is_empty key then normalize_keys r seen index
    else
      let id := trim (ak_id entry) in
      let id := if is_empty id || one_of id seen then key_id index else id in
      let (id, index) := fresh_key_id (S (length seen)) seen id index in
      mkApiKey id (trim (ak_label entry)) key (Z.min (ak_weight entry) MAX_PROVIDER_KEY_WEIGHT)
        (ak_enabled entry)
      :: normalize_keys r (id :: seen) index
  end.
Definition normalize_provider_api_keys (p : CloudProviderConfig) : CloudProviderConfig :=
  mkProvider (cp_id p) (cp_name p) (cp_base_url p) (cp_wire_api p) (cp_trust_level p)
    (cp_api_key p) (normalize_keys (cp_api_keys p) [] 0) (cp_note p).

(** [format!("{millis:x}")] *)
Fixpoint hex_loop (fuel : nat) (n : N) (acc : str) : str :=
  match fuel with
  | 0 => acc
  | S f => let acc := hex_digit (Z.of_N (n mod 16)) :: acc in
           if (n <? 16)%N then acc else hex_loop f (n / 16) acc
  end.
Definition show_hex (n : N) : str := hex_loop (S (N.size_nat n)) n [].
(** The text of the reading of the clock in milliseconds. *)
Definition uuid_like (millis : N) : str := show_hex millis.

Definition normalize_provider (millis : N) (p : CloudProviderConfig) : CloudProviderConfig :=
  let id := trim (cp_id p) in
  let id := if is_empty id then $"provider-" ++ uuid_like millis else id in
  let name := trim (cp_name p) in
  normalize_provider_api_keys
    (mkProvider id (if is_empty name then $"openai" else name)
       (or_default_url (normalize_base_url (cp_base_url p))) (cp_wire_api p) (cp_trust_level p)
       (non_blank (cp_api_key p)) (cp_api_keys p) (cp_note p)).

(** ** Model routes *)

(** The routes of one model, with the providers that have one already. *)
Fixpoint normalize_entries (known : list str) (seen : list str) (entries : list ModelRoute)
  : list ModelRoute :=
  match entries with
  | [] => []
  | route :: r =>
    let provider_id := trim (mr_provider_id route) in
    if negb (one_of provider_id known) || one_of provider_id seen
    then normalize_entries known seen r
    else mkRoute provider_id (Z.min (mr_weight route) MAX_PROVIDER_KEY_WEIGHT) (mr_enabled route)
           (non_blank (mr_model_override route))
         :: normalize_entries known (provider_id :: seen) r
  end.

(** [collect] into a [BTreeMap]: the last entry of a key remains. *)
Definition collect_map {V} (entries : list (list N * V)) : list (list N * V) :=
  foldl (fun m kv => btree_insert (fst kv) (snd kv) m) [] entries.

Definition normalize_model_routes (providers : list CloudProviderConfig)
    (routes : list (list N * list ModelRoute)) : list (list N * list ModelRoute) :=
  collect_map (omap (fun kv =>
    let model := to_ascii_lowercase (trim (fst kv)) in
    if is_empty model then None
    else
      let entries := normalize_entries (map cp_id providers) [] (snd kv) in
      if is_empty entries then None else Some (model, entries)) routes).

(** ** The configuration *)

(** The fields of [UserConfig] that normalization reads or writes; the others stay as
    they are.  [st_config] has those that the routing uses. *)
Record Settings := mkSettings {
  st_provider : str;
  st_model : str;
  st_locale : str;
  st_max_provider_retries : Z;
  st_max_tool_rounds : Z;
  st_circuit_failure_threshold : Z;
  st_stream_first_event_timeout_secs : Z;
  st_stream_idle_timeout_secs : Z;
  st_non_stream_timeout_secs : Z;
  st_model_call_log_retention_days : Z;
  st_circuit_recovery_success_threshold : Z;
  st_circuit_recovery_wait_secs : Z;
  st_circuit_error_rate_threshold_percent : Z;
  st_circuit_min_request_count : Z;
  st_context_compaction_threshold_percent : Z;
  st_model_context_windows : list (list N * Z);
  st_last_workspace_root : option str;
  st_workspace_home : option str;
  st_http_proxy_mode : HttpProxyMode;
  st_http_proxy_url : option str;
  st_http_user_agent : option str;
  st_local_relay_port : Z;
  st_local_relay_api_key : option str;
  st_base_url : str;
  st_config : UserConfig;
}.

Definition clampZ (x lo hi : Z) : Z := if (x <? lo)%Z then lo else if (hi <? x)%Z then hi else x.

Definition normalize_context_windows (windows : list (list N * Z)) : list (list N * Z) :=
  collect_map (omap (fun kv =>
    let model := to_ascii_lowercase (trim (fst kv)) in
    if is_empty model then None else Some (model, clampZ (snd kv) 1024 10000000)) windows).

Definition normalize_relay_port (port : Z) : Z :=
  if (port =? 0)%Z then 17821 else clampZ port 1024 65535.

(** A provider made of the old single-provider fields. *)
Definition default_provider (provider base_url : str) (api_key : option str) : CloudProviderConfig :=
  mkProvider $"default" (if is_empty (trim provider) then $"openai" else trim provider)
    (or_default_url (normalize_base_url base_url)) ChatCompletions Relay api_key [] None.

(** [millis i] is the reading of the clock when the [i]-th provider is normalized. *)
Definition normalize_user_config (millis : nat -> N) (s : Settings) : Settings :=
  let config := st_config s in
  let provider := if is_empty (trim (st_provider s)) then $"openai" else trim (st_provider s) in
  let locale := trim (st_locale s) in
  let api_key := non_blank (uc_api_key config) in
  let http_proxy_url := non_blank (st_http_proxy_url s) in
  let http_proxy_mode :=
    if bool_decide (st_http_proxy_mode s = ProxyCustom) && bool_decide (http_proxy_url = None)
    then ProxySystem else st_http_proxy_mode s in
  let '(providers, requested) :=
    match uc_providers config with
    | [] => ([default_provider provider (st_base_url s) api_key], Some $"default")
    | providers => (providers, uc_active_provider_id config)
    end in
  let providers := imap (fun i p => normalize_provider (millis i) p) providers in
  let active_id :=
    match non_blank requested with
    | Some value => if existsb (fun p => cp_id p =s value) providers then Some value else None
    | None => None
    end in
  let active_id := or_else active_id (or_else (cp_id <$> head providers) []) in
  let '(provider, base_url, api_key) :=
    match List.find (fun p => cp_id p =s active_id) providers with
    | Some active => ($"openai", cp_base_url active, cp_api_key active)
    | None => (provider, or_default_url (normalize_base_url (st_base_url s)), api_key)
    end in
  mkSettings provider (trim (st_model s)) (if is_empty locale then $"en" else locale)
    (clampZ (st_max_provider_retries s) 0 999)
    (clampZ (st_max_tool_rounds s) 1 1024)
    (clampZ (st_circuit_failure_threshold s) 1 10)
    (clampZ (st_stream_first_event_timeout_secs s) 1 120)
    (clampZ (st_stream_idle_timeout_secs s) 60 600)
    (clampZ (st_non_stream_timeout_secs s) 60 1200)
    (Z.max (st_model_call_log_retention_days s) 1)
    (clampZ (st_circuit_recovery_success_threshold s) 1 20)
    (clampZ (st_circuit_recovery_wait_secs s) 30 120)
    (clampZ (st_circuit_error_rate_threshold_percent s) 1 100)
    (clampZ (st_circuit_min_request_count s) 1 100)
    (clampZ (st_context_compaction_threshold_percent s) 50 95)
    (normalize_context_windows (st_model_context_windows s))
    (non_blank (st_last_workspace_root s))
    (non_blank (st_workspace_home s))
    http_proxy_mode http_proxy_url
    (non_blank (st_http_user_agent s))
    (normalize_relay_port (st_local_relay_port s))
    (non_blank (st_local_relay_api_key s))
    base_url
    (mkUserConfig api_key providers (Some active_id) (uc_provider_fallback_enabled config)
       (normalize_model_routes providers (uc_model_routes config))).

(** ** The environment of the process *)

Definition ProcEnv : Type := gmap (list N) (list N).
Definition OPENAI_API_KEY : str := $"OPENAI_API_KEY".
Definition XCODING_OPENAI_BASE_URL : str := $"XCODING_OPENAI_BASE_URL".

Definition apply_user_config_to_env (api_key : option str) (base_url : str) (env : ProcEnv) : ProcEnv :=
  let env := match non_blank api_key with
             | Some key => <[OPENAI_API_KEY := key]> env
             | None => env
             end in
  let base := trim base_url in
  if is_empty base then env else <[XCODING_OPENAI_BASE_URL := api_root_url base]> env.

Definition fill_env_from_user_config (api_key : option str) (base_url : str) (env : ProcEnv) : ProcEnv :=
  let env :=
    match non_blank (env !! OPENAI_API_KEY) with
    | Some _ => env
    | None => match non_blank api_key with
              | Some key => <[OPENAI_API_KEY := key]> env
              | None => env
              end
    end in
  match non_blank (env !! XCODING_OPENAI_BASE_URL) with
  | Some _ => env
  | None =>
    let base := trim base_url in
    if is_empty base then env else <[XCODING_OPENAI_BASE_URL := api_root_url base]> env
  end.

(** [env] is the environment after [bootstrap_credentials]. *)
Definition resolve_provider_credentials (base_url_override api_key_override : option str)
    (env : ProcEnv) : result (str * str) ProviderError :=
  match non_blank api_key_override <||> non_blank (env !! OPENAI_API_KEY) with
  | None => Err MissingApiKey
  | Some api_key =>
    Ok (api_key, api_root_url (or_else (non_blank base_url_override
                                 <||> non_blank (env !! XCODING_OPENAI_BASE_URL)) DEFAULT_BASE_URL))
  end.

Definition mask_api_key (key : str) : str :=
  if is_empty key then []
  else if length key <=? 10 then repeat 42%N (length key)
  else take 5 key ++ repeat 42%N (length key - 10) ++ drop (length key - 5) key.

Record ProviderAuthStatus := mkAuthStatus {
  pa_ready : bool; pa_has_api_key : bool; pa_base_url : str; pa_key_hint : option str }.
Definition inspect_auth (env : ProcEnv) : ProviderAuthStatus :=
  let base_url := api_root_url (or_else (env !! XCODING_OPENAI_BASE_URL) DEFAULT_BASE_URL) in
  match non_blank (env !! OPENAI_API_KEY) with
  | Some key => mkAuthStatus true true base_url (Some (mask_api_key key))
  | None => mkAuthStatus false false base_url None
  end.

(** ** The list of models *)

Record ProviderModel := mkModel { pm_id : str; pm_owned_by : option str }.
Record ListModelsResult := mkModels { lm_models : list ProviderModel; lm_base_url : str }.

(** [Vec::dedup_by] with equal ids: an element equal to the last one kept is removed. *)
Fixpoint dedup_models (models : list ProviderModel) : list ProviderModel :=
  match models with
  | a :: r =>
    match dedup_models r with
    | b :: rest => if pm_id a =s pm_id b then a :: rest else a :: b :: rest
    | [] => [a]
    end
  | [] => []
  end.

Definition str_le (a b : str) : bool := negb (str_ltb b a).
Definition model_le (a b : ProviderModel) : bool :=
  str_le (to_ascii_lowercase (pm_id a)) (to_ascii_lowercase (pm_id b)).

(** [data] has the identifier and the owner of each entry of the decoded response. *)
Definition parse_models_response (base_url : str) (data : result (list (str * option str)) str)
  : result ListModelsResult ProviderError :=
  match data with
  | Err error => Err (InvalidResponse ($"invalid /models response JSON: " ++ error))
  | Ok data =>
    let models := omap (fun '(id, owned_by) =>
      let id := trim id in
      if is_empty id then None else Some (mkModel id (non_blank owned_by))) data in
    let models := dedup_models (order_by model_le models) in
    if is_empty models then Err (InvalidResponse $"provider returned an empty model list")
    else Ok (mkModels models (trim_end_matches (N.eqb SLASH) base_url))
  end.

(** ** Failed requests *)

Definition truncate_provider_body (body : str) (max_chars : nat) : str :=
  let trimmed := trim body in
  if is_empty trimmed then $"(empty body)"
  else take max_chars trimmed ++ (if max_chars <? length trimmed then $"..." else []).

(** [text] is the value of the header if it is visible ASCII. *)
Definition parse_retry_after (text : option str) : option N :=
  text ≫= fun value => (fun seconds => N.min seconds 300) <$> parse_u64 (trim value).

Definition body_indicates_vision_unsupported (body : str) : bool :=
  let lower := to_ascii_lowercase body in
  contains_any [$"image"; $"vision"; $"visual"; $"multimodal"; $"picture"; $"photo"; $"screenshot";
                $"attachment"] lower
  && contains_any [$"not support"; $"unsupported"; $"cannot process"; $"cannot handle";
                   $"does not support"; $"unable to process"; $"invalid content"; $"invalid_image";
                   $"invalid image"; $"no endpoints found"; $"not available"; $"not implemented";
                   $"not supported"] lower.

Definition is_vision_unsupported (e : ProviderError) : bool :=
  match e with
  | HttpStatus status body _ =>
    status_in status [400; 404; 422]%Z
    && negb (body_indicates_context_overflow body) && negb (body_indicates_gateway_block body)
    && body_indicates_vision_unsupported body
  | _ => false
  end.

Definition show_status (status : Z) : str := show_N (Z.to_N status).

Definition format_http_status_message (status : Z) (body : str) : str :=
  let truncated := truncate_provider_body body 280 in
  if (400 <=? status)%Z && (status <? 500)%Z && body_indicates_gateway_block body then
    $"Upstream gateway blocked the request (HTTP " ++ show_status status
    ++ $"). The endpoint's edge protection (Cloudflare or a similar WAF) answered with a block page before the request reached the model API, so this is not an API key problem. Retry later, route the model to another provider, or configure a network proxy in Settings. Provider response: "
    ++ truncated
  else if (status =? 401)%Z then
    $"Cloud provider authentication failed (HTTP " ++ show_status status
    ++ $"). Check OPENAI_API_KEY and XCODING_OPENAI_BASE_URL. Provider response: " ++ truncated
  else if (status =? 403)%Z && body_indicates_transient_channel_rejection body then
    $"Provider channel is temporarily throttled (HTTP 403); retrying automatically. Provider response: "
    ++ truncated
  else if (status =? 403)%Z then
    $"Cloud provider refused the request (HTTP 403). The endpoint accepted the connection but declined this request: check that the credential is allowed to use this model and that the endpoint is not blocking this client. Provider response: "
    ++ truncated
  else if status_in status [400; 413]%Z && body_indicates_context_overflow body then
    $"Context window exceeded (HTTP " ++ show_status status
    ++ $"): conversation history is too long for this model. History will be trimmed before retrying. Provider response: "
    ++ truncated
  else if (status =? 400)%Z && body_indicates_tool_result_mismatch body then
    $"Provider rejected the tool transcript (HTTP 400): a tool result has no matching tool call. The transcript will be repaired before retrying. Provider response: "
    ++ truncated
  else if status_in status [502; 503; 504]%Z then
    $"Upstream gateway error (HTTP " ++ show_status status
    ++ $"): the request did not reach the model API, so this is not an API key or base URL issue. It is usually transient and is retried automatically; retry shortly, check the proxy in Settings, or route this model to another provider. Provider response: "
    ++ truncated
  else
    $"Cloud provider request failed (HTTP " ++ show_status status
    ++ $"). Check OPENAI_API_KEY and XCODING_OPENAI_BASE_URL if this looks like an auth or endpoint issue. Provider response: "
    ++ truncated.
