(* ===== verification/ProviderStream.v ===== *)
(** * Streams of the model providers (crates/xcoding-providers/src/lib.rs)

    A response arrives as chunks of bytes.  The chunks are cut into lines, each
    [data:] line is decoded into an event of its wire format, and the events become
    [ProviderEvent]s until the stream ends, fails or breaks off. *)

From S2P Require Import Prelude.
From S2P Require Import Protocol.
From S2P Require Import Sql.
From S2P Require Import Routing.
From S2P Require Import Transcript.
From S2P Require Import Text.
From S2P Require Import ToolArgs.
From S2P Require Import Compression.
From S2P Require Import ProviderWire.

Definition bytes : Type := list N.

(** ** UTF-8 *)

Definition is_cont (b : N) : bool := in_range 128 191 b.

(** The ranges of the second byte after a first byte of three or four. *)
Definition second_ok (b0 b1 : N) : bool :=
  if (b0 =? 224)%N then in_range 160 191 b1
  else if (b0 =? 237)%N then in_range 128 159 b1
  else if (b0 =? 240)%N then in_range 144 191 b1
  else if (b0 =? 244)%N then in_range 128 143 b1
  else is_cont b1.

(** The next character and its length; for an invalid sequence the length of its longest
    valid beginning, at least one. *)
Definition next_char (bs : bytes) : option char * nat :=
  match bs with
  | [] => (None, 0)
  | b0 :: r =>
    if (b0 <? 128)%N then (Some b0, 1)
    else if in_range 194 223 b0 then
      match r with
      | b1 :: _ => if is_cont b1 then (Some (b0 mod 32 * 64 + cont b1)%N, 2) else (None, 1)
      | [] => (None, 1)
      end
    else if in_range 224 239 b0 then
      match r with
      | b1 :: r1 =>
        if negb (second_ok b0 b1) then (None, 1)
        else match r1 with
             | b2 :: _ => if is_cont b2 then (Some (b0 mod 16 * 4096 + cont b1 * 64 + cont b2)%N, 3)
                          else (None, 2)
             | [] => (None, 2)
             end
      | [] => (None, 1)
      end
    else if in_range 240 244 b0 then
      match r with
      | b1 :: r1 =>
        if negb (second_ok b0 b1) then (None, 1)
        else match r1 with
             | b2 :: r2 =>
               if negb (is_cont b2) then (None, 2)
               else match r2 with
                    | b3 :: _ =>
                      if is_cont b3
                      then (Some (b0 mod 8 * 262144 + cont b1 * 4096 + cont b2 * 64 + cont b3)%N, 4)
                      else (None, 3)
                    | [] => (None, 3)
                    end
             | [] => (None, 2)
             end
      | [] => (None, 1)
      end
    else (None, 1)
  end.

Fixpoint decode_loop (fuel : nat) (bs : bytes) : list (option char) :=
  match fuel with
  | 0 => []
  | S f =>
    match bs with
    | [] => []
    | _ => let (c, n) := next_char bs in c :: decode_loop f (drop n bs)
    end
  end.
Definition decode_utf8 (bs : bytes) : list (option char) := decode_loop (length bs) bs.

(** [std::str::from_utf8] *)
Definition from_utf8 (bs : bytes) : option str :=
  if forallb (fun c => bool_decide (is_Some c)) (decode_utf8 bs)
  then Some (omap id (decode_utf8 bs)) else None.
(** [String::from_utf8_lossy] *)
Definition from_utf8_lossy (bs : bytes) : str := map (fun c => or_else c 65533%N) (decode_utf8 bs).

(** ** Events *)

Record ProviderUsage := mkUsage { pu_prompt_tokens : N; pu_completion_tokens : N }.

Inductive ProviderEvent :=
| TextDelta (text : str)
| ModelReported (model : str)
| ReasoningDelta (text : str)
| StreamAlive
| EvToolCall (call : ProviderToolCall)
| Usage (usage : ProviderUsage).

Definition usage_of (prompt_tokens completion_tokens : N) : option ProviderUsage :=
  if (0 <? prompt_tokens)%N || (0 <? completion_tokens)%N
  then Some (mkUsage prompt_tokens completion_tokens) else None.

Record ToolFunctionDelta := mkFunctionDelta { fd_name : option str; fd_arguments : option str }.
Record ToolCallDelta := mkToolDelta {
  tcd_index : N; tcd_id : option str; tcd_kind : option str; tcd_function : ToolFunctionDelta }.
Record ChatCompletionDelta := mkDelta {
  dl_content : option str; dl_reasoning_content : option str; dl_reasoning : option Value;
  dl_tool_calls : list ToolCallDelta }.
Definition empty_delta : ChatCompletionDelta := mkDelta None None None [].
Record ChatCompletionChoice := mkChoice { ch_delta : ChatCompletionDelta; ch_finish_reason : option str }.
Record ChatCompletionUsage := mkChunkUsage { cu_prompt_tokens : option N; cu_completion_tokens : option N }.
Record ChatCompletionChunk := mkChunk {
  ck_model : option str; ck_choices : list ChatCompletionChoice; ck_usage : option ChatCompletionUsage }.

(** [serde_json] on the text of an event: a JSON value, a chunk by the derived decoder,
    the message of an error, and whether a text is a beginning of a JSON text
    ([Category::Eof]). *)
Class StreamCodec := {
  event_value : list N -> result Value (list N);
  event_chunk : list N -> result ChatCompletionChunk (list N);
  ends_early : list N -> bool;
}.

(** ** The calls of a stream *)

Record ToolCallAccumulator := mkAcc {
  ta_id : option str; ta_kind : option str; ta_name : option str; ta_arguments : str }.
Definition empty_acc : ToolCallAccumulator := mkAcc None None None [].

(** A non-empty value replaces the last one. *)
Definition newer (delta old : option str) : option str :=
  match delta with
  | Some value => if is_empty value then old else Some value
  | None => old
  end.
Definition merge (a : ToolCallAccumulator) (delta : ToolCallDelta) : ToolCallAccumulator :=
  mkAcc (newer (tcd_id delta) (ta_id a)) (newer (tcd_kind delta) (ta_kind a))
    (newer (fd_name (tcd_function delta)) (ta_name a))
    (ta_arguments a ++ or_else (fd_arguments (tcd_function delta)) []).

(** [BTreeMap<usize, ToolCallAccumulator>] *)
Abbreviation Calls := (gmap N ToolCallAccumulator).
Definition merge_delta (calls : Calls) (delta : ToolCallDelta) : Calls :=
  <[tcd_index delta := merge (or_else (calls !! tcd_index delta) empty_acc) delta]> calls.
Definition into_values (calls : Calls) : list ToolCallAccumulator :=
  map snd (order_by (fun a b => (fst a <=? fst b)%N) (map_to_list calls)).

Fixpoint collect_results {A B E} (f : A -> result B E) (l : list A) : result (list B) E :=
  match l with
  | [] => Ok []
  | a :: r => let? b := f a in let? bs := collect_results f r in Ok (b :: bs)
  end.

Section Stream.
Context `{JsonText} `{JsonParse} `{StreamCodec}.

Definition is_incomplete_json (arguments : str) : bool :=
  match from_str arguments with Some _ => false | None => ends_early arguments end.

Definition finish_call (a : ToolCallAccumulator) (truncated_by_length : bool)
  : result ProviderToolCall ProviderError :=
  let arguments := if is_empty (trim (ta_arguments a)) then $"{}" else ta_arguments a in
  let truncated := bool_decide (from_str arguments = None)
                   && (truncated_by_length || is_incomplete_json arguments) in
  match ta_id a with
  | None => Err (InvalidToolCall $"missing id")
  | Some id =>
    match ta_name a with
    | None => Err (InvalidToolCall $"missing function name")
    | Some name => Ok (mkProviderCall id (or_else (ta_kind a) $"function") name arguments truncated)
    end
  end.

Definition completed_tool_calls (calls : Calls) (truncated_by_length : bool)
  : result (list ProviderToolCall) ProviderError :=
  collect_results (fun a => finish_call a truncated_by_length) (into_values calls).

(** ** Decoders of the three formats *)

Record ParsedChunk := mkParsed {
  pk_model : option str; pk_content : option str; pk_reasoning : option str;
  pk_tool_calls : list ToolCallDelta; pk_finish_reason : option str; pk_usage : option ProviderUsage }.

Definition non_empty (o : option str) : option str :=
  match o with Some s => if is_empty s then None else Some s | None => None end.

Definition reasoning_delta_text (delta : ChatCompletionDelta) : option str :=
  match non_empty (dl_reasoning_content delta) with
  | Some text => Some text
  | None =>
    match dl_reasoning delta with
    | None => None
    | Some (JString text) => non_empty (Some text)
    | Some value =>
      non_empty (match json_get $"content" value with
                 | Some v => Some v
                 | None => json_get $"text" value
                 end ≫= as_str)
    end
  end.

Definition parse_chunk (data : str) : result ParsedChunk ProviderError :=
  match event_chunk data with
  | Err e => Err (StreamJson e)
  | Ok chunk =>
    let usage := ck_usage chunk ≫= fun u =>
      usage_of (or_else (cu_prompt_tokens u) 0%N) (or_else (cu_completion_tokens u) 0%N) in
    let '(delta, finish_reason) :=
      match ck_choices chunk with
      | [] => (empty_delta, None)
      | choice :: _ => (ch_delta choice, ch_finish_reason choice)
      end in
    Ok (mkParsed (ck_model chunk) (dl_content delta) (reasoning_delta_text delta)
          (dl_tool_calls delta) finish_reason usage)
  end.

Inductive ResponsesParsedEvent :=
| RpTextDelta (text : str)
| RpReasoningDelta (text : str)
| RpLifecycle
| RpToolCall (call : ProviderToolCall)
| RpCompleted (usage : option ProviderUsage) (model : option str)
| RpFailed (message : str)
| RpIgnored.

Definition pointer_str (path : list str) (v : Value) : option str := pointer path v ≫= as_str.
Definition pointer_u64 (path : list str) (v : Value) : N := or_else (pointer path v ≫= as_u64) 0%N.

Definition responses_usage (event : Value) : option ProviderUsage :=
  usage_of (pointer_u64 [$"response"; $"usage"; $"input_tokens"] event)
           (pointer_u64 [$"response"; $"usage"; $"output_tokens"] event).

Definition responses_call (item : Value) : result ProviderToolCall ProviderError :=
  let call_id := match json_get $"call_id" item with
                 | Some v => Some v
                 | None => json_get $"id" item
                 end ≫= as_str in
  match non_empty call_id with
  | None => Err (InvalidToolCall $"Responses function call is missing call_id")
  | Some call_id =>
    match non_empty (json_get $"name" item ≫= as_str) with
    | None => Err (InvalidToolCall $"Responses function call is missing name")
    | Some name =>
      let arguments := or_else (json_get $"arguments" item ≫= as_str) $"{}" in
      Ok (mkProviderCall call_id $"function" name
            (if is_empty (trim arguments) then $"{}" else arguments) false)
    end
  end.

Definition with_code (code : option str) (message : str) : str :=
  match non_empty code with Some code => code ++ $": " ++ message | None => message end.

Definition parse_responses_event (data : str) : result ResponsesParsedEvent ProviderError :=
  match event_value data with
  | Err e => Err (StreamJson e)
  | Ok event =>
    let kind := or_else (json_get $"type" event ≫= as_str) [] in
    let delta := or_else (json_get $"delta" event ≫= as_str) [] in
    if kind =s $"response.output_text.delta" then Ok (RpTextDelta delta)
    else if one_of kind [$"response.reasoning_summary_text.delta"; $"response.reasoning_text.delta"]
    then Ok (RpReasoningDelta delta)
    else if one_of kind [$"response.created"; $"response.queued"; $"response.in_progress";
                         $"response.output_item.added"; $"response.content_part.added";
                         $"response.reasoning_summary_part.added";
                         $"response.output_text.annotation.added"]
    then Ok RpLifecycle
    else if kind =s $"response.output_item.done" then
      match json_get $"item" event with
      | None => Ok RpIgnored
      | Some item =>
        if bool_decide (json_get $"type" item ≫= as_str = Some $"function_call")
        then let? call := responses_call item in Ok (RpToolCall call)
        else Ok RpIgnored
      end
    else if kind =s $"response.completed" then
      Ok (RpCompleted (responses_usage event) (pointer_str [$"response"; $"model"] event))
    else if one_of kind [$"response.failed"; $"response.incomplete"] then
      let message := or_else (match pointer_str [$"response"; $"error"; $"message"] event with
                              | Some m => Some m
                              | None => pointer_str [$"response"; $"incomplete_details"; $"reason"] event
                              end) $"Responses API returned a failed response" in
      Ok (RpFailed (with_code (pointer_str [$"response"; $"error"; $"code"] event) message))
    else Ok RpIgnored
  end.

Inductive AnthropicParsedEvent :=
| ApMessageStart (model : option str) (usage : N)
| ApTextDelta (text : str)
| ApReasoningDelta (text : str)
| ApToolUseStart (index : N) (id name arguments : str)
| ApToolInputDelta (index : N) (arguments : str)
| ApMessageDelta (reason : option str) (usage : N)
| ApMessageStop
| ApFailed (message : str)
| ApIgnored.

Definition tool_use_start (event : Value) : result AnthropicParsedEvent ProviderError :=
  match non_empty (pointer_str [$"content_block"; $"id"] event) with
  | None => Err (InvalidToolCall $"Anthropic tool_use is missing id")
  | Some id =>
    match non_empty (pointer_str [$"content_block"; $"name"] event) with
    | None => Err (InvalidToolCall $"Anthropic tool_use is missing name")
    | Some name =>
      let arguments := match pointer [$"content_block"; $"input"] event with
                       | Some (JObject []) | Some JNull | None => []
                       | Some value => json_text value
                       end in
      Ok (ApToolUseStart (pointer_u64 [$"index"] event) id name arguments)
    end
  end.

Definition parse_anthropic_event (data : str) : result AnthropicParsedEvent ProviderError :=
  match event_value data with
  | Err e => Err (StreamJson e)
  | Ok event =>
    let kind := or_else (json_get $"type" event ≫= as_str) [] in
    if kind =s $"message_start" then
      Ok (ApMessageStart (pointer_str [$"message"; $"model"] event)
            (pointer_u64 [$"message"; $"usage"; $"input_tokens"] event))
    else if (kind =s $"content_block_start")
            && bool_decide (pointer_str [$"content_block"; $"type"] event = Some $"tool_use")
    then tool_use_start event
    else if kind =s $"content_block_delta" then
      let delta_type := or_else (pointer_str [$"delta"; $"type"] event) [] in
      if delta_type =s $"text_delta" then
        Ok (ApTextDelta (or_else (pointer_str [$"delta"; $"text"] event) []))
      else if delta_type =s $"thinking_delta" then
        Ok (ApReasoningDelta (or_else (pointer_str [$"delta"; $"thinking"] event) []))
      else if delta_type =s $"input_json_delta" then
        Ok (ApToolInputDelta (pointer_u64 [$"index"] event)
              (or_else (pointer_str [$"delta"; $"partial_json"] event) []))
      else Ok ApIgnored
    else if kind =s $"message_delta" then
      Ok (ApMessageDelta (pointer_str [$"delta"; $"stop_reason"] event)
            (pointer_u64 [$"usage"; $"output_tokens"] event))
    else if kind =s $"message_stop" then Ok ApMessageStop
    else if kind =s $"error" then
      Ok (ApFailed (with_code (pointer_str [$"error"; $"type"] event)
            (or_else (pointer_str [$"error"; $"message"] event)
               $"Anthropic Messages API returned an error")))
    else Ok ApIgnored
  end.

(** ** The sample of the body *)

Definition EMPTY_STREAM_RESPONSE_BODY_LIMIT : nat := 4096.

Definition append_stream_body_sample (sample : bytes) (truncated : bool) (chunk : bytes) : bytes * bool :=
  let remaining := EMPTY_STREAM_RESPONSE_BODY_LIMIT - length sample in
  if remaining =? 0 then (sample, true)
  else if remaining <? length chunk then (sample ++ take remaining chunk, true)
  else (sample ++ chunk, truncated).

Definition format_stream_body_sample (sample : bytes) (truncated : bool) : str :=
  let body := from_utf8_lossy sample
              ++ (if truncated then LF :: $"...[response body truncated after 4096 bytes]" else []) in
  if is_empty (trim body) then $"(empty body)" else body.

Definition format_empty_stream_message (status : Z) (body : str) : str :=
  $"model returned an empty response; please retry. HTTP " ++ show_N (Z.to_N status)
  ++ $"; response body: " ++ body.

(** ** The loops over chunks and lines

    The three streams have the same two loops; they differ in what one [data:] line
    does to their state [St].  A line continues, leaves both loops, or ends the
    stream: well, with an error, or with [EmptyStream]. *)

Inductive Flow (St : Type) :=
| Next (s : St)
| Leave (s : St)
| Return
| Raise (e : ProviderError)
| RaiseEmpty.
#[global] Arguments Next {St} s.
#[global] Arguments Leave {St} s.
#[global] Arguments Return {St}.
#[global] Arguments Raise {St} e.
#[global] Arguments RaiseEmpty {St}.

(** [buffer.drain(..=newline)]: the first line with its newline, and the rest. *)
Fixpoint split_line (buffer : bytes) : option (bytes * bytes) :=
  match buffer with
  | [] => None
  | b :: r => if (b =? LF)%N then Some ([b], r)
              else match split_line r with
                   | Some (line, rest) => Some (b :: line, rest)
                   | None => None
                   end
  end.

Section Loops.
Context {St : Type}.
Variable on_data : St -> str -> list ProviderEvent * Flow St.
Variable utf8_error : bytes -> str.

(** One line: not UTF-8, not a [data:] line, or data. *)
Definition on_line (s : St) (line : bytes) : list ProviderEvent * Flow St :=
  match from_utf8 line with
  | None => ([], Raise (Utf8 (utf8_error line)))
  | Some text =>
    match strip_prefix $"data:" (trim text) with
    | None => ([], Next s)
    | Some data => on_data s (trim data)
    end
  end.

(** The lines of the buffer; what is left is the beginning of a line. *)
Fixpoint drain_lines (fuel : nat) (s : St) (buffer : bytes) : list ProviderEvent * Flow St * bytes :=
  match fuel with
  | 0 => ([], Next s, buffer)
  | S f =>
    match split_line buffer with
    | None => ([], Next s, buffer)
    | Some (line, rest) =>
      let (events, flow) := on_line s line in
      match flow with
      | Next s' => let '(more, flow', partial) := drain_lines f s' rest in (events ++ more, flow', partial)
      | _ => (events, flow, rest)
      end
    end
  end.

Variable status : Z.
(** After the loop over the chunks: left by a line, or at the end of the bytes. *)
Variable after_leaving : St -> Flow St.
Variable closed_message : str.

Definition ending (flow : Flow St) (body : str) : option ProviderError :=
  match flow with
  | Raise e => Some e
  | RaiseEmpty => Some (EmptyStream status body)
  | _ => None
  end.

(** What the stream yields, and the error it ends with.  A chunk is bytes or the text of
    the error of the connection. *)
Fixpoint stream_chunks (s : St) (buffer sample : bytes) (truncated : bool)
    (chunks : list (result bytes str)) : list ProviderEvent * option ProviderError :=
  match chunks with
  | [] => ([], Some (StreamDisconnected closed_message))
  | Err error :: _ => ([], Some (StreamDisconnected error))
  | Ok chunk :: r =>
    let (sample, truncated) := append_stream_body_sample sample truncated chunk in
    let buffer := buffer ++ chunk in
    let '(events, flow, partial) := drain_lines (length buffer) s buffer in
    let body := format_stream_body_sample sample truncated in
    match flow with
    | Next s' => let (more, e) := stream_chunks s' partial sample truncated r in (events ++ more, e)
    | Leave s' => (events, ending (after_leaving s') body)
    | _ => (events, ending flow body)
    end
  end.
End Loops.

Definition raise_or {St A} (r : result A ProviderError) (k : A -> list ProviderEvent * Flow St)
  : list ProviderEvent * Flow St :=
  match r with Ok a => k a | Err e => ([], Raise e) end.

Definition opt_event {A} (f : A -> ProviderEvent) (o : option A) : list ProviderEvent :=
  match o with Some a => [f a] | None => [] end.

(** ** Chat completions *)

Record ChatState := mkChatState {
  cs_tool_calls : Calls; cs_emitted_event : bool; cs_truncated_by_length : bool }.

Definition chat_data (s : ChatState) (data : str) : list ProviderEvent * Flow ChatState :=
  if data =s $"[DONE]" then
    raise_or (completed_tool_calls (cs_tool_calls s) (cs_truncated_by_length s)) (fun calls =>
      if negb (cs_emitted_event s) && is_empty calls then ([], RaiseEmpty)
      else (map EvToolCall calls, Return))
  else
    raise_or (parse_chunk data) (fun parsed =>
      let truncated := match pk_finish_reason parsed with
                       | Some reason => reason =s $"length"
                       | None => cs_truncated_by_length s
                       end in
      let content := match pk_content parsed with
                     | Some content => if is_empty (trim content) then None else Some content
                     | None => None
                     end in
      (opt_event ModelReported (pk_model parsed) ++ opt_event Usage (pk_usage parsed)
       ++ opt_event ReasoningDelta (pk_reasoning parsed) ++ opt_event TextDelta content,
       Next (mkChatState (foldl merge_delta (cs_tool_calls s) (pk_tool_calls parsed))
               (cs_emitted_event s || bool_decide (is_Some content)) truncated))).

Definition stream_chat_completions (utf8_error : bytes -> str) (status : Z)
    (chunks : list (result bytes str)) : list ProviderEvent * option ProviderError :=
  stream_chunks chat_data utf8_error status Next $"connection closed before [DONE]"
    (mkChatState ∅ false false) [] [] false chunks.

(** ** Responses *)

(** The state is [emitted_event]. *)
Definition responses_data (emitted : bool) (data : str) : list ProviderEvent * Flow bool :=
  if data =s $"[DONE]" then ([], Leave emitted)
  else
    raise_or (parse_responses_event data) (fun event =>
      match event with
      | RpTextDelta delta => if is_empty delta then ([], Next emitted) else ([TextDelta delta], Next true)
      | RpReasoningDelta delta =>
        (if is_empty delta then [] else [ReasoningDelta delta], Next emitted)
      | RpLifecycle => ([StreamAlive], Next emitted)
      | RpToolCall call => ([EvToolCall call], Next true)
      | RpCompleted usage model =>
        (opt_event ModelReported model ++ opt_event Usage usage, Leave emitted)
      | RpFailed message => ([], Raise (InvalidResponse message))
      | RpIgnored => ([], Next emitted)
      end).

Definition stream_responses (utf8_error : bytes -> str) (status : Z)
    (chunks : list (result bytes str)) : list ProviderEvent * option ProviderError :=
  stream_chunks responses_data utf8_error status
    (fun emitted => if emitted : bool then Return else RaiseEmpty)
    $"connection closed before response.completed" false [] [] false chunks.

(** ** Anthropic messages *)

Record MessagesState := mkMessages {
  ms_emitted_event : bool; ms_input_tokens : N; ms_output_tokens : N;
  ms_stop_reason : option str; ms_tool_calls : Calls }.

(** The calls at [message_stop], up to the first that is incomplete. *)
Fixpoint finish_calls (calls : list ToolCallAccumulator) (truncated : bool)
  : list ProviderEvent * option ProviderError :=
  match calls with
  | [] => ([], None)
  | a :: r =>
    match finish_call a truncated with
    | Err e => ([], Some e)
    | Ok call => let (events, e) := finish_calls r truncated in (EvToolCall call :: events, e)
    end
  end.

Definition messages_data (s : MessagesState) (data : str) : list ProviderEvent * Flow MessagesState :=
  raise_or (parse_anthropic_event data) (fun event =>
    let set_calls calls := mkMessages (ms_emitted_event s) (ms_input_tokens s) (ms_output_tokens s)
                             (ms_stop_reason s) calls in
    match event with
    | ApMessageStart model usage =>
      (opt_event ModelReported model,
       Next (mkMessages (ms_emitted_event s) usage (ms_output_tokens s) (ms_stop_reason s) (ms_tool_calls s)))
    | ApTextDelta delta =>
      if is_empty delta then ([], Next s)
      else ([TextDelta delta],
            Next (mkMessages true (ms_input_tokens s) (ms_output_tokens s) (ms_stop_reason s) (ms_tool_calls s)))
    | ApReasoningDelta delta => (if is_empty delta then [] else [ReasoningDelta delta], Next s)
    | ApToolUseStart index id name arguments =>
      ([], Next (set_calls (<[index := mkAcc (Some id) (Some $"function") (Some name) arguments]>
                              (ms_tool_calls s))))
    | ApToolInputDelta index arguments =>
      let call := or_else (ms_tool_calls s !! index) empty_acc in
      ([], Next (set_calls (<[index := mkAcc (ta_id call) (ta_kind call) (ta_name call)
                                          (ta_arguments call ++ arguments)]> (ms_tool_calls s))))
    | ApMessageDelta reason usage =>
      ([], Next (mkMessages (ms_emitted_event s) (ms_input_tokens s) usage reason (ms_tool_calls s)))
    | ApMessageStop =>
      let truncated := bool_decide (ms_stop_reason s = Some $"max_tokens") in
      match finish_calls (into_values (ms_tool_calls s)) truncated with
      | (events, Some e) => (events, Raise e)
      | (events, None) =>
        (events ++ opt_event Usage (usage_of (ms_input_tokens s) (ms_output_tokens s)),
         Leave (mkMessages (ms_emitted_event s || negb (is_empty events)) (ms_input_tokens s)
                  (ms_output_tokens s) (ms_stop_reason s) ∅))
      end
    | ApFailed message => ([], Raise (InvalidResponse message))
    | ApIgnored => ([], Next s)
    end).

Definition stream_anthropic_messages (utf8_error : bytes -> str) (status : Z)
    (chunks : list (result bytes str)) : list ProviderEvent * option ProviderError :=
  stream_chunks messages_data utf8_error status
    (fun s => if ms_emitted_event s then Return else RaiseEmpty)
    $"connection closed before message_stop" (mkMessages false 0%N 0%N None ∅) [] [] false chunks.
End Stream.
