(* ===== verification/ProviderStreamFacts.v ===== *)
(** * What the streams of the providers yield

    The loops over chunks and lines do the same as one pass over the lines of all bytes,
    however the bytes are cut into chunks; the calls that a stream yields are assembled
    from all fragments; a stream that ends well has yielded output. *)

From S2P Require Import Prelude.
From S2P Require Import Protocol.
From S2P Require Import Sql.
From S2P Require Import Routing.
From S2P Require Import Transcript.
From S2P Require Import Text.
From S2P Require Import ToolArgs.
From S2P Require Import Compression.
From S2P Require Import ProviderWire.
From S2P Require Import ProviderStream.

(** ** Lines *)

Lemma split_line_app b c line rest :
  split_line b = Some (line, rest) -> split_line (b ++ c) = Some (line, rest ++ c).
Proof.
  revert line rest. induction b as [|x b IH]; intros line rest; cbn [split_line app]; [done|].
  destruct (x =? LF)%N; [by intros [= <- <-]|].
  destruct (split_line b) as [[l r]|]; [|done]. intros [= <- <-]. by rewrite (IH l r eq_refl).
Qed.

Lemma split_line_length b line rest : split_line b = Some (line, rest) -> length rest < length b.
Proof.
  revert line rest. induction b as [|x b IH]; intros line rest; cbn [split_line]; [done|].
  destruct (x =? LF)%N; [intros [= <- <-]; simpl; lia|].
  destruct (split_line b) as [[l r]|]; [|done]. intros [= <- <-]. specialize (IH _ _ eq_refl). simpl. lia.
Qed.

(** The complete lines of some bytes, each with its newline, and the beginning of the
    line after them. *)
Fixpoint complete_lines (fuel : nat) (b : bytes) : list bytes * bytes :=
  match fuel with
  | 0 => ([], b)
  | S f => match split_line b with
           | None => ([], b)
           | Some (line, rest) => let (ls, partial) := complete_lines f rest in (line :: ls, partial)
           end
  end.
Definition lines_of_bytes (b : bytes) : list bytes * bytes := complete_lines (length b) b.

Lemma complete_lines_fuel fuel b :
  length b <= fuel -> complete_lines fuel b = lines_of_bytes b.
Proof.
  unfold lines_of_bytes. revert b. induction fuel as [fuel IH] using lt_wf_ind. intros b Hb.
  destruct fuel as [|fuel]; [by replace (length b) with 0 by lia|].
  destruct b as [|x b]; [done|]. cbn [complete_lines length].
  destruct (split_line (x :: b)) as [[l r]|] eqn:E; [|done]. apply split_line_length in E. simpl in E, Hb.
  rewrite (IH fuel) by lia. rewrite (IH (length b)) by lia. done.
Qed.

Lemma lines_step b :
  lines_of_bytes b = match split_line b with
                     | None => ([], b)
                     | Some (line, rest) => let (ls, partial) := lines_of_bytes rest in (line :: ls, partial)
                     end.
Proof.
  unfold lines_of_bytes at 1. destruct b as [|x b]; [done|]. cbn [complete_lines length].
  destruct (split_line (x :: b)) as [[l r]|] eqn:E; [|done]. apply split_line_length in E. simpl in E.
  by rewrite complete_lines_fuel by lia.
Qed.

(** The beginning of a line has no newline, and more bytes only continue it. *)
Lemma lines_partial b : split_line (snd (lines_of_bytes b)) = None.
Proof.
  remember (length b) as n eqn:Hn. revert b Hn. induction n as [n IH] using lt_wf_ind. intros b ->.
  rewrite lines_step. destruct (split_line b) as [[l r]|] eqn:E; [|done].
  apply split_line_length in E. specialize (IH _ E r eq_refl). by destruct (lines_of_bytes r).
Qed.

Lemma lines_of_bytes_app b c :
  lines_of_bytes (b ++ c)
  = (fst (lines_of_bytes b) ++ fst (lines_of_bytes (snd (lines_of_bytes b) ++ c)),
     snd (lines_of_bytes (snd (lines_of_bytes b) ++ c))).
Proof.
  remember (length b) as n eqn:Hn. revert b Hn. induction n as [n IH] using lt_wf_ind. intros b ->.
  rewrite (lines_step b). destruct (split_line b) as [[l r]|] eqn:E.
  - rewrite lines_step, (split_line_app _ c _ _ E). apply split_line_length in E.
    rewrite (IH _ E r eq_refl). by destruct (lines_of_bytes r).
  - cbn [fst snd]. by destruct (lines_of_bytes (b ++ c)).
Qed.

Section Loops.
Context {St : Type}.
Variable on_data : St -> str -> list ProviderEvent * Flow St.
Variable utf8_error : bytes -> str.

(** One pass over the lines, up to the first that does not continue. *)
Fixpoint run_lines (s : St) (ls : list bytes) : list ProviderEvent * Flow St :=
  match ls with
  | [] => ([], Next s)
  | line :: r =>
    let (events, flow) := on_line on_data utf8_error s line in
    match flow with
    | Next s' => let (more, flow') := run_lines s' r in (events ++ more, flow')
    | _ => (events, flow)
    end
  end.

Lemma drain_lines_run fuel s b :
  length b <= fuel ->
  fst (drain_lines on_data utf8_error fuel s b) = run_lines s (fst (lines_of_bytes b)) /\
  (forall s', snd (run_lines s (fst (lines_of_bytes b))) = Next s' ->
     snd (drain_lines on_data utf8_error fuel s b) = snd (lines_of_bytes b)).
Proof.
  revert s b. induction fuel as [|fuel IH]; intros s b Hb.
  { destruct b; [done|simpl in Hb; lia]. }
  rewrite lines_step. cbn [drain_lines]. destruct (split_line b) as [[l r]|] eqn:E; [|done].
  apply split_line_length in E. destruct (lines_of_bytes r) as [ls p] eqn:Er. cbn [fst snd run_lines].
  destruct (on_line on_data utf8_error s l) as [evs flow]. destruct flow as [s1| | | |]; try done.
  destruct (IH s1 r ltac:(lia)) as [H1 H2]. rewrite Er in H1, H2. cbn [fst snd] in H1, H2.
  destruct (drain_lines on_data utf8_error fuel s1 r) as [[evs2 flow2] left2]. cbn [fst] in H1.
  destruct (run_lines s1 ls) as [evs3 flow3]. injection H1 as -> ->. split; [done|].
  intros s' Hs. by apply (H2 s').
Qed.

Lemma run_lines_app s ls ls' :
  run_lines s (ls ++ ls')
  = (let (events, flow) := run_lines s ls in
     match flow with
     | Next s' => let (more, flow') := run_lines s' ls' in (events ++ more, flow')
     | _ => (events, flow)
     end).
Proof.
  revert s. induction ls as [|l ls IH]; intros s; cbn [app run_lines].
  { by destruct (run_lines s ls'). }
  destruct (on_line on_data utf8_error s l) as [evs [s1| | | |]]; try done. rewrite IH.
  destruct (run_lines s1 ls) as [evs2 [s2| | | |]]; try done. destruct (run_lines s2 ls').
  by rewrite app_assoc.
Qed.

Variable status : Z.
Variable after_leaving : St -> Flow St.
Variable closed_message : str.

(** The body that [EmptyStream] quotes depends on the chunk it stands in. *)
Definition without_body (e : option ProviderError) : option ProviderError :=
  match e with Some (EmptyStream status _) => Some (EmptyStream status []) | _ => e end.

Definition line_result (closed : ProviderError) (r : list ProviderEvent * Flow St)
  : list ProviderEvent * option ProviderError :=
  (fst r, match snd r with
          | Next _ => Some closed
          | Leave s => ending status (after_leaving s) []
          | flow => ending status flow []
          end).

(** How the connection ends. *)
Definition broken (e : option str) : list (result bytes str) :=
  match e with Some message => [Err message] | None => [] end.

Lemma without_ending flow body :
  without_body (ending status flow body) = without_body (ending (St := St) status flow []).
Proof. by destruct flow. Qed.

(** The two loops are one pass over the lines of all bytes. *)
Lemma stream_chunks_lines s buffer sample truncated chunks e :
  split_line buffer = None ->
  let r := stream_chunks on_data utf8_error status after_leaving closed_message s buffer sample
             truncated (map Ok chunks ++ broken e) in
  let ref := line_result (StreamDisconnected (or_else e closed_message))
               (run_lines s (fst (lines_of_bytes (buffer ++ concat chunks)))) in
  fst r = fst ref /\ without_body (snd r) = without_body (snd ref).
Proof.
  revert s buffer sample truncated. induction chunks as [|chunk chunks IH]; intros s buffer sample truncated Hb.
  { cbn [map app concat]. rewrite app_nil_r, lines_step, Hb. by destruct e. }
  cbn [map app concat stream_chunks]. rewrite app_assoc.
  destruct (append_stream_body_sample _ _ _) as [sample' truncated'].
  destruct (drain_lines_run (length (buffer ++ chunk)) s (buffer ++ chunk) ltac:(lia)) as [H1 H2].
  rewrite lines_of_bytes_app. cbn [fst]. rewrite run_lines_app.
  destruct (drain_lines on_data utf8_error _ s (buffer ++ chunk)) as [[evs flow] partial].
  cbn [fst snd] in H1, H2. rewrite <- H1 in H2 |- *. cbn [snd] in H2.
  destruct flow as [s1|s1| | |]; cbn [line_result fst snd]; try (by rewrite (without_ending _ (format_stream_body_sample _ _))).
  specialize (H2 s1 eq_refl). subst partial.
  specialize (IH s1 (snd (lines_of_bytes (buffer ++ chunk))) sample' truncated' (lines_partial _)).
  destruct (stream_chunks _ _ _ _ _ s1 _ _ _ _) as [more r]. destruct IH as [IH1 IH2]. cbn [fst snd] in IH1, IH2.
  destruct (run_lines s1 _) as [evs2 flow2]. cbn [line_result fst snd] in IH1, IH2. subst more. done.
Qed.
Lemma stream_chunks_agree s chunks chunks' e :
  concat chunks = concat chunks' ->
  let run chunks := stream_chunks on_data utf8_error status after_leaving closed_message s [] [] false
                      (map Ok chunks ++ broken e) in
  fst (run chunks) = fst (run chunks') /\
  without_body (snd (run chunks)) = without_body (snd (run chunks')).
Proof.
  intros Hc run. unfold run.
  destruct (stream_chunks_lines s [] [] false chunks e eq_refl) as [-> ->].
  destruct (stream_chunks_lines s [] [] false chunks' e eq_refl) as [-> ->]. by rewrite Hc.
Qed.
End Loops.

Section Streams.
Context `{JsonText} `{JsonParse} `{StreamCodec}.

(** C27: The events of a stream and its end do not depend on how the bytes of the
    response are cut into chunks, in all three wire formats: also a line, or a
    character, that is split between chunks is read as one. Only the sample of the body
    that the error for an empty stream quotes may differ. *)
Theorem stream_chunking utf8_error status chunks chunks' e :
  concat chunks = concat chunks' ->
  let same a b := fst a = fst b /\ without_body (snd a) = without_body (snd b) in
  same (stream_chat_completions utf8_error status (map Ok chunks ++ broken e))
       (stream_chat_completions utf8_error status (map Ok chunks' ++ broken e)) /\
  same (stream_responses utf8_error status (map Ok chunks ++ broken e))
       (stream_responses utf8_error status (map Ok chunks' ++ broken e)) /\
  same (stream_anthropic_messages utf8_error status (map Ok chunks ++ broken e))
       (stream_anthropic_messages utf8_error status (map Ok chunks' ++ broken e)).
Proof.
  intros Hc same. split_and!; by apply stream_chunks_agree.
Qed.
End Streams.

(** ** The calls of a stream *)

Definition of_index (i : N) (deltas : list ToolCallDelta) : list ToolCallDelta :=
  filter (fun d => tcd_index d = i) deltas.
Definition last_value (field : ToolCallDelta -> option str) (deltas : list ToolCallDelta) : option str :=
  last (omap (fun d => non_empty (field d)) deltas).

(** The call of an index: the last identifier, kind and name that is not empty, and the
    arguments of all fragments in order. *)
Definition assembled (i : N) (deltas : list ToolCallDelta) : ToolCallAccumulator :=
  let own := of_index i deltas in
  mkAcc (last_value tcd_id own) (last_value tcd_kind own)
    (last_value (fun d => fd_name (tcd_function d)) own)
    (concat (map (fun d => or_else (fd_arguments (tcd_function d)) []) own)).

Lemma last_value_snoc field ds d :
  last_value field (ds ++ [d]) = newer (field d) (last_value field ds).
Proof.
  unfold last_value, newer. rewrite omap_app, last_app. cbn. unfold non_empty.
  destruct (field d) as [v|]; [|done]. by destruct (is_empty v).
Qed.

Lemma merge_snoc ds d :
  foldl merge_delta ∅ (ds ++ [d])
  = <[tcd_index d := merge (or_else (foldl merge_delta ∅ ds !! tcd_index d) empty_acc) d]>
      (foldl merge_delta ∅ ds).
Proof. by rewrite foldl_app. Qed.

Lemma assembled_lookup ds i :
  foldl merge_delta ∅ ds !! i
  = (if bool_decide (i ∈ map tcd_index ds) then Some (assembled i ds) else None).
Proof.
  induction ds as [|d ds IH] using rev_ind; [done|]. rewrite merge_snoc.
  assert (map tcd_index (ds ++ [d]) = map tcd_index ds ++ [tcd_index d]) as -> by apply map_app.
  destruct (decide (tcd_index d = i)) as [<-|Hne].
  - rewrite lookup_insert_eq. rewrite bool_decide_eq_true_2 by set_solver. f_equal.
    unfold assembled, of_index. rewrite filter_app, filter_cons_True, filter_nil by done.
    rewrite !last_value_snoc, map_app, concat_app. cbn [map concat]. rewrite app_nil_r.
    assert (or_else (foldl merge_delta ∅ ds !! tcd_index d) empty_acc = assembled (tcd_index d) ds) as ->; [|done].
    rewrite IH. case_bool_decide as Hin; [done|]. cbn [or_else]. unfold assembled, of_index.
    assert (filter (fun d0 => tcd_index d0 = tcd_index d) ds = []) as ->; [|done].
    apply elem_of_nil_inv. intros x [Hx Hxin]%list_elem_of_filter. apply Hin. rewrite <- Hx.
    by apply list_elem_of_fmap_2.
  - rewrite lookup_insert_ne by done. rewrite IH. unfold assembled, of_index.
    rewrite filter_app, filter_cons_False, filter_nil, app_nil_r by done.
    by rewrite (bool_decide_ext (i ∈ map tcd_index ds) (i ∈ map tcd_index ds ++ [tcd_index d])) by set_solver.
Qed.

(** The values of the map stand in the order of their keys. *)
Lemma into_values_spec (calls : Calls) :
  exists ixs, StronglySorted N.lt ixs /\ (forall i, i ∈ ixs <-> is_Some (calls !! i)) /\
             Forall2 (fun i a => calls !! i = Some a) ixs (into_values calls).
Proof.
  unfold into_values. set (le := fun a b : N * ToolCallAccumulator => (fst a <=? fst b)%N).
  pose proof (order_by_perm le (map_to_list calls)) as Hp.
  pose proof (order_by_sorted le (map_to_list calls)) as Hs.
  assert (forall a b, le a b = true \/ le b a = true) as Ht by (intros; unfold le; rewrite !N.leb_le; lia).
  specialize (Hs Ht). set (l := order_by le (map_to_list calls)) in *.
  exists (map fst l). split_and!.
  - assert (NoDup (map fst l)) as Hn.
    { rewrite (Permutation_map fst Hp). apply NoDup_fst_map_to_list. }
    clear -Hs Hn. apply Sorted_StronglySorted in Hs.
    2:{ intros a b c. unfold le. rewrite !N.leb_le. lia. }
    induction Hs as [|a l Hs IH Ha]; [constructor|]. cbn in Hn |- *. apply NoDup_cons in Hn as [Hni Hn].
    constructor; [by apply IH|]. apply Forall_forall. intros i (b & -> & Hb)%list_elem_of_fmap.
    rewrite Forall_forall in Ha. specialize (Ha b Hb). unfold le in Ha. apply N.leb_le in Ha.
    assert (fst a <> fst b); [|lia]. intros He. apply Hni. rewrite He. by apply list_elem_of_fmap_2.
  - intros i. split.
    + intros ([j a] & -> & Hin)%list_elem_of_fmap. rewrite Hp in Hin. apply elem_of_map_to_list in Hin. eauto.
    + intros [a Ha]. apply elem_of_map_to_list in Ha. rewrite <- Hp in Ha.
      by apply (list_elem_of_fmap_2 fst) in Ha.
  - assert (forall x, x ∈ l -> calls !! fst x = Some (snd x)) as Hl.
    { intros [i a] Hin. rewrite Hp in Hin. by apply elem_of_map_to_list in Hin. }
    clear -Hl. induction l as [|x l IH]; constructor; [apply Hl; left|apply IH; intros y Hy; apply Hl; by right].
Qed.

Lemma collect_results_ok {A B E} (f : A -> result B E) l bs :
  collect_results f l = Ok bs <-> Forall2 (fun a b => f a = Ok b) l bs.
Proof.
  revert bs. induction l as [|a l IH]; intros bs; cbn [collect_results].
  - split; [by intros [= <-]|]. by inversion 1.
  - unfold rbind. split.
    + destruct (f a) as [b|] eqn:Ef; [|done]. destruct (collect_results f l) as [bs'|]; [|done].
      intros [= <-]. constructor; [done|]. by apply IH.
    + inversion 1 as [|? b ? bs' Hf Hr]; subst. rewrite Hf. apply IH in Hr. by rewrite Hr.
Qed.

Section Assembly.
Context `{JsonText} `{JsonParse} `{StreamCodec}.

Lemma completed_calls_spec deltas truncated calls :
  completed_tool_calls (foldl merge_delta ∅ deltas) truncated = Ok calls ->
  exists ixs, StronglySorted N.lt ixs /\ (forall i, i ∈ ixs <-> i ∈ map tcd_index deltas) /\
             Forall2 (fun i call => finish_call (assembled i deltas) truncated = Ok call) ixs calls.
Proof.
  unfold completed_tool_calls. intros Hc%collect_results_ok.
  destruct (into_values_spec (foldl merge_delta ∅ deltas)) as (ixs & Hs & Hi & Hv).
  exists ixs. split_and!; [done| |].
  - intros i. rewrite Hi, assembled_lookup. case_bool_decide; split; intros Hx; try done; by destruct Hx.
  - revert calls Hc. clear Hs Hi. induction Hv as [|i a ixs l Ha Hv IH]; intros calls Hc; inversion Hc; subst; constructor.
    + rewrite assembled_lookup in Ha. case_bool_decide; [|done]. by injection Ha as ->.
    + by apply IH.
Qed.
End Assembly.

(** ** What a stream that ends well has yielded *)

(** The data of a line, if it is a [data:] line. *)
Definition data_of (line : bytes) : option str :=
  from_utf8 line ≫= fun text => trim <$> strip_prefix $"data:" (trim text).

Section Results.
Context `{JsonText} `{JsonParse} `{StreamCodec}.
Context (utf8_error : bytes -> str).

Section Rules.
Context {St : Type} (on_data : St -> str -> list ProviderEvent * Flow St).
Context (status : Z) (after_leaving : St -> Flow St) (closed_message : str).

Lemma on_line_data s line :
  on_line on_data utf8_error s line
  = match from_utf8 line with
    | None => ([], Raise (Utf8 (utf8_error line)))
    | Some _ => match data_of line with None => ([], Next s) | Some data => on_data s data end
    end.
Proof.
  unfold on_line, data_of. destruct (from_utf8 line) as [text|]; [|done]. cbn.
  by destruct (strip_prefix _ _).
Qed.

(** An invariant of the state and of what was yielded so far. *)
Lemma run_lines_invariant (P : list ProviderEvent -> St -> Prop) (Q : list ProviderEvent -> Prop) s ls evs0 evs flow :
  P evs0 s ->
  (forall evs s data, P evs s ->
     match on_data s data with
     | (evs', Next s') => P (evs ++ evs') s'
     | (evs', Leave s') => match after_leaving s' with Raise _ | RaiseEmpty => True | _ => Q (evs ++ evs') end
     | (evs', Return) => Q (evs ++ evs')
     | _ => True
     end) ->
  run_lines on_data utf8_error s ls = (evs, flow) ->
  match flow with
  | Next _ | Raise _ | RaiseEmpty => True
  | Leave s' => match after_leaving s' with Raise _ | RaiseEmpty => True | _ => Q (evs0 ++ evs) end
  | Return => Q (evs0 ++ evs)
  end.
Proof.
  intros HP Hstep. revert s evs0 evs HP. induction ls as [|line ls IH]; intros s evs0 evs HP; cbn [run_lines].
  { by intros [= <- <-]. }
  rewrite on_line_data. destruct (from_utf8 line); [|by intros [= <- <-]].
  destruct (data_of line) as [data|].
  - specialize (Hstep evs0 s data HP). destruct (on_data s data) as [evs1 [s1|s1| | |]].
    2-5: by intros [= <- <-].
    destruct (run_lines on_data utf8_error s1 ls) as [more flow1] eqn:E. intros [= <- <-].
    specialize (IH _ _ _ Hstep E). by rewrite <- app_assoc in IH.
  - destruct (run_lines on_data utf8_error s ls) as [more flow1] eqn:E. intros [= <- <-]. by apply (IH s evs0).
Qed.

Lemma ended_well s chunks events :
  stream_chunks on_data utf8_error status after_leaving closed_message s [] [] false (map Ok chunks)
  = (events, None) ->
  exists flow, run_lines on_data utf8_error s (fst (lines_of_bytes (concat chunks))) = (events, flow) /\
    match flow with
    | Return => True
    | Leave s' => match after_leaving s' with Raise _ | RaiseEmpty => False | _ => True end
    | _ => False
    end.
Proof.
  intros Hs. destruct (stream_chunks_lines on_data utf8_error status after_leaving closed_message s [] [] false chunks None eq_refl) as [H1' H2'].
  cbn [broken] in H1', H2'. rewrite app_nil_r, Hs in H1', H2'. cbn [fst snd app] in H1', H2'.
  destruct (run_lines _ _ _ _) as [evs flow]. cbn [line_result fst snd] in H1', H2'. subst events.
  exists flow. split; [done|]. destruct flow as [s1|s1| |e|]; try done; [|by destruct e].
  destruct (after_leaving s1) as [| | |e|]; try done. by destruct e.
Qed.
End Rules.

(** *** Output *)

Definition is_output (e : ProviderEvent) : bool :=
  match e with TextDelta text => negb (is_empty text) | EvToolCall _ => true | _ => false end.
Definition has_output (events : list ProviderEvent) : bool := existsb is_output events.

Lemma has_output_app a b : has_output (a ++ b) = has_output a || has_output b.
Proof. apply existsb_app. Qed.

Lemma trim_nonempty_text s : is_empty (trim s) = false -> is_empty s = false.
Proof. by destruct s. Qed.

Lemma finish_calls_output calls truncated events e :
  finish_calls calls truncated = (events, e) -> has_output events = negb (is_empty events).
Proof.
  revert events e. induction calls as [|a r IH]; intros events e; cbn [finish_calls]; [by intros [= <- <-]|].
  destruct (finish_call a truncated); [|by intros [= <- <-]].
  destruct (finish_calls r truncated). by intros [= <- <-].
Qed.

(** A stream that ends without an error has yielded output, a text that is not
    empty or a tool call; in all three wire formats every other end is an error. *)
Theorem ended_stream_has_output status chunks events :
  stream_chat_completions utf8_error status (map Ok chunks) = (events, None) \/
  stream_responses utf8_error status (map Ok chunks) = (events, None) \/
  stream_anthropic_messages utf8_error status (map Ok chunks) = (events, None) ->
  has_output events = true.
Proof.
  intros [Hs|[Hs|Hs]]; apply ended_well in Hs as (flow & Hrun & Hflow).
  - eapply (run_lines_invariant chat_data Next (fun evs s => cs_emitted_event s = has_output evs)
              (fun evs => has_output evs = true) _ _ []) in Hrun; [|done|].
    + by destruct flow.
    + intros evs s data He. unfold chat_data. destruct (data =s _).
      * destruct (completed_tool_calls _ _) as [calls|]; cbn [raise_or]; [|done].
        destruct (negb _ && is_empty calls) eqn:Ec; [done|]. rewrite has_output_app, <- He.
        destruct (cs_emitted_event s); [done|]. by destruct calls.
      * destruct (parse_chunk data) as [p|]; cbn [raise_or]; [|done]. cbn [cs_emitted_event].
        rewrite has_output_app, He. f_equal. rewrite !has_output_app.
        assert (forall A f (o : option A), (forall a, is_output (f a) = false) -> has_output (opt_event f o) = false) as Hn.
        { intros A f [a|] Hf; [|done]. cbn. by rewrite Hf. }
        rewrite !Hn by done. cbn [orb]. destruct (pk_content p) as [c|]; [|done].
        destruct (is_empty (trim c)) eqn:Et; [done|]. cbn. by rewrite trim_nonempty_text.
  - eapply (run_lines_invariant responses_data (fun emitted => if emitted : bool then Return else RaiseEmpty)
              (fun evs s => s = has_output evs)
              (fun evs => has_output evs = true) _ _ []) in Hrun; [|done|].
    + destruct flow as [|[]| | |]; done.
    + intros evs s data ->. unfold responses_data. destruct (data =s _); [by destruct (has_output evs) eqn:E; rewrite ?app_nil_r|].
      destruct (parse_responses_event data) as [[]|]; cbn [raise_or]; try done.
      * destruct (is_empty text) eqn:Et; [by rewrite app_nil_r|]. rewrite has_output_app. cbn. rewrite Et. by rewrite orb_true_r.
      * rewrite has_output_app. destruct (is_empty text); cbn; by rewrite orb_false_r.
      * rewrite has_output_app. cbn. by rewrite orb_false_r.
      * rewrite has_output_app. cbn. by rewrite orb_true_r.
      * destruct (has_output evs) eqn:E; [|done]. by rewrite has_output_app, E.
      * by rewrite app_nil_r.
  - eapply (run_lines_invariant messages_data (fun s => if ms_emitted_event s then Return else RaiseEmpty)
              (fun evs s => ms_emitted_event s = has_output evs)
              (fun evs => has_output evs = true) _ _ []) in Hrun; [|done|].
    + destruct flow as [|s| | |]; try done. destruct (ms_emitted_event s); done.
    + intros evs s data He. unfold messages_data.
      destruct (parse_anthropic_event data) as [[]|]; cbn [raise_or]; try done; rewrite ?app_nil_r; try done.
      * cbn. rewrite has_output_app, He. destruct model; by rewrite ?orb_false_r.
      * destruct (is_empty text) eqn:Et; [by rewrite app_nil_r|]. cbn. rewrite has_output_app. cbn. rewrite Et. by rewrite orb_true_r.
      * rewrite has_output_app, He. destruct (is_empty text); cbn; by rewrite orb_false_r.
      * destruct (finish_calls _ _) as [evs1 [e|]] eqn:Ef; [done|]. cbn [ms_emitted_event].
        apply finish_calls_output in Ef. rewrite He, <- Ef, !has_output_app.
        destruct (has_output evs || has_output evs1) eqn:E; [|done].
        apply orb_prop in E as [->| ->]; rewrite ?orb_true_r; done.
Qed.

(** *** The decoded chat stream *)

Definition chunk_text (p : ParsedChunk) : option str :=
  match pk_content p with
  | Some content => if is_empty (trim content) then None else Some content
  | None => None
  end.
Definition chunk_events (p : ParsedChunk) : list ProviderEvent :=
  opt_event ModelReported (pk_model p) ++ opt_event Usage (pk_usage p)
  ++ opt_event ReasoningDelta (pk_reasoning p) ++ opt_event TextDelta (chunk_text p).
(** The last reason that some chunk gives. *)
Definition cut_by_length (parsed : list ParsedChunk) : bool :=
  match last (omap pk_finish_reason parsed) with Some reason => reason =s $"length" | None => false end.

Definition chat_after (parsed : list ParsedChunk) : ChatState :=
  mkChatState (foldl merge_delta ∅ (concat (map pk_tool_calls parsed)))
    (existsb (fun p => bool_decide (is_Some (chunk_text p))) parsed) (cut_by_length parsed).

Lemma chat_data_chunk parsed data p :
  data <> $"[DONE]" -> parse_chunk data = Ok p ->
  chat_data (chat_after parsed) data = (chunk_events p, Next (chat_after (parsed ++ [p]))).
Proof.
  intros Hd Hp. unfold chat_data. apply str_eqb_false in Hd. rewrite Hd, Hp. cbn [raise_or].
  fold (chunk_text p). unfold chat_after at 4, cut_by_length. rewrite map_app, concat_app, foldl_app.
  cbn [map concat]. rewrite app_nil_r, existsb_app, omap_app, last_app. cbn. rewrite orb_false_r.
  by destruct (pk_finish_reason p).
Qed.

Lemma omap_step {A B} (f : A -> option B) a l :
  omap f (a :: l) = match f a with Some b => b :: omap f l | None => omap f l end.
Proof. done. Qed.

Lemma chat_never_leaves s ls events s' : run_lines chat_data utf8_error s ls <> (events, Leave s').
Proof.
  revert s events. induction ls as [|line ls IH]; intros s events; cbn [run_lines]; [done|].
  rewrite on_line_data. destruct (from_utf8 line); [|done].
  destruct (data_of line) as [data|].
  - unfold chat_data. destruct (data =s _).
    + destruct (completed_tool_calls _ _); cbn [raise_or]; [|done]. by destruct (_ && _).
    + destruct (parse_chunk data) as [p|]; cbn [raise_or]; [|done].
      destruct (run_lines _ _ _ ls) as [evs fl] eqn:E. intros [= <- ->]. by apply IH in E.
  - destruct (run_lines _ _ s ls) as [evs fl] eqn:E. intros [= <- ->]. by apply IH in E.
Qed.

Lemma chat_run parsed ls events flow :
  run_lines chat_data utf8_error (chat_after parsed) ls = (events, flow) -> flow = Return ->
  exists datas after more calls,
    omap data_of ls = datas ++ $"[DONE]" :: after /\
    Forall2 (fun d p => d <> $"[DONE]" /\ parse_chunk d = Ok p) datas more /\
    completed_tool_calls (cs_tool_calls (chat_after (parsed ++ more))) (cut_by_length (parsed ++ more)) = Ok calls /\
    events = concat (map chunk_events more) ++ map EvToolCall calls.
Proof.
  intros Hrun ->. revert parsed events Hrun. induction ls as [|line ls IH]; intros parsed events; cbn [run_lines]; [done|].
  rewrite on_line_data, omap_step. destruct (from_utf8 line) as [text|]; [|done].
  destruct (data_of line) as [data|].
  - destruct (decide (data = $"[DONE]")) as [->|Hne].
    + unfold chat_data. rewrite str_eqb_refl.
      destruct (completed_tool_calls _ _) as [calls|] eqn:Ec; cbn [raise_or]; [|done].
      destruct (_ && _); [done|]. intros [= <-]. exists [], (omap data_of ls), [], calls.
      rewrite app_nil_r. split_and!; [done|constructor|exact Ec|done].
    + destruct (parse_chunk data) as [p|] eqn:Ep.
      * rewrite (chat_data_chunk _ _ _ Hne Ep).
        destruct (run_lines _ _ (chat_after (parsed ++ [p])) ls) as [evs fl] eqn:E. intros [= <- ->].
        destruct (IH _ _ E) as (datas & after & more & calls & H1' & H2' & H3' & ->).
        exists (data :: datas), after, (p :: more), calls. rewrite <- app_assoc in H3'. split_and!.
        -- by rewrite H1'.
        -- by constructor.
        -- exact H3'.
        -- cbn. by rewrite app_assoc.
      * unfold chat_data. rewrite (proj2 (str_eqb_false _ _)) by done. rewrite Ep. done.
  - destruct (run_lines _ _ (chat_after parsed) ls) as [evs fl] eqn:E. intros [= <- ->]. by apply IH.
Qed.

(** C40: A chat stream that ends without an error has, before its first [DONE] line,
    data lines that all decode; it has yielded the events of the chunks in order and
    then one call for each index of the tool call fragments, in the order of the
    indices, put together from all fragments of the index: the last identifier, kind and
    name that is not empty and the concatenated arguments. *)
Theorem chat_stream_decodes status chunks events :
  stream_chat_completions utf8_error status (map Ok chunks) = (events, None) ->
  exists datas after parsed ixs calls,
    omap data_of (fst (lines_of_bytes (concat chunks))) = datas ++ $"[DONE]" :: after /\
    Forall2 (fun d p => d <> $"[DONE]" /\ parse_chunk d = Ok p) datas parsed /\
    events = concat (map chunk_events parsed) ++ map EvToolCall calls /\
    let deltas := concat (map pk_tool_calls parsed) in
    StronglySorted N.lt ixs /\ (forall i, i ∈ ixs <-> i ∈ map tcd_index deltas) /\
    Forall2 (fun i call => finish_call (assembled i deltas) (cut_by_length parsed) = Ok call) ixs calls.
Proof.
  intros Hs. apply ended_well in Hs as (flow & Hrun & Hflow).
  destruct flow as [s|s| |e|]; try done; [by apply chat_never_leaves in Hrun|].
  destruct (chat_run [] _ _ _ Hrun eq_refl) as (datas & after & parsed & calls & H1' & H2' & H3' & ->).
  apply completed_calls_spec in H3' as (ixs & Hs & Hi & Hc).
  exists datas, after, parsed, ixs, calls. by split_and!.
Qed.
End Results.

(** ** Behaviour that seems unintended, and witnesses *)

(** A codec for examples: [T] starts a fragment of a call with its index, [N] alone is a
    line break, any other text is content. *)
Definition demo_chunk (content : option str) (calls : list ToolCallDelta) : ChatCompletionChunk :=
  mkChunk None [mkChoice (mkDelta content None None calls) None] None.
Definition demo_codec : StreamCodec := {|
  event_value := fun _ => Err $"no value";
  event_chunk := fun data =>
    match data with
    | 84%N :: i :: arguments =>
      Ok (demo_chunk None [mkToolDelta (i - 48)%N (Some [i]) None (mkFunctionDelta (Some $"f") (Some arguments))])
    | [78%N] => Ok (demo_chunk (Some [LF]) [])
    | _ => Ok (demo_chunk (Some data) [])
    end;
  ends_early := fun _ => false |}.
Definition demo_parse : JsonParse := fun _ => Some JNull.

Definition demo_stream (chunks : list bytes) : list ProviderEvent * option ProviderError :=
  @stream_chat_completions demo_parse demo_codec (fun _ => []) 200 (map Ok chunks).
Definition demo_chunks : list bytes :=
  [as_bytes $"data: hé
data: T1{}
da"; as_bytes $"ta: T0{a
data: T0:1}
data: [DONE]
"].

(** The lines of a chat answer that hold only white space are lost: the deltas [a], a
    line break and [b] give the text [ab].  The other two formats keep such deltas. *)
Example chat_drops_blank_deltas :
  demo_stream [as_bytes $"data: a
data: N
data: b
data: [DONE]
"] = ([TextDelta $"a"; TextDelta $"b"], None).
Proof. vm_compute. reflexivity. Qed.

Theorem stream_chunking_witness :
  demo_stream [as_bytes $"data: hé
data: [DO"; as_bytes $"NE]
"] = ([TextDelta $"hé"], None) /\
  fst (demo_stream (map (fun b => [b]) (concat demo_chunks))) = fst (demo_stream demo_chunks).
Proof.
  split; [vm_compute; reflexivity|]. unfold demo_stream.
  rewrite <- (app_nil_r (map Ok (map _ _))), <- (app_nil_r (map Ok demo_chunks)).
  destruct (@stream_chunking (fun _ => []) demo_parse demo_codec (fun _ => []) 200%Z
              (map (fun b => [b]) (concat demo_chunks)) demo_chunks None) as [[He _] _]; [|exact He].
  vm_compute. reflexivity.
Defined.

Theorem ended_stream_has_output_witness :
  exists events, demo_stream demo_chunks = (events, None) /\ has_output events = true.
Proof.
  destruct (demo_stream demo_chunks) as [events e] eqn:E.
  assert (e = None) as -> by (vm_compute in E; by injection E as _ <-).
  exists events. split; [reflexivity|].
  apply (@ended_stream_has_output (fun _ => []) demo_parse demo_codec (fun _ => []) 200%Z demo_chunks events).
  left. exact E.
Defined.

Theorem chat_stream_decodes_witness :
  exists events, demo_stream demo_chunks = (events, None) /\
    exists datas after ixs, omap data_of (fst (lines_of_bytes (concat demo_chunks))) = datas ++ $"[DONE]" :: after /\
      StronglySorted N.lt ixs.
Proof.
  destruct (demo_stream demo_chunks) as [events e] eqn:E.
  assert (e = None) as -> by (vm_compute in E; by injection E as _ <-).
  destruct (@chat_stream_decodes demo_parse demo_codec (fun _ => []) 200%Z demo_chunks events E)
    as (datas & after & parsed & ixs & calls & Hd & _ & _ & Hs & _).
  exists events. split; [reflexivity|]. exists datas, after, ixs. split; [exact Hd|exact Hs].
Defined.
