(* ===== verification/ProviderWireFacts.v ===== *)
(** * What a request of a provider looks like

    The messages of an Anthropic request alternate and their tool results answer calls of
    the message before; the arguments of calls in the other formats are JSON. *)

From S2P Require Import Prelude.
From S2P Require Import Protocol.
From S2P Require Import Transcript.
From S2P Require Import Text.
From S2P Require Import ToolArgs.
From S2P Require Import Compression.
From S2P Require Import ProviderWire.

(** ** Anthropic messages *)

(** A message of the request: its role and its blocks. *)
Abbreviation Turn := (list N * list Value)%type.
Definition turn_json (t : Turn) : Value :=
  json [($"role", JString (fst t)); ($"content", JArray (snd t))].

Definition block_type (b : Value) : option str := json_get $"type" b ≫= as_str.
Definition result_id (b : Value) : option str :=
  if bool_decide (block_type b = Some $"tool_result") then json_get $"tool_use_id" b ≫= as_str else None.
Definition use_id (b : Value) : option str :=
  if bool_decide (block_type b = Some $"tool_use") then json_get $"id" b ≫= as_str else None.
Definition result_ids (t : Turn) : list str := omap result_id (snd t).
Definition use_ids (t : Turn) : list str := omap use_id (snd t).

(** A message has blocks, another role than the one before, and at most one result for a
    call; each result answers a call of the assistant's message before. *)
Definition turn_ok (prev : option Turn) (t : Turn) : Prop :=
  snd t <> [] /\ (forall p, prev = Some p -> fst p <> fst t) /\ NoDup (result_ids t) /\
  (forall id, id ∈ result_ids t ->
     fst t = $"user" /\ exists p, prev = Some p /\ fst p = $"assistant" /\ id ∈ use_ids p).
Fixpoint turns_ok (prev : option Turn) (ts : list Turn) : Prop :=
  match ts with
  | [] => True
  | t :: r => turn_ok prev t /\ turns_ok (Some t) r
  end.

Definition last_turn (prev : option Turn) (ts : list Turn) : option Turn :=
  match last ts with Some t => Some t | None => prev end.

Lemma last_turn_snoc prev ts t : last_turn prev (ts ++ [t]) = Some t.
Proof. unfold last_turn. by rewrite last_snoc. Qed.

Lemma last_turn_cons prev t ts : last_turn prev (t :: ts) = last_turn (Some t) ts.
Proof. unfold last_turn. rewrite last_cons. by destruct (last ts). Qed.

Lemma turns_ok_snoc prev ts t :
  turns_ok prev (ts ++ [t]) <-> turns_ok prev ts /\ turn_ok (last_turn prev ts) t.
Proof.
  revert prev. induction ts as [|u ts IH]; intros prev; cbn [app turns_ok]; [tauto|].
  rewrite IH, last_turn_cons. tauto.
Qed.

(** The blocks that the code builds. *)
Lemma result_id_result id content : result_id (tool_result_block id content) = Some id.
Proof. reflexivity. Qed.
Lemma result_id_text text : result_id (text_block text) = None.
Proof. reflexivity. Qed.
Lemma use_id_use `{JsonParse} call : use_id (tool_use_block call) = Some (ptc_id call).
Proof. reflexivity. Qed.
Lemma result_id_use `{JsonParse} call : result_id (tool_use_block call) = None.
Proof. reflexivity. Qed.

Lemma result_ids_content content : omap result_id (anthropic_content_blocks content) = [].
Proof.
  destruct content as [text|parts]; [done|]. cbn. induction parts as [|p parts IH]; [done|].
  cbn [omap list_omap]. destruct p as [text|url]; cbn [anthropic_part].
  - cbn [omap list_omap]. rewrite result_id_text. exact IH.
  - destruct (strip_prefix _ _); [|exact IH]. destruct (split_once_str _ _) as [[]|]; exact IH.
Qed.

Lemma result_ids_uses `{JsonParse} calls : omap result_id (map tool_use_block calls) = [].
Proof. induction calls as [|c calls IH]; [done|]. exact IH. Qed.

Lemma use_ids_uses `{JsonParse} calls : omap use_id (map tool_use_block calls) = map ptc_id calls.
Proof.
  induction calls as [|c calls IH]; [done|]. cbn [map omap list_omap]. rewrite use_id_use.
  by rewrite <- IH.
Qed.

(** [push_anthropic_message] on turns. *)
Definition push_turn (ts : list Turn) (role : str) (blocks : list Value) : list Turn :=
  match last ts with
  | Some t => if fst t =s role then removelast ts ++ [(role, snd t ++ blocks)]
              else ts ++ [(role, blocks)]
  | None => [(role, blocks)]
  end.

Lemma push_turns ts role blocks :
  push_anthropic_message (map turn_json ts) role blocks = map turn_json (push_turn ts role blocks).
Proof.
  induction ts as [|t ts IH]; [reflexivity|]. cbn [map push_anthropic_message].
  destruct ts as [|u ts].
  - cbn [map]. change (json_get $"role" (turn_json t) ≫= as_str) with (Some (fst t)).
    change (json_get $"content" (turn_json t) ≫= as_array) with (Some (snd t)).
    unfold push_turn. cbn [last removelast app]. destruct (fst t =s role) eqn:E; [|reflexivity].
    apply str_eqb_true in E. rewrite <- E. reflexivity.
  - unfold push_turn in *. rewrite last_cons_cons. cbn [map] in *. rewrite IH.
    destruct (last (u :: ts)) as [l|] eqn:El; [|by apply last_None in El].
    by destruct (fst l =s role).
Qed.

Lemma push_turn_spec ts role blocks :
  (exists pre c, ts = pre ++ [(role, c)] /\ push_turn ts role blocks = pre ++ [(role, c ++ blocks)]) \/
  ((forall p, last ts = Some p -> fst p <> role) /\ push_turn ts role blocks = ts ++ [(role, blocks)]).
Proof.
  unfold push_turn. destruct (last ts) as [t|] eqn:El.
  - apply last_Some in El as [pre ->]. destruct (fst t =s role) eqn:E.
    + apply str_eqb_true in E. left. exists pre, (snd t). rewrite removelast_last.
      split; [|done]. do 2 f_equal. destruct t; cbn in *; congruence.
    + right. apply str_eqb_false in E. split; [by intros p [= <-]|done].
  - apply last_None in El as ->. right. split; [done|done].
Qed.

(** The calls that wait for a result belong to the last message of the assistant, and
    nothing but one message of the user follows it. *)
Definition pending_ok (ts : list Turn) (pending : gset (list N)) : Prop :=
  pending = ∅ \/
  exists pre a tail, ts = pre ++ a :: tail /\ fst a = $"assistant" /\
    (forall id, id ∈ pending -> id ∈ use_ids a) /\
    (tail = [] \/ exists u, tail = [u] /\ fst u = $"user" /\ forall id, id ∈ pending -> id ∉ result_ids u).

Definition inv (st : AnthropicState) : Prop :=
  exists ts, an_messages st = map turn_json ts /\ turns_ok None ts /\
             pending_ok ts (an_pending_tool_use_ids st).

(** Blocks without results may be pushed. *)
Lemma push_plain ts role blocks :
  turns_ok None ts -> blocks <> [] -> omap result_id blocks = [] ->
  turns_ok None (push_turn ts role blocks).
Proof.
  intros Ht Hb Hr. destruct (push_turn_spec ts role blocks) as [(pre & c & -> & ->)|[Hl ->]].
  - apply turns_ok_snoc in Ht as [Hp (Hc & Hd & Hn & Hi)]. apply turns_ok_snoc. split; [done|].
    unfold turn_ok, result_ids in *. cbn [fst snd] in *. rewrite omap_app, Hr, app_nil_r.
    split_and!; [by destruct c|done|done|done].
  - apply turns_ok_snoc. split; [done|]. unfold turn_ok, result_ids. cbn [fst snd]. rewrite Hr.
    split_and!; [done| |constructor|by intros id Hid%elem_of_nil]. intros p Hp. apply Hl.
    unfold last_turn in Hp. by destruct (last ts).
Qed.

(** A text of the user keeps what is pending. *)
Lemma pending_text ts text pending :
  pending_ok ts pending -> pending_ok (push_turn ts $"user" [text_block text]) pending.
Proof.
  intros [->|(pre & a & tail & -> & Ha & Hu & Ht)]; [by left|]. right.
  destruct (push_turn_spec (pre ++ a :: tail) $"user" [text_block text]) as [(pre' & c & E & ->)|[Hl ->]].
  - destruct Ht as [->|(u & -> & Hur & Hun)].
    + apply app_inj_tail in E as [_ ->]. discriminate Ha.
    + change (a :: [u]) with ([a] ++ [u]) in E. rewrite app_assoc in E. apply app_inj_tail in E as [<- ->].
      exists pre, a, [($"user", c ++ [text_block text])]. rewrite <- app_assoc. split_and!; [done..|].
      right. eexists. split; [done|]. split; [done|]. intros id Hid. unfold result_ids in *. cbn [snd] in *.
      rewrite omap_app. cbn [omap list_omap]. rewrite result_id_text, app_nil_r. by apply Hun.
  - destruct Ht as [->|(u & -> & Hur & Hun)].
    + exists pre, a, [($"user", [text_block text])]. rewrite <- app_assoc. split_and!; [done..|].
      right. eexists. split; [done|]. split; [done|]. intros id Hid. unfold result_ids. cbn [snd omap list_omap].
      rewrite result_id_text. apply not_elem_of_nil.
    + exfalso. apply (Hl u); [|done]. by rewrite last_app.
Qed.

(** A result of a pending call. *)
Lemma push_result ts id content pending :
  turns_ok None ts -> pending_ok ts pending -> id ∈ pending ->
  let ts' := push_turn ts $"user" [tool_result_block id content] in
  turns_ok None ts' /\ pending_ok ts' (pending ∖ {[ id ]}).
Proof.
  intros Hts [->|(pre & a & tail & -> & Ha & Hu & Ht)] Hid; [set_solver|]. cbv zeta.
  destruct (push_turn_spec (pre ++ a :: tail) $"user" [tool_result_block id content]) as [(pre' & c & E & ->)|[Hl ->]].
  - destruct Ht as [->|(u & -> & Hur & Hun)].
    { apply app_inj_tail in E as [_ ->]. discriminate Ha. }
    change (a :: [u]) with ([a] ++ [u]) in E, Hts. rewrite app_assoc in E, Hts. apply app_inj_tail in E as [<- ->].
    apply turns_ok_snoc in Hts as [Hp (Hc & Hd & Hn & Hi)]. rewrite last_turn_snoc in Hd, Hi.
    unfold result_ids in Hn, Hi, Hun. cbn [fst snd] in *. split.
    + apply turns_ok_snoc. split; [done|]. rewrite last_turn_snoc. unfold turn_ok, result_ids. cbn [fst snd].
      rewrite omap_app. cbn [omap list_omap]. rewrite result_id_result. split_and!.
      * by destruct c.
      * done.
      * apply NoDup_app. split; [done|]. split; [|apply NoDup_singleton].
        intros x Hx ->%list_elem_of_singleton. by apply (Hun id).
      * intros x [Hx| ->%list_elem_of_singleton]%elem_of_app; [by apply Hi|]. split; [done|]. exists a. auto.
    + right. exists pre, a, [($"user", c ++ [tool_result_block id content])]. rewrite <- app_assoc.
      split_and!; [done|done|intros x Hx; apply Hu; set_solver|]. right. eexists. split; [done|]. split; [done|].
      intros x Hx. unfold result_ids. cbn [snd]. rewrite omap_app. cbn [omap list_omap]. rewrite result_id_result.
      rewrite not_elem_of_app, list_elem_of_singleton. split; [apply Hun; set_solver|set_solver].
  - destruct Ht as [->|(u & -> & Hur & Hun)].
    2:{ exfalso. apply (Hl u); [|done]. by rewrite last_app. }
    split.
    + apply turns_ok_snoc. split; [done|]. rewrite last_turn_snoc. unfold turn_ok, result_ids. cbn [fst snd omap list_omap].
      rewrite result_id_result. split_and!; [done|intros p [= <-]; rewrite Ha; discriminate|apply NoDup_singleton|].
      intros x ->%list_elem_of_singleton. split; [done|]. exists a. auto.
    + right. exists pre, a, [($"user", [tool_result_block id content])]. rewrite <- app_assoc.
      split_and!; [done|done|intros x Hx; apply Hu; set_solver|]. right. eexists. split; [done|]. split; [done|].
      intros x Hx. unfold result_ids. cbn [snd omap list_omap]. rewrite result_id_result, list_elem_of_singleton. set_solver.
Qed.

Section Anthropic.
Context `{JsonParse}.

Lemma anthropic_step_inv st m : inv st -> inv (anthropic_step st m).
Proof.
  intros (ts & Hm & Ht & Hp). unfold anthropic_step.
  destruct (cm_role m =s $"system"); [by destruct (cm_content m); exists ts|].
  destruct (cm_role m =s $"tool").
  - case_bool_decide as Hid.
    + destruct (push_result ts _ (or_else (anthropic_content_blocks <$> cm_content m) []) _ Ht Hp Hid) as [H1 H2].
      exists (push_turn ts $"user" [tool_result_block (or_else (cm_tool_call_id m) [])
                 (or_else (anthropic_content_blocks <$> cm_content m) [])]).
      cbn [an_messages an_pending_tool_use_ids]. by rewrite Hm, push_turns.
    + destruct (chat_content_as_text <$> cm_content m) as [content|]; [|by exists ts].
      destruct (is_empty (trim content)); [by exists ts|].
      eexists. cbn [an_messages an_pending_tool_use_ids]. rewrite Hm, push_turns.
      split; [done|]. split; [by apply push_plain|by apply pending_text].
  - set (calls := or_else (cm_tool_calls m) []).
    set (blocks := or_else (anthropic_content_blocks <$> cm_content m) [] ++ map tool_use_block calls).
    assert (omap result_id blocks = []) as Hr.
    { unfold blocks. rewrite omap_app, result_ids_uses, app_nil_r.
      destruct (cm_content m); [apply result_ids_content|done]. }
    destruct (is_empty blocks) eqn:Eb.
    + exists ts. cbn [an_messages an_pending_tool_use_ids]. split_and!; [done|done|]. left.
      destruct (cm_role m =s $"assistant"); [|done].
      destruct calls; [done|]. unfold blocks in Eb. by destruct (or_else (_ <$> cm_content m) []).
    + assert (blocks <> []) as Hb by (by intros ->).
      exists (push_turn ts (cm_role m) blocks). cbn [an_messages an_pending_tool_use_ids]. rewrite Hm, push_turns.
      split; [done|]. split; [by apply push_plain|].
      destruct (cm_role m =s $"assistant") eqn:Ea; [|by left]. apply str_eqb_true in Ea. rewrite Ea. right.
      assert (forall id, id ∈ (list_to_set (map ptc_id calls) : gset (list N)) -> id ∈ omap use_id blocks) as Hu.
      { intros id Hid. rewrite elem_of_list_to_set in Hid. unfold blocks. rewrite omap_app, use_ids_uses, elem_of_app. by right. }
      destruct (push_turn_spec ts $"assistant" blocks) as [(pre & c & -> & ->)|[Hl ->]].
      * exists pre, ($"assistant", c ++ blocks), []. split_and!; [done|done| |by left].
        intros id Hid%Hu. unfold use_ids. cbn [snd]. rewrite omap_app, elem_of_app. by right.
      * exists ts, ($"assistant", blocks), []. by split_and!; [| | |left].
Qed.

Lemma json_get_set key v key' body :
  key <> key' -> json_get key (set_field key' v body) = json_get key body.
Proof.
  intros Hne. destruct body as [| | | | | |fields]; try done. cbn.
  induction fields as [|[k x] r IH]; cbn.
  - by rewrite (proj2 (str_eqb_false _ _)) by congruence.
  - destruct (key' =s k) eqn:E.
    + apply str_eqb_true in E as <-. cbn. by rewrite (proj2 (str_eqb_false _ _)) by congruence.
    + destruct (str_ltb key' k); cbn.
      * by rewrite (proj2 (str_eqb_false key' key)) by congruence.
      * by destruct (k =s key).
Qed.


(** ** Arguments of calls *)

(** No request in the chat or the responses format carries a call whose arguments do
    not parse as JSON, whatever the history holds; all else of the messages is kept. *)
Theorem sanitized_calls_parse messages m call :
  from_str $"{}" <> None ->
  m ∈ sanitize_tool_call_arguments messages -> call ∈ or_else (cm_tool_calls m) [] ->
  from_str (ptc_arguments call) <> None /\
  map (fun m => (cm_role m, cm_content m, cm_tool_call_id m)) (sanitize_tool_call_arguments messages)
  = map (fun m => (cm_role m, cm_content m, cm_tool_call_id m)) messages.
Proof.
  intros Hempty (m0 & -> & _)%list_elem_of_fmap Hc. split.
  - cbn in Hc. destruct (cm_tool_calls m0) as [calls|]; [|by apply elem_of_nil in Hc].
    apply list_elem_of_fmap in Hc as (call0 & -> & _). unfold sanitize_call.
    destruct (from_str (ptc_arguments call0)) eqn:E; cbn; [by rewrite E|done].
  - unfold sanitize_tool_call_arguments. rewrite map_map. by apply map_ext.
Qed.
End Anthropic.
