(* ===== verification/ProviderConfigFacts.v ===== *)
(** * The normal form of the provider settings

    A base address loses exactly its trailing slashes and version segments; the keys of a
    provider get identifiers of their own, which a second pass keeps; a normalized
    configuration is well formed whatever was in the file. *)

From S2P Require Import Prelude.
From S2P Require Import Protocol.
From S2P Require Import Routing.
From S2P Require Import Text.
From S2P Require Import Sql.
From S2P Require Import CoreText.
From S2P Require Import ProviderWire.
From S2P Require Import ProviderConfig.

(** ** Decimal numbers *)

Definition digits (s : str) : Prop := Forall (fun b => is_ascii_digit b = true) s.

Lemma digit_range b : is_ascii_digit b = true -> (48 <= b <= 57)%N.
Proof. unfold is_ascii_digit, in_range. intros [H1%N.leb_le H2%N.leb_le]%andb_prop. lia. Qed.

Lemma utf8_decode_digits bs : digits bs -> utf8_decode bs = bs.
Proof.
  induction 1 as [|b bs Hb%digit_range Hbs IH]; [done|]. cbn [utf8_decode].
  by rewrite (proj2 (N.ltb_lt b 128)), IH by lia.
Qed.

Lemma bytes_of_inj s t : bytes_of s = bytes_of t -> s = t.
Proof.
  revert t. induction s as [|a s IH]; intros [|b t]; cbn; try done. intros [= Hab Hst].
  f_equal; [|by apply IH]. rewrite <- (Ascii.ascii_N_embedding a), <- (Ascii.ascii_N_embedding b).
  by f_equal.
Qed.

Lemma pretty_go_digits x s : digits (bytes_of s) -> digits (bytes_of (pretty_N_go x s)).
Proof.
  revert s. induction (N.lt_wf_0 x) as [x _ IH]; intros s Hs.
  assert (x = 0 \/ 0 < x)%N as [->|Hx] by lia; [by rewrite pretty_N_go_0|].
  rewrite pretty_N_go_step by done. apply IH; [by apply N.div_lt|].
  constructor; [|done]. unfold pretty_N_char. by repeat case_match.
Qed.

Lemma pretty_digits (n : N) : digits (bytes_of (pretty n)).
Proof.
  unfold pretty, pretty_N. case_decide; [by repeat constructor|]. apply pretty_go_digits. constructor.
Qed.

Lemma show_N_bytes n : show_N n = bytes_of (pretty n).
Proof. apply utf8_decode_digits, pretty_digits. Qed.

Lemma show_N_inj a b : show_N a = show_N b -> a = b.
Proof. rewrite !show_N_bytes. by intros Hb%bytes_of_inj%(inj pretty). Qed.

Lemma key_id_inj i j : key_id i = key_id j -> i = j.
Proof. unfold key_id, show_nat. intros Hij%app_inv_head%show_N_inj. lia. Qed.

(** ** Trimming *)

Lemma non_blank_spec o v : non_blank o = Some v -> trim v = v /\ v <> [].
Proof.
  unfold non_blank. destruct o as [s|]; cbn; [|done]. destruct (is_empty (trim s)) eqn:E; [done|].
  intros [= <-]. split; [apply trim_idem|]. intros Ht. by rewrite Ht in E.
Qed.

(** ** Base addresses *)

Inductive root_suffix : str -> Prop :=
| suffix_nil : root_suffix []
| suffix_slash s : root_suffix s -> root_suffix (SLASH :: s)
| suffix_version v s : to_ascii_lowercase v = $"/v1" -> root_suffix s -> root_suffix (v ++ s).

Lemma suffix_slashes l s :
  Forall (fun c => (SLASH =? c)%N = true) l -> root_suffix s -> root_suffix (l ++ s).
Proof. induction 1 as [|c l Hc Hl IH]; [done|]. intros Hs. apply N.eqb_eq in Hc as <-. constructor. by apply IH. Qed.

Lemma byte_len_ge s : length s <= byte_len s.
Proof.
  unfold byte_len, as_bytes. induction s as [|c s IH]; [done|]. cbn [map concat length].
  rewrite length_app. unfold utf8_char at 1. repeat case_match; simpl; lia.
Qed.

Definition has_root (s : str) : Prop :=
  ends_with [SLASH] s = false /\ ends_with $"/v1" (to_ascii_lowercase s) = false.

Lemma lower_app_inv s r p :
  to_ascii_lowercase s = r ++ p ->
  to_ascii_lowercase (drop (length r) s) = p /\ length s = length r + length p.
Proof.
  intros Hs. unfold to_ascii_lowercase in *. split.
  - transitivity (drop (length r) (map lower_char s)).
    + symmetry. apply skipn_map.
    + by rewrite Hs, drop_app_length.
  - apply (f_equal length) in Hs. rewrite length_map, length_app in Hs. lia.
Qed.

Lemma strip_root_spec fuel value :
  length value < fuel ->
  exists suffix, value = strip_root fuel value ++ suffix /\ root_suffix suffix /\
                 has_root (strip_root fuel value).
Proof.
  revert value. induction fuel as [|fuel IH]; intros value Hl; [lia|]. cbn [strip_root].
  destruct (trim_end_spec (N.eqb SLASH) value) as (l & Hv & Hf & Hlast).
  destruct (trim_end_matches (N.eqb SLASH) value =s value) eqn:E; cbn [negb].
  - apply str_eqb_true in E. rewrite E in Hlast.
    destruct ((3 <=? byte_len value) && ends_with $"/v1" (to_ascii_lowercase value)) eqn:Ev.
    + apply andb_prop in Ev as [_ Ev]. apply ends_with_true in Ev as [r Hr].
      destruct (lower_app_inv _ _ _ Hr) as [Hd Hlen]. change (length $"/v1") with 3 in Hlen.
      replace (length value - 3) with (length r) by lia.
      destruct (IH (take (length r) value)) as (suffix & Hs & Hrs & Hroot).
      { rewrite length_take. lia. }
      exists (suffix ++ drop (length r) value). split; [|split; [|done]].
      * rewrite app_assoc, <- Hs. by rewrite take_drop.
      * clear -Hrs Hd. induction Hrs as [|s Hs IHs|v s Hv Hs IHs].
        -- cbn. rewrite <- (app_nil_r (drop _ _)). by constructor; [|constructor].
        -- cbn. by constructor.
        -- rewrite <- app_assoc. by constructor.
    + exists []. rewrite app_nil_r. split; [done|]. split; [constructor|]. split.
      * apply not_true_iff_false. intros [r Hr]%ends_with_true. specialize (Hlast r SLASH Hr). discriminate.
      * apply andb_false_iff in Ev as [Ev|Ev]; [|done]. apply Nat.leb_gt in Ev.
        apply not_true_iff_false. intros [r Hr]%ends_with_true.
        apply lower_app_inv in Hr as [_ Hr]. change (length $"/v1") with 3 in Hr.
        pose proof (byte_len_ge value). lia.
  - apply str_eqb_false in E. destruct (IH (trim_end_matches (N.eqb SLASH) value)) as (suffix & Hs & Hrs & Hroot).
    { assert (l <> []) by (intros ->; rewrite app_nil_r in Hv; congruence).
      apply (f_equal length) in Hv. rewrite length_app in Hv. destruct l; [done|simpl in Hv; lia]. }
    exists (suffix ++ l). split; [by rewrite app_assoc, <- Hs|]. split; [|done].
    clear -Hrs Hf. induction Hrs as [|s Hs IHs|v s Hv Hs IHs].
    + rewrite app_nil_l, <- (app_nil_r l). by apply suffix_slashes; [|constructor].
    + cbn. by constructor.
    + rewrite <- app_assoc. by constructor.
Qed.

(** Normalizing a base address ends with an address that has no slash and no version
    segment at its end, and removes nothing but white space around it and trailing slashes
    and version segments in any letter case. *)
Theorem base_url_normal input :
  exists suffix, trim input = normalize_base_url input ++ suffix /\ root_suffix suffix /\
                 has_root (normalize_base_url input).
Proof.
  unfold normalize_base_url. apply strip_root_spec. pose proof (trim_matches_length is_whitespace input) as Hl.
  unfold trim. lia.
Qed.

(** ** Keys *)

Lemma one_of_spec x l : one_of x l = true <-> x ∈ l.
Proof. rewrite one_of_true. done. Qed.

(** [x] is in normal form and not blank. *)
Definition tidy (x : str) : Prop := trim x = x /\ x <> [].

Lemma tidy_trim s : is_empty (trim s) = false -> tidy (trim s).
Proof. intros Hs. split; [apply trim_idem|]. intros Ht. by rewrite Ht in Hs. Qed.

Lemma tidy_key_id i : tidy (key_id i).
Proof.
  split; [|done]. unfold trim, trim_matches, trim_start_matches.
  rewrite drop_while_id by (intros c r [= <- _]; done). apply trim_end_id. intros x c Hx.
  assert (c ∈ key_id i) as Hc by (rewrite Hx; set_solver).
  unfold key_id in Hc. apply elem_of_app in Hc as [Hc|Hc].
  - change ($"key-") with [107; 101; 121; 45]%N in Hc. revert Hc. rewrite !elem_of_cons, elem_of_nil.
    by intros [->|[->|[->|[->|[]]]]].
  - unfold show_nat in Hc. rewrite show_N_bytes in Hc. pose proof (pretty_digits (N.of_nat i)) as Hd.
    unfold digits in Hd. rewrite Forall_forall in Hd. apply Hd, digit_range in Hc.
    unfold is_whitespace. repeat (rewrite orb_false_iff; split); unfold in_range;
      rewrite ?andb_false_iff, ?N.eqb_neq, ?N.leb_gt; lia.
Qed.

Lemma fresh_key_loop fuel seen id index :
  let r := fresh_key_id fuel seen id index in
  (fst r = id \/ exists j, fst r = key_id j) /\
  (id = key_id index -> fst r ∉ seen \/ forall k, k < fuel -> key_id (index + k) ∈ seen) /\
  (id ∉ seen -> 0 < fuel -> fst r = id).
Proof.
  revert id index. induction fuel as [|fuel IH]; intros id index; cbn [fresh_key_id].
  { split_and!; [by left|intros _; right; lia|lia]. }
  destruct (one_of id seen) eqn:E.
  - apply one_of_spec in E. destruct (IH (key_id (S index)) (S index)) as (H1 & H2 & _). split_and!.
    + right. destruct H1 as [-> | ?]; eauto.
    + intros ->. destruct (H2 eq_refl) as [?|Hk]; [by left|]. right. intros [|k] Hlt.
      * by rewrite Nat.add_0_r.
      * replace (index + S k) with (S index + k) by lia. apply Hk. lia.
    + done.
  - split_and!; [by left| |done]. intros _. left. intros Hin%one_of_spec. cbn in Hin. congruence.
Qed.

(** The loop finds an identifier that is not taken: the ids it tries are different. *)
Lemma fresh_key_fresh seen id index :
  id ∉ seen \/ id = key_id index -> fst (fresh_key_id (S (length seen)) seen id index) ∉ seen.
Proof.
  destruct (fresh_key_loop (S (length seen)) seen id index) as (_ & H2 & H3).
  intros [Hn|Hk]; [by rewrite H3 by (done || lia)|]. destruct (H2 Hk) as [?|Hall]; [done|]. exfalso.
  assert (NoDup (map (fun k => key_id (index + k)) (seq 0 (S (length seen))))) as Hnd.
  { apply NoDup_fmap_2; [|apply NoDup_seq]. intros a b E%key_id_inj. lia. }
  assert (map (fun k => key_id (index + k)) (seq 0 (S (length seen))) ⊆ seen) as Hsub.
  { intros x (k & -> & Hk')%list_elem_of_fmap. apply elem_of_seq in Hk'. apply Hall. lia. }
  apply NoDup_submseteq in Hsub; [|done].
  apply submseteq_length in Hsub. rewrite length_map, length_seq in Hsub. lia.
Qed.

Definition key_ok (k : ProviderApiKey) : Prop :=
  tidy (ak_key k) /\ tidy (ak_id k) /\ trim (ak_label k) = ak_label k
  /\ (ak_weight k <= MAX_PROVIDER_KEY_WEIGHT)%Z.

Lemma normalize_keys_wf entries seen index :
  let ks := normalize_keys entries seen index in
  Forall key_ok ks /\ NoDup (map ak_id ks) /\ (forall k, k ∈ ks -> ak_id k ∉ seen) /\
  map ak_key ks = filter (fun key => key <> []) (map (fun e => trim (ak_key e)) entries).
Proof.
  revert seen index. induction entries as [|e r IH]; intros seen index; cbn [normalize_keys].
  { split_and!; [constructor|constructor|set_solver|done]. }
  destruct (is_empty (trim (ak_key e))) eqn:Ek.
  { destruct (IH seen (S index)) as (H1 & H2 & H3 & H4). split_and!; [done..|]. rewrite H4. cbn [map].
    rewrite filter_cons_False; [done|]. intros Hne. by destruct (trim (ak_key e)). }
  set (id := if is_empty (trim (ak_id e)) || one_of (trim (ak_id e)) seen then key_id (S index) else trim (ak_id e)).
  assert (id ∉ seen \/ id = key_id (S index)) as Hid.
  { unfold id. destruct (_ || _) eqn:E; [by right|]. left. apply orb_false_iff in E as [_ E].
    intros Hin%one_of_spec. congruence. }
  assert (tidy id) as Htidy.
  { unfold id. destruct (_ || _) eqn:E; [apply tidy_key_id|]. apply orb_false_iff in E as [E _]. by apply tidy_trim. }
  pose proof (fresh_key_fresh seen id (S index) Hid) as Hfresh.
  destruct (fresh_key_loop (S (length seen)) seen id (S index)) as (Hform & _ & _).
  destruct (fresh_key_id _ seen id (S index)) as [id' index']. cbn [fst] in Hfresh, Hform.
  destruct (IH (id' :: seen) index') as (H1 & H2 & H3 & H4). split_and!.
  - constructor; [|done]. split_and!; cbn.
    + by apply tidy_trim.
    + destruct Hform as [-> | [j ->]]; [done|apply tidy_key_id].
    + apply trim_idem.
    + lia.
  - cbn. constructor; [|done]. intros (k & Hk & Hin)%list_elem_of_fmap. apply H3 in Hin. rewrite <- Hk in Hin. set_solver.
  - intros k [->|Hin]%elem_of_cons; [done|]. apply H3 in Hin. set_solver.
  - cbn [map ak_key]. rewrite H4, filter_cons_True; [done|]. intros Hn. by rewrite Hn in Ek.
Qed.

Lemma normalize_keys_id ks seen index :
  Forall key_ok ks -> NoDup (map ak_id ks) -> (forall k, k ∈ ks -> ak_id k ∉ seen) ->
  normalize_keys ks seen index = ks.
Proof.
  intros Hok. revert seen index. induction Hok as [|k ks (Hk & Hi & Hl & Hw) Hok IH]; intros seen index Hn Hs; [done|].
  cbn [map] in Hn. apply NoDup_cons in Hn as [Hni Hn]. cbn [normalize_keys].
  destruct Hk as [Hk1 Hk2], Hi as [Hi1 Hi2]. rewrite Hk1, Hi1, Hl.
  destruct (is_empty (ak_key k)) eqn:Ek; [by destruct (ak_key k)|].
  assert (ak_id k ∉ seen) as Hns by (apply Hs; left).
  assert (one_of (ak_id k) seen = false) as -> by (apply not_true_iff_false; by rewrite one_of_spec).
  assert (is_empty (ak_id k) = false) as -> by (by destruct (ak_id k)). cbn [orb].
  cbn [fresh_key_id]. assert (one_of (ak_id k) seen = false) as -> by (apply not_true_iff_false; by rewrite one_of_spec).
  rewrite Z.min_l by done. rewrite IH; [by destruct k|done|].
  intros k' Hk'. rewrite elem_of_cons. intros [He|Hin]; [|by apply (Hs k'); [by right|]].
  apply Hni. rewrite <- He. by apply list_elem_of_fmap_2.
Qed.

(** The normal form of a provider's keys has exactly the keys that are not blank,
    in order and trimmed, with identifiers that are all different and not blank and with
    bounded weights; normalizing it again changes nothing, so the identifiers under
    which the health of the keys is kept survive every later load and save. *)
Theorem provider_keys_stable p :
  let q := normalize_provider_api_keys p in
  map ak_key (cp_api_keys q) = filter (fun key => key <> []) (map (fun e => trim (ak_key e)) (cp_api_keys p)) /\
  NoDup (map ak_id (cp_api_keys q)) /\ Forall key_ok (cp_api_keys q) /\
  normalize_provider_api_keys q = q.
Proof.
  cbv zeta. destruct (normalize_keys_wf (cp_api_keys p) [] 0) as (H1 & H2 & H3 & H4). split_and!; [done..|].
  unfold normalize_provider_api_keys. cbn. f_equal. by apply normalize_keys_id.
Qed.

(** ** The configuration *)

Lemma elem_of_btree_insert {V} k (v : V) m x : x ∈ btree_insert k v m -> x = (k, v) \/ x ∈ m.
Proof.
  induction m as [|[k' v'] m IH]; cbn [btree_insert].
  - rewrite list_elem_of_singleton. by left.
  - destruct (k =s k'); [rewrite !elem_of_cons; tauto|]. destruct (str_ltb k k'); rewrite !elem_of_cons; tauto.
Qed.

Lemma elem_of_collect_map {V} (entries : list (list N * V)) x : x ∈ collect_map entries -> x ∈ entries.
Proof.
  unfold collect_map. induction entries as [|e r IH] using rev_ind; [done|].
  rewrite foldl_app. cbn. intros [->|Hx]%elem_of_btree_insert; [|set_solver].
  destruct e. set_solver.
Qed.

Definition provider_ok (p : CloudProviderConfig) : Prop :=
  cp_id p <> [] /\ cp_name p <> [] /\ cp_base_url p <> [] /\ has_root (cp_base_url p) /\
  (forall key, cp_api_key p = Some key -> tidy key) /\
  Forall key_ok (cp_api_keys p) /\ NoDup (map ak_id (cp_api_keys p)).

Lemma normalize_provider_ok millis p : provider_ok (normalize_provider millis p).
Proof.
  unfold normalize_provider. unfold provider_ok. cbn [cp_id cp_name cp_base_url cp_api_key cp_api_keys normalize_provider_api_keys].
  destruct (normalize_keys_wf (cp_api_keys p) [] 0) as (H1 & H2 & _). split_and!; [| | | | |done|done].
  - destruct (is_empty (trim (cp_id p))) eqn:E; [done|]. by destruct (trim (cp_id p)).
  - destruct (is_empty (trim (cp_name p))) eqn:E; [done|]. by destruct (trim (cp_name p)).
  - unfold or_default_url. destruct (is_empty _) eqn:E; [done|]. by destruct (normalize_base_url _).
  - unfold or_default_url. destruct (is_empty _); [by split|]. by destruct (base_url_normal (cp_base_url p)) as (? & _ & _ & ?).
  - intros key Hk. by apply non_blank_spec in Hk.
Qed.

Definition route_ok (known : list str) (route : ModelRoute) : Prop :=
  mr_provider_id route ∈ known /\ (mr_weight route <= MAX_PROVIDER_KEY_WEIGHT)%Z /\
  (forall m, mr_model_override route = Some m -> tidy m).

Lemma normalize_entries_ok known seen entries :
  let routes := normalize_entries known seen entries in
  Forall (route_ok known) routes /\ NoDup (map mr_provider_id routes) /\
  (forall r, r ∈ routes -> mr_provider_id r ∉ seen).
Proof.
  revert seen. induction entries as [|e r IH]; intros seen; cbn [normalize_entries].
  { split_and!; [constructor|constructor|set_solver]. }
  destruct (negb _ || _) eqn:E; [by apply IH|]. apply orb_false_iff in E as [Ek Es].
  apply negb_false_iff, one_of_spec in Ek.
  destruct (IH (trim (mr_provider_id e) :: seen)) as (H1 & H2 & H3). split_and!.
  - constructor; [|done]. split_and!; cbn; [done|lia|]. intros m Hm. by apply non_blank_spec in Hm.
  - cbn. constructor; [|done]. intros (k & Hk & Hin)%list_elem_of_fmap. apply H3 in Hin. rewrite <- Hk in Hin. set_solver.
  - intros k [->|Hin]%elem_of_cons; [|apply H3 in Hin; set_solver]. cbn.
    intros Hin%one_of_spec. congruence.
Qed.

Definition routes_ok (known : list str) (routes : list (list N * list ModelRoute)) : Prop :=
  forall model entries, (model, entries) ∈ routes ->
  model <> [] /\ to_ascii_lowercase model = model /\ entries <> [] /\
  Forall (route_ok known) entries /\ NoDup (map mr_provider_id entries).

Lemma lower_nonempty s : s <> [] -> to_ascii_lowercase s <> [].
Proof. by destruct s. Qed.

Lemma normalize_model_routes_ok providers routes :
  routes_ok (map cp_id providers) (normalize_model_routes providers routes).
Proof.
  intros model entries Hin%elem_of_collect_map. apply list_elem_of_omap in Hin as ([m es] & _ & Heq). cbn [fst snd] in Heq.
  destruct (is_empty (to_ascii_lowercase (trim m))) eqn:Em; [done|].
  destruct (is_empty (normalize_entries _ [] es)) eqn:Ee; [done|]. injection Heq as <- <-.
  destruct (normalize_entries_ok (map cp_id providers) [] es) as (H1 & H2 & _). split_and!; [| | |done|done].
  - by intros Hm; rewrite Hm in Em.
  - apply to_ascii_lowercase_idem.
  - by intros Hm; rewrite Hm in Ee.
Qed.

Definition ranges_ok (s : Settings) : Prop :=
  (0 <= st_max_provider_retries s <= 999 /\ 1 <= st_max_tool_rounds s <= 1024 /\
   1 <= st_circuit_failure_threshold s <= 10 /\
   1 <= st_stream_first_event_timeout_secs s <= 120 /\ 60 <= st_stream_idle_timeout_secs s <= 600 /\
   60 <= st_non_stream_timeout_secs s <= 1200 /\ 1 <= st_model_call_log_retention_days s /\
   1 <= st_circuit_recovery_success_threshold s <= 20 /\ 30 <= st_circuit_recovery_wait_secs s <= 120 /\
   1 <= st_circuit_error_rate_threshold_percent s <= 100 /\ 1 <= st_circuit_min_request_count s <= 100 /\
   50 <= st_context_compaction_threshold_percent s <= 95 /\ 1024 <= st_local_relay_port s <= 65535 /\
   forall model window, (model, window) ∈ st_model_context_windows s ->
     model <> [] /\ to_ascii_lowercase model = model /\ 1024 <= window <= 10000000)%Z.

Lemma clampZ_range x lo hi : (lo <= hi -> lo <= clampZ x lo hi <= hi)%Z.
Proof. intros Hl. unfold clampZ. destruct (Z.ltb_spec x lo); [lia|]. destruct (Z.ltb_spec hi x); lia. Qed.

Lemma context_windows_ok windows model window :
  (model, window) ∈ normalize_context_windows windows ->
  model <> [] /\ to_ascii_lowercase model = model /\ (1024 <= window <= 10000000)%Z.
Proof.
  intros Hin%elem_of_collect_map. apply list_elem_of_omap in Hin as ([m w] & _ & Heq). cbn [fst snd] in Heq.
  destruct (is_empty (to_ascii_lowercase (trim m))) eqn:Em; [done|]. injection Heq as <- <-. split_and!.
  - by intros Hm; rewrite Hm in Em.
  - apply to_ascii_lowercase_idem.
  - apply clampZ_range. lia.
  - apply clampZ_range. lia.
Qed.

Lemma normalized_active (providers : list CloudProviderConfig) requested :
  providers <> [] ->
  let active_id := or_else match non_blank requested with
                           | Some value => if existsb (fun p => cp_id p =s value) providers then Some value else None
                           | None => None
                           end (or_else (cp_id <$> head providers) []) in
  exists active, active ∈ providers /\ cp_id active = active_id /\
    List.find (fun p => cp_id p =s active_id) providers = Some active.
Proof.
  intros Hne active_id. assert (exists p, p ∈ providers /\ cp_id p = active_id) as (p & Hin & Hp).
  { unfold active_id. destruct (non_blank requested) as [v|].
    - destruct (existsb _ providers) eqn:E; cbn [or_else].
      + apply existsb_exists in E as (p & Hp & E). exists p. rewrite list_elem_of_In. by apply str_eqb_true in E.
      + destruct providers as [|p r]; [done|]. exists p. by split; [left|].
    - destruct providers as [|p r]; [done|]. exists p. by split; [left|]. }
  destruct (List.find (fun p => cp_id p =s active_id) providers) as [a|] eqn:Ef.
  - apply List.find_some in Ef as [Ha Hid] . apply str_eqb_true in Hid. exists a. by rewrite list_elem_of_In.
  - apply list_elem_of_In in Hin. apply (List.find_none _ _ Ef) in Hin. rewrite Hp, str_eqb_refl in Hin. done.
Qed.

(** C31: Whatever the configuration file holds, the configuration in use is well formed:
    all numbers are in their ranges; there is a provider and the active one is among
    them and gives the address and key in use; every provider has an identifier, a name,
    a normal address and tidy keys of different identifiers; routes lead only to known
    providers, at most once for a model; and a custom proxy has an address. *)
Theorem normalized_config_wf millis s :
  let r := normalize_user_config millis s in
  let c := st_config r in
  ranges_ok r /\ Forall provider_ok (uc_providers c) /\
  (exists active, active ∈ uc_providers c /\ uc_active_provider_id c = Some (cp_id active) /\
     st_base_url r = cp_base_url active /\ uc_api_key c = cp_api_key active) /\
  routes_ok (map cp_id (uc_providers c)) (uc_model_routes c) /\
  (st_http_proxy_mode r = ProxyCustom -> st_http_proxy_url r <> None).
Proof.
  cbv zeta. unfold normalize_user_config.
  set (initial := match uc_providers (st_config s) with [] => _ | _ => _ end).
  assert (fst initial <> []) as Hne by (unfold initial; by destruct (uc_providers (st_config s))).
  destruct initial as [providers0 requested]. cbn [fst] in Hne.
  set (providers := imap (fun i p => normalize_provider (millis i) p) providers0).
  assert (providers <> []) as Hne' by (unfold providers; by destruct providers0).
  assert (Forall provider_ok providers) as Hok.
  { apply Forall_forall. intros p (i & p0 & -> & _)%elem_of_lookup_imap. apply normalize_provider_ok. }
  destruct (normalized_active providers requested Hne') as (active & Hin & Hid & Hfind).
  set (active_id := or_else _ _) in *. rewrite Hfind. cbn [st_config uc_providers uc_active_provider_id
    uc_api_key st_base_url uc_model_routes st_http_proxy_mode st_http_proxy_url]. split_and!.
  - unfold ranges_ok. cbn. split_and!; try (apply clampZ_range; lia); try lia.
    + unfold normalize_relay_port. destruct (_ =? 0)%Z; [lia|]. apply clampZ_range. lia.
    + unfold normalize_relay_port. destruct (_ =? 0)%Z; [lia|]. apply clampZ_range. lia.
    + apply context_windows_ok.
  - done.
  - exists active. by rewrite Hid.
  - apply normalize_model_routes_ok.
  - destruct (non_blank (st_http_proxy_url s)); [done|].
    destruct (decide (st_http_proxy_mode s = ProxyCustom)) as [He|Hn].
    + by rewrite He.
    + by rewrite (bool_decide_eq_false_2 (st_http_proxy_mode s = ProxyCustom)).
Qed.

(** ** Behaviour that seems unintended *)

Definition blank_provider : CloudProviderConfig :=
  mkProvider [] [] [] ChatCompletions Relay None [] None.

(** Two providers without an identifier that are normalized in the same millisecond get
    the same one, so the second can never be the active one and shares the circuit and
    the rotation of the first. *)
Theorem provider_ids_collide millis : cp_id (normalize_provider millis blank_provider)
  = cp_id (normalize_provider millis (mkProvider [] $"other" $"https://other" Responses Official None [] None)).
Proof. reflexivity. Qed.

(** White space before the last version segment stops the first pass but not the second. *)
Example base_url_not_stable :
  normalize_base_url $"host/v1 /v1" = $"host/v1 " /\ normalize_base_url $"host/v1 " = $"host".
Proof. split; vm_compute; reflexivity. Qed.

(** Removal of duplicate models compares neighbours, but the order ignores letter case. *)
Example duplicate_models_remain :
  parse_models_response $"host/" (Ok [($"A", None); ($"a", None); ($"A", None)])
  = Ok (mkModels [mkModel $"A" None; mkModel $"a" None; mkModel $"A" None] $"host").
Proof. vm_compute. reflexivity. Qed.

(** Of a key of eleven characters the hint shows all but one. *)
Example short_key_shown : mask_api_key $"sk-12345678" = $"sk-12*45678".
Proof. vm_compute. reflexivity. Qed.
