(* ===== verification/ProviderDsml.v ===== *)
(** * Leaked tool calls (crates/xcoding-providers/src/lib.rs)

    Some models write their tool calls as DSML markup into the text.  A complete block
    is turned back into calls; anything else that holds a marker is an error. *)

From S2P Require Import Prelude.
From S2P Require Import Protocol.
From S2P Require Import Sql.
From S2P Require Import CoreText.
From S2P Require Import Routing.
From S2P Require Import Transcript.
From S2P Require Import Text.
From S2P Require Import ToolArgs.
From S2P Require Import Compression.
From S2P Require Import ProviderWire.
From S2P Require Import ProviderStream.
From S2P Require Import ProviderStreamFacts.

Definition DSML_OPEN : str := $"<｜DSML｜".
Definition DSML_CLOSE : str := $"</｜DSML｜".
Definition DSML_MARKERS : list str :=
  [DSML_OPEN; DSML_CLOSE; $"<｜｜DSML｜｜"; $"</｜｜DSML｜｜"; $"<|DSML|"; $"</|DSML|"].

Definition normalize_leaked_dsml (content : str) : str :=
  replace_str $"</|DSML|" DSML_CLOSE
    (replace_str $"<|DSML|" DSML_OPEN
      (replace_str $"</｜｜DSML｜｜" DSML_CLOSE (replace_str $"<｜｜DSML｜｜" DSML_OPEN content))).

Definition GREATER : char := 62%N.

(** The loop from [cursor]; a tag is given by its first position and the one after it. *)
Fixpoint find_tag_from (fuel : nat) (input name : str) (closing : bool) (cursor : nat)
  : option (nat * nat) :=
  let prefix := if closing then DSML_CLOSE else DSML_OPEN in
  match fuel with
  | 0 => None
  | S f =>
    match find_str prefix (drop cursor input) with
    | None => None
    | Some relative =>
      let start := cursor + relative in
      let after_prefix := start + length prefix in
      let rest := drop after_prefix input in
      let name_start := after_prefix + (length rest - length (trim_start rest)) in
      if starts_with name (drop name_start input) then
        let after_name := name_start + length name in
        match drop after_name input with
        | [] => None
        | boundary :: _ =>
          if negb (is_whitespace boundary) && negb (boundary =? GREATER)%N
          then find_tag_from f input name closing after_prefix
          else
            match find_char (N.eqb GREATER) (drop after_name input) with
            | None => find_tag_from f input name closing after_prefix
            | Some end_relative =>
              if negb closing || is_empty (trim (take end_relative (drop after_name input)))
              then Some (start, after_name + end_relative + 1)
              else find_tag_from f input name closing after_prefix
            end
        end
      else find_tag_from f input name closing after_prefix
    end
  end.
Definition find_dsml_tag (input name : str) (closing : bool) : option (nat * nat) :=
  find_tag_from (S (length input)) input name closing 0.

Definition dsml_attribute (header name : str) : option str :=
  let needle := name ++ $"=" in
  match find_str needle header with
  | None => None
  | Some start =>
    match trim_start (drop (start + length needle) header) with
    | quote :: rest =>
      if negb (quote =? DQUOTE)%N && negb (quote =? SQUOTE)%N then None
      else match find_char (N.eqb quote) rest with
           | Some end_ => Some (take end_ rest)
           | None => None
           end
    | [] => None
    end
  end.

Definition or_err {A} (o : option A) (message : str) : result A str :=
  match o with Some a => Ok a | None => Err message end.
Definition part (s : str) (start end_ : nat) : str := take (end_ - start) (drop start s).

Section Recover.
Context `{Env} `{JsonText} `{JsonParse}.
(** The message of a JSON error. *)
Variable json_error : str -> str.

(** A value is a string unless the tag says otherwise. *)
Definition parameter_value (parameter_name header raw_value : str) : result Value str :=
  let is_string := match dsml_attribute header $"string" with
                   | Some value => negb (value =s $"false")
                   | None => true
                   end in
  if is_string then Ok (JString raw_value)
  else or_err (from_str raw_value)
         ($"invalid DSML parameter `" ++ parameter_name ++ $"` JSON: " ++ json_error raw_value).

(** The loop over the parameters in what is left of the body of an invoke. *)
Fixpoint recover_parameters (fuel : nat) (body : str) (arguments : list (list N * Value))
  : result (list (list N * Value)) str :=
  match fuel with
  | 0 => Ok arguments
  | S f =>
    if is_empty (trim body) then Ok arguments
    else
      let? tag := or_err (find_dsml_tag body $"parameter" false)
        $"DSML invoke contains text outside parameter tags" in
      let after_open := drop (snd tag) body in
      let? close := or_err (find_dsml_tag after_open $"parameter" true)
        $"DSML parameter is missing its closing tag" in
      let header := part body (fst tag) (snd tag) in
      let? parameter_name := or_err (dsml_attribute header $"name")
        $"DSML parameter is missing a name attribute" in
      if bool_decide (is_Some (btree_get parameter_name arguments))
      then Err ($"DSML parameter `" ++ parameter_name ++ $"` is duplicated")
      else
        let? value := parameter_value parameter_name header (trim (take (fst close) after_open)) in
        recover_parameters f (drop (snd close) after_open) (btree_insert parameter_name value arguments)
  end.

(** The loop over the invokes in what is left of the block; [draws] counts the
    identifiers drawn. *)
Fixpoint recover_invokes (fuel : nat) (definitions : list ToolDefinition) (body : str) (draws : nat)
  : result (list ProviderToolCall) str :=
  match fuel with
  | 0 => Ok []
  | S f =>
    if is_empty (trim body) then Ok []
    else
      let? tag := or_err (find_dsml_tag body $"invoke" false)
        $"DSML tool-call block contains text outside invoke tags" in
      let after_open := drop (snd tag) body in
      let? close := or_err (find_dsml_tag after_open $"invoke" true)
        $"DSML invoke block is missing its closing tag" in
      let? name := or_err (dsml_attribute (part body (fst tag) (snd tag)) $"name")
        $"DSML invoke is missing a name attribute" in
      if negb (existsb (fun definition => td_name definition =s name) definitions)
      then Err ($"DSML requested unavailable tool `" ++ name ++ $"`")
      else
        let invoke_body := take (fst close) after_open in
        let? arguments := recover_parameters (S (length invoke_body)) invoke_body [] in
        let? rest := recover_invokes f definitions (drop (snd close) after_open) (S draws) in
        Ok (mkProviderCall ($"dsml_" ++ uuid_text (new_v4 draws)) $"function" name
              (json_text (JObject arguments)) false :: rest)
  end.

Definition recover_leaked_dsml_tool_calls (content : str) (definitions : list ToolDefinition)
    (draws : nat) : result (option (list ProviderToolCall)) str :=
  if negb (existsb (fun marker => contains marker content) DSML_MARKERS) then Ok None
  else if is_empty definitions
  then Err $"DSML markup appeared in a response with no available tools"
  else
    let normalized := normalize_leaked_dsml content in
    let? block := or_err (find_dsml_tag normalized $"tool_calls" false)
      $"DSML tool-call block has no opening tool_calls tag" in
    let after_block_open := drop (snd block) normalized in
    let? close := or_err (find_dsml_tag after_block_open $"tool_calls" true)
      $"DSML tool-call block is missing its closing tag" in
    let block_body := take (fst close) after_block_open in
    let? calls := recover_invokes (S (length block_body)) definitions block_body draws in
    if is_empty calls then Err $"DSML tool-call block contained no invoke tags"
    else Ok (Some calls).
End Recover.

(** ** What is recovered from leaked markup

    The loops over tags end within their bounds, and a recovered call is one that was
    offered. *)

(** ** Bounds and fuel *)

Definition marker (closing : bool) : str := if closing then DSML_CLOSE else DSML_OPEN.

Lemma marker_length closing : 0 < length (marker closing).
Proof. destruct closing; vm_compute; lia. Qed.

Lemma starts_with_length p s : starts_with p s = true -> length p <= length s.
Proof. intros [r ->]%starts_with_true. rewrite length_app. lia. Qed.

(** A tag is not empty and lies in the text. *)
Lemma find_tag_bounds fuel input name closing cursor a b :
  cursor <= length input -> find_tag_from fuel input name closing cursor = Some (a, b) ->
  cursor <= a < b /\ b <= length input.
Proof.
  revert cursor. induction fuel as [|fuel IH]; intros cursor Hc; cbn [find_tag_from]; [done|].
  fold (marker closing). pose proof (marker_length closing).
  destruct (find_str (marker closing) (drop cursor input)) as [rel|] eqn:Ef; [|done].
  apply find_str_bound in Ef. rewrite length_drop in Ef.
  set (after_prefix := cursor + rel + length (marker closing)).
  assert (forall r, find_tag_from fuel input name closing after_prefix = r -> r = Some (a, b) -> cursor <= a < b /\ b <= length input) as Hrec.
  { intros r <- Hr. apply IH in Hr; unfold after_prefix in *; lia. }
  set (name_start := after_prefix + _).
  destruct (starts_with name (drop name_start input)) eqn:Es; [|by apply Hrec].
  destruct (drop (name_start + length name) input) as [|c r] eqn:Ed; [done|].
  destruct (_ && _); [by apply Hrec|].
  destruct (find_char (N.eqb GREATER) (c :: r)) as [e|] eqn:Eg; [|by apply Hrec].
  destruct (_ || _); [|by apply Hrec]. intros [= <- <-].
  apply find_char_Some in Eg as (x & y & Hxy & _). pose proof (f_equal length Hxy) as Hl.
  rewrite length_app, length_take in Hl. pose proof (f_equal length Ed) as Hl2. rewrite length_drop in Hl2.
  simpl in Hl, Hl2. unfold name_start, after_prefix in *. lia.
Qed.

Lemma tag_bounds input name closing t :
  find_dsml_tag input name closing = Some t -> fst t < snd t /\ snd t <= length input.
Proof. destruct t as [a b]. intros Ht. apply find_tag_bounds in Ht; cbn; lia. Qed.

(** The search for a tag does not depend on its bound. *)
Lemma find_tag_fuel fuel fuel' input name closing cursor :
  cursor <= length input -> length input - cursor < fuel -> length input - cursor < fuel' ->
  find_tag_from fuel input name closing cursor = find_tag_from fuel' input name closing cursor.
Proof.
  revert fuel' cursor. induction fuel as [|fuel IH]; intros fuel' cursor Hc H1 H2; [lia|].
  destruct fuel' as [|fuel']; [lia|]. cbn [find_tag_from]. fold (marker closing).
  pose proof (marker_length closing).
  destruct (find_str (marker closing) (drop cursor input)) as [rel|] eqn:Ef; [|done].
  apply find_str_bound in Ef. rewrite length_drop in Ef.
  by rewrite (IH fuel' (cursor + rel + length (marker closing))) by lia.
Qed.

Section Recover.
Context {env : Env} {env_ok : EnvOk env} `{JsonText} `{JsonParse}.
Variable json_error : str -> str.

(** A round of either loop leaves a shorter text. *)
Lemma round_shorter body name t t' :
  find_dsml_tag body name false = Some t -> find_dsml_tag (drop (snd t) body) name true = Some t' ->
  length (drop (snd t') (drop (snd t) body)) < length body.
Proof.
  intros Ht%tag_bounds Ht'%tag_bounds. rewrite !length_drop in *. lia.
Qed.

Lemma recover_parameters_fuel fuel fuel' body arguments :
  length body < fuel -> length body < fuel' ->
  recover_parameters json_error fuel body arguments = recover_parameters json_error fuel' body arguments.
Proof.
  revert fuel' body arguments. induction fuel as [|fuel IH]; intros fuel' body arguments H1 H2; [lia|].
  destruct fuel' as [|fuel']; [lia|]. cbn [recover_parameters]. destruct (is_empty (trim body)); [done|].
  destruct (find_dsml_tag body _ false) as [t|] eqn:Et; [|done]. cbn [or_err rbind].
  destruct (find_dsml_tag (drop (snd t) body) _ true) as [t'|] eqn:Et'; [|done]. cbn [or_err rbind].
  pose proof (round_shorter _ _ _ _ Et Et').
  destruct (dsml_attribute _ $"name") as [pn|]; [|done]. cbn [or_err rbind].
  destruct (bool_decide _); [done|]. destruct (parameter_value _ _ _ _) as [v|]; [|done]. cbn [rbind].
  apply IH; lia.
Qed.

Lemma recover_invokes_fuel fuel fuel' definitions body draws :
  length body < fuel -> length body < fuel' ->
  recover_invokes json_error fuel definitions body draws = recover_invokes json_error fuel' definitions body draws.
Proof.
  revert fuel' body draws. induction fuel as [|fuel IH]; intros fuel' body draws H1 H2; [lia|].
  destruct fuel' as [|fuel']; [lia|]. cbn [recover_invokes]. destruct (is_empty (trim body)); [done|].
  destruct (find_dsml_tag body _ false) as [t|] eqn:Et; [|done]. cbn [or_err rbind].
  destruct (find_dsml_tag (drop (snd t) body) _ true) as [t'|] eqn:Et'; [|done]. cbn [or_err rbind].
  pose proof (round_shorter _ _ _ _ Et Et').
  destruct (dsml_attribute _ _) as [n|]; [|done]. cbn [or_err rbind].
  destruct (negb _); [done|]. destruct (recover_parameters _ _ _ _); [|done]. cbn [rbind].
  by rewrite (IH fuel') by lia.
Qed.

(** ** The recovered calls *)

Lemma btree_keys {V} k (v : V) m : btree_get k m = None -> NoDup (map fst m) -> NoDup (map fst (btree_insert k v m)).
Proof.
  assert (forall k' , k' ∈ map fst (btree_insert k v m) -> k' = k \/ k' ∈ map fst m) as Hin.
  { intros k'. induction m as [|[k2 v2] m IH]; cbn [btree_insert map]; [set_solver|].
    destruct (k =s k2) eqn:E; [apply str_eqb_true in E as ->; cbn; set_solver|].
    destruct (str_ltb k k2); cbn; set_solver. }
  induction m as [|[k2 v2] m IH]; cbn [btree_get btree_insert map]; [intros _ _; apply NoDup_singleton|].
  destruct (k =s k2) eqn:E; [done|]. apply str_eqb_false in E. intros Hg Hn.
  cbn in Hn. apply NoDup_cons in Hn as [Hn1 Hn2].
  destruct (str_ltb k k2); cbn.
  - apply NoDup_cons. split; [|by apply NoDup_cons].
    rewrite elem_of_cons. intros [?|Hk]; [done|]. clear -Hg Hk.
    induction m as [|[k3 v3] m IH]; [by apply elem_of_nil in Hk|]. cbn in Hg, Hk.
    destruct (k =s k3) eqn:E; [done|]. apply str_eqb_false in E. apply elem_of_cons in Hk as [?|Hk]; [done|]. by apply IH.
  - apply NoDup_cons. split; [|apply IH; [|done|done]].
    + intros Hk. assert (k2 = k \/ k2 ∈ map fst m) as [->|?]; [|done..].
      clear -Hk. induction m as [|[k3 v3] m IH]; cbn in Hk; [set_solver|].
      destruct (k =s k3) eqn:E; [apply str_eqb_true in E as ->; set_solver|].
      destruct (str_ltb k k3); set_solver.
    + clear. intros k'. induction m as [|[k3 v3] m IH]; cbn; [set_solver|].
      destruct (k =s k3) eqn:E; [apply str_eqb_true in E as ->; cbn; set_solver|].
      destruct (str_ltb k k3); cbn; set_solver.
Qed.

Lemma recover_parameters_keys fuel body arguments r :
  NoDup (map fst arguments) -> recover_parameters json_error fuel body arguments = Ok r -> NoDup (map fst r).
Proof.
  revert body arguments. induction fuel as [|fuel IH]; intros body arguments Hn; cbn [recover_parameters].
  { by intros [= <-]. }
  destruct (is_empty (trim body)); [by intros [= <-]|].
  destruct (find_dsml_tag body _ false) as [t|]; [|done]. cbn [or_err rbind].
  destruct (find_dsml_tag (drop (snd t) body) _ true) as [t'|]; [|done]. cbn [or_err rbind].
  destruct (dsml_attribute _ $"name") as [pn|]; [|done]. cbn [or_err rbind].
  case_bool_decide as Hd; [done|]. destruct (parameter_value _ _ _ _) as [v|]; [|done]. cbn [rbind].
  apply IH, btree_keys; [|done]. by apply eq_None_not_Some.
Qed.

(** A call to an offered tool with one value for each argument. *)
Definition recovered_ok (definitions : list ToolDefinition) (call : ProviderToolCall) : Prop :=
  ptc_kind call = $"function" /\ ptc_truncated call = false /\
  (exists d, d ∈ definitions /\ td_name d = ptc_name call) /\
  exists arguments, ptc_arguments call = json_text (JObject arguments) /\ NoDup (map fst arguments).

Lemma recover_invokes_ok fuel definitions body draws calls :
  recover_invokes json_error fuel definitions body draws = Ok calls ->
  Forall (recovered_ok definitions) calls /\
  map ptc_id calls = map (fun i => $"dsml_" ++ uuid_text (new_v4 i)) (seq draws (length calls)).
Proof.
  revert body draws calls. induction fuel as [|fuel IH]; intros body draws calls; cbn [recover_invokes].
  { by intros [= <-]. }
  destruct (is_empty (trim body)); [by intros [= <-]|].
  destruct (find_dsml_tag body _ false) as [t|]; [|done]. cbn [or_err rbind].
  destruct (find_dsml_tag (drop (snd t) body) _ true) as [t'|]; [|done]. cbn [or_err rbind].
  destruct (dsml_attribute _ _) as [n|]; [|done]. cbn [or_err rbind].
  destruct (existsb _ definitions) eqn:Ed; cbn [negb]; [|done].
  destruct (recover_parameters _ _ _ _) as [arguments|] eqn:Ep; [|done]. cbn [rbind].
  destruct (recover_invokes _ fuel _ _ _) as [rest|] eqn:Er; [|done]. cbn [rbind].
  intros [= <-]. apply IH in Er as [H1 H2]. split; [|cbn; by rewrite H2].
  constructor; [|done]. split_and!; [done|done| |].
  - apply existsb_exists in Ed as (d & Hd & E). exists d. rewrite list_elem_of_In. by apply str_eqb_true in E.
  - exists arguments. split; [done|]. eapply recover_parameters_keys; [|exact Ep]. constructor.
Qed.

(** Recovery leaves a text without markup alone. From a text with markup it either
    fails or gives at least one call; each call names an offered tool, has one value for
    each of its arguments, is complete, and no two have the same identifier. *)
Theorem recovered_calls_offered content definitions draws r :
  recover_leaked_dsml_tool_calls json_error content definitions draws = Ok r ->
  (r = None <-> existsb (fun marker => contains marker content) DSML_MARKERS = false) /\
  forall calls, r = Some calls ->
    calls <> [] /\ Forall (recovered_ok definitions) calls /\ NoDup (map ptc_id calls).
Proof.
  unfold recover_leaked_dsml_tool_calls. destruct (existsb _ DSML_MARKERS); cbn [negb]; [|by intros [= <-]].
  destruct (is_empty definitions); [done|].
  destruct (find_dsml_tag _ _ false) as [t|]; [|done]. cbn [or_err rbind].
  destruct (find_dsml_tag _ _ true) as [t'|]; [|done]. cbn [or_err rbind].
  destruct (recover_invokes _ _ _ _ _) as [calls|] eqn:E; [|done]. cbn [rbind].
  destruct (is_empty calls) eqn:Ee; [done|]. intros [= <-]. split; [done|]. intros ? [= <-].
  apply recover_invokes_ok in E as [H1 H2]. split_and!; [by intros ->|done|]. rewrite H2.
  apply NoDup_fmap_2; [|apply NoDup_seq]. intros i j Hij%app_inv_head%uuid_text_inj%new_v4_inj. done.
Qed.
End Recover.

Theorem recovered_calls_offered_witness :
  exists calls, @recover_leaked_dsml_tool_calls (counter_env true) (fun _ => []) demo_parse (fun s => s)
    $"I call <|DSML|tool_calls><|DSML|invoke name='read_file'><|DSML|parameter name='path'> src </|DSML|parameter></|DSML|invoke></|DSML|tool_calls>"
    [mkToolDefinition $"read_file" [] JNull] 7 = Ok (Some calls) /\ map ptc_name calls = [$"read_file"] /\ calls <> [].
Proof.
  destruct (@recover_leaked_dsml_tool_calls (counter_env true) (fun _ => []) demo_parse (fun s => s)
    $"I call <|DSML|tool_calls><|DSML|invoke name='read_file'><|DSML|parameter name='path'> src </|DSML|parameter></|DSML|invoke></|DSML|tool_calls>"
    [mkToolDefinition $"read_file" [] JNull] 7) as [[calls|]|] eqn:E; [|vm_compute in E; discriminate E..].
  exists calls. split; [reflexivity|]. split; [vm_compute in E; by injection E as <-|].
  apply (@recovered_calls_offered (counter_env true) (counter_env_ok true) (fun _ => []) demo_parse (fun s => s)) in E as [_ E].
  exact (proj1 (E calls eq_refl)).
Defined.
