(* ===== verification/RequestLogs.v ===== *)
(** * Request logs of the providers (crates/xcoding-providers/src/request_logs.rs)

    A log of the requests to providers that a user can switch on: one row of a database
    per request, written when the request starts and again when its headers are known and
    when it ends.  The credential of the provider is replaced in every text of a row. *)

From S2P Require Import Prelude.
From S2P Require Import Protocol.
From S2P Require Import Sql.
From S2P Require Import Transcript.
From S2P Require Import Text.
From S2P Require Import ToolArgs.
From S2P Require Import Compression.
From S2P Require Import ProviderWire.
From S2P Require Import ProviderConfig.
From S2P Require Import ProviderStream.

Definition BODY_LIMIT : N := 8 * 1024 * 1024.
Definition PAGE_SIZE : nat := 10.
Definition LOG_REDACTED : str := $"[REDACTED]".

Record RequestLogHeader := mkLogHeader { lh_name : str; lh_value : str }.

(** Also the row of the table: its columns repeat fields of the stored JSON. *)
Record RequestLogDetail := mkLogDetail {
  ld_id : str;
  ld_created_at : timestamp;
  ld_model : str;
  ld_endpoint : str;
  ld_status : str;
  ld_http_status : option Z;
  ld_duration_ms : N;
  ld_request_body : str;
  ld_request_headers : option (list RequestLogHeader);
  ld_response_body : str;
  ld_response_content_type : option str;
  ld_error : option str;
  ld_truncated : bool;
}.

Record RequestLogSummary := mkLogSummary {
  lsum_id : str; lsum_created_at : timestamp; lsum_model : str; lsum_reasoning_effort : option str;
  lsum_endpoint : str; lsum_status : str; lsum_http_status : option Z; lsum_duration_ms : N }.
Record RequestLogQuery := mkLogQuery {
  lq_from : option str; lq_to : option str; lq_model : str; lq_endpoint : str; lq_status : str;
  lq_offset : N }.
Record RequestLogPage := mkLogPage { lp_items : list RequestLogSummary; lp_has_more : bool }.

(** ** Redaction *)

Definition redact (text api_key : str) : str :=
  if is_empty api_key then text else replace_str api_key LOG_REDACTED text.

Definition CREDENTIAL_FIELDS : list str :=
  [$"authorization"; $"api_key"; $"apikey"; $"api-key"; $"x-api-key"; $"access_token"; $"password";
   $"secret"; $"cookie"; $"set-cookie"].

Fixpoint redact_fields (value : Value) : Value :=
  match value with
  | JObject fields =>
    JObject (map (fun '(name, value) =>
      (name, if one_of (to_ascii_lowercase name) CREDENTIAL_FIELDS then JString LOG_REDACTED
             else redact_fields value)) fields)
  | JArray values => JArray (map redact_fields values)
  | _ => value
  end.

(** [reqwest::Url], by its parts; [ur_rest] is the path of the URL and its scheme. *)
Record Url := mkUrl {
  ur_rest : str; ur_host : option str; ur_port : option N; ur_username : str;
  ur_password : option str; ur_query : option str; ur_fragment : option str }.
Class UrlCodec := {
  url_parse : list N -> option Url;
  url_text : Url -> list N;
}.

Definition safe_endpoint `{UrlCodec} (endpoint : str) : str :=
  match url_parse endpoint with
  | None => $"[invalid URL]"
  | Some url => url_text (mkUrl (ur_rest url) (ur_host url) (ur_port url) [] None None None)
  end.

Definition bounded_text (text : str) : str * bool :=
  if (BODY_LIMIT <? blen text)%N then (byte_prefix BODY_LIMIT text, true) else (text, false).

(** ** The database *)

(** [lg_exists] is whether the file exists, [lg_uses] counts the times it was opened,
    [lg_draws] the identifiers and the readings of clocks. *)
Record LogDb := mkLogDb {
  lg_exists : bool; lg_rows : list RequestLogDetail; lg_uses : nat; lg_draws : nat }.
Definition no_logs : LogDb := mkLogDb false [] 0 0.

(** What SQLite and the operating system do: the error of the [n]-th use of the database,
    which then changes nothing, and the elapsed milliseconds of a log. *)
Class LogOutside := {
  log_fault : nat -> option (list N);
  log_elapsed_ms : nat -> N;
}.
(** [DateTime::parse_from_rfc3339], the pretty printer of [serde_json], and
    [HeaderValue::from_str]. *)
Class DateParse := parse_from_rfc3339 : list N -> option timestamp.
Class JsonPretty := to_string_pretty : Value -> list N.
Class HeaderValues := header_value_ok : list N -> bool.

Definition NANOS_PER_DAY : Z := (24 * 60 * 60 * 1000000000)%Z.

(** [ls_response] is the response as far as it is kept. *)
Record LogState := mkLogState {
  ls_retention_days : Z; ls_detail : RequestLogDetail; ls_response : bytes; ls_api_key : str }.

(** [RequestLog]: nothing when recording is off or the first row could not be written. *)
Abbreviation RequestLog := (option LogState).

Section Logs.
Context {En : Env} {Lo : LogOutside}.

Definition log_draw (db : LogDb) : nat * LogDb :=
  (lg_draws db, mkLogDb (lg_exists db) (lg_rows db) (lg_uses db) (S (lg_draws db))).

(** A cutoff before the first date deletes nothing, as [checked_sub_signed] says. *)
Definition open_database (retention_days : Z) (db : LogDb) : result unit str * LogDb :=
  match log_fault (lg_uses db) with
  | Some error => (Err error, mkLogDb (lg_exists db) (lg_rows db) (S (lg_uses db)) (lg_draws db))
  | None =>
    let cutoff := (utc_now (lg_draws db) - Z.max retention_days 1 * NANOS_PER_DAY)%Z in
    (Ok tt, mkLogDb true (delete_where (fun d => (ld_created_at d <? cutoff)%Z) (lg_rows db))
              (S (lg_uses db)) (S (lg_draws db)))
  end.

(** *** Reading *)

(** [ORDER BY created_at DESC, id DESC] *)
Definition newer_log (a b : RequestLogDetail) : bool :=
  (ld_created_at b <? ld_created_at a)%Z
  || (ld_created_at a =? ld_created_at b)%Z && str_le (ld_id b) (ld_id a).

(** [CAST(NULLIF(x, '') AS TEXT)] of an extracted JSON value. *)
Definition sql_json_text `{JsonText} (v : Value) : option str :=
  match v with
  | JNull => None
  | JBool b => Some (if b then $"1" else $"0")
  | JString text => if is_empty text then None else Some text
  | v => Some (json_text v)
  end.
Definition reasoning_effort `{JsonText, JsonParse} (request_body : str) : option str :=
  from_str request_body ≫= fun body =>
  (pointer [$"reasoning"; $"effort"] body ≫= sql_json_text)
  <||> (pointer [$"reasoning_effort"] body ≫= sql_json_text).

Definition log_summary `{JsonText, JsonParse} (d : RequestLogDetail) : RequestLogSummary :=
  mkLogSummary (ld_id d) (ld_created_at d) (ld_model d) (reasoning_effort (ld_request_body d))
    (ld_endpoint d) (ld_status d) (ld_http_status d) (ld_duration_ms d).

Definition parse_date `{DateParse} (value : option str) : result (option timestamp) str :=
  match value with
  | None => Ok None
  | Some text =>
    if is_empty text then Ok None
    else match parse_from_rfc3339 text with
         | Some t => Ok (Some t)
         | None => Err $"Invalid date filter"
         end
  end.

Definition LOG_STATUSES : list str := [[]; $"pending"; $"success"; $"error"; $"interrupted"].

Definition log_matches (from to_ : option timestamp) (query : RequestLogQuery) (d : RequestLogDetail)
  : bool :=
  match from with Some t => (t <=? ld_created_at d)%Z | None => true end
  && match to_ with Some t => (ld_created_at d <=? t)%Z | None => true end
  && contains (to_ascii_lowercase (trim (lq_model query))) (to_ascii_lowercase (ld_model d))
  && contains (to_ascii_lowercase (trim (lq_endpoint query))) (to_ascii_lowercase (ld_endpoint d))
  && (is_empty (lq_status query) || (ld_status d =s lq_status query)).

Definition query_at `{JsonText, JsonParse, DateParse} (retention_days : Z) (query : RequestLogQuery)
    (db : LogDb) : result RequestLogPage str * LogDb :=
  match (let? from := parse_date (lq_from query) in
         let? to_ := parse_date (lq_to query) in Ok (from, to_)) with
  | Err e => (Err e, db)
  | Ok (from, to_) =>
    if match from, to_ with Some f, Some t => (t <? f)%Z | _, _ => false end
    then (Err $"Start time must not be after end time", db)
    else if negb (one_of (lq_status query) LOG_STATUSES) then (Err $"Invalid status filter", db)
    else if negb (lg_exists db) then (Ok (mkLogPage [] false), db)
    else
      match open_database retention_days db with
      | (Err e, db) => (Err e, db)
      | (Ok _, db) =>
        let items := page (N.to_nat (lq_offset query)) (PAGE_SIZE + 1)
                       (order_by newer_log (select (log_matches from to_ query) (lg_rows db))) in
        (Ok (mkLogPage (map log_summary (take PAGE_SIZE items)) (PAGE_SIZE <? length items)), db)
      end
  end.

Definition NO_ROW : str := $"Query returned no rows".
Definition detail_at (retention_days : Z) (id : str) (db : LogDb) : result RequestLogDetail str * LogDb :=
  if negb (lg_exists db) then (Err $"Request log not found", db)
  else
    match open_database retention_days db with
    | (Err e, db) => (Err e, db)
    | (Ok _, db) =>
      match List.find (fun d => ld_id d =s id) (lg_rows db) with
      | Some d => (Ok d, db)
      | None => (Err NO_ROW, db)
      end
    end.

(** *** Writing *)

Definition set_detail (d : RequestLogDetail) (st : LogState) : LogState :=
  mkLogState (ls_retention_days st) d (ls_response st) (ls_api_key st).

(** [INSERT OR REPLACE] *)
Definition persist (st : LogState) (db : LogDb) : result unit str * LogDb :=
  match open_database (ls_retention_days st) db with
  | (Err e, db) => (Err e, db)
  | (Ok _, db) =>
    (Ok tt, mkLogDb (lg_exists db)
              (delete_where (fun d => ld_id d =s ld_id (ls_detail st)) (lg_rows db) ++ [ls_detail st])
              (lg_uses db) (lg_draws db))
  end.

Definition complete (status : str) (error : option str) (st : LogState) (db : LogDb)
  : LogState * LogDb :=
  let '(n, db) := log_draw db in
  let d := ls_detail st in
  let '(response_body, truncated) :=
    bounded_text (redact (from_utf8_lossy (ls_response st)) (ls_api_key st)) in
  let d := mkLogDetail (ld_id d) (ld_created_at d) (ld_model d) (ld_endpoint d) status
             (ld_http_status d) (log_elapsed_ms n) (ld_request_body d) (ld_request_headers d)
             response_body (ld_response_content_type d)
             (option_map (fun error => redact error (ls_api_key st)) error)
             (ld_truncated d || truncated) in
  let st := set_detail d st in
  (st, snd (persist st db)).

Definition drop_log (log : RequestLog) (db : LogDb) : LogDb :=
  match log with
  | Some st =>
    if ld_status (ls_detail st) =s $"pending"
    then snd (complete $"interrupted" (Some $"Request cancelled or stream dropped") st db)
    else db
  | None => db
  end.

Definition start_at `{JsonPretty, UrlCodec} (enabled : bool) (retention_days : Z) (endpoint : str)
    (body : Value) (api_key : str) (db : LogDb) : RequestLog * LogDb :=
  if negb enabled then (None, db)
  else
    let '(request_body, truncated) :=
      bounded_text (redact (to_string_pretty (redact_fields body)) api_key) in
    let '(n, db) := log_draw db in
    let d := mkLogDetail (uuid_text (new_v4 n)) (utc_now n)
               (redact (default [] (json_get $"model" body ≫= as_str)) api_key)
               (redact (safe_endpoint endpoint) api_key) $"pending" None 0 request_body None []
               None None truncated in
    let st := mkLogState retention_days d [] api_key in
    match persist st db with
    | (Ok _, db) => (Some st, db)
    | (Err _, db) => (None, db)
    end.

Definition start_raw `{JsonPretty, UrlCodec, JsonParse} (enabled : bool) (retention_days : Z)
    (endpoint : str) (body : bytes) (api_key : str) (db : LogDb) : RequestLog * LogDb :=
  let value := match from_utf8 body ≫= from_str with
               | Some value => value
               | None => JString (from_utf8_lossy body)
               end in
  start_at enabled retention_days endpoint value api_key db.

(** A header of a request, whose value may be marked as sensitive. *)
Record HttpHeader := mkHeader { hh_name : str; hh_value : bytes; hh_sensitive : bool }.

(** [headers.entry(name).or_insert(value)] *)
Definition or_insert `{HeaderValues} (name : str) (value : option str) (headers : list HttpHeader)
  : list HttpHeader :=
  match value with
  | Some text =>
    if header_value_ok text && negb (existsb (fun h => hh_name h =s name) headers)
    then headers ++ [mkHeader name (as_bytes text) false] else headers
  | None => headers
  end.

Definition CREDENTIAL_HEADERS : list str :=
  [$"authorization"; $"proxy-authorization"; $"cookie"; $"set-cookie"; $"x-api-key"; $"api-key";
   $"api_key"; $"x-auth-token"; $"x-access-token"].

Definition log_header (api_key : str) (h : HttpHeader) : RequestLogHeader :=
  mkLogHeader (hh_name h)
    (if hh_sensitive h || one_of (hh_name h) CREDENTIAL_HEADERS then LOG_REDACTED
     else redact (from_utf8_lossy (hh_value h)) api_key).

Definition authority (url : Url) : option str :=
  match ur_host url with
  | Some host => Some (match ur_port url with
                       | Some port => host ++ $":" ++ show_N port
                       | None => host
                       end)
  | None => None
  end.

(** [headers], [url] and [body] are those of the built request. *)
Definition captured_headers `{HeaderValues} (api_key : str) (headers : list HttpHeader) (url : Url)
    (body : option bytes) : list RequestLogHeader :=
  let headers := or_insert $"accept" (Some $"*/*") headers in
  let headers := or_insert $"host" (authority url) headers in
  let headers := or_insert $"content-length"
                   (option_map (fun body => show_nat (length body)) body) headers in
  order_by (fun a b => str_le (lh_name a) (lh_name b)) (map (log_header api_key) headers).

Definition log_built_request `{HeaderValues} (headers : list HttpHeader) (url : Url) (body : option bytes)
    (log : RequestLog) (db : LogDb) : RequestLog * LogDb :=
  match log with
  | None => (None, db)
  | Some st =>
    let d := ls_detail st in
    let st := set_detail
                (mkLogDetail (ld_id d) (ld_created_at d) (ld_model d) (ld_endpoint d) (ld_status d)
                   (ld_http_status d) (ld_duration_ms d) (ld_request_body d)
                   (Some (captured_headers (ls_api_key st) headers url body))
                   (ld_response_body d) (ld_response_content_type d) (ld_error d) (ld_truncated d)) st in
    (Some st, snd (persist st db))
  end.

(** [content_type] is the header if it is visible ASCII; without it the old value goes. *)
Definition log_response (status : Z) (content_type : option str) (log : RequestLog) : RequestLog :=
  option_map (fun st =>
    let d := ls_detail st in
    set_detail
      (mkLogDetail (ld_id d) (ld_created_at d) (ld_model d) (ld_endpoint d) (ld_status d)
         (Some status) (ld_duration_ms d) (ld_request_body d) (ld_request_headers d)
         (ld_response_body d)
         (option_map (fun value => redact value (ls_api_key st)) content_type)
         (ld_error d) (ld_truncated d)) st) log.

Definition append_response (chunk : bytes) (log : RequestLog) : RequestLog :=
  option_map (fun st =>
    let remaining := (BODY_LIMIT + blen (ls_api_key st) - N.of_nat (length (ls_response st)))%N in
    let d := ls_detail st in
    mkLogState (ls_retention_days st)
      (mkLogDetail (ld_id d) (ld_created_at d) (ld_model d) (ld_endpoint d) (ld_status d)
         (ld_http_status d) (ld_duration_ms d) (ld_request_body d) (ld_request_headers d)
         (ld_response_body d) (ld_response_content_type d) (ld_error d)
         (ld_truncated d || (remaining <? N.of_nat (length chunk))%N))
      (ls_response st ++ take (N.to_nat (N.min (N.of_nat (length chunk)) remaining)) chunk)
      (ls_api_key st)) log.

Definition finish_log (error : option str) (log : RequestLog) (db : LogDb) : RequestLog * LogDb :=
  match log with
  | None => (None, db)
  | Some st =>
    let '(st, db) := complete (match error with Some _ => $"error" | None => $"success" end) error st db in
    (Some st, db)
  end.

(** The reader of a wrapped stream takes [taken] items and drops it; the items that it sees
    and what is in the database then. *)
Fixpoint wrap {A E} (error_text : E -> str) (taken : nat) (stream : list (result A E))
    (log : RequestLog) (db : LogDb) : list (result A E) * LogDb :=
  match taken with
  | 0 => ([], drop_log log db)
  | S taken =>
    match stream with
    | [] => let '(log, db) := finish_log None log db in ([], drop_log log db)
    | Ok event :: rest =>
      let '(seen, db) := wrap error_text taken rest log db in (Ok event :: seen, db)
    | Err error :: _ =>
      let '(log, db) := finish_log (Some (error_text error)) log db in ([Err error], drop_log log db)
    end
  end.

(** [RawResponsesStream::into_byte_stream], read likewise. *)
Fixpoint raw_byte_stream {E} (error_text : E -> str) (taken : nat) (stream : list (result bytes E))
    (log : RequestLog) (db : LogDb) : list (result bytes str) * LogDb :=
  match taken with
  | 0 => ([], drop_log log db)
  | S taken =>
    match stream with
    | [] => let '(log, db) := finish_log None log db in ([], drop_log log db)
    | Ok chunk :: rest =>
      let '(seen, db) := raw_byte_stream error_text taken rest (append_response chunk log) db in
      (Ok chunk :: seen, db)
    | Err error :: _ =>
      let message := error_text error in
      let '(log, db) := finish_log (Some message) log db in ([Err message], drop_log log db)
    end
  end.
End Logs.

(** ** Redaction leaves no key *)

(** A credential that cannot arise from the placeholder and the text around it. *)
Definition plain_key (key : str) : Prop :=
  key <> [] /\ (91%N ∉ key) /\ (93%N ∉ key) /\ contains key $"REDACTED" = false.
Definition keyless (key text : str) : Prop := contains key text = false.

Lemma starts_with_replaced p q c by_ s :
  c ∉ q -> starts_with q (replace_from p (c :: by_) 0 s) = true -> starts_with q s = true.
Proof.
  intros Hc. revert q Hc. induction s as [|x s IH]; intros q Hc; cbn [replace_from]; [done|].
  destruct (starts_with p (x :: s)).
  - rewrite <- app_comm_cons. pose proof (starts_with_cut q [] c (by_ ++ replace_from p (c :: by_) (length p - 1) s) Hc) as Hs.
    cbn [app] in Hs. rewrite Hs. by destruct q.
  - destruct q as [|y q]; [done|]. apply not_elem_of_cons in Hc as [_ Hc].
    unfold starts_with in *. cbn [strip_prefix]. destruct (y =? x)%N; [|done]. by apply IH.
Qed.

Lemma redacted_block key rest : plain_key key -> keyless key rest -> keyless key (LOG_REDACTED ++ rest).
Proof.
  intros (Hn & Ho & Hc & Hr) Hk. unfold keyless.
  change (LOG_REDACTED ++ rest) with ([] ++ 91%N :: ($"REDACTED" ++ 93%N :: rest)).
  rewrite !contains_cut by done. rewrite Hr, Hk. by destruct key.
Qed.

Lemma replace_from_keyless key skip s : plain_key key -> keyless key (replace_from key LOG_REDACTED skip s).
Proof.
  intros Hp. revert skip. induction s as [|x s IH]; intros skip; cbn [replace_from].
  { destruct Hp as [Hn _]. by destruct key. }
  destruct skip as [|skip]; [|apply IH].
  destruct (starts_with key (x :: s)) eqn:E; [by apply redacted_block|].
  unfold keyless. cbn [contains]. apply orb_false_iff. split; [|apply IH].
  apply not_true_iff_false. intros Hs. apply not_true_iff_false in E. apply E. clear E.
  destruct Hp as (_ & Ho & _). destruct key as [|y key]; [done|].
  apply not_elem_of_cons in Ho as [_ Ho].
  unfold starts_with in *. cbn [strip_prefix] in *. destruct (y =? x)%N; [|done].
  by apply (starts_with_replaced (y :: key) key 91%N $"REDACTED]" s).
Qed.

Lemma redact_keyless key text : plain_key key -> keyless key (redact text key).
Proof.
  intros Hp. unfold redact. pose proof Hp as [Hn _].
  destruct key as [|c key]; [done|]. by apply replace_from_keyless.
Qed.

Lemma placeholder_keyless key : plain_key key -> keyless key LOG_REDACTED.
Proof.
  intros Hp. rewrite <- (app_nil_r LOG_REDACTED). apply redacted_block; [done|].
  destruct Hp as [Hn _]. by destruct key.
Qed.

Lemma bounded_keyless key text : keyless key text -> keyless key (fst (bounded_text text)).
Proof.
  unfold bounded_text, keyless. destruct (_ <? _)%N; cbn [fst]; [|done].
  destruct (byte_prefix_spec BODY_LIMIT text) as (r & Hs & _).
  rewrite <- !not_true_iff_false, !contains_true. intros Hn (a & b & Hab). apply Hn.
  exists a, (b ++ r). by rewrite Hs, Hab, <- !app_assoc.
Qed.

(** What an optional field holds, if it is there. *)
Definition opt_holds {A} (P : A -> Prop) (o : option A) : Prop :=
  match o with Some a => P a | None => True end.

(** The texts of a row that come from the request, its answer and its failure. *)
Definition detail_clean (key : str) (d : RequestLogDetail) : Prop :=
  keyless key (ld_model d) /\ keyless key (ld_endpoint d) /\ keyless key (ld_request_body d) /\
  keyless key (ld_response_body d) /\ opt_holds (keyless key) (ld_response_content_type d) /\
  opt_holds (keyless key) (ld_error d) /\
  opt_holds (Forall (fun h => keyless key (lh_value h))) (ld_request_headers d).

(** ** The life of a log *)

(** What the client does with the log of a request. *)
Inductive LogCall :=
| CallRequest (headers : list HttpHeader) (url : Url) (body : option bytes)
| CallResponse (status : Z) (content_type : option str)
| CallAppend (chunk : bytes)
| CallFinish (error : option str).

Section Life.
Context {En : Env} {Lo : LogOutside} {Hv : HeaderValues}.

Definition run_log_call (c : LogCall) (log : RequestLog) (db : LogDb) : RequestLog * LogDb :=
  match c with
  | CallRequest headers url body => log_built_request headers url body log db
  | CallResponse status content_type => (log_response status content_type log, db)
  | CallAppend chunk => (append_response chunk log, db)
  | CallFinish error => finish_log error log db
  end.
Fixpoint run_log_calls (calls : list LogCall) (log : RequestLog) (db : LogDb) : RequestLog * LogDb :=
  match calls with
  | [] => (log, db)
  | c :: rest => let '(log, db) := run_log_call c log db in run_log_calls rest log db
  end.

Lemma open_rows days db r db' :
  open_database days db = (r, db') -> forall d, d ∈ lg_rows db' -> d ∈ lg_rows db.
Proof.
  unfold open_database. destruct (log_fault _); intros [= <- <-] d; cbn [lg_rows]; [done|].
  unfold delete_where. rewrite !list_elem_of_In, filter_In. by intros [].
Qed.

Lemma persist_rows st db r db' :
  persist st db = (r, db') -> forall d, d ∈ lg_rows db' -> d ∈ lg_rows db \/ d = ls_detail st.
Proof.
  unfold persist. destruct (open_database _ db) as [[?|?] db1] eqn:E.
  - intros [= <- <-] d. cbn [lg_rows]. rewrite elem_of_app, list_elem_of_singleton. unfold delete_where.
    rewrite list_elem_of_In, filter_In, <- list_elem_of_In.
    intros [[Hd _]|Hd]; [left; by eapply open_rows|by right].
  - intros [= <- <-] d Hd. left. by eapply open_rows.
Qed.

(** *** No row holds the key *)

(** Every row is one of [old] or holds no [key], and the log will write such rows only. *)
Definition holds_no_key (key : str) (old : list RequestLogDetail) (log : RequestLog) (db : LogDb) : Prop :=
  opt_holds (fun st => ls_api_key st = key /\ detail_clean key (ls_detail st)) log /\
  forall d, d ∈ lg_rows db -> d ∈ old \/ detail_clean key d.

Lemma persist_no_key key old st db :
  holds_no_key key old (Some st) db -> holds_no_key key old (Some st) (snd (persist st db)).
Proof.
  intros [Hs Hd]. split; [done|]. intros d Hin. destruct (persist st db) as [r db'] eqn:E.
  destruct (persist_rows _ _ _ _ E d Hin) as [Ho| ->]; [by apply Hd|right; by destruct Hs].
Qed.

Lemma complete_no_key key old status error st db :
  plain_key key -> holds_no_key key old (Some st) db ->
  holds_no_key key old (Some (fst (complete status error st db))) (snd (complete status error st db)).
Proof.
  intros Hp [(Hk & Hm & He & Hq & Hr & Hct & Her & Hh) Hd]. unfold complete. destruct (log_draw db) as [n db1] eqn:En1.
  destruct (bounded_text _) as [response truncated] eqn:Eb. cbn [fst snd].
  assert (lg_rows db1 = lg_rows db) as Hrows by (by injection En1 as <- <-).
  apply persist_no_key. split; [|by rewrite Hrows]. cbn. split; [done|].
  split_and!; try done.
  - pose proof (f_equal fst Eb) as Hf. cbn [fst] in Hf. cbn. rewrite <- Hf.
    apply bounded_keyless. rewrite Hk. by apply redact_keyless.
  - destruct error; cbn; [|done]. rewrite Hk. by apply redact_keyless.
Qed.

Lemma captured_no_key key headers url body :
  plain_key key -> Forall (fun h => keyless key (lh_value h)) (captured_headers key headers url body).
Proof.
  intros Hp. unfold captured_headers. rewrite order_by_perm. apply Forall_forall. intros h Hh.
  apply list_elem_of_fmap in Hh as (x & -> & _). unfold log_header. cbn.
  destruct (_ || _); [by apply placeholder_keyless|by apply redact_keyless].
Qed.

Lemma log_call_no_key key old c log db :
  plain_key key -> holds_no_key key old log db ->
  holds_no_key key old (fst (run_log_call c log db)) (snd (run_log_call c log db)).
Proof.
  intros Hp Hi. pose proof Hi as [Hs Hd].
  destruct c as [headers url body|status content_type|chunk|error], log as [st|]; try done;
    cbn [run_log_call log_built_request finish_log fst snd log_response append_response option_map].
  - apply persist_no_key. destruct Hs as (Hk & Hm & He & Hq & Hr & Hct & Her & Hh).
    split; [|done]. split; [done|]. split_and!; try done. cbn. rewrite Hk. by apply captured_no_key.
  - destruct Hs as (Hk & Hm & He & Hq & Hr & Hct & Her & Hh).
    split; [|done]. split; [done|]. split_and!; try done. cbn.
    destruct content_type; cbn; [|done]. rewrite Hk. by apply redact_keyless.
  - pose proof (complete_no_key key old (match error with Some _ => $"error" | None => $"success" end)
                  error st db Hp Hi) as Hc.
    by destruct (complete _ error st db).
Qed.

Lemma log_calls_no_key key old calls log db :
  plain_key key -> holds_no_key key old log db ->
  holds_no_key key old (fst (run_log_calls calls log db)) (snd (run_log_calls calls log db)).
Proof.
  intros Hp. revert log db. induction calls as [|c calls IH]; intros log db Hi; [done|].
  cbn [run_log_calls]. pose proof (log_call_no_key key old c log db Hp Hi) as Hc.
  destruct (run_log_call c log db) as [log1 db1]. by apply IH.
Qed.

Lemma started_no_key `{JsonPretty, UrlCodec} enabled days endpoint body key db log db1 :
  plain_key key -> start_at enabled days endpoint body key db = (log, db1) ->
  holds_no_key key (lg_rows db) log db1.
Proof.
  intros Hp. unfold start_at. destruct enabled; cbn [negb].
  2:{ intros [= <- <-]. split; [done|]. by left. }
  destruct (bounded_text _) as [r t] eqn:Eb. destruct (log_draw db) as [n db2] eqn:En2.
  assert (lg_rows db2 = lg_rows db) as Hrows by (by injection En2 as <- <-).
  set (st := mkLogState _ _ _ _). assert (holds_no_key key (lg_rows db) (Some st) db2) as Hs.
  { split; [|rewrite Hrows; by left]. split; [done|]. pose proof (f_equal fst Eb) as Hb. cbn [fst] in Hb.
    split_and!; cbn; try done; try by apply redact_keyless.
    - rewrite <- Hb. by apply bounded_keyless, redact_keyless.
    - destruct Hp as [Hn _]. by destruct key. }
  pose proof (persist_no_key _ _ _ _ Hs) as Hps.
  destruct (persist st db2) as [[?|?] db3]; intros [= <- <-]; [done|]. split; [done|]. apply Hps.
Qed.

Lemma drop_no_key key old log db :
  plain_key key -> holds_no_key key old log db ->
  forall d, d ∈ lg_rows (drop_log log db) -> d ∈ old \/ detail_clean key d.
Proof.
  intros Hp Hi. destruct log as [st|]; cbn [drop_log]; [|apply Hi].
  destruct (_ =s _); [|apply Hi]. by apply (complete_no_key key old).
Qed.

(** *** How a log ends *)

Definition status_of_finish (error : option str) : str :=
  match error with Some _ => $"error" | None => $"success" end.
(** The status of a request whose log was used like this and then dropped. *)
Definition final_status (calls : list LogCall) : str :=
  foldl (fun status c => match c with CallFinish error => status_of_finish error | _ => status end)
    $"interrupted" calls.

Context (no_fault : forall n, log_fault n = None).

Definition rows_of (id : str) (db : LogDb) : list RequestLogDetail :=
  select (fun d => ld_id d =s id) (lg_rows db).

Lemma persist_selects st db : rows_of (ld_id (ls_detail st)) (snd (persist st db)) = [ls_detail st].
Proof.
  unfold persist, open_database. rewrite no_fault. cbn [snd lg_rows]. unfold rows_of, select. cbn [lg_rows].
  rewrite List.filter_app. cbn [List.filter]. rewrite str_eqb_refl.
  unfold delete_where. induction (List.filter _ (lg_rows db)) as [|d l IH]; cbn [List.filter app]; [done|].
  destruct (ld_id d =s _) eqn:E; cbn [List.filter negb]; [done|]. by rewrite E.
Qed.

(** What is known of a log whose last finish left [status], in memory and in the database. *)
Definition log_stands (id status : str) (log : RequestLog) (db : LogDb) : Prop :=
  match log with
  | Some st =>
    ld_id (ls_detail st) = id /\
    if status =s $"interrupted" then ld_status (ls_detail st) = $"pending"
    else (status = $"success" \/ status = $"error") /\ ld_status (ls_detail st) = status /\
         exists d, rows_of id db = [d] /\ ld_status d = status
  | None => False
  end.

Lemma complete_stands status error st db :
  ld_id (ls_detail (fst (complete status error st db))) = ld_id (ls_detail st) /\
  ld_status (ls_detail (fst (complete status error st db))) = status /\
  rows_of (ld_id (ls_detail st)) (snd (complete status error st db))
  = [ls_detail (fst (complete status error st db))].
Proof.
  unfold complete. destruct (log_draw db) as [n db1]. destruct (bounded_text _) as [r t]. cbn [fst snd].
  split_and!; [done|done|]. exact (persist_selects (set_detail _ st) _).
Qed.

Lemma log_call_stands id status c log db :
  log_stands id status log db ->
  log_stands id (match c with CallFinish error => status_of_finish error | _ => status end)
    (fst (run_log_call c log db)) (snd (run_log_call c log db)).
Proof.
  destruct log as [st|]; [|done]. intros [Hid Hst].
  destruct c as [headers url body|code content_type|chunk|error];
    cbn [run_log_call log_built_request log_response append_response option_map finish_log fst snd].
  - split; [done|]. cbn. destruct (status =s _); [done|]. destruct Hst as (Hs & He & _).
    split_and!; [done|done|]. rewrite <- Hid.
    eexists. split; [exact (persist_selects (set_detail _ st) _)|exact He].
  - by split.
  - by split.
  - pose proof (complete_stands (status_of_finish error) error st db) as (Hi & Hs & Hr).
    unfold status_of_finish in *. destruct (complete _ error st db) as [st' db']. cbn [fst snd] in *.
    split; [by rewrite Hi|]. rewrite Hid in Hr.
    destruct error; (split_and!; [eauto|done|by eexists]).
Qed.

Lemma log_calls_stand id calls : forall status log db,
  log_stands id status log db ->
  log_stands id (foldl (fun status c =>
      match c with CallFinish error => status_of_finish error | _ => status end) status calls)
    (fst (run_log_calls calls log db)) (snd (run_log_calls calls log db)).
Proof.
  induction calls as [|c calls IH]; intros status log db Hs; [done|].
  cbn [run_log_calls foldl]. apply (log_call_stands _ _ c) in Hs.
  destruct (run_log_call c log db) as [log1 db1]. by apply IH.
Qed.

Lemma drop_stands id status log db :
  log_stands id status log db -> exists d, rows_of id (drop_log log db) = [d] /\ ld_status d = status.
Proof.
  destruct log as [st|]; [|done]. intros [<- Hst]. cbn [drop_log].
  destruct (status =s $"interrupted") eqn:E.
  - rewrite Hst. change ($"pending" =s $"pending") with true. cbv iota. apply str_eqb_true in E as ->.
    pose proof (complete_stands $"interrupted" (Some $"Request cancelled or stream dropped") st db)
      as (_ & Hs & Hr). eauto.
  - destruct Hst as (Hs & He & Hd). rewrite He.
    by replace (status =s $"pending") with false by (by destruct Hs as [-> | ->]).
Qed.

Context {Jp : JsonPretty} {Uc : UrlCodec}.

Lemma start_stands days endpoint body key db :
  exists st db1, start_at true days endpoint body key db = (Some st, db1) /\
    log_stands (ld_id (ls_detail st)) $"interrupted" (Some st) db1.
Proof.
  unfold start_at, persist, open_database. cbn [negb].
  destruct (bounded_text _) as [r t]. destruct (log_draw db) as [n db1]. rewrite no_fault.
  eexists _, _. split; [reflexivity|]. by split.
Qed.
End Life.


(** ** The part of a key that stays

    The response is cut behind the limit by the length of the key, so that a key at the
    limit is still found whole.  An earlier occurrence of the key makes the redacted text
    shorter, though, and then the beginning of a key at the cut moves inside the limit. *)

Definition ascii (s : str) : Prop := Forall (fun c => (c < 128)%N) s.

Lemma lossy_ascii s : ascii s -> from_utf8_lossy s = s.
Proof.
  unfold from_utf8_lossy, decode_utf8. induction 1 as [|c s Hc Hs IH]; [done|].
  cbn [length decode_loop next_char]. rewrite (proj2 (N.ltb_lt c 128)) by done. cbn. f_equal. exact IH.
Qed.

Lemma utf8_ascii c : (c < 128)%N -> utf8_char c = [c].
Proof. intros Hc. unfold utf8_char. by rewrite (proj2 (N.ltb_lt c 128)). Qed.

Lemma blen_ascii s : ascii s -> blen s = N.of_nat (length s).
Proof.
  unfold blen, byte_len, as_bytes. intros Hs. f_equal. induction Hs as [|c s Hc Hs IH]; [done|].
  cbn [map concat]. rewrite length_app, IH, utf8_ascii by done. done.
Qed.

Lemma byte_prefix_ascii n s : ascii s -> byte_prefix n s = take (N.to_nat n) s.
Proof.
  intros Hs. revert n. induction Hs as [|c s Hc Hs IH]; intros n; cbn [byte_prefix]; [by rewrite take_nil|].
  rewrite utf8_ascii by done. change (N.of_nat (length [c])) with 1%N.
  destruct (N.leb_spec 1 n) as [Hn|Hn].
  - rewrite IH. replace (N.to_nat n) with (S (N.to_nat (n - 1))) by lia. done.
  - by replace (N.to_nat n) with 0 by lia.
Qed.

Lemma bounded_ascii s : ascii s -> fst (bounded_text s) = take (N.to_nat BODY_LIMIT) s.
Proof.
  intros Hs. unfold bounded_text. rewrite blen_ascii by done. generalize BODY_LIMIT as limit. intros limit.
  destruct (N.ltb_spec limit (N.of_nat (length s))) as [Hl|Hl]; cbn [fst].
  - by apply byte_prefix_ascii.
  - rewrite take_ge by lia. done.
Qed.

Lemma replace_skip p by_ a s : replace_from p by_ (length a) (a ++ s) = replace_from p by_ 0 s.
Proof. induction a as [|c a IH]; [done|]. cbn [length app replace_from]. apply IH. Qed.

Lemma replace_first p by_ s : p <> [] -> replace_str p by_ (p ++ s) = by_ ++ replace_str p by_ s.
Proof.
  intros Hp. destruct p as [|c p]; [done|]. unfold replace_str. cbn [app replace_from].
  rewrite (proj2 (starts_with_true (c :: p) (c :: p ++ s))) by (by exists s).
  cbn [length]. rewrite Nat.sub_1_r. cbn [Nat.pred]. by rewrite replace_skip.
Qed.

Lemma contains_longer p s : length s < length p -> contains p s = false.
Proof.
  intros Hl. apply not_true_iff_false. rewrite contains_true. intros (a & b & ->).
  rewrite !length_app in Hl. lia.
Qed.

Lemma contains_filler p c n s : p <> [] -> c ∉ p -> contains p (repeat c n ++ s) = contains p s.
Proof.
  intros Hp Hc. induction n as [|n IH]; [done|]. cbn [repeat app].
  pose proof (contains_cut p [] c (repeat c n ++ s) Hc) as Hs. cbn [app] in Hs. rewrite Hs, IH.
  by destruct p.
Qed.

Lemma ascii_repeat c n : (c < 128)%N -> ascii (repeat c n).
Proof. intros Hc. induction n; by constructor. Qed.

(** The text that is stored for a response of a key, a filler, and the beginning of a key. *)
Lemma redacted_cut key n j :
  key <> [] -> ascii key -> 97%N ∉ key -> j < length key ->
  redact (from_utf8_lossy (key ++ repeat 97%N n ++ take j key)) key
  = LOG_REDACTED ++ repeat 97%N n ++ take j key.
Proof.
  intros Hp Ha Hk Hj. rewrite lossy_ascii.
  2:{ repeat apply Forall_app_2; [done|by apply ascii_repeat|by apply Forall_take]. }
  unfold redact. replace (is_empty key) with false by (by destruct key).
  rewrite replace_first by done. f_equal. apply replace_str_id.
  rewrite contains_filler by done. apply contains_longer. rewrite length_take. lia.
Qed.

(** *** The theorems *)

(** C26: Whatever is done with the log of a request whose credential cannot arise from
    the placeholder, no row that it leaves in the database holds the credential in the
    model, the address, the bodies, the headers, the content type or the error. *)
Theorem request_log_hides_key {En : Env} {Lo : LogOutside} {Hv : HeaderValues} {Jp : JsonPretty}
    {Uc : UrlCodec} enabled days endpoint body key calls db :
  plain_key key ->
  let '(log, db1) := start_at enabled days endpoint body key db in
  let '(log, db2) := run_log_calls calls log db1 in
  forall d, d ∈ lg_rows (drop_log log db2) -> d ∈ lg_rows db \/ detail_clean key d.
Proof.
  intros Hp. destruct (start_at _ _ _ _ _ _) as [log db1] eqn:E.
  pose proof (started_no_key _ _ _ _ _ _ _ _ Hp E) as Hs.
  pose proof (log_calls_no_key key (lg_rows db) calls log db1 Hp Hs) as Hc.
  destruct (run_log_calls _ _ _) as [log2 db2]. by apply drop_no_key.
Qed.

(** when the database answers, a request that is recorded leaves exactly one row, and
    its status says how the request ended: the result of the last end that was reported,
    or that it was interrupted. *)
Theorem request_log_closes {En : Env} {Lo : LogOutside} {Hv : HeaderValues} {Jp : JsonPretty}
    {Uc : UrlCodec} days endpoint body key calls db :
  (forall n, log_fault n = None) ->
  exists st db1, start_at true days endpoint body key db = (Some st, db1) /\
  let '(log, db2) := run_log_calls calls (Some st) db1 in
  exists d, rows_of (ld_id (ls_detail st)) (drop_log log db2) = [d] /\ ld_status d = final_status calls.
Proof.
  intros Hf. destruct (start_stands Hf days endpoint body key db) as (st & db1 & Hst & Hs).
  exists st, db1. split; [done|]. apply (log_calls_stand Hf _ calls) in Hs.
  destruct (run_log_calls _ _ _) as [log db2]. by apply (drop_stands Hf) in Hs.
Qed.

(** A response that holds the key twice, the second time where the response is cut, leaves
    all but eleven characters of the key in the database. *)
Theorem response_keeps_part_of_key {En : Env} {Lo : LogOutside} st db key :
  ls_api_key st = key -> ls_response st = [] -> ascii key -> 97%N ∉ key ->
  11 <= length key -> length key <= N.to_nat BODY_LIMIT ->
  let filler := repeat 97%N (N.to_nat BODY_LIMIT + 1 - length key) in
  exists st' db',
    finish_log None (append_response (key ++ filler ++ key) (Some st)) db = (Some st', db') /\
    ld_response_body (ls_detail st') = LOG_REDACTED ++ filler ++ take (length key - 11) key.
Proof.
  intros Hk Hr Ha Hf Hl Hlim filler.
  assert (key <> []) as Hn by (intros ->; simpl in Hl; lia).
  assert (forall st', ls_response st' = key ++ filler ++ take (length key - 1) key -> ls_api_key st' = key ->
    exists st'' db', finish_log None (Some st') db = (Some st'', db') /\
      ld_response_body (ls_detail st'') = LOG_REDACTED ++ filler ++ take (length key - 11) key) as Hend.
  { intros st' Hr' Hk'. unfold finish_log, complete. destruct (log_draw db) as [n db1].
    rewrite Hr', Hk'. unfold filler. rewrite (redacted_cut key) by (done || lia).
    destruct (bounded_text _) as [body t] eqn:Eb. eexists _, _. split; [reflexivity|]. cbn.
    pose proof (f_equal fst Eb) as Hb. cbn [fst] in Hb. rewrite <- Hb, bounded_ascii.
    2:{ repeat apply Forall_app_2; [by repeat constructor|by apply ascii_repeat|by apply Forall_take]. }
    clear -Hlim Hl. revert Hlim. generalize (N.to_nat BODY_LIMIT) as limit. intros limit Hlim.
    rewrite !take_app, repeat_length, take_take. change (length LOG_REDACTED) with 10.
    rewrite (take_ge LOG_REDACTED) by (change (length LOG_REDACTED) with 10; lia).
    rewrite take_ge by (rewrite repeat_length; lia). do 2 f_equal. f_equal. lia. }
  apply Hend; [|done]. cbn [append_response option_map ls_response ls_api_key].
  rewrite Hr, Hk, blen_ascii by done. cbn [app length].
  rewrite N.sub_0_r. revert Hlim. subst filler. clear Hend.
  replace (N.to_nat (N.min _ _)) with (N.to_nat BODY_LIMIT + length key).
  2:{ rewrite !length_app, repeat_length. lia. }
  generalize (N.to_nat BODY_LIMIT) as limit. intros limit Hlim.
  rewrite (app_assoc key), take_app_ge by (rewrite length_app, repeat_length; lia).
  rewrite <- app_assoc. do 2 f_equal. rewrite length_app, repeat_length. f_equal. lia.
Qed.

(** ** Pages of the log *)

Lemma newer_log_total a b : newer_log a b = true \/ newer_log b a = true.
Proof.
  unfold newer_log, str_le. destruct (Z.lt_trichotomy (ld_created_at a) (ld_created_at b)) as [H|[H|H]].
  - right. by rewrite (proj2 (Z.ltb_lt _ _) H).
  - rewrite H, Z.ltb_irrefl, Z.eqb_refl. cbn [orb andb].
    destruct (str_ltb (ld_id a) (ld_id b)) eqn:E; [|by left]. right. by rewrite (str_ltb_asym _ _ E).
  - left. by rewrite (proj2 (Z.ltb_lt _ _) H).
Qed.

Lemma page_length {A} (offset : nat) (l : list A) :
  (PAGE_SIZE <? length (page offset (PAGE_SIZE + 1) l)) = (offset + PAGE_SIZE <? length l).
Proof.
  unfold page, PAGE_SIZE. rewrite length_take, length_drop.
  destruct (Nat.ltb_spec 10 ((10 + 1) `min` (length l - offset)));
    destruct (Nat.ltb_spec (offset + 10) (length l)); lia || done.
Qed.

(** A query that succeeds returns the ten matching rows behind the offset, newest first,
    and says rightly whether there are more; rows that have expired are gone before. *)
Theorem query_returns_page {En : Env} {Lo : LogOutside} `{JsonText, JsonParse, DateParse}
    days query db p db' :
  lg_exists db = true -> query_at days query db = (Ok p, db') ->
  exists from to_ all,
    parse_date (lq_from query) = Ok from /\ parse_date (lq_to query) = Ok to_ /\
    all ≡ₚ select (log_matches from to_ query) (lg_rows db') /\
    Sorted (fun a b => newer_log a b = true) all /\
    lp_items p = map log_summary (page (N.to_nat (lq_offset query)) PAGE_SIZE all) /\
    lp_has_more p = (N.to_nat (lq_offset query) + PAGE_SIZE <? length all).
Proof.
  intros He. unfold query_at. destruct (parse_date (lq_from query)) as [from|]; cbn [rbind]; [|done].
  destruct (parse_date (lq_to query)) as [to_|]; cbn [rbind]; [|done].
  destruct (match from, to_ with Some f, Some t => (t <? f)%Z | _, _ => false end); [done|].
  destruct (negb (one_of _ _)); [done|]. rewrite He. cbn [negb].
  destruct (open_database days db) as [[?|?] db1]; [|done]. intros [= <- <-].
  exists from, to_, (order_by newer_log (select (log_matches from to_ query) (lg_rows db1))).
  split_and!; [done|done|apply order_by_perm|apply order_by_sorted, newer_log_total| |].
  - cbn [lp_items]. unfold page at 1. rewrite take_take. by unfold PAGE_SIZE.
  - apply page_length.
Qed.

(** ** Examples *)

#[local] Instance log_env : Env := counter_env true.
#[local] Instance log_world : LogOutside := {| log_fault := fun _ => None; log_elapsed_ms := N.of_nat |}.
#[local] Instance plain_headers : HeaderValues := fun _ => true.
#[local] Instance plain_json : JsonPretty := fun v =>
  match json_get $"model" v with Some (JString text) => text | _ => $"{}" end.
#[local] Instance plain_urls : UrlCodec := {|
  url_parse := fun text => Some (mkUrl text (Some $"h") None [] None None None);
  url_text := ur_rest |}.

Definition log_body : Value := JObject [($"model", JString $"m-sk-1")].
Definition log_calls : list LogCall :=
  [CallRequest [mkHeader $"authorization" (as_bytes $"Bearer sk-1") true]
     (mkUrl $"u" (Some $"h") (Some 8080%N) [] None None None) (Some []);
   CallResponse 200 (Some $"text/plain"); CallAppend (as_bytes $"your key is sk-1"); CallFinish None].

Lemma plain_key_example : plain_key $"sk-1".
Proof. repeat split; try (vm_compute; set_solver); done. Qed.

Lemma request_log_hides_key_witness :
  plain_key $"sk-1" /\
  let '(log, db1) := start_at true 30 $"https://h/v1" log_body $"sk-1" no_logs in
  let '(log, db2) := run_log_calls log_calls log db1 in
  forall d, d ∈ lg_rows (drop_log log db2) -> d ∈ lg_rows no_logs \/ detail_clean $"sk-1" d.
Proof.
  split; [exact plain_key_example|].
  exact (request_log_hides_key true 30 $"https://h/v1" log_body $"sk-1" log_calls no_logs plain_key_example).
Defined.

Lemma request_log_closes_witness :
  (forall n, log_fault n = None) /\
  exists st db1, start_at true 30 $"https://h/v1" log_body $"sk-1" no_logs = (Some st, db1) /\
  let '(log, db2) := run_log_calls log_calls (Some st) db1 in
  exists d, rows_of (ld_id (ls_detail st)) (drop_log log db2) = [d] /\ ld_status d = $"success".
Proof.
  split; [done|]. exact (request_log_closes 30 $"https://h/v1" log_body $"sk-1" log_calls no_logs (fun _ => eq_refl)).
Defined.
