(* ===== verification/ImagesFacts.v ===== *)
(** * Images are kept, and their cards fit

    A message with images is read back as it was written; a text is cut to the longest
    prefix that fits its budget; and the request-facing history replaces the images of
    earlier messages by cards within the budget, duplicates pointing to a newer card. *)

From S2P Require Import Prelude.
From S2P Require Import Protocol.
From S2P Require Import Sql.
From S2P Require Import Core.
From S2P Require Import Routing.
From S2P Require Import Transcript.
From S2P Require Import Text.
From S2P Require Import ProviderWire.
From S2P Require Import Images.

(** ** Estimates *)

Lemma quarter_pos c : (1 <= quarter_tokens c)%Z.
Proof. unfold quarter_tokens. case_match; lia. Qed.
Lemma quarters_nonneg s : (0 <= sumZ (map quarter_tokens s))%Z.
Proof.
  apply sumZ_nonneg, Forall_map, Forall_true. intros c. cbn. pose proof (quarter_pos c). lia.
Qed.
Lemma sumZ_app a b : (sumZ (a ++ b) = sumZ a + sumZ b)%Z.
Proof. unfold sumZ. induction a; cbn; lia. Qed.
Lemma estimate_nonneg s : (0 <= estimate_text_tokens s)%Z.
Proof. unfold estimate_text_tokens. pose proof (quarters_nonneg s). apply Z.div_pos; lia. Qed.
Lemma estimate_app s r : (estimate_text_tokens (s ++ r) <= estimate_text_tokens s + estimate_text_tokens r)%Z.
Proof.
  unfold estimate_text_tokens. rewrite map_app, sumZ_app.
  pose proof (quarters_nonneg s). pose proof (quarters_nonneg r). 
  Z.div_mod_to_equations. lia.
Qed.
Lemma estimate_prefix s r : (estimate_text_tokens s <= estimate_text_tokens (s ++ r))%Z.
Proof.
  unfold estimate_text_tokens. rewrite map_app, sumZ_app. pose proof (quarters_nonneg r).
  apply Z.div_le_mono; lia.
Qed.
Lemma estimate_take n m s : n <= m -> (estimate_text_tokens (take n s) <= estimate_text_tokens (take m s))%Z.
Proof.
  intros Hn. replace (take m s) with (take n s ++ drop n (take m s)).
  - apply estimate_prefix.
  - rewrite <- (take_drop n (take m s)) at 2. f_equal. rewrite take_take. f_equal. lia.
Qed.

Lemma longest_prefix_spec budget chars fuel low high :
  high - low <= fuel -> low <= high ->
  (estimate_text_tokens (take low chars) <= budget)%Z ->
  let n := longest_prefix fuel low high budget chars in
  low <= n <= high /\ (estimate_text_tokens (take n chars) <= budget)%Z /\
  (n < high -> (budget < estimate_text_tokens (take (S n) chars))%Z).
Proof.
  revert low high. induction fuel as [|fuel IH]; intros low high Hf Hl Hb; cbn [longest_prefix].
  - split_and!; [lia..| |]; [done|lia].
  - destruct (Nat.ltb_spec low high) as [Hlt|]; [|split_and!; [lia..|done|lia]].
    pose proof (Nat.div_mod_eq (low + high + 1) 2). pose proof (Nat.mod_upper_bound (low + high + 1) 2).
    set (mid := (low + high + 1) / 2) in *.
    destruct (Z.leb_spec (estimate_text_tokens (take mid chars)) budget) as [Hm|Hm].
    + destruct (IH mid high) as (H1 & H2 & H3); [lia..|done|]. split_and!; [lia|lia|done|exact H3].
    + destruct (IH low (mid - 1)) as (H1 & H2 & H3); [lia..|done|].
      cbn zeta in *. set (n := longest_prefix fuel low (mid - 1) budget chars) in *.
      split_and!; [lia|lia|done|]. intros _.
      destruct (decide (n < mid - 1)); [by apply H3|].
      replace (S n) with mid by lia. done.
Qed.

Lemma token_cut_spec value max_tokens r clipped :
  (estimate_text_tokens TRUNCATED_MARKER <= max_tokens)%Z ->
  truncate_text_to_token_budget value max_tokens = (r, clipped) ->
  (estimate_text_tokens r <= max_tokens)%Z /\
  if clipped then
    exists n, n < length (trim value) /\
      r = (if n =? 0 then $"[truncated]" else take n (trim value) ++ TRUNCATED_MARKER) /\
      (max_tokens - estimate_text_tokens TRUNCATED_MARKER < estimate_text_tokens (take (S n) (trim value)))%Z
  else r = trim value.
Proof.
  intros Hmax. unfold truncate_text_to_token_budget.
  destruct (Z.leb_spec (estimate_text_tokens (trim value)) max_tokens) as [Hv|Hv].
  { intros [= <- <-]. done. }
  pose proof (longest_prefix_spec (sub_sat max_tokens (estimate_text_tokens TRUNCATED_MARKER)) (trim value)
    (length (trim value)) 0 (length (trim value)) ltac:(lia) ltac:(lia)) as Hs.
  cbn zeta in Hs.
  replace (sub_sat max_tokens (estimate_text_tokens TRUNCATED_MARKER))
    with (max_tokens - estimate_text_tokens TRUNCATED_MARKER)%Z in *. 2: { unfold sub_sat. lia. }
  set (n := longest_prefix _ _ _ _ _) in *.
  destruct Hs as (Hn & Hfit & Hnext); [rewrite take_0; change (estimate_text_tokens []) with 0%Z; lia|].
  assert (n < length (trim value)) as Hlt.
  { destruct (decide (n < length (trim value))); [done|]. exfalso.
    rewrite take_ge in Hfit by lia. pose proof (estimate_nonneg TRUNCATED_MARKER). lia. }
  intros [= <- <-]. split.
  - destruct (take n (trim value)) eqn:Et; cbn [is_empty].
    + etrans; [|exact Hmax]. vm_compute. discriminate.
    + etrans; [apply estimate_app|]. lia.
  - exists n. split_and!; [done| |by apply Hnext].
    destruct (Nat.eqb_spec n 0) as [->|Hz]; [by rewrite take_0|].
    destruct (take n (trim value)) eqn:Et; [|done].
    apply (f_equal length) in Et. rewrite length_take in Et. cbn in Et. lia.
Qed.

(** ** The block of images *)

Definition image_of (i : ChatImageAttachment) : image := (im_mime_type i, im_data_base64 i).

(** What [sanitize_chat_images] lets through. *)
Definition image_ok (i : ChatImageAttachment) : Prop :=
  starts_with $"image/" (im_mime_type i) = true /\
  Forall (fun c => is_whitespace c = false /\ c <> BAR /\ c <> SEMICOLON) (im_mime_type i) /\
  im_data_base64 i <> [] /\
  Forall (fun c => is_whitespace c = false) (im_data_base64 i).

Lemma no_space_trim s : Forall (fun c => is_whitespace c = false) s -> trim s = s.
Proof.
  intros Hs. apply trim_fixed; intros; subst.
  - by inversion Hs.
  - apply Forall_app in Hs as [_ Hs]. by inversion Hs.
Qed.

Lemma sanitized_image_ok i j : sanitize_chat_image i = Ok j ->
  image_ok j /\ (blen (im_data_base64 j) <= MAX_BYTES_ESTIMATE)%N.
Proof.
  unfold sanitize_chat_image. set (mime := to_ascii_lowercase _).
  destruct (one_of mime _) eqn:Em; cbn [negb]; [|done].
  destruct (is_empty _) eqn:Ed; [done|].
  destruct (MAX_BYTES_ESTIMATE <? _)%N eqn:Eb; [done|]. intros [= <-].
  apply N.ltb_ge in Eb. cbn. split; [|done].
  apply one_of_true in Em. split_and!.
  - clearbody mime. rewrite !elem_of_cons in Em.
    destruct Em as [->|[->|[->|[->|[->|Em%elem_of_nil]]]]]; [reflexivity..|done].
  - clearbody mime. rewrite !elem_of_cons in Em.
    assert (forall s, forallb (fun c => negb (is_whitespace c) && negb (c =? BAR)%N && negb (c =? SEMICOLON)%N) s = true ->
      Forall (fun c => is_whitespace c = false /\ c <> BAR /\ c <> SEMICOLON) s) as Hf.
    { intros s Hs. apply Forall_forall. intros c Hc. rewrite forallb_forall in Hs.
      apply list_elem_of_In, Hs in Hc. rewrite !andb_true_iff, !negb_true_iff, !N.eqb_neq in Hc. naive_solver. }
    apply Hf. destruct Em as [->|[->|[->|[->|[->|Em%elem_of_nil]]]]]; [vm_compute; reflexivity..|done].
  - intros Hd. cbn in Hd. by rewrite Hd in Ed.
  - apply Forall_forall. intros c [_ Hc%negb_true_iff]%list_elem_of_In%List.filter_In. done.
Qed.

Lemma sanitized_images_ok raw images :
  sanitize_chat_images raw = Ok images ->
  length images <= MAX_IMAGES /\
  Forall (fun i => image_ok i /\ (blen (im_data_base64 i) <= MAX_BYTES_ESTIMATE)%N) images.
Proof.
  unfold sanitize_chat_images. destruct raw as [raw|]; [|intros [= <-]; split; [cbn; lia|done]].
  destruct (Nat.ltb_spec MAX_IMAGES (length raw)) as [|Hlen]; [done|]. intros Hs.
  assert (length images = length raw /\
    Forall (fun i => image_ok i /\ (blen (im_data_base64 i) <= MAX_BYTES_ESTIMATE)%N) images) as [-> ?];
    [|done].
  clear Hlen. revert images Hs. induction raw as [|i raw IH]; cbn [sanitize_all]; intros images.
  { intros [= <-]. done. }
  destruct (sanitize_chat_image i) as [j|] eqn:Ej; cbn [rbind]; [|done].
  destruct (sanitize_all raw) as [rest|]; cbn [rbind]; [|done]. intros [= <-].
  destruct (IH rest eq_refl) as [Hl Hf]. cbn [length]. split; [lia|].
  constructor; [|done]. by eapply sanitized_image_ok.
Qed.

(** A character that is not in the pattern separates the places where it can stand. *)
Lemma find_str_cut p a c r :
  p <> [] -> c ∉ p -> contains p a = false ->
  find_str p (a ++ c :: r) = (fun i => length a + 1 + i) <$> find_str p r.
Proof.
  intros Hp Hc. induction a as [|x a IH]; intros Ha; cbn [app find_str].
  - pose proof (starts_with_cut p [] c r Hc) as Hcut. cbn [app] in Hcut. rewrite Hcut.
    destruct p; [done|]. cbn.
    by destruct (find_str _ r).
  - cbn [contains] in Ha. apply orb_false_iff in Ha as [Hx Ha].
    pose proof (starts_with_cut p (x :: a) c r Hc) as Hcut. cbn [app] in Hcut. rewrite Hcut, Hx.
    rewrite IH by done. by destruct (find_str p r).
Qed.

Lemma strip_repeat_once fuel p r :
  p <> [] -> strip_prefix p r = None -> strip_repeat (S fuel) p (p ++ r) = r.
Proof.
  intros Hp Hr. cbn [strip_repeat]. rewrite (proj2 (strip_prefix_Some p (p ++ r) r) eq_refl).
  destruct fuel; cbn [strip_repeat]; [done|]. by rewrite Hr.
Qed.

Lemma trim_start_str_once p r :
  p <> [] -> strip_prefix p r = None -> trim_start_matches_str p (p ++ r) = r.
Proof.
  intros Hp Hr. unfold trim_start_matches_str. destruct p as [|c p]; [done|].
  change (length ((c :: p) ++ r)) with (S (length (p ++ r))). by apply strip_repeat_once.
Qed.

Lemma join_split l :
  l <> [] -> Forall (fun s => SEMICOLON ∉ s) l -> split_on (N.eqb SEMICOLON) (join [SEMICOLON] l) = l.
Proof.
  intros Hne Hl. induction Hl as [|s l Hs Hl IH]; [done|].
  assert (Forall (fun x => (SEMICOLON =? x)%N = false) s) as Hf.
  { apply Forall_forall. intros c Hc. apply N.eqb_neq. intros <-. done. }
  destruct l as [|s' l]; [by apply split_on_none|].
  cbn [join]. cbn [app]. rewrite split_on_app by (done || apply N.eqb_refl).
  f_equal. by apply IH.
Qed.

Lemma join_forall (P : char -> Prop) sep l :
  Forall P sep -> Forall (Forall P) l -> Forall P (join sep l).
Proof.
  intros Hs Hl. induction Hl as [|s l Hsl Hl IH]; [constructor|].
  destruct l; cbn [join] in *; [done|]. rewrite !Forall_app. done.
Qed.

Definition SPACE : char := 32%N.

(** The end of the block is not found in a payload without white space. *)
Lemma find_end j :
  Forall (fun c => is_whitespace c = false) j ->
  find_str IMAGES_END (j ++ SPACE :: IMAGES_END) = Some (length j + 1).
Proof.
  intros Hj. apply find_str_Some. split_and!.
  - rewrite drop_app_ge by lia. by replace (length j + 1 - length j) with 1 by lia.
  - rewrite length_app. cbn [length]. lia.
  - intros k Hk. apply not_true_iff_false. intros [r Hr]%starts_with_true.
    rewrite drop_app_le in Hr by lia.
    assert (SPACE ∉ drop k j) as Hu.
    { intros Hin. apply (Forall_drop _ k) in Hj. eapply Forall_forall in Hj; [|exact Hin]. done. }
    pose proof (proj2 (split_once_Some SPACE _ (drop k j) IMAGES_END) (conj eq_refl Hu)) as H1.
    pose proof (proj2 (split_once_Some SPACE (IMAGES_END ++ r) $"xcoding-images" ($"-->" ++ r))
      ltac:(split; [done|by apply (bool_decide_unpack _)])) as H2.
    rewrite Hr, H2 in H1. injection H1 as _ H1. done.
Qed.

Lemma encode_image_ok i : image_ok i -> encode_image i = im_mime_type i ++ BAR :: im_data_base64 i.
Proof.
  intros (_ & Hm & _ & Hd). unfold encode_image. rewrite !no_space_trim; [done|done|].
  eapply Forall_impl; [exact Hm|]. naive_solver.
Qed.

Lemma encode_image_solid i :
  image_ok i -> Forall (fun c => is_whitespace c = false) (encode_image i).
Proof.
  intros Hi. rewrite encode_image_ok by done. destruct Hi as (_ & Hm & _ & Hd).
  apply Forall_app. split; [|by constructor].
  eapply Forall_impl; [exact Hm|]. naive_solver.
Qed.

Lemma parse_encode_image i : image_ok i -> parse_image_item (encode_image i) = Some (image_of i).
Proof.
  intros Hi. unfold parse_image_item. rewrite no_space_trim by by apply encode_image_solid.
  rewrite encode_image_ok by done. destruct Hi as (Hs & Hm & Hne & Hd).
  destruct (im_mime_type i ++ BAR :: im_data_base64 i) eqn:E; [by destruct (im_mime_type i)|].
  cbn [is_empty]. rewrite <- E. rewrite (proj2 (split_once_Some _ _ (im_mime_type i) (im_data_base64 i))).
  - rewrite !no_space_trim; [|done|eapply Forall_impl; [exact Hm|]; naive_solver].
    rewrite Hs. by destruct (im_data_base64 i) eqn:Ed; unfold image_of; rewrite ?Ed.
  - split; [done|]. intros Hb. eapply Forall_forall in Hm; [|exact Hb]. naive_solver.
Qed.

Lemma parse_encode_images images :
  images <> [] -> Forall image_ok images ->
  Forall (fun i => SEMICOLON ∉ im_data_base64 i) images ->
  parse_image_payload (join [SEMICOLON] (map encode_image images)) = map image_of images.
Proof.
  intros Hne Hok Hsemi. unfold parse_image_payload. rewrite join_split.
  - clear Hne. induction images as [|i images IH]; [done|].
    apply Forall_cons in Hok as [Hi Hok]. apply Forall_cons in Hsemi as [Hs Hsemi].
    cbn. rewrite parse_encode_image by done. f_equal. by apply IH.
  - by destruct images.
  - apply Forall_map. rewrite Forall_forall in Hok, Hsemi |- *. intros i Hi. cbn.
    rewrite encode_image_ok by auto. rewrite elem_of_app, elem_of_cons.
    destruct (Hok i Hi) as (_ & Hm & _). rewrite Forall_forall in Hm.
    intros [H|[H|H]]; [|done|by eapply Hsemi].
    by apply Hm in H as (_ & _ & ?).
Qed.

Lemma starts_with_mime i : image_ok i -> exists r, encode_image i = 105%N :: r.
Proof.
  intros Hi. rewrite encode_image_ok by done. destruct Hi as (Hs%starts_with_true & _).
  destruct Hs as [r ->]. eexists. reflexivity.
Qed.

Definition image_block (payload : str) : str :=
  $"<!-- xcoding-images" ++ COLON :: payload ++ SPACE :: IMAGES_END.

Lemma encode_with_images message images :
  images <> [] ->
  encode_user_message_with_images message images
  = (if is_empty (trim message) then [] else trim message ++ [LF; LF])
    ++ image_block (join [SEMICOLON] (map encode_image images)).
Proof.
  intros Hne. unfold encode_user_message_with_images. destruct images as [|i images]; [done|].
  cbn [is_empty]. destruct (is_empty (trim message)); [done|]. rewrite <- app_assoc. done.
Qed.

(** The block is taken apart. *)
Lemma block_inside payload :
  Forall (fun c => is_whitespace c = false) payload ->
  (forall c r, payload = c :: r -> c <> COLON) ->
  find_str IMAGES_END (image_block payload) = Some (20 + length payload + 1) /\
  trim (trim_start_matches (N.eqb COLON)
    (trim (trim_end_matches_str IMAGES_END (trim_start_matches_str IMAGES_BEGIN (image_block payload)))))
  = payload.
Proof.
  intros Hp Hc. unfold image_block. split.
  - rewrite find_str_cut.
    + rewrite find_end by done. done.
    + done.
    + by apply (bool_decide_unpack _).
    + by vm_compute.
  - change $"<!-- xcoding-images" with IMAGES_BEGIN. rewrite trim_start_str_once by done.
    unfold trim_end_matches_str.
    replace (COLON :: payload ++ SPACE :: IMAGES_END)
      with ((COLON :: payload ++ [SPACE]) ++ IMAGES_END) by (cbn; by rewrite <- app_assoc).
    rewrite rev_app_distr, trim_start_str_once; [|done|].
    2: { rewrite app_comm_cons, rev_app_distr. done. }
    rewrite rev_involutive.
    pose proof (trim_pad [] (COLON :: payload) [SPACE] ltac:(constructor) ltac:(by repeat constructor)) as Ht.
    cbn [app] in Ht. rewrite Ht, (no_space_trim (COLON :: payload)) by by constructor.
    unfold trim_start_matches. cbn [drop_while]. rewrite N.eqb_refl.
    rewrite drop_while_id; [by apply no_space_trim|].
    intros c r ->. apply N.eqb_neq. intros Heq. by destruct (Hc c r eq_refl).
Qed.

(** A message with images that passed the check is stored and read back: the text
    trimmed and the images in order, provided that the text does not hold the marker of
    a block and the data no semicolon, which is not a character of base64. *)
Theorem stored_images_roundtrip message raw images :
  sanitize_chat_images raw = Ok images ->
  contains IMAGES_BEGIN (trim message) = false ->
  Forall (fun i => SEMICOLON ∉ im_data_base64 i) images ->
  parse_stored_user_message (encode_user_message_with_images message images)
  = (trim message, map image_of images).
Proof.
  intros [_ Hok]%sanitized_images_ok Hm Hsemi.
  assert (Forall image_ok images) as Hok' by (eapply Forall_impl; [exact Hok|]; naive_solver).
  destruct (decide (images = [])) as [->|Hne].
  { unfold encode_user_message_with_images, parse_stored_user_message. cbn [is_empty].
    by rewrite (proj2 (find_str_None _ _) Hm). }
  rewrite encode_with_images by done. set (payload := join _ _).
  assert (Forall (fun c => is_whitespace c = false) payload) as Hp.
  { apply join_forall; [by repeat constructor|]. apply Forall_map.
    eapply Forall_impl; [exact Hok'|]. apply encode_image_solid. }
  assert (forall c r, payload = c :: r -> c <> COLON) as Hhead.
  { destruct images as [|i images]; [done|]. apply Forall_cons in Hok' as [Hi _].
    destruct (starts_with_mime i Hi) as [r Hr]. unfold payload. cbn [map]. rewrite Hr.
    destruct images; intros c' r' [= <- _]; done. }
  destruct (block_inside payload Hp Hhead) as [Hend Hblock].
  set (lead := if is_empty (trim message) then [] else trim message ++ [LF; LF]).
  assert (find_str IMAGES_BEGIN (lead ++ image_block payload) = Some (length lead)) as Hbegin.
  { assert (find_str IMAGES_BEGIN (image_block payload) = Some 0) as H0 by reflexivity.
    unfold lead. destruct (is_empty (trim message)); [exact H0|].
    rewrite <- app_assoc. cbn [app].
    pose proof (find_str_cut IMAGES_BEGIN [] LF (image_block payload) ltac:(done)
      ltac:(by apply (bool_decide_unpack _)) ltac:(done)) as H1. cbn [app] in H1.
    rewrite find_str_cut, H1, H0; [|done|by apply (bool_decide_unpack _)|done].
    cbn. rewrite length_app. cbn. f_equal. lia. }
  unfold parse_stored_user_message. rewrite Hbegin, drop_app_length, Hend.
  assert (length (image_block payload) = 20 + length payload + 1 + length IMAGES_END) as Hl.
  { unfold image_block. rewrite length_app. cbn [length]. rewrite length_app.
    change (length $"<!-- xcoding-images") with 19. cbn [length]. lia. }
  rewrite (take_ge (image_block payload)) by lia. rewrite take_app_length.
  rewrite (drop_ge (lead ++ _)) by (rewrite length_app; lia). rewrite app_nil_r.
  rewrite Hblock. unfold payload. rewrite parse_encode_images by done. f_equal.
  unfold lead. destruct (trim message) as [|c text] eqn:Et; [done|]. cbn [is_empty].
  rewrite <- Et. pose proof (trim_pad [] (trim message) [LF; LF] ltac:(constructor) ltac:(by repeat constructor)) as Ht.
  cbn [app] in Ht. by rewrite Ht, trim_idem.
Qed.

(** ** Cards in the history of a request *)

Section Projection.
Context {Hash : HashStrings} {En : Env}.

(** What stands for the images of a message. *)
Inductive Card :=
| CardDescription (model description : str)
| CardDuplicate (first_message_id : str)
| CardOmitted.

Definition card_text (m : Message) (images : list image) (c : Card) : str :=
  let image_ref := vision_image_ref (vision_cache_key images) in
  let id := uuid_text (m_id m) in
  match c with
  | CardDescription model description =>
    card_prefix image_ref id (length images) model ++ description ++ CARD_SUFFIX
  | CardDuplicate first => render_historical_image_status_card image_ref id (length images) (duplicate_status first)
  | CardOmitted => render_historical_image_status_card image_ref id (length images) OMITTED_BY_BUDGET
  end.
Definition with_content (content : str) (m : Message) : Message :=
  mkMessage (m_id m) (m_session_id m) (m_role m) content (m_created_at m).
Definition with_card (m : Message) (c : option Card) : Message :=
  match c with
  | None => m
  | Some c => let '(text, images) := parse_stored_user_message (m_content m) in
              with_content (append_historical_image_card text (card_text m images c)) m
  end.
Definition image_key (m : Message) : str := vision_cache_key (snd (parse_stored_user_message (m_content m))).
Definition is_duplicate (c : Card) : bool := match c with CardDuplicate _ => true | _ => false end.
(** The tokens of the card when it has a description. *)
Definition described_tokens (m : Message) (c : option Card) : Z :=
  match c with
  | Some (CardDescription _ _ as c) =>
    estimate_text_tokens (card_text m (snd (parse_stored_user_message (m_content m))) c)
  | _ => 0%Z
  end.

Variable current : option uuid.
Variable describe : list image -> option CachedVisionDescription.

(** The description that a message of the past is shown with. *)
Definition card_source (m : Message) : option CachedVisionDescription :=
  let images := snd (parse_stored_user_message (m_content m)) in
  if bool_decide (m_role m = User) && negb (bool_decide (current = Some (m_id m)))
     && negb (is_empty images)
  then match describe images with
       | Some cached => if is_empty (trim (cv_description cached)) then None else Some cached
       | None => None
       end
  else None.

Definition card_ok (m : Message) (c : option Card) : Prop :=
  match c, card_source m with
  | None, None => True
  | Some (CardDescription model d), Some cached =>
    model = attribution cached $"vision delegate" /\ (described_tokens m c <= MAX_HISTORICAL_IMAGE_CARD_TOKENS)%Z /\
    exists budget, d = fst (truncate_text_to_token_budget (cv_description cached) budget)
  | Some _, Some _ => True
  | _, _ => False
  end.

Definition described_total (history : list Message) (cards : list (option Card)) : Z :=
  sumZ (zip_with described_tokens history cards).

(** A card that is not a pointer, at position [j]. *)
Definition first_card (history : list Message) (cards : list (option Card)) (j : nat) (key : str) (m : Message) : Prop :=
  exists c, history !! j = Some m /\ cards !! j = Some (Some c) /\ is_duplicate c = false /\ image_key m = key.

Record cards_ok (history : list Message) (cards : list (option Card)) : Prop := {
  co_each : Forall2 card_ok history cards;
  co_total : (described_total history cards <= MAX_HISTORICAL_IMAGE_CARD_TOTAL_TOKENS)%Z;
  co_duplicates : forall i m first, history !! i = Some m -> cards !! i = Some (Some (CardDuplicate first)) ->
    exists j m', i < j /\ first_card history cards j (image_key m) m' /\ first = uuid_text (m_id m');
  co_once : forall i j key m m', first_card history cards i key m -> first_card history cards j key m' -> i = j;
}.

Lemma render_card_bound image_ref id n model description budget card clipped chars :
  (budget <= MAX_HISTORICAL_IMAGE_CARD_TOKENS)%Z ->
  render_historical_image_card image_ref id n model description (Some budget) = (card, clipped, chars) ->
  card = render_historical_image_status_card image_ref id n OMITTED_BY_BUDGET \/
  exists d available, d = fst (truncate_text_to_token_budget description available) /\
    card = card_prefix image_ref id n model ++ d ++ CARD_SUFFIX /\
    (estimate_text_tokens card <= budget)%Z.
Proof.
  intros Hb. unfold render_historical_image_card. remember (card_prefix image_ref id n model) as prefix eqn:Hp. cbn zeta.
  set (available := sub_sat _ _).
  destruct (Z.ltb_spec available 8) as [|Ha]; [intros [= <- _ _]; by left|].
  destruct (truncate_text_to_token_budget (trim description) available) as [d cut] eqn:Et.
  intros [= <- _ _]. right. exists d, available. split_and!; [|by subst prefix|].
  - assert (d = fst (truncate_text_to_token_budget (trim description) available)) as -> by by rewrite Et.
    unfold truncate_text_to_token_budget. by rewrite trim_idem.
  - apply token_cut_spec in Et as [Hd _].
    2: { etrans; [|exact Ha]. vm_compute. discriminate. }
    pose proof (estimate_app prefix (d ++ CARD_SUFFIX)). pose proof (estimate_app d CARD_SUFFIX).
    pose proof (estimate_nonneg prefix). pose proof (estimate_nonneg CARD_SUFFIX).
    unfold sub_sat, add64, sat in available. change U64 with 18446744073709551616%Z in available.
    unfold MAX_HISTORICAL_IMAGE_CARD_TOKENS in Hb. subst available. clear Hp. lia.
Qed.

(** The state after the newer messages. *)
Record state_ok (newer : list Message) (cards : list (option Card)) (st : HistoricalImageCardState) : Prop := {
  so_used : (described_total newer cards <= hs_used_tokens st)%Z;
  so_seen : forall key, hs_seen_sets st !! key = None -> forall j m, ~ first_card newer cards j key m;
  so_first : forall key first, hs_seen_sets st !! key = Some first ->
    exists j m, first_card newer cards j key m /\ first = uuid_text (m_id m);
}.

Lemma first_card_S m newer c cards j key m' :
  first_card (m :: newer) (c :: cards) (S j) key m' <-> first_card newer cards j key m'.
Proof. done. Qed.

(** Adding the card of an older message. *)
Lemma cards_ok_cons m newer c cards :
  cards_ok newer cards -> card_ok m c ->
  (described_tokens m c + described_total newer cards <= MAX_HISTORICAL_IMAGE_CARD_TOTAL_TOKENS)%Z ->
  (forall first, c = Some (CardDuplicate first) ->
     exists j m', first_card newer cards j (image_key m) m' /\ first = uuid_text (m_id m')) ->
  (forall d, c = Some d -> is_duplicate d = false -> forall j m', ~ first_card newer cards j (image_key m) m') ->
  cards_ok (m :: newer) (c :: cards).
Proof.
  intros [Heach Htotal Hdup Honce] Hc Ht Hd Hf. split.
  - by constructor.
  - done.
  - intros [|i] x first Hx Hcx.
    + injection Hx as ->. injection Hcx as ->. destruct (Hd first eq_refl) as (j & m' & Hj & Hid).
      exists (S j), m'. split_and!; [lia|done|done].
    + destruct (Hdup i x first Hx Hcx) as (j & m' & Hj & Hfirst & Hid).
      exists (S j), m'. split_and!; [lia|done|done].
  - intros [|i] [|j] key x x' Hx Hx'; [done| | |].
    + exfalso. destruct Hx as (d & [= ->] & [= ->] & Hd' & Hk). eapply Hf; [done|done|].
      rewrite Hk. exact Hx'.
    + exfalso. destruct Hx' as (d & [= ->] & [= ->] & Hd' & Hk). eapply Hf; [done|done|].
      rewrite Hk. exact Hx.
    + f_equal. by eapply Honce.
Qed.

Lemma card_source_none m :
  card_source m = None -> forall st, project_message current describe m st = (m, st).
Proof.
  unfold card_source, project_message. intros Hc st.
  destruct (bool_decide (m_role m = User)), (bool_decide (current = Some (m_id m))); cbn [negb orb andb] in *;
    [done| |done|done].
  destruct (parse_stored_user_message (m_content m)) as [text images]. cbn [snd] in Hc.
  destruct (is_empty images); cbn [negb] in *; [done|].
  destruct (describe images) as [cached|]; [|done]. by destruct (is_empty (trim (cv_description cached))).
Qed.

Lemma card_source_some m cached st :
  card_source m = Some cached ->
  let '(text, images) := parse_stored_user_message (m_content m) in
  project_message current describe m st =
  let '(content, st) := render_card (uuid_text (m_id m)) text images cached st in
  (with_content content m, st).
Proof.
  unfold card_source, project_message. intros Hc.
  destruct (bool_decide (m_role m = User)), (bool_decide (current = Some (m_id m))); cbn [negb orb andb] in *;
    [done| |done|done].
  destruct (parse_stored_user_message (m_content m)) as [text images]. cbn [snd] in Hc.
  destruct (is_empty images); cbn [negb] in *; [done|].
  destruct (describe images) as [cached'|]; [|done].
  destruct (is_empty (trim (cv_description cached'))); [done|]. by injection Hc as ->.
Qed.

(** One card: what it is, and what it costs. *)
Lemma render_card_spec m text images cached st content st' :
  parse_stored_user_message (m_content m) = (text, images) ->
  card_source m = Some cached ->
  render_card (uuid_text (m_id m)) text images cached st = (content, st') ->
  exists c, content = append_historical_image_card text (card_text m images c) /\ card_ok m (Some c) /\
    (hs_used_tokens st' = hs_used_tokens st +sat estimate_text_tokens (card_text m images c))%Z /\
    (described_tokens m (Some c) <= Z.max 0 (MAX_HISTORICAL_IMAGE_CARD_TOTAL_TOKENS - hs_used_tokens st))%Z /\
    match hs_seen_sets st !! vision_cache_key images with
    | Some first => c = CardDuplicate first /\ hs_seen_sets st' = hs_seen_sets st
    | None => is_duplicate c = false /\
              hs_seen_sets st' = <[vision_cache_key images := uuid_text (m_id m)]> (hs_seen_sets st)
    end.
Proof.
  intros Hparse Hsource. unfold render_card. set (key := vision_cache_key images).
  destruct (hs_seen_sets st !! key) as [first|].
  { intros [= <- <-]. exists (CardDuplicate first). cbn [card_text card_ok described_tokens hs_used_tokens hs_seen_sets].
    rewrite Hsource. split_and!; [done|done|done|lia|done|done]. }
  set (budget := Z.min _ _).
  assert (budget <= MAX_HISTORICAL_IMAGE_CARD_TOKENS)%Z as Hb by (unfold budget; lia).
  destruct (Z.leb_spec MIN_HISTORICAL_IMAGE_CARD_TOKENS budget) as [Hmin|Hmin].
  2: { intros [= <- <-]. exists CardOmitted. cbn [card_text card_ok described_tokens hs_used_tokens hs_seen_sets].
       rewrite Hsource. split_and!; [done|done|done|lia|done|done]. }
  destruct (render_historical_image_card _ _ _ _ _ (Some budget)) as [[card clipped] chars] eqn:Er.
  intros [= <- <-]. apply render_card_bound in Er as [->|(d & available & Hd & -> & Hfit)]; [| |done].
  - exists CardOmitted. cbn [card_text card_ok described_tokens hs_used_tokens hs_seen_sets].
    rewrite Hsource. split_and!; [done|done|done|lia|done|done].
  - exists (CardDescription (attribution cached $"vision delegate") d).
    cbn [card_ok described_tokens hs_used_tokens hs_seen_sets]. rewrite Hsource, Hparse. cbn [snd card_text].
    split_and!; [done|done| | |done| |done|done].
    + etrans; [exact Hfit|done].
    + exists available. rewrite Hd. unfold truncate_text_to_token_budget. by rewrite trim_idem.
    + etrans; [exact Hfit|]. unfold budget, sub_sat. lia.
Qed.

Lemma described_nonneg m c : (0 <= described_tokens m c)%Z.
Proof. destruct c as [[]|]; cbn; [apply estimate_nonneg|lia..]. Qed.

Lemma add64_ge used tokens total x :
  (total <= used)%Z -> (0 <= x <= tokens)%Z -> (x + total <= MAX_HISTORICAL_IMAGE_CARD_TOTAL_TOKENS)%Z ->
  (x + total <= used +sat tokens)%Z.
Proof.
  unfold add64, sat, MAX_HISTORICAL_IMAGE_CARD_TOTAL_TOKENS. change U64 with 18446744073709551616%Z. lia.
Qed.

Lemma project_loop_spec history messages st :
  project_loop current describe history = (messages, st) ->
  exists cards, messages = zip_with with_card history cards /\ cards_ok history cards /\ state_ok history cards st.
Proof.
  revert messages st. induction history as [|m newer IH]; intros messages st; cbn [project_loop].
  { intros [= <- <-]. exists []. split_and!; [done| |].
    - split; [done|vm_compute; discriminate|done|]. intros i j key m m' (c & Hm & _). done.
    - split; [done| |done]. intros key _ j m (c & Hm & _). done. }
  destruct (project_loop current describe newer) as [newer' st0] eqn:El.
  destruct (IH _ _ eq_refl) as (cards & -> & Hcards & [Hused Hseen Hfirst]).
  pose proof (co_total _ _ Hcards) as Htotal.
  destruct (card_source m) as [cached|] eqn:Es.
  - pose proof (card_source_some m cached st0 Es) as Hp.
    destruct (parse_stored_user_message (m_content m)) as [text images] eqn:Eparse. rewrite Hp.
    destruct (render_card _ text images cached st0) as [content st1] eqn:Er. intros [= <- <-].
    destruct (render_card_spec m text images cached st0 content st1 Eparse Es Er)
      as (c & -> & Hc & Hst & Hcost & Hcase).
    assert (image_key m = vision_cache_key images) as Hkey by (unfold image_key; by rewrite Eparse).
    assert (described_tokens m (Some c) + described_total newer cards
            <= MAX_HISTORICAL_IMAGE_CARD_TOTAL_TOKENS)%Z as Hsum by lia.
    assert (described_tokens m (Some c) <= estimate_text_tokens (card_text m images c))%Z as Hle.
    { destruct c; cbn [described_tokens]; [by rewrite Eparse|apply estimate_nonneg..]. }
    pose proof (described_nonneg m (Some c)) as Hnn.
    exists (Some c :: cards). cbn [zip_with with_card]. rewrite Eparse.
    rewrite <- Hkey in Hcase.
    split_and!; [done| |].
    + apply cards_ok_cons; [done..| |].
      * intros first [= ->]. destruct (hs_seen_sets st0 !! image_key m) as [first'|] eqn:Eseen.
        -- destruct Hcase as [[= <-] _]. by apply Hfirst.
        -- by destruct Hcase.
      * intros d [= <-] Hd j m'. destruct (hs_seen_sets st0 !! image_key m) as [first'|] eqn:Eseen.
        -- by destruct Hcase as [-> _].
        -- by apply Hseen.
    + split.
      * change (described_total (m :: newer) (Some c :: cards))
          with (described_tokens m (Some c) + described_total newer cards)%Z.
        rewrite Hst. by apply add64_ge.
      * intros key Hk [|j] m' Hj.
        -- destruct Hj as (d & [= <-] & [= <-] & Hd & Hk'). rewrite <- Hk' in Hk.
           destruct (hs_seen_sets st0 !! image_key m) eqn:Eseen.
           ++ by destruct Hcase as [-> _].
           ++ destruct Hcase as [_ Hs]. rewrite Hs, lookup_insert in Hk. by rewrite decide_True in Hk.
        -- apply first_card_S in Hj. revert Hj. apply Hseen.
           destruct (hs_seen_sets st0 !! image_key m) eqn:Eseen.
           ++ by destruct Hcase as [_ <-].
           ++ destruct Hcase as [_ Hs]. rewrite Hs, lookup_insert_None in Hk. naive_solver.
      * intros key first Hk. destruct (hs_seen_sets st0 !! image_key m) eqn:Eseen.
        -- destruct Hcase as [_ Hs]. rewrite Hs in Hk. destruct (Hfirst key first Hk) as (j & m' & Hj & Hid).
           exists (S j), m'. by split.
        -- destruct Hcase as [Hd Hs]. rewrite Hs in Hk.
           apply lookup_insert_Some in Hk as [[<- <-]|[_ Hk]].
           ++ exists 0, m. split; [|done]. exists c. done.
           ++ destruct (Hfirst key first Hk) as (j & m' & Hj & Hid). exists (S j), m'. by split.
  - rewrite (card_source_none m Es). intros [= <- <-]. exists (None :: cards).
    cbn [zip_with with_card]. split_and!; [done| |].
    + apply cards_ok_cons; [done| | |done|done].
      * cbn [card_ok]. by rewrite Es.
      * cbn [described_tokens]. lia.
    + split.
      * change (described_total (m :: newer) (None :: cards)) with (0 + described_total newer cards)%Z. lia.
      * intros key Hk [|j] m' Hj; [by destruct Hj as (d & _ & ? & _)|].
        apply first_card_S in Hj. revert Hj. by apply Hseen.
      * intros key first Hk. destruct (Hfirst key first Hk) as (j & m' & Hj & Hid).
        exists (S j), m'. by split.
Qed.

(** In the history that a request carries every message keeps its place, identity
    and role, and is unchanged unless it is an earlier message of the user with images
    that have a description; such a message shows a card instead of its images. Cards
    with a description need at most 600 tokens each and 2400 together, whatever the
    history holds; for an image set that occurs again the older message points to the
    one newer message that has the card, so the pointer survives the removal of older
    messages. *)
Theorem image_cards_bounded history :
  exists cards,
    hp_messages (project_historical_images_for_request history current describe)
    = zip_with with_card history cards /\ cards_ok history cards.
Proof.
  unfold project_historical_images_for_request.
  destruct (project_loop current describe history) as [messages st] eqn:El.
  destruct (project_loop_spec history messages st El) as (cards & -> & Hcards & _). by exists cards.
Qed.

End Projection.

(** ** Examples *)

Definition demo_image (data : str) : ChatImageAttachment := mkChatImageAttachment $"image/png" data None.

Lemma stored_images_roundtrip_witness :
  parse_stored_user_message (encode_user_message_with_images $" look " [demo_image $"aGk="; demo_image $"xx"])
  = ($"look", [($"image/png", $"aGk="); ($"image/png", $"xx")]).
Proof.
  apply (stored_images_roundtrip $" look " (Some [demo_image $"aG k="; demo_image $"xx"])
           [demo_image $"aGk="; demo_image $"xx"]).
  - vm_compute. reflexivity.
  - vm_compute. reflexivity.
  - repeat constructor; apply (bool_decide_unpack _); vm_compute; exact I.
Defined.

(** The check of an image does not look at its data: what follows a semicolon is lost. *)
Example semicolon_cuts_image :
  exists images, sanitize_chat_images (Some [demo_image $"aGk=;cut"]) = Ok images /\
    snd (parse_stored_user_message (encode_user_message_with_images $"look" images))
    = [($"image/png", $"aGk=")].
Proof. eexists. split; [reflexivity|]. vm_compute. reflexivity. Qed.

(** A message that quotes the markers, such as one about this program, loses the text
    between them although it has no image. *)
Example quoted_marker_lost :
  parse_stored_user_message
    (encode_user_message_with_images $"what does <!-- xcoding-images: x xcoding-images --> mean?" [])
  = ($"what does  mean?", []).
Proof. vm_compute. reflexivity. Qed.
