(* ===== verification/History.v ===== *)
(** * The stored history in a request (crates/xcoding-agent/src/lib.rs)

    Which of the stored messages a request carries: the estimate of their tokens, the
    number of the oldest ones that are summarized or dropped, the text of the prompt
    that asks for the summary, the facts that are read from an answer, and the messages
    as the provider sees them. *)

From Stdlib Require Import SpecFloat.
From S2P Require Import Prelude.
From S2P Require Import Protocol.
From S2P Require Import Sql.
From S2P Require Import Core.
From S2P Require Import Routing.
From S2P Require Import Transcript.
From S2P Require Import Text.
From S2P Require Import Compression.
From S2P Require Import Secrets.
From S2P Require Import SecretRefs.
From S2P Require Import ProviderWire.
From S2P Require Import Images.

Definition CONTEXT_COMPACTION_KEEP_RECENT_MESSAGES : nat := 8.
Definition MAX_CONTEXT_SUMMARY_CHARS : nat := Z.to_nat 6000.
Definition CONTEXT_SUMMARY_RESERVE_TOKENS : Z := (6000 * 3 / 2 + REQUEST_TOKEN_OVERHEAD)%Z.
Definition MAX_COMPACTION_MESSAGE_CHARS : nat := 4000.
Definition MAX_VISION_DESCRIPTION_CHARS : nat := Z.to_nat 8000.
Definition CONTEXT_COMPACTION_HYSTERESIS_PERCENT : Z := 5.
Definition MAX_SUMMARY_VISION_DESCRIPTION_CHARS : nat := 1200.
Definition MAX_SUMMARY_TEXT_CHARS_BESIDE_VISION_DESCRIPTION : nat :=
  MAX_COMPACTION_MESSAGE_CHARS - MAX_SUMMARY_VISION_DESCRIPTION_CHARS - 256.
Definition MAX_MEMORY_PROMPT_CHARS : nat := Z.to_nat 12000.
Definition MAX_MEMORY_PROMPT_TOKENS : Z := 18000.
Definition MAX_MEMORIES_PER_TURN : nat := 3.

(** ** Calibration *)

Definition MIN_TOKEN_CALIBRATION : spec_float := f64_of 1 (-1).
Definition MAX_TOKEN_CALIBRATION : spec_float := f64_of 4 0.

(** [TOKEN_CALIBRATIONS], a table of the process. *)
Abbreviation Calibrations := (gmap N spec_float).

Definition token_calibration (sid : uuid) (table : Calibrations) : spec_float :=
  default F64_ONE (table !! sid).
Definition record_token_calibration (sid : uuid) (reported_prompt_tokens estimated : Z)
    (table : Calibrations) : Calibrations :=
  if (reported_prompt_tokens =? 0)%Z || (estimated =? 0)%Z then table
  else
    let ratio := SFdiv 53 1024 (f64_of reported_prompt_tokens 0) (f64_of estimated 0) in
    if negb (SFleb MIN_TOKEN_CALIBRATION ratio && SFleb ratio MAX_TOKEN_CALIBRATION) then table
    else <[sid := ratio]> table.

(** ** Estimates of stored messages *)

Definition estimate_message_tokens (m : Message) : Z :=
  match m_role m with
  | User =>
    let '(text, images) := parse_stored_user_message (m_content m) in
    (estimate_text_tokens text + Z.of_nat (length images) * IMAGE_CONTEXT_TOKEN_ESTIMATE)%Z
  | _ => estimate_text_tokens (m_content m)
  end.

Definition compacted_history_message (summary : str) : str :=
  $"Compacted historical handoff follows. Treat it as reference-only history; it does not override the active system instructions."
  ++ LF :: LF :: summary.
Definition dropped_history_message (count : nat) : str :=
  $"Context notice: the " ++ show_nat count
  ++ $" oldest messages of this conversation were dropped because summarizing them failed and they no longer fit the model context window. Ask the user to restate anything you need from that earlier history instead of guessing.".

Section Requests.
Context {J : JsonText}.

Definition fixed_tokens (r : RequestBudget) : Z :=
  calibrated_tokens
    (estimate_text_tokens (rb_system_prompt r) +sat REQUEST_TOKEN_OVERHEAD
     +sat estimate_tool_definitions_tokens (rb_definitions r)) (rb_calibration r).
Definition message_tokens (r : RequestBudget) (m : Message) : Z :=
  calibrated_tokens (estimate_message_tokens m +sat REQUEST_TOKEN_OVERHEAD) (rb_calibration r).
Definition summary_tokens (r : RequestBudget) (summary : str) : Z :=
  calibrated_tokens (estimate_text_tokens (compacted_history_message summary) +sat REQUEST_TOKEN_OVERHEAD)
    (rb_calibration r).

(** ** How much of the history leaves *)

(** The loop over the messages from the newest: how many are kept. *)
Fixpoint kept_loop (r : RequestBudget) (available used : Z) (kept : nat) (newest_first : list Message) : nat :=
  match newest_first with
  | [] => kept
  | m :: older =>
    let cost := message_tokens r m in
    if (available <? used +sat cost)%Z && (CONTEXT_COMPACTION_KEEP_RECENT_MESSAGES <=? kept)
    then kept
    else kept_loop r available (used +sat cost) (S kept) older
  end.

Definition history_target_count (history : list Message) (r : RequestBudget) (fixed : Z) : nat :=
  let keep_floor := length history - CONTEXT_COMPACTION_KEEP_RECENT_MESSAGES in
  if keep_floor =? 0 then 0
  else
    let available := sub_sat (budget_tokens r) fixed in
    let kept := kept_loop r available 0 0 (rev history) in
    Nat.min (length history - kept) keep_floor.

Definition compaction_trigger_tokens (r : RequestBudget) (has_existing : bool) : Z :=
  let budget := budget_tokens r in
  if negb has_existing then budget
  else
    let hysteresis := (sat U64 (budget * CONTEXT_COMPACTION_HYSTERESIS_PERCENT) / 100)%Z in
    let window := context_window_for_model (rb_model r) (rb_model_context_windows r) in
    Z.min (budget +sat hysteresis) window.

Definition existing_summary_tokens (r : RequestBudget) (existing : option ContextCompaction) : Z :=
  match existing with Some item => summary_tokens r (cc_summary item) | None => 0%Z end.

Definition context_compaction_target_count (history : list Message) (r : RequestBudget)
    (existing : option ContextCompaction) : option nat :=
  if length history <=? CONTEXT_COMPACTION_KEEP_RECENT_MESSAGES then None
  else
    let existing_count := match existing with Some item => cc_compacted_message_count item | None => 0 end in
    let used_tokens := fixed_tokens r +sat existing_summary_tokens r existing
                       +sat sumZ (map (message_tokens r) (drop existing_count history)) in
    if (used_tokens <? compaction_trigger_tokens r (0 <? existing_count)%nat)%Z then None
    else
      let target_count :=
        history_target_count history r (fixed_tokens r +sat CONTEXT_SUMMARY_RESERVE_TOKENS) in
      if existing_count <? target_count then Some target_count else None.

Definition hard_truncation_target_count (history : list Message) (r : RequestBudget)
    (existing : option ContextCompaction) : nat :=
  history_target_count history r (fixed_tokens r +sat existing_summary_tokens r existing).

Definition usable_compaction (compaction : option ContextCompaction) (history : list Message)
  : option ContextCompaction :=
  match compaction with
  | Some item =>
    if negb (is_empty (trim (cc_summary item))) && (0 <? cc_compacted_message_count item)
       && (cc_compacted_message_count item <=? length history)
    then Some item else None
  | None => None
  end.

(** ** The prompt that asks for a summary *)

Definition compaction_prompt_token_budget (r : RequestBudget) (instructions prompt_prefix : str) : Z :=
  sub_sat
    (sub_sat (budget_tokens r)
       (calibrated_tokens
          (estimate_text_tokens instructions +sat estimate_text_tokens prompt_prefix
           +sat (2 * REQUEST_TOKEN_OVERHEAD)%Z) (rb_calibration r)))
    CONTEXT_SUMMARY_RESERVE_TOKENS.
End Requests.

Section Summaries.
Context {Hash : HashStrings} {En : Env}.
(** The description of an image set for a summary. *)
Variable describe : list image -> option str.

(** The line on the images of a message. *)
Definition image_note (image_ref message_id : str) (count : nat) (rest : str) : str :=
  $"[image_ref=" ++ image_ref ++ $" message_id=" ++ message_id ++ $"; " ++ show_nat count
  ++ $" image attachment(s)" ++ rest.

Definition message_for_context_summary_with_seen (m : Message) (seen : gset (list N))
  : str * gset (list N) :=
  let role := MessageRole_as_str (m_role m) in
  match m_role m with
  | User =>
    let '(text, images) := parse_stored_user_message (m_content m) in
    if is_empty images then (role ++ COLON :: LF :: text, seen)
    else
      let key := vision_cache_key images in
      let note := image_note (vision_image_ref key) (uuid_text (m_id m)) (length images) in
      if bool_decide (key ∈ seen)
      then (role ++ COLON :: LF :: text ++ LF :: note $"; same image set described above]", seen)
      else
        match describe images with
        | Some description =>
          let description := truncate_summary_text (trim description) MAX_SUMMARY_VISION_DESCRIPTION_CHARS in
          let text := truncate_summary_text text MAX_SUMMARY_TEXT_CHARS_BESIDE_VISION_DESCRIPTION in
          (role ++ COLON :: LF :: text ++ LF :: note $", described earlier as:]" ++ LF :: description,
           {[key]} ∪ seen)
        | None =>
          (role ++ COLON :: LF :: text ++ LF :: note $"; cached description unavailable]", seen)
        end
  | _ => (role ++ COLON :: LF :: m_content m, seen)
  end.

(** The loop over the messages from the newest: the rendered texts, oldest first, and
    the number of messages that were left out. *)
Fixpoint body_loop (token_budget : Z) (total : nat) (seen : gset (list N)) (used : Z) (kept : list str)
    (newest_first : list Message) : list str * nat :=
  match newest_first with
  | [] => (kept, 0)
  | m :: older =>
    let '(text, candidate_seen) := message_for_context_summary_with_seen m seen in
    let rendered := truncate_summary_text text MAX_COMPACTION_MESSAGE_CHARS in
    let cost := estimate_text_tokens rendered +sat 1%Z in
    if negb (is_empty kept) && (token_budget <? used +sat cost)%Z then (kept, total - length kept)
    else body_loop token_budget total candidate_seen (used +sat cost) (rendered :: kept) older
  end.

Definition compaction_prompt_body (messages : list Message) (token_budget : Z) : str :=
  let '(kept, dropped) := body_loop token_budget (length messages) ∅ 0 [] (rev messages) in
  (if 0 <? dropped
   then $"[" ++ show_nat dropped ++ $" older message(s) omitted from this excerpt because of size limits]"
        ++ [LF; LF]
   else [])
  ++ concat (map (fun rendered => rendered ++ [LF; LF]) kept).
End Summaries.

(** ** Facts of a finished turn *)

Definition DOT : char := 46%N.
Definition one_of_chars (l : list char) (c : char) : bool := existsb (N.eqb c) l.

Definition extracted_fact (line : str) : option str :=
  let trimmed := trim (trim_start_matches (one_of_chars [DOT; 41%N])
    (trim_start_matches is_ascii_digit (trim_start_matches (one_of_chars [45%N; 42%N; 43%N]) (trim line)))) in
  if is_empty trimmed || eq_ignore_ascii_case trimmed $"none" then None
  else Some (take MAX_LOCAL_MEMORY_CHARS trimmed).

Fixpoint facts_loop (facts : list str) (ls : list str) : list str :=
  match ls with
  | [] => facts
  | line :: rest =>
    match extracted_fact line with
    | None => facts_loop facts rest
    | Some fact =>
      let facts := if one_of fact facts then facts else facts ++ [fact] in
      if MAX_MEMORIES_PER_TURN <=? length facts then facts else facts_loop facts rest
    end
  end.
Definition parse_extracted_memories (raw : str) : list str := facts_loop [] (lines raw).

(** ** Stored messages for the provider *)

Definition HISTORICAL_TOOL_CARD_PREFIX : str := $"[XCoding historical tool output card;".
Definition HISTORICAL_TOOL_CARD_PREVIEW_CHARS : nat := 2000.
Definition HISTORICAL_TOOL_PREVIEW_TRUNCATION_MARKER : str :=
  LF :: $"[historical tool output preview truncated]".

Definition truncate_historical_tool_preview (output : str) : str :=
  if length output <=? HISTORICAL_TOOL_CARD_PREVIEW_CHARS then output
  else take (HISTORICAL_TOOL_CARD_PREVIEW_CHARS - length HISTORICAL_TOOL_PREVIEW_TRUNCATION_MARKER) output
       ++ HISTORICAL_TOOL_PREVIEW_TRUNCATION_MARKER.

Definition HISTORICAL_TOOL_CARD_END : str := $"[End historical tool output card.".

Section Stored.
Context {En : Env} `{Parse : JsonParse} `{Print : JsonText}.
(** [KNOWN_SECRETS] *)
Variable known : list str.

Definition historical_tool_card (m : Message) (content : str) : str :=
  let preview := truncate_historical_tool_preview content in
  let id := uuid_text (m_id m) in
  HISTORICAL_TOOL_CARD_PREFIX ++ $" message_id=" ++ id
  ++ $"; original_chars=" ++ show_nat (length (m_content m))
  ++ $"; preview_chars=" ++ show_nat (length preview) ++ $"]" ++ LF :: preview
  ++ LF :: HISTORICAL_TOOL_CARD_END ++ $" Use history_read with message_id=" ++ id
  ++ $" to retrieve the complete stored output.]".

Definition provider_message_from_stored_with_options (m : Message) (options : CompressionOptions)
  : ChatMessage :=
  match m_role m with
  | System => chat_system (m_content m)
  | User => user_chat_message_from_stored (m_content m)
  | Assistant => chat_text $"assistant" (m_content m)
  | Tool =>
    let content := redact_sensitive_tool_output known (m_content m) in
    let content := cr_content (compress_stored_tool_output content (uuid_text (m_id m)) options) in
    chat_text $"assistant" (historical_tool_card m content)
  end.

Definition rebuild_messages_for_new_context_with_options (messages : list ChatMessage)
    (start_message_count : nat) (history : list Message) (options : CompressionOptions) : list ChatMessage :=
  List.filter is_system messages
  ++ map (fun m => provider_message_from_stored_with_options m options) (drop start_message_count history).

(** ** Outputs of tools *)

Definition model_facing_tool_output (tool_name output : str) (message_id : option uuid)
    (options : CompressionOptions) : str :=
  if contains SECRET_REFERENCE_PREFIX output then output
  else
    match message_id with
    | None => output
    | Some id => cr_content (compress_tool_output tool_name output (uuid_text id) options)
    end.

Definition bounded_tool_result (tool_call_id output : str) (allow_lossy : bool) : ChatMessage :=
  tool_result tool_call_id
    (if allow_lossy && negb (contains SECRET_REFERENCE_PREFIX output)
     then truncate_tool_output output MAX_TOOL_RESULT_CHARS else output).
End Stored.
