(* ===== verification/HistoryFacts.v ===== *)
(** * The history in a request fits

    The number of messages that leave a history is the least that makes room, the prompt
    for a summary stays within its budget with the description of every image in it, and
    the facts of a turn are ones that the store accepts. *)

From S2P Require Import Prelude.
From S2P Require Import Protocol.
From S2P Require Import Sql.
From S2P Require Import Store.
From S2P Require Import Core.
From S2P Require Import Routing.
From S2P Require Import Transcript.
From S2P Require Import Text.
From S2P Require Import ProviderWire.
From S2P Require Import Images.
From S2P Require Import ImagesFacts.
From S2P Require Import History.

(** ** What leaves the history *)

Section Target.
Context {J : JsonText}.
Variable r : RequestBudget.

(** The tokens of the messages that are kept, without a bound on the sum. *)
Definition cost_of (ms : list Message) : Z := sumZ (map (message_tokens r) ms).

Lemma ceil_nonneg x : (0 <= ceil_usize x)%Z.
Proof.
  unfold ceil_usize. destruct x as [s|s| |s m e]; [lia|destruct s; vm_compute; discriminate|lia|].
  destruct s; [lia|]. unfold sat. change U64 with 18446744073709551616%Z.
  apply Z.min_glb; [|lia]. destruct (Z.leb_spec 0 e); [nia|].
  pose proof (Z.pow_pos_nonneg 2 (-e)). 
  assert (Z.neg m / 2 ^ (- e) <= 0)%Z; [|lia].
  apply Z.div_le_upper_bound; lia.
Qed.

Lemma calibrated_nonneg t c : (0 <= t)%Z -> (0 <= calibrated_tokens t c)%Z.
Proof. intros Ht. unfold calibrated_tokens. case_match; [done|apply ceil_nonneg]. Qed.

Lemma add64_nonneg a b : (0 <= a -> 0 <= b -> 0 <= a +sat b)%Z.
Proof. unfold add64, sat. change U64 with 18446744073709551616%Z. lia. Qed.

Lemma estimate_message_nonneg m : (0 <= estimate_message_tokens m)%Z.
Proof.
  unfold estimate_message_tokens. destruct (m_role m); [apply estimate_nonneg| |apply estimate_nonneg..].
  destruct (parse_stored_user_message (m_content m)) as [text images].
  pose proof (estimate_nonneg text). unfold IMAGE_CONTEXT_TOKEN_ESTIMATE. lia.
Qed.

Lemma message_tokens_nonneg m : (0 <= message_tokens r m)%Z.
Proof.
  apply calibrated_nonneg, add64_nonneg; [apply estimate_message_nonneg|vm_compute; discriminate].
Qed.

Lemma cost_nonneg ms : (0 <= cost_of ms)%Z.
Proof. apply sumZ_nonneg, Forall_map, Forall_true. intros m. apply message_tokens_nonneg. Qed.

Lemma cost_cons m ms : cost_of (m :: ms) = (message_tokens r m + cost_of ms)%Z.
Proof. done. Qed.

Lemma cost_rev ms : cost_of (rev ms) = cost_of ms.
Proof.
  unfold cost_of. induction ms as [|m ms IH]; [done|].
  cbn [rev]. rewrite map_app, sumZ_app, IH. unfold sumZ. cbn [map foldr]. lia.
Qed.

Lemma budget_bound : (budget_tokens r < U64 - 1)%Z.
Proof.
  unfold budget_tokens, context_budget_tokens, sat. change U64 with 18446744073709551616%Z.
  apply Z.div_lt_upper_bound; [lia|]. eapply Z.le_lt_trans; [apply Z.le_min_r|lia].
Qed.

Lemma available_bound fixed : (0 <= fixed)%Z -> (0 <= sub_sat (budget_tokens r) fixed < U64 - 1)%Z.
Proof.
  intros Hf. pose proof budget_bound as Hb. unfold sub_sat.
  change U64 with 18446744073709551616%Z in *. lia.
Qed.

Abbreviation KEEP := CONTEXT_COMPACTION_KEEP_RECENT_MESSAGES.

(** Saturation does not matter: the sums are compared with less than the bound. *)
Lemma kept_loop_spec available total kept l :
  (0 <= available < U64 - 1)%Z -> (0 <= total)%Z ->
  exists k, kept_loop r available (sat U64 total) kept l = kept + k /\ k <= length l /\
    (0 < k -> KEEP < kept + k -> (total + cost_of (take k l) <= available)%Z) /\
    (k < length l -> KEEP <= kept + k /\ (available < total + cost_of (take (S k) l))%Z).
Proof.
  intros Ha. revert total kept. induction l as [|m l IH]; intros total kept Ht; cbn [kept_loop].
  { exists 0. cbn [length]. split_and!; [lia|lia|lia|lia]. }
  pose proof (message_tokens_nonneg m) as Hm.
  assert (sat U64 total +sat message_tokens r m = sat U64 (total + message_tokens r m)) as Hadd.
  { unfold add64, sat. lia. }
  rewrite Hadd.
  assert ((available <? sat U64 (total + message_tokens r m))%Z = (available <? total + message_tokens r m)%Z) as Hlt.
  { apply eq_true_iff_eq. rewrite !Z.ltb_lt. unfold sat. lia. }
  rewrite Hlt. destruct (Z.ltb_spec available (total + message_tokens r m)) as [Hbig|Hfit];
    [destruct (Nat.leb_spec KEEP kept) as [Hk|Hk]|]; cbn [andb].
  - exists 0. split_and!; [lia|lia|lia|]. intros _. split; [lia|]. cbn [take]. rewrite cost_cons.
    change (cost_of (take 0 l)) with 0%Z. lia.
  - destruct (IH (total + message_tokens r m)%Z (S kept) ltac:(lia)) as (k & -> & Hl & Hin & Hout).
    exists (S k). cbn [length take] in *. split_and!; [lia|lia| |].
    + intros _ HK. rewrite cost_cons, Z.add_assoc. destruct (decide (0 < k)) as [|Hz]; [by apply Hin; lia|].
      unfold CONTEXT_COMPACTION_KEEP_RECENT_MESSAGES in *. lia.
    + intros Hlen. destruct (Hout ltac:(lia)) as [? ?]. split; [lia|]. rewrite cost_cons. 
      cbn [take] in *. lia.
  - destruct (IH (total + message_tokens r m)%Z (S kept) ltac:(lia)) as (k & -> & Hl & Hin & Hout).
    exists (S k). cbn [length take] in *. split_and!; [lia|lia| |].
    + intros _ HK. rewrite cost_cons, Z.add_assoc. destruct (decide (0 < k)) as [|Hz]; [by apply Hin; lia|].
      replace k with 0 by lia. change (cost_of (take 0 l)) with 0%Z. lia.
    + intros Hlen. destruct (Hout ltac:(lia)) as [? ?]. split; [lia|]. rewrite cost_cons.
      cbn [take] in *. lia.
Qed.

Lemma history_target_spec history fixed :
  (0 <= fixed)%Z ->
  let n := history_target_count history r fixed in
  let available := sub_sat (budget_tokens r) fixed in
  n <= length history - KEEP /\
  ((cost_of (drop n history) <= available)%Z \/ n = length history - KEEP) /\
  (0 < n -> (available < cost_of (drop (n - 1) history))%Z).
Proof.
  intros Hf. cbn zeta. unfold history_target_count.
  pose proof (available_bound fixed Hf) as Ha. set (available := sub_sat (budget_tokens r) fixed) in *.
  destruct (Nat.eqb_spec (length history - KEEP) 0) as [Hz|Hz].
  { rewrite Hz. split_and!; [lia|by right|lia]. }
  destruct (kept_loop_spec available 0 0 (rev history) Ha ltac:(lia)) as (k & Hk & Hl & Hin & Hout).
  change (sat U64 0) with 0%Z in Hk. rewrite Hk. rewrite length_rev in *. cbn [Nat.add] in *.
  assert (KEEP <= k) as HK.
  { destruct (decide (k < length history)); [by destruct (Hout ltac:(lia))|lia]. }
  rewrite Nat.min_l by lia. split_and!; [lia| |].
  - destruct (decide (KEEP < k)) as [Hgt|]; [left|right; lia].
    specialize (Hin ltac:(lia) Hgt). rewrite firstn_rev, cost_rev in Hin. lia.
  - intros Hpos. destruct (Hout ltac:(lia)) as [_ Hlt]. rewrite firstn_rev, cost_rev in Hlt.
    replace (length history - k - 1) with (length history - S k) by lia. lia.
Qed.
Lemma fixed_nonneg : (0 <= fixed_tokens r)%Z.
Proof.
  apply calibrated_nonneg, add64_nonneg; [apply add64_nonneg|].
  - apply estimate_nonneg.
  - vm_compute. discriminate.
  - apply sumZ_nonneg, Forall_map, Forall_true. intros d. cbn.
    pose proof (estimate_nonneg (td_name d)). pose proof (estimate_nonneg (td_description d)).
    pose proof (estimate_nonneg (json_text (td_parameters d))). unfold REQUEST_TOKEN_OVERHEAD. lia.
Qed.

Lemma summary_nonneg existing : (0 <= existing_summary_tokens r existing)%Z.
Proof.
  destruct existing as [item|]; [|done]. apply calibrated_nonneg, add64_nonneg; [apply estimate_nonneg|].
  vm_compute. discriminate.
Qed.

Definition existing_count (existing : option ContextCompaction) : nat :=
  match existing with Some item => cc_compacted_message_count item | None => 0 end.

(** When the history is compacted, at least one more message is summarized than
    before and the newest eight are kept; a second compaction of the same history is not
    asked for, whatever the summary says; no message is summarized without need; and
    when the summary stays within its reserve, the request fits the budget unless the
    eight newest messages alone are too long. *)
Theorem compaction_makes_room history existing target :
  context_compaction_target_count history r existing = Some target ->
  existing_count existing < target <= length history - KEEP /\
  (forall c, cc_compacted_message_count c = target ->
     context_compaction_target_count history r (Some c) = None) /\
  (budget_tokens r < fixed_tokens r + CONTEXT_SUMMARY_RESERVE_TOKENS + cost_of (drop (target - 1) history))%Z /\
  forall summary,
    (fixed_tokens r + CONTEXT_SUMMARY_RESERVE_TOKENS <= budget_tokens r)%Z ->
    (summary_tokens r summary <= CONTEXT_SUMMARY_RESERVE_TOKENS)%Z ->
    (fixed_tokens r + summary_tokens r summary + cost_of (drop target history) <= budget_tokens r)%Z \/
    target = length history - KEEP.
Proof.
  unfold context_compaction_target_count. cbn zeta.
  destruct (length history <=? KEEP) eqn:Elen; [done|].
  change (match existing with Some item => cc_compacted_message_count item | None => 0 end)
    with (existing_count existing).
  destruct (_ <? compaction_trigger_tokens r _)%Z; [done|].
  set (fixed := (fixed_tokens r +sat CONTEXT_SUMMARY_RESERVE_TOKENS)%Z).
  destruct (Nat.ltb_spec (existing_count existing) (history_target_count history r fixed)) as [Hlt|]; [|done].
  intros [= <-].
  assert (0 <= fixed)%Z as Hf.
  { apply add64_nonneg; [apply fixed_nonneg|vm_compute; discriminate]. }
  destruct (history_target_spec history fixed Hf) as (Hn & Hfit & Hmin). cbn zeta in *.
  set (target := history_target_count history r fixed) in *.
  assert (fixed <= fixed_tokens r + CONTEXT_SUMMARY_RESERVE_TOKENS)%Z as Hle by (unfold fixed, add64, sat; lia).
  split_and!; [done|done| | |].
  - intros c ->. destruct (_ <? compaction_trigger_tokens r _)%Z; [done|]. by rewrite Nat.ltb_irrefl.
  - specialize (Hmin ltac:(lia)). unfold sub_sat in Hmin. lia.
  - intros summary Hroom Hs. destruct Hfit as [Hfit|]; [left|by right].
    pose proof budget_bound as Hb.
    assert (fixed = fixed_tokens r + CONTEXT_SUMMARY_RESERVE_TOKENS)%Z as Heq by (unfold fixed, add64, sat; lia).
    unfold sub_sat in Hfit. lia.
Qed.
End Target.

(** ** Facts of a turn *)

Lemma take_head {A} n (s : list A) : take (S n) s = match s with [] => [] | c :: r => c :: take n r end.
Proof. by destruct s. Qed.

Lemma first_not_space s c r n : s = c :: r -> is_whitespace c = false -> trim (take (S n) s) <> [].
Proof.
  intros -> Hc Ht. cbn [take] in Ht. rewrite trim_all, Forall_cons in Ht. destruct Ht as [Hc' _]. congruence.
Qed.

Lemma drop_while_elem {A} (p : A -> bool) s c : c ∈ drop_while p s -> c ∈ s.
Proof. destruct (drop_while_suffix p s) as (l & Hl & _). intros Hc. rewrite Hl. set_solver. Qed.

Lemma trim_subset c s : c ∈ trim s -> c ∈ s.
Proof.
  unfold trim, trim_matches, trim_end_matches, trim_start_matches.
  rewrite !list_elem_of_In, <- in_rev, <- !list_elem_of_In.
  intros Hc%drop_while_elem. rewrite list_elem_of_In, <- in_rev, <- list_elem_of_In in Hc.
  by apply drop_while_elem in Hc.
Qed.

Definition fact_ok (fact : str) : Prop :=
  trim fact <> [] /\ length fact <= MAX_LOCAL_MEMORY_CHARS /\ LF ∉ fact.

Lemma extracted_fact_ok line fact : LF ∉ line -> extracted_fact line = Some fact -> fact_ok fact.
Proof.
  intros Hl. unfold extracted_fact. set (inner := trim_start_matches _ _).
  destruct (is_empty (trim inner)) eqn:Ee; [done|]. destruct (eq_ignore_ascii_case _ _); [done|].
  cbn [orb]. intros [= <-]. split_and!.
  - destruct (trim inner) as [|c r] eqn:Et; [done|].
    eapply first_not_space; [done|]. by eapply trim_head.
  - rewrite length_take. lia.
  - intros Hc. apply elem_of_take in Hc as (i & Hc & _).
    apply list_elem_of_lookup_2, trim_subset in Hc.
    unfold inner, trim_start_matches in Hc. do 3 apply drop_while_elem in Hc.
    by apply trim_subset in Hc.
Qed.

Lemma facts_loop_ok facts ls :
  Forall (fun l => LF ∉ l) ls -> Forall fact_ok facts -> NoDup facts -> length facts < MAX_MEMORIES_PER_TURN ->
  let r := facts_loop facts ls in
  Forall fact_ok r /\ NoDup r /\ length r <= MAX_MEMORIES_PER_TURN.
Proof.
  cbn zeta. revert facts. induction ls as [|line ls IH]; intros facts Hls Hok Hnd Hlen; cbn [facts_loop]; [split_and!; [done..|lia]|].
  apply Forall_cons in Hls as [Hl Hls].
  destruct (extracted_fact line) as [fact|] eqn:Ef; [|by apply IH].
  set (facts' := if one_of fact facts then facts else facts ++ [fact]).
  assert (Forall fact_ok facts') as Hok'.
  { unfold facts'. destruct (one_of fact facts); [done|]. apply Forall_app. split; [done|].
    constructor; [by eapply extracted_fact_ok|done]. }
  assert (NoDup facts') as Hnd'.
  { unfold facts'. destruct (one_of fact facts) eqn:Eo; [done|]. apply NoDup_app. split_and!; [done| |apply NoDup_singleton].
    intros x Hx Hxf%list_elem_of_singleton. subst x. apply one_of_true in Hx. congruence. }
  assert (length facts' <= S (length facts)) as Hl'.
  { unfold facts'. destruct (one_of fact facts); [lia|]. rewrite length_app. cbn. lia. }
  destruct (Nat.leb_spec MAX_MEMORIES_PER_TURN (length facts')) as [Hfull|Hroom].
  - split_and!; [done|done|lia].
  - by apply IH.
Qed.

Lemma lines_no_LF s : Forall (fun l => LF ∉ l) (lines s).
Proof.
  unfold lines. pose proof (split_on_pieces (N.eqb LF) s) as Hp.
  assert (forall ws, Forall (Forall (fun x => (LF =? x)%N = false)) ws -> Forall (fun l => LF ∉ l) (lines_of ws)) as Hall.
  { induction ws as [|w ws IH]; intros Hws; [constructor|].
    apply Forall_cons in Hws as [Hw Hws].
    assert (LF ∉ w) as Hn.
    { intros Hin. eapply Forall_forall in Hw; [|exact Hin]. done. }
    destruct ws as [|w' ws]; cbn [lines_of].
    - destruct (is_empty w); by repeat constructor.
    - constructor; [|by apply IH]. unfold strip_cr. destruct (strip_suffix [CR] w) as [r|] eqn:E; [|done].
      apply strip_suffix_Some in E as ->. set_solver. }
  apply Hall, Hp.
Qed.

(** The facts that are read from the answer to a memory prompt are at most three,
    all different, each on one line, and each is accepted by the store, whatever the
    answer is: it is not blank and not too long. *)
Theorem extracted_facts_storable raw :
  let facts := parse_extracted_memories raw in
  length facts <= 3 /\ NoDup facts /\
  forall fact, fact ∈ facts -> (LF ∉ fact) /\ forall st, fst (validate_local_memory_content fact st) = Ok (trim fact).
Proof.
  cbn zeta. destruct (facts_loop_ok [] (lines raw)) as (Hok & Hnd & Hlen);
    [apply lines_no_LF|done|apply NoDup_nil_2|apply Nat.lt_0_succ|].
  split_and!; [done|done|]. intros fact Hf. eapply Forall_forall in Hok as (Ht & Hl & Hlf); [|exact Hf].
  split; [done|]. intros st. unfold validate_local_memory_content.
  destruct (trim fact) as [|c t] eqn:Et; [done|]. cbn [is_empty negb].
  pose proof (trim_matches_length is_whitespace fact) as Hlt. unfold trim in Et. rewrite Et in Hlt.
  rewrite (proj2 (Nat.leb_le (length (c :: t)) MAX_LOCAL_MEMORY_CHARS)) by lia. done.
Qed.

(** ** Text of a summary prompt *)

Section Body.
Context {Hash : HashStrings} {En : Env}.
Variable describe : list image -> option str.

Lemma truncate_summary_length value n : length (truncate_summary_text value n) <= n + 12.
Proof.
  unfold truncate_summary_text. destruct (Nat.leb_spec (length value) n); [lia|].
  rewrite length_app, length_take. cbn [length]. change (length $"[truncated]") with 11. lia.
Qed.

Lemma hex16_length z : length (hex16 z) = 16.
Proof. unfold hex16. by rewrite length_map, length_seq. Qed.

Lemma hex16_no_bar z : Forall (fun x => (BAR =? x)%N = false) (hex16 z).
Proof.
  unfold hex16. apply Forall_map, Forall_true. intros i. cbn beta. apply N.eqb_neq.
  unfold hex_digit. pose proof (Z.mod_pos_bound (Z.shiftr z (4 * (15 - Z.of_nat i))) 16 ltac:(lia)) as Hb.
  set (d := (_ mod 16)%Z) in *. unfold BAR. destruct (Z.ltb_spec d 10); lia.
Qed.

Lemma image_ref_length images : length (vision_image_ref (vision_cache_key images)) = 20.
Proof.
  unfold vision_image_ref, vision_cache_key. set (h := hex16 _).
  replace ($"img|" ++ show_nat (length images) ++ $"|" ++ h)
    with (($"img|" ++ show_nat (length images)) ++ BAR :: h) by by rewrite <- app_assoc.
  rewrite last_part_app; [|done|apply hex16_no_bar]. rewrite length_app. unfold h. rewrite hex16_length. done.
Qed.

(** The description of the images of a message survives the cap on the length of a
    rendered message: nothing of what the summary prompt renders for it is cut. *)
Lemma description_survives m seen text images description :
  m_role m = User -> parse_stored_user_message (m_content m) = (text, images) -> images <> [] ->
  length images <= 4 -> length (uuid_text (m_id m)) <= 36 ->
  vision_cache_key images ∉ seen -> describe images = Some description ->
  let rendered := fst (message_for_context_summary_with_seen describe m seen) in
  truncate_summary_text rendered MAX_COMPACTION_MESSAGE_CHARS = rendered /\
  exists before, rendered = before ++ truncate_summary_text (trim description) MAX_SUMMARY_VISION_DESCRIPTION_CHARS.
Proof.
  intros Hrole Hparse Hne Hlen Hid Hseen Hd. cbn zeta.
  unfold message_for_context_summary_with_seen. rewrite Hrole, Hparse.
  destruct images as [|i images]; [done|]. cbn [is_empty].
  rewrite bool_decide_eq_false_2 by done. rewrite Hd. cbn [fst].
  set (d := truncate_summary_text (trim description) _). set (t := truncate_summary_text text _).
  set (note := image_note _ _ _ _).
  split; [|
    exists (MessageRole_as_str User ++ COLON :: LF :: t ++ LF :: note ++ [LF]);
    repeat (rewrite <- app_assoc || rewrite <- app_comm_cons); done].
  unfold truncate_summary_text at 1. rewrite (proj2 (Nat.leb_le _ _)); [done|].
  pose proof (truncate_summary_length (trim description) MAX_SUMMARY_VISION_DESCRIPTION_CHARS : length d <= _).
  pose proof (truncate_summary_length text MAX_SUMMARY_TEXT_CHARS_BESIDE_VISION_DESCRIPTION : length t <= _).
  assert (length note <= 140) as Hnote.
  { unfold note, image_note. rewrite !length_app, image_ref_length.
    assert (length (show_nat (length (i :: images))) = 1) as ->.
    { destruct images as [|? [|? [|? [|? ?]]]]; [done..|cbn in Hlen; lia]. }
    change (length $"[image_ref=") with 11. change (length $" message_id=") with 12.
    change (length $"; ") with 2. change (length $" image attachment(s)") with 20.
    change (length $", described earlier as:]") with 24. lia. }
  repeat (rewrite length_app || cbn [length]).
  change (length (MessageRole_as_str User)) with 4.
  unfold MAX_SUMMARY_TEXT_CHARS_BESIDE_VISION_DESCRIPTION, MAX_COMPACTION_MESSAGE_CHARS,
    MAX_SUMMARY_VISION_DESCRIPTION_CHARS in *. lia.
Qed.

(** The texts of the messages, from the newest, as the prompt shows them. *)
Fixpoint render_all (seen : gset (list N)) (newest_first : list Message) : list str :=
  match newest_first with
  | [] => []
  | m :: older =>
    let '(text, seen) := message_for_context_summary_with_seen describe m seen in
    truncate_summary_text text MAX_COMPACTION_MESSAGE_CHARS :: render_all seen older
  end.
Definition text_costs (l : list str) : Z := sumZ (map (fun t => estimate_text_tokens t + 1)%Z l).

Lemma render_all_length seen l : length (render_all seen l) = length l.
Proof.
  revert seen. induction l as [|m l IH]; intros seen; cbn [render_all]; [done|].
  destruct (message_for_context_summary_with_seen describe m seen) as [t s]. cbn [length]. by rewrite IH.
Qed.

Lemma body_loop_spec budget total seen used kept l :
  (0 <= used)%Z -> (budget < U64 - 1)%Z -> (used <= budget)%Z \/ length kept <= 1 -> length kept + length l = total ->
  exists k, k <= length l /\ (kept = [] -> 0 < length l -> 0 < k) /\
    body_loop describe budget total seen (sat U64 used) kept l
    = (rev (take k (render_all seen l)) ++ kept, length l - k) /\
    ((used + text_costs (take k (render_all seen l)) <= budget)%Z \/ length kept + k <= 1).
Proof.
  intros Hu Hb. revert seen used Hu kept. induction l as [|m l IH]; intros seen used Hu kept Hfit Htotal;
    cbn [body_loop render_all].
  { exists 0. cbn [take rev app length]. unfold text_costs. cbn [map sumZ foldr]. split_and!; [lia|lia|done|].
    destruct Hfit; [left|right]; lia. }
  destruct (message_for_context_summary_with_seen describe m seen) as [text seen'].
  set (rendered := truncate_summary_text text MAX_COMPACTION_MESSAGE_CHARS).
  set (cost := (estimate_text_tokens rendered + 1)%Z).
  pose proof (estimate_nonneg rendered) as Hnn.
  assert (sat U64 used +sat (estimate_text_tokens rendered +sat 1%Z) = sat U64 (used + cost))%Z as Hadd.
  { unfold add64, sat, cost. change U64 with 18446744073709551616%Z. lia. }
  rewrite Hadd.
  assert ((budget <? sat U64 (used + cost))%Z = (budget <? used + cost)%Z) as ->.
  { apply eq_true_iff_eq. rewrite !Z.ltb_lt. unfold sat. lia. }
  destruct (negb (is_empty kept) && (budget <? used + cost)%Z) eqn:Estop.
  - apply andb_true_iff in Estop as [Hk _]. exists 0. cbn [length] in *.
    split_and!; [lia|by destruct kept|f_equal; lia|].
    cbn [take]. unfold text_costs. cbn [map sumZ foldr]. destruct Hfit; [left|right]; lia.
  - destruct (IH seen' (used + cost)%Z ltac:(lia) (rendered :: kept)) as (k & Hk & _ & -> & Hcost).
    + apply andb_false_iff in Estop as [Hk|Hlt].
      * right. destruct kept; [cbn; lia|done].
      * left. apply Z.ltb_ge in Hlt. lia.
    + cbn [length] in *. lia.
    + exists (S k). cbn [length take rev] in *. split_and!; [lia|lia| |].
      * f_equal. by rewrite <- app_assoc.
      * unfold text_costs in *. cbn [map sumZ foldr] in *. unfold cost in *. fold sumZ.
        destruct Hcost; [left|right]; [|lia]. unfold sumZ in *. lia.
Qed.

(** The text of a summary prompt shows the newest messages, in order and at least
    one of them, each within its cap, within the budget of tokens unless it is a single
    message, and it says how many older ones it leaves out. *)
Theorem compaction_prompt_bounded messages budget :
  messages <> [] -> (budget < U64 - 1)%Z ->
  exists k, 0 < k <= length messages /\
    let shown := rev (take k (render_all ∅ (rev messages))) in
    Forall (fun t => length t <= MAX_COMPACTION_MESSAGE_CHARS + 12) shown /\
    ((text_costs (take k (render_all ∅ (rev messages))) <= budget)%Z \/ k = 1) /\
    compaction_prompt_body describe messages budget
    = (if k =? length messages then []
       else $"[" ++ show_nat (length messages - k)
            ++ $" older message(s) omitted from this excerpt because of size limits]" ++ [LF; LF])
      ++ concat (map (fun t => t ++ [LF; LF]) shown).
Proof.
  intros Hne Hb. destruct (body_loop_spec budget (length messages) ∅ 0 [] (rev messages))
    as (k & Hk & Hpos & Hbody & Hcost); [lia|done|right; cbn; lia|by rewrite length_rev|].
  rewrite length_rev in *.
  assert (0 < k) as Hk0 by (apply Hpos; [done|destruct messages; [done|cbn; lia]]).
  exists k. split; [lia|]. cbn zeta. split_and!.
  - apply Forall_rev, Forall_take. clear. generalize (∅ : gset (list N)). induction (rev messages) as [|m l IH];
      intros seen; cbn [render_all]; [constructor|].
    destruct (message_for_context_summary_with_seen describe m seen) as [t s].
    constructor; [apply truncate_summary_length|apply IH].
  - destruct Hcost as [Hc|Hc]; [left; lia|right; cbn in Hc; lia].
  - unfold compaction_prompt_body. change 0%Z with (sat U64 0). rewrite Hbody, app_nil_r.
    destruct (Nat.eqb_spec k (length messages)) as [->|Hlt].
    + by rewrite Nat.sub_diag.
    + by rewrite (proj2 (Nat.ltb_lt 0 (length messages - k)) ltac:(lia)).
Qed.
End Body.

(** ** Examples *)

#[local] Instance no_json_text : JsonText := fun _ => [].
Definition demo_request : RequestBudget :=
  mkRequestBudget $"demo" [($"demo", 20000%Z)] 50 [] [] F64_ONE.
Definition demo_history : list Message := repeat (mkMessage 1 1 Assistant $"ok" 0) 80.

Lemma compaction_makes_room_witness :
  context_compaction_target_count demo_history demo_request None = Some 72 /\
  (fixed_tokens demo_request + summary_tokens demo_request $"done" + cost_of demo_request (drop 72 demo_history)
   <= budget_tokens demo_request)%Z /\
  existing_count None < 72.
Proof.
  split; [vm_compute; reflexivity|].
  assert (context_compaction_target_count demo_history demo_request None = Some 72) as Ht by (vm_compute; reflexivity).
  destruct (compaction_makes_room demo_request demo_history None 72 Ht) as (Hn & _).
  split; [vm_compute; discriminate|apply Hn].
Defined.

#[local] Instance no_hash : HashStrings := fun _ => 0%Z.
Definition demo_env : Env := Build_Env N.of_nat Z.of_nat (fun i => show_N i) (fun _ _ => false) true.

Lemma compaction_prompt_bounded_witness :
  exists k, 0 < k <= 80 /\
    ((text_costs (take k (@render_all no_hash demo_env (fun _ => None) ∅ (rev demo_history))) <= 12)%Z \/ k = 1).
Proof.
  destruct (@compaction_prompt_bounded no_hash demo_env (fun _ => None) demo_history 12)
    as (k & Hk & _ & Hcost & _); [discriminate|reflexivity|].
  exists k. split; [exact Hk|exact Hcost].
Defined.

(** The reserve is meant to cover the longest summary at the rate of Chinese text, but
    not the sentence in front of the summary in the request. *)
Example reserve_too_small :
  (CONTEXT_SUMMARY_RESERVE_TOKENS <? summary_tokens demo_request (repeat 23383%N MAX_CONTEXT_SUMMARY_CHARS))%Z = true.
Proof. vm_compute. reflexivity. Qed.
