(* ===== verification/EchoGuard.v ===== *)
(** * Echoes of historical tool output (crates/xcoding-agent/src/lib.rs)

    A model that repeats the tool output of its history is caught while its answer
    streams: by the marker in front of such output, and by fingerprints of the previews
    that the request carries.  The guard holds text back until it cannot be an echo. *)

From S2P Require Import Prelude.
From S2P Require Import Protocol.
From S2P Require Import Sql.
From S2P Require Import Routing.
From S2P Require Import Transcript.
From S2P Require Import Text.
From S2P Require Import History.

(** [DefaultHasher] of the standard library over the characters of a window; its
    algorithm is not specified. *)
Class HashChars := hash_chars : list N -> N.

Definition HISTORICAL_TOOL_ECHO_PREFIX : str := $"Previously recorded tool output:".
Definition HISTORICAL_TOOL_ECHO_PREFIXES : list str :=
  [HISTORICAL_TOOL_ECHO_PREFIX; HISTORICAL_TOOL_CARD_PREFIX].
Definition MIN_HISTORICAL_TOOL_ECHO_CHARS : nat := 64.
Definition HISTORICAL_FINGERPRINT_WINDOW_CHARS : nat := 192.
Definition MIN_HISTORICAL_FINGERPRINT_MATCHES : nat := 2.

Definition historical_tool_echo_prefix (content : str) : option str :=
  let content := trim_start content in
  List.find (fun prefix => starts_with prefix content) HISTORICAL_TOOL_ECHO_PREFIXES.

Definition could_be_historical_tool_echo_prefix (content : str) : bool :=
  let content := trim_start content in
  existsb (fun prefix => starts_with content prefix) HISTORICAL_TOOL_ECHO_PREFIXES.

Definition has_echo_prefix (content : str) : bool :=
  match historical_tool_echo_prefix content with Some _ => true | None => false end.

Definition looks_like_historical_tool_echo (content : str) : bool :=
  let content := trim content in
  has_echo_prefix content && (MIN_HISTORICAL_TOOL_ECHO_CHARS <=? length content).

(** ** Fingerprints *)

Definition SPACE_CHAR : char := 32%N.

(** The loop over the characters: [seen] says that the result is not empty. *)
Fixpoint normalize_loop (seen pending_space : bool) (text : str) : str :=
  match text with
  | [] => []
  | ch :: rest =>
    if is_whitespace ch then normalize_loop seen (pending_space || seen) rest
    else (if pending_space then [SPACE_CHAR] else []) ++ ch :: normalize_loop true false rest
  end.
Definition normalized_fingerprint_chars (text : str) : str := normalize_loop false false text.

Definition historical_tool_card_preview (content : str) : option str :=
  match strip_prefix HISTORICAL_TOOL_CARD_PREFIX (trim_start content) with
  | None => None
  | Some rest =>
    match split_once_str ($"]" ++ [LF]) rest with
    | None => None
    | Some (_, body) =>
      Some match find_str (LF :: $"[End historical tool output card.") body with
           | Some end_ => take end_ body
           | None => body
           end
    end
  end.

Section Fingerprints.
Context {Hash : HashChars}.

Record HistoricalContentFingerprints := mkFingerprints {
  fp_windows : gset N;
  fp_window : list N;
  fp_pending_space : bool;
  fp_consecutive_matches : nat;
  fp_matched : bool;
}.
Definition default_fingerprints (windows : gset N) : HistoricalContentFingerprints :=
  mkFingerprints windows [] false 0 false.

Definition preview_windows (normalized : str) : list N :=
  if length normalized <? HISTORICAL_FINGERPRINT_WINDOW_CHARS then []
  else map (fun start => hash_chars (take HISTORICAL_FINGERPRINT_WINDOW_CHARS (drop start normalized)))
         (seq 0 (length normalized - HISTORICAL_FINGERPRINT_WINDOW_CHARS + 1)).

Definition message_windows (m : ChatMessage) : list N :=
  if negb (is_assistant m) then []
  else
    match cm_content m with
    | None => []
    | Some content =>
      match historical_tool_card_preview (chat_message_content_as_text content) with
      | None => []
      | Some preview => preview_windows (normalized_fingerprint_chars preview)
      end
    end.
Definition from_messages (messages : list ChatMessage) : HistoricalContentFingerprints :=
  default_fingerprints (list_to_set (concat (map message_windows messages))).

Definition push_window_char (ch : char) (f : HistoricalContentFingerprints) : HistoricalContentFingerprints :=
  let window := fp_window f ++ [ch] in
  let window := if HISTORICAL_FINGERPRINT_WINDOW_CHARS <? length window then drop 1 window else window in
  if negb (length window =? HISTORICAL_FINGERPRINT_WINDOW_CHARS)
  then mkFingerprints (fp_windows f) window (fp_pending_space f) (fp_consecutive_matches f) (fp_matched f)
  else if bool_decide (hash_chars window ∈ fp_windows f)
  then
    let matches := S (fp_consecutive_matches f) in
    mkFingerprints (fp_windows f) window (fp_pending_space f) matches
      (fp_matched f || (MIN_HISTORICAL_FINGERPRINT_MATCHES <=? matches))
  else mkFingerprints (fp_windows f) window (fp_pending_space f) 0 (fp_matched f).

Definition set_pending_space (b : bool) (f : HistoricalContentFingerprints) : HistoricalContentFingerprints :=
  mkFingerprints (fp_windows f) (fp_window f) b (fp_consecutive_matches f) (fp_matched f).

Fixpoint observe_loop (delta : str) (f : HistoricalContentFingerprints)
  : bool * HistoricalContentFingerprints :=
  match delta with
  | [] => (false, f)
  | ch :: rest =>
    if is_whitespace ch
    then observe_loop rest (if is_empty (fp_window f) then f else set_pending_space true f)
    else
      let f := if fp_pending_space f then push_window_char SPACE_CHAR (set_pending_space false f) else f in
      if fp_matched f then (true, f)
      else
        let f := push_window_char ch f in
        if fp_matched f then (true, f) else observe_loop rest f
  end.

Definition observe (delta : str) (f : HistoricalContentFingerprints)
  : bool * HistoricalContentFingerprints :=
  if fp_matched f then (true, f)
  else if bool_decide (fp_windows f = ∅) then (false, f)
  else observe_loop delta f.

(** ** The guard *)

Record HistoricalToolEchoStreamGuard := mkGuard {
  gd_pending : str;
  gd_emitting : bool;
  gd_suppressing : bool;
  gd_fingerprints : HistoricalContentFingerprints;
  gd_fingerprint_matched : bool;
}.
Definition with_fingerprints (f : HistoricalContentFingerprints) : HistoricalToolEchoStreamGuard :=
  mkGuard [] false false f false.

Inductive StreamAction := Buffered | Emit (delta : str) | Suppress.

Definition guard_push (delta : str) (g : HistoricalToolEchoStreamGuard)
  : StreamAction * HistoricalToolEchoStreamGuard :=
  if gd_suppressing g then (Suppress, g)
  else
    let '(hit, f) := observe delta (gd_fingerprints g) in
    if hit then (Suppress, mkGuard [] (gd_emitting g) true f true)
    else if gd_emitting g
    then (Emit delta, mkGuard (gd_pending g) true false f (gd_fingerprint_matched g))
    else
      let pending := gd_pending g ++ delta in
      let content := trim_start pending in
      let keep emitting suppressing pending :=
        mkGuard pending emitting suppressing f (gd_fingerprint_matched g) in
      if is_empty content || could_be_historical_tool_echo_prefix content
      then (Buffered, keep false false pending)
      else if has_echo_prefix content
      then if MIN_HISTORICAL_TOOL_ECHO_CHARS <=? length content
           then (Suppress, keep false true [])
           else (Buffered, keep false false pending)
      else (Emit pending, keep true false []).

Definition guard_finish (g : HistoricalToolEchoStreamGuard) : option str * HistoricalToolEchoStreamGuard :=
  if gd_emitting g || gd_suppressing g || is_empty (gd_pending g) then (None, g)
  else (Some (gd_pending g),
        mkGuard [] true (gd_suppressing g) (gd_fingerprints g) (gd_fingerprint_matched g)).

(** The text that the guard passes on while a stream's deltas arrive. *)
Definition emitted_text (a : StreamAction) : str := match a with Emit delta => delta | _ => [] end.
Fixpoint push_all (deltas : list str) (g : HistoricalToolEchoStreamGuard)
  : str * HistoricalToolEchoStreamGuard :=
  match deltas with
  | [] => ([], g)
  | delta :: rest =>
    let '(action, g) := guard_push delta g in
    let '(out, g) := push_all rest g in
    (emitted_text action ++ out, g)
  end.
End Fingerprints.

(** ** What the echo guard lets through

    The guard loses no text, its decision does not depend on how the answer is cut into
    deltas, and an answer that repeats enough of a preview is always suppressed. *)

(** ** Prefixes of an echo *)

Lemma trim_start_app t d : trim_start t <> [] -> trim_start (t ++ d) = trim_start t ++ d.
Proof. apply drop_while_app_some. Qed.

Lemma trim_start_idem t : trim_start (trim_start t) = trim_start t.
Proof. apply drop_while_id. intros c r Hc. by apply drop_while_head in Hc. Qed.

Lemma starts_with_split p a b :
  starts_with p (a ++ b) = true -> starts_with p a = true \/ starts_with a p = true.
Proof.
  rewrite !starts_with_true. revert p. induction a as [|x a IH]; intros p; [right; by exists p|].
  destruct p as [|y p]; [left; by exists (x :: a)|]. cbn [app]. intros [r [= -> Hr]].
  destruct (IH p (ex_intro _ r Hr)) as [[q ->]|[q ->]]; [left|right]; by exists q.
Qed.

Lemma starts_with_shorter a b p : starts_with (a ++ b) p = true -> starts_with a p = true.
Proof. rewrite !starts_with_true. intros [r ->]. exists (b ++ r). by rewrite app_assoc. Qed.

(** The text may still become an echo, has become one, or never will. *)
Definition undecided (t : str) : bool := is_empty (trim_start t) || could_be_historical_tool_echo_prefix t.
Definition cleared (t : str) : bool := negb (undecided t) && negb (has_echo_prefix t).
Definition echo_start (t : str) : bool :=
  has_echo_prefix t && (MIN_HISTORICAL_TOOL_ECHO_CHARS <=? length (trim_start t)).

Lemma has_prefix_spec t :
  has_echo_prefix t = existsb (fun p => starts_with p (trim_start t)) HISTORICAL_TOOL_ECHO_PREFIXES.
Proof.
  unfold has_echo_prefix, historical_tool_echo_prefix. cbn zeta.
  induction HISTORICAL_TOOL_ECHO_PREFIXES as [|p l IH]; cbn [List.find existsb]; [done|].
  by destruct (starts_with p (trim_start t)).
Qed.

Lemma prefix_not_empty p t : p ∈ HISTORICAL_TOOL_ECHO_PREFIXES -> starts_with p t = true -> t <> [].
Proof.
  intros Hp Hs ->. apply starts_with_true in Hs as [r Hr]. symmetry in Hr. apply app_nil in Hr as [-> _].
  by assert ([] ∉ HISTORICAL_TOOL_ECHO_PREFIXES) by by apply (bool_decide_unpack _).
Qed.

Lemma has_prefix_app t d : has_echo_prefix t = true -> has_echo_prefix (t ++ d) = true.
Proof.
  rewrite !has_prefix_spec, !existsb_elem. intros (p & Hp & Hs). exists p. split; [done|].
  rewrite trim_start_app by by eapply prefix_not_empty. by apply starts_with_app.
Qed.

Lemma echo_start_app t d : echo_start t = true -> echo_start (t ++ d) = true.
Proof.
  unfold echo_start. rewrite !andb_true_iff, !Nat.leb_le. intros [Hp Hl]. split; [by apply has_prefix_app|].
  rewrite trim_start_app; [rewrite length_app; lia|].
  intros Ht. rewrite Ht in Hl. cbn in Hl. unfold MIN_HISTORICAL_TOOL_ECHO_CHARS in Hl. lia.
Qed.

Lemma cleared_app t d : cleared t = true -> cleared (t ++ d) = true.
Proof.
  unfold cleared, undecided, could_be_historical_tool_echo_prefix. rewrite !has_prefix_spec.
  destruct (trim_start t) as [|c r] eqn:Et; [done|]. cbn [is_empty orb].
  rewrite trim_start_app by by rewrite Et. rewrite Et. cbn [app is_empty orb].
  rewrite !andb_true_iff, !negb_true_iff. intros [Hc Hh].
  rewrite existsb_false_elem in Hc, Hh. rewrite !existsb_false_elem. split; intros p Hp.
  - apply not_true_iff_false. intros Hs. specialize (Hc p Hp).
    change (c :: r ++ d) with ((c :: r) ++ d) in Hs. apply starts_with_shorter in Hs. congruence.
  - apply not_true_iff_false. intros Hs. change (c :: r ++ d) with ((c :: r) ++ d) in Hs.
    apply starts_with_split in Hs as [Hs|Hs]; [specialize (Hh p Hp)|specialize (Hc p Hp)]; congruence.
Qed.

Lemma cleared_no_echo t : cleared t = true -> echo_start t = false.
Proof.
  unfold cleared, echo_start. rewrite andb_true_iff, !negb_true_iff. by intros [_ ->].
Qed.

Section Guard.
Context {Hash : HashChars}.

(** ** Observing a text in pieces *)

Lemma push_windows c f : fp_windows (push_window_char c f) = fp_windows f.
Proof. unfold push_window_char. by repeat case_match. Qed.

Lemma observe_loop_windows t f : fp_windows (snd (observe_loop t f)) = fp_windows f.
Proof.
  revert f. induction t as [|c t IH]; intros f; cbn [observe_loop]; [done|].
  destruct (is_whitespace c); [by rewrite IH; destruct (fp_window f)|].
  destruct (fp_pending_space f); repeat case_match; rewrite ?IH; cbn [snd]; by rewrite ?push_windows.
Qed.

Lemma observe_loop_app a b f :
  observe_loop (a ++ b) f
  = let '(hit, f') := observe_loop a f in if hit then (true, f') else observe_loop b f'.
Proof.
  revert f. induction a as [|c a IH]; intros f; cbn [app observe_loop]; [done|].
  destruct (is_whitespace c); [apply IH|]. cbn zeta.
  destruct (fp_matched (if fp_pending_space f then _ else f)); [done|].
  destruct (fp_matched (push_window_char c _)); [done|]. apply IH.
Qed.

Lemma observe_loop_matched t f : fp_matched f = false -> fp_matched (snd (observe_loop t f)) = fst (observe_loop t f).
Proof.
  revert f. induction t as [|c t IH]; intros f Hf; cbn [observe_loop]; [done|].
  destruct (is_whitespace c); [by apply IH; destruct (fp_window f)|].
  destruct (fp_matched (if fp_pending_space f then _ else f)) eqn:E1; [done|].
  destruct (fp_matched (push_window_char c _)) eqn:E2; [done|]. by apply IH.
Qed.

Lemma observe_app a b f :
  observe (a ++ b) f = let '(hit, f') := observe a f in if hit then (true, f') else observe b f'.
Proof.
  unfold observe. destruct (fp_matched f) eqn:Em; [done|].
  destruct (bool_decide (fp_windows f = ∅)) eqn:Ew; [by rewrite Em, Ew|].
  rewrite observe_loop_app. pose proof (observe_loop_windows a f) as Hw.
  pose proof (observe_loop_matched a f Em) as Hm.
  destruct (observe_loop a f) as [[] f'] eqn:E; cbn [fst snd] in *; [done|].
  by rewrite Hm, Hw, Ew.
Qed.

(** ** The decision *)

Definition hit (t : str) (f : HistoricalContentFingerprints) : bool := fst (observe t f).

Lemma hit_app a b f : hit a f = true -> hit (a ++ b) f = true.
Proof. unfold hit. rewrite observe_app. destruct (observe a f) as [[] f']; [done|]. done. Qed.

Record guard_at (f : HistoricalContentFingerprints) (t out : str) (g : HistoricalToolEchoStreamGuard) : Prop := {
  ga_decision : gd_suppressing g = hit t f || echo_start t;
  ga_prefix : exists rest, t = out ++ rest;
  ga_shown : out = [] \/ cleared t = true;
  ga_open : gd_suppressing g = false ->
    gd_fingerprints g = snd (observe t f) /\ gd_emitting g = cleared t /\
    gd_pending g = (if cleared t then [] else t) /\ out = (if cleared t then t else []);
}.

Lemma decision_app f t d : hit t f || echo_start t = true -> hit (t ++ d) f || echo_start (t ++ d) = true.
Proof.
  intros [Hh|He]%orb_true_iff; apply orb_true_iff; [left; by apply hit_app|right; by apply echo_start_app].
Qed.

(** The decision on the text of [pending]. *)
Lemma held_back t :
  is_empty (trim_start t) || could_be_historical_tool_echo_prefix (trim_start t) = undecided t.
Proof. unfold undecided, could_be_historical_tool_echo_prefix. by rewrite trim_start_idem. Qed.

Lemma has_prefix_trimmed t : has_echo_prefix (trim_start t) = has_echo_prefix t.
Proof. by rewrite !has_prefix_spec, trim_start_idem. Qed.

Lemma undecided_no_echo t : undecided t = true -> echo_start t = false.
Proof.
  unfold undecided, echo_start. intros Hu. apply not_true_iff_false.
  rewrite andb_true_iff, Nat.leb_le. intros [_ Hl]. apply orb_true_iff in Hu as [Hu|Hu].
  - destruct (trim_start t); [|done]. cbn in Hl. unfold MIN_HISTORICAL_TOOL_ECHO_CHARS in Hl. lia.
  - unfold could_be_historical_tool_echo_prefix in Hu. apply existsb_elem in Hu as (p & Hp & [r Hr]%starts_with_true).
    assert (forallb (fun p => length p <? MIN_HISTORICAL_TOOL_ECHO_CHARS) HISTORICAL_TOOL_ECHO_PREFIXES = true)
      as Hshort by (vm_compute; reflexivity).
    rewrite forallb_forall in Hshort. specialize (Hshort p (proj1 (list_elem_of_In _ _) Hp)).
    apply Nat.ltb_lt in Hshort. rewrite Hr, length_app in Hshort. lia.
Qed.

Lemma guard_push_spec f t out g d :
  guard_at f t out g ->
  guard_at f (t ++ d) (out ++ emitted_text (fst (guard_push d g))) (snd (guard_push d g)).
Proof.
  intros [Hdec [rest Hpre] Hshown Hopen]. unfold guard_push.
  assert (out = [] \/ cleared (t ++ d) = true) as Hshown'.
  { destruct Hshown; [by left|right; by apply cleared_app]. }
  destruct (gd_suppressing g) eqn:Es.
  { cbn [emitted_text fst snd]. rewrite app_nil_r. split; [|exists (rest ++ d)|done|congruence].
    - rewrite Es. symmetry. apply decision_app. by symmetry.
    - by rewrite Hpre, <- app_assoc. }
  destruct (Hopen eq_refl) as (Hf & He & Hp & Ho). symmetry in Hdec. apply orb_false_iff in Hdec as [Hh Hecho].
  assert (observe (t ++ d) f = observe d (gd_fingerprints g)) as Hobs.
  { rewrite observe_app. unfold hit in Hh. rewrite Hf. destruct (observe t f) as [[] f']; [done|done]. }
  rewrite <- Hobs. destruct (observe (t ++ d) f) as [[] f'] eqn:Eo.
  { cbn [emitted_text fst snd]. rewrite app_nil_r. split; cbn [gd_suppressing]; [|exists (rest ++ d)|done|done].
    - unfold hit. by rewrite Eo.
    - by rewrite Hpre, <- app_assoc. }
  rewrite He, Hp. destruct (cleared t) eqn:Ec.
  { pose proof (cleared_app t d Ec) as Hc. cbn [emitted_text fst snd]. subst out.
    split; cbn [gd_suppressing gd_fingerprints gd_emitting gd_pending].
    - unfold hit. by rewrite Eo, cleared_no_echo.
    - exists []. by rewrite app_nil_r.
    - by right.
    - intros _. rewrite Eo, Hc. done. }
  subst out. rewrite held_back, has_prefix_trimmed. 
  destruct (undecided (t ++ d)) eqn:Eu; [|destruct (has_echo_prefix (t ++ d)) eqn:Eh;
    [destruct (Nat.leb MIN_HISTORICAL_TOOL_ECHO_CHARS (length (trim_start (t ++ d)))) eqn:El|]];
    cbn [emitted_text fst snd app]; split; cbn [gd_suppressing gd_fingerprints gd_emitting gd_pending];
    unfold hit; rewrite ?Eo; cbn [fst snd orb].
  - by rewrite undecided_no_echo.
  - by exists (t ++ d).
  - by left.
  - intros _. unfold cleared. by rewrite Eu.
  - unfold echo_start. by rewrite Eh, El.
  - by exists (t ++ d).
  - by left.
  - done.
  - unfold echo_start. by rewrite Eh, El.
  - by exists (t ++ d).
  - by left.
  - intros _. unfold cleared. by rewrite Eu, Eh.
  - unfold echo_start. by rewrite Eh.
  - exists []. by rewrite app_nil_r.
  - right. unfold cleared. by rewrite Eu, Eh.
  - intros _. unfold cleared. by rewrite Eu, Eh.
Qed.

Lemma push_all_spec f deltas t out g :
  guard_at f t out g ->
  guard_at f (t ++ concat deltas) (out ++ fst (push_all deltas g)) (snd (push_all deltas g)).
Proof.
  revert t out g. induction deltas as [|d deltas IH]; intros t out g Hg; cbn [push_all concat].
  { by rewrite !app_nil_r. }
  pose proof (guard_push_spec f t out g d Hg) as Hd. destruct (guard_push d g) as [action g'].
  cbn [fst snd] in Hd. specialize (IH _ _ _ Hd). destruct (push_all deltas g') as [out' g'']. cbn [fst snd] in *.
  by rewrite <- !app_assoc in IH.
Qed.

Lemma guard_start f : fp_matched f = false -> guard_at f [] [] (with_fingerprints f).
Proof.
  intros Hm. unfold with_fingerprints. split; cbn [gd_suppressing gd_fingerprints gd_emitting gd_pending].
  - unfold hit, observe. rewrite Hm. by destruct (bool_decide _).
  - by exists [].
  - by left.
  - intros _. split_and!; [|done..]. unfold observe. rewrite Hm. by destruct (bool_decide _).
Qed.

(** However an answer is cut into deltas, the guard suppresses it exactly when its
    text starts with the marker of historical output and is long enough, or matches the
    fingerprints; it passes on a prefix of the text, nothing at all of an answer that
    starts with the marker, and, when it is not suppressed, every character in order by
    the end of the stream. *)
Theorem echo_guard_decides messages deltas :
  let f := from_messages messages in
  let text := concat deltas in
  let '(out, g) := push_all deltas (with_fingerprints f) in
  gd_suppressing g = fst (observe text f) || echo_start text /\
  (exists rest, text = out ++ rest) /\
  (echo_start text = true -> out = []) /\
  (gd_suppressing g = false -> out ++ default [] (fst (guard_finish g)) = text).
Proof.
  cbn zeta. pose proof (push_all_spec (from_messages messages) deltas [] [] _
    (guard_start (from_messages messages) eq_refl)) as [Hd Hp Hs Ho].
  cbn [app] in *. destruct (push_all deltas _) as [out g]. cbn [fst snd] in *.
  split_and!; [done|done| |].
  - intros He. destruct Hs as [|Hc]; [done|]. apply cleared_no_echo in Hc. congruence.
  - intros Hn. destruct (Ho Hn) as (_ & He & Hpend & ->). unfold guard_finish. rewrite Hn, He, Hpend.
    destruct (cleared (concat deltas)); cbn [orb fst default]; [apply app_nil_r|].
    by destruct (concat deltas).
Qed.

(** ** Detection *)

Lemma window_chars_pos : 1 < HISTORICAL_FINGERPRINT_WINDOW_CHARS.
Proof. apply Nat.ltb_lt. vm_compute. reflexivity. Qed.
#[local] Opaque HISTORICAL_FINGERPRINT_WINDOW_CHARS.

Lemma push_pending c b f : push_window_char c (set_pending_space b f) = set_pending_space b (push_window_char c f).
Proof. unfold push_window_char, set_pending_space. cbn [fp_window fp_windows fp_consecutive_matches fp_matched]. by repeat case_match. Qed.

Definition push_chars (cs : str) (f : HistoricalContentFingerprints) : HistoricalContentFingerprints :=
  foldl (fun f c => push_window_char c f) f cs.

Lemma push_matched c f : fp_matched f = true -> fp_matched (push_window_char c f) = true.
Proof. intros Hm. unfold push_window_char. repeat case_match; cbn [fp_matched]; by rewrite ?Hm. Qed.

Lemma push_chars_matched cs f : fp_matched f = true -> fp_matched (push_chars cs f) = true.
Proof. revert f. induction cs as [|c cs IH]; intros f Hm; cbn; [done|]. by apply IH, push_matched. Qed.

Lemma push_chars_pending cs b f : push_chars cs (set_pending_space b f) = set_pending_space b (push_chars cs f).
Proof.
  revert f. unfold push_chars. induction cs as [|c cs IH]; intros f; cbn [foldl]; [done|].
  rewrite push_pending. apply IH.
Qed.

Lemma push_window_nonempty c f : fp_window (push_window_char c f) <> [].
Proof.
  unfold push_window_char. destruct (Nat.ltb_spec HISTORICAL_FINGERPRINT_WINDOW_CHARS (length (fp_window f ++ [c]))) as [Hl|Hl].
  - assert (drop 1 (fp_window f ++ [c]) <> []) as Hd.
    { intros Hd. apply (f_equal length) in Hd. rewrite length_drop in Hd. cbn [length] in Hd.
      pose proof window_chars_pos. lia. }
    by repeat case_match.
  - repeat case_match; cbn [fp_window]; by destruct (fp_window f).
Qed.

(** Observing a text is pushing its normal form. *)
Lemma observe_loop_pushes t f :
  fp_matched f = false -> (fp_pending_space f = true -> fp_window f <> []) ->
  fst (observe_loop t f)
  = fp_matched (push_chars (normalize_loop (negb (is_empty (fp_window f))) (fp_pending_space f) t) f).
Proof.
  revert f. induction t as [|c t IH]; intros f Hm Hp; cbn [observe_loop normalize_loop]; [done|].
  destruct (is_whitespace c).
  - destruct (fp_window f) as [|x w] eqn:Ew; cbn [is_empty negb].
    + rewrite IH by (done || by rewrite Ew). rewrite Ew. cbn [is_empty negb].
      by rewrite orb_false_r.
    + rewrite IH; [|done|cbn; by rewrite Ew]. cbn [fp_window set_pending_space fp_pending_space]. rewrite Ew.
      cbn [is_empty negb]. rewrite orb_true_r, push_chars_pending. done.
  - cbn zeta. set (f1 := if fp_pending_space f then push_window_char SPACE_CHAR (set_pending_space false f) else f).
    assert (push_chars (if fp_pending_space f then [SPACE_CHAR] else []) f
            = set_pending_space (fp_pending_space f) f1) as H1.
    { unfold f1. destruct f as [w win [] cm mt]; cbn [fp_pending_space push_chars foldl]; [|done].
      rewrite push_pending. unfold push_window_char, set_pending_space.
      cbn [fp_window fp_windows fp_consecutive_matches fp_matched]. by repeat case_match. }
    unfold push_chars at 1. rewrite foldl_app. fold (push_chars (if fp_pending_space f then [SPACE_CHAR] else []) f).
    rewrite H1. cbn [foldl]. rewrite push_pending.
    match goal with |- _ = fp_matched (foldl _ ?g ?l) => change (foldl _ g l) with (push_chars l g) end.
    rewrite push_chars_pending. cbn [fp_matched set_pending_space].
    destruct (fp_matched f1) eqn:Em1.
    { cbn [fst]. symmetry. by apply push_chars_matched, push_matched. }
    destruct (fp_matched (push_window_char c f1)) eqn:Em2.
    { cbn [fst]. symmetry. by apply push_chars_matched. }
    assert (fp_pending_space (push_window_char c f1) = false) as Hps.
    { assert (fp_pending_space f1 = false) as Hf1.
      { unfold f1. destruct (fp_pending_space f) eqn:E; [|done]. unfold push_window_char. by repeat case_match. }
      unfold push_window_char. by repeat case_match. }
    rewrite IH by (done || congruence). rewrite Hps.
    pose proof (push_window_nonempty c f1) as Hne.
    by destruct (fp_window (push_window_char c f1)).
Qed.

(** The window holds the end of what was pushed. *)
Lemma push_chars_window windows s :
  let f := push_chars s (default_fingerprints windows) in
  fp_window f = drop (length s - HISTORICAL_FINGERPRINT_WINDOW_CHARS) s /\ fp_windows f = windows.
Proof.
  cbn zeta. induction s as [|c s [IHw IHs]] using rev_ind; [done|].
  unfold push_chars in *. rewrite foldl_app. cbn [foldl]. rewrite push_windows. split; [|done].
  set (f := foldl _ _ s) in *. unfold push_window_char. rewrite IHw. cbn zeta.
  assert ((if HISTORICAL_FINGERPRINT_WINDOW_CHARS <?
              length (drop (length s - HISTORICAL_FINGERPRINT_WINDOW_CHARS) s ++ [c])
           then drop 1 (drop (length s - HISTORICAL_FINGERPRINT_WINDOW_CHARS) s ++ [c])
           else drop (length s - HISTORICAL_FINGERPRINT_WINDOW_CHARS) s ++ [c])
          = drop (length (s ++ [c]) - HISTORICAL_FINGERPRINT_WINDOW_CHARS) (s ++ [c])) as Hw.
  { rewrite !length_app, length_drop. cbn [length].
    destruct (Nat.ltb_spec HISTORICAL_FINGERPRINT_WINDOW_CHARS
                (length s - (length s - HISTORICAL_FINGERPRINT_WINDOW_CHARS) + 1)) as [Hl|Hl].
    - rewrite <- drop_app_le by lia. rewrite drop_drop. f_equal. lia.
    - rewrite drop_app_le by lia. f_equal. f_equal. lia. }
  rewrite Hw. by repeat case_match.
Qed.

Lemma preview_windows_elem p s :
  s + HISTORICAL_FINGERPRINT_WINDOW_CHARS <= length p ->
  hash_chars (take HISTORICAL_FINGERPRINT_WINDOW_CHARS (drop s p)) ∈ preview_windows p.
Proof.
  intros Hs. unfold preview_windows. destruct (Nat.ltb_spec (length p) HISTORICAL_FINGERPRINT_WINDOW_CHARS); [lia|].
  apply list_elem_of_fmap. exists s. split; [done|]. apply elem_of_seq. lia.
Qed.

(** A window of the fingerprints ends with this character. *)
Lemma push_window_hit c f :
  length (fp_window (push_window_char c f)) = HISTORICAL_FINGERPRINT_WINDOW_CHARS ->
  hash_chars (fp_window (push_window_char c f)) ∈ fp_windows f ->
  fp_consecutive_matches (push_window_char c f) = S (fp_consecutive_matches f) /\
  (MIN_HISTORICAL_FINGERPRINT_MATCHES <= S (fp_consecutive_matches f) ->
   fp_matched (push_window_char c f) = true).
Proof.
  unfold push_window_char. cbn zeta. set (win := if _ <? _ then _ else _).
  destruct (Nat.eqb_spec (length win) HISTORICAL_FINGERPRINT_WINDOW_CHARS) as [He|He]; cbn [negb].
  - destruct (bool_decide (hash_chars win ∈ fp_windows f)) eqn:Eb;
      cbn [fp_window fp_consecutive_matches fp_matched]; intros _ Hin.
    + split; [done|]. intros Hle%Nat.leb_le. by rewrite Hle, orb_true_r.
    + by apply bool_decide_eq_false in Eb.
  - cbn [fp_window]. done.
Qed.

Lemma push_window_match windows s c w pre :
  length w = HISTORICAL_FINGERPRINT_WINDOW_CHARS -> hash_chars w ∈ windows -> s ++ [c] = pre ++ w ->
  let f := push_chars s (default_fingerprints windows) in
  let f' := push_chars (s ++ [c]) (default_fingerprints windows) in
  fp_consecutive_matches f' = S (fp_consecutive_matches f) /\
  (MIN_HISTORICAL_FINGERPRINT_MATCHES <= S (fp_consecutive_matches f) -> fp_matched f' = true).
Proof.
  intros Hw Hin Hpre. cbn zeta.
  destruct (push_chars_window windows (s ++ [c])) as [Hwin _].
  assert (fp_window (push_chars (s ++ [c]) (default_fingerprints windows)) = w) as Hfw.
  { rewrite Hwin, Hpre, length_app, Hw. replace (_ + _ - _) with (length pre) by lia. apply drop_app_length. }
  destruct (push_chars_window windows s) as [_ Hset].
  assert (push_chars (s ++ [c]) (default_fingerprints windows)
          = push_window_char c (push_chars s (default_fingerprints windows))) as Heq.
  { unfold push_chars. by rewrite foldl_app. }
  rewrite Heq in *. apply push_window_hit; rewrite Hfw; [done|by rewrite Hset].
Qed.

Lemma push_chars_app a b f : push_chars (a ++ b) f = push_chars b (push_chars a f).
Proof. unfold push_chars. apply foldl_app. Qed.

Lemma take_snoc {A} n (l : list A) : n < length l -> exists x, take (S n) l = take n l ++ [x].
Proof.
  intros Hn. destruct (lookup_lt_is_Some_2 l n Hn) as [x Hx]. exists x. by apply take_S_r.
Qed.

Lemma windows_detected windows p before after s :
  s + HISTORICAL_FINGERPRINT_WINDOW_CHARS < length p ->
  (forall w, w ∈ preview_windows p -> w ∈ windows) ->
  fp_matched (push_chars (before ++ take (S HISTORICAL_FINGERPRINT_WINDOW_CHARS) (drop s p) ++ after)
                (default_fingerprints windows)) = true.
Proof.
  intros Hs Hsub. rewrite app_assoc, push_chars_app. apply push_chars_matched.
  pose proof window_chars_pos as Hpos. set (W := HISTORICAL_FINGERPRINT_WINDOW_CHARS) in *.
  destruct (take_snoc W (drop s p)) as [d Hd]; [rewrite length_drop; lia|]. rewrite Hd.
  destruct (take_snoc (W - 1) (drop s p)) as [c Hc]; [rewrite length_drop; lia|].
  replace (S (W - 1)) with W in Hc by lia.
  destruct (push_window_match windows (before ++ take (W - 1) (drop s p)) c (take W (drop s p)) before)
    as [Hfirst _].
  { rewrite length_take, length_drop. fold W. lia. }
  { apply Hsub, preview_windows_elem. fold W. lia. }
  { by rewrite <- app_assoc, <- Hc. }
  assert (take (S W) (drop s p) = take 1 (drop s p) ++ take W (drop (s + 1) p)) as Hshift.
  { replace (drop (s + 1) p) with (drop 1 (drop s p)) by (rewrite drop_drop; f_equal; lia).
    by destruct (drop s p). }
  destruct (push_window_match windows (before ++ take W (drop s p)) d (take W (drop (s + 1) p))
              (before ++ take 1 (drop s p))) as [_ Hsecond].
  { rewrite length_take, length_drop. fold W. lia. }
  { apply Hsub, preview_windows_elem. fold W. lia. }
  { by rewrite <- !app_assoc, <- Hd, <- Hshift. }
  rewrite app_assoc. apply Hsecond. rewrite Hc at 1. rewrite app_assoc, Hfirst.
  unfold MIN_HISTORICAL_FINGERPRINT_MATCHES. lia.
Qed.

(** An answer that repeats more than one window of the preview of a historical card
    in the request, up to white space, is suppressed, however it is cut into deltas and
    whatever the hash function is. *)
Theorem repeated_preview_suppressed messages m content preview deltas s before after :
  m ∈ messages -> is_assistant m = true -> cm_content m = Some content ->
  historical_tool_card_preview (chat_message_content_as_text content) = Some preview ->
  let p := normalized_fingerprint_chars preview in
  s + HISTORICAL_FINGERPRINT_WINDOW_CHARS < length p ->
  normalized_fingerprint_chars (concat deltas)
  = before ++ take (S HISTORICAL_FINGERPRINT_WINDOW_CHARS) (drop s p) ++ after ->
  gd_suppressing (snd (push_all deltas (with_fingerprints (from_messages messages)))) = true.
Proof.
  intros Hm Ha Hc Hp p Hs Htext.
  pose proof (push_all_spec (from_messages messages) deltas [] [] _
    (guard_start (from_messages messages) eq_refl)) as [Hd _ _ _].
  cbn [app] in Hd. rewrite Hd. apply orb_true_iff. left. unfold hit, observe.
  set (windows := list_to_set (concat (map message_windows messages)) : gset N).
  assert (forall w, w ∈ preview_windows p -> w ∈ windows) as Hsub.
  { intros w Hw. apply elem_of_list_to_set. apply elem_of_concat_map. exists m. split; [done|].
    unfold message_windows. by rewrite Ha, Hc, Hp. }
  cbn [fp_matched from_messages default_fingerprints fp_windows]. fold windows.
  rewrite bool_decide_eq_false_2.
  2: { intros Hempty. assert (hash_chars (take HISTORICAL_FINGERPRINT_WINDOW_CHARS (drop s p)) ∈ windows) as Hin.
       { apply Hsub, preview_windows_elem. lia. }
       rewrite Hempty in Hin. by apply not_elem_of_empty in Hin. }
  rewrite observe_loop_pushes by done.
  change (from_messages messages) with (default_fingerprints windows).
  change (normalize_loop _ _ (concat deltas)) with (normalized_fingerprint_chars (concat deltas)).
  rewrite Htext. by apply windows_detected.
Qed.
End Guard.

#[local] Transparent HISTORICAL_FINGERPRINT_WINDOW_CHARS.

(** ** An example *)

Definition demo_hash : HashChars := fun cs => N.of_nat (length cs).
Definition demo_preview : str := concat (repeat $"0123456789" 25).
Definition demo_card : ChatMessage :=
  chat_text $"assistant" (HISTORICAL_TOOL_CARD_PREFIX ++ $" message_id=1]" ++ LF :: demo_preview
                          ++ LF :: HISTORICAL_TOOL_CARD_END).

Lemma repeated_preview_suppressed_witness :
  gd_suppressing (snd (@push_all demo_hash [$"see: "; take 100 (drop 5 demo_preview); drop 105 demo_preview]
    (with_fingerprints (@from_messages demo_hash [demo_card])))) = true.
Proof.
  apply (@repeated_preview_suppressed demo_hash [demo_card] demo_card
           (default (ContentText []) (cm_content demo_card)) demo_preview
           [$"see: "; take 100 (drop 5 demo_preview); drop 105 demo_preview]
           5 $"see: " (drop 198 demo_preview)).
  - apply list_elem_of_singleton. reflexivity.
  - vm_compute. reflexivity.
  - reflexivity.
  - vm_compute. reflexivity.
  - apply Nat.ltb_lt. vm_compute. reflexivity.
  - vm_compute. reflexivity.
Defined.
