(* ===== verification/ContextTools.v ===== *)
(** * Context tools and the cache of image descriptions (crates/xcoding-agent/src/lib.rs)

    The tools that read and write the durable history and notes of a session through the
    core service, with their strict arguments; and the descriptions of images, which live
    in a table of the process in front of the store. *)

From S2P Require Import Prelude.
From S2P Require Import Protocol.
From S2P Require Import Sql.
From S2P Require Import Store.
From S2P Require Import Core.
From S2P Require Import Routing.
From S2P Require Import Transcript.
From S2P Require Import Text.
From S2P Require Import ToolArgs.
From S2P Require Import Compression.
From S2P Require Import ProviderWire.
From S2P Require Import Images.
From S2P Require Import History.

(** [Uuid::parse_str], and the text of a time in JSON. *)
Class UuidParse := parse_uuid : list N -> option uuid.
Class TimeText := time_text : timestamp -> list N.

(** ** Arguments *)

Definition is_context_management_tool (name : ToolName) : bool :=
  match name with
  | NewContext | HistoryList | HistoryRead | HistorySearch | NotesList | NotesRead | NotesSearch
  | NotesAppend | NotesWrite => true
  | _ => false
  end.

Definition allowed_context_tool_keys (name : ToolName) : list str :=
  match name with
  | NewContext => []
  | HistoryList | NotesList => [$"offset"; $"limit"]
  | HistoryRead => [$"message_id"]
  | HistorySearch | NotesSearch => [$"query"; $"offset"; $"limit"]
  | NotesRead => [$"note_id"]
  | NotesAppend => [$"content"]
  | NotesWrite => [$"note_id"; $"content"]
  | _ => []
  end.

Definition BACKQUOTE : str := [96%N].
Definition quoted (key : str) : str := BACKQUOTE ++ key ++ BACKQUOTE.

Definition validate_exact_object (arguments : Value) (allowed : list str) : result unit ToolError :=
  match as_object arguments with
  | None => Err (InvalidArguments $"tool arguments must be a JSON object")
  | Some fields =>
    match List.find (fun key => negb (one_of key allowed)) (map fst fields) with
    | Some key => Err (InvalidArguments ($"unknown tool argument " ++ quoted key))
    | None => Ok tt
    end
  end.

(** [usize] has 64 bits, so the conversion from [u64] succeeds. *)
Definition strict_optional_usize (arguments : Value) (key : str) (default minimum maximum : N)
  : result N ToolError :=
  match json_get key arguments with
  | None => Ok default
  | Some value =>
    match as_u64 value with
    | None => Err (InvalidArguments (quoted key ++ $" must be a non-negative integer"))
    | Some value =>
      if ((minimum <=? value) && (value <=? maximum))%N then Ok value
      else Err (InvalidArguments (quoted key ++ $" must be between " ++ show_N minimum ++ $" and "
                                  ++ show_N maximum))
    end
  end.

Definition strict_nonempty_string (arguments : Value) (key : str) : result str ToolError :=
  match json_get key arguments ≫= as_str with
  | None => Err (InvalidArguments (quoted key ++ $" must be a string"))
  | Some value =>
    let value := trim value in
    if is_empty value then Err (InvalidArguments (quoted key ++ $" must not be empty")) else Ok value
  end.

Definition strict_uuid_argument `{UuidParse} (arguments : Value) (key : str) : result uuid ToolError :=
  let? value := strict_nonempty_string arguments key in
  match parse_uuid value with
  | Some id => Ok id
  | None => Err (InvalidArguments (quoted key ++ $" must be a valid UUID"))
  end.

Definition strict_note_content (arguments : Value) : result str ToolError :=
  let? content := strict_nonempty_string arguments $"content" in
  if MAX_LOCAL_MEMORY_CHARS <? length content
  then Err (InvalidArguments (quoted $"content" ++ $" must not exceed " ++ show_nat MAX_LOCAL_MEMORY_CHARS
                              ++ $" characters"))
  else Ok content.

Definition USIZE_BOUND : N := 18446744073709551615.
Definition offset_argument (arguments : Value) : result N ToolError :=
  strict_optional_usize arguments $"offset" 0 0 USIZE_BOUND.
Definition limit_argument (arguments : Value) : result N ToolError :=
  strict_optional_usize arguments $"limit" 20 (N.of_nat MIN_CONTEXT_TOOL_LIMIT) (N.of_nat MAX_CONTEXT_TOOL_LIMIT).

(** ** Descriptions of images *)

Definition MAX_VISION_CACHE_ENTRIES : nat := 128.

(** [VISION_DESCRIPTIONS], a table of the process. *)
Abbreviation VisionTable := (gmap (list N) CachedVisionDescription).

Definition remember_description (key delegate_model description : str) (table : VisionTable) : VisionTable :=
  let table := if MAX_VISION_CACHE_ENTRIES <=? size table then ∅ else table in
  <[key := mkCachedDescription description delegate_model]> table.

(** A computation over the service and the table. *)
Definition V (A : Type) : Type := CoreService * VisionTable -> A * (CoreService * VisionTable).
Definition vret {A} (a : A) : V A := fun s => (a, s).
Definition vbind {A B} (m : V A) (f : A -> V B) : V B := fun s => let '(a, s) := m s in f a s.
Notation "'let&' x := m 'in' k" := (vbind m (fun x => k))
  (at level 10, x pattern, m at level 100, k at level 200) : xc_scope.
(** A call of the service, as a result. *)
Definition call_core {A} (m : C A) : V (result A CoreError) := fun '(c, table) =>
  let '(r, c) := m c in (r, (c, table)).

(** [self.cached_vision_description]: the table first, then the store. *)
Definition cached_vision_description `{Env} (key : str) : V (option CachedVisionDescription) := fun '(c, table) =>
  match table !! key with
  | Some cached => (Some cached, (c, table))
  | None =>
    match vision_description key c with
    | (Ok (Some persisted), c) =>
      let cached := mkCachedDescription (sv_description persisted) (sv_delegate_model persisted) in
      (Some cached, (c, remember_description key (cv_delegate_model cached) (cv_description cached) table))
    | (_, c) => (None, (c, table))
    end
  end.

Definition store_vision_description `{Env} (key delegate_model : str) (sid : uuid) (description : str)
  : V unit := fun '(c, table) =>
  let table := remember_description key delegate_model description table in
  let '(_, c) := core_save_vision_description key delegate_model (Some sid) description c in
  (tt, (c, table)).

Definition vision_description_for_summary `{Env} `{HashStrings} (images : list image) : V (option str) :=
  if is_empty images then vret None
  else
    let& cached := cached_vision_description (vision_cache_key images) in
    vret (match cached with
          | Some cached =>
            let description := trim (cv_description cached) in
            if is_empty description then None else Some description
          | None => None
          end).

(** ** Messages for the model *)

Section Tools.
Context {En : Env} {Hash : HashStrings} {Time : TimeText} {Ids : UuidParse}.
(** The text of an error of the service. *)
Variable core_error_text : CoreError -> str.

Definition message_fields (m : Message) (content : str) : list (list N * Value) :=
  [($"id", JString (uuid_text (m_id m))); ($"session_id", JString (uuid_text (m_session_id m)));
   ($"role", JString (MessageRole_as_str (m_role m))); ($"content", JString content);
   ($"created_at", JString (time_text (m_created_at m)))].

Definition MALFORMED_IMAGES : str :=
  $"[Malformed image attachment payload omitted from history tool output. The stored message is available in the local transcript.]".

Definition history_message_for_tool (full_description : bool) (m : Message) : V Value :=
  let '(text, images) := match m_role m with
                         | User => parse_stored_user_message (m_content m)
                         | _ => (m_content m, [])
                         end in
  if is_empty images then
    vret (if bool_decide (m_role m = User) && contains IMAGES_BEGIN (m_content m)
          then json (message_fields m MALFORMED_IMAGES ++ [($"image_data_omitted", JBool true)])
          else json (message_fields m (m_content m)))
  else
    let key := vision_cache_key images in
    let image_ref := vision_image_ref key in
    let id := uuid_text (m_id m) in
    let& cached := cached_vision_description key in
    let described := match cached with
                     | Some cached => negb (is_empty (trim (cv_description cached)))
                     | None => false
                     end in
    let content :=
      match cached with
      | Some cached =>
        if described then
          let description := if full_description
                             then truncate_summary_text (trim (cv_description cached)) MAX_VISION_DESCRIPTION_CHARS
                             else trim (cv_description cached) in
          let '(card, _, _) := render_historical_image_card image_ref id (length images)
                                 (attribution cached $"vision delegate") description
                                 (if full_description then None else Some MAX_HISTORICAL_IMAGE_CARD_TOKENS) in
          append_historical_image_card text card
        else append_historical_image_card text
               (render_historical_image_status_card image_ref id (length images) $"description_status=unavailable")
      | None => append_historical_image_card text
                  (render_historical_image_status_card image_ref id (length images) $"description_status=unavailable")
      end in
    vret (json (message_fields m content
      ++ [($"images", JArray [json
             [($"image_ref", JString image_ref); ($"attachment_count", JInt (Z.of_nat (length images)));
              ($"mime_types", JArray (map (fun i => JString (fst i)) images));
              ($"description_available", JBool described)]]);
          ($"image_data_omitted", JBool true)])).

Fixpoint history_messages_for_tool (l : list Message) : V (list Value) :=
  match l with
  | [] => vret []
  | m :: rest =>
    let& v := history_message_for_tool false m in
    let& vs := history_messages_for_tool rest in vret (v :: vs)
  end.

(** The derived [Serialize] of a note. *)
Definition note_json (note : LocalMemory) : Value :=
  json [($"id", JString (uuid_text (lm_id note))); ($"workspace_root", JString (lm_workspace_root note));
        ($"content", JString (lm_content note)); ($"created_at", JString (time_text (lm_created_at note)))].
Definition note_opt_json (note : option LocalMemory) : Value :=
  match note with Some note => note_json note | None => JNull end.

(** ** The tools *)

Definition tool_core {A} (m : C A) (f : A -> V (result Value ToolError)) : V (result Value ToolError) :=
  let& r := call_core m in
  match r with
  | Ok a => f a
  | Err e => vret (Err (InvalidArguments (core_error_text e)))
  end.
(** An argument that does not decode ends the tool. *)
Definition tool_argument {A} (r : result A ToolError) (f : A -> V (result Value ToolError))
  : V (result Value ToolError) :=
  match r with Ok a => f a | Err e => vret (Err e) end.
Definition done_with (fields : list (list N * Value)) : V (result Value ToolError) := vret (Ok (json fields)).

(** [rposition] of a message of the user *)
Fixpoint last_user_position (from : nat) (history : list Message) : option nat :=
  match history with
  | [] => None
  | m :: rest =>
    match last_user_position (S from) rest with
    | Some i => Some i
    | None => if bool_decide (m_role m = User) then Some from else None
    end
  end.

Definition context_tool_output (session : Session) (tool_call : ToolCall) : V (result Value ToolError) :=
  let arguments := tc_arguments tool_call in
  let sid := s_id session in
  let root := s_workspace_root session in
  let page f := tool_argument (offset_argument arguments) (fun offset =>
                tool_argument (limit_argument arguments) (fun limit =>
                f (N.to_nat offset) (N.to_nat limit))) in
  let messages l := let& vs := history_messages_for_tool l in done_with [($"messages", JArray vs)] in
  match tc_name tool_call with
  | NewContext =>
    tool_core (core_messages sid) (fun history =>
    match last_user_position 0 history with
    | None => vret (Err (InvalidArguments $"new_context requires a current user message"))
    | Some start =>
      tool_core (core_create_context_window sid start) (fun window_index =>
      done_with [($"window_index", JInt (Z.of_nat window_index));
                 ($"start_message_count", JInt (Z.of_nat start));
                 ($"preserved_message_count", JInt (Z.of_nat (length history)))])
    end)
  | HistoryList => page (fun offset limit => tool_core (history_page sid offset limit) messages)
  | HistoryRead =>
    tool_argument (strict_uuid_argument arguments $"message_id") (fun id =>
    tool_core (history_message sid id) (fun message =>
    match message with
    | Some m => let& v := history_message_for_tool true m in done_with [($"message", v)]
    | None => done_with [($"message", JNull)]
    end))
  | HistorySearch =>
    tool_argument (strict_nonempty_string arguments $"query") (fun query =>
    page (fun offset limit => tool_core (search_history sid query offset limit) messages))
  | NotesList =>
    page (fun offset limit => tool_core (local_memories_page root offset limit) (fun notes =>
    done_with [($"notes", JArray (map note_json notes))]))
  | NotesRead =>
    tool_argument (strict_uuid_argument arguments $"note_id") (fun id =>
    tool_core (local_memory root id) (fun note => done_with [($"note", note_opt_json note)]))
  | NotesSearch =>
    tool_argument (strict_nonempty_string arguments $"query") (fun query =>
    page (fun offset limit => tool_core (core_search_local_memories root query offset limit) (fun notes =>
    done_with [($"notes", JArray (map note_json notes))])))
  | NotesAppend =>
    tool_argument (strict_note_content arguments) (fun content =>
    tool_core (core_save_local_memory root content) (fun note => done_with [($"note", note_opt_json note)]))
  | NotesWrite =>
    tool_argument (strict_uuid_argument arguments $"note_id") (fun id =>
    tool_argument (strict_note_content arguments) (fun content =>
    tool_core (core_replace_local_memory root id content) (fun note =>
    done_with [($"note", note_opt_json note)])))
  | _ => vret (Err (InvalidArguments $"tool is not managed by the agent runtime"))
  end.

Definition execute_context_management_tool (session : Session) (tool_call : ToolCall)
  : V (result ToolExecution ToolError) :=
  match validate_exact_object (tc_arguments tool_call) (allowed_context_tool_keys (tc_name tool_call)) with
  | Err e => vret (Err e)
  | Ok _ =>
    let& output := context_tool_output session tool_call in
    vret (match output with
          | Ok output => Ok (mkToolExecution output ($"Completed " ++ ToolName_as_str (tc_name tool_call)))
          | Err e => Err e
          end)
  end.
End Tools.
