(* ===== verification/AgentCallsFacts.v ===== *)
(** * What the codec of tool calls promises (crates/xcoding-agent/src/lib.rs)

    A call that was decoded is encoded again as the call it was, a rejected call keeps its
    identifier, what is replayed to the provider parses, and every offered tool decodes. *)

From S2P Require Import Prelude.
From S2P Require Import Protocol.
From S2P Require Import Sql.
From S2P Require Import Store.
From S2P Require Import StoreSteps.
From S2P Require Import Core.
From S2P Require Import CoreCalls.
From S2P Require Import Routing.
From S2P Require Import Transcript.
From S2P Require Import Text.
From S2P Require Import ToolArgs.
From S2P Require Import Compression.
From S2P Require Import Mcp.
From S2P Require Import ProviderWire.
From S2P Require Import Images.
From S2P Require Import History.
From S2P Require Import AgentCalls.
From S2P Require Import ContextTools.

(** ** Names *)

Lemma ToolName_from_str_spec name t :
  ToolName_from_str name = Some t <-> name = ToolName_as_str t.
Proof.
  split.
  - intros [_ Ht]%List.find_some. by apply str_eqb_true in Ht as <-.
  - intros ->. by destruct t; vm_compute.
Qed.

Lemma builtin_names_are_not_mcp t : decode_tool_name (ToolName_as_str t) = None.
Proof. by destruct t; vm_compute. Qed.

(** ** The codec *)

Section Codec.
Context `{Parse : JsonParse} `{Print : JsonText}.
Variable json_error : list N -> list N.

(** A call of the provider that decodes to a tool call, under any name but the bare
    mcp, is encoded again with the same identifier and name, and decodes to the same
    tool call again, when the parser reads what the printer wrote for its arguments. *)
Theorem tool_call_roundtrip call tc :
  ptc_name call <> $"mcp" -> protocol_tool_call json_error call = Ok tc ->
  (forall v, from_str (ptc_arguments call) = Some v -> from_str (json_text v) = Some v) ->
  exists pc, provider_tool_call tc = Ok pc /\ ptc_id pc = ptc_id call /\ ptc_name pc = ptc_name call /\
    protocol_tool_call json_error pc = Ok tc.
Proof.
  intros Hbare Hp Hv. unfold protocol_tool_call in Hp.
  destruct (from_str (ptc_arguments call)) as [v|] eqn:Ev.
  2: { by destruct (match decode_tool_name _ with Some _ => _ | None => _ end). }
  specialize (Hv v eq_refl). destruct (decode_tool_name (ptc_name call)) as [[server tool]|] eqn:Ed.
  - injection Hp as <-. pose proof Ed as (Hn & _ & _ & _)%decode_tool_name_Some.
    eexists. split; [reflexivity|]. split_and!; [done|done|].
    unfold protocol_tool_call. cbn [ptc_name ptc_arguments ptc_id]. rewrite <- Hn, Ed.
    change (or_else (json_get _ _) _) with v. by rewrite Hv.
  - destruct (ToolName_from_str (ptc_name call)) as [t|] eqn:Et; [|done]. injection Hp as <-.
    apply ToolName_from_str_spec in Et. unfold provider_tool_call. cbn [tc_name tc_arguments tc_id].
    rewrite bool_decide_false by (intros ->; by apply Hbare).
    eexists. split; [reflexivity|]. split_and!; [done|done|].
    unfold protocol_tool_call. cbn [ptc_name ptc_arguments ptc_id].
    by rewrite builtin_names_are_not_mcp, (proj2 (ToolName_from_str_spec _ t) eq_refl), Hv.
Qed.

(** A call that is rejected keeps its identifier; it has no tool exactly when no tool has
    the name, and otherwise its tool is one that could have been called and its
    arguments do not parse. *)
Theorem rejected_call_spec call r :
  protocol_tool_call json_error call = Err r ->
  rj_id r = ptc_id call /\
  match rj_tool_call r with
  | None => decode_tool_name (ptc_name call) = None /\ forall t, ptc_name call <> ToolName_as_str t
  | Some tc =>
    from_str (ptc_arguments call) = None /\ tc_id tc = ptc_id call /\ tc_arguments tc = JObject [] /\
    rj_reason r = malformed_arguments_reason json_error (ptc_arguments call) (ptc_truncated call)
  end.
Proof.
  unfold protocol_tool_call.
  destruct (decode_tool_name (ptc_name call)) as [[server tool]|] eqn:Ed.
  - destruct (from_str _) eqn:Ev; [done|]. intros [= <-]. by split_and!.
  - destruct (ToolName_from_str _) as [t|] eqn:Et.
    + destruct (from_str _) eqn:Ev; [done|]. intros [= <-]. by split_and!.
    + intros [= <-]. cbn [rj_id rj_tool_call]. split_and!; [done|done|]. intros t Ht.
      by rewrite (proj2 (ToolName_from_str_spec _ t) Ht) in Et.
Qed.

(** What is replayed to the provider has arguments that parse, whatever the provider
    sent; a call whose arguments parse is replayed with them. *)
Theorem replayed_call_parses call :
  is_Some (from_str $"{}") ->
  is_Some (from_str (ptc_arguments (replayable_provider_tool_call call))) /\
  ptc_id (replayable_provider_tool_call call) = ptc_id call /\
  ptc_name (replayable_provider_tool_call call) = ptc_name call /\
  (is_Some (from_str (ptc_arguments call)) ->
   ptc_arguments (replayable_provider_tool_call call) = ptc_arguments call).
Proof.
  intros He. unfold replayable_provider_tool_call. cbn [ptc_arguments ptc_id ptc_name].
  destruct (from_str (ptc_arguments call)) eqn:E; [|by split_and!; try done; intros []].
  rewrite E. by split_and!.
Qed.
End Codec.

(** ** The tools of a request *)

(** The names of the properties that a schema declares. *)
Definition schema_keys (parameters : Value) : list (list N) :=
  match json_get $"properties" parameters ≫= as_object with
  | Some fields => map fst fields
  | None => []
  end.

(** The builtin tools of a request have different names, and they are the tools of the
    protocol except MCP; each decodes to its tool; a context tool declares exactly the
    arguments that it accepts. *)
Theorem offered_tools_decode :
  NoDup (map td_name tool_definitions) /\
  (forall t, t <> Mcp <-> ToolName_as_str t ∈ map td_name tool_definitions) /\
  forall d t, d ∈ tool_definitions -> td_name d = ToolName_as_str t ->
    is_context_management_tool t = true ->
    forall key, key ∈ schema_keys (td_parameters d) <-> key ∈ allowed_context_tool_keys t.
Proof.
  split_and!.
  - apply (bool_decide_unpack _). by vm_compute.
  - intros t. split.
    + destruct t; try done; intros _; apply (bool_decide_unpack _); by vm_compute.
    + intros Hin ->. apply (bool_decide_pack _) in Hin. by vm_compute in Hin.
  - intros d t Hd Hn Hc. assert (Forall (fun d => forall t, td_name d = ToolName_as_str t ->
      is_context_management_tool t = true ->
      forallb (fun key => bool_decide (key ∈ allowed_context_tool_keys t)) (schema_keys (td_parameters d)) = true /\
      forallb (fun key => bool_decide (key ∈ schema_keys (td_parameters d))) (allowed_context_tool_keys t) = true)
      tool_definitions) as Hall.
    { clear. repeat (apply Forall_cons; split; [intros [] Hn Hc; first [discriminate Hc | by vm_compute in Hn | by vm_compute]|]). apply Forall_nil_2. }
    rewrite Forall_forall in Hall. specialize (Hall d Hd t Hn Hc) as [H1 H2].
    rewrite forallb_forall in H1, H2. setoid_rewrite bool_decide_eq_true in H1.
    setoid_rewrite bool_decide_eq_true in H2. setoid_rewrite <- list_elem_of_In in H1.
    setoid_rewrite <- list_elem_of_In in H2. intros key. split; auto.
Qed.

(** ** Witnesses *)

Definition in_quotes (s : list N) : list N := [34%N] ++ s ++ [34%N].
Definition demo_arguments : Value := json [($"query", JString $"fn main")].
Definition demo_text : list N :=
  $"{" ++ in_quotes $"query" ++ $":" ++ in_quotes $"fn main" ++ $"}".
Definition pretty_text : list N :=
  $"{ " ++ in_quotes $"query" ++ $" : " ++ in_quotes $"fn main" ++ $" }".

(** A parser and a printer that know two values, one of them in two spellings. *)
#[local] Instance two_values_parse : JsonParse := fun s =>
  if s =s $"{}" then Some (JObject [])
  else if (s =s demo_text) || (s =s pretty_text) then Some demo_arguments else None.
#[local] Instance two_values_text : JsonText := fun v =>
  match v with JObject (_ :: _) => demo_text | _ => $"{}" end.

Definition demo_call : ProviderToolCall :=
  mkProviderCall $"call_1" $"function" $"mcp__docs__search" pretty_text false.
Definition demo_tool_call : ToolCall :=
  mkToolCall $"call_1" Mcp
    (json [($"server", JString $"docs"); ($"tool", JString $"search"); ($"arguments", demo_arguments)]).

Lemma demo_reads v : from_str pretty_text = Some v -> from_str (json_text v) = Some v.
Proof. by vm_compute; intros [= <-]. Qed.

Lemma tool_call_roundtrip_witness :
  protocol_tool_call (fun s => s) demo_call = Ok demo_tool_call /\
  exists pc, provider_tool_call demo_tool_call = Ok pc /\ ptc_id pc = $"call_1" /\
    ptc_name pc = $"mcp__docs__search" /\ protocol_tool_call (fun s => s) pc = Ok demo_tool_call.
Proof.
  split; [by vm_compute|].
  apply (tool_call_roundtrip (fun s => s) demo_call demo_tool_call); [discriminate|by vm_compute|].
  apply demo_reads.
Defined.

Definition cut_call : ProviderToolCall :=
  mkProviderCall $"call_2" $"function" $"apply_patch" $"{" true.

Lemma rejected_call_spec_witness :
  exists r, protocol_tool_call (fun s => s) cut_call = Err r /\ rj_id r = $"call_2" /\
    rj_reason r = malformed_arguments_reason (fun s => s) $"{" true.
Proof.
  eexists. split; [by vm_compute|]. edestruct (rejected_call_spec (fun s => s) cut_call) as [Hi Hr].
  { by vm_compute. }
  split; [exact Hi|]. apply Hr.
Defined.

Lemma replayed_call_parses_witness :
  is_Some (from_str $"{}") /\
  is_Some (from_str (ptc_arguments (replayable_provider_tool_call cut_call))).
Proof. split; [eexists; by vm_compute|]. apply (replayed_call_parses cut_call). eexists; by vm_compute. Defined.

(** The bare name [mcp] decodes too, and then to a call that cannot be encoded. *)
Example bare_mcp_decodes :
  exists tc, protocol_tool_call (fun s => s) (mkProviderCall $"call_3" $"function" $"mcp" $"{}" false) = Ok tc /\
    provider_tool_call tc = Err (InvalidProviderToolCall $"mcp tool call is missing server").
Proof. eexists. split; by vm_compute. Qed.

(** ** What the context tools do to the service (crates/xcoding-agent/src/lib.rs)

    A context tool makes at most one call that changes the service, for the session that
    it was called in, and refuses arguments that it does not know before it does anything. *)

(** ** Computations that leave the service alone *)

Definition keeps {A} (v : V A) : Prop := forall c table, fst (snd (v (c, table))) = c.
Definition core_keeps {A} (m : C A) : Prop := forall c, snd (m c) = c.
Definition store_keeps {A} (m : M A) : Prop := forall st, snd (m st) = st.

Lemma lift_keeps {A} (m : M A) : store_keeps m -> core_keeps (lift m).
Proof.
  intros H c. unfold lift. specialize (H (store c)).
  destruct (m (store c)) as [[a|e] st]; cbn [snd] in *; subst st; by destruct c.
Qed.

Lemma keeps_vret {A} (a : A) : keeps (vret a).
Proof. done. Qed.

Lemma keeps_bind {A B} (m : V A) (f : A -> V B) : keeps m -> (forall a, keeps (f a)) -> keeps (vbind m f).
Proof.
  intros Hm Hf c table. unfold vbind. specialize (Hm c table).
  destruct (m (c, table)) as [a [c' table']]. cbn in Hm. subst c'. apply Hf.
Qed.

Lemma keeps_call {A} (m : C A) : core_keeps m -> keeps (call_core m).
Proof. intros Hm c table. unfold call_core. specialize (Hm c). by destruct (m c) as [r c']. Qed.

Section Facts.
Context {En : Env} {Hash : HashStrings} {Time : TimeText} {Ids : UuidParse}.
Variable core_error_text : CoreError -> list N.

Lemma cached_description_keeps key : keeps (cached_vision_description key).
Proof.
  intros c table. unfold cached_vision_description. destruct (table !! key); [done|].
  assert (core_keeps (vision_description key)) as Hk by (apply lift_keeps; intros st; reflexivity).
  specialize (Hk c). by destruct (vision_description key c) as [[[d|]|e] c'].
Qed.

Lemma history_message_keeps full m : keeps (history_message_for_tool full m).
Proof.
  unfold history_message_for_tool. destruct (match m_role m with User => _ | _ => _ end) as [text images].
  destruct (is_empty images); [apply keeps_vret|].
  apply keeps_bind; [apply cached_description_keeps|]. intros cached. apply keeps_vret.
Qed.

Lemma history_messages_keep l : keeps (history_messages_for_tool l).
Proof.
  induction l as [|m rest IH]; [apply keeps_vret|]. cbn [history_messages_for_tool].
  apply keeps_bind; [apply history_message_keeps|]. intros v.
  apply keeps_bind; [exact IH|]. intros vs. apply keeps_vret.
Qed.

(** The calls that a context tool may make: those of its kind, for the session or the
    workspace that it was called in, with the arguments that it was called with. *)
Definition context_call (session : Session) (tool_call : ToolCall) (k : CoreCall) : Prop :=
  let arguments := tc_arguments tool_call in
  match tc_name tool_call, k with
  | NewContext, CoreMessages sid | NewContext, CoreCreateContextWindow sid _
  | HistoryList, CoreHistoryPage sid _ _ => sid = s_id session
  | HistoryRead, CoreHistoryMessage sid id =>
    sid = s_id session /\ strict_uuid_argument arguments $"message_id" = Ok id
  | HistorySearch, CoreSearchHistory sid query _ _ =>
    sid = s_id session /\ strict_nonempty_string arguments $"query" = Ok query
  | NotesAppend, CoreSaveLocalMemory root content =>
    root = s_workspace_root session /\ strict_note_content arguments = Ok content
  | NotesWrite, CoreReplaceLocalMemory root id content =>
    root = s_workspace_root session /\ strict_uuid_argument arguments $"note_id" = Ok id /\
    strict_note_content arguments = Ok content
  | _, _ => False
  end.

Definition makes {A} (P : CoreCall -> Prop) (v : V A) : Prop := forall c table,
  exists ks, Forall P ks /\ fst (snd (v (c, table))) = run_core_calls ks c.

Lemma makes_keeps {A} P (v : V A) : keeps v -> makes P v.
Proof. intros Hv c table. exists []. split; [constructor|apply Hv]. Qed.

Lemma makes_bind {A B} P (m : V A) (f : A -> V B) :
  makes P m -> (forall a, makes P (f a)) -> makes P (vbind m f).
Proof.
  intros Hm Hf c table. unfold vbind. destruct (Hm c table) as (ks & Hks & Hc).
  destruct (m (c, table)) as [a [c' table']]. cbn in Hc. subst c'.
  destruct (Hf a (run_core_calls ks c) table') as (ks' & Hks' & Hc'). exists (ks ++ ks').
  split; [by apply Forall_app|]. rewrite Hc'. unfold run_core_calls. by rewrite foldl_app.
Qed.

(** A call of the service, and then what it leads to. *)
Lemma makes_core {A} (P : CoreCall -> Prop) k (m : C A) f :
  (forall c, snd (m c) = run_core_call k c) -> P k -> (forall a, makes P (f a)) ->
  makes P (tool_core core_error_text m f).
Proof.
  intros Hm Hk Hf. unfold tool_core. apply makes_bind.
  - intros c table. exists [k]. split; [by repeat constructor|]. cbn. rewrite <- Hm.
    unfold call_core. by destruct (m c).
  - intros [a|e]; [apply Hf|by apply makes_keeps].
Qed.

(** A call that reads nothing but the tables of the service. *)
Lemma makes_core_keeps {A} P (m : C A) f :
  core_keeps m -> (forall a, makes P (f a)) -> makes P (tool_core core_error_text m f).
Proof.
  intros Hm Hf. unfold tool_core. apply makes_bind; [by apply makes_keeps, keeps_call|].
  intros [a|e]; [apply Hf|by apply makes_keeps].
Qed.

Lemma makes_argument {A} (P : CoreCall -> Prop) (r : result A ToolError) f :
  (forall a, r = Ok a -> makes P (f a)) -> makes P (tool_argument r f).
Proof. intros Hf. destruct r as [a|e]; [by apply Hf|]. by apply makes_keeps. Qed.

Lemma makes_messages P l :
  makes P (let& vs := history_messages_for_tool l in done_with [($"messages", JArray vs)]).
Proof. apply makes_keeps, keeps_bind; [apply history_messages_keep|]. intros vs. apply keeps_vret. Qed.

Lemma notes_page_keeps root offset limit : core_keeps (local_memories_page root offset limit).
Proof.
  apply lift_keeps. intros st. unfold list_local_memories_page, validate_context_tool_page, bind, guard.
  by destruct (_ && _).
Qed.
Lemma notes_search_keeps root q offset limit : core_keeps (core_search_local_memories root q offset limit).
Proof.
  apply lift_keeps. intros st. unfold search_local_memories, validate_context_tool_page, bind, guard.
  destruct (negb _); [|done]. by destruct (_ && _).
Qed.
Lemma note_keeps root id : core_keeps (local_memory root id).
Proof. by apply lift_keeps. Qed.

Ltac makes_step :=
  match goal with
  | |- makes _ (tool_argument _ _) => apply makes_argument; intros ? ?
  | |- makes _ (tool_core _ (local_memories_page _ _ _) _) =>
      apply makes_core_keeps; [apply notes_page_keeps|intros ?]
  | |- makes _ (tool_core _ (core_search_local_memories _ _ _ _) _) =>
      apply makes_core_keeps; [apply notes_search_keeps|intros ?]
  | |- makes _ (tool_core _ (local_memory _ _) _) => apply makes_core_keeps; [apply note_keeps|intros ?]
  | |- makes _ (vret _) => by apply makes_keeps
  | |- makes _ (done_with _) => by apply makes_keeps
  | |- makes _ (vbind (history_message_for_tool _ _) _) =>
      apply makes_keeps, keeps_bind; [apply history_message_keeps|intros ?; apply keeps_vret]
  | |- makes _ (match ?x with _ => _ end) => destruct x
  end.

Lemma context_output_makes session tool_call :
  makes (context_call session tool_call) (context_tool_output core_error_text session tool_call).
Proof.
  unfold context_tool_output. destruct (tc_name tool_call) eqn:Hn; try by apply makes_keeps.
  - apply (makes_core _ (CoreMessages (s_id session))); [done|by unfold context_call; rewrite Hn|].
    intros history. destruct (last_user_position 0 history) as [start|]; [|by makes_step].
    apply (makes_core _ (CoreCreateContextWindow (s_id session) start));
      [done|by unfold context_call; rewrite Hn|]. intros w. makes_step.
  - do 2 makes_step. eapply (makes_core _ (CoreHistoryPage _ _ _));
      [done|by unfold context_call; rewrite Hn|apply makes_messages].
  - makes_step. eapply (makes_core _ (CoreHistoryMessage _ _)); [done|by unfold context_call; rewrite Hn|].
    intros m. repeat makes_step.
  - do 3 makes_step. eapply (makes_core _ (CoreSearchHistory _ _ _ _));
      [done|by unfold context_call; rewrite Hn|apply makes_messages].
  - repeat makes_step.
  - repeat makes_step.
  - repeat makes_step.
  - makes_step. eapply (makes_core _ (CoreSaveLocalMemory _ _)); [done|by unfold context_call; rewrite Hn|].
    intros n. repeat makes_step.
  - do 2 makes_step. eapply (makes_core _ (CoreReplaceLocalMemory _ _ _));
      [done|by unfold context_call; rewrite Hn|]. intros n. repeat makes_step.
Qed.

Lemma context_tool_makes session tool_call :
  makes (context_call session tool_call)
    (execute_context_management_tool core_error_text session tool_call).
Proof.
  unfold execute_context_management_tool. destruct (validate_exact_object _ _); [|by apply makes_keeps].
  apply makes_bind; [apply context_output_makes|]. intros o. by apply makes_keeps.
Qed.

(** A context tool changes the service only by calls of its own kind, for the
    session and the workspace that it was called in and with its decoded arguments;
    reading and searching notes changes nothing. *)
Theorem context_tool_effects session tool_call c table :
  exists ks, Forall (context_call session tool_call) ks /\
    fst (snd (execute_context_management_tool core_error_text session tool_call (c, table)))
    = run_core_calls ks c.
Proof. apply context_tool_makes. Qed.

(** Arguments that are not an object, or name a key that the tool does not have, are
    refused with the first such key, and nothing else happens. *)
Theorem context_tool_strict session tool_call state :
  match as_object (tc_arguments tool_call) with
  | None => execute_context_management_tool core_error_text session tool_call state
            = (Err (InvalidArguments $"tool arguments must be a JSON object"), state)
  | Some fields =>
    forall key, List.find (fun key => negb (one_of key (allowed_context_tool_keys (tc_name tool_call))))
                  (map fst fields) = Some key ->
      execute_context_management_tool core_error_text session tool_call state
      = (Err (InvalidArguments ($"unknown tool argument " ++ quoted key)), state)
  end.
Proof.
  unfold execute_context_management_tool, validate_exact_object.
  destruct (as_object _) as [fields|]; [|done]. by intros key ->.
Qed.
End Facts.
