(* ===== verification/Agent.v ===== *)
(** * The state of an agent (crates/xcoding-agent/src/lib.rs)

    What a turn works on: the core service, which other clients use at the same time, the
    world of the tools, the tables of the process, the events it has emitted and the
    requests it has sent.  The file has the monad of the turn, its access to all of
    these, and the operations that every part of a turn uses. *)

From Stdlib Require Import SpecFloat.
From S2P Require Import Prelude.
From S2P Require Import Protocol.
From S2P Require Import Sql.
From S2P Require Import Store.
From S2P Require Import Core.
From S2P Require Import CoreCalls.
From S2P Require Import Routing.
From S2P Require Import Transcript.
From S2P Require Import Text.
From S2P Require Import Files.
From S2P Require Import ToolArgs.
From S2P Require Import Tools.
From S2P Require Import Mcp.
From S2P Require Import Secrets.
From S2P Require Import SecretRefs.
From S2P Require Import ProviderConfig.
From S2P Require Import ProviderStream.
From S2P Require Import Images.
From S2P Require Import History.
From S2P Require Import Vision.
From S2P Require Import ContextTools.

(** ** Configuration *)

(** The fields of [UserConfig] that a turn reads. *)
Record TurnSettings := mkTurnSettings {
  us_routing : UserConfig;
  us_local_relay_api_key : option str;
  us_max_provider_retries : nat;
  us_max_tool_rounds : nat;
  us_stream_first_event_timeout_secs : Z;
  us_stream_idle_timeout_secs : Z;
  us_circuit : CircuitSettings;
  us_reasoning_effort : str;
  us_tool_output_compression_enabled : bool;
  us_lossy_context_compaction_enabled : bool;
  us_context_compaction_threshold_percent : Z;
  us_model_context_windows : list (list N * Z);
  us_model_capabilities : list (list N * bool);
  us_local_memory_enabled : bool;
  us_tool_memory_enabled : bool;
  us_skip_local_api_confirmation : bool;
  us_custom_instructions : option str;
  us_personality : str;
  us_vision_delegate : option VisionDelegateConfig;
}.

(** ** Requests *)

(** [OpenAiCompatibleProvider]; its HTTP client is not modelled. *)
Record OpenAiCompatibleProvider := mkOpenProvider {
  op_api_key : str; op_base_url : str; op_wire_api : ProviderWireApi; op_prompt_cache_key : str }.

Definition provider_chat_url (p : OpenAiCompatibleProvider) : str :=
  chat_url (op_base_url p) (op_wire_api p).

Record ProviderRequest := mkRequest {
  rq_provider : OpenAiCompatibleProvider;
  rq_model : str;
  rq_messages : list ChatMessage;
  rq_definitions : list ToolDefinition;
  rq_reasoning_effort : option str;
}.

(** What happens next on the stream of a chat: one of the arms of the [select!].  The
    end of the list is the end of the stream. *)
Inductive Happening :=
| Arrived (e : ProviderEvent)
| Broken (e : ProviderError)
| DeadlinePassed
| Tick.
(** How the request is answered; [NotAnswered] when the timeout comes first. *)
Inductive Opening := Opened (l : list Happening) | Refused (e : ProviderError) | NotAnswered.

(** The stream of a request for a summary, for facts or for a description. *)
Inductive SideHappening := SideArrived (e : ProviderEvent) | SideBroken (e : ProviderError) | SideIdle.

(** What comes from outside.  Every question of the turn has a number; [others] are the
    calls that other clients make to the service before the access of that number. *)
Class Outside := {
  others : nat -> list CoreCall;
  load_user_config : nat -> TurnSettings;
  load_plugin_config : nat -> PluginConfig;
  process_env : nat -> ProcEnv;                            (** after [bootstrap_credentials] *)
  chat_answer : nat -> ProviderRequest -> Opening;
  side_answer : nat -> ProviderRequest -> result (list SideHappening) ProviderError;
  cancel_polls : nat -> nat;                               (** rounds of [wait_until_cancelled] *)
  elapsed_ms : nat -> N;
  git_in_time : nat -> bool;                               (** within the three seconds *)
  current_dir : list (list N);
}.

(** The texts of the errors of the other crates. *)
Class ErrorTexts := {
  core_error_text : CoreError -> list N;
  http_error_text : HttpFailure -> list N;
}.

(** ** The state *)

(** A request that has been sent, with the trust in its receiver and the secrets that
    were known then. *)
Record SentRequest := mkSent {
  sn_trust : ProviderTrustLevel; sn_known : list (list N); sn_request : ProviderRequest }.

(** [ag_requests] is history that no operation reads. *)
Record AgentState := mkAgent {
  ag_core : CoreService;
  ag_world : World;
  ag_runtime : Runtime;
  ag_registry : Registry;
  ag_known : list (list N);
  ag_table : VisionTable;
  ag_calibrations : Calibrations;
  ag_events : list SessionEvent;
  ag_requests : list SentRequest;
  ag_step : nat;
}.

(** A turn ends early with an error, in a panic, or because the rounds of the model are
    used up. *)
Inductive Stop := Failure (e : AgentError) | Panicked (m : str) | OutOfFuel.

Definition G (A : Type) : Type := AgentState -> result A Stop * AgentState.
Definition gret {A} (a : A) : G A := fun s => (Ok a, s).
Definition gstop {A} (e : Stop) : G A := fun s => (Err e, s).
Definition gfail {A} (e : AgentError) : G A := gstop (Failure e).
Definition gbind {A B} (m : G A) (f : A -> G B) : G B := fun s =>
  match m s with
  | (Ok a, s') => f a s'
  | (Err e, s') => (Err e, s')
  end.
Notation "'let^' x := m 'in' k" := (gbind m (fun x => k))
  (at level 10, x pattern, m at level 100, k at level 200) : xc_scope.
Notation "m ;;^ k" := (gbind m (fun _ => k)) (at level 100, right associativity) : xc_scope.

(** [match m { Err(error) => .. }] *)
Definition gcatch {A} (m : G A) (handler : AgentError -> G A) : G A := fun s =>
  match m s with
  | (Err (Failure e), s') => handler e s'
  | r => r
  end.

(** ** Access *)

Definition set_core (c : CoreService) (s : AgentState) : AgentState :=
  mkAgent c (ag_world s) (ag_runtime s) (ag_registry s) (ag_known s) (ag_table s) (ag_calibrations s)
    (ag_events s) (ag_requests s) (ag_step s).
Definition set_step (n : nat) (s : AgentState) : AgentState :=
  mkAgent (ag_core s) (ag_world s) (ag_runtime s) (ag_registry s) (ag_known s) (ag_table s)
    (ag_calibrations s) (ag_events s) (ag_requests s) n.
Definition set_world (w : World) (s : AgentState) : AgentState :=
  mkAgent (ag_core s) w (ag_runtime s) (ag_registry s) (ag_known s) (ag_table s) (ag_calibrations s)
    (ag_events s) (ag_requests s) (ag_step s).
Definition set_runtime (rt : Runtime) (s : AgentState) : AgentState :=
  mkAgent (ag_core s) (ag_world s) rt (ag_registry s) (ag_known s) (ag_table s) (ag_calibrations s)
    (ag_events s) (ag_requests s) (ag_step s).
Definition set_registry (g : Registry) (s : AgentState) : AgentState :=
  mkAgent (ag_core s) (ag_world s) (ag_runtime s) g (ag_known s) (ag_table s) (ag_calibrations s)
    (ag_events s) (ag_requests s) (ag_step s).
Definition set_known (known : list str) (s : AgentState) : AgentState :=
  mkAgent (ag_core s) (ag_world s) (ag_runtime s) (ag_registry s) known (ag_table s) (ag_calibrations s)
    (ag_events s) (ag_requests s) (ag_step s).
Definition set_table (t : VisionTable) (s : AgentState) : AgentState :=
  mkAgent (ag_core s) (ag_world s) (ag_runtime s) (ag_registry s) (ag_known s) t (ag_calibrations s)
    (ag_events s) (ag_requests s) (ag_step s).
Definition set_calibrations (t : Calibrations) (s : AgentState) : AgentState :=
  mkAgent (ag_core s) (ag_world s) (ag_runtime s) (ag_registry s) (ag_known s) (ag_table s) t
    (ag_events s) (ag_requests s) (ag_step s).
Definition log_event (e : SessionEvent) (s : AgentState) : AgentState :=
  mkAgent (ag_core s) (ag_world s) (ag_runtime s) (ag_registry s) (ag_known s) (ag_table s)
    (ag_calibrations s) (ag_events s ++ [e]) (ag_requests s) (ag_step s).
Definition log_request (trust : ProviderTrustLevel) (rq : ProviderRequest) (s : AgentState) : AgentState :=
  mkAgent (ag_core s) (ag_world s) (ag_runtime s) (ag_registry s) (ag_known s) (ag_table s)
    (ag_calibrations s) (ag_events s) (ag_requests s ++ [mkSent trust (ag_known s) rq]) (ag_step s).

(** The number of the next question. *)
Definition draw : G nat := fun s => (Ok (ag_step s), set_step (S (ag_step s)) s).

Definition get_known : G (list (list N)) := fun s => (Ok (ag_known s), s).
Definition get_calibrations : G Calibrations := fun s => (Ok (ag_calibrations s), s).
Definition modify (f : AgentState -> AgentState) : G unit := fun s => (Ok tt, f s).

(** A computation of another component on its part of the state. *)
Definition tool {A} (m : T A) : G (result A ToolError) := fun s =>
  let '(r, w) := m (ag_world s) in (Ok r, set_world w s).
Definition routing {A} (m : R A) : G A := fun s =>
  let '(a, rt) := m (ag_runtime s) in (Ok a, set_runtime rt s).
Definition references {A} (m : X A) : G A := fun s =>
  let '(a, g) := m (ag_registry s) in (Ok a, set_registry g s).
Definition get_registry : G Registry := fun s => (Ok (ag_registry s), s).

Section Access.
Context {O : Outside} {Text_ : ErrorTexts} {En : Env}.

Definition core_failure (e : CoreError) : AgentError :=
  AgentCore (match e with CoreInvalidInput m => Some m | _ => None end) (core_error_text e).

(** What the other clients do before this access. *)
Definition interference : G unit := fun s =>
  (Ok tt, set_step (S (ag_step s)) (set_core (run_core_calls (others (ag_step s)) (ag_core s)) s)).

(** A call of the service, as a result. *)
Definition access {A} (m : C A) : G (result A CoreError) :=
  interference ;;^
  fun s => let '(r, c) := m (ag_core s) in (Ok r, set_core c s).

(** The call with [?]. *)
Definition access_or_fail {A} (m : C A) : G A :=
  let^ r := access m in
  match r with
  | Ok a => gret a
  | Err e => gfail (core_failure e)
  end.

(** A call of the service and of the table of descriptions. *)
Definition access_vision {A} (m : V A) : G A :=
  interference ;;^
  fun s => let '(a, (c, t)) := m (ag_core s, ag_table s) in (Ok a, set_table t (set_core c s)).

(** [register_known_secrets(&load_user_config())]; the configuration that was loaded. *)
Definition register_secrets (config : TurnSettings) : G unit :=
  let^ n := draw in
  modify (fun s => set_known (register_known_secrets (us_routing config) (us_local_relay_api_key config)
                                (process_env n !! OPENAI_API_KEY) (ag_known s)) s).
Definition user_config : G TurnSettings := let^ n := draw in gret (load_user_config n).
Definition plugin_config : G PluginConfig := let^ n := draw in gret (load_plugin_config n).
Definition elapsed : G N := let^ n := draw in gret (elapsed_ms n).

(** [open_provider] with [OpenAiCompatibleProvider::from_environment] for a candidate
    without a key; [env] is the environment after [bootstrap_credentials]. *)
Definition open_with (env : ProcEnv) (candidate : ProviderCandidate) (sid : uuid)
  : result OpenAiCompatibleProvider AgentError :=
  match pc_api_key candidate with
  | Some key => Ok (mkOpenProvider key (api_root_url (pc_base_url candidate)) (pc_wire_api candidate)
                      (uuid_text sid))
  | None =>
    match present_key (env !! OPENAI_API_KEY) with
    | None => Err (AgentProvider MissingApiKey)
    | Some key =>
      Ok (mkOpenProvider key (api_root_url (default DEFAULT_BASE_URL (env !! XCODING_OPENAI_BASE_URL)))
            ChatCompletions (uuid_text sid))
    end
  end.
Definition open_provider (candidate : ProviderCandidate) (sid : uuid)
  : G (result OpenAiCompatibleProvider AgentError) :=
  let^ n := draw in gret (open_with (process_env n) candidate sid).

(** ** Texts of errors *)

Definition ProviderError_to_string (e : ProviderError) : str :=
  match e with
  | MissingApiKey =>
    $"OPENAI_API_KEY is not set. Configure it in Desktop Settings (~/.xcoding/config.json), set the environment variable, or use a repo-root .env file. Optionally set XCODING_OPENAI_BASE_URL for an OpenAI-compatible endpoint."
  | Http e => $"provider request failed: " ++ http_error_text e
  | InvalidResponse m => $"invalid provider response: " ++ m
  | HttpStatus status body _ => format_http_status_message status body
  | EmptyStream status body =>
    $"model returned an empty response; please retry. HTTP " ++ show_status status
    ++ $"; response body: " ++ body
  | Routing.Utf8 m => $"invalid UTF-8 in provider stream: " ++ m
  | StreamJson m => $"invalid OpenAI-compatible stream event: " ++ m
  | InvalidToolCall m => $"invalid tool call from provider: " ++ m
  | StreamDisconnected m => $"stream disconnected before completion: " ++ m
  end.

Definition AgentError_to_string (e : AgentError) : str :=
  match e with
  | AgentCore _ m | AgentTool m | AgentMcp m => m
  | AgentProvider e => ProviderError_to_string e
  | UnsupportedProvider m => $"unsupported provider: " ++ m
  | InvalidProviderToolCall m => $"invalid tool call from provider: " ++ m
  | LeakedToolProtocol m => $"model returned leaked DSML tool-call markup as text: " ++ m
  | ToolCallLimit => $"model exceeded the tool-call limit"
  | ProviderStreamFirstEventTimeout secs =>
    $"provider stream did not return its first event within " ++ show_status secs
    ++ $" seconds; please retry"
  | ProviderStreamIdleTimeout secs =>
    $"provider stream was idle for " ++ show_status secs
    ++ $" seconds without a response event; please retry"
  | ProviderFallbackExhausted m => $"all configured providers are unavailable: " ++ m
  | EmptyProviderResponse => $"model returned an empty response; please retry"
  | HistoricalToolEcho =>
    $"model repeated historical tool output instead of answering; please retry or start a new context"
  | ProviderBusyResponse m => $"provider returned a transient busy response: " ++ m
  | SensitiveDataBlocked category location provider =>
    $"sensitive content blocked from relay provider: provider=" ++ provider ++ $", category="
    ++ category ++ $", location=" ++ location ++ $"; 请移除敏感内容或切换到可信供应商"
  | ModelMismatch requested reported =>
    $"provider reported model `" ++ reported ++ $"` instead of requested model `" ++ requested ++ $"`"
  | AgentCancelled => $"session cancelled"
  end.

Definition block_error (b : SensitiveContentBlock) : AgentError :=
  SensitiveDataBlocked (sb_category b) (sb_location b) (sb_provider b).

(** ** Events *)

Definition should_persist_session_event (e : SessionEvent) : bool :=
  match e with EvTextDelta _ _ => false | _ => true end.

Section Redaction.
Variable known : list str.

Definition redact_sensitive_text_output (output : str) : str :=
  redact_sensitive_text_with_api_key known output None.
Definition redact_tool_call_for_event (tool_call : ToolCall) : ToolCall :=
  mkToolCall (tc_id tool_call) (tc_name tool_call)
    (redact_sensitive_json_value known (tc_arguments tool_call)).
Definition redact_tool_call_event (e : SessionEvent) : SessionEvent :=
  match e with
  | EvToolStart sid tool_call summary =>
    EvToolStart sid (redact_tool_call_for_event tool_call) (redact_sensitive_text_output summary)
  | EvToolEnd sid tool_call success summary =>
    EvToolEnd sid (redact_tool_call_for_event tool_call) success (redact_sensitive_text_output summary)
  | EvApprovalRequested sid action summary =>
    EvApprovalRequested sid
      (mkPendingAction (pa_id action) (pa_session_id action)
         (redact_tool_call_for_event (pa_tool_call action)) (pa_status action) (pa_created_at action)
         (pa_resolved_at action))
      (redact_sensitive_text_output summary)
  | e => e
  end.
End Redaction.

Definition emit (e : SessionEvent) : G unit :=
  let^ known := get_known in
  let e := redact_tool_call_event known e in
  (if should_persist_session_event e
   then let^ _ := access (core_record_event e) in gret tt
   else gret tt) ;;^
  modify (log_event e).

(** The numbers of a call of a model, as they stand in its event. *)
Record CallReport := mkReport {
  rp_round : nat; rp_attempt : nat; rp_max_attempts : nat; rp_success : bool;
  rp_output_chars : nat; rp_tool_calls : nat; rp_error : option str;
  rp_model_reported : option str; rp_prompt_tokens : option N;
  rp_ttft_ms : option N; rp_total_ms : option N }.

Definition emit_model_call_with_reported (session : Session) (candidate : ProviderCandidate)
    (effective_model endpoint purpose : str) (r : CallReport) : G unit :=
  emit (EvModelCall (s_id session)
    (mkModelCall (s_provider session) (pc_id candidate) (pc_name candidate) (pc_key_id candidate)
       (Some (provider_key_hint (pc_api_key candidate))) (s_model session) effective_model endpoint purpose
       (N.of_nat (rp_round r)) (N.of_nat (rp_attempt r)) (N.of_nat (rp_max_attempts r)) (rp_success r)
       (rp_output_chars r) (rp_tool_calls r) (rp_error r) (rp_model_reported r) (rp_ttft_ms r)
       (rp_total_ms r) (option_map N.to_nat (rp_prompt_tokens r)))).

(** ** Cancellation *)

Definition is_cancelled (sid : uuid) : G bool :=
  let^ r := access (is_session_cancelled sid) in
  gret (match r with Ok b => b | Err _ => false end).

Definition persist_partial_assistant_output (sid : uuid) (content : str) : G unit :=
  let content := trim_end_matches is_whitespace content in
  if is_empty content then gret tt
  else
    let^ messages := access (core_messages sid) in
    let repeated := match messages with
                    | Ok messages =>
                      match last messages with
                      | Some m => bool_decide (m_role m = Assistant) && (m_content m =s content)
                      | None => false
                      end
                    | Err _ => false
                    end in
    if repeated then gret tt
    else let^ _ := access (record_assistant_message sid content) in gret tt.

(** Whether the session is cancelled; then what was streamed is kept. *)
Definition cancelled_preserving (sid : uuid) (partial_assistant : str) : G bool :=
  let^ cancelled := is_cancelled sid in
  if cancelled
  then persist_partial_assistant_output sid partial_assistant ;;^ gret true
  else gret false.

Definition ensure_not_cancelled_preserving (sid : uuid) (partial_assistant : str) : G unit :=
  let^ cancelled := cancelled_preserving sid partial_assistant in
  if cancelled then gfail AgentCancelled else gret tt.

(** The rounds of [wait_until_cancelled] before the other arm is ready. *)
Fixpoint poll_cancelled (polls : nat) (sid : uuid) : G bool :=
  match polls with
  | 0 => gret false
  | S polls =>
    let^ cancelled := is_cancelled sid in
    if cancelled then gret true else poll_cancelled polls sid
  end.

(** The arm of the cancellation is asked first; both arms end in the same check. *)
Definition wait_for_retry_delay (sid : uuid) (partial_assistant : str) : G unit :=
  let^ n := draw in
  let^ _ := poll_cancelled (S (cancel_polls n)) sid in
  ensure_not_cancelled_preserving sid partial_assistant.

Definition is_cancel_event (e : PersistedSessionEvent) : bool :=
  match pe_event e with EvSessionCancelled _ _ => true | _ => false end.

Definition cancelled_result (sid : uuid) : G ChatResult :=
  let^ session := access_or_fail (session sid) in
  if negb (bool_decide (s_status session = Cancelled)) then gret (mkChatResult session None)
  else
    let^ detail := access (session_detail sid) in
    let already_recorded := match detail with
                            | Ok detail => existsb is_cancel_event (sd_events detail)
                            | Err _ => false
                            end in
    (if already_recorded then gret tt
     else emit (EvSessionCancelled sid $"Session cancelled by user")) ;;^
    gret (mkChatResult session None).
End Access.
