(* ===== verification/AgentTools.v ===== *)
(** * Tools in a turn (crates/xcoding-agent/src/lib.rs)

    A tool call of a turn is executed and its output recorded; what cannot be decoded or
    is not allowed is recorded as an error.  The summary of a finished task. *)

From S2P Require Import Prelude.
From S2P Require Import Protocol.
From S2P Require Import Policy.
From S2P Require Import Sql.
From S2P Require Import Store.
From S2P Require Import Core.
From S2P Require Import Routing.
From S2P Require Import Transcript.
From S2P Require Import Text.
From S2P Require Import Files.
From S2P Require Import ToolArgs.
From S2P Require Import ToolText.
From S2P Require Import Tools.
From S2P Require Import ToolGit.
From S2P Require Import ToolCommand.
From S2P Require Import ToolSearch.
From S2P Require Import ToolGate.
From S2P Require Import Compression.
From S2P Require Import Mcp.
From S2P Require Import Secrets.
From S2P Require Import SecretRefs.
From S2P Require Import ProviderWire.
From S2P Require Import Images.
From S2P Require Import History.
From S2P Require Import AgentCalls.
From S2P Require Import ContextTools.
From S2P Require Import Agent.

(** ** Plans *)

(** The derived decoders of [PlanStepStatus] and [PlanStep]. *)
Definition decode_step_status (value : option Value) : option PlanStepStatus :=
  match value with
  | None => Some StepPending
  | Some (JString text) =>
    if text =s $"pending" then Some StepPending
    else if text =s $"in_progress" then Some StepInProgress
    else if text =s $"done" then Some StepDone else None
  | Some _ => None
  end.
Definition decode_step (value : Value) : option PlanStep :=
  match json_get $"id" value ≫= as_str, json_get $"description" value ≫= as_str,
        decode_step_status (json_get $"status" value) with
  | Some id, Some description, Some status => Some (mkPlanStep id description status)
  | _, _, _ => None
  end.

Definition parse_plan_steps (output : Value) : option (list PlanStep) :=
  match json_get $"steps" output ≫= as_array with
  | None => None
  | Some items =>
    match mapM decode_step items with
    | Some (step :: steps) => Some (step :: steps)
    | _ => None
    end
  end.

Section Tools.
Context {O : Outside} {Text_ : ErrorTexts} {En : Env}.
Context `{Disk} `{Child} `{Git} `{Serde} `{IoText} `{UnicodeCase} `{Stopwatch} `{Home} `{Peer}.
Context {Print : JsonText} {Parse : JsonParse} {Hash : HashStrings} {Time : TimeText} {Ids : UuidParse}.
(** The text of the error of [serde_json::from_str]. *)
Variable json_error : list N -> list N.

(** The workspace of a session as a path. *)
Definition workspace_path (session : Session) : apath := join_path current_dir (s_workspace_root session).

(** ** Recording *)

(** [redact_sensitive_tool_output] with the secrets known now. *)
Definition redacted_output (output : str) : G str :=
  let^ known := get_known in gret (redact_sensitive_tool_output known output).

Definition record_tool_error (session : Session) (tool_call : ToolCall) (error : ToolError) : G str :=
  let^ output := redacted_output (json_text (tool_result_value error)) in
  let^ _ := access_or_fail (record_tool_message (s_id session) output) in
  emit (EvToolEnd (s_id session) tool_call false (ToolError_to_string error)) ;;^
  gret output.

Definition record_rejected_tool_call (session : Session) (rejected : RejectedToolCall) : G (str * str) :=
  let error := InvalidArguments (rj_reason rejected) in
  match rj_tool_call rejected with
  | None =>
    let^ output := redacted_output (json_text (tool_result_value error)) in
    let^ _ := access_or_fail (record_tool_message (s_id session) output) in
    gret (rj_id rejected, output)
  | Some tool_call =>
    emit (EvToolStart (s_id session) tool_call ($"Rejected " ++ ToolName_as_str (tc_name tool_call))) ;;^
    let^ output := record_tool_error session tool_call error in
    gret (rj_id rejected, output)
  end.

(** ** Execution *)

Record RecordedToolOutput := mkRecorded {
  ro_output : str; ro_raw_output : str; ro_new_context_start : option nat; ro_message_id : option uuid }.
Definition recorded_error (output : str) : RecordedToolOutput := mkRecorded output output None None.

Definition registry_for (session : Session) (plugin : PluginConfig) : T ToolRegistry :=
  new_with_plugin_config (workspace_path session) (pc_skill_enabled plugin).

(** The execution behind the kind of the tool, and the MCP sessions after it.  The
    worker of a command reads the lists of the workspace again. *)
Definition execution_of (session : Session) (plugin : PluginConfig) (tools : ToolRegistry)
    (tool_call : ToolCall) (mcp : McpRuntime) : G (result ToolExecution ToolError * McpRuntime) :=
  if is_context_management_tool (tc_name tool_call) then
    let^ r := access_vision (execute_context_management_tool core_error_text session tool_call) in
    gret (r, mcp)
  else
    match tc_name tool_call with
    | Mcp => gret (execute_mcp_tool json_error tool_call mcp)
    | RunCommand =>
      let^ r := tool (let* tools := registry_for session plugin in execute_authorized tools tool_call) in
      gret (r, mcp)
    | _ => let^ r := tool (execute_authorized tools tool_call) in gret (r, mcp)
    end.

Definition new_context_start (tool_call : ToolCall) (output : Value) : option nat :=
  if bool_decide (tc_name tool_call = NewContext)
  then option_map N.to_nat (json_get $"start_message_count" output ≫= as_u64) else None.

Definition record_execution (session : Session) (tool_call : ToolCall) (execution : ToolExecution)
  : G RecordedToolOutput :=
  let sid := s_id session in
  let raw_output := json_text (te_output execution) in
  let^ output := redacted_output raw_output in
  let^ message := access_or_fail (record_tool_message sid output) in
  let success := tool_execution_success tool_call (te_output execution) in
  emit (EvToolEnd sid tool_call success (te_summary execution)) ;;^
  match (if success && bool_decide (tc_name tool_call = UpdatePlan)
         then parse_plan_steps (te_output execution) else None) with
  | Some steps => emit (EvPlan sid steps)
  | None => gret tt
  end ;;^
  gret (mkRecorded output raw_output (new_context_start tool_call (te_output execution))
          (if success then Some (m_id message) else None)).

(** The restore point of a patch; the error of a patch that does not fit. *)
Definition prepare_patch (session : Session) (tools : ToolRegistry) (tool_call : ToolCall)
  : G (option ToolError) :=
  if bool_decide (tc_name tool_call = ApplyPatch) then
    let^ preview := tool (patch_preview tools tool_call) in
    match preview with
    | Ok preview =>
      let^ _ := access_or_fail (core_create_restore_point (s_id session) (pp_path preview)
                  (if pp_file_existed preview then Some (pp_old_text preview) else None)
                  (pp_new_text preview)) in
      gret None
    | Err error => gret (Some error)
    end
  else gret None.

Definition execute_and_record (session : Session) (plugin : PluginConfig) (tools : ToolRegistry)
    (tool_call : ToolCall) (mcp : McpRuntime) : G (RecordedToolOutput * McpRuntime) :=
  let sid := s_id session in
  let^ config := user_config in
  register_secrets config ;;^
  let^ cancelled := is_cancelled sid in
  if cancelled then gfail AgentCancelled
  else
    let^ refused := prepare_patch session tools tool_call in
    match refused with
    | Some error =>
      let^ output := record_tool_error session tool_call error in gret (recorded_error output, mcp)
    | None =>
      let^ (execution, mcp) := execution_of session plugin tools tool_call mcp in
      match execution with
      | Ok execution =>
        let^ recorded := record_execution session tool_call execution in gret (recorded, mcp)
      | Err ToolCancelled => gfail AgentCancelled
      | Err error =>
        let^ output := record_tool_error session tool_call error in gret (recorded_error output, mcp)
      end
    end.

(** ** The summary of a task *)

Definition no_arguments (id : str) (name : ToolName) : ToolCall := mkToolCall id name (JObject []).

Definition combined_diff (output : Value) : option str :=
  let staged := or_else (json_get $"staged" output ≫= as_str) [] in
  let unstaged := or_else (json_get $"unstaged" output ≫= as_str) [] in
  let combined :=
    match is_empty staged, is_empty unstaged with
    | true, true => []
    | false, true => $"# staged" ++ LF :: staged
    | true, false => $"# unstaged" ++ LF :: unstaged
    | false, false => $"# staged" ++ LF :: staged ++ LF :: LF :: $"# unstaged" ++ LF :: unstaged
    end in
  if is_empty combined then None else Some (truncate_summary_text combined (Z.to_nat 8000)).

Definition collect_git_task_summary (session : Session) (plugin : PluginConfig)
  : T (option (option str * option str * option str)) :=
  let* tools := try_ok (registry_for session plugin) in
  match tools with
  | None => tret None
  | Some tools =>
    let* status := try_ok (execute_authorized tools (no_arguments $"task_summary_git_status" GitStatus)) in
    let* diff := try_ok (execute_authorized tools (no_arguments $"task_summary_git_diff" GitDiff)) in
    tret (Some
      (match status with Some status => json_get $"branch" (te_output status) ≫= as_str | None => None end,
       match status with
       | Some status =>
         option_map (fun raw => truncate_summary_text raw 4000) (json_get $"raw" (te_output status) ≫= as_str)
       | None => None
       end,
       match diff with Some diff => combined_diff (te_output diff) | None => None end))
  end.

(** The thread works on whether it is waited for or not. *)
Definition enrich_task_summary (session : Session) : G TaskSummary :=
  let^ summary := access_or_fail (task_summary (s_id session)) in
  let^ plugin := plugin_config in
  let^ collected := tool (collect_git_task_summary session plugin) in
  let^ n := draw in
  gret (match (if git_in_time n then collected else Ok None) with
        | Ok (Some (branch, status, diff)) =>
          mkTaskSummary (ts_changed_files summary) (ts_file_changes summary) (ts_commands_run summary)
            (ts_commands_succeeded summary) (ts_commands_failed summary) (ts_lines_added summary)
            (ts_lines_removed summary) branch status diff
        | _ => summary
        end).
End Tools.
