(* ===== verification/AgentTurn.v ===== *)
(** * A turn of the agent (crates/xcoding-agent/src/lib.rs)

    The rounds of a turn: the messages of an attempt, the attempts at one provider, the
    candidates, the tool calls of an answer, and the three entry points [chat], [resolve]
    and [rollback]. *)

From S2P Require Import Prelude.
From S2P Require Import Protocol.
From S2P Require Import Policy.
From S2P Require Import Sql.
From S2P Require Import Store.
From S2P Require Import Core.
From S2P Require Import Routing.
From S2P Require Import Transcript.
From S2P Require Import Text.
From S2P Require Import Files.
From S2P Require Import ToolArgs.
From S2P Require Import ToolText.
From S2P Require Import Tools.
From S2P Require Import ToolGit.
From S2P Require Import ToolCommand.
From S2P Require Import ToolSearch.
From S2P Require Import ToolGate.
From S2P Require Import LocalApi.
From S2P Require Import Compression.
From S2P Require Import Context.
From S2P Require Import Mcp.
From S2P Require Import Secrets.
From S2P Require Import SecretRefs.
From S2P Require Import ProviderWire.
From S2P Require Import ProviderConfig.
From S2P Require Import Images.
From S2P Require Import History.
From S2P Require Import EchoGuard.
From S2P Require Import AgentCalls.
From S2P Require Import ContextTools.
From S2P Require Import Vision.
From S2P Require Import Agent.
From S2P Require Import AgentRequests.
From S2P Require Import AgentTools.

Definition HISTORICAL_TOOL_ECHO_CORRECTION : str :=
  $"Historical tool output is reference data, not assistant text. A previous response repeated historical tool output blocks. Ignore those blocks, do not quote, summarize, or continue them, and answer the latest user message directly. Use tools only when needed.".
Definition DSML_PROTOCOL_REPAIR_INSTRUCTIONS : str :=
  $"Protocol repair: the previous assistant response put DSML or XML tool-call markup in ordinary text. If a tool is needed, invoke it through the structured tool-call channel. Never emit DSML, XML, <invoke>, or <parameter> tags in message content.".

(** A system message after the system messages at the front. *)
Definition insert_system (content : str) (messages : list ChatMessage) : list ChatMessage :=
  let '(systems, rest) := split_system messages in systems ++ chat_system content :: rest.

Definition display_label (c : ProviderCandidate) (multi_key : bool) : str :=
  if multi_key
  then pc_name c ++ $" [key " ++ pc_key_id c ++ $" " ++ provider_key_hint (pc_api_key c) ++ $"]"
  else pc_name c.

Definition providers_with_multiple_keys (candidates : list ProviderCandidate) : gset (list N) :=
  list_to_set (map pc_id (List.filter (fun c =>
    1 <? length (List.filter (fun other => pc_id other =s pc_id c) candidates)) candidates)).

Definition stream_restart_discards_partial_output (error : AgentError) : bool :=
  match error with
  | ProviderStreamFirstEventTimeout _ | ProviderStreamIdleTimeout _ | ProviderBusyResponse _
  | LeakedToolProtocol _ => true
  | AgentProvider (StreamDisconnected _) | AgentProvider (Http _) => true
  | _ => false
  end.
Definition visible_output_was_started (failure : ProviderAttemptFailure) : bool :=
  0 <? pf_output_chars failure.
Definition is_context_overflow_error (error : AgentError) : bool :=
  match error with AgentProvider e => is_context_overflow e | _ => false end.

(** ** What a turn keeps *)

(** What is fixed when the rounds start. *)
Record TurnContext := mkTurnContext {
  tx_session : Session;
  tx_settings : TurnSettings;
  tx_plugin : PluginConfig;
  tx_tools : ToolRegistry;
  tx_primary : ProviderCandidate;
  tx_definitions : list ToolDefinition;
  tx_options : CompressionOptions;
  tx_history : list Message;
  tx_budget : RequestBudget;
  tx_image_ids : gmap (list N * list N) (list N);
  tx_delegate : option VisionDelegate;
}.

(** The variables of the rounds; the last two are reset in every round. *)
Record Turn := mkTurn {
  tn_messages : list ChatMessage;
  tn_candidates : list ProviderCandidate;
  tn_multi_key : gset (list N);
  tn_route_cache : VisionRouteCache;
  tn_vision_applied : bool;
  tn_last_partial : str;
  tn_incompatible : gset (list N);
  tn_echo_retry_used : bool;
  tn_used_mcp : bool;
  tn_mcp : McpRuntime;
  tn_transcript_repaired : bool;
  tn_dsml_repair_attempted : bool;
}.

Definition set_turn_messages (messages : list ChatMessage) (t : Turn) : Turn :=
  mkTurn messages (tn_candidates t) (tn_multi_key t) (tn_route_cache t) (tn_vision_applied t)
    (tn_last_partial t) (tn_incompatible t) (tn_echo_retry_used t) (tn_used_mcp t) (tn_mcp t)
    (tn_transcript_repaired t) (tn_dsml_repair_attempted t).
Definition set_candidates (candidates : list ProviderCandidate) (t : Turn) : Turn :=
  mkTurn (tn_messages t) candidates (providers_with_multiple_keys candidates) (tn_route_cache t)
    (tn_vision_applied t) (tn_last_partial t) (tn_incompatible t) (tn_echo_retry_used t) (tn_used_mcp t)
    (tn_mcp t) (tn_transcript_repaired t) (tn_dsml_repair_attempted t).
Definition set_route_cache (cache : VisionRouteCache) (t : Turn) : Turn :=
  mkTurn (tn_messages t) (tn_candidates t) (tn_multi_key t) cache (tn_vision_applied t)
    (tn_last_partial t) (tn_incompatible t) (tn_echo_retry_used t) (tn_used_mcp t) (tn_mcp t)
    (tn_transcript_repaired t) (tn_dsml_repair_attempted t).
Definition set_vision_applied (t : Turn) : Turn :=
  mkTurn (tn_messages t) (tn_candidates t) (tn_multi_key t) (tn_route_cache t) true
    (tn_last_partial t) (tn_incompatible t) (tn_echo_retry_used t) (tn_used_mcp t) (tn_mcp t)
    (tn_transcript_repaired t) (tn_dsml_repair_attempted t).
Definition set_last_partial (partial : str) (t : Turn) : Turn :=
  mkTurn (tn_messages t) (tn_candidates t) (tn_multi_key t) (tn_route_cache t) (tn_vision_applied t)
    partial (tn_incompatible t) (tn_echo_retry_used t) (tn_used_mcp t) (tn_mcp t)
    (tn_transcript_repaired t) (tn_dsml_repair_attempted t).
Definition set_incompatible (id : str) (t : Turn) : Turn :=
  mkTurn (tn_messages t) (tn_candidates t) (tn_multi_key t) (tn_route_cache t) (tn_vision_applied t)
    (tn_last_partial t) ({[id]} ∪ tn_incompatible t) (tn_echo_retry_used t) (tn_used_mcp t) (tn_mcp t)
    (tn_transcript_repaired t) (tn_dsml_repair_attempted t).
Definition set_echo_retry_used (t : Turn) : Turn :=
  mkTurn (tn_messages t) (tn_candidates t) (tn_multi_key t) (tn_route_cache t) (tn_vision_applied t)
    (tn_last_partial t) (tn_incompatible t) true (tn_used_mcp t) (tn_mcp t)
    (tn_transcript_repaired t) (tn_dsml_repair_attempted t).
Definition set_mcp (used : bool) (mcp : McpRuntime) (t : Turn) : Turn :=
  mkTurn (tn_messages t) (tn_candidates t) (tn_multi_key t) (tn_route_cache t) (tn_vision_applied t)
    (tn_last_partial t) (tn_incompatible t) (tn_echo_retry_used t) used mcp
    (tn_transcript_repaired t) (tn_dsml_repair_attempted t).
Definition set_repairs (transcript dsml : bool) (t : Turn) : Turn :=
  mkTurn (tn_messages t) (tn_candidates t) (tn_multi_key t) (tn_route_cache t) (tn_vision_applied t)
    (tn_last_partial t) (tn_incompatible t) (tn_echo_retry_used t) (tn_used_mcp t) (tn_mcp t)
    transcript dsml.
Definition push_message (m : ChatMessage) (t : Turn) : Turn := set_turn_messages (tn_messages t ++ [m]) t.

(** How an attempt ends: another one at the same provider, or an answer, or the next
    candidate with what is added to the list of failures. *)
Inductive AttemptStep :=
| Again (retry_attempt : nat) (route_status : VisionRouteStatus)
| Completed (content : str) (tool_calls : list ProviderToolCall)
| NextCandidate (failures : list str).

Section Turns.
Context {O : Outside} {Text_ : ErrorTexts} {En : Env} {Clk : Clock}.
Context `{Disk} `{Child} `{Git} `{Serde} `{IoText} `{UnicodeCase} `{Stopwatch} `{Home} `{Peer} `{McpFile}.
Context {Print : JsonText} {Parse : JsonParse} {Hash : HashStrings} {Chars : HashChars}.
Context {Time : TimeText} {Ids : UuidParse}.
(** The text of the error of [serde_json::from_str]. *)
Variable json_error : list N -> list N.

(** ** The messages of an attempt *)

Section Attempts.
Variable tx : TurnContext.
Local Abbreviation sid := (s_id (tx_session tx)).
Local Abbreviation model := (s_model (tx_session tx)).
Local Abbreviation settings := (tx_settings tx).
Local Abbreviation max_retries := (us_max_provider_retries (tx_settings tx)).

Definition max_attempts : nat := S max_retries.

Definition retrying (attempt : nat) (message : str) : G unit :=
  emit (EvRetrying sid (N.of_nat attempt) (N.of_nat max_attempts) message).

Definition configured_capability : option bool :=
  model_vision_capability model (us_model_capabilities settings).

Definition initial_route_status (candidate : ProviderCandidate) (t : Turn)
  : G (VisionRouteStatus * Turn) :=
  if bool_decide (pc_trust_level candidate = Relay) && existsb chat_message_has_images (tn_messages t)
  then gret (NativeUnsupported, t)
  else
    match configured_capability with
    | Some true => gret (NativeSupported, t)
    | Some false => gret (NativeUnsupported, t)
    | None =>
      let key := route_key candidate model in
      match cached_route key (tn_route_cache t) with
      | Some status => gret (status, t)
      | None =>
        let^ answer := access (core_get_vision_route_status key) in
        let '(status, cache) :=
          loaded_route key (match answer with Ok answer => answer | Err _ => None end) (tn_route_cache t) in
        gret (status, set_route_cache cache t)
      end
    end.

Definition mark_unsupported (candidate : ProviderCandidate) (t : Turn) : G Turn :=
  let key := route_key candidate model in
  let^ _ := access (core_save_vision_route_status key $"NativeUnsupported") in
  gret (set_route_cache (mark_native_unsupported key (tn_route_cache t)) t).
Definition mark_supported (candidate : ProviderCandidate) (image_keys : list str) (t : Turn) : G Turn :=
  let key := route_key candidate model in
  let^ _ := access (core_save_vision_route_status key $"NativeSupported") in
  gret (set_route_cache (mark_native_supported key image_keys (tn_route_cache t)) t).

Definition is_user (m : ChatMessage) : bool := has_role $"user" m.

(** [rposition]: how many messages from the last user message on. *)
Fixpoint last_user_index (from : nat) (messages : list ChatMessage) : option nat :=
  match messages with
  | [] => None
  | m :: rest =>
    match last_user_index (S from) rest with
    | Some i => Some i
    | None => if is_user m then Some from else None
    end
  end.

(** A message with images, as text. *)
Definition describe_message (candidate : ProviderCandidate) (historical : bool) (m : ChatMessage)
    (cards : HistoricalImageCardState) : G (ChatMessage * HistoricalImageCardState * nat) :=
  let text := extract_user_text m in
  let images := extract_images_from_message m in
  let failed := chat_user (message_with_vision_failure text (length images)) in
  match tx_delegate tx with
  | Some delegate =>
    let^ described := describe_images (tx_session tx) delegate text images historical in
    match described with
    | Ok description =>
      if historical then
        let message_id := or_else (tx_image_ids tx !! (text, vision_cache_key images)) $"unknown" in
        let '(card, cards) := render_card message_id text images description cards in
        gret (chat_user card, cards, length images)
      else
        let clipped := truncate_summary_text (trim (cv_description description)) MAX_VISION_DESCRIPTION_CHARS in
        gret (chat_user (message_with_vision_description text
                           (attribution description (vd_model delegate)) clipped), cards, length images)
    | Err _ => gret (failed, cards, 0)
    end
  | None =>
    if bool_decide (pc_trust_level candidate = Relay)
    then gfail (SensitiveDataBlocked $"image_payload" $"vision" (pc_name candidate))
    else gret (failed, cards, 0)
  end.

Fixpoint describe_loop (candidate : ProviderCandidate) (latest : option nat) (index : nat)
    (messages : list ChatMessage) (cards : HistoricalImageCardState) (count : nat)
  : G (list ChatMessage * HistoricalImageCardState * nat) :=
  match messages with
  | [] => gret ([], cards, count)
  | m :: rest =>
    let^ (m, cards, described) :=
      if is_user m && chat_message_has_images m
      then describe_message candidate (negb (bool_decide (latest = Some index))) m cards
      else gret (m, cards, 0) in
    let^ (rest, cards, count) := describe_loop candidate latest (S index) rest cards (count + described) in
    gret (m :: rest, cards, count)
  end.

(** The messages of an attempt, and the keys of the images that are new to the route. *)
Definition attempt_messages (candidate : ProviderCandidate) (status : VisionRouteStatus) (t : Turn)
  : G (list ChatMessage * list str * Turn) :=
  let messages := tn_messages t in
  match status with
  | RouteUnknown =>
    gret (messages, concat (map collect_image_keys_from_message (List.filter is_user messages)), t)
  | NativeSupported =>
    let transformed := map (fun m =>
      if is_user m && chat_message_has_images m
      then strip_processed_images m (vc_processed_image_keys (tn_route_cache t)) else (m, [])) messages in
    gret (map fst transformed, concat (map snd transformed), t)
  | NativeUnsupported =>
    let^ (transformed, cards, count) :=
      describe_loop candidate (last_user_index 0 messages) 0 messages card_state_default 0 in
    if negb (tn_vision_applied t) && (0 <? count) then
      emit (EvVisionDescriptionsApplied sid count (Z.to_nat (hs_description_chars cards)) (hs_truncated cards)
              (0 <? hs_image_count cards)%Z) ;;^
      gret (transformed, [], set_vision_applied t)
    else gret (transformed, [], t)
  end.

(** ** After a failed attempt *)

(** The handlers of a failure in the order of the source; one that does not apply passes
    on what it has changed. *)
Definition Handler : Type := Turn -> G (option AttemptStep * Turn).
Definition handled_by (h k : Handler) : Handler := fun t =>
  let^ (step, t) := h t in
  match step with
  | Some step => gret (Some step, t)
  | None => k t
  end.

(** The same request once more after a delay. *)
Definition retry_after_delay (attempt : nat) (status : VisionRouteStatus) (message : str) (t : Turn)
  : G (option AttemptStep * Turn) :=
  retrying attempt message ;;^
  wait_for_retry_delay sid (tn_last_partial t) ;;^
  gret (Some (Again attempt status), t).

Section Failed.
Variable candidate : ProviderCandidate.
Variable retry_attempt : nat.
Variable status : VisionRouteStatus.
Variable failure : ProviderAttemptFailure.
Local Abbreviation error := (pf_error failure).
Local Abbreviation message := (AgentError_to_string (pf_error failure)).

Definition handle_echo : Handler := fun t =>
  match error with
  | HistoricalToolEcho =>
    emit (EvStreamReset sid (pf_output_chars failure) message) ;;^
    if tn_echo_retry_used t then gfail error
    else
      let t := set_turn_messages (insert_system HISTORICAL_TOOL_ECHO_CORRECTION (tn_messages t))
                 (set_last_partial [] (set_echo_retry_used t)) in
      retrying (S retry_attempt)
        $"Model repeated historical tool output; retrying once with corrective context." ;;^
      gret (Some (Again (S retry_attempt) status), t)
  | _ => gret (None, t)
  end.

Definition handle_vision : Handler := fun t =>
  match error with
  | AgentProvider e =>
    if is_vision_unsupported e then
      let^ t := mark_unsupported candidate t in
      retrying (S retry_attempt)
        $"Provider does not support image input; describing with delegate and retrying." ;;^
      gret (Some (Again retry_attempt NativeUnsupported), t)
    else gret (None, t)
  | _ => gret (None, t)
  end.

Definition handle_cancelled : Handler := fun t =>
  match error with AgentCancelled => gfail error | _ => gret (None, t) end.

Definition handle_mismatch : Handler := fun t =>
  match error with
  | AgentProvider e =>
    if is_tool_result_mismatch e && negb (tn_transcript_repaired t) && (retry_attempt <? max_retries) then
      let '(messages, repaired) := repair_tool_transcript (tn_messages t) in
      let t := set_turn_messages messages (set_repairs true (tn_dsml_repair_attempted t) t) in
      if 0 <? repaired
      then retry_after_delay (S retry_attempt) status
             ($"Provider rejected a stale tool result; repaired " ++ show_nat repaired
              ++ $" transcript item(s) and retrying.") t
      else gret (None, t)
    else gret (None, t)
  | _ => gret (None, t)
  end.

Definition is_leaked_protocol : bool :=
  match error with LeakedToolProtocol _ => true | _ => false end.
Definition restart_after_visible_output : bool :=
  visible_output_was_started failure && stream_restart_discards_partial_output error.

(** The repair instruction is added before the retry is decided. *)
Definition handle_retry : Handler := fun t =>
  let added := is_leaked_protocol && negb (tn_dsml_repair_attempted t) in
  let t := if added
           then set_turn_messages (insert_system DSML_PROTOCOL_REPAIR_INSTRUCTIONS (tn_messages t))
                  (set_repairs (tn_transcript_repaired t) true t)
           else t in
  if is_retryable_provider_attempt error
     && (negb (visible_output_was_started failure) || restart_after_visible_output)
     && (retry_attempt <? max_retries) && (negb is_leaked_protocol || added)
  then
    (if restart_after_visible_output
     then emit (EvStreamReset sid (pf_output_chars failure) message) else gret tt) ;;^
    retry_after_delay (S retry_attempt) status message t
  else gret (None, t).

Definition handle_overflow : Handler := fun t =>
  if is_context_overflow_error error && us_lossy_context_compaction_enabled settings
     && negb (visible_output_was_started failure) && (retry_attempt <? max_retries)
  then
    match overflow_trim (tn_messages t) with
    | None => gret (None, t)
    | Some (removed, messages) =>
      if removed =? 0 then gret (Some (NextCandidate []), set_turn_messages messages t)
      else retry_after_delay (S retry_attempt) status
             ($"Context window exceeded; trimmed " ++ show_nat removed ++ $" message(s) and retrying.")
             (set_turn_messages messages t)
    end
  else gret (None, t).

(** The switch to the next candidate, whose label is given. *)
Definition switch_message (multi_key rejected : bool) (block : option ProviderKeyBlock)
    (label next_label : str) : str :=
  let quote s := DQUOTE :: s ++ [DQUOTE] in
  if rejected then
    $"Provider " ++ quote label ++ $" does not support model " ++ quote (model_for candidate model)
    ++ $"; skipping it for this session and switching to backup provider " ++ quote next_label ++ $"."
  else
    match (if multi_key then block else None) with
    | Some block =>
      match block with
      | KeyRejected => $"Credential was rejected"
      | KeyRateLimited => $"Credential hit a rate limit"
      | KeyUnstable => $"Credential is temporarily unstable"
      end ++ $" for " ++ quote label ++ $"; switching to " ++ quote next_label ++ $"."
    | None =>
      $"Provider " ++ quote label ++ $" is unavailable; switching to backup provider " ++ quote next_label
      ++ $"."
    end.

Definition handle_switch (next : option ProviderCandidate) : Handler := fun t =>
  let multi_key c := bool_decide (pc_id c ∈ tn_multi_key t) in
  let label := display_label candidate (multi_key candidate) in
  let next_label := option_map (fun c => display_label c (multi_key c)) next in
  let rejected := provider_rejected_selected_model error in
  let^ block := if rejected then gret None else routing (record_provider_key_failure candidate error) in
  let^ _ := if rejected then gret tt
            else routing (record_provider_failure candidate (us_circuit settings)) in
  let t := if rejected then set_incompatible (pc_id candidate) t else t in
  (if visible_output_was_started failure then
     if bool_decide (is_Some next) && restart_after_visible_output
     then emit (EvStreamReset sid (pf_output_chars failure) message)
     else gfail error
   else gret tt) ;;^
  match next_label with
  | Some next_label =>
    retrying max_attempts (switch_message (multi_key candidate) rejected block label next_label)
  | None => gret tt
  end ;;^
  gret (Some (NextCandidate [label ++ $": " ++ message]), t).

Definition handle_failure (next : option ProviderCandidate) : Handler :=
  handled_by handle_echo (handled_by handle_vision (handled_by handle_cancelled
    (handled_by handle_mismatch (handled_by handle_retry (handled_by handle_overflow
      (handle_switch next)))))).
End Failed.

(** ** One provider *)

Definition attempt_report (round attempt : nat) (success : bool) (output_chars tool_calls : nat)
    (error : option str) (ttft total : option N) : CallReport :=
  mkReport round attempt max_attempts success output_chars tool_calls error None None ttft total.

(** An answer that only says that the provider is busy counts as a failure. *)
Definition busy_is_failure (r : result StreamedAnswer ProviderAttemptFailure)
  : result StreamedAnswer ProviderAttemptFailure :=
  match r with
  | Ok a =>
    if is_transient_provider_busy_response (sa_content a) (sa_tool_calls a)
    then Err (mkAttemptFailure (ProviderBusyResponse (sa_content a)) (length (sa_content a))
                (length (sa_tool_calls a)) (sa_ttft_ms a) (sa_total_ms a))
    else Ok a
  | Err f => Err f
  end.

Definition reasoning_effort : option str := non_blank (Some (us_reasoning_effort settings)).

Definition handle_answer (candidate : ProviderCandidate) (endpoint : str) (round retry_attempt : nat)
    (new_keys : list str) (a : StreamedAnswer) (t : Turn) : G (AttemptStep * Turn) :=
  if negb (is_empty new_keys) && response_refuses_vision (sa_content a) (sa_tool_calls a) then
    let^ t := mark_unsupported candidate t in
    emit (EvStreamReset sid (length (sa_content a))
            $"Model cannot read the attached image; retrying with vision delegate.") ;;^
    retrying (S retry_attempt) $"Model cannot read the attached image; describing with delegate and retrying." ;;^
    gret (Again retry_attempt NativeUnsupported, t)
  else
    emit_model_call_with_reported (tx_session tx) candidate (model_for candidate model) endpoint $"chat"
      (mkReport round (S retry_attempt) max_attempts true (length (sa_content a))
         (length (sa_tool_calls a)) None (sa_model_reported a) (sa_prompt_tokens a) (sa_ttft_ms a)
         (sa_total_ms a)) ;;^
    routing (record_provider_success candidate (us_circuit settings)) ;;^
    routing (record_provider_key_success candidate) ;;^
    let^ t := if bool_decide (configured_capability = Some true) && negb (is_empty new_keys)
              then mark_supported candidate new_keys t else gret t in
    gret (Completed (sa_content a) (sa_tool_calls a), t).

(** One round of the loop over the attempts at a provider. *)
Definition one_attempt (candidate : ProviderCandidate) (next : option ProviderCandidate)
    (provider : OpenAiCompatibleProvider) (round retry_attempt : nat) (status : VisionRouteStatus) (t : Turn)
  : G (AttemptStep * Turn) :=
  let endpoint := provider_chat_url provider in
  ensure_not_cancelled_preserving sid (tn_last_partial t) ;;^
  let^ (messages, new_keys, t) := attempt_messages candidate status t in
  let^ copy := request_copy messages candidate sid $"message_content" in
  match copy with
  | Err block => gfail (block_error block)
  | Ok copy =>
    let^ answer := stream_provider_attempt json_error (tx_session tx) (pc_trust_level candidate) provider
                     (model_for candidate model) copy (tx_definitions tx) reasoning_effort
                     (us_stream_first_event_timeout_secs settings) (us_stream_idle_timeout_secs settings) in
    ensure_not_cancelled_preserving sid (tn_last_partial t) ;;^
    match busy_is_failure answer with
    | Ok a => handle_answer candidate endpoint round retry_attempt new_keys a t
    | Err failure =>
      emit_model_call_with_reported (tx_session tx) candidate (model_for candidate model) endpoint $"chat"
        (attempt_report round (S retry_attempt) false (pf_output_chars failure) (pf_tool_calls failure)
           (Some (AgentError_to_string (pf_error failure))) (pf_ttft_ms failure) (pf_total_ms failure)) ;;^
      let^ (step, t) := handle_failure candidate retry_attempt status failure next t in
      gret (or_else step (NextCandidate []), t)
    end
  end.

(** The loop has no bound in the source: [fuel] counts its rounds. *)
Fixpoint attempt_loop (fuel : nat) (candidate : ProviderCandidate) (next : option ProviderCandidate)
    (provider : OpenAiCompatibleProvider) (round retry_attempt : nat) (status : VisionRouteStatus) (t : Turn)
  : G (AttemptStep * Turn) :=
  match fuel with
  | 0 => gstop OutOfFuel
  | S fuel =>
    let^ (step, t) := one_attempt candidate next provider round retry_attempt status t in
    match step with
    | Again retry_attempt status =>
      attempt_loop fuel candidate next provider round retry_attempt status t
    | _ => gret (step, t)
    end
  end.

(** ** The candidates *)

Definition failure_endpoint (c : ProviderCandidate) : str :=
  trim_end_matches (N.eqb SLASH) (pc_base_url c) ++ $"/v1/"
  ++ match pc_wire_api c with
     | ChatCompletions => $"chat/completions"
     | Responses => $"responses"
     | AnthropicMessages => $"messages"
     end.

(** An event about the switch, when there is a next candidate. *)
Definition switching (next_label : option str) (message : str -> str) : G unit :=
  match next_label with
  | Some next_label => retrying max_attempts (message next_label)
  | None => gret tt
  end.

Definition quoted_label (label : str) : str := DQUOTE :: label ++ [DQUOTE].

Definition temporarily_unavailable (label next_label : str) : str :=
  $"Provider " ++ quoted_label label ++ $" is temporarily unavailable; switching to backup provider "
  ++ quoted_label next_label ++ $".".

(** One candidate: its answer, or what is added to the list of failures. *)
Definition try_candidate (fuel : nat) (round : nat) (candidate : ProviderCandidate)
    (next : option ProviderCandidate) (t : Turn) : G (AttemptStep * Turn) :=
  let multi_key c := bool_decide (pc_id c ∈ tn_multi_key t) in
  let label := display_label candidate (multi_key candidate) in
  let next_label := option_map (fun c => display_label c (multi_key c)) next in
  if bool_decide (pc_id candidate ∈ tn_incompatible t) then
    gret (NextCandidate [label ++ $" does not support selected model " ++ model_for candidate model], t)
  else
    let^ available := routing (provider_key_is_available candidate) in
    if negb available then
      switching next_label (fun next_label =>
        if multi_key candidate
        then $"Credential for " ++ quoted_label label ++ $" is unavailable; switching to "
             ++ quoted_label next_label ++ $"."
        else temporarily_unavailable label next_label) ;;^
      gret (NextCandidate [label ++ $" key is unavailable"], t)
    else
      let^ allowed := routing (circuit_allows candidate) in
      if negb allowed then
        switching next_label (temporarily_unavailable label) ;;^
        gret (NextCandidate [label ++ $" circuit is open"], t)
      else
        let^ provider := open_provider candidate sid in
        match provider with
        | Err error =>
          let message := AgentError_to_string error in
          emit_model_call_with_reported (tx_session tx) candidate (model_for candidate model)
            (failure_endpoint candidate) $"chat"
            (attempt_report round 1 false 0 0 (Some message) None None) ;;^
          routing (record_provider_failure candidate (us_circuit settings)) ;;^
          switching next_label (fun next_label =>
            $"Provider " ++ quoted_label label ++ $" is unavailable; switching to backup provider "
            ++ quoted_label next_label ++ $".") ;;^
          gret (NextCandidate [label ++ $": " ++ message], t)
        | Ok provider =>
          let^ (status, t) := initial_route_status candidate t in
          attempt_loop fuel candidate next provider round 0 status t
        end.

(** The answer of the first candidate that gives one. *)
Fixpoint candidate_loop (fuel : nat) (round : nat) (candidates : list ProviderCandidate)
    (failures : list str) (t : Turn) : G (str * list ProviderToolCall * ProviderCandidate * Turn) :=
  match candidates with
  | [] => gfail (ProviderFallbackExhausted (join $"; " failures))
  | candidate :: rest =>
    let^ (step, t) := try_candidate fuel round candidate (head rest) t in
    match step with
    | Completed content calls => gret (content, calls, candidate, t)
    | Again _ _ => gstop OutOfFuel
    | NextCandidate more => candidate_loop fuel round rest (failures ++ more) t
    end
  end.

(** ** The tool calls of an answer *)

Definition lossy : bool := us_lossy_context_compaction_enabled settings.

Definition push_result (id output : str) (t : Turn) : Turn :=
  push_message (bounded_tool_result id output lossy) t.

(** The error of a tool becomes its result. *)
Definition answer_with_error (tool_call : ToolCall) (error : ToolError) (t : Turn)
  : G (option ChatResult * Turn) :=
  let^ output := record_tool_error (tx_session tx) tool_call error in
  gret (None, push_result (tc_id tool_call) output t).

Definition run_allowed (candidate : ProviderCandidate) (tool_call : ToolCall) (t : Turn)
  : G (option ChatResult * Turn) :=
  let^ (recorded, mcp) :=
    execute_and_record json_error (tx_session tx) (tx_plugin tx) (tx_tools tx) tool_call (tn_mcp t) in
  let t := set_mcp (tn_used_mcp t) mcp t in
  let^ known := get_known in
  let t := match ro_new_context_start recorded with
           | Some start =>
             set_turn_messages (rebuild_messages_for_new_context_with_options known (tn_messages t) start
                             (tx_history tx) (tx_options tx)) t
           | None => t
           end in
  let^ provider_output :=
    references (provider_facing_tool_output known (ro_raw_output recorded) sid (pc_trust_level candidate)) in
  let model_output := model_facing_tool_output (ToolName_as_str (tc_name tool_call)) provider_output
                        (ro_message_id recorded) (tx_options tx) in
  gret (None, push_result (tc_id tool_call) model_output t).

Definition ask_user (tool_call : ToolCall) (t : Turn) : G (option ChatResult * Turn) :=
  let^ refused :=
    if bool_decide (tc_name tool_call = ApplyPatch) then
      let^ preview := tool (patch_preview (tx_tools tx) tool_call) in
      match preview with
      | Ok preview => emit (EvPatchPreview sid preview) ;;^ gret None
      | Err error => gret (Some error)
      end
    else gret None in
  match refused with
  | Some error => answer_with_error tool_call error t
  | None =>
    let^ action := access_or_fail (core_create_pending_action sid tool_call) in
    let^ paused := access_or_fail (pause_chat sid) in
    emit (EvApprovalRequested sid action
            (approval_summary (tr_command_allowlist (tx_tools tx)) (tr_command_denylist (tx_tools tx))
               tool_call)) ;;^
    gret (Some (mkChatResult paused None), t)
  end.

(** The decision on a call. *)
Definition decision_on (kind : PermissionKind) (high_risk allowlisted : bool) (tool_call : ToolCall)
  : PermissionDecision :=
  let mode := s_mode (tx_session tx) in
  enforce_relay_tool_confirmation mode (pc_trust_level (tx_primary tx))
    (apply_local_api_confirmation_preference (evaluate_detailed mode kind high_risk allowlisted)
       (us_skip_local_api_confirmation settings) kind high_risk tool_call)
    kind tool_call.

Definition run_tool_call (candidate : ProviderCandidate) (tool_call : ToolCall) (t : Turn)
  : G (option ChatResult * Turn) :=
  let t := set_mcp (tn_used_mcp t || bool_decide (tc_name tool_call = Mcp)) (tn_mcp t) t in
  let^ permission := tool (permission_for (tx_tools tx) tool_call) in
  match permission with
  | Err error =>
    emit (EvToolStart sid tool_call ($"Blocked " ++ ToolName_as_str (tc_name tool_call))) ;;^
    answer_with_error tool_call error t
  | Ok (kind, high_risk, allowlisted) =>
    let decision := decision_on kind high_risk allowlisted tool_call in
    emit (EvToolStart sid tool_call
            (tool_start_summary (s_mode (tx_session tx)) tool_call kind decision)) ;;^
    match decision with
    | Allow => run_allowed candidate tool_call t
    | AskUser => ask_user tool_call t
    | Deny => answer_with_error tool_call PermissionDenied t
    end
  end.

(** The calls in order, up to one that has to wait for the user. *)
Fixpoint tool_loop (candidate : ProviderCandidate) (calls : list ProviderToolCall) (t : Turn)
  : G (option ChatResult * Turn) :=
  match calls with
  | [] => gret (None, t)
  | call :: rest =>
    ensure_not_cancelled_preserving sid (tn_last_partial t) ;;^
    let^ (paused, t) :=
      match protocol_tool_call json_error call with
      | Err rejected =>
        let^ (id, output) := record_rejected_tool_call (tx_session tx) rejected in
        gret (None, push_result id output t)
      | Ok tool_call =>
        let^ registry := get_registry in
        match resolve_tool_call_secret_references tool_call sid registry (pc_name candidate) with
        | Err block => gfail (block_error block)
        | Ok tool_call => run_tool_call candidate tool_call t
        end
      end in
    match paused with
    | Some result => gret (Some result, t)
    | None => tool_loop candidate rest t
    end
  end.

(** ** The rounds *)

(** The end of a turn with an answer. *)
Definition finish_turn (candidate : ProviderCandidate) (content : str) (t : Turn) : G ChatResult :=
  let^ summary := enrich_task_summary (tx_session tx) in
  ensure_not_cancelled_preserving sid content ;;^
  let^ result := access_or_fail (complete_chat sid content) in
  match cr_message result with
  | Some message => emit (EvMessageCompleted sid message)
  | None => gstop (Panicked $"completed chat has a message")
  end ;;^
  emit (EvTaskCompleted sid summary) ;;^
  (if us_local_memory_enabled settings && (us_tool_memory_enabled settings || negb (tn_used_mcp t)) then
     let^ messages := access (core_messages sid) in
     let^ provider := open_provider candidate sid in
     match provider with
     | Err error => gfail error
     | Ok provider =>
       record_local_memories (tx_session tx) provider candidate
         (match messages with Ok messages => messages | Err _ => [] end) (us_stream_idle_timeout_secs settings)
     end
   else gret tt) ;;^
  gret result.

(** The variables at the start of a round. *)
Definition start_round (round_index : nat) (t : Turn) : G Turn :=
  let^ t :=
    if 0 <? round_index then
      let^ rotated := routing (provider_candidates (us_routing settings) model) in
      gret (if is_empty rotated then t else set_candidates rotated t)
    else gret t in
  ensure_not_cancelled_preserving sid (tn_last_partial t) ;;^
  let^ calibrations := get_calibrations in
  let budget := mkRequestBudget (rb_model (tx_budget tx)) (rb_model_context_windows (tx_budget tx))
                  (rb_compaction_threshold_percent (tx_budget tx)) (rb_system_prompt (tx_budget tx))
                  (rb_definitions (tx_budget tx)) (token_calibration sid calibrations) in
  let '(messages, repaired) :=
    repair_tool_transcript (prepare_request_messages budget lossy (tn_messages t)) in
  gret (set_turn_messages messages (set_repairs (0 <? repaired) false t)).

Definition compatible_candidates (t : Turn) : list ProviderCandidate :=
  List.filter (fun c => negb (bool_decide (pc_id c ∈ tn_incompatible t))) (tn_candidates t).

Definition one_round (fuel : nat) (round_index : nat) (t : Turn) : G (option ChatResult * Turn) :=
  let^ t := start_round round_index t in
  let^ _ := routing (release_circuits_when_all_are_open (compatible_candidates t)) in
  let^ _ := routing (release_key_cooldowns_when_all_are_blocked (compatible_candidates t)) in
  let^ (content, calls, candidate, t) := candidate_loop fuel (S round_index) (tn_candidates t) [] t in
  ensure_not_cancelled_preserving sid content ;;^
  let t := if is_empty (trim content) then t else set_last_partial content t in
  if is_empty calls then
    let^ result := finish_turn candidate content t in gret (Some result, t)
  else
    tool_loop candidate calls
      (push_message (assistant_tool_calls (map replayable_provider_tool_call calls)) t).

Fixpoint round_loop (fuel : nat) (rounds round_index : nat) (t : Turn) : G ChatResult :=
  match rounds with
  | 0 => gfail ToolCallLimit
  | S rounds =>
    let^ (result, t) := one_round fuel round_index t in
    match result with
    | Some result => gret result
    | None => round_loop fuel rounds (S round_index) t
    end
  end.
End Attempts.
End Turns.
