(* ===== verification/AgentSession.v ===== *)
(** * Chats of the agent (crates/xcoding-agent/src/lib.rs)

    What a turn prepares before its rounds, and the three entry points of the agent:
    [chat], [resolve] and [rollback]. *)

From S2P Require Import Prelude.
From S2P Require Import Protocol.
From S2P Require Import Policy.
From S2P Require Import Sql.
From S2P Require Import Store.
From S2P Require Import Core.
From S2P Require Import Routing.
From S2P Require Import Transcript.
From S2P Require Import Text.
From S2P Require Import Files.
From S2P Require Import ToolArgs.
From S2P Require Import ToolText.
From S2P Require Import Tools.
From S2P Require Import ToolGit.
From S2P Require Import ToolCommand.
From S2P Require Import ToolSearch.
From S2P Require Import ToolGate.
From S2P Require Import Compression.
From S2P Require Import Context.
From S2P Require Import Mcp.
From S2P Require Import Secrets.
From S2P Require Import SecretRefs.
From S2P Require Import ProviderWire.
From S2P Require Import Images.
From S2P Require Import History.
From S2P Require Import EchoGuard.
From S2P Require Import AgentCalls.
From S2P Require Import ContextTools.
From S2P Require Import Vision.
From S2P Require Import Agent.
From S2P Require Import AgentRequests.
From S2P Require Import AgentTools.
From S2P Require Import AgentTurn.

Record ResolveActionParams := mkResolveAction {
  ra_session_id : uuid; ra_action_id : uuid; ra_approved : bool }.
Record RollbackRestorePointParams := mkRollback {
  rr_session_id : uuid; rr_restore_point_id : uuid }.

(** The call that was approved or rejected before the turn: its output for the user, the
    raw output, and the stored message of the output. *)
Record ResolvedTool := mkResolved {
  rt_tool_call : ToolCall; rt_output : str; rt_raw_output : str; rt_message_id : option uuid }.

Definition mode_label (mode : Mode) : str :=
  match mode with Ask => $"ask" | AutoEdit => $"auto-edit" | FullAuto => $"full-auto" end.

Definition initial_plan : list PlanStep :=
  [mkPlanStep $"inspect" $"Inspect relevant workspace files before changing anything." StepPending;
   mkPlanStep $"change" $"Propose a minimal patch and wait for required approval." StepPending;
   mkPlanStep $"verify" $"Run approved verification commands and report the result." StepPending].

Section Sessions.
Context {O : Outside} {Text_ : ErrorTexts} {En : Env} {Clk : Clock}.
Context `{Disk} `{Child} `{Git} `{Serde} `{IoText} `{UnicodeCase} `{Stopwatch} `{Home} `{Peer} `{McpFile}.
Context {Print : JsonText} {Parse : JsonParse} {Hash : HashStrings} {Chars : HashChars}.
Context {Time : TimeText} {Ids : UuidParse}.
(** The text of the error of [serde_json::from_str], and the rounds that the loop over
    the attempts at one provider is followed. *)
Variable json_error : list N -> list N.
Variable fuel : nat.

(** ** Preparation *)

Definition tool_or_fail {A} (m : T A) : G A :=
  let^ r := tool m in
  match r with
  | Ok a => gret a
  | Err e => gfail (AgentTool (ToolError_to_string e))
  end.

Definition prepare_mcp (session : Session) (plugin : PluginConfig) : G McpRuntime := fun s =>
  let '(r, w) := prepare_with_plugin_config json_error (workspace_path session) plugin (ag_world s) in
  match r with
  | Ok mcp => (Ok mcp, set_world w s)
  | Err e => (Err (Failure (AgentMcp (McpError_to_string e))), set_world w s)
  end.

(** [project_historical_images_for_request] with the cache of descriptions behind the
    function that it is given: [project_loop]. *)
Fixpoint gather_projection (current : option uuid) (history : list Message)
  : G (list Message * HistoricalImageCardState) :=
  match history with
  | [] => gret ([], card_state_default)
  | m :: newer =>
    let^ (newer, cards) := gather_projection current newer in
    let asked := bool_decide (m_role m = User) && negb (bool_decide (current = Some (m_id m)))
                 && negb (is_empty (snd (parse_stored_user_message (m_content m)))) in
    let^ cached :=
      if asked
      then access_vision (cached_vision_description
             (vision_cache_key (snd (parse_stored_user_message (m_content m)))))
      else gret None in
    let '(m, cards) := project_message current (fun _ => cached) m cards in
    gret (m :: newer, cards)
  end.

Definition current_user_message_id (history : list Message) : option uuid :=
  option_map m_id (List.find (fun m => bool_decide (m_role m = User)) (rev history)).

(** The identifiers of the messages with images, by text and images; a later message
    replaces an earlier one. *)
Definition image_message_ids (projected : list Message) : gmap (list N * list N) (list N) :=
  foldl (fun ids m =>
    let '(text, images) := parse_stored_user_message (m_content m) in
    if bool_decide (m_role m = User) && negb (is_empty images)
    then <[(text, vision_cache_key images) := uuid_text (m_id m)]> ids else ids) ∅ projected.

(** The prompt, with what is injected into it. *)
Definition build_system_prompt (session : Session) (settings : TurnSettings) (plugin : PluginConfig)
    (tools : ToolRegistry) (mcp : McpRuntime) : G str :=
  let^ context := tool_or_fail (load_context (tr_workspace_root tools) (pc_skill_enabled plugin)) in
  let^ memories :=
    if us_local_memory_enabled settings then
      let^ r := access (core_local_memories (s_workspace_root session) MAX_INJECTED_LOCAL_MEMORIES) in
      gret (match r with Ok memories => memories | Err _ => [] end)
    else gret [] in
  gret (append_personalization (append_mcp_catalog (system_prompt context (mode_label (s_mode session))) mcp)
          (us_custom_instructions settings) (us_personality settings) memories).

Definition last_is_note_of (output : str) (messages : list ChatMessage) : bool :=
  match last messages with
  | Some m => is_assistant m && message_content_contains_text (cm_content m) output
  | None => false
  end.

(** The result of the resolved call after the messages of the history. *)
Definition add_resolved (session : Session) (settings : TurnSettings) (options : CompressionOptions)
    (primary : ProviderCandidate) (resolved : option ResolvedTool) (messages : list ChatMessage)
  : G (list ChatMessage) :=
  match resolved with
  | None => gret messages
  | Some r =>
    let messages :=
      if negb (bool_decide (is_Some (rt_message_id r))) && last_is_note_of (rt_output r) messages
      then removelast messages else messages in
    let^ known := get_known in
    let^ provider_output := references
      (provider_facing_tool_output known (rt_raw_output r) (s_id session) (pc_trust_level primary)) in
    let model_output := model_facing_tool_output (ToolName_as_str (tc_name (rt_tool_call r)))
                          provider_output (rt_message_id r) options in
    match provider_tool_call (rt_tool_call r) with
    | Err e => gfail e
    | Ok call =>
      gret (messages ++ [assistant_tool_calls [call];
                         bounded_tool_result (tc_id (rt_tool_call r)) model_output
                           (us_lossy_context_compaction_enabled settings)])
    end
  end.

(** The first messages of the request. *)
Definition head_messages (prompt : str) (history : list Message) (budget : HistoryBudget) : list ChatMessage :=
  [chat_system prompt]
  ++ match usable_compaction (hb_compaction budget) history with
     | Some item => [chat_system (compacted_history_message (cc_summary item))]
     | None => []
     end
  ++ (if 0 <? hb_dropped_message_count budget
      then [chat_system (dropped_history_message (hb_dropped_message_count budget))] else []).

(** The messages of the history that are sent. *)
Definition sent_messages (projected : list Message) (skip : nat) (resolved : option ResolvedTool)
  : list Message :=
  List.filter (fun m =>
    negb (bool_decide ((resolved ≫= rt_message_id) = Some (m_id m)))) (drop skip projected).

Definition run_session (session : Session) (resolved : option ResolvedTool) : G ChatResult :=
  let sid := s_id session in
  if negb (s_provider session =s $"openai") then gfail (UnsupportedProvider (s_provider session))
  else
    let^ plugin := plugin_config in
    let^ tools := tool_or_fail (registry_for session plugin) in
    let^ mcp := prepare_mcp session plugin in
    let^ settings := user_config in
    register_secrets settings ;;^
    let options := mkCompressionOptions (us_tool_output_compression_enabled settings)
                     (co_min_chars default_options) (co_min_savings_percent default_options) in
    let^ candidates := routing (provider_candidates (us_routing settings) (s_model session)) in
    match candidates with
    | [] => gfail (ProviderFallbackExhausted $"no configured provider has credentials")
    | primary :: _ =>
      let^ opened := open_provider primary sid in
      match opened with
      | Err e => gfail e
      | Ok provider =>
        let^ prompt := build_system_prompt session settings plugin tools mcp in
        let definitions := tool_definitions_with_mcp (mr_tools mcp) in
        let^ history := access_or_fail (core_messages sid) in
        let^ (projected, cards) := gather_projection (current_user_message_id history) history in
        (if (0 <? hs_image_count cards)%Z
         then emit (EvVisionDescriptionsApplied sid (Z.to_nat (hs_image_count cards))
                      (Z.to_nat (hs_description_chars cards)) (hs_truncated cards) true)
         else gret tt) ;;^
        let^ window_start := access_or_fail (core_latest_context_window_start sid) in
        let^ calibrations := get_calibrations in
        let request := mkRequestBudget (s_model session) (us_model_context_windows settings)
                         (us_context_compaction_threshold_percent settings) prompt definitions
                         (token_calibration sid calibrations) in
        let^ budget :=
          if us_lossy_context_compaction_enabled settings
          then maybe_compact_history session provider primary history projected
                 (us_stream_idle_timeout_secs settings) request
          else gret (summarized_budget None (Nat.min window_start (length history))) in
        let^ delegate := resolve_vision_delegate settings sid in
        let^ known := get_known in
        let^ messages := add_resolved session settings options primary resolved
          (head_messages prompt history budget
           ++ map (fun m => provider_message_from_stored_with_options known m options)
                (sent_messages projected (hb_skip_message_count budget) resolved)) in
        emit (EvPlan sid initial_plan) ;;^
        round_loop json_error
          (mkTurnContext session settings plugin tools primary definitions options history request
             (image_message_ids projected) delegate)
          fuel (Nat.max (us_max_tool_rounds settings) 1) 0
          (mkTurn messages candidates (providers_with_multiple_keys candidates) new_route_cache false []
             ∅ false false mcp false false)
      end
    end.

(** ** Entry points *)

Definition core_result {A} (r : result A CoreError) : G A :=
  match r with
  | Ok a => gret a
  | Err e => gfail (core_failure e)
  end.

Definition with_images (params : ChatParams) (images : list ChatImageAttachment) : ChatParams :=
  if is_empty images then params
  else mkChatParams (cp_workspace_root params)
         (encode_user_message_with_images (cp_message params) images) (cp_mode params) (cp_provider params)
         (cp_model params) (cp_title params) (cp_session_id params) None.

(** The turn has failed: the session fails with it, and the client is told. *)
Definition report_failure {A} (sid : uuid) (error : AgentError) : G A :=
  let^ _ := access (fail_chat sid) in
  emit (EvError sid (AgentError_to_string error)) ;;^
  gfail error.

Definition is_open (status : SessionStatus) : bool :=
  match status with Running | NeedUser => true | _ => false end.

Definition chat_failed (sid : uuid) (error : AgentError) : G ChatResult :=
  match error with
  | AgentCancelled => cancelled_result sid
  | _ =>
    let^ cancelled := is_cancelled sid in
    if cancelled then cancelled_result sid
    else
      let^ current := access (session sid) in
      match current with
      | Ok current =>
        if is_open (s_status current) then report_failure sid error else gret (mkChatResult current None)
      | Err _ => report_failure sid error
      end
  end.

Definition chat (params : ChatParams) : G ChatResult :=
  let^ images := core_result (sanitize_chat_images (cp_images params)) in
  let params := with_images params images in
  if is_empty (trim (cp_message params))
  then gfail (core_failure (CoreInvalidInput $"message must not be empty"))
  else
    let^ session := access_or_fail (start_chat params) in
    gcatch (run_session session None) (chat_failed (s_id session)).

(** The error of the turn after an approval. *)
Definition resolve_failed (sid : uuid) (error : AgentError) : G ChatResult :=
  match error with
  | AgentCancelled => cancelled_result sid
  | _ =>
    let^ cancelled := is_cancelled sid in
    if cancelled then cancelled_result sid else report_failure sid error
  end.

Definition REJECTED_REASON : str :=
  $"The user rejected this action. Continue without making the change.".

(** The outcome of the decision: the result of a turn that is over, or what the next
    turn starts with. *)
Definition resolve_call (session : Session) (plugin : PluginConfig) (tools : ToolRegistry)
    (mcp : McpRuntime) (tool_call : ToolCall) (approved : bool) : G (ChatResult + ResolvedTool) :=
  let sid := s_id session in
  if approved then
    emit (EvToolStart sid tool_call ($"Approved " ++ mcp_display_name tool_call)) ;;^
    gcatch
      (let^ (recorded, _) := execute_and_record json_error session plugin tools tool_call mcp in
       gret (inr (mkResolved tool_call (ro_output recorded) (ro_raw_output recorded) (ro_message_id recorded))))
      (fun error =>
         match error with
         | AgentCancelled => let^ r := cancelled_result sid in gret (inl r)
         | _ =>
           let^ cancelled := is_cancelled sid in
           if cancelled then let^ r := cancelled_result sid in gret (inl r) else gfail error
         end)
  else
    let^ output := redacted_output
      (json_text (json [($"tool_call_id", JString (tc_id tool_call)); ($"rejected", JBool true);
                        ($"reason", JString REJECTED_REASON)])) in
    let^ _ := access_or_fail (record_tool_message sid output) in
    emit (EvToolEnd sid tool_call false $"Action rejected by user") ;;^
    gret (inr (mkResolved tool_call output output None)).

Definition resolve (params : ResolveActionParams) : G ChatResult :=
  let^ action := access_or_fail (core_resolve_pending_action (ra_session_id params) (ra_action_id params)
                                   (ra_approved params)) in
  let^ session := access_or_fail (resume_chat (ra_session_id params)) in
  let^ settings := user_config in
  register_secrets settings ;;^
  let^ plugin := plugin_config in
  let^ tools := tool_or_fail (registry_for session plugin) in
  let^ mcp := prepare_mcp session plugin in
  let^ outcome := resolve_call session plugin tools mcp (pa_tool_call action) (ra_approved params) in
  match outcome with
  | inl result => gret result
  | inr resolved => gcatch (run_session session (Some resolved)) (resolve_failed (s_id session))
  end.

Definition OLD_RESTORE_POINT : str :=
  $"restore point was created by an older XCoding version and cannot be safely rolled back".

Definition rollback (params : RollbackRestorePointParams) : G (Session * RestorePoint) :=
  let^ session := access_or_fail (session (rr_session_id params)) in
  let^ settings := user_config in
  register_secrets settings ;;^
  let^ point := access_or_fail (restore_point (s_id session) (rr_restore_point_id params)) in
  match rp_applied_text point with
  | None => gfail (core_failure (CoreInvalidInput OLD_RESTORE_POINT))
  | Some expected_text =>
    let^ plugin := plugin_config in
    let^ tools := tool_or_fail (registry_for session plugin) in
    let^ execution := tool_or_fail (rollback_patch tools (rp_path point) expected_text (rp_original_text point)) in
    let^ output := redacted_output
      (json_text (json [($"restore_point_id", JString (uuid_text (rp_id point)));
                        ($"path", JString (rp_path point)); ($"rolled_back", JBool true);
                        ($"output", te_output execution)])) in
    let^ _ := access_or_fail (record_tool_message (s_id session) output) in
    emit (EvRestorePointRolledBack (s_id session) point (te_summary execution)) ;;^
    let^ session := access_or_fail (Core.session (s_id session)) in
    gret (session, point)
  end.
End Sessions.
