(* ===== verification/AgentSteps.v ===== *)
(** * The steps of the agent (crates/xcoding-agent/src/lib.rs)

    The agent as a transition system: whatever it does is a sequence of steps of a few
    kinds, between which other clients use the service.  What every step keeps, the whole
    of a chat keeps. *)

From S2P Require Import Prelude.
From S2P Require Import Protocol.
From S2P Require Import Policy.
From S2P Require Import Sql.
From S2P Require Import Store.
From S2P Require Import Core.
From S2P Require Import CoreCalls.
From S2P Require Import Routing.
From S2P Require Import Transcript.
From S2P Require Import Text.
From S2P Require Import Files.
From S2P Require Import ToolArgs.
From S2P Require Import ToolText.
From S2P Require Import Tools.
From S2P Require Import PatchFacts.
From S2P Require Import ToolGit.
From S2P Require Import ToolCommand.
From S2P Require Import ToolSearch.
From S2P Require Import ToolGate.
From S2P Require Import ToolGateFacts.
From S2P Require Import Compression.
From S2P Require Import Context.
From S2P Require Import Mcp.
From S2P Require Import Secrets.
From S2P Require Import SecretRefs.
From S2P Require Import ProviderWire.
From S2P Require Import ProviderStream.
From S2P Require Import ProviderDsml.
From S2P Require Import Images.
From S2P Require Import History.
From S2P Require Import EchoGuard.
From S2P Require Import AgentCalls.
From S2P Require Import ContextTools.
From S2P Require Import AgentCallsFacts.
From S2P Require Import Vision.
From S2P Require Import Agent.
From S2P Require Import AgentRequests.
From S2P Require Import AgentTools.
From S2P Require Import AgentTurn.
From S2P Require Import AgentSession.

Create HintDb walks.

Section Steps.
Context {O : Outside} {Text_ : ErrorTexts} {En : Env} {Clk : Clock}.
Context `{Disk} `{Child} `{Git} `{Serde} `{IoText} `{UnicodeCase} `{Stopwatch} `{Home} `{Peer} `{McpFile}.
Context {Print : JsonText} {Parse : JsonParse} {Hash : HashStrings} {Chars : HashChars}.
Context {Time : TimeText} {Ids : UuidParse}.

(** ** The steps *)

(** The session that the agent works for, and the calls that the user has approved. *)
Variable session : Session.
Variable approved : ToolCall -> Prop.
Local Abbreviation sid := (s_id session).

(** The calls that the agent makes to the service: on its own session and the memories of
    its workspace; and what it remembers of images and routes. *)
Definition own_call (k : CoreCall) : Prop :=
  match k with
  | CoreMessages s | CoreCreateContextWindow s _ | CoreHistoryPage s _ _ | CoreHistoryMessage s _
  | CoreSearchHistory s _ _ _ | CoreSaveContextCompaction s _ _ | CoreSession s | CoreSessionDetail s
  | CoreTaskSummary s | CoreIsSessionCancelled s | CoreCreatePendingAction s _ | CorePauseChat s
  | CoreCreateRestorePoint s _ _ _ | CoreRecordToolMessage s _ | CoreRecordAssistantMessage s _
  | CoreCompleteChat s _ | CoreFailChat s => s = sid
  | CoreRecordEvent e => session_id_for_event e = sid
  | CoreSaveLocalMemory root _ | CoreReplaceLocalMemory root _ _ => root = s_workspace_root session
  | CoreSaveVisionDescription _ _ s _ => s = Some sid
  | CoreSaveVisionRouteStatus _ _ => True
  | _ => False
  end.

(** A registry of the tools for the workspace of the session. *)
Definition workspace_registry (reg : ToolRegistry) : Prop :=
  exists plugin w w', registry_for session plugin w = (Ok reg, w').

(** A call that may run: the user has approved it, or the policy allows it, with the
    preference for local APIs that has been configured and the rule for relays; or it is
    one of the two that a finished task is summarized with. *)
Definition policy_allows (tool_call : ToolCall) : Prop :=
  exists reg kind high_risk allowlisted n trust w w',
    workspace_registry reg /\
    permission_for reg tool_call w = (Ok (kind, high_risk, allowlisted), w') /\
    enforce_relay_tool_confirmation (s_mode session) trust
      (apply_local_api_confirmation_preference
         (evaluate_detailed (s_mode session) kind high_risk allowlisted)
         (us_skip_local_api_confirmation (load_user_config n)) kind high_risk tool_call)
      kind tool_call = Allow.
Definition summary_call (tool_call : ToolCall) : Prop :=
  tool_call = no_arguments $"task_summary_git_status" GitStatus \/
  tool_call = no_arguments $"task_summary_git_diff" GitDiff.
Definition may_run (tool_call : ToolCall) : Prop :=
  approved tool_call \/ policy_allows tool_call \/ summary_call tool_call.

(** Messages that are the copy of a request for a relay. *)
Definition relay_copy (known : list (list N)) (messages : list ChatMessage) : Prop :=
  exists candidate given location g g',
    pc_trust_level candidate = Relay /\
    provider_messages_for_request known given candidate sid location g = (Ok messages, g').

Inductive turn_step (s : AgentState) : AgentState -> Prop :=
| TableStep s' :
    ag_core s' = ag_core s -> ag_world s' = ag_world s -> ag_requests s' = ag_requests s ->
    ag_events s' = ag_events s -> ag_known s ⊆ ag_known s' -> turn_step s s'
| EventStep e : session_id_for_event e = sid -> turn_step s (log_event e s)
| OthersStep n : turn_step s (set_core (run_core_calls (others n) (ag_core s)) s)
| OwnStep k : own_call k -> turn_step s (set_core (run_core_call k (ag_core s)) s)
| ObserveStep w :
    w_fs w = w_fs (ag_world s) -> w_spawned w = w_spawned (ag_world s) -> turn_step s (set_world w s)
| ExecuteStep reg tool_call :
    workspace_registry reg -> may_run tool_call ->
    turn_step s (set_world (snd (execute_authorized reg tool_call (ag_world s))) s)
| RequestStep trust rq :
    (trust = Relay -> relay_copy (ag_known s) (rq_messages rq)) -> turn_step s (log_request trust rq s).

Definition walks {A} (m : G A) : Prop := forall s, rtc turn_step s (snd (m s)).

(** ** The rules *)

Lemma walks_ret {A} (a : A) : walks (gret a).
Proof. by intros s. Qed.
Lemma walks_stop {A} e : walks (@gstop A e).
Proof. by intros s. Qed.
Lemma walks_fail {A} e : walks (@gfail A e).
Proof. by intros s. Qed.

Lemma walks_bind {A B} (m : G A) (f : A -> G B) : walks m -> (forall a, walks (f a)) -> walks (gbind m f).
Proof.
  intros Hm Hf s. unfold gbind. specialize (Hm s). destruct (m s) as [[a|e] s']; [|done].
  etrans; [exact Hm|]. apply Hf.
Qed.

(** The same, with what is known of the result. *)
Lemma walks_bind_result {A B} (m : G A) (f : A -> G B) :
  walks m -> (forall a s s', m s = (Ok a, s') -> walks (f a)) -> walks (gbind m f).
Proof.
  intros Hm Hf s. unfold gbind. specialize (Hm s). destruct (m s) as [[a|e] s'] eqn:E; [|done].
  etrans; [exact Hm|]. by eapply Hf.
Qed.

Lemma walks_catch {A} (m : G A) h : walks m -> (forall e, walks (h e)) -> walks (gcatch m h).
Proof.
  intros Hm Hh s. unfold gcatch. specialize (Hm s). destruct (m s) as [[a|[e|p|]] s']; try done.
  etrans; [exact Hm|]. apply Hh.
Qed.

Lemma walks_tables {A} (m : G A) :
  (forall s, let s' := snd (m s) in
     ag_core s' = ag_core s /\ ag_world s' = ag_world s /\ ag_requests s' = ag_requests s /\
     ag_events s' = ag_events s /\ ag_known s ⊆ ag_known s') -> walks m.
Proof. intros Hm s. destruct (Hm s) as (? & ? & ? & ? & ?). by apply rtc_once, TableStep. Qed.

Lemma walks_draw : walks draw.
Proof. by apply walks_tables. Qed.
Lemma walks_known : walks get_known.
Proof. by apply walks_tables. Qed.
Lemma walks_registry : walks get_registry.
Proof. by apply walks_tables. Qed.
Lemma walks_calibrations : walks get_calibrations.
Proof. by apply walks_tables. Qed.
Lemma walks_routing {A} (m : R A) : walks (routing m).
Proof. apply walks_tables. intros s. unfold routing. by destruct (m (ag_runtime s)). Qed.
Lemma walks_references {A} (m : X A) : walks (references m).
Proof. apply walks_tables. intros s. unfold references. by destruct (m (ag_registry s)). Qed.

Lemma set_core_same s : set_core (ag_core s) s = s.
Proof. by destruct s. Qed.
Lemma set_world_same s : set_world (ag_world s) s = s.
Proof. by destruct s. Qed.

Lemma walks_interference : walks interference.
Proof.
  intros s. unfold interference. cbn [snd]. etrans; [apply rtc_once, (OthersStep s (ag_step s))|].
  by apply rtc_once, TableStep.
Qed.

Lemma walks_access {A} k (m : C A) :
  (forall c, snd (m c) = run_core_call k c) -> own_call k -> walks (access m).
Proof.
  intros Hm Hk. unfold access. apply walks_bind; [apply walks_interference|]. intros _ s.
  specialize (Hm (ag_core s)). destruct (m (ag_core s)) as [r c]. cbn [snd] in *. subst c.
  by apply rtc_once, OwnStep.
Qed.

Lemma walks_access_keeps {A} (m : C A) : core_keeps m -> walks (access m).
Proof.
  intros Hm. unfold access. apply walks_bind; [apply walks_interference|]. intros _ s.
  specialize (Hm (ag_core s)). destruct (m (ag_core s)) as [r c]. cbn [snd] in *. subst c.
  by rewrite set_core_same.
Qed.

Lemma walks_or_fail {A} (m : C A) : walks (access m) -> walks (access_or_fail m).
Proof.
  intros Hm. unfold access_or_fail. apply walks_bind; [done|]. by intros [a|e] s.
Qed.

Lemma walks_tool {A} (m : T A) : observes m -> walks (tool m).
Proof.
  intros Hm s. unfold tool. destruct (Hm (ag_world s)) as [Hf Hs].
  destruct (m (ag_world s)) as [r w]. cbn [snd] in *. by apply rtc_once, ObserveStep.
Qed.

(** ** Access to the service *)

Lemma run_own_calls ks s :
  Forall own_call ks -> rtc turn_step s (set_core (run_core_calls ks (ag_core s)) s).
Proof.
  revert s. induction ks as [|k ks IH]; intros s Hks.
  { cbn. by rewrite set_core_same. }
  inversion_clear Hks as [|? ? Hk Hks']. etrans; [by apply rtc_once, OwnStep|].
  exact (IH (set_core (run_core_call k (ag_core s)) s) Hks').
Qed.

Lemma walks_vision {A} (m : V A) : makes own_call m -> walks (access_vision m).
Proof.
  intros Hm. unfold access_vision. apply walks_bind; [apply walks_interference|]. intros _ s.
  destruct (Hm (ag_core s) (ag_table s)) as (ks & Hks & Hc).
  destruct (m (ag_core s, ag_table s)) as [a [c t]]. cbn [fst snd] in *. subst c.
  etrans; [by apply run_own_calls|]. by apply rtc_once, TableStep.
Qed.

Lemma walks_cached_description key : walks (access_vision (cached_vision_description key)).
Proof. apply walks_vision, makes_keeps, cached_description_keeps. Qed.

Lemma walks_store_description key model text :
  walks (access_vision (store_vision_description key model sid text)).
Proof.
  apply walks_vision. intros c t. exists [CoreSaveVisionDescription key model (Some sid) text].
  split; [by repeat constructor|]. unfold store_vision_description. cbn.
  by destruct (core_save_vision_description key model (Some sid) text c).
Qed.

Lemma walks_description images : walks (summary_description images).
Proof.
  apply walks_vision, makes_keeps. unfold vision_description_for_summary.
  destruct (is_empty images); [apply keeps_vret|].
  apply keeps_bind; [apply cached_description_keeps|]. intros o. apply keeps_vret.
Qed.

Lemma walks_cancelled : walks (is_cancelled sid).
Proof.
  unfold is_cancelled. apply walks_bind; [by apply (walks_access (CoreIsSessionCancelled sid))|].
  intros r. apply walks_ret.
Qed.

Lemma redact_event_session known e :
  session_id_for_event (redact_tool_call_event known e) = session_id_for_event e.
Proof. by destruct e. Qed.

Lemma walks_emit e : session_id_for_event e = sid -> walks (emit e).
Proof.
  intros He. unfold emit. apply walks_bind; [apply walks_known|]. intros known. cbv zeta.
  apply walks_bind.
  - destruct (should_persist_session_event _); [|apply walks_ret].
    apply walks_bind; [|intros r; apply walks_ret].
    eapply (walks_access (CoreRecordEvent _)); [done|]. cbn. by rewrite redact_event_session.
  - intros _ s. apply rtc_once, EventStep. by rewrite redact_event_session.
Qed.

End Steps.

(** The calls of the service for the session. *)
Ltac own_access :=
  match goal with
  | |- walks _ _ (access ?m) =>
    match m with
    | core_messages ?s => eapply walks_access with (k := CoreMessages s)
    | Core.session ?s => eapply walks_access with (k := CoreSession s)
    | session_detail ?s => eapply walks_access with (k := CoreSessionDetail s)
    | task_summary ?s => eapply walks_access with (k := CoreTaskSummary s)
    | is_session_cancelled ?s => eapply walks_access with (k := CoreIsSessionCancelled s)
    | core_create_pending_action ?s ?c => eapply walks_access with (k := CoreCreatePendingAction s c)
    | pause_chat ?s => eapply walks_access with (k := CorePauseChat s)
    | core_create_restore_point ?s ?p ?o ?n => eapply walks_access with (k := CoreCreateRestorePoint s p o n)
    | record_tool_message ?s ?o => eapply walks_access with (k := CoreRecordToolMessage s o)
    | record_assistant_message ?s ?o => eapply walks_access with (k := CoreRecordAssistantMessage s o)
    | complete_chat ?s ?o => eapply walks_access with (k := CoreCompleteChat s o)
    | fail_chat ?s => eapply walks_access with (k := CoreFailChat s)
    | core_save_local_memory ?r ?f => eapply walks_access with (k := CoreSaveLocalMemory r f)
    | core_save_context_compaction ?s ?x ?n => eapply walks_access with (k := CoreSaveContextCompaction s x n)
    | core_save_vision_route_status ?y ?x => eapply walks_access with (k := CoreSaveVisionRouteStatus y x)
    end; [done|done]
  end.

(** Walks through a definition. *)
Ltac walk_step :=
  match goal with
  | |- forall _, _ => intros ?
  | |- walks _ _ (gret _) => apply walks_ret
  | |- walks _ _ (gfail _) => apply walks_fail
  | |- walks _ _ (gstop _) => apply walks_stop
  | |- walks _ _ draw => apply walks_draw
  | |- walks _ _ get_known => apply walks_known
  | |- walks _ _ get_registry => apply walks_registry
  | |- walks _ _ get_calibrations => apply walks_calibrations
  | |- walks _ _ (routing _) => apply walks_routing
  | |- walks _ _ (references _) => apply walks_references
  | |- walks _ _ (emit _) => apply walks_emit
  | |- walks _ _ (is_cancelled _) => apply walks_cancelled
  | |- walks _ _ (access_or_fail _) => apply walks_or_fail
  | |- walks _ _ (access _) => own_access
  | |- walks _ _ (gbind _ _) => apply walks_bind; [|intros ?]
  | |- walks _ _ (gcatch _ _) => apply walks_catch; [|intros ?]
  | |- walks _ _ (match ?x with _ => _ end) => destruct x
  | |- walks _ _ (let _ := _ in _) => cbv zeta
  end.
Ltac walk := repeat first [solve [auto with walks nocore] | walk_step]; try done.

Section Operations.
Context {O : Outside} {Text_ : ErrorTexts} {En : Env} {Clk : Clock}.
Context `{Disk} `{Child} `{Git} `{Serde} `{IoText} `{UnicodeCase} `{Stopwatch} `{Home} `{Peer} `{McpFile}.
Context {Print : JsonText} {Parse : JsonParse} {Hash : HashStrings} {Chars : HashChars}.
Context {Time : TimeText} {Ids : UuidParse}.
Variable session : Session.
Variable approved : ToolCall -> Prop.
Local Abbreviation sid := (s_id session).
Local Abbreviation walks := (walks session approved).

(** ** The operations of every turn *)

Lemma walks_modify f :
  (forall s, ag_core (f s) = ag_core s /\ ag_world (f s) = ag_world s /\
     ag_requests (f s) = ag_requests s /\ ag_events (f s) = ag_events s /\ ag_known s ⊆ ag_known (f s)) ->
  walks (modify f).
Proof. intros Hf. by apply walks_tables. Qed.

(** Registration only adds to the secrets. *)
Lemma remember_grows key known : known ⊆ remember_trimmed key known.
Proof.
  unfold remember_trimmed, remember. destruct key as [key|]; [|done]. cbv zeta.
  destruct (is_empty _); [done|]. destruct (one_of _ _); [done|]. by apply list_subseteq_cons.
Qed.
Lemma foldl_grows {A} (f : list (list N) -> A -> list (list N)) l known :
  (forall known a, known ⊆ f known a) -> known ⊆ foldl f known l.
Proof.
  intros Hf. revert known. induction l as [|a l IH]; intros known; [done|]. cbn.
  etrans; [apply Hf|apply IH].
Qed.
Lemma register_grows config relay_key env_key known :
  known ⊆ register_known_secrets config relay_key env_key known.
Proof.
  unfold register_known_secrets. do 2 (etrans; [|apply remember_grows]).
  etrans; [|apply foldl_grows]; [apply remember_grows|]. intros k p.
  etrans; [|apply foldl_grows]; [apply remember_grows|]. intros k' a. apply remember_grows.
Qed.

Lemma walks_register config : walks (register_secrets config).
Proof. unfold register_secrets. walk. apply walks_modify. intros s. split_and!; try done. apply register_grows. Qed.
Lemma walks_config : walks user_config.
Proof. unfold user_config. walk. Qed.
Lemma walks_plugin : walks plugin_config.
Proof. unfold plugin_config. walk. Qed.
Lemma walks_elapsed : walks elapsed.
Proof. unfold elapsed. walk. Qed.
Lemma walks_open candidate s : walks (open_provider candidate s).
Proof. unfold open_provider. walk. Qed.
#[local] Hint Resolve walks_register walks_config walks_plugin walks_elapsed walks_open : walks.

Lemma walks_report candidate model endpoint purpose r :
  walks (emit_model_call_with_reported session candidate model endpoint purpose r).
Proof. unfold emit_model_call_with_reported. walk. Qed.

Lemma walks_persist content : walks (persist_partial_assistant_output sid content).
Proof. unfold persist_partial_assistant_output. walk. Qed.
#[local] Hint Resolve walks_report walks_persist : walks.

Lemma walks_preserving content : walks (cancelled_preserving sid content).
Proof. unfold cancelled_preserving. walk. Qed.
#[local] Hint Resolve walks_preserving : walks.

Lemma walks_ensure content : walks (ensure_not_cancelled_preserving sid content).
Proof. unfold ensure_not_cancelled_preserving. walk. Qed.

Lemma walks_poll n : walks (poll_cancelled n sid).
Proof. induction n; cbn [poll_cancelled]; walk. Qed.
#[local] Hint Resolve walks_ensure walks_poll : walks.

Lemma walks_delay content : walks (wait_for_retry_delay sid content).
Proof. unfold wait_for_retry_delay. walk. Qed.

Lemma walks_cancelled_result : walks (cancelled_result sid).
Proof. unfold cancelled_result. walk. Qed.
#[local] Hint Resolve walks_delay walks_cancelled_result : walks.
End Operations.

#[export] Hint Resolve walks_register walks_config walks_plugin walks_elapsed walks_open walks_report
  walks_persist walks_preserving walks_ensure walks_poll walks_delay walks_cancelled_result
  walks_vision walks_cached_description walks_store_description walks_description : walks.

(** ** The requests of a turn are steps (crates/xcoding-agent/src/lib.rs)

    Every part of [AgentRequests] is a sequence of the steps of [AgentSteps].  A request
    to a relay is sent with the copy that was made for it while the same secrets were
    known. *)

Section Requests.
Context {O : Outside} {Text_ : ErrorTexts} {En : Env} {Clk : Clock}.
Context `{Disk} `{Child} `{Git} `{Serde} `{IoText} `{UnicodeCase} `{Stopwatch} `{Home} `{Peer} `{McpFile}.
Context {Print : JsonText} {Parse : JsonParse} {Hash : HashStrings} {Chars : HashChars}.
Context {Time : TimeText} {Ids : UuidParse}.
Variable json_error : list N -> list N.
Variable session : Session.
Variable approved : ToolCall -> Prop.
Local Abbreviation sid := (s_id session).
Local Abbreviation walks := (walks session approved).
Local Abbreviation turn_step := (turn_step session approved).
Local Abbreviation relay_copy := (relay_copy session).

(** ** From a given state *)

Definition walks_at {A} (m : G A) (s : AgentState) : Prop := rtc turn_step s (snd (m s)).

Lemma walks_at_bind {A B} (m : G A) (f : A -> G B) s :
  walks_at m s -> (forall a s', m s = (Ok a, s') -> walks_at (f a) s') -> walks_at (gbind m f) s.
Proof.
  unfold walks_at, gbind. intros Hm Hf. destruct (m s) as [[a|e] s'] eqn:E; [|done].
  etrans; [exact Hm|]. by apply Hf.
Qed.

Lemma walks_at_walks {A} (m : G A) s : walks m -> walks_at m s.
Proof. intros Hm. apply Hm. Qed.

(** Computations after which the same secrets are known. *)
Definition same_known {A} (m : G A) : Prop := forall s, ag_known (snd (m s)) = ag_known s.

Lemma same_known_bind {A B} (m : G A) (f : A -> G B) :
  same_known m -> (forall a, same_known (f a)) -> same_known (gbind m f).
Proof.
  intros Hm Hf s. unfold gbind. specialize (Hm s). destruct (m s) as [[a|e] s']; [|done].
  by rewrite Hf.
Qed.
Lemma same_known_access {A} (m : C A) : same_known (access m).
Proof. intros s. unfold access, gbind, interference. cbn. by destruct (m _). Qed.

Lemma same_known_is_cancelled : same_known (is_cancelled sid).
Proof. apply same_known_bind; [apply same_known_access|done]. Qed.

Lemma same_known_persist content : same_known (persist_partial_assistant_output sid content).
Proof.
  unfold persist_partial_assistant_output. cbv zeta. destruct (is_empty _); [done|].
  apply same_known_bind; [apply same_known_access|]. intros r. cbv zeta.
  match goal with |- same_known (if ?b then _ else _) => destruct b end; [done|].
  apply same_known_bind; [apply same_known_access|done].
Qed.

Lemma same_known_preserving content : same_known (cancelled_preserving sid content).
Proof.
  apply same_known_bind; [apply same_known_is_cancelled|]. intros [|]; [|done].
  apply same_known_bind; [apply same_known_persist|done].
Qed.

Lemma same_known_result {A} (m : G A) s r s' : same_known m -> m s = (r, s') -> ag_known s' = ag_known s.
Proof. intros Hm E. specialize (Hm s). by rewrite E in Hm. Qed.

(** ** The copy of a request *)

Lemma walks_request_copy messages candidate location :
  walks (request_copy messages candidate sid location).
Proof. unfold request_copy. walk. Qed.

Lemma request_copy_relay messages candidate location s copy s' :
  request_copy messages candidate sid location s = (Ok (Ok copy), s') ->
  pc_trust_level candidate = Relay -> relay_copy (ag_known s') copy.
Proof.
  intros Hc Ht. unfold request_copy, gbind, get_known, references in Hc.
  destruct (provider_messages_for_request _ _ _ _ _ _) as [r g'] eqn:E. injection Hc as -> <-.
  exists candidate, messages, location, (ag_registry s), g'. by split.
Qed.

Definition may_send (trust : ProviderTrustLevel) (rq : ProviderRequest) (s : AgentState) : Prop :=
  trust = Relay -> relay_copy (ag_known s) (rq_messages rq).

Lemma walks_send_chat trust rq s : may_send trust rq s -> walks_at (send_chat trust rq) s.
Proof.
  intros Hs. unfold walks_at, send_chat, gbind, draw, modify. cbn [snd].
  etrans; [by apply rtc_once, (TableStep _ _ s (set_step (S (ag_step s)) s))|].
  by apply rtc_once, RequestStep.
Qed.
Lemma walks_send_side trust rq s : may_send trust rq s -> walks_at (send_side trust rq) s.
Proof.
  intros Hs. unfold walks_at, send_side, gbind, draw, modify. cbn [snd].
  etrans; [by apply rtc_once, (TableStep _ _ s (set_step (S (ag_step s)) s))|].
  by apply rtc_once, RequestStep.
Qed.

(** A copy is made and what follows uses it. *)
Lemma walks_with_copy {A} messages candidate location (f : result (list ChatMessage) SensitiveContentBlock -> G A) :
  (forall b, walks (f (Err b))) ->
  (forall copy s, (pc_trust_level candidate = Relay -> relay_copy (ag_known s) copy) -> walks_at (f (Ok copy)) s) ->
  walks (gbind (request_copy messages candidate sid location) f).
Proof.
  intros He Hf s. apply walks_at_bind; [apply walks_at_walks, walks_request_copy|].
  intros [copy|b] s' Hc; [|apply He]. apply Hf. by eapply request_copy_relay.
Qed.

Lemma walks_after_side {A} trust rq (f : result (list SideHappening) ProviderError -> G A) s :
  may_send trust rq s -> (forall r, walks (f r)) -> walks_at (gbind (send_side trust rq) f) s.
Proof. intros Hs Hf. apply walks_at_bind; [by apply walks_send_side|]. intros r s' _. apply Hf. Qed.

(** ** One attempt *)

Lemma walks_failure st error : walks (attempt_failure st error).
Proof. unfold attempt_failure. walk. Qed.
Lemma walks_failure_without st error : walks (attempt_failure_without_calls st error).
Proof. unfold attempt_failure_without_calls. walk. Qed.
Lemma walks_early error : walks (early_failure error).
Proof. unfold early_failure. walk. Qed.
Lemma walks_gerr {A E} (m : G E) : walks m -> walks (@gerr A E m).
Proof. intros Hm. unfold gerr. walk. Qed.
#[local] Hint Resolve walks_failure walks_failure_without walks_early walks_gerr : walks.

Lemma walks_text_delta delta : walks (emit_text_delta sid delta).
Proof. unfold emit_text_delta. walk. Qed.
#[local] Hint Resolve walks_text_delta : walks.

Lemma walks_stream_event estimated e st : walks (stream_event sid estimated e st).
Proof. unfold stream_event. walk. by apply walks_modify. Qed.
Lemma walks_started e st : walks (started e st).
Proof. unfold started. walk. Qed.
#[local] Hint Resolve walks_stream_event walks_started : walks.

Lemma walks_stream_loop a b estimated l st : walks (stream_loop sid a b estimated l st).
Proof.
  revert st. induction l as [|[e|e| |] l IH]; intros st; cbn [stream_loop]; walk.
Qed.

Lemma walks_finish definitions st : walks (finish_attempt json_error sid definitions st).
Proof. unfold finish_attempt. walk. Qed.
#[local] Hint Resolve walks_stream_loop walks_finish : walks.

Lemma walks_attempt trust provider model messages definitions effort a b s :
  (trust = Relay -> relay_copy (ag_known s) messages) ->
  walks_at (stream_provider_attempt json_error session trust provider model messages definitions effort a b) s.
Proof.
  intros Hs. unfold stream_provider_attempt. cbv zeta.
  apply walks_at_bind; [apply walks_at_walks; walk|]. intros [|] s1 Hc1; [by apply walks_at_walks, walks_ret|].
  apply walks_at_bind; [apply walks_at_walks; walk|].
  intros [|] s2 Hc2; [apply walks_at_walks; walk|].
  apply walks_at_bind.
  - apply walks_send_chat. intros Ht. cbn [rq_messages].
    rewrite (same_known_result _ _ _ _ same_known_is_cancelled Hc2).
    rewrite (same_known_result _ _ _ _ (same_known_preserving []) Hc1). by apply Hs.
  - intros opening s3 _. apply walks_at_walks. walk.
Qed.

(** ** Requests without a conversation *)

Lemma walks_gather_loop budget total seen used kept l :
  walks (gather_loop budget total seen used kept l).
Proof.
  revert seen used kept. induction l as [|m l IH]; intros seen used kept; cbn [gather_loop]; walk.
Qed.
#[local] Hint Resolve walks_gather_loop : walks.
Lemma walks_prompt_body messages budget : walks (gather_prompt_body messages budget).
Proof. unfold gather_prompt_body. walk. Qed.
#[local] Hint Resolve walks_prompt_body : walks.

Lemma walks_summarize provider candidate existing messages idle request :
  walks (summarize_history session provider candidate existing messages idle request).
Proof.
  unfold summarize_history. cbv zeta. apply walks_bind; [walk|]. intros body.
  apply walks_with_copy; [intros b; walk|]. intros copy s Hc.
  apply walks_after_side; [done|]. intros r. walk.
Qed.

Lemma walks_save_facts facts : walks (save_facts (s_workspace_root session) facts).
Proof. induction facts; cbn [save_facts]; walk. Qed.
#[local] Hint Resolve walks_summarize walks_save_facts : walks.

Lemma walks_memories provider candidate messages idle :
  walks (record_local_memories session provider candidate messages idle).
Proof.
  unfold record_local_memories. cbv zeta. apply walks_bind; [walk|]. intros body.
  destruct (is_empty _); [walk|]. apply walks_with_copy; [intros b; walk|]. intros copy s Hc.
  apply walks_after_side; [done|]. intros r. walk.
Qed.

(** ** Images and the history *)

Lemma walks_delegate config : walks (resolve_vision_delegate config sid).
Proof. unfold resolve_vision_delegate. walk. Qed.

(** A delegate that is a relay is refused before anything is sent. *)
Lemma walks_stream_vision delegate text images : walks (stream_vision_description delegate text images).
Proof.
  unfold stream_vision_description. case_bool_decide as Hr; [walk|]. cbv zeta. intros s.
  apply walks_after_side; [|intros r; walk]. intros Ht. by destruct Hr.
Qed.
#[local] Hint Resolve walks_stream_vision : walks.

Lemma walks_describe delegate text images historical :
  walks (describe_images session delegate text images historical).
Proof. unfold describe_images. walk. Qed.

Lemma compaction_keeps : core_keeps (context_compaction sid).
Proof. apply lift_keeps. intros st. reflexivity. Qed.

Lemma walks_compact provider candidate history projected idle request :
  walks (maybe_compact_history session provider candidate history projected idle request).
Proof.
  unfold maybe_compact_history. cbv zeta. apply walks_bind.
  { apply walks_or_fail, walks_access_keeps, compaction_keeps. }
  intros existing. walk.
Qed.
End Requests.

#[export] Hint Resolve walks_memories walks_delegate walks_describe walks_compact : walks.
