(* ===== verification/TurnSteps.v ===== *)
(** * The tools, the attempts and the rounds of a turn are steps (crates/xcoding-agent/src/lib.rs)

    Every part of [AgentTools], [AgentTurn] and [AgentSession] is a sequence of the steps
    of [AgentSteps]: a tool is executed only where the user or the policy allows it. *)

From S2P Require Import Prelude.
From S2P Require Import Protocol.
From S2P Require Import Policy.
From S2P Require Import Sql.
From S2P Require Import Store.
From S2P Require Import Core.
From S2P Require Import CoreCalls.
From S2P Require Import Routing.
From S2P Require Import Transcript.
From S2P Require Import Text.
From S2P Require Import Files.
From S2P Require Import ToolArgs.
From S2P Require Import ToolText.
From S2P Require Import Tools.
From S2P Require Import PatchFacts.
From S2P Require Import ToolGit.
From S2P Require Import ToolCommand.
From S2P Require Import ToolSearch.
From S2P Require Import ToolGate.
From S2P Require Import ToolGateFacts.
From S2P Require Import Compression.
From S2P Require Import Context.
From S2P Require Import Mcp.
From S2P Require Import Secrets.
From S2P Require Import SecretRefs.
From S2P Require Import ProviderWire.
From S2P Require Import Images.
From S2P Require Import History.
From S2P Require Import EchoGuard.
From S2P Require Import AgentCalls.
From S2P Require Import ContextTools.
From S2P Require Import AgentCallsFacts.
From S2P Require Import Vision.
From S2P Require Import Agent.
From S2P Require Import AgentRequests.
From S2P Require Import AgentTools.
From S2P Require Import AgentTurn.
From S2P Require Import AgentSession.
From S2P Require Import AgentSteps.

Section Turns.
Context {O : Outside} {Text_ : ErrorTexts} {En : Env} {Clk : Clock}.
Context `{Disk} `{Child} `{Git} `{Serde} `{IoText} `{UnicodeCase} `{Stopwatch} `{Home} `{Peer} `{McpFile}.
Context {Print : JsonText} {Parse : JsonParse} {Hash : HashStrings} {Chars : HashChars}.
Context {Time : TimeText} {Ids : UuidParse}.
Variable json_error : list N -> list N.
Variable session : Session.
Variable approved : ToolCall -> Prop.
Local Abbreviation sid := (s_id session).
Local Abbreviation walks := (walks session approved).
Local Abbreviation turn_step := (turn_step session approved).
Local Abbreviation workspace_registry := (workspace_registry session).
Local Abbreviation may_run := (may_run session approved).

(** ** The world of the tools *)

Lemma read_observes p : observes (of_io (read_to_string p)).
Proof. unfold read_to_string. observe. Qed.

Lemma new_registry_observes root flags : observes (new_with_plugin_config root flags).
Proof. unfold new_with_plugin_config, canonicalize, load_list, read_to_string. observe. Qed.

Lemma patch_preview_observes reg call : observes (patch_preview reg call).
Proof.
  unfold patch_preview, patch_preview_args. destruct (decide _); [|observe].
  apply observes_bind; [observe|]. intros args. apply observes_bind; [apply resolve_writable_observes|].
  intros path. apply observes_bind; [apply current_text_observes|observe].
Qed.

Lemma load_rules_observes root names : observes (load_rules root names).
Proof.
  induction names as [|n names IH]; cbn [load_rules]; [observe|].
  apply observes_bind; [unfold load_rule; observe; apply read_observes|]. intros r.
  apply observes_bind; [exact IH|observe].
Qed.

Lemma sorted_entries_observes dir : observes (sorted_entries dir).
Proof. unfold sorted_entries, read_dir. observe. Qed.

Lemma sketch_loop_observes root fuel pending paths : observes (sketch_loop root fuel pending paths).
Proof.
  revert pending paths. induction fuel as [|f IH]; intros [|[d n] rest] paths; cbn [sketch_loop];
    [observe|observe|observe|].
  apply observes_bind; [apply sorted_entries_observes|]. intros [es|]; [|apply IH].
  destruct (sketch_children _ _ _ _ _) as [[ps ds] stop]. destruct stop; [observe|apply IH].
Qed.

Lemma catalog_folders_observes flags source root display seen skills folders :
  observes (catalog_folders flags source root display seen skills folders).
Proof.
  revert seen skills. induction folders as [|n folders IH]; intros seen skills;
    cbn [catalog_folders]; [observe|].
  repeat match goal with |- observes (if ?b then _ else _) => destruct b end; try apply IH; [observe|].
  apply observes_bind; [apply observes_try, read_observes|]. intros [raw|]; apply IH.
Qed.

Lemma catalog_roots_observes flags roots seen skills : observes (catalog_roots flags roots seen skills).
Proof.
  revert seen skills. induction roots as [|[[a b] c] roots IH]; intros seen skills;
    cbn [catalog_roots]; [observe|].
  apply observes_bind; [apply sorted_entries_observes|]. intros [es|]; [|apply IH].
  apply observes_bind; [apply catalog_folders_observes|]. intros [s k]. apply IH.
Qed.

Lemma load_context_observes root flags : observes (load_context root flags).
Proof.
  unfold load_context. apply observes_bind; [apply load_rules_observes|]. intros rules.
  apply observes_bind.
  { unfold workspace_path_sketch. apply observes_bind; [apply sketch_loop_observes|observe]. }
  intros paths. apply observes_bind; [|observe]. unfold load_skill_catalog. apply catalog_roots_observes.
Qed.

(** ** Sequences of tool operations *)

Definition tool_walks {A} (m : T A) : Prop :=
  forall s, rtc turn_step s (set_world (snd (m (ag_world s))) s).

Lemma walks_tool_seq {A} (m : T A) : tool_walks m -> walks (tool m).
Proof.
  intros Hm s. specialize (Hm s). unfold tool. by destruct (m (ag_world s)) as [r w].
Qed.

Lemma tool_walks_observes {A} (m : T A) : observes m -> tool_walks m.
Proof.
  intros Hm s. destruct (Hm (ag_world s)) as [Hf Hs]. by apply rtc_once, ObserveStep.
Qed.

Lemma tool_walks_bind {A B} (m : T A) (f : A -> T B) :
  tool_walks m -> (forall a w w', m w = (Ok a, w') -> tool_walks (f a)) -> tool_walks (tbind m f).
Proof.
  intros Hm Hf s. specialize (Hm s). unfold tbind. destruct (m (ag_world s)) as [[a|e] w'] eqn:E; [|done].
  etrans; [exact Hm|]. exact (Hf a _ _ E (set_world w' s)).
Qed.

Lemma tool_walks_try {A} (m : T A) : tool_walks m -> tool_walks (try_ok m).
Proof. intros Hm s. specialize (Hm s). unfold try_ok. by destruct (m (ag_world s)) as [[a|e] w']. Qed.

Lemma tool_walks_execute reg call :
  workspace_registry reg -> may_run call -> tool_walks (execute_authorized reg call).
Proof. intros Hr Hc s. by apply rtc_once, ExecuteStep. Qed.

Lemma try_ok_some {A} (m : T A) w a w' : try_ok m w = (Ok (Some a), w') -> m w = (Ok a, w').
Proof. unfold try_ok. destruct (m w) as [[x|e] w'']; by intros [= -> ->]. Qed.

Lemma registry_for_walks plugin : tool_walks (registry_for session plugin).
Proof. apply tool_walks_observes, new_registry_observes. Qed.

Lemma git_summary_walks plugin : tool_walks (collect_git_task_summary session plugin).
Proof.
  unfold collect_git_task_summary. apply tool_walks_bind; [apply tool_walks_try, registry_for_walks|].
  intros [tools|] w w' Hr; [|apply tool_walks_observes; observe].
  apply try_ok_some in Hr. assert (workspace_registry tools) as Hreg by by exists plugin, w, w'.
  apply tool_walks_bind; [apply tool_walks_try, tool_walks_execute; [done|by right; right; left]|].
  intros status ? ? _. apply tool_walks_bind.
  - apply tool_walks_try, tool_walks_execute; [done|by right; right; right].
  - intros diff ? ? _. apply tool_walks_observes. observe.
Qed.

(** ** Tools *)

Lemma context_call_own call k : context_call session call k -> own_call session k.
Proof. unfold context_call. destruct (tc_name call), k; naive_solver. Qed.

Lemma makes_weaken {A} (P Q : CoreCall -> Prop) (v : V A) :
  (forall k, P k -> Q k) -> makes P v -> makes Q v.
Proof.
  intros HPQ Hv c t. destruct (Hv c t) as (ks & Hks & Hc). exists ks. split; [|done].
  eapply Forall_impl; [exact Hks|exact HPQ].
Qed.

Lemma walks_context_tool call : walks (access_vision (execute_context_management_tool core_error_text session call)).
Proof.
  apply walks_vision. eapply makes_weaken; [apply context_call_own|]. apply context_tool_makes.
Qed.
#[local] Hint Resolve walks_context_tool : walks.

Lemma walks_redacted output : walks (redacted_output output).
Proof. unfold redacted_output. walk. Qed.
#[local] Hint Resolve walks_redacted : walks.

Lemma walks_tool_error call error : walks (record_tool_error session call error).
Proof. unfold record_tool_error. walk. Qed.
#[local] Hint Resolve walks_tool_error : walks.

Lemma walks_rejected rejected : walks (record_rejected_tool_call session rejected).
Proof. unfold record_rejected_tool_call. walk. Qed.

Lemma walks_execution plugin reg call mcp :
  workspace_registry reg -> may_run call -> walks (execution_of json_error session plugin reg call mcp).
Proof.
  intros Hr Hc. unfold execution_of. destruct (is_context_management_tool _); [walk|].
  destruct (tc_name call);
    try (apply walks_bind; [by apply walks_tool_seq, tool_walks_execute|walk]); [|walk].
  apply walks_bind; [|walk]. apply walks_tool_seq, tool_walks_bind; [apply registry_for_walks|].
  intros reg' w w' Hr'. apply tool_walks_execute; [by exists plugin, w, w'|done].
Qed.

Lemma walks_preview reg call : walks (tool (patch_preview reg call)).
Proof. apply walks_tool, patch_preview_observes. Qed.
#[local] Hint Resolve walks_preview : walks.

Lemma walks_prepare_patch reg call : walks (prepare_patch session reg call).
Proof. unfold prepare_patch. walk. Qed.
Lemma walks_record_execution call execution : walks (record_execution session call execution).
Proof. unfold record_execution. walk. Qed.
#[local] Hint Resolve walks_rejected walks_execution walks_prepare_patch walks_record_execution : walks.

Lemma walks_execute plugin reg call mcp :
  workspace_registry reg -> may_run call ->
  walks (execute_and_record json_error session plugin reg call mcp).
Proof. intros Hr Hc. unfold execute_and_record. walk. Qed.

Lemma walks_git_summary plugin : walks (tool (collect_git_task_summary session plugin)).
Proof. apply walks_tool_seq, git_summary_walks. Qed.
#[local] Hint Resolve walks_git_summary : walks.
Lemma walks_summary : walks (enrich_task_summary session).
Proof. unfold enrich_task_summary. walk. Qed.
#[local] Hint Resolve walks_summary : walks.
End Turns.

#[export] Hint Resolve walks_context_tool walks_redacted walks_tool_error walks_rejected walks_preview walks_prepare_patch
  walks_record_execution walks_execute walks_summary : walks.

Section Attempts.
Context {O : Outside} {Text_ : ErrorTexts} {En : Env} {Clk : Clock}.
Context `{Disk} `{Child} `{Git} `{Serde} `{IoText} `{UnicodeCase} `{Stopwatch} `{Home} `{Peer} `{McpFile}.
Context {Print : JsonText} {Parse : JsonParse} {Hash : HashStrings} {Chars : HashChars}.
Context {Time : TimeText} {Ids : UuidParse}.
Variable json_error : list N -> list N.
Variable approved : ToolCall -> Prop.
Variable tx : TurnContext.
Hypothesis tools_of_workspace : workspace_registry (tx_session tx) (tx_tools tx).
Hypothesis settings_loaded : exists n, tx_settings tx = load_user_config n.
Local Abbreviation sid := (s_id (tx_session tx)).
Local Abbreviation walks := (walks (tx_session tx) approved).

(** ** The messages of an attempt *)

Lemma walks_retrying attempt message : walks (retrying tx attempt message).
Proof. unfold retrying. walk. Qed.
Lemma walks_switching label message : walks (switching tx label message).
Proof. unfold switching. destruct label; [apply walks_retrying|walk]. Qed.
#[local] Hint Resolve walks_retrying walks_switching : walks.

Lemma walks_route_status key : walks (access (core_get_vision_route_status key)).
Proof. apply walks_access_keeps, lift_keeps. intros st. reflexivity. Qed.
#[local] Hint Resolve walks_route_status : walks.

Lemma walks_initial candidate t : walks (initial_route_status tx candidate t).
Proof. unfold initial_route_status. walk. Qed.
Lemma walks_mark_unsupported candidate t : walks (mark_unsupported tx candidate t).
Proof. unfold mark_unsupported. walk. Qed.
Lemma walks_mark_supported candidate keys t : walks (mark_supported tx candidate keys t).
Proof. unfold mark_supported. walk. Qed.
#[local] Hint Resolve walks_initial walks_mark_unsupported walks_mark_supported : walks.

Lemma walks_describe_message candidate historical m cards :
  walks (describe_message tx candidate historical m cards).
Proof. unfold describe_message. walk. Qed.
#[local] Hint Resolve walks_describe_message : walks.

Lemma walks_describe_loop candidate latest i messages cards count :
  walks (describe_loop tx candidate latest i messages cards count).
Proof.
  revert i cards count. induction messages as [|m messages IH]; intros i cards count;
    cbn [describe_loop]; walk.
Qed.
#[local] Hint Resolve walks_describe_loop : walks.

Lemma walks_attempt_messages candidate status t : walks (attempt_messages tx candidate status t).
Proof. unfold attempt_messages. walk. Qed.

(** ** The attempts *)

Lemma walks_handled h k t : walks (h t) -> (forall t, walks (k t)) -> walks (handled_by h k t).
Proof. intros Hh Hk. unfold handled_by. walk. Qed.

Lemma walks_after_delay attempt status message t : walks (retry_after_delay tx attempt status message t).
Proof. unfold retry_after_delay. walk. Qed.
#[local] Hint Resolve walks_after_delay : walks.

Lemma walks_handle_failure candidate attempt status failure next t :
  walks (handle_failure tx candidate attempt status failure next t).
Proof.
  unfold handle_failure. apply walks_handled; [unfold handle_echo; walk|]. clear t. intros t.
  apply walks_handled; [unfold handle_vision; walk|]. clear t. intros t.
  apply walks_handled; [unfold handle_cancelled; walk|]. clear t. intros t.
  apply walks_handled; [unfold handle_mismatch; walk|]. clear t. intros t.
  apply walks_handled; [unfold handle_retry; walk|]. clear t. intros t.
  apply walks_handled; [unfold handle_overflow; walk|]. clear t. intros t.
  unfold handle_switch. walk.
Qed.

Lemma walks_answer candidate endpoint round attempt keys a t :
  walks (handle_answer tx candidate endpoint round attempt keys a t).
Proof. unfold handle_answer. walk. Qed.
#[local] Hint Resolve walks_attempt_messages walks_handle_failure walks_answer : walks.

Lemma walks_one_attempt candidate next provider round attempt status t :
  walks (one_attempt json_error tx candidate next provider round attempt status t).
Proof.
  unfold one_attempt. cbv zeta. apply walks_bind; [walk|]. intros _.
  apply walks_bind; [walk|]. intros [[messages keys] t'].
  apply walks_with_copy; [intros b; walk|]. intros copy s Hc.
  apply walks_at_bind; [by apply walks_attempt|]. intros answer s' _. apply walks_at_walks. walk.
Qed.
#[local] Hint Resolve walks_one_attempt : walks.

Lemma walks_attempt_loop fuel candidate next provider round attempt status t :
  walks (attempt_loop json_error tx fuel candidate next provider round attempt status t).
Proof.
  revert attempt status t. induction fuel as [|fuel IH]; intros attempt status t;
    cbn [attempt_loop]; walk.
Qed.
#[local] Hint Resolve walks_attempt_loop : walks.

Lemma walks_try fuel round candidate next t :
  walks (try_candidate json_error tx fuel round candidate next t).
Proof. unfold try_candidate. walk. Qed.
#[local] Hint Resolve walks_try : walks.

Lemma walks_candidates fuel round candidates failures t :
  walks (candidate_loop json_error tx fuel round candidates failures t).
Proof.
  revert failures t. induction candidates as [|c l IH]; intros failures t; cbn [candidate_loop]; walk.
Qed.
#[local] Hint Resolve walks_candidates : walks.

(** ** Tool calls *)

Lemma walks_answer_error call error t : walks (answer_with_error tx call error t).
Proof. unfold answer_with_error. walk. Qed.
#[local] Hint Resolve walks_answer_error : walks.

Lemma walks_run_allowed candidate call t :
  may_run (tx_session tx) approved call -> walks (run_allowed json_error tx candidate call t).
Proof. intros Hc. unfold run_allowed. walk. Qed.

Lemma walks_ask call t : walks (ask_user tx call t).
Proof. unfold ask_user. walk. Qed.
#[local] Hint Resolve walks_ask : walks.

Lemma walks_permission reg call : walks (tool (permission_for reg call)).
Proof. apply walks_tool, permission_for_observes. Qed.

Lemma tool_outcome {A} (m : T A) s r s' :
  tool m s = (Ok r, s') -> exists w', m (ag_world s) = (r, w').
Proof. unfold tool. destruct (m (ag_world s)) as [x w']. intros [= -> _]. by exists w'. Qed.

Lemma walks_run_call candidate call t : walks (run_tool_call json_error tx candidate call t).
Proof.
  unfold run_tool_call. cbv zeta. apply walks_bind_result; [apply walks_permission|].
  intros [[[kind high_risk] allowlisted]|error] s s' Hp; [|walk].
  apply walks_bind; [walk|]. intros _.
  destruct (decision_on tx kind high_risk allowlisted call) eqn:Hd; [|walk|walk].
  apply walks_run_allowed. right. left. apply tool_outcome in Hp as [w' Hp].
  destruct settings_loaded as [n Hn]. unfold decision_on in Hd. cbv zeta in Hd. rewrite Hn in Hd.
  by exists (tx_tools tx), kind, high_risk, allowlisted, n, (pc_trust_level (tx_primary tx)), (ag_world s), w'.
Qed.
#[local] Hint Resolve walks_run_call : walks.

Lemma walks_tool_loop candidate calls t : walks (tool_loop json_error tx candidate calls t).
Proof. revert t. induction calls as [|call calls IH]; intros t; cbn [tool_loop]; walk. Qed.

(** ** The rounds *)

Lemma walks_finish_turn candidate content t : walks (finish_turn tx candidate content t).
Proof. unfold finish_turn. walk. Qed.
Lemma walks_start_round i t : walks (start_round tx i t).
Proof. unfold start_round. walk. Qed.
#[local] Hint Resolve walks_tool_loop walks_finish_turn walks_start_round : walks.

Lemma walks_one_round fuel i t : walks (one_round json_error tx fuel i t).
Proof. unfold one_round. walk. Qed.
#[local] Hint Resolve walks_one_round : walks.

Lemma walks_round_loop fuel rounds i t : walks (round_loop json_error tx fuel rounds i t).
Proof. revert i t. induction rounds as [|rounds IH]; intros i t; cbn [round_loop]; walk. Qed.
End Attempts.

#[export] Hint Resolve walks_round_loop : walks.

(** ** Chats *)

Section Sessions.
Context {O : Outside} {Text_ : ErrorTexts} {En : Env} {Clk : Clock}.
Context `{Disk} `{Child} `{Git} `{Serde} `{IoText} `{UnicodeCase} `{Stopwatch} `{Home} `{Peer} `{McpFile}.
Context {Print : JsonText} {Parse : JsonParse} {Hash : HashStrings} {Chars : HashChars}.
Context {Time : TimeText} {Ids : UuidParse}.
Variable json_error : list N -> list N.
Variable fuel : nat.
Variable session : Session.
Variable approved : ToolCall -> Prop.
Local Abbreviation sid := (s_id session).
Local Abbreviation walks := (walks session approved).

Lemma walks_tool_or_fail {A} (m : T A) : observes m -> walks (tool_or_fail m).
Proof. intros Hm. unfold tool_or_fail. apply walks_bind; [by apply walks_tool|walk]. Qed.

Lemma prepare_observes root plugin w :
  let w' := snd (prepare_with_plugin_config json_error root plugin w) in
  w_fs w' = w_fs w /\ w_spawned w' = w_spawned w.
Proof.
  unfold prepare_with_plugin_config, load_effective_mcp_config, load_mcp_config.
  destruct (negb _); cbn [snd]; [by destruct (effective_servers _ _)|].
  pose proof (read_observes (join_path root MCP_CONFIG_RELATIVE_PATH) w) as [Hf Hs]. revert Hf Hs.
  unfold of_io. destruct (read_to_string _ w) as [[raw|e] w1]; cbn [snd]; [|done].
  intros Hf Hs. destruct (parse_mcp_config_text raw) as [c|e]; [|done]. by destruct (effective_servers _ _).
Qed.

Lemma walks_prepare_mcp plugin : walks (prepare_mcp json_error session plugin).
Proof.
  intros s. unfold prepare_mcp.
  destruct (prepare_observes (workspace_path session) plugin (ag_world s)) as [Hf Hs].
  destruct (prepare_with_plugin_config _ _ _ _) as [[mcp|e] w]; by apply rtc_once, ObserveStep.
Qed.

Lemma walks_projection current history : walks (gather_projection current history).
Proof. induction history as [|m l IH]; cbn [gather_projection]; walk. Qed.

Lemma walks_prompt settings plugin tools mcp : walks (build_system_prompt session settings plugin tools mcp).
Proof.
  unfold build_system_prompt. apply walks_bind; [apply walks_tool_or_fail, load_context_observes|].
  intros context. apply walks_bind; [|walk]. destruct (us_local_memory_enabled settings); [|walk].
  apply walks_bind; [|walk]. apply walks_access_keeps, lift_keeps. intros st. reflexivity.
Qed.

Lemma walks_add_resolved settings options primary resolved messages :
  walks (add_resolved session settings options primary resolved messages).
Proof. unfold add_resolved. walk. Qed.

Lemma walks_window_start : walks (access_or_fail (core_latest_context_window_start sid)).
Proof. apply walks_or_fail, walks_access_keeps, lift_keeps. intros st. reflexivity. Qed.
#[local] Hint Resolve walks_prepare_mcp walks_projection walks_prompt walks_add_resolved walks_window_start : walks.

Lemma registry_for_result plugin s tools s' :
  tool_or_fail (registry_for session plugin) s = (Ok tools, s') -> workspace_registry session tools.
Proof.
  unfold tool_or_fail, gbind, tool. destruct (registry_for session plugin (ag_world s)) as [[r|e] w] eqn:E;
    [|done]. intros [= -> _]. by exists plugin, (ag_world s), w.
Qed.

Lemma config_result s settings s' : user_config s = (Ok settings, s') -> exists n, settings = load_user_config n.
Proof. intros [= <- _]. by eexists. Qed.

Lemma walks_run_session resolved : walks (run_session json_error fuel session resolved).
Proof.
  unfold run_session. cbv zeta. destruct (negb _); [walk|]. apply walks_bind; [walk|]. intros plugin.
  apply walks_bind_result; [apply walks_tool_or_fail, new_registry_observes|].
  intros tools s1 s1' Ht. apply registry_for_result in Ht. apply walks_bind; [walk|]. intros mcp.
  apply walks_bind_result; [walk|]. intros settings s2 s2' Hs. apply config_result in Hs.
  walk. by apply (walks_round_loop json_error approved (mkTurnContext session _ _ _ _ _ _ _ _ _ _)).
Qed.

Lemma walks_report_failure {A} error : walks (@report_failure _ _ _ A sid error).
Proof. unfold report_failure. walk. Qed.
#[local] Hint Resolve walks_report_failure : walks.
Lemma walks_chat_failed error : walks (chat_failed sid error).
Proof. unfold chat_failed. walk. Qed.
Lemma walks_resolve_failed error : walks (resolve_failed sid error).
Proof. unfold resolve_failed. walk. Qed.
End Sessions.
