(* ===== verification/AgentFacts.v ===== *)
(** * What a chat of the agent does (crates/xcoding-agent/src/lib.rs)

    A chat uses the service as a client of one session, beside the other clients; in ask
    mode it starts nothing but git and changes only files that the policy lets it change;
    and what it sends to a relay carries no secret. *)

From S2P Require Import Prelude.
From S2P Require Import Protocol.
From S2P Require Import Policy.
From S2P Require Import Sql.
From S2P Require Import Store.
From S2P Require Import Core.
From S2P Require Import CoreCalls.
From S2P Require Import Routing.
From S2P Require Import Transcript.
From S2P Require Import Text.
From S2P Require Import Files.
From S2P Require Import ToolArgs.
From S2P Require Import ToolText.
From S2P Require Import Tools.
From S2P Require Import PatchFacts.
From S2P Require Import ToolGit.
From S2P Require Import ToolCommand.
From S2P Require Import ToolSearch.
From S2P Require Import ToolGate.
From S2P Require Import ToolGateFacts.
From S2P Require Import Compression.
From S2P Require Import Context.
From S2P Require Import Mcp.
From S2P Require Import Secrets.
From S2P Require Import SecretRefs.
From S2P Require Import ProviderWire.
From S2P Require Import Images.
From S2P Require Import History.
From S2P Require Import EchoGuard.
From S2P Require Import AgentCalls.
From S2P Require Import ContextTools.
From S2P Require Import AgentCallsFacts.
From S2P Require Import Vision.
From S2P Require Import Agent.
From S2P Require Import AgentRequests.
From S2P Require Import AgentTools.
From S2P Require Import AgentTurn.
From S2P Require Import AgentSession.
From S2P Require Import AgentSteps.
From S2P Require Import SecretRefFacts.
From S2P Require Import TurnSteps.

Section Chats.
Context {O : Outside} {Text_ : ErrorTexts} {En : Env} {Clk : Clock}.
Context `{Disk} `{Child} `{Git} `{Serde} `{IoText} `{UnicodeCase} `{Stopwatch} `{Home} `{Peer} `{McpFile}.
Context {Print : JsonText} {Parse : JsonParse} {Hash : HashStrings} {Chars : HashChars}.
Context {Time : TimeText} {Ids : UuidParse}.
Variable json_error : list N -> list N.
Variable fuel : nat.

(** Nothing has been approved in a chat. *)
Definition unapproved (call : ToolCall) : Prop := False.
Local Abbreviation chat := (chat json_error fuel).
Local Abbreviation chat_step session := (turn_step session unapproved).

(** A chat ends before it has a session, or it goes on with the steps of its session. *)
Lemma chat_cases params s :
  ag_core (snd (chat params s)) = ag_core s /\ ag_world (snd (chat params s)) = ag_world s /\
  ag_requests (snd (chat params s)) = ag_requests s
  \/
  exists started, cp_session_id started = cp_session_id params /\
    cp_workspace_root started = cp_workspace_root params /\ cp_mode started = cp_mode params /\
    let c := run_core_calls (others (ag_step s)) (ag_core s) in
    match start_chat started c with
    | (Err _, c') =>
      ag_core (snd (chat params s)) = c' /\ ag_world (snd (chat params s)) = ag_world s /\
      ag_requests (snd (chat params s)) = ag_requests s
    | (Ok session, c') =>
      rtc (chat_step session) (set_core c' (set_step (S (ag_step s)) s)) (snd (chat params s))
    end.
Proof.
  unfold AgentSession.chat, core_result.
  destruct (sanitize_chat_images (cp_images params)) as [images|e]; [|by left].
  unfold gret, gbind. cbv beta iota zeta. destruct (is_empty (trim _)); [by left|]. right.
  exists (with_images params images). split_and!; [by unfold with_images; destruct (is_empty images)..|].
  cbv zeta. unfold access_or_fail, access, interference, gbind. cbn [ag_core set_core set_step].
  destruct (start_chat _ _) as [[session|e] c']; [|done].
  exact (walks_catch session unapproved _ _ (walks_run_session json_error fuel session unapproved None)
           (walks_chat_failed session unapproved) (set_core c' (set_step (S (ag_step s)) s))).
Qed.

(** ** The service *)

(** What the service sees during a chat. *)
Definition client_call (session : Session) (k : CoreCall) : Prop :=
  (exists n, k ∈ others n) \/ own_call session k.

Lemma core_calls_app ks ks' c : run_core_calls (ks ++ ks') c = run_core_calls ks' (run_core_calls ks c).
Proof. unfold run_core_calls. by rewrite foldl_app. Qed.

Lemma step_calls session approved s s' :
  turn_step session approved s s' ->
  exists ks, Forall (client_call session) ks /\ ag_core s' = run_core_calls ks (ag_core s).
Proof.
  intros Hs. destruct Hs as [s' Hc| | n | k Hk | | | ]; try (by exists []).
  - exists (others n). split; [|done]. apply Forall_forall. intros k Hk. left. by exists n.
  - exists [k]. split; [|done]. constructor; [by right|done].
Qed.

Lemma steps_calls session approved s s' :
  rtc (turn_step session approved) s s' ->
  exists ks, Forall (client_call session) ks /\ ag_core s' = run_core_calls ks (ag_core s).
Proof.
  induction 1 as [|s s1 s2 Hs _ (ks2 & Hk2 & Hc2)]; [by exists []|].
  destruct (step_calls _ _ _ _ Hs) as (ks1 & Hk1 & Hc1). exists (ks1 ++ ks2).
  split; [by apply Forall_app|]. by rewrite core_calls_app, <- Hc1.
Qed.

(** C9: A chat uses the service as one client among others: it starts the session for
    the given workspace, mode and identifier, and from then on the state of the service
    is that of a sequence of calls which are calls of other clients, calls for this
    session, notes on its workspace and entries of the caches of images and routes. *)
Theorem chat_is_client params s :
  let s' := snd (chat params s) in
  ag_core s' = ag_core s \/
  exists started, cp_session_id started = cp_session_id params /\
    cp_workspace_root started = cp_workspace_root params /\ cp_mode started = cp_mode params /\
    match start_chat started (run_core_calls (others (ag_step s)) (ag_core s)) with
    | (Err _, c') => ag_core s' = c'
    | (Ok session, c') => exists ks, Forall (client_call session) ks /\ ag_core s' = run_core_calls ks c'
    end.
Proof.
  cbv zeta. destruct (chat_cases params s) as [(Hc & _)|(started & Hi & Hr & Hm & Hs)]; [by left|].
  right. exists started. split_and!; [done..|]. cbv zeta in Hs.
  destruct (start_chat _ _) as [[session|e] c']; [|by destruct Hs].
  apply steps_calls in Hs as (ks & Hks & Hc). by exists ks.
Qed.

(** ** Ask mode *)

(** A process that runs git in the workspace with arguments of a known form. *)
Definition workspace_git (session : Session) (sp : Spawn) : Prop :=
  exists reg, workspace_registry session reg /\ git_spawn reg sp.

(** What a chat in ask mode does to the world of the tools. *)
Definition READING_TOOLS : list ToolName :=
  [ListDir; ReadFile; SearchCode; LoadSkill; BrowserState; UpdatePlan; GitStatus; GitDiff; GitLog; GitShow].
Inductive cautious_step (session : Session) (w : World) : World -> Prop :=
| ObserveWorld w' : w_fs w' = w_fs w -> w_spawned w' = w_spawned w -> cautious_step session w w'
| ReadWorld reg call :
    workspace_registry session reg -> tc_name call ∈ READING_TOOLS ->
    cautious_step session w (snd (execute_authorized reg call w))
| PatchWorld reg call args :
    workspace_registry session reg -> tc_name call = ApplyPatch ->
    from_apply_patch (tc_arguments call) = Ok args -> is_high_risk_path (ap_path args) = false ->
    cautious_step session w (snd (execute_authorized reg call w)).

Lemma ask_allows session kind high_risk allowlisted trust call :
  s_mode session = Ask ->
  enforce_relay_tool_confirmation (s_mode session) trust
    (apply_local_api_confirmation_preference
       (evaluate_detailed (s_mode session) kind high_risk allowlisted) false kind high_risk call)
    kind call = Allow ->
  kind = Read \/ kind = Write /\ high_risk = false.
Proof.
  intros ->. unfold apply_local_api_confirmation_preference. rewrite andb_false_r. cbn [andb].
  unfold enforce_relay_tool_confirmation, evaluate_detailed. cbv zeta.
  rewrite (bool_decide_eq_false_2 (Ask = FullAuto)), (bool_decide_eq_false_2 (Ask = AutoEdit)) by done.
  rewrite andb_false_r. destruct kind; [by left| | |]; destruct high_risk; cbn;
    intros Ha; try (by right); repeat case_bool_decide; destruct trust; done.
Qed.

(** A call that the policy lets run in ask mode. *)
Lemma permission_cases reg call w kind high_risk allowlisted w' :
  permission_for reg call w = (Ok (kind, high_risk, allowlisted), w') ->
  kind = Read \/ kind = Write /\ high_risk = false ->
  tc_name call ∈ READING_TOOLS \/
  (exists args, tc_name call = ApplyPatch /\ from_apply_patch (tc_arguments call) = Ok args /\
     is_high_risk_path (ap_path args) = false) \/
  forall reg', exists e, execute_authorized reg' call = terr e.
Proof.
  intros Hp Hk. unfold permission_for in Hp.
  destruct (tc_name call) eqn:Hn;
    lazymatch type of Hn with
    | _ = ApplyPatch => idtac
    | _ = RunCommand => idtac
    | _ => first [left; apply (bool_decide_unpack _); exact I
                 |injection Hp as <- <- <- <-; by destruct Hk as [?|[? ?]]
                 |right; right; intros reg'; unfold execute_authorized; rewrite Hn; by eexists]
    end.
  - right. left. unfold parse_arguments in Hp.
    destruct (from_apply_patch (tc_arguments call)) as [args|] eqn:Ha; [|done].
    exists args. split_and!; [done..|]. unfold of_result, tbind, tret in Hp. cbn in Hp.
    injection Hp as <- Hh _ _. by destruct Hk as [?|[_ <-]].
  - run_back. by destruct Hk as [?|[? ?]].
Qed.

(** ** Processes *)

Lemma spawns_bind {A B} (m : T A) (f : A -> T B) :
  spawns_none m -> (forall a, spawns_none (f a)) -> spawns_none (tbind m f).
Proof.
  intros Hm Hf w. specialize (Hm w). unfold tbind. destruct (m w) as [[a|e] w']; [|done].
  cbn in Hm. rewrite <- Hm. apply Hf.
Qed.
Lemma observes_spawns {A} (m : T A) : observes m -> spawns_none m.
Proof. intros Hm w. apply Hm. Qed.
Lemma change_spawns f : spawns_none (of_io (change f)).
Proof.
  intros w. unfold of_io, change, attempt. destruct (fault _); [done|].
  by destruct (f (w_fs w)).
Qed.

Lemma replace_file_spawns path text : spawns_none (replace_file path text).
Proof.
  unfold replace_file. cbv zeta. apply spawns_bind; [apply file_create_spawns|]. intros file.
  apply spawns_bind; [intros w; unfold of_io, write_all; by destruct (fault _)|]. intros _.
  apply spawns_bind; [apply observes_spawns; unfold sync_data; observe|]. intros _.
  apply spawns_bind.
  - intros w. pose proof (change_spawns (fun fs => fs_rename fs (temporary_sibling path) path) w) as Hr.
    revert Hr. unfold rename. by destruct (of_io _ w) as [[]].
  - intros [e|]; [|done]. apply spawns_bind; [|done]. intros w.
    pose proof (change_spawns (fun fs => fs_remove_file fs (temporary_sibling path)) w) as Hr.
    revert Hr. unfold try_ok, remove_file. by destruct (of_io _ w) as [[]].
Qed.

Lemma apply_patch_spawns reg args : spawns_none (apply_patch reg args).
Proof.
  unfold apply_patch. apply spawns_bind; [apply observes_spawns, resolve_writable_observes|]. intros p.
  apply spawns_bind; [apply observes_spawns, current_text_observes|]. intros [existed text].
  destruct (negb _); [done|]. apply spawns_bind; [|done]. unfold write_text_utf8.
  apply spawns_bind; [|intros _; apply replace_file_spawns]. destruct (parent_of p) as [up|]; [|done].
  intros w. pose proof (create_dir_all_spawns (length up) up w) as Hc. revert Hc.
  unfold of_io, create_dir_all. by destruct (create_dir_all_loop _ _ _) as [[]].
Qed.

Lemma cautious_spawns session w w' :
  cautious_step session w w' ->
  exists new, w_spawned w' = new ++ w_spawned w /\ Forall (workspace_git session) new.
Proof.
  intros [w1 _ Hs|reg call Hr Hn|reg call args Hr Hn Ha _].
  - by exists [].
  - assert (tc_name call ∈ [ListDir; ReadFile; SearchCode; LoadSkill; BrowserState; UpdatePlan] \/
            tc_name call ∈ [GitStatus; GitDiff; GitLog; GitShow; GitAdd; GitCommit; GitPush; GitFetch; GitPull])
      as [Ho|Hg].
    { unfold READING_TOOLS in Hn. rewrite !elem_of_cons in *. naive_solver. }
    + exists []. split; [|done]. apply (reading_observes reg call Ho w).
    + destruct (git_tools_ensure reg call Hg w) as [(new & Hw & Hf) _]. exists new.
      split; [done|]. eapply Forall_impl; [exact Hf|]. intros sp Hsp. by exists reg.
  - exists []. split; [|done]. unfold execute_authorized, with_args, parse_arguments. rewrite Hn, Ha.
    apply (apply_patch_spawns reg args w).
Qed.

Lemma cautious_steps_spawn session w w' :
  rtc (cautious_step session) w w' ->
  exists new, w_spawned w' = new ++ w_spawned w /\ Forall (workspace_git session) new.
Proof.
  induction 1 as [|w w1 w2 Hs _ (new & Hw & Hf)]; [by exists []|].
  apply cautious_spawns in Hs as (new1 & Hw1 & Hf1). exists (new ++ new1).
  split; [by rewrite Hw, Hw1, app_assoc|by apply Forall_app].
Qed.

Section Ask.
Hypothesis asks_local_api : forall n, us_skip_local_api_confirmation (load_user_config n) = false.

Lemma ask_step session s s' :
  s_mode session = Ask -> chat_step session s s' -> rtc (cautious_step session) (ag_world s) (ag_world s').
Proof.
  intros Hm Hs. destruct Hs as [s' _ Hw| | | |w Hf Hsp|reg call Hr Hc| ]; try done.
  - by rewrite Hw.
  - by apply rtc_once, ObserveWorld.
  - cbn [ag_world set_world].
    destruct Hc as [[]|[(reg' & kind & hr & al & n & trust & w & w' & Hr' & Hp & Ha)|Hc]].
    + rewrite asks_local_api in Ha. apply ask_allows in Ha; [|done].
      destruct (permission_cases _ _ _ _ _ _ _ Hp Ha) as [Hn|[(args & Hn & Hargs & Hh)|He]].
      * by apply rtc_once, ReadWorld.
      * by eapply rtc_once, PatchWorld.
      * by destruct (He reg) as [e ->].
    + apply rtc_once, ReadWorld; [done|]. destruct Hc as [-> | ->]; apply (bool_decide_unpack _); exact I.
Qed.

Lemma ask_steps session s s' :
  s_mode session = Ask -> rtc (chat_step session) s s' -> rtc (cautious_step session) (ag_world s) (ag_world s').
Proof.
  intros Hm. induction 1 as [|s s1 s2 Hs _ IH]; [done|]. etrans; [by eapply ask_step|done].
Qed.

End Ask.

(** ** Relays *)

(** The texts of a message hold no secret of the list. *)
Definition no_secret_of (known : list (list N)) (m : ChatMessage) : Prop :=
  chat_message_has_images m = false /\
  forall text secret, text ∈ message_texts m -> secret ∈ known -> 4 <= byte_len secret ->
    is_empty (trim secret) = false -> contains secret text = false.

Definition clean_request (known : list (list N)) (sent : SentRequest) : Prop :=
  sn_trust sent = Relay -> known ⊆ sn_known sent /\
  Forall (fun m => m = chat_system SECRET_REFERENCE_INSTRUCTIONS \/ no_secret_of (sn_known sent) m)
    (rq_messages (sn_request sent)).

Lemma relay_copy_clean session known messages :
  relay_copy session known messages ->
  Forall (fun m => m = chat_system SECRET_REFERENCE_INSTRUCTIONS \/ no_secret_of known m) messages.
Proof.
  intros (candidate & given & location & g & g' & Ht & Hc).
  destruct (relay_request_parts _ _ _ _ _ _ _ _ Ht Hc) as (projected & -> & _ & Hp).
  apply Forall_app. split; [destruct (messages_contain_secret_reference _); repeat constructor|].
  eapply Forall_impl; [exact Hp|]. intros m [Hi Hs]. right. split; [done|].
  intros text secret Htext Hk Hl He. apply (Hs text Htext). by split; [|left].
Qed.

Lemma relay_steps session approved s s' :
  rtc (turn_step session approved) s s' -> ag_known s ⊆ ag_known s' /\
  exists new, ag_requests s' = ag_requests s ++ new /\ Forall (clean_request (ag_known s)) new.
Proof.
  induction 1 as [|s s1 s2 Hs _ (Hk2 & new & Hn & Hf)]; [split; [done|]; exists []; rewrite app_nil_r; by split|].
  assert (ag_known s ⊆ ag_known s1 /\
    exists new, ag_requests s1 = ag_requests s ++ new /\ Forall (clean_request (ag_known s)) new)
    as (Hk1 & new1 & Hn1 & Hf1).
  { destruct Hs as [s1 _ _ Hr _ Hk| | | | | |trust rq Hc];
      try (split; [done|]; exists []; rewrite app_nil_r; by split).
    split; [done|]. eexists [_]. split; [done|]. constructor; [|done]. intros Ht. split; [done|].
      by eapply relay_copy_clean, Hc. }
  split; [by etrans|]. exists (new1 ++ new). split; [by rewrite Hn, Hn1, app_assoc|].
  apply Forall_app. split; [done|]. eapply Forall_impl; [exact Hf|]. intros sent Hs' Ht.
  destruct (Hs' Ht) as [Hk Hm]. split; [by etrans|done].
Qed.

(** C7: Every request that a chat sends to a relay, for an answer, a summary or facts,
    carries no image, and no text of its messages contains a secret of four bytes or
    more that was known when the chat began or when the request was sent. *)
Theorem chat_keeps_secrets params s :
  exists new, ag_requests (snd (chat params s)) = ag_requests s ++ new /\
    Forall (clean_request (ag_known s)) new.
Proof.
  destruct (chat_cases params s) as [(_ & _ & Hr)|(started & _ & _ & _ & Hs)].
  { exists []. rewrite Hr, app_nil_r. by split. }
  cbv zeta in Hs. destruct (start_chat _ _) as [[session|e] c'].
  - by apply relay_steps in Hs as [_ Hs].
  - destruct Hs as (_ & _ & Hr). exists []. rewrite Hr, app_nil_r. by split.
Qed.

(** ** Decisions of the user *)

Local Abbreviation resolve := (resolve json_error fuel).

(** What a decision approves. *)
Definition decided (params : ResolveActionParams) (action : PendingAction) (call : ToolCall) : Prop :=
  ra_approved params = true /\ call = pa_tool_call action.

Lemma walks_resolve_call session approved plugin tools mcp call b :
  workspace_registry session tools -> (b = true -> approved call) ->
  walks session approved (resolve_call json_error session plugin tools mcp call b).
Proof.
  intros Hr Ha. unfold resolve_call. cbv zeta. destruct b; [|walk].
  assert (may_run session approved call) as Hm by (left; auto). walk.
Qed.

Lemma bind_access {A B} (m : C A) (f : A -> G B) s :
  gbind (access_or_fail m) f s =
  match m (run_core_calls (others (ag_step s)) (ag_core s)) with
  | (Ok a, c) => f a (set_core c (set_step (S (ag_step s)) s))
  | (Err e, c) => (Err (Failure (core_failure e)), set_core c (set_step (S (ag_step s)) s))
  end.
Proof.
  unfold access_or_fail, access, interference, gbind. cbn [ag_core set_core set_step].
  by destruct (m _) as [[a|e] c].
Qed.

(** A decision ends before the tools are ready, or goes on with the steps of its session. *)
Lemma resolve_cases params s :
  let s' := snd (resolve params s) in
  ag_world s' = ag_world s \/
  exists c c' action session s1,
    core_resolve_pending_action (ra_session_id params) (ra_action_id params) (ra_approved params) c
    = (Ok action, c') /\
    ag_world s1 = ag_world s /\ rtc (turn_step session (decided params action)) s1 s'.
Proof.
  cbv zeta. unfold AgentSession.resolve. rewrite bind_access.
  set (c := run_core_calls _ _). destruct (core_resolve_pending_action _ _ _ c) as [[action|e] c'] eqn:Er; [|by left].
  rewrite bind_access. destruct (resume_chat _ _) as [[session|e] c2]; [|by left].
  right. eexists c, c', action, session, _. split; [exact Er|].
  match goal with |- _ /\ rtc _ _ (snd (?m ?s2)) =>
    cut (walks session (decided params action) m); [intros Hm; split; [|exact (Hm s2)]; done|] end.
  apply walks_bind; [walk|]. intros settings. apply walks_bind; [walk|]. intros _.
  apply walks_bind; [walk|]. intros plugin.
  apply walks_bind_result; [apply walks_tool_or_fail, new_registry_observes|].
  intros tools s1 s1' Ht. apply registry_for_result in Ht. apply walks_bind; [apply walks_prepare_mcp|].
  intros mcp. apply walks_bind; [by apply walks_resolve_call; [|intros Hb; split]|].
  intros [result|resolved]; [walk|]. apply walks_catch; [apply walks_run_session|].
  intros e. apply walks_resolve_failed.
Qed.

(** What the tools of a session may do, given what may run. *)
Inductive tool_step (session : Session) (allowed : ToolCall -> Prop) (w : World) : World -> Prop :=
| LookAround w' : w_fs w' = w_fs w -> w_spawned w' = w_spawned w -> tool_step session allowed w w'
| RunTool reg call :
    workspace_registry session reg -> allowed call ->
    tool_step session allowed w (snd (execute_authorized reg call w)).

Lemma steps_tools session approved s s' :
  rtc (turn_step session approved) s s' ->
  rtc (tool_step session (may_run session approved)) (ag_world s) (ag_world s').
Proof.
  induction 1 as [|s s1 s2 Hs _ IH]; [done|]. etrans; [|exact IH]. clear IH.
  destruct Hs as [s1 _ Hw| | | |w Hf Hsp|reg call Hr Hc| ]; try done.
  - by rewrite Hw.
  - by apply rtc_once, LookAround.
  - by apply rtc_once, RunTool.
Qed.

End Chats.
