(* ===== verification/ChatEnds.v ===== *)
(** * The attempts at a provider end, and so does a chat (crates/xcoding-agent/src/lib.rs)

    The loop over the attempts at one provider has no bound in the source.  It ends when
    the provider does not go on refusing images that are no longer sent; else it may go
    on for ever.  Nothing else in a chat goes on without an end. *)

From S2P Require Import Prelude.
From S2P Require Import Protocol.
From S2P Require Import Policy.
From S2P Require Import Sql.
From S2P Require Import Store.
From S2P Require Import Core.
From S2P Require Import CoreCalls.
From S2P Require Import Routing.
From S2P Require Import Transcript.
From S2P Require Import Text.
From S2P Require Import Files.
From S2P Require Import ToolArgs.
From S2P Require Import ToolText.
From S2P Require Import Tools.
From S2P Require Import ToolGit.
From S2P Require Import ToolCommand.
From S2P Require Import ToolSearch.
From S2P Require Import ToolGate.
From S2P Require Import Compression.
From S2P Require Import Context.
From S2P Require Import Mcp.
From S2P Require Import Secrets.
From S2P Require Import SecretRefs.
From S2P Require Import SecretRefFacts.
From S2P Require Import ProviderWire.
From S2P Require Import ProviderConfig.
From S2P Require Import ProviderStream.
From S2P Require Import Images.
From S2P Require Import History.
From S2P Require Import EchoGuard.
From S2P Require Import AgentCalls.
From S2P Require Import ContextTools.
From S2P Require Import Vision.
From S2P Require Import Agent.
From S2P Require Import AgentRequests.
From S2P Require Import AgentTools.
From S2P Require Import AgentTurn.
From S2P Require Import AgentSession.

(** ** Results *)

(** A result satisfies [Q], and the rounds of the model are not used up. *)
Definition yields {A} (Q : A -> Prop) (m : G A) : Prop := forall s,
  match fst (m s) with
  | Ok a => Q a
  | Err OutOfFuel => False
  | Err _ => True
  end.
Definition ends {A} (m : G A) : Prop := yields (fun _ => True) m.

Lemma yields_ret {A} (Q : A -> Prop) a : Q a -> yields Q (gret a).
Proof. by intros Ha s. Qed.
Lemma yields_fail {A} (Q : A -> Prop) e : yields Q (gfail e).
Proof. by intros s. Qed.
Lemma yields_panic {A} (Q : A -> Prop) m : yields Q (gstop (Panicked m)).
Proof. by intros s. Qed.
Lemma yields_bind {A B} (P : A -> Prop) (Q : B -> Prop) m f :
  yields P m -> (forall a, P a -> yields Q (f a)) -> yields Q (gbind m f).
Proof.
  intros Hm Hf s. specialize (Hm s). unfold gbind. destruct (m s) as [[a|e] s']; [|done].
  exact (Hf a Hm s').
Qed.
Lemma yields_seq {A B} (Q : B -> Prop) (m : G A) f :
  ends m -> (forall a, yields Q (f a)) -> yields Q (gbind m f).
Proof. intros Hm Hf. eapply yields_bind; [exact Hm|auto]. Qed.
Lemma yields_weaken {A} (P Q : A -> Prop) m : yields P m -> (forall a, P a -> Q a) -> yields Q m.
Proof.
  intros Hm HPQ s. specialize (Hm s). destruct (fst (m s)) as [a|[]]; [by apply HPQ|done..].
Qed.
Lemma yields_ends {A} (Q : A -> Prop) m : yields Q m -> ends m.
Proof. intros Hm. by eapply yields_weaken. Qed.

Create HintDb ends.

(** Walks through a definition; the results that are of interest remain. *)
Ltac ends_step :=
  match goal with
  | |- forall _, _ => intros ?
  | |- yields _ (gret _) => apply yields_ret
  | |- ends (gret _) => by apply yields_ret
  | |- yields _ (gfail _) => apply yields_fail
  | |- ends (gfail _) => apply yields_fail
  | |- yields _ (gbind _ _) => apply yields_seq; [solve [auto with ends nocore]|intros ?]
  | |- ends (gbind _ _) => apply yields_seq; [|intros ?; change (@yields ?A (fun _ => True)) with (@ends A)]
  | |- yields _ (match ?x with _ => _ end) => destruct x
  | |- ends (match ?x with _ => _ end) => destruct x
  | |- yields _ (let _ := _ in _) => cbv zeta
  | |- ends (let _ := _ in _) => cbv zeta
  end.
Ltac end_walk := repeat first [solve [auto with ends nocore] | ends_step]; try done.

Section Attempts.
Context {O : Outside} {Text_ : ErrorTexts} {En : Env} {Clk : Clock}.
Context {Print : JsonText} {Parse : JsonParse} {Hash : HashStrings} {Chars : HashChars}.
Variable json_error : list N -> list N.

Lemma ends_draw : ends draw.
Proof. by intros s. Qed.
Lemma ends_known : ends get_known.
Proof. by intros s. Qed.
Lemma ends_modify f : ends (modify f).
Proof. by intros s. Qed.
Lemma ends_routing {A} (m : R A) : ends (routing m).
Proof. intros s. unfold routing. by destruct (m _). Qed.
Lemma ends_references {A} (m : X A) : ends (references m).
Proof. intros s. unfold references. by destruct (m _). Qed.
Lemma ends_access {A} (m : C A) : ends (access m).
Proof. intros s. unfold access, gbind, interference. cbn. by destruct (m _). Qed.
Lemma ends_vision {A} (m : V A) : ends (access_vision m).
Proof. intros s. unfold access_vision, gbind, interference. cbn. by destruct (m _) as [a [c t]]. Qed.
#[local] Hint Resolve ends_draw ends_known ends_modify ends_routing ends_references ends_access ends_vision : ends.

Lemma ends_emit e : ends (emit e).
Proof. unfold emit. end_walk. Qed.
Lemma ends_elapsed : ends elapsed.
Proof. unfold elapsed. end_walk. Qed.
Lemma ends_is_cancelled sid : ends (is_cancelled sid).
Proof. unfold is_cancelled. end_walk. Qed.
#[local] Hint Resolve ends_emit ends_elapsed ends_is_cancelled : ends.

Lemma ends_report session candidate model endpoint purpose r :
  ends (emit_model_call_with_reported session candidate model endpoint purpose r).
Proof. unfold emit_model_call_with_reported. end_walk. Qed.
Lemma ends_persist sid content : ends (persist_partial_assistant_output sid content).
Proof. unfold persist_partial_assistant_output. end_walk. Qed.
#[local] Hint Resolve ends_report ends_persist : ends.
Lemma ends_preserving sid content : ends (cancelled_preserving sid content).
Proof. unfold cancelled_preserving. end_walk. Qed.
#[local] Hint Resolve ends_preserving : ends.
Lemma ends_ensure sid content : ends (ensure_not_cancelled_preserving sid content).
Proof. unfold ensure_not_cancelled_preserving. end_walk. Qed.
Lemma ends_poll n sid : ends (poll_cancelled n sid).
Proof. induction n; cbn [poll_cancelled]; end_walk. Qed.
#[local] Hint Resolve ends_ensure ends_poll : ends.
Lemma ends_delay sid content : ends (wait_for_retry_delay sid content).
Proof. unfold wait_for_retry_delay. end_walk. Qed.
Lemma ends_text_delta sid delta : ends (emit_text_delta sid delta).
Proof. unfold emit_text_delta. end_walk. Qed.
#[local] Hint Resolve ends_delay ends_text_delta : ends.
Lemma ends_started e st : ends (started e st).
Proof. unfold started. end_walk. Qed.
Lemma ends_stream_event sid estimated e st : ends (stream_event sid estimated e st).
Proof. unfold stream_event. end_walk. Qed.
#[local] Hint Resolve ends_started ends_stream_event : ends.
Lemma ends_side trust rq : ends (send_side trust rq).
Proof. unfold send_side. end_walk. Qed.
#[local] Hint Resolve ends_side : ends.
Lemma ends_stream_vision delegate text images : ends (stream_vision_description delegate text images).
Proof. unfold stream_vision_description. end_walk. Qed.
#[local] Hint Resolve ends_stream_vision : ends.
Lemma ends_describe session delegate text images historical :
  ends (describe_images session delegate text images historical).
Proof. unfold describe_images. end_walk. Qed.
Lemma ends_copy messages candidate sid location : ends (request_copy messages candidate sid location).
Proof. unfold request_copy. end_walk. Qed.
#[local] Hint Resolve ends_describe ends_copy : ends.

(** ** Why an attempt failed *)

(** A provider's error in the answer to a request with these messages. *)
Definition answered_error (messages : list ChatMessage) (e : ProviderError) : Prop :=
  exists n rq, rq_messages rq = messages /\
    (chat_answer n rq = Refused e \/ exists l, chat_answer n rq = Opened l /\ Broken e ∈ l).

Definition failed_with (P : ProviderError -> Prop) {A} (r : result A ProviderAttemptFailure) : Prop :=
  match r with
  | Ok _ => True
  | Err failure => forall e, pf_error failure = AgentProvider e -> P e
  end.

Lemma yields_gerr {A E} (Q : result A E -> Prop) (m : G E) :
  yields (fun e => Q (Err e)) m -> yields Q (gerr m).
Proof. intros Hm. unfold gerr. eapply yields_bind; [exact Hm|]. intros e He. by apply yields_ret. Qed.

Lemma failure_yields st error : yields (fun f => pf_error f = error) (attempt_failure st error).
Proof. unfold attempt_failure. end_walk. Qed.
Lemma failure_without_yields st error :
  yields (fun f => pf_error f = error) (attempt_failure_without_calls st error).
Proof. unfold attempt_failure_without_calls. end_walk. Qed.
Lemma early_yields error : yields (fun f => pf_error f = error) (early_failure error).
Proof. unfold early_failure. end_walk. Qed.

Lemma gerr_failed {A} P m error :
  yields (fun f => pf_error f = error) m ->
  (forall e, error = AgentProvider e -> P e) -> yields (@failed_with P A) (gerr m).
Proof.
  intros Hm HP. apply yields_gerr. eapply yields_weaken; [exact Hm|]. intros f Hf e He.
  apply HP. congruence.
Qed.

Ltac failed :=
  first [eapply gerr_failed; [apply failure_yields|] | eapply gerr_failed; [apply failure_without_yields|]
        |eapply gerr_failed; [apply early_yields|]]; try done.

Lemma stream_loop_failed (P : ProviderError -> Prop) sid a b estimated l st :
  (forall e, Broken e ∈ l -> P e) -> yields (failed_with P) (stream_loop sid a b estimated l st).
Proof.
  revert st. induction l as [|h l IH]; intros st HP; cbn [stream_loop]; [by apply yields_ret|].
  assert (forall e, Broken e ∈ l -> P e) as HP' by (intros e He; apply HP; by constructor).
  destruct h as [e|e| |].
  - apply yields_seq; [auto with ends|]. intros st'. apply yields_seq; [auto with ends|].
    intros [|]; [by failed|]. apply yields_seq; [auto with ends|]. intros st2. by apply IH.
  - failed. intros e' [= <-]. apply HP. by constructor.
  - failed. unfold stream_timeout_error. by case_bool_decide.
  - apply yields_seq; [auto with ends|]. intros [|]; [by failed|]. by apply IH.
Qed.

Lemma finish_failed P sid definitions st : yields (failed_with P) (finish_attempt json_error sid definitions st).
Proof.
  unfold finish_attempt. destruct (guard_finish (sm_guard st)) as [rest guard].
  apply yields_seq; [end_walk|]. intros _. apply yields_seq; [auto with ends|].
  intros [|]; [by failed|]. apply yields_seq; [auto with ends|]. intros n. cbv zeta.
  match goal with |- yields _ (match ?x with _ => _ end) => destruct x as [recovered|reason] end; [|by failed].
  apply yields_seq; [end_walk|]. intros [content calls].
  repeat match goal with |- yields _ (if ?b then _ else _) => destruct b end; [by failed..|].
  apply yields_seq; [auto with ends|]. intros total. by apply yields_ret.
Qed.

Lemma attempt_failed session trust provider model messages definitions effort a b :
  yields (failed_with (answered_error messages))
    (stream_provider_attempt json_error session trust provider model messages definitions effort a b).
Proof.
  unfold stream_provider_attempt. cbv zeta.
  apply yields_seq; [auto with ends|]. intros [|]; [by apply yields_ret|].
  apply yields_seq; [auto with ends|]. intros [|]; [by failed|].
  apply (yields_bind (fun opening => exists n rq, rq_messages rq = messages /\ chat_answer n rq = opening)).
  { unfold send_chat. apply yields_seq; [auto with ends|]. intros n.
    apply yields_seq; [auto with ends|]. intros _. apply yields_ret. by exists n, (mkRequest provider model messages definitions effort). }
  intros opening (n & rq & Hrq & Ha).
  apply yields_seq; [auto with ends|]. intros m. apply yields_seq; [auto with ends|].
  intros [|]; [by failed|]. destruct opening as [l|e|].
  - apply (yields_bind (failed_with (answered_error messages))).
    + apply stream_loop_failed. intros e He. exists n, rq. split; [done|]. right. by exists l.
    + intros [st|f] Hf; [apply finish_failed|by apply yields_ret].
  - failed. intros e' [= <-]. exists n, rq. split; [done|]. by left.
  - by failed.
Qed.

(** ** Requests without images *)

(** The users' messages that go with images. *)
Definition shows_images (messages : list ChatMessage) : bool :=
  existsb (fun m => is_user m && chat_message_has_images m) messages.

Lemma copy_shows messages candidate sid location :
  yields (fun copy => match copy with
                      | Ok copy => shows_images messages = false -> shows_images copy = false
                      | Err _ => True
                      end) (request_copy messages candidate sid location).
Proof.
  unfold request_copy. apply (yields_bind (fun _ => True)); [by intros s|]. intros known _ s.
  unfold references. destruct (provider_messages_for_request _ _ _ _ _ _) as [[copy|b] g'] eqn:Hc; [|done].
  cbn. intros Hn. destruct (decide (pc_trust_level candidate = Relay)) as [Ht|Ht].
  - destruct (relay_request_parts _ _ _ _ _ _ _ _ Ht Hc) as (projected & -> & _ & Hp).
    unfold shows_images. rewrite existsb_app. apply orb_false_iff. split.
    { by destruct (messages_contain_secret_reference projected). }
    apply not_true_iff_false. intros (m & Hm & Hi)%existsb_exists. rewrite <- list_elem_of_In in Hm.
    rewrite Forall_forall in Hp. destruct (Hp m Hm) as [Hm' _]. by rewrite Hm', andb_false_r in Hi.
  - unfold provider_messages_for_request in Hc. rewrite bool_decide_eq_false_2 in Hc by done.
    unfold xret in Hc. injection Hc as <- _. destruct (messages_contain_secret_reference messages); exact Hn.
Qed.

Variable tx : TurnContext.

Lemma describe_message_shows candidate historical m cards :
  yields (fun r => is_user (fst (fst r)) && chat_message_has_images (fst (fst r)) = false)
    (describe_message tx candidate historical m cards).
Proof.
  unfold describe_message. cbv zeta. destruct (tx_delegate tx) as [delegate|].
  - apply yields_seq; [auto with ends|]. intros [description|e]; [|by apply yields_ret].
    destruct historical; [|by apply yields_ret]. destruct (render_card _ _ _ _ _) as [card cards'].
    by apply yields_ret.
  - destruct (bool_decide _); [apply yields_fail|by apply yields_ret].
Qed.

Lemma describe_loop_shows candidate latest i messages cards count :
  yields (fun r => shows_images (fst (fst r)) = false)
    (describe_loop tx candidate latest i messages cards count).
Proof.
  revert i cards count. induction messages as [|m messages IH]; intros i cards count;
    cbn [describe_loop]; [by apply yields_ret|].
  apply (yields_bind (fun r => is_user (fst (fst r)) && chat_message_has_images (fst (fst r)) = false)).
  { destruct (is_user m && chat_message_has_images m) eqn:E; [apply describe_message_shows|by apply yields_ret]. }
  intros [[m' cards'] described] Hm. eapply yields_bind; [apply IH|].
  intros [[rest cards''] count'] Hr. apply yields_ret. cbn in *. by rewrite Hm, Hr.
Qed.

Lemma attempt_messages_spec candidate status t :
  yields (fun r => tn_echo_retry_used (snd r) = tn_echo_retry_used t /\
                   (status = NativeUnsupported -> shows_images (fst (fst r)) = false /\ snd (fst r) = []))
    (attempt_messages tx candidate status t).
Proof.
  unfold attempt_messages. cbv zeta. destruct status; [by apply yields_ret..|].
  eapply yields_bind; [apply describe_loop_shows|]. intros [[messages cards] count] Hs. cbn in Hs.
  destruct (_ && _); [|by apply yields_ret]. apply yields_seq; [auto with ends|]. intros _. by apply yields_ret.
Qed.

(** ** What is left to try *)

Local Abbreviation max_retries := (us_max_provider_retries (tx_settings tx)).

(** Every further attempt uses up a retry, the one correction after an echo, or the one
    change to a route without images. *)
Definition left_over (t : Turn) (retry_attempt : nat) (status : VisionRouteStatus) : nat :=
  (max_retries - retry_attempt) + (if tn_echo_retry_used t then 0 else 1)
  + (if bool_decide (status = NativeUnsupported) then 0 else 1).

Lemma ends_retrying attempt message : ends (retrying tx attempt message).
Proof. unfold retrying. auto with ends. Qed.
#[local] Hint Resolve ends_retrying : ends.

Lemma mark_unsupported_spec candidate t :
  yields (fun t' => tn_echo_retry_used t' = tn_echo_retry_used t) (mark_unsupported tx candidate t).
Proof. unfold mark_unsupported. end_walk. Qed.
Lemma mark_supported_spec candidate keys t :
  yields (fun t' => tn_echo_retry_used t' = tn_echo_retry_used t) (mark_supported tx candidate keys t).
Proof. unfold mark_supported. end_walk. Qed.

Section Failed.
Variable candidate : ProviderCandidate.
Variable retry_attempt : nat.
Variable status : VisionRouteStatus.
Variable failure : ProviderAttemptFailure.

(** How a handler may end that starts with the turn [t]. *)
Definition progress (t : Turn) (r : option AttemptStep * Turn) : Prop :=
  match fst r with
  | Some (Again attempt status') => left_over (snd r) attempt status' < left_over t retry_attempt status
  | Some _ => True
  | None => tn_echo_retry_used (snd r) = tn_echo_retry_used t
  end.
Definition progresses (h : Handler) : Prop := forall t, yields (progress t) (h t).

Lemma progresses_by h k : progresses h -> progresses k -> progresses (handled_by h k).
Proof.
  intros Hh Hk t. unfold handled_by. eapply yields_bind; [apply Hh|]. intros [[step|] t'] Hp.
  - by apply yields_ret.
  - eapply yields_weaken; [apply Hk|]. intros [[[attempt st| |]|] t2]; unfold progress, left_over in *;
      cbn [fst snd] in *; try done; by rewrite Hp.
Qed.

Lemma passes t t' : tn_echo_retry_used t' = tn_echo_retry_used t -> yields (progress t) (gret (None, t')).
Proof. intros He. by apply yields_ret. Qed.

(** One retry more. *)
Lemma delay_progress t t' message :
  (retry_attempt <? max_retries) = true -> tn_echo_retry_used t' = tn_echo_retry_used t ->
  yields (progress t) (retry_after_delay tx (S retry_attempt) status message t').
Proof.
  intros Hr%Nat.ltb_lt He. unfold retry_after_delay. do 2 (apply yields_seq; [auto with ends|]; intros _).
  apply yields_ret. unfold progress, left_over. cbn [fst snd]. rewrite He. lia.
Qed.

Lemma echo_progress : progresses (handle_echo tx retry_attempt status failure).
Proof.
  intros t. unfold handle_echo. destruct (pf_error failure); try by apply passes.
  apply yields_seq; [auto with ends|]. intros _. destruct (tn_echo_retry_used t) eqn:He; [apply yields_fail|].
  cbv zeta. apply yields_seq; [auto with ends|]. intros _. apply yields_ret.
  unfold progress, left_over. cbn. rewrite He. lia.
Qed.

Lemma cancelled_progress : progresses (handle_cancelled failure).
Proof. intros t. unfold handle_cancelled. destruct (pf_error failure); try by apply passes. apply yields_fail. Qed.

Lemma mismatch_progress : progresses (handle_mismatch tx retry_attempt status failure).
Proof.
  intros t. unfold handle_mismatch. destruct (pf_error failure); try by apply passes.
  destruct (_ && _) eqn:Hb; [|by apply passes]. apply andb_true_iff in Hb as [_ Hb].
  destruct (repair_tool_transcript (tn_messages t)) as [messages repaired]. cbv zeta.
  destruct (0 <? repaired); [by apply delay_progress|by apply passes].
Qed.

Lemma retry_progress : progresses (handle_retry tx retry_attempt status failure).
Proof.
  intros t. unfold handle_retry. cbv zeta.
  match goal with |- yields _ (if ?b then _ else _) => destruct b eqn:Hb end.
  - apply andb_true_iff in Hb as [Hb _]. apply andb_true_iff in Hb as [_ Hb].
    apply yields_seq; [end_walk|]. intros _. apply delay_progress; [done|]. by destruct (_ && _).
  - apply passes. destruct (is_leaked_protocol failure && negb (tn_dsml_repair_attempted t)); reflexivity.
Qed.

Lemma overflow_progress : progresses (handle_overflow tx retry_attempt status failure).
Proof.
  intros t. unfold handle_overflow. destruct (_ && _) eqn:Hb; [|by apply passes].
  apply andb_true_iff in Hb as [_ Hb]. destruct (overflow_trim (tn_messages t)) as [[removed messages]|];
    [|by apply passes]. destruct (removed =? 0); [by apply yields_ret|by apply delay_progress].
Qed.

Lemma switch_progress next : progresses (handle_switch tx candidate failure next).
Proof.
  intros t. unfold handle_switch. cbv zeta. apply yields_seq; [end_walk|]. intros block.
  do 3 (apply yields_seq; [end_walk|]; intros _). by apply yields_ret.
Qed.

(** Images are refused once only: then they are not sent any more. *)
Hypothesis refused_with_images :
  status = NativeUnsupported -> forall e, pf_error failure = AgentProvider e -> is_vision_unsupported e = false.

Lemma vision_progress : progresses (handle_vision tx candidate retry_attempt failure).
Proof.
  intros t. unfold handle_vision. destruct (pf_error failure) eqn:He; try by apply passes.
  match type of He with _ = AgentProvider ?x => rename x into e end.
  destruct (is_vision_unsupported e) eqn:Hv; [|by apply passes].
  eapply yields_bind; [apply mark_unsupported_spec|]. intros t' Ht. cbn in Ht.
  apply yields_seq; [auto with ends|]. intros _. apply yields_ret. unfold progress, left_over. cbn [fst snd].
  rewrite Ht, (bool_decide_eq_true_2 (NativeUnsupported = _)) by done.
  rewrite bool_decide_eq_false_2; [lia|]. intros ->. by rewrite (refused_with_images eq_refl e eq_refl) in Hv.
Qed.

Lemma failure_progress next : progresses (handle_failure tx candidate retry_attempt status failure next).
Proof.
  repeat first [apply progresses_by | apply echo_progress | apply vision_progress | apply cancelled_progress
               | apply mismatch_progress | apply retry_progress | apply overflow_progress | apply switch_progress].
Qed.
End Failed.

(** ** The loop *)

(** A provider refuses images only where there are some. *)
Hypothesis refuses_images : forall messages e,
  shows_images messages = false -> answered_error messages e -> is_vision_unsupported e = false.

Definition attempt_progress (t : Turn) (retry_attempt : nat) (status : VisionRouteStatus)
    (r : AttemptStep * Turn) : Prop :=
  match fst r with
  | Again attempt status' => left_over (snd r) attempt status' < left_over t retry_attempt status
  | _ => True
  end.

Lemma busy_failed P r : failed_with P r -> failed_with P (busy_is_failure r).
Proof. destruct r as [a|f]; [|done]. intros _. unfold busy_is_failure. by destruct (is_transient_provider_busy_response _ _). Qed.

Lemma answer_progress candidate endpoint round retry_attempt status keys a t :
  (status = NativeUnsupported -> keys = []) ->
  yields (attempt_progress t retry_attempt status)
    (handle_answer tx candidate endpoint round retry_attempt keys a t).
Proof.
  intros Hk. unfold handle_answer. destruct (_ && _) eqn:Hb.
  - eapply yields_bind; [apply mark_unsupported_spec|]. intros t' Ht. cbn in Ht.
    do 2 (apply yields_seq; [auto with ends|]; intros _). apply yields_ret.
    unfold attempt_progress, left_over. cbn [fst snd]. rewrite Ht.
    rewrite (bool_decide_eq_true_2 (NativeUnsupported = _)) by done.
    rewrite bool_decide_eq_false_2; [lia|]. intros Hs. by rewrite (Hk Hs) in Hb.
  - do 3 (apply yields_seq; [auto with ends|]; intros _). apply yields_seq; [|intros t'; by apply yields_ret].
    destruct (bool_decide (configured_capability tx = Some true) && negb (is_empty keys)); [|by apply yields_ret].
    eapply yields_ends, mark_supported_spec.
Qed.

Lemma one_attempt_progress candidate next provider round retry_attempt status t :
  yields (attempt_progress t retry_attempt status)
    (one_attempt json_error tx candidate next provider round retry_attempt status t).
Proof.
  unfold one_attempt. cbv zeta. apply yields_seq; [auto with ends|]. intros _.
  eapply yields_bind; [apply attempt_messages_spec|]. intros [[messages keys] t'] [He Hi]. cbn in He, Hi.
  assert (forall r, attempt_progress t' retry_attempt status r -> attempt_progress t retry_attempt status r) as Hp.
  { intros [[a st| |] t2]; unfold attempt_progress, left_over; cbn [fst snd]; try done. by rewrite He. }
  eapply yields_bind; [apply copy_shows|]. intros [copy|b] Hc; [|apply yields_fail].
  eapply yields_bind; [apply attempt_failed|]. intros answer Hf. apply yields_seq; [auto with ends|]. intros _.
  apply busy_failed in Hf. destruct (busy_is_failure answer) as [a|failure].
  - eapply yields_weaken; [apply answer_progress|exact Hp]. intros Hs. by apply Hi.
  - apply yields_seq; [auto with ends|]. intros _. eapply yields_bind.
    + apply failure_progress. intros Hs e Hx. apply (refuses_images copy); [|by apply Hf].
      apply Hc. by apply Hi.
    + intros [[step|] t2] Hprog; apply yields_ret; [|done]. apply Hp.
      by destruct step; unfold attempt_progress, progress in *.
Qed.

(** A loop that has ended. *)
Definition over (r : AttemptStep * Turn) : Prop :=
  match fst r with Again _ _ => False | _ => True end.

Lemma attempt_loop_over fuel candidate next provider round retry_attempt status t :
  left_over t retry_attempt status < fuel ->
  yields over (attempt_loop json_error tx fuel candidate next provider round retry_attempt status t).
Proof.
  revert retry_attempt status t. induction fuel as [|fuel IH]; intros retry_attempt status t Hl; [lia|].
  cbn [attempt_loop]. eapply yields_bind; [apply one_attempt_progress|].
  intros [[attempt st| |] t'] Hp; [|by apply yields_ret..].
  unfold attempt_progress in Hp. cbn in Hp. apply IH. lia.
Qed.

Lemma left_over_bound t status : left_over t 0 status <= max_retries + 2.
Proof. unfold left_over. destruct (tn_echo_retry_used t), (bool_decide _); lia. Qed.

(** The attempts at one provider end: with a provider that refuses images only
    where a request has some, the loop runs at most three rounds more than the
    configured number of retries, whatever the provider answers. *)
Theorem attempts_end fuel candidate next provider round status t s :
  max_retries + 3 <= fuel ->
  match fst (attempt_loop json_error tx fuel candidate next provider round 0 status t s) with
  | Ok (Again _ _, _) | Err OutOfFuel => False
  | _ => True
  end.
Proof.
  intros Hf. pose proof (left_over_bound t status) as Hb.
  pose proof (attempt_loop_over fuel candidate next provider round 0 status t) as Ho.
  specialize (Ho ltac:(lia) s). destruct (fst _) as [[[]]|[]]; done.
Qed.
End Attempts.

(** ** A provider that always refuses *)

Section Refusal.
Context {O : Outside} {Text_ : ErrorTexts} {En : Env} {Clk : Clock}.
Context {Print : JsonText} {Parse : JsonParse} {Hash : HashStrings} {Chars : HashChars}.
Variable json_error : list N -> list N.
Variable tx : TurnContext.

(** Whatever is sent, the answer is an error that reads as a refusal of images. *)
Hypothesis always_refuses : forall n rq, exists e, chat_answer n rq = Refused e /\ is_vision_unsupported e = true.

Definition refused_or_cancelled (failure : ProviderAttemptFailure) : Prop :=
  pf_error failure = AgentCancelled \/
  exists e, pf_error failure = AgentProvider e /\ is_vision_unsupported e = true.

Lemma refused_attempt session trust provider model messages definitions effort a b :
  yields (fun r => match r with Ok _ => False | Err failure => refused_or_cancelled failure end)
    (stream_provider_attempt json_error session trust provider model messages definitions effort a b).
Proof.
  assert (forall error, error = AgentCancelled \/ (exists e, error = AgentProvider e /\ is_vision_unsupported e = true) ->
    yields (fun r : result StreamedAnswer _ => match r with Ok _ => False | Err failure => refused_or_cancelled failure end)
      (gerr (early_failure error))) as Hearly.
  { intros error He. apply yields_gerr. eapply yields_weaken; [apply early_yields|]. intros f <-. exact He. }
  unfold stream_provider_attempt. cbv zeta.
  apply yields_seq; [apply ends_preserving|]. intros [|]; [by apply yields_ret; left|].
  apply yields_seq; [apply ends_is_cancelled|]. intros [|]; [by apply Hearly; left|].
  apply (yields_bind (fun opening => exists e, opening = Refused e /\ is_vision_unsupported e = true)).
  { unfold send_chat. apply yields_seq; [apply ends_draw|]. intros n. apply yields_seq; [apply ends_modify|].
    intros _. apply yields_ret. apply always_refuses. }
  intros opening (e & -> & Hv). apply yields_seq; [apply ends_draw|]. intros m.
  apply yields_seq; [apply ends_poll|]. intros [|]; [by apply Hearly; left|]. apply Hearly. right. by exists e.
Qed.

Lemma refused_handled candidate retry_attempt status failure next t :
  refused_or_cancelled failure ->
  yields (fun r => fst r = Some (Again retry_attempt NativeUnsupported))
    (handle_failure tx candidate retry_attempt status failure next t).
Proof.
  unfold handle_failure, handled_by. intros [He|(e & He & Hv)].
  - unfold handle_echo, handle_vision, handle_cancelled. rewrite He. by intros s.
  - unfold handle_echo at 1. rewrite He. unfold handle_vision at 1. rewrite He, Hv.
    eapply yields_bind; [apply (yields_ret (fun r => r = (None, t))); done|]. intros [o t'] [= -> ->].
    apply (yields_bind (fun r => fst r = Some (Again retry_attempt NativeUnsupported))).
    + apply yields_seq; [eapply yields_ends, mark_unsupported_spec|]. intros t'.
      apply yields_seq; [apply ends_retrying|]. intros _. by apply yields_ret.
    + intros [o t'] Ho. cbn in Ho. subst o. by apply yields_ret.
Qed.

Lemma refused_one candidate next provider round retry_attempt status t :
  yields (fun r => fst r = Again retry_attempt NativeUnsupported)
    (one_attempt json_error tx candidate next provider round retry_attempt status t).
Proof.
  unfold one_attempt. cbv zeta. apply yields_seq; [apply ends_ensure|]. intros _.
  apply yields_seq; [eapply yields_ends, attempt_messages_spec|]. intros [[messages keys] t'].
  apply yields_seq; [apply ends_copy|]. intros [copy|b]; [|apply yields_fail].
  eapply yields_bind; [apply refused_attempt|]. intros [a|failure] Hf; [done|].
  apply yields_seq; [apply ends_ensure|]. intros _. apply yields_seq; [apply ends_report|]. intros _.
  eapply yields_bind; [by apply refused_handled|]. intros [step t2] Hs. cbn in Hs. subst step.
  by apply yields_ret.
Qed.

(** A provider that answers every request with an error that reads as a refusal of images
    is asked again and again: the retries are not counted, no other provider takes over,
    and the loop has no result, however many rounds it is given. *)
Theorem refusals_never_end fuel candidate next provider round retry_attempt status t s :
  match fst (attempt_loop json_error tx fuel candidate next provider round retry_attempt status t s) with
  | Ok _ => False
  | Err _ => True
  end.
Proof.
  revert retry_attempt status t s. induction fuel as [|fuel IH]; intros retry_attempt status t s; [done|].
  cbn [attempt_loop]. unfold gbind at 1.
  pose proof (refused_one candidate next provider round retry_attempt status t s) as Ho.
  destruct (one_attempt _ _ _ _ _ _ _ _ _ s) as [[[step t']|e] s']; [|done]. cbn in Ho. subst step. apply IH.
Qed.
End Refusal.

#[export] Hint Resolve ends_draw ends_known ends_modify ends_routing ends_references ends_access ends_vision
  ends_emit ends_elapsed ends_is_cancelled ends_report ends_persist ends_preserving ends_ensure ends_poll
  ends_delay ends_text_delta ends_side ends_describe ends_copy ends_retrying : ends.

(** ** A chat ends (crates/xcoding-agent/src/lib.rs)

    Nothing in a chat goes on without an end but the attempts at one provider: when these
    end, so does the chat. *)

Section Ends.
Context {O : Outside} {Text_ : ErrorTexts} {En : Env} {Clk : Clock}.
Context `{Disk} `{Child} `{Git} `{Serde} `{IoText} `{UnicodeCase} `{Stopwatch} `{Home} `{Peer} `{McpFile}.
Context {Print : JsonText} {Parse : JsonParse} {Hash : HashStrings} {Chars : HashChars}.
Context {Time : TimeText} {Ids : UuidParse}.
Variable json_error : list N -> list N.

(** ** The requests beside the answers *)

Lemma ends_tool {A} (m : T A) : ends (tool m).
Proof. intros s. unfold tool. by destruct (m _). Qed.
Lemma ends_registry : ends get_registry.
Proof. by intros s. Qed.
Lemma ends_calibrations : ends get_calibrations.
Proof. by intros s. Qed.
Lemma ends_or_fail {A} (m : C A) : ends (access_or_fail m).
Proof. unfold access_or_fail. end_walk. Qed.
Lemma ends_register config : ends (register_secrets config).
Proof. unfold register_secrets. end_walk. Qed.
Lemma ends_config : ends user_config.
Proof. unfold user_config. end_walk. Qed.
Lemma ends_plugin : ends plugin_config.
Proof. unfold plugin_config. end_walk. Qed.
Lemma ends_open candidate sid : ends (open_provider candidate sid).
Proof. unfold open_provider. end_walk. Qed.
#[local] Hint Resolve @ends_tool ends_registry ends_calibrations @ends_or_fail ends_register ends_config ends_plugin
  ends_open : ends.
Lemma ends_cancelled_result sid : ends (cancelled_result sid).
Proof. unfold cancelled_result. end_walk. Qed.
Lemma ends_description images : ends (summary_description images).
Proof. unfold summary_description. end_walk. Qed.
#[local] Hint Resolve ends_cancelled_result ends_description : ends.

Lemma ends_gather_loop budget total seen used kept l : ends (gather_loop budget total seen used kept l).
Proof. revert seen used kept. induction l; intros seen used kept; cbn [gather_loop]; end_walk. Qed.
#[local] Hint Resolve ends_gather_loop : ends.
Lemma ends_prompt_body messages budget : ends (gather_prompt_body messages budget).
Proof. unfold gather_prompt_body. end_walk. Qed.
#[local] Hint Resolve ends_prompt_body : ends.
Lemma ends_summarize session provider candidate existing messages idle request :
  ends (summarize_history session provider candidate existing messages idle request).
Proof. unfold summarize_history. end_walk. Qed.
Lemma ends_facts root facts : ends (save_facts root facts).
Proof. induction facts; cbn [save_facts]; end_walk. Qed.
#[local] Hint Resolve ends_summarize ends_facts : ends.
Lemma ends_memories session provider candidate messages idle :
  ends (record_local_memories session provider candidate messages idle).
Proof. unfold record_local_memories. end_walk. Qed.
Lemma ends_delegate config sid : ends (resolve_vision_delegate config sid).
Proof. unfold resolve_vision_delegate. end_walk. Qed.
Lemma ends_compact session provider candidate history projected idle request :
  ends (maybe_compact_history session provider candidate history projected idle request).
Proof. unfold maybe_compact_history. end_walk. Qed.
#[local] Hint Resolve ends_memories ends_delegate ends_compact : ends.

(** ** Tools *)

Lemma ends_redacted output : ends (redacted_output output).
Proof. unfold redacted_output. end_walk. Qed.
#[local] Hint Resolve ends_redacted : ends.
Lemma ends_tool_error session call error : ends (record_tool_error session call error).
Proof. unfold record_tool_error. end_walk. Qed.
#[local] Hint Resolve ends_tool_error : ends.
Lemma ends_rejected session rejected : ends (record_rejected_tool_call session rejected).
Proof. unfold record_rejected_tool_call. end_walk. Qed.
Lemma ends_execution session plugin reg call mcp : ends (execution_of json_error session plugin reg call mcp).
Proof. unfold execution_of. end_walk. Qed.
Lemma ends_prepare_patch session reg call : ends (prepare_patch session reg call).
Proof. unfold prepare_patch. end_walk. Qed.
Lemma ends_record_execution session call execution : ends (record_execution session call execution).
Proof. unfold record_execution. end_walk. Qed.
#[local] Hint Resolve ends_rejected ends_execution ends_prepare_patch ends_record_execution : ends.
Lemma ends_execute session plugin reg call mcp :
  ends (execute_and_record json_error session plugin reg call mcp).
Proof. unfold execute_and_record. end_walk. Qed.
Lemma ends_summary session : ends (enrich_task_summary session).
Proof. unfold enrich_task_summary. end_walk. Qed.
#[local] Hint Resolve ends_execute ends_summary : ends.

(** ** The rounds *)

Variable fuel : nat.
Hypothesis refuses_images : forall messages e,
  shows_images messages = false -> answered_error messages e -> is_vision_unsupported e = false.

Section Rounds.
Variable tx : TurnContext.
Hypothesis enough : us_max_provider_retries (tx_settings tx) + 3 <= fuel.

Lemma ends_switching label message : ends (switching tx label message).
Proof. unfold switching. end_walk. Qed.
Lemma ends_initial candidate t : ends (initial_route_status tx candidate t).
Proof. unfold initial_route_status. end_walk. Qed.
#[local] Hint Resolve ends_switching ends_initial : ends.

Lemma try_over round candidate next t :
  yields over (try_candidate json_error tx fuel round candidate next t).
Proof.
  unfold try_candidate. cbv zeta. destruct (bool_decide _); [by apply yields_ret|].
  apply yields_seq; [auto with ends|]. intros available. destruct (negb available).
  { apply yields_seq; [auto with ends|]. intros _. by apply yields_ret. }
  apply yields_seq; [auto with ends|]. intros allowed. destruct (negb allowed).
  { apply yields_seq; [auto with ends|]. intros _. by apply yields_ret. }
  apply yields_seq; [auto with ends|]. intros [provider|error].
  - apply yields_seq; [auto with ends|]. intros [status t']. apply attempt_loop_over; [done|].
    pose proof (left_over_bound tx t' status). lia.
  - do 3 (apply yields_seq; [auto with ends|]; intros _). by apply yields_ret.
Qed.

Lemma ends_candidates round candidates failures t :
  ends (candidate_loop json_error tx fuel round candidates failures t).
Proof.
  revert failures t. induction candidates as [|c l IH]; intros failures t; cbn [candidate_loop]; [end_walk|].
  eapply yields_bind; [apply try_over|]. intros [[| |] t'] Ho; [done|by apply yields_ret|apply IH].
Qed.
#[local] Hint Resolve ends_candidates : ends.

Lemma ends_answer_error call error t : ends (answer_with_error tx call error t).
Proof. unfold answer_with_error. end_walk. Qed.
#[local] Hint Resolve ends_answer_error : ends.
Lemma ends_run_allowed candidate call t : ends (run_allowed json_error tx candidate call t).
Proof. unfold run_allowed. end_walk. Qed.
Lemma ends_ask call t : ends (ask_user tx call t).
Proof. unfold ask_user. end_walk. Qed.
#[local] Hint Resolve ends_run_allowed ends_ask : ends.
Lemma ends_run_call candidate call t : ends (run_tool_call json_error tx candidate call t).
Proof. unfold run_tool_call. end_walk. Qed.
#[local] Hint Resolve ends_run_call : ends.
Lemma ends_tool_loop candidate calls t : ends (tool_loop json_error tx candidate calls t).
Proof. revert t. induction calls; intros t; cbn [tool_loop]; end_walk. Qed.
Lemma ends_finish_turn candidate content t : ends (finish_turn tx candidate content t).
Proof. unfold finish_turn. end_walk. Qed.
Lemma ends_start_round i t : ends (start_round tx i t).
Proof. unfold start_round. end_walk. Qed.
#[local] Hint Resolve ends_tool_loop ends_finish_turn ends_start_round : ends.
Lemma ends_one_round i t : ends (one_round json_error tx fuel i t).
Proof. unfold one_round. end_walk. Qed.
#[local] Hint Resolve ends_one_round : ends.
Lemma ends_round_loop rounds i t : ends (round_loop json_error tx fuel rounds i t).
Proof. revert i t. induction rounds; intros i t; cbn [round_loop]; end_walk. Qed.
End Rounds.

(** ** Chats *)

#[local] Hint Resolve ends_round_loop : ends.

Lemma ends_tool_or_fail {A} (m : T A) : ends (tool_or_fail m).
Proof. unfold tool_or_fail. end_walk. Qed.
Lemma ends_prepare_mcp session plugin : ends (prepare_mcp json_error session plugin).
Proof. intros s. unfold prepare_mcp. by destruct (prepare_with_plugin_config _ _ _ _) as [[|] w]. Qed.
Lemma ends_projection current history : ends (gather_projection current history).
Proof. induction history; cbn [gather_projection]; end_walk. Qed.
#[local] Hint Resolve @ends_tool_or_fail ends_prepare_mcp ends_projection : ends.
Lemma ends_prompt session settings plugin tools mcp :
  ends (build_system_prompt session settings plugin tools mcp).
Proof. unfold build_system_prompt. end_walk. Qed.
Lemma ends_add_resolved session settings options primary resolved messages :
  ends (add_resolved session settings options primary resolved messages).
Proof. unfold add_resolved. end_walk. Qed.
#[local] Hint Resolve ends_prompt ends_add_resolved : ends.

Hypothesis enough : forall n, us_max_provider_retries (load_user_config n) + 3 <= fuel.

Lemma ends_run_session session resolved : ends (run_session json_error fuel session resolved).
Proof.
  unfold run_session. cbv zeta. destruct (negb _); [apply yields_fail|].
  do 3 (apply yields_seq; [auto with ends|]; intros ?).
  apply (yields_bind (fun settings => us_max_provider_retries settings + 3 <= fuel)).
  { unfold user_config. apply yields_seq; [auto with ends|]. intros n. by apply yields_ret. }
  intros settings Hs. match goal with |- yields _ ?m => change (ends m) end. end_walk.
Qed.

Lemma ends_report_failure {A} sid error : ends (@report_failure _ _ _ A sid error).
Proof. unfold report_failure. end_walk. Qed.
#[local] Hint Resolve @ends_report_failure : ends.
Lemma ends_chat_failed sid error : ends (chat_failed sid error).
Proof. unfold chat_failed. end_walk. Qed.

Lemma ends_catch {A} (m : G A) h : ends m -> (forall e, ends (h e)) -> ends (gcatch m h).
Proof.
  intros Hm Hh s. specialize (Hm s). unfold gcatch. destruct (m s) as [[a|[e|p|]] s']; try done.
  exact (Hh e s').
Qed.

Lemma ends_chat params : ends (chat json_error fuel params).
Proof.
  unfold chat. apply yields_seq; [destruct (sanitize_chat_images _); end_walk|]. intros images. cbv zeta.
  destruct (is_empty _); [apply yields_fail|]. apply yields_seq; [auto with ends|]. intros session.
  apply ends_catch; [apply ends_run_session|apply ends_chat_failed].
Qed.

(** C11: A chat ends: with providers that refuse images only where a request has some,
    three rounds more than the configured number of retries are enough for the loop over
    the attempts at a provider, and every other loop of a chat is bounded by what it is
    given. *)
Theorem chat_ends params s : fst (chat json_error fuel params s) <> Err OutOfFuel.
Proof. pose proof (ends_chat params s) as He. intros Hx. by rewrite Hx in He. Qed.
End Ends.
