(* ===== verification/ToolLoopFacts.v ===== *)
(** * The tool calls of an answer (crates/xcoding-agent/src/lib.rs)

    Every call of an answer gets its result, in order, up to the first call that waits
    for the user. *)

From S2P Require Import Prelude.
From S2P Require Import Protocol.
From S2P Require Import Policy.
From S2P Require Import Sql.
From S2P Require Import Store.
From S2P Require Import Core.
From S2P Require Import CoreCalls.
From S2P Require Import Routing.
From S2P Require Import Transcript.
From S2P Require Import Text.
From S2P Require Import Files.
From S2P Require Import ToolArgs.
From S2P Require Import ToolText.
From S2P Require Import Tools.
From S2P Require Import ToolGit.
From S2P Require Import ToolCommand.
From S2P Require Import ToolSearch.
From S2P Require Import ToolGate.
From S2P Require Import Compression.
From S2P Require Import Context.
From S2P Require Import Mcp.
From S2P Require Import Secrets.
From S2P Require Import SecretRefs.
From S2P Require Import ProviderWire.
From S2P Require Import Images.
From S2P Require Import History.
From S2P Require Import EchoGuard.
From S2P Require Import AgentCalls.
From S2P Require Import ContextTools.
From S2P Require Import Vision.
From S2P Require Import Agent.
From S2P Require Import AgentRequests.
From S2P Require Import AgentTools.
From S2P Require Import AgentTurn.
From S2P Require Import ChatEnds.

Section Answers.
Context {O : Outside} {Text_ : ErrorTexts} {En : Env} {Clk : Clock}.
Context `{Disk} `{Child} `{Git} `{Serde} `{IoText} `{UnicodeCase} `{Stopwatch} `{Home} `{Peer} `{McpFile}.
Context {Print : JsonText} {Parse : JsonParse} {Hash : HashStrings} {Chars : HashChars}.
Context {Time : TimeText} {Ids : UuidParse}.
Variable json_error : list N -> list N.
Variable tx : TurnContext.

Definition result_for (id : list N) (m : ChatMessage) : Prop :=
  has_role $"tool" m = true /\ cm_tool_call_id m = Some id.

(** One result for a call that does not wait; nothing for one that does. *)
Definition one_result (id : list N) (t : Turn) (r : option ChatResult * Turn) : Prop :=
  match fst r with
  | Some _ => tn_messages (snd r) = tn_messages t
  | None => exists m, result_for id m /\ tn_messages (snd r) = tn_messages t ++ [m]
  end.

Lemma push_result_one id output t t' :
  tn_messages t' = tn_messages t -> one_result id t (None, push_result tx id output t').
Proof.
  intros He. eexists. split; [|cbn; by rewrite He]. by split.
Qed.

Lemma answer_error_one call error t : yields (one_result (tc_id call) t) (answer_with_error tx call error t).
Proof.
  unfold answer_with_error. apply yields_seq; [apply ends_tool_error|]. intros output. apply yields_ret.
  by apply push_result_one.
Qed.

Lemma record_no_start session call execution :
  tc_name call <> NewContext ->
  yields (fun r => ro_new_context_start r = None) (record_execution session call execution).
Proof.
  intros Hn. unfold record_execution. cbv zeta. apply yields_seq; [apply ends_redacted|]. intros output.
  apply yields_seq; [apply ends_or_fail|]. intros m. apply yields_seq; [apply ends_emit|]. intros _.
  apply yields_seq.
  { match goal with |- ends (match ?x with _ => _ end) => destruct x end; [apply ends_emit|by apply yields_ret]. }
  intros _. apply yields_ret. cbn [ro_new_context_start]. unfold new_context_start.
  by rewrite bool_decide_eq_false_2.
Qed.

Lemma execute_no_start session plugin reg call mcp :
  tc_name call <> NewContext ->
  yields (fun r => ro_new_context_start (fst r) = None)
    (execute_and_record json_error session plugin reg call mcp).
Proof.
  intros Hn. unfold execute_and_record. cbv zeta. apply yields_seq; [apply ends_config|]. intros config.
  apply yields_seq; [apply ends_register|]. intros _. apply yields_seq; [apply ends_is_cancelled|].
  intros [|]; [apply yields_fail|]. apply yields_seq; [apply ends_prepare_patch|].
  assert (forall error (mcp' : McpRuntime), yields (fun r : RecordedToolOutput * McpRuntime => ro_new_context_start (fst r) = None)
            (let^ output := record_tool_error session call error in gret (recorded_error output, mcp'))) as Hrec.
  { intros error mcp'. apply yields_seq; [apply ends_tool_error|]. intros output. by apply yields_ret. }
  intros [error|]; [apply Hrec|]. apply yields_seq; [apply ends_execution|]. intros [[execution|error] mcp'].
  - eapply yields_bind; [by apply record_no_start|]. intros r Hr. by apply yields_ret.
  - destruct error; try apply Hrec. apply yields_fail.
Qed.

Lemma run_allowed_one candidate call t :
  tc_name call <> NewContext -> yields (one_result (tc_id call) t) (run_allowed json_error tx candidate call t).
Proof.
  intros Hn. unfold run_allowed. eapply yields_bind; [by apply execute_no_start|]. intros [recorded mcp] Hr.
  cbn in Hr. apply yields_seq; [apply ends_known|]. intros known. cbv zeta. rewrite Hr.
  apply yields_seq; [apply ends_references|]. intros output. apply yields_ret. by apply push_result_one.
Qed.

Lemma ask_one call t : yields (one_result (tc_id call) t) (ask_user tx call t).
Proof.
  unfold ask_user. apply yields_seq.
  { destruct (bool_decide _); [|by apply yields_ret]. apply yields_seq; [apply ends_tool|].
    intros [preview|error]; [|by apply yields_ret]. apply yields_seq; [apply ends_emit|]. intros _. by apply yields_ret. }
  intros [error|]; [apply answer_error_one|]. do 2 (apply yields_seq; [apply ends_or_fail|]; intros ?).
  apply yields_seq; [apply ends_emit|]. intros _. by apply yields_ret.
Qed.

Lemma run_call_one candidate call t :
  tc_name call <> NewContext -> yields (one_result (tc_id call) t) (run_tool_call json_error tx candidate call t).
Proof.
  intros Hn. unfold run_tool_call. cbv zeta.
  set (t1 := set_mcp _ _ t). change (one_result (tc_id call) t) with (one_result (tc_id call) t1).
  apply yields_seq; [apply ends_tool|]. intros [[[kind high_risk] allowlisted]|error].
  - apply yields_seq; [apply ends_emit|]. intros _.
    destruct (decision_on _ _ _ _ _); [by apply run_allowed_one|apply ask_one|apply answer_error_one].
  - apply yields_seq; [apply ends_emit|]. intros _. apply answer_error_one.
Qed.

(** ** Calls *)

Lemma rejected_id call rejected : protocol_tool_call json_error call = Err rejected -> rj_id rejected = ptc_id call.
Proof.
  unfold protocol_tool_call. cbv zeta.
  destruct (match decode_tool_name (ptc_name call) with Some _ => _ | None => _ end); [|by intros [= <-]].
  destruct (from_str (ptc_arguments call)); [|by intros [= <-]].
  by destruct (decode_tool_name (ptc_name call)) as [[server tool]|].
Qed.

Lemma decoded_call call tool_call :
  protocol_tool_call json_error call = Ok tool_call ->
  tc_id tool_call = ptc_id call /\
  (tc_name tool_call = NewContext -> ToolName_from_str (ptc_name call) = Some NewContext).
Proof.
  unfold protocol_tool_call. cbv zeta. destruct (decode_tool_name (ptc_name call)) as [[server tool]|].
  - by destruct (from_str (ptc_arguments call)); intros [= <-].
  - destruct (ToolName_from_str (ptc_name call)) as [name|]; [|done].
    destruct (from_str (ptc_arguments call)); intros [= <-]. split; [done|]. by intros [= ->].
Qed.

Lemma resolved_call tool_call sid g name tool_call' :
  resolve_tool_call_secret_references tool_call sid g name = Ok tool_call' ->
  tc_id tool_call' = tc_id tool_call /\ tc_name tool_call' = tc_name tool_call.
Proof. unfold resolve_tool_call_secret_references. destruct (resolve_secret_references_in_json _ _ _); by intros [= <-]. Qed.

Lemma rejected_output rejected :
  yields (fun r => fst r = rj_id rejected) (record_rejected_tool_call (tx_session tx) rejected).
Proof.
  unfold record_rejected_tool_call. cbv zeta. destruct (rj_tool_call rejected).
  - apply yields_seq; [apply ends_emit|]. intros _. apply yields_seq; [apply ends_tool_error|].
    intros output. by apply yields_ret.
  - apply yields_seq; [apply ends_redacted|]. intros output. apply yields_seq; [apply ends_or_fail|].
    intros m. by apply yields_ret.
Qed.

(** How a list of calls is answered: all of them, or those before one that waits. *)
Definition answered (calls : list ProviderToolCall) (t : Turn) (r : option ChatResult * Turn) : Prop :=
  exists done results,
    Forall2 (fun call m => result_for (ptc_id call) m) done results /\
    tn_messages (snd r) = tn_messages t ++ results /\
    match fst r with
    | None => done = calls
    | Some _ => exists waiting rest, calls = done ++ waiting :: rest
    end.

Lemma tool_loop_answered candidate calls t :
  Forall (fun call => ToolName_from_str (ptc_name call) <> Some NewContext) calls ->
  yields (answered calls t) (tool_loop json_error tx candidate calls t).
Proof.
  intros Hc. revert t. induction Hc as [|call calls Hn _ IH]; intros t; cbn [tool_loop].
  { apply yields_ret. exists [], []. split_and!; [constructor|by rewrite app_nil_r|done]. }
  apply yields_seq; [apply ends_ensure|]. intros _.
  apply (yields_bind (one_result (ptc_id call) t)).
  - destruct (protocol_tool_call json_error call) as [tool_call|rejected] eqn:Ep.
    + apply decoded_call in Ep as [Hi Hx]. apply yields_seq; [apply ends_registry|]. intros g.
      destruct (resolve_tool_call_secret_references _ _ _ _) as [tool_call'|b] eqn:Er; [|apply yields_fail].
      apply resolved_call in Er as [Hi' Hn']. rewrite <- Hi, <- Hi'. apply run_call_one. rewrite Hn'. auto.
    + apply rejected_id in Ep. eapply yields_bind; [apply rejected_output|]. intros [id output] Hi. cbn in Hi.
      apply yields_ret. subst id. rewrite Ep. by apply push_result_one.
  - intros [[result|] t'] Ho; unfold one_result in Ho; cbn [fst snd] in Ho.
    + apply yields_ret. exists [], []. split_and!; [constructor|by rewrite app_nil_r|]. by exists call, calls.
    + destruct Ho as (m & Hm & Hmsg). eapply yields_weaken; [apply IH|].
      intros [r t2] (done & results & Hall & Hmsg2 & Hr). exists (call :: done), (m :: results).
      split_and!; [by constructor| |].
      * cbn [snd] in *. by rewrite Hmsg2, Hmsg, <- app_assoc.
      * cbn [fst] in *. destruct r as [result|]; [|by subst done].
        destruct Hr as (waiting & rest & ->). by exists waiting, rest.
Qed.

(** C10: Every tool call of an answer is answered: unless the turn fails, the messages
    of the turn are followed by one result with the identifier of its call for each call
    in order, or for each call before one that waits for the user. This holds for
    rejected, blocked, denied and failed calls as well; a call for a new context, which
    replaces the messages, is set apart. *)
Theorem every_call_answered candidate calls t s :
  Forall (fun call => ToolName_from_str (ptc_name call) <> Some NewContext) calls ->
  match fst (tool_loop json_error tx candidate calls t s) with
  | Ok (paused, t') =>
    exists done results,
      Forall2 (fun call m => has_role $"tool" m = true /\ cm_tool_call_id m = Some (ptc_id call)) done results /\
      tn_messages t' = tn_messages t ++ results /\
      match paused with
      | None => done = calls
      | Some _ => exists waiting rest, calls = done ++ waiting :: rest
      end
  | Err _ => True
  end.
Proof.
  intros Hc. pose proof (tool_loop_answered candidate calls t Hc s) as Ha.
  destruct (fst _) as [[paused t']|]; [exact Ha|done].
Qed.
End Answers.
