(* ===== verification/AgentDemo.v ===== *)
(** * Chats on an example (crates/xcoding-agent/src/lib.rs)

    The whole agent, evaluated on a service in memory, a small workspace and scripted
    providers: the witnesses of the theorems on chats, and runs that show what the code
    does when a cancellation comes late, when a workspace is gone, and when a provider
    refuses images that are not there. *)

From S2P Require Import Prelude.
From S2P Require Import Protocol.
From S2P Require Import Policy.
From S2P Require Import Sql.
From S2P Require Import Store.
From S2P Require Import Core.
From S2P Require Import CoreCalls.
From S2P Require Import Routing.
From S2P Require Import Transcript.
From S2P Require Import Text.
From S2P Require Import Files.
From S2P Require Import ToolArgs.
From S2P Require Import ToolText.
From S2P Require Import Tools.
From S2P Require Import PatchFacts.
From S2P Require Import ToolGit.
From S2P Require Import ToolCommand.
From S2P Require Import ToolSearch.
From S2P Require Import ToolGate.
From S2P Require Import ToolGateFacts.
From S2P Require Import Compression.
From S2P Require Import Context.
From S2P Require Import Mcp.
From S2P Require Import Secrets.
From S2P Require Import SecretRefs.
From S2P Require Import ProviderWire.
From S2P Require Import Images.
From S2P Require Import History.
From S2P Require Import EchoGuard.
From S2P Require Import AgentCalls.
From S2P Require Import ContextTools.
From S2P Require Import AgentCallsFacts.
From S2P Require Import Vision.
From S2P Require Import Agent.
From S2P Require Import AgentRequests.
From S2P Require Import AgentTools.
From S2P Require Import AgentTurn.
From S2P Require Import AgentSession.
From S2P Require Import AgentSteps.
From S2P Require Import ProviderConfig.
From S2P Require Import ProviderStream.
From S2P Require Import SecretRefFacts.
From S2P Require Import ChatEnds.
From S2P Require Import ToolLoopFacts.
From S2P Require Import AgentFacts.

(** ** The surroundings *)

#[local] Instance agent_env : Env := counter_env true.
#[local] Instance frozen_clock : Clock := fun _ => 0%Z.
#[local] Instance short_texts : ErrorTexts := {|
  core_error_text := fun _ => $"core"; http_error_text := fun _ => $"http" |}.
#[local] Instance no_peer : Peer := {|
  spawn_server := fun _ => None; write_error := fun _ _ => None; server_exited := fun _ _ _ => None;
  server_line := fun _ _ _ => Ok None; deadline_passed := fun _ _ _ _ => true; max_lines := 0 |}.
#[local] Instance no_servers : McpFile := fun _ => Ok [].
#[local] Instance same_hash : HashStrings := fun _ => 0%Z.
#[local] Instance same_char_hash : HashChars := fun _ => 0%N.
#[local] Instance now_text : TimeText := fun _ => $"now".
#[local] Instance no_uuids : UuidParse := fun _ => None.
(** Every text is the arguments of the same patch. *)
#[local] Instance patch_parse : JsonParse := fun _ =>
  Some (JObject [($"path", JString $"a.txt"); ($"old_text", JString $"old"); ($"new_text", JString $"new")]).

Definition agent_provider (trust : ProviderTrustLevel) : CloudProviderConfig :=
  mkProvider $"p" $"Provider" $"https://api.example" ChatCompletions trust (Some $"key-1") [] None.
Definition agent_settings (trust : ProviderTrustLevel) : TurnSettings :=
  mkTurnSettings (mkUserConfig None [agent_provider trust] (Some $"p") false []) None 1 2 60 60
    (mkCircuitSettings 3 1 1000 50 10) [] false false 80 [] [] false false false None [] None.

Definition surroundings (trust : ProviderTrustLevel) (foreign : nat -> list CoreCall)
    (answer : nat -> ProviderRequest -> Opening) : Outside := {|
  others := foreign;
  load_user_config := fun _ => agent_settings trust;
  load_plugin_config := fun _ => mkPluginConfig [] [] [];
  process_env := fun _ => ∅;
  chat_answer := answer;
  side_answer := fun _ _ => Ok [];
  cancel_polls := fun _ => 1;
  Agent.elapsed_ms := fun _ => 7%N;
  git_in_time := fun _ => true;
  current_dir := [];
|}.

Definition agent_params (mode : Mode) : ChatParams :=
  mkChatParams $"/ws" $"say hello" (Some mode) (Some $"openai") (Some $"gpt") None None None.
Definition agent_state : AgentState :=
  mkAgent (new_core None) demo_world new_runtime (mkRegistry ∅ 0) [] ∅ ∅ [] [] 0.

(** ** The providers *)

Definition no_others : nat -> list CoreCall := fun _ => [].
Definition greeting : nat -> ProviderRequest -> Opening := fun _ _ => Opened [Arrived (TextDelta $"Hello.")].
(** One call of the tool, then the greeting. *)
Definition calling (name : list N) : nat -> ProviderRequest -> Opening := fun n rq =>
  if existsb (has_role $"tool") (rq_messages rq) then greeting n rq
  else Opened [Arrived (EvToolCall (mkProviderCall $"c1" $"function" name $"{}" false))].
Definition image_refusal : ProviderError := HttpStatus 400 $"this model does not support image input" None.
Definition blind : nat -> ProviderRequest -> Opening := fun n rq =>
  if shows_images (rq_messages rq) then Refused image_refusal else greeting n rq.
Definition refusing : nat -> ProviderRequest -> Opening := fun _ _ => Refused image_refusal.

Definition no_error : list N -> list N := fun s => s.
Definition example_chat (trust : ProviderTrustLevel) (foreign : nat -> list CoreCall)
    (answer : nat -> ProviderRequest -> Opening) (mode : Mode) : result ChatResult Stop * AgentState :=
  @chat (surroundings trust foreign answer) _ _ _ _ _ _ _ _ _ _ _ _ _ _ _ _ _ _ _ no_error 4
    (agent_params mode) agent_state.

(** How a chat ends: the status of the session and the answer. *)
Definition outcome_of (r : result ChatResult Stop) : result (SessionStatus * option (list N)) Stop :=
  match r with
  | Ok result => Ok (s_status (cr_session result), option_map m_content (cr_message result))
  | Err e => Err e
  end.

(** ** Runs *)

Example greeting_chat : outcome_of (fst (example_chat Official no_others greeting Ask)) = Ok (Done, Some $"Hello.").
Proof. vm_compute. reflexivity. Qed.

(** A patch in ask mode is applied without a question, and the chat goes on with its
    result. *)
Example patching_chat :
  outcome_of (fst (example_chat Official no_others (calling $"apply_patch") Ask)) = Ok (Done, Some $"Hello.") /\
  w_fs (ag_world (snd (example_chat Official no_others (calling $"apply_patch") Ask))) !! [$"ws"; $"a.txt"]
  = Some (File (Utf8 $"new")).
Proof. vm_compute. by split. Qed.

(** The same patch for a relay waits for the user. *)
Example relay_chat :
  outcome_of (fst (example_chat Relay no_others (calling $"apply_patch") Ask)) = Ok (NeedUser, None) /\
  w_fs (ag_world (snd (example_chat Relay no_others (calling $"apply_patch") Ask))) !! [$"ws"; $"a.txt"]
  = Some (File (Utf8 $"old")).
Proof. vm_compute. by split. Qed.

(** A cancellation between the last check of a turn and the end of the chat: the service
    returns no message, which the agent expects. *)
Definition cancelling (k n : nat) : list CoreCall := if n =? k then [CoreCancelSession 2 None] else [].
Theorem late_cancellation_panics :
  outcome_of (fst (example_chat Official (cancelling 29) greeting Ask))
  = Err (Panicked $"completed chat has a message").
Proof. vm_compute. reflexivity. Qed.

(** An approved action whose workspace is gone: the decision fails with the error of the
    tools, and the session stays as if it were running. *)
Definition waiting_state : AgentState := snd (example_chat Official no_others (calling $"git_fetch") Ask).
Definition decide_example (approved : bool) (s : AgentState) : result ChatResult Stop * AgentState :=
  @resolve (surroundings Official no_others (calling $"git_fetch")) _ _ _ _ _ _ _ _ _ _ _ _ _ _ _ _ _ _ _
    no_error 4 (mkResolveAction 2 12 approved) s.
Theorem failed_decision_stays_running :
  let (r, s') := decide_example true (set_world (mkWorld ∅ 0 []) waiting_state) in
  r = Err (Failure (AgentTool $"workspace does not exist: /ws")) /\
  map s_status (sessions (db (store (ag_core s')))) = [Running].
Proof. vm_compute. by split. Qed.

(** The provider of [refusing] is asked without end although nothing is shown to it. *)
Theorem refused_text_is_retried :
  existsb (fun sent => shows_images (rq_messages (sn_request sent)))
    (ag_requests (snd (example_chat Official no_others refusing Ask))) = false /\
  length (ag_requests (snd (example_chat Official no_others refusing Ask))) = 4 /\
  outcome_of (fst (example_chat Official no_others refusing Ask)) = Err OutOfFuel.
Proof. vm_compute. split_and!; reflexivity. Qed.

(** ** Witnesses *)

Lemma blind_refuses_images messages e :
  shows_images messages = false ->
  @answered_error (surroundings Official no_others blind) messages e -> is_vision_unsupported e = false.
Proof.
  intros Hs (n & rq & <- & Ha). cbn [chat_answer surroundings] in Ha. unfold blind in Ha. rewrite Hs in Ha.
  destruct Ha as [Ha|(l & Ha & He)]; [discriminate Ha|]. injection Ha as <-.
  apply list_elem_of_singleton in He. discriminate He.
Qed.

Lemma chat_ends_witness :
  fst (example_chat Official no_others blind Ask) <> Err OutOfFuel.
Proof.
  apply (@chat_ends (surroundings Official no_others blind)).
  - exact blind_refuses_images.
  - intros n. cbn. lia.
Defined.

Definition example_session : Session :=
  mkSession 2 $"/ws" Ask $"openai" $"gpt" Running 0 0 None.
Definition example_candidate : ProviderCandidate :=
  mkCandidate $"p" $"default" $"Provider" $"https://api.example" ChatCompletions Official (Some $"key-1") None.
Definition example_tx : TurnContext :=
  mkTurnContext example_session (agent_settings Official) (mkPluginConfig [] [] []) demo_reg example_candidate []
    (mkCompressionOptions false 0 0) [] (mkRequestBudget $"gpt" [] 80 [] [] (token_calibration 2 ∅)) ∅ None.
Definition example_turn : Turn :=
  mkTurn [chat_user $"say hello"] [example_candidate] ∅ new_route_cache false [] ∅ false false
    (mkMcpRuntime ∅ [] []) false false.
Definition example_provider : OpenAiCompatibleProvider :=
  mkOpenProvider $"key-1" $"https://api.example/v1" ChatCompletions $"2".

Lemma attempts_end_witness :
  match fst (@attempt_loop (surroundings Official no_others blind) _ _ _ _ _ _ _ no_error example_tx 4
               example_candidate None example_provider 1 0 RouteUnknown example_turn agent_state) with
  | Ok (Again _ _, _) | Err OutOfFuel => False
  | _ => True
  end.
Proof.
  apply (@attempts_end (surroundings Official no_others blind)).
  - exact blind_refuses_images.
  - cbn. lia.
Defined.

Lemma refusals_never_end_witness :
  match fst (@attempt_loop (surroundings Official no_others refusing) _ _ _ _ _ _ _ no_error example_tx 20
               example_candidate None example_provider 1 0 RouteUnknown example_turn agent_state) with
  | Ok _ => False
  | Err _ => True
  end.
Proof.
  apply (@refusals_never_end (surroundings Official no_others refusing)).
  intros n rq. exists image_refusal. split; [reflexivity|vm_compute; reflexivity].
Defined.

#[local] Instance patching_provider : Outside := surroundings Official no_others (calling $"apply_patch").


Lemma every_call_answered_witness :
  let calls := [mkProviderCall $"c1" $"function" $"no_such_tool" $"{}" false;
                mkProviderCall $"c2" $"function" $"git_fetch" $"{}" false;
                mkProviderCall $"c3" $"function" $"read_file" $"{}" false] in
  match fst (tool_loop (O := surroundings Official no_others greeting) no_error
               example_tx example_candidate calls example_turn waiting_state) with
  | Ok (paused, t') =>
    exists done results,
      Forall2 (fun call m => has_role $"tool" m = true /\ cm_tool_call_id m = Some (ptc_id call)) done results /\
      tn_messages t' = tn_messages example_turn ++ results /\
      match paused with
      | None => done = calls
      | Some _ => exists waiting rest, calls = done ++ waiting :: rest
      end
  | Err _ => True
  end.
Proof.
  intros calls. apply (@every_call_answered (surroundings Official no_others greeting)).
  repeat constructor; vm_compute; discriminate.
Defined.
