(* ===== verification/Server.v ===== *)
(** * JSON-RPC (crates/xcoding-core/src/lib.rs, crates/xcoding-server/src/main.rs)

    The requests that a front end sends, one JSON text per line: [dispatch] decodes the
    parameters, calls the core service and maps its errors to codes; the server adds the
    requests that run the agent.  What [serde] derives for parameters and results is the
    class [RpcCodec]. *)

From S2P Require Import Prelude.
From S2P Require Import Protocol.
From S2P Require Import Policy.
From S2P Require Import Sql.
From S2P Require Import Store.
From S2P Require Import Core.
From S2P Require Import Routing.
From S2P Require Import Transcript.
From S2P Require Import Text.
From S2P Require Import Files.
From S2P Require Import ToolArgs.
From S2P Require Import ToolText.
From S2P Require Import Tools.
From S2P Require Import ToolGit.
From S2P Require Import ToolCommand.
From S2P Require Import ToolSearch.
From S2P Require Import ToolGate.
From S2P Require Import Compression.
From S2P Require Import Context.
From S2P Require Import Mcp.
From S2P Require Import Secrets.
From S2P Require Import SecretRefs.
From S2P Require Import ProviderWire.
From S2P Require Import Images.
From S2P Require Import History.
From S2P Require Import EchoGuard.
From S2P Require Import AgentCalls.
From S2P Require Import ContextTools.
From S2P Require Import Vision.
From S2P Require Import Agent.
From S2P Require Import AgentRequests.
From S2P Require Import AgentTools.
From S2P Require Import AgentTurn.
From S2P Require Import CoreCalls.
From S2P Require Import ProviderConfig.
From S2P Require Import AgentSession.

(** ** The envelope *)

Record JsonRpcRequest := mkRpcRequest {
  jr_jsonrpc : str; jr_id : Value; jr_method : str; jr_params : Value }.
Record RpcError := mkRpcError { re_code : Z; re_message : str; re_data : option Value }.
(** Both carry the version as well. *)
Inductive JsonRpcResponse := RpcSuccess (id result : Value) | RpcFailure (id : Value) (error : RpcError).

Definition JSON_RPC_VERSION : str := $"2.0".
Definition is_valid_version (request : JsonRpcRequest) : bool := jr_jsonrpc request =s JSON_RPC_VERSION.

Definition parse_error (m : str) : RpcError := mkRpcError (-32700) m None.
Definition invalid_request (m : str) : RpcError := mkRpcError (-32600) m None.
Definition method_not_found (method : str) : RpcError :=
  mkRpcError (-32601) ($"method not found: " ++ method) None.
Definition invalid_params (m : str) : RpcError := mkRpcError (-32602) m None.
Definition provider_error (m : str) : RpcError := mkRpcError 1101 m None.
Definition internal (m : str) : RpcError := mkRpcError (-32000) m None.
Definition sensitive_content_blocked (category location provider : str) : RpcError :=
  mkRpcError 1102
    ($"relay provider `" ++ provider ++ $"` blocked sensitive content: category=" ++ category
     ++ $", location=" ++ location ++ $"; 请移除敏感内容或切换到可信供应商")
    (Some (json [($"code", JString $"sensitive_content_blocked"); ($"category", JString category);
                 ($"location", JString location); ($"provider", JString provider);
                 ($"action", JString $"remove_secret_or_use_trusted_provider")])).

Definition BAD_VERSION : RpcError :=
  invalid_request ($"jsonrpc must be exactly " ++ DQUOTE :: JSON_RPC_VERSION ++ [DQUOTE]).

Record CancelSessionParams := mkCancelSession {
  ca_session_id : uuid; ca_partial_assistant : option str }.

(** The decoders and encoders that [serde] derives.  The parameters of [session.list],
    [session.detail], [session.replay] and [config.get] are their one field. *)
Class RpcCodec := {
  request_of_line : list N -> result JsonRpcRequest (list N);
  from_create : Value -> result CreateSessionParams (list N);
  from_list : Value -> result (option (list N)) (list N);
  from_detail : Value -> result uuid (list N);
  from_replay : Value -> result uuid (list N);
  from_get : Value -> result (list N) (list N);
  from_set : Value -> result SetConfigParams (list N);
  from_cancel : Value -> result CancelSessionParams (list N);
  from_chat : Value -> result ChatParams (list N);
  from_resolve : Value -> result ResolveActionParams (list N);
  from_rollback : Value -> result RollbackRestorePointParams (list N);
  session_value : Session -> Value;
  session_detail_value : SessionDetail -> Value;
  replay_value : Session * list PersistedSessionEvent * list ReplayStep -> Value;
  config_value : WorkspaceConfig -> Value;
  chat_result_value : ChatResult -> Value;
  restore_point_value : RestorePoint -> Value;
  package_version : list N;
}.

(** ** The core service *)

Section Dispatch.
Context {En : Env} {Text_ : ErrorTexts} {Codec : RpcCodec}.

Definition Rp (A : Type) : Type := CoreService -> result A RpcError * CoreService.
Definition rpc {A B} (m : C A) (error : CoreError -> RpcError) (value : A -> B) : Rp B := fun c =>
  match m c with
  | (Ok a, c) => (Ok (value a), c)
  | (Err e, c) => (Err (error e), c)
  end.

Definition rpc_error_for_core (e : CoreError) : RpcError :=
  match e with
  | CoreInvalidInput m => invalid_params m
  | e => internal (core_error_text e)
  end.
Definition rpc_error_for_store (e : StoreError) : RpcError :=
  match e with
  | InvalidInput m => invalid_params m
  | e => internal (core_error_text (StoreErr e))
  end.
Definition internal_error (e : CoreError) : RpcError := internal (core_error_text e).

(** [serde_json::from_value] of the parameters of [method]. *)
Definition with_params {P A} (method : str) (decode : Value -> result P (list N)) (params : Value)
    (f : P -> Rp A) : Rp A := fun c =>
  match decode params with
  | Ok p => f p c
  | Err error => (Err (invalid_params ($"invalid " ++ method ++ $" params: " ++ error)), c)
  end.

Definition create_session_rpc (params : Value) : Rp Value :=
  with_params $"session.create" from_create params (fun p c =>
    let '(model, c) :=
      if is_empty (trim (cs_model p))
      then rpc (workspace_config (cs_workspace_root p)) rpc_error_for_core wc_model c
      else (Ok (cs_model p), c) in
    match model with
    | Err e => (Err e, c)
    | Ok model =>
      match create_session (mkCreateSession (cs_workspace_root p) (cs_mode p) (cs_provider p) model
                              (cs_title p)) (store c) with
      | (Ok session, s) => (Ok (json [($"session", session_value session)]), with_store s c)
      | (Err e, s) => (Err (rpc_error_for_store e), with_store s c)
      end
    end).

Definition list_sessions_rpc (params : Value) : Rp Value :=
  with_params $"session.list" from_list params (fun root =>
    rpc (core_list_sessions root) internal_error
      (fun sessions => json [($"sessions", JArray (map session_value sessions))])).

Definition session_detail_rpc (params : Value) : Rp Value :=
  with_params $"session.detail" from_detail params (fun sid =>
    rpc (session_detail sid) internal_error
      (fun detail => json [($"detail", session_detail_value detail)])).

Definition session_replay_rpc (params : Value) : Rp Value :=
  with_params $"session.replay" from_replay params (fun sid =>
    rpc (session_replay sid) internal_error replay_value).

Definition config_get_rpc (params : Value) : Rp Value :=
  with_params $"config.get" from_get params (fun root =>
    rpc (workspace_config root) rpc_error_for_core
      (fun config => json [($"config", config_value config)])).

Definition config_set_rpc (params : Value) : Rp Value :=
  with_params $"config.set" from_set params (fun p =>
    rpc (core_set_workspace_config p) rpc_error_for_core
      (fun config => json [($"config", config_value config)])).

Definition cancel_session_rpc (params : Value) : Rp Value :=
  with_params $"session.cancel" from_cancel params (fun p =>
    rpc (cancel_session (ca_session_id p) (ca_partial_assistant p)) rpc_error_for_core
      (fun session => json [($"session", session_value session)])).

Definition ping : Value := json [($"ok", JBool true); ($"version", JString package_version)].

Definition rpc_method (request : JsonRpcRequest) : option (Rp Value) :=
  let method := jr_method request in
  let params := jr_params request in
  if method =s $"system.ping" then Some (fun c => (Ok ping, c))
  else if method =s $"session.create" then Some (create_session_rpc params)
  else if method =s $"session.list" then Some (list_sessions_rpc params)
  else if method =s $"session.detail" then Some (session_detail_rpc params)
  else if method =s $"session.replay" then Some (session_replay_rpc params)
  else if method =s $"session.cancel" then Some (cancel_session_rpc params)
  else if method =s $"config.get" then Some (config_get_rpc params)
  else if method =s $"config.set" then Some (config_set_rpc params)
  else None.

Definition respond (id : Value) (r : result Value RpcError) : JsonRpcResponse :=
  match r with Ok value => RpcSuccess id value | Err error => RpcFailure id error end.

Definition dispatch (request : JsonRpcRequest) (c : CoreService) : JsonRpcResponse * CoreService :=
  let id := jr_id request in
  if negb (is_valid_version request) then (RpcFailure id BAD_VERSION, c)
  else
    match rpc_method request with
    | None => (RpcFailure id (method_not_found (jr_method request)), c)
    | Some m => let '(r, c) := m c in (respond id r, c)
    end.
End Dispatch.

(** ** The server *)

(** What is written to the standard output: a notification of an event, or a response. *)
Inductive Output := Notified (e : SessionEvent) | Responded (r : JsonRpcResponse).

(** A turn that panics ends the process; one that needs more fuel has not ended. *)
Inductive Served := Answered | Crashed | Unfinished.

Section Server.
Context {O : Outside} {Text_ : ErrorTexts} {En : Env} {Clk : Clock}.
Context `{Disk} `{Child} `{Git} `{Serde} `{IoText} `{UnicodeCase} `{Stopwatch} `{Home} `{Peer} `{McpFile}.
Context {Print : JsonText} {Parse : JsonParse} {Hash : HashStrings} {Chars : HashChars}.
Context {Time : TimeText} {Ids : UuidParse} {Codec : RpcCodec}.
Variable json_error : list N -> list N.
Variable fuel : nat.

Definition rpc_error_for_agent (error : AgentError) : RpcError :=
  match error with
  | AgentCore (Some m) _ => invalid_params m
  | AgentCore None m => internal m
  | UnsupportedProvider m => invalid_params m
  | AgentTool m => invalid_params m
  | AgentProvider e => provider_error (ProviderError_to_string e)
  | InvalidProviderToolCall m => provider_error m
  | SensitiveDataBlocked category location provider =>
    sensitive_content_blocked category location provider
  | AgentCancelled => invalid_params $"session cancelled"
  | AgentMcp m => invalid_params m
  | error => provider_error (AgentError_to_string error)
  end.

(** The events of a piece of work that started in [s]. *)
Definition events_since (s s' : AgentState) : list Output :=
  map Notified (drop (length (ag_events s)) (ag_events s')).

(** The shape of [handle_chat], [handle_resolve] and [handle_rollback]: the events, then
    the response. *)
Definition long_running {P A} (method : str) (decode : Value -> result P (list N))
    (work : P -> G A) (value : A -> Value) (request : JsonRpcRequest) (s : AgentState)
  : list Output * Served * AgentState :=
  let id := jr_id request in
  if negb (is_valid_version request) then ([Responded (RpcFailure id BAD_VERSION)], Answered, s)
  else
    match decode (jr_params request) with
    | Err error =>
      ([Responded (RpcFailure id (invalid_params ($"invalid " ++ method ++ $" params: " ++ error)))],
       Answered, s)
    | Ok params =>
      let '(outcome, s') := work params s in
      match outcome with
      | Ok a => (events_since s s' ++ [Responded (RpcSuccess id (value a))], Answered, s')
      | Err (Failure error) =>
        (events_since s s' ++ [Responded (RpcFailure id (rpc_error_for_agent error))], Answered, s')
      | Err (Panicked _) => (events_since s s', Crashed, s')
      | Err OutOfFuel => (events_since s s', Unfinished, s')
      end
    end.

Definition handle_chat : JsonRpcRequest -> AgentState -> list Output * Served * AgentState :=
  long_running $"session.chat" from_chat (chat json_error fuel) chat_result_value.
Definition handle_resolve : JsonRpcRequest -> AgentState -> list Output * Served * AgentState :=
  long_running $"session.resolve" from_resolve (resolve json_error fuel) chat_result_value.
Definition handle_rollback : JsonRpcRequest -> AgentState -> list Output * Served * AgentState :=
  long_running $"session.rollback" from_rollback rollback
    (fun '(session, point) => json [($"session", session_value session);
                                    ($"restore_point", restore_point_value point)]).

Definition handle_cancel (request : JsonRpcRequest) (c : CoreService) : list Output * CoreService :=
  let id := jr_id request in
  if negb (is_valid_version request) then ([Responded (RpcFailure id BAD_VERSION)], c)
  else
    match from_cancel (jr_params request) with
    | Err error =>
      ([Responded (RpcFailure id (invalid_params ($"invalid session.cancel params: " ++ error)))], c)
    | Ok p =>
      match cancel_session (ca_session_id p) (ca_partial_assistant p) c with
      | (Ok session, c) =>
        let event := EvSessionCancelled (s_id session) $"Session cancelled by user" in
        ([Notified event; Responded (RpcSuccess id (json [($"session", session_value session)]))],
         snd (core_record_event event c))
      | (Err error, c) => ([Responded (RpcFailure id (rpc_error_for_core error))], c)
      end
    end.

(** [env] is the environment of the process after [bootstrap_credentials]. *)
Definition handle_provider_status (env : ProcEnv) (request : JsonRpcRequest) : JsonRpcResponse :=
  let id := jr_id request in
  if negb (is_valid_version request) then RpcFailure id BAD_VERSION
  else
    let status := inspect_auth env in
    RpcSuccess id
      (json [($"ready", JBool (pa_ready status)); ($"has_api_key", JBool (pa_has_api_key status));
             ($"base_url", JString (pa_base_url status)); ($"key_hint", json_opt_str (pa_key_hint status));
             ($"message", JString (if pa_ready status
                then $"OPENAI_API_KEY is set. Cloud requests can proceed."
                else $"OPENAI_API_KEY is not set. Configure it in Desktop Settings (~/.xcoding/config.json), set the environment variable, or use a repo-root .env file."))]).

(** The requests that are answered without the agent. *)
Definition handle_short (env : ProcEnv) (request : JsonRpcRequest) (c : CoreService)
  : list Output * CoreService :=
  if jr_method request =s $"session.cancel" then handle_cancel request c
  else if jr_method request =s $"provider.status"
  then ([Responded (handle_provider_status env request)], c)
  else let '(r, c) := dispatch request c in ([Responded r], c).

Definition unreadable (error : str) : list Output :=
  [Responded (RpcFailure JNull (parse_error ($"invalid JSON-RPC request: " ++ error)))].

(** One line while no turn is running. *)
Definition handle_line (line : str) (s : AgentState) : list Output * Served * AgentState :=
  if is_empty (trim line) then ([], Answered, s)
  else
    match request_of_line line with
    | Err error => (unreadable error, Answered, s)
    | Ok request =>
      if jr_method request =s $"session.chat" then handle_chat request s
      else if jr_method request =s $"session.resolve" then handle_resolve request s
      else if jr_method request =s $"session.rollback" then handle_rollback request s
      else
        let s := set_step (S (ag_step s)) s in
        let '(outputs, c) := handle_short (process_env (ag_step s)) request (ag_core s) in
        (outputs, Answered, set_core c s)
    end.

Definition LONG_RUNNING : list str := [$"session.chat"; $"session.resolve"; $"session.rollback"].
Definition BUSY : RpcError := invalid_request $"server is busy with another long-running session request".

(** One line while a turn is running. *)
Definition handle_concurrent_request (env : ProcEnv) (line : str) (c : CoreService)
  : list Output * CoreService :=
  if is_empty (trim line) then ([], c)
  else
    match request_of_line line with
    | Err error => (unreadable error, c)
    | Ok request =>
      if one_of (jr_method request) LONG_RUNNING
      then ([Responded (RpcFailure (jr_id request) BUSY)], c)
      else handle_short env request c
    end.

(** The loop of [main] over the lines of the standard input. *)
Fixpoint serve (lines : list str) (s : AgentState) : list Output * Served * AgentState :=
  match lines with
  | [] => ([], Answered, s)
  | line :: rest =>
    let '(outputs, served, s) := handle_line line s in
    match served with
    | Answered => let '(more, served, s) := serve rest s in (outputs ++ more, served, s)
    | _ => (outputs, served, s)
    end
  end.
End Server.

(** [parse_database_path], on the arguments behind the name of the program. *)
Definition parse_database_path (arguments : list str) : result str str :=
  match arguments with
  | [] => Err $"expected --db <path>"
  | flag :: rest =>
    if negb (flag =s $"--db") then Err $"only --db <path> is supported"
    else
      match rest with
      | [] => Err $"expected a database path after --db"
      | [path] => Ok path
      | _ => Err $"unexpected extra arguments"
      end
  end.

(** ** Requests as calls of the service *)

Definition response_id (r : JsonRpcResponse) : Value :=
  match r with RpcSuccess id _ | RpcFailure id _ => id end.
Definition RPC_METHODS : list str :=
  [$"system.ping"; $"session.create"; $"session.list"; $"session.detail"; $"session.replay";
   $"session.cancel"; $"config.get"; $"config.set"].

Section DispatchFacts.
Context {En : Env} {Text_ : ErrorTexts} {Codec : RpcCodec}.

Lemma rpc_call {A B} k (m : C A) error (value : A -> B) c :
  (forall c, run_core_call k c = snd (m c)) -> snd (rpc m error value c) = run_core_call k c.
Proof. intros Hk. rewrite Hk. unfold rpc. by destruct (m c) as [[a|e] c']. Qed.

(** The state after a request is that after at most one call. *)
Definition one_call (m : Rp Value) : Prop :=
  forall c, exists calls, length calls <= 1 /\ snd (m c) = run_core_calls calls c.

Lemma one_call_none m : (forall c, snd (m c) = c) -> one_call m.
Proof. intros Hm c. exists []. split; [simpl; lia|apply Hm]. Qed.

Lemma one_call_some m k : (forall c, snd (m c) = run_core_call k c) -> one_call m.
Proof. intros Hm c. exists [k]. split; [simpl; lia|apply Hm]. Qed.

Lemma one_call_params {P} method (decode : Value -> result P (list N)) params (f : P -> Rp Value) :
  (forall p, one_call (f p)) -> one_call (with_params method decode params f).
Proof.
  intros Hf c. unfold with_params. destruct (decode params) as [p|]; [apply Hf|].
  exists []. split; [simpl; lia|done].
Qed.

Lemma create_is_call p c :
  (let '(model, c) :=
     if is_empty (trim (cs_model p))
     then rpc (workspace_config (cs_workspace_root p)) rpc_error_for_core wc_model c
     else (Ok (cs_model p), c) in
   match model with
   | Err e => c
   | Ok model => with_store (snd (create_session (mkCreateSession (cs_workspace_root p) (cs_mode p)
                   (cs_provider p) model (cs_title p)) (store c))) c
   end) = run_core_call (CoreCreateSession p) c.
Proof.
  cbn [run_core_call]. unfold core_create_session, rpc.
  assert (forall q c, with_store (snd (create_session q (store c))) c = snd (lift (create_session q) c)) as Hl.
  { intros q c0. unfold lift. by destruct (create_session q (store c0)) as [[s|e] st]. }
  unfold cbind. destruct (is_empty _); cbn [cret]; [|apply Hl].
  destruct (workspace_config _ c) as [[config|e] c1]; cbn; [apply Hl|done].
Qed.

Lemma rpc_method_call request m : rpc_method request = Some m -> one_call m.
Proof.
  unfold rpc_method.
  repeat match goal with |- (if ?b then _ else _) = _ -> _ => destruct b end; intros [= <-].
  - by apply one_call_none.
  - apply one_call_params. intros p. apply (one_call_some _ (CoreCreateSession p)). intros c.
    rewrite <- create_is_call. destruct (if is_empty _ then _ else _) as [[model|e] c1]; [|done].
    by destruct (create_session _ _) as [[s|e] st].
  - apply one_call_params. intros root. apply (one_call_some _ (CoreListSessions root)). intros c. by apply rpc_call.
  - apply one_call_params. intros sid. apply (one_call_some _ (CoreSessionDetail sid)). intros c. by apply rpc_call.
  - apply one_call_params. intros sid. apply (one_call_some _ (CoreSessionReplay sid)). intros c. by apply rpc_call.
  - apply one_call_params. intros p.
    apply (one_call_some _ (CoreCancelSession (ca_session_id p) (ca_partial_assistant p))).
    intros c. by apply rpc_call.
  - apply one_call_params. intros root. apply (one_call_some _ (CoreWorkspaceConfig root)). intros c. by apply rpc_call.
  - apply one_call_params. intros p. apply (one_call_some _ (CoreSetWorkspaceConfig p)). intros c. by apply rpc_call.
Qed.

Lemma dispatch_calls request c :
  exists calls, length calls <= 1 /\ snd (dispatch request c) = run_core_calls calls c.
Proof.
  assert (exists calls, length calls <= 1 /\ c = run_core_calls calls c) as Hn.
  { exists []. split; [simpl; lia|done]. }
  unfold dispatch. destruct (negb _); [done|]. destruct (rpc_method request) as [m|] eqn:Em; [|done].
  apply rpc_method_call in Em. specialize (Em c). by destruct (m c).
Qed.

Lemma dispatch_id request c : response_id (fst (dispatch request c)) = jr_id request.
Proof.
  unfold dispatch. destruct (negb _); [done|]. destruct (rpc_method request) as [m|]; [|done].
  by destruct (m c) as [[v|e] c'].
Qed.

(** ** Error codes *)

Lemma rpc_method_known request :
  bool_decide (is_Some (rpc_method request)) = one_of (jr_method request) RPC_METHODS.
Proof.
  unfold rpc_method, RPC_METHODS, one_of. cbn [existsb].
  repeat match goal with |- context [jr_method request =s ?b] => destruct (jr_method request =s b) end;
    reflexivity.
Qed.

(** A handler fails with the codes for parameters and for other errors only. *)
Definition handler_code (r : result Value RpcError) : Prop :=
  match r with Ok _ => True | Err e => re_code e = (-32602)%Z \/ re_code e = (-32000)%Z end.

Lemma core_code e : re_code (rpc_error_for_core e) = (-32602)%Z \/ re_code (rpc_error_for_core e) = (-32000)%Z.
Proof. destruct e; cbn; auto. Qed.
Lemma store_code e : re_code (rpc_error_for_store e) = (-32602)%Z \/ re_code (rpc_error_for_store e) = (-32000)%Z.
Proof. destruct e; cbn; auto. Qed.

Lemma rpc_codes {A} (m : C A) error (value : A -> Value) c :
  (forall e, re_code (error e) = (-32602)%Z \/ re_code (error e) = (-32000)%Z) ->
  handler_code (fst (rpc m error value c)).
Proof. intros He. unfold rpc. destruct (m c) as [[a|e] c']; [done|apply He]. Qed.

Lemma params_codes {P} method (decode : Value -> result P (list N)) params (f : P -> Rp Value) c :
  (forall p, handler_code (fst (f p c))) -> handler_code (fst (with_params method decode params f c)).
Proof. intros Hf. unfold with_params. destruct (decode params); [apply Hf|by left]. Qed.

Lemma rpc_method_codes request m c : rpc_method request = Some m -> handler_code (fst (m c)).
Proof.
  unfold rpc_method.
  repeat match goal with |- (if ?b then _ else _) = _ -> _ => destruct b end; intros [= <-]; [done|..];
    apply params_codes; intros p; try (apply rpc_codes; intros e; first [apply core_code|by right]).
  destruct (is_empty _).
  - pose proof (core_code) as Hc. unfold rpc.
    destruct (workspace_config _ c) as [[config|e] c1]; cbn [fst]; [|apply Hc].
    destruct (create_session _ _) as [[s|e] st]; [done|apply store_code].
  - destruct (create_session _ _) as [[s|e] st]; [done|apply store_code].
Qed.


(** A request changes the service as at most one of its public calls does. *)
Theorem dispatch_is_client request c :
  exists calls, length calls <= 1 /\ snd (dispatch request c) = run_core_calls calls c.
Proof. apply dispatch_calls. Qed.
End DispatchFacts.

(** ** The server's answers *)

Definition responses (outputs : list Output) : list JsonRpcResponse :=
  omap (fun o => match o with Responded r => Some r | Notified _ => None end) outputs.

Section ServerFacts.
Context {O : Outside} {Text_ : ErrorTexts} {En : Env} {Clk : Clock}.
Context `{Disk} `{Child} `{Git} `{Serde} `{IoText} `{UnicodeCase} `{Stopwatch} `{Home} `{Peer} `{McpFile}.
Context {Print : JsonText} {Parse : JsonParse} {Hash : HashStrings} {Chars : HashChars}.
Context {Time : TimeText} {Ids : UuidParse} {Codec : RpcCodec}.
Context (json_error : list N -> list N) (fuel : nat).

(** The identifier under which a line is answered; a blank line is not answered. *)
Definition line_id (line : str) : option Value :=
  if is_empty (trim line) then None
  else match request_of_line line with Ok request => Some (jr_id request) | Err _ => Some JNull end.

(** The one answer of a piece of work, behind its events. *)
Definition answers (outputs : list Output) (id : Value) : Prop :=
  map response_id (responses outputs) = [id].

Lemma responses_app a b : responses (a ++ b) = responses a ++ responses b.
Proof. apply omap_app. Qed.

Lemma responses_events s s' : responses (events_since s s') = [].
Proof. unfold events_since. by induction (drop _ _) as [|e l IH]. Qed.

Lemma long_running_answers {P A} method (decode : Value -> result P (list N)) (work : P -> G A)
    (value : A -> Value) request s :
  let '(outputs, served, s') := long_running method decode work value request s in
  served = Answered -> answers outputs (jr_id request).
Proof.
  unfold long_running, answers. destruct (negb _); [done|]. destruct (decode _) as [p|]; [|done].
  destruct (work p s) as [[a|[error|m|]] s']; try done;
    intros _; by rewrite responses_app, responses_events.
Qed.

Lemma cancel_answers request c : answers (fst (handle_cancel request c)) (jr_id request).
Proof.
  unfold handle_cancel, answers. destruct (negb _); [done|]. destruct (from_cancel _) as [p|]; [|done].
  by destruct (cancel_session _ _ c) as [[session|e] c'].
Qed.

Lemma short_answers env request c : answers (fst (handle_short env request c)) (jr_id request).
Proof.
  unfold handle_short. destruct (_ =s _); [apply cancel_answers|]. destruct (_ =s _).
  - unfold answers, handle_provider_status. by destruct (negb _).
  - pose proof (dispatch_id request c) as Hid. destruct (dispatch request c). unfold answers. cbn in *. by rewrite Hid.
Qed.

Lemma line_answers line s :
  let '(outputs, served, s') := handle_line json_error fuel line s in
  served = Answered -> map response_id (responses outputs) = option_list (line_id line).
Proof.
  unfold handle_line, line_id. destruct (is_empty _); [done|].
  destruct (request_of_line line) as [request|]; [|done].
  destruct (_ =s _); [apply long_running_answers|]. destruct (_ =s _); [apply long_running_answers|].
  destruct (_ =s _); [apply long_running_answers|].
  match goal with |- context [handle_short ?env ?rq ?c] =>
    pose proof (short_answers env rq c) as Ha; destruct (handle_short env rq c) as [outputs c'] end.
  intros _. exact Ha.
Qed.


(** What arrives while a turn is running acts on the service as a client does, starts no
    second turn, and is answered at once by one response under its identifier. *)
Theorem concurrent_requests_are_clients env line c :
  let '(outputs, c') := handle_concurrent_request env line c in
  (exists calls, c' = run_core_calls calls c) /\
  map response_id (responses outputs) = option_list (line_id line) /\
  (forall request, request_of_line line = Ok request -> is_empty (trim line) = false ->
     one_of (jr_method request) LONG_RUNNING = true ->
     c' = c /\ outputs = [Responded (RpcFailure (jr_id request) BUSY)]).
Proof.
  assert (forall c, exists calls, c = run_core_calls calls c) as Hn by (intros c0; by exists []).
  unfold handle_concurrent_request, line_id. destruct (is_empty _); [done|].
  destruct (request_of_line line) as [request|]; [|done].
  destruct (one_of _ _) eqn:El; [split_and!; [done|done|by intros ? [= <-]]|].
  pose proof (short_answers env request c) as Ha.
  assert (exists calls, snd (handle_short env request c) = run_core_calls calls c) as Hc.
  { unfold handle_short. destruct (_ =s _); [|destruct (_ =s _); [done|]].
    - unfold handle_cancel. destruct (negb _); [done|]. destruct (from_cancel _) as [p|]; [|done].
      destruct (cancel_session _ _ c) as [[session|e] c1] eqn:Ec.
      + exists [CoreCancelSession (ca_session_id p) (ca_partial_assistant p);
                CoreRecordEvent (EvSessionCancelled (s_id session) $"Session cancelled by user")].
        cbn. by rewrite Ec.
      + exists [CoreCancelSession (ca_session_id p) (ca_partial_assistant p)]. cbn. by rewrite Ec.
    - destruct (dispatch_calls request c) as (calls & _ & Hd). exists calls. by destruct (dispatch request c). }
  destruct (handle_short env request c) as [outputs c']. split_and!; [exact Hc|exact Ha|].
  intros ? [= <-]. by rewrite El.
Qed.
End ServerFacts.
