(* ===== verification/Relay.v ===== *)
(** * The local relay (apps/desktop/src-tauri/src/relay.rs, crates/xcoding-agent/src/lib.rs)

    A server on the loopback address through which other programs of the machine use the
    active provider.  A connection carries one request: its head is parsed by hand, a
    request with the local key is passed to the provider as it is, and the answer comes
    back as it is.  The choice of a credential shares the tables of the agent. *)

From S2P Require Import Prelude.
From S2P Require Import Protocol.
From S2P Require Import Sql.
From S2P Require Import Rotation.
From S2P Require Import Routing.
From S2P Require Import RoutingFacts.
From S2P Require Import Transcript.
From S2P Require Import Text.
From S2P Require Import ToolArgs.
From S2P Require Import Compression.
From S2P Require Import ProviderWire.
From S2P Require Import ProviderConfig.
From S2P Require Import ProviderStream.
From S2P Require Import RequestLogs.
From S2P Require Import Agent.

#[export] Instance ProviderWireApi_eq_dec : EqDecision ProviderWireApi.
Proof. solve_decision. Defined.

Definition MAX_HEADER_BYTES : nat := Z.to_nat (64 * 1024).
Definition MAX_BODY_BYTES : N := 32 * 1024 * 1024.
Definition CRLF : str := [CR; LF].
Definition END_OF_HEAD : bytes := [CR; LF; CR; LF].

(** ** The head of a request *)

Record RequestHead := mkHead {
  rh_method : str;
  rh_path : str;
  rh_authorization : option str;
  rh_api_key : option str;
  rh_anthropic_version : option str;
  rh_anthropic_beta : option str;
  rh_content_type : option str;
  rh_content_length : option N;
  rh_transfer_encoding : option str;
}.

(** [str::split] with a string. *)
Fixpoint split_str (fuel : nat) (sep s : str) : list str :=
  match fuel, split_once_str sep s with
  | S fuel, Some (before, after) => before :: split_str fuel sep after
  | _, _ => [s]
  end.
Definition split_crlf (s : str) : list str := split_str (length s) CRLF s.

Definition head_line (line : str) (h : RequestHead) : result RequestHead (Z * str) :=
  match split_once COLON line with
  | None => Err (400%Z, $"invalid request header")
  | Some (name, value) =>
    let value := trim value in
    let name := to_ascii_lowercase (trim name) in
    let '(mkHead method path authorization api_key version beta content_type content_length
            transfer_encoding) := h in
    if name =s $"authorization" then
      Ok (mkHead method path (Some value) api_key version beta content_type content_length transfer_encoding)
    else if name =s $"x-api-key" then
      Ok (mkHead method path authorization (Some value) version beta content_type content_length
            transfer_encoding)
    else if name =s $"anthropic-version" then
      Ok (mkHead method path authorization api_key (Some value) beta content_type content_length
            transfer_encoding)
    else if name =s $"anthropic-beta" then
      Ok (mkHead method path authorization api_key version (Some value) content_type content_length
            transfer_encoding)
    else if name =s $"content-type" then
      Ok (mkHead method path authorization api_key version beta (Some value) content_length
            transfer_encoding)
    else if name =s $"content-length" then
      match parse_u64 value with
      | None => Err (400%Z, $"invalid Content-Length")
      | Some n =>
        match content_length with
        | Some _ => Err (400%Z, $"duplicate Content-Length")
        | None => Ok (mkHead method path authorization api_key version beta content_type (Some n)
                        transfer_encoding)
        end
      end
    else if name =s $"transfer-encoding" then
      Ok (mkHead method path authorization api_key version beta content_type content_length (Some value))
    else Ok h
  end.

Fixpoint head_lines (ls : list str) (h : RequestHead) : result RequestHead (Z * str) :=
  match ls with
  | [] => Ok h
  | line :: rest => let? h := head_line line h in head_lines rest h
  end.

Definition parse_request_head (bs : bytes) : result RequestHead (Z * str) :=
  match from_utf8 bs with
  | None => Err (400%Z, $"invalid request headers")
  | Some text =>
    match split_crlf text with
    | [] => Err (400%Z, $"invalid request line")
    | request_line :: rest =>
      match split_whitespace request_line with
      | [] | [_] => Err (400%Z, $"invalid request line")
      | [_; _] => Err (400%Z, $"invalid HTTP version")
      | method :: path :: version :: more =>
        if negb (is_empty more) || negb (version =s $"HTTP/1.1")
        then Err (400%Z, $"HTTP/1.1 is required")
        else head_lines rest (mkHead method path None None None None None None None)
      end
    end
  end.

Definition valid_bearer (value expected : str) : bool :=
  match split_whitespace value with
  | [scheme; key] => eq_ignore_ascii_case scheme $"Bearer" && (key =s expected)
  | _ => false
  end.

Definition valid_local_key (request : RequestHead) (expected : str) (allow_api_key : bool) : bool :=
  match rh_authorization request with
  | Some authorization => valid_bearer authorization expected
  | None => allow_api_key && bool_decide (rh_api_key request = Some expected)
  end.

(** ** Requests to the provider *)

Inductive HttpMethod := GET | POST.

(** A request as it leaves the machine; the client adds headers of its own. *)
Record UpstreamRequest := mkUpstream {
  up_method : HttpMethod; up_url : str; up_headers : list HttpHeader; up_body : option bytes }.

(** An answer: the headers are those that are visible ASCII, the body comes in chunks. *)
Record UpstreamResponse := mkUpstreamResponse {
  ur_status : Z; ur_content_type : option str; ur_retry_after : option str;
  ur_chunks : list (result bytes HttpFailure) }.

(** What the HTTP client does: whether it builds a request, how the [n]-th one is answered,
    its own additions to the headers and the reason phrase of a status; the entries of a
    list of models, the value or the error of a body ([serde_json::from_slice]), and the text
    of an answer ([Response::text]). *)
Class Upstream := {
  build_error : UpstreamRequest -> option HttpFailure;
  execute : nat -> UpstreamRequest -> result UpstreamResponse HttpFailure;
  canonical_reason : Z -> option (list N);
  models_of_text : list N -> result (list (list N * option (list N))) (list N);
  body_value : list N -> result Value (list N);
  response_text : UpstreamResponse -> result (list N) HttpFailure;
}.

(** The tables of the agent, the rows of the request log, and the requests sent so far. *)
Record RelayWorld := mkRelayWorld {
  rw_runtime : Runtime; rw_logs : LogDb; rw_sent : list UpstreamRequest; rw_draws : nat }.

Definition W (A : Type) : Type := RelayWorld -> A * RelayWorld.
Definition wret {A} (a : A) : W A := fun w => (a, w).
Definition wbind {A B} (m : W A) (f : A -> W B) : W B := fun w => let '(a, w) := m w in f a w.
Notation "'via!' x := m 'in' k" := (wbind m (fun x => k))
  (at level 10, x pattern, m at level 100, k at level 200) : xc_scope.

Definition in_tables {A} (m : R A) : W A := fun w =>
  let '(a, rt) := m (rw_runtime w) in (a, mkRelayWorld rt (rw_logs w) (rw_sent w) (rw_draws w)).
Definition in_logs {A} (m : LogDb -> A * LogDb) : W A := fun w =>
  let '(a, db) := m (rw_logs w) in (a, mkRelayWorld (rw_runtime w) db (rw_sent w) (rw_draws w)).
Definition relay_draw : W nat := fun w =>
  (rw_draws w, mkRelayWorld (rw_runtime w) (rw_logs w) (rw_sent w) (S (rw_draws w))).
Definition send `{Upstream} (rq : UpstreamRequest) : W (result UpstreamResponse HttpFailure) := fun w =>
  (execute (length (rw_sent w)) rq,
   mkRelayWorld (rw_runtime w) (rw_logs w) (rw_sent w ++ [rq]) (rw_draws w)).

(** The configuration, with the fields that only the relay reads, the environment of the
    process, and the switch of the request log. *)
Record RelayConfig := mkRelayConfig {
  rc_settings : Settings;
  rc_local_relay_enabled : bool;
  rc_record_model_requests : bool;
  rc_env : ProcEnv;
}.
Definition rc_routing (c : RelayConfig) : UserConfig := st_config (rc_settings c).

Inductive RelayError := InvalidRequest (m : str) | Unavailable (m : str).

Definition circuit_settings (s : Settings) : CircuitSettings :=
  mkCircuitSettings (st_circuit_failure_threshold s) (st_circuit_recovery_success_threshold s)
    (st_circuit_recovery_wait_secs s * NANOS_PER_SEC) (st_circuit_error_rate_threshold_percent s)
    (st_circuit_min_request_count s).

Definition wire_api_debug (w : ProviderWireApi) : str :=
  match w with
  | ChatCompletions => $"ChatCompletions"
  | Responses => $"Responses"
  | AnthropicMessages => $"AnthropicMessages"
  end.

Definition text_header (name value : str) : HttpHeader := mkHeader name (as_bytes value) false.
Definition bearer_header (key : str) : HttpHeader :=
  mkHeader $"authorization" (as_bytes ($"Bearer " ++ key)) true.

Section Relay.
Context {En : Env} {Lo : LogOutside} {Hv : HeaderValues} {Jp : JsonPretty} {Uc : UrlCodec}
        {Up : Upstream} {Et : ErrorTexts} {Cl : Clock} {Jt : JsonText} {Jf : JsonParse}.
Variable config : RelayConfig.

Definition user_agent_header : list HttpHeader :=
  let value := resolve_http_user_agent (st_http_user_agent (rc_settings config))
                 (rc_env config !! $"XCODING_HTTP_USER_AGENT") in
  if header_value_ok value then [text_header $"user-agent" value] else [].

(** [bearer_auth] or the headers of the Anthropic API. *)
Definition auth_headers (wire_api : ProviderWireApi) (api_key : str)
    (anthropic_version anthropic_beta : option str) : list HttpHeader :=
  match wire_api with
  | AnthropicMessages =>
    [text_header $"x-api-key" api_key;
     text_header $"anthropic-version" (default $"2023-06-01" anthropic_version)]
    ++ match anthropic_beta with Some beta => [text_header $"anthropic-beta" beta] | None => [] end
  | ChatCompletions | Responses => [bearer_header api_key]
  end.

Definition raw_url (provider : OpenAiCompatibleProvider) (wire_api : ProviderWireApi) : str :=
  op_base_url provider ++ $"/" ++ match wire_api with
                                  | Responses => $"responses"
                                  | ChatCompletions => $"chat/completions"
                                  | AnthropicMessages => $"messages"
                                  end.

Definition raw_request (provider : OpenAiCompatibleProvider) (wire_api : ProviderWireApi) (body : bytes)
    (content_type anthropic_version anthropic_beta : option str) : UpstreamRequest :=
  mkUpstream POST (raw_url provider wire_api)
    (match content_type with
     | Some value => if header_value_ok value then [text_header $"content-type" value] else []
     | None => []
     end ++ user_agent_header
     ++ auth_headers wire_api (op_api_key provider) anthropic_version anthropic_beta)
    (Some body).

Definition no_url : Url := mkUrl [] None None [] None None None.

Definition open_raw_request (provider : OpenAiCompatibleProvider) (wire_api : ProviderWireApi)
    (body : bytes) (content_type anthropic_version anthropic_beta : option str)
  : W (result (UpstreamResponse * RequestLog) ProviderError) :=
  let url := raw_url provider wire_api in
  via! log := in_logs (start_raw (rc_record_model_requests config)
                         (st_model_call_log_retention_days (rc_settings config)) url body
                         (op_api_key provider)) in
  let request := raw_request provider wire_api body content_type anthropic_version anthropic_beta in
  match build_error request with
  | Some error =>
    via! log := in_logs (finish_log (Some (http_error_text error)) log) in
    via! _ := in_logs (fun db => (tt, drop_log log db)) in
    wret (Err (Http error))
  | None =>
    via! log := in_logs (log_built_request (up_headers request) (default no_url (url_parse url)) (Some body) log) in
    via! answer := send request in
    match answer with
    | Err error =>
      via! log := in_logs (finish_log (Some (http_error_text error)) log) in
      via! _ := in_logs (fun db => (tt, drop_log log db)) in
      wret (Err (Http error))
    | Ok response =>
      wret (Ok (response, log_response (ur_status response) (ur_content_type response) log))
    end
  end.

Definition status_success (status : Z) : bool := (200 <=? status)%Z && (status <? 300)%Z.

(** [record_provider_key_failure] and [record_provider_failure]. *)
Definition record_failure (candidate : ProviderCandidate) (error : AgentError) : R unit :=
  run! _ := record_provider_key_failure candidate error in
  record_provider_failure candidate (circuit_settings (rc_settings config)).
Definition record_success (candidate : ProviderCandidate) : R unit :=
  run! _ := record_provider_key_success candidate in
  record_provider_success candidate (circuit_settings (rc_settings config)).

(** The provider that a request may use, or why there is none. *)
Definition relay_provider (wire_api : ProviderWireApi) (body : bytes)
  : result CloudProviderConfig RelayError :=
  match body_value body with
  | Err error => Err (InvalidRequest ($"request body must be JSON: " ++ error))
  | Ok value =>
    match non_blank (json_get $"model" value ≫= as_str) with
    | None => Err (InvalidRequest $"request body must contain a model")
    | Some _ =>
      match uc_active_provider_id (rc_routing config) with
      | None => Err (Unavailable $"no active provider is configured")
      | Some active_id =>
        match find_provider (rc_routing config) active_id with
        | None => Err (Unavailable $"the active provider no longer exists")
        | Some provider =>
          if bool_decide (cp_wire_api provider = wire_api) then Ok provider
          else Err (Unavailable ($"request protocol " ++ wire_api_debug wire_api
                 ++ $" does not match the active provider protocol "
                 ++ wire_api_debug (cp_wire_api provider) ++ $"; protocol conversion is not supported"))
        end
      end
    end
  end.

Definition open_active_provider_request (wire_api : ProviderWireApi) (body : bytes)
    (content_type anthropic_version anthropic_beta : option str)
  : W (result (UpstreamResponse * RequestLog) RelayError) :=
  match relay_provider wire_api body with
  | Err error => wret (Err error)
  | Ok provider =>
    via! candidates := in_tables (expand_provider_candidates (rc_routing config) provider
                                    (uc_active_provider_id (rc_routing config)) None) in
    if is_empty candidates
    then wret (Err (Unavailable $"the active provider has no configured API key"))
    else
      via! candidate := in_tables (relay_candidate candidates) in
      match candidate with
      | None => wret (Err (Unavailable $"all keys for the active provider are temporarily unavailable"))
      | Some candidate =>
        via! n := relay_draw in
        match open_with (rc_env config) candidate (new_v4 n) with
        | Err error =>
          via! _ := in_tables (record_failure candidate error) in
          wret (Err (Unavailable (AgentError_to_string error)))
        | Ok opened =>
          via! answer := open_raw_request opened wire_api body content_type anthropic_version
                           anthropic_beta in
          match answer with
          | Err error =>
            let error := AgentProvider error in
            via! _ := in_tables (record_failure candidate error) in
            wret (Err (Unavailable (AgentError_to_string error)))
          | Ok (response, log) =>
            via! _ := in_tables
              (if status_success (ur_status response) then record_success candidate
               else record_failure candidate
                      (AgentProvider (HttpStatus (ur_status response) []
                         (Z.of_N <$> parse_retry_after (ur_retry_after response))))) in
            wret (Ok (response, log))
          end
        end
      end
  end.

(** *** The list of models *)

Definition models_request (provider : OpenAiCompatibleProvider) : UpstreamRequest :=
  mkUpstream GET (op_base_url provider ++ $"/models")
    (auth_headers (op_wire_api provider) (op_api_key provider) None None) None.

Definition provider_list_models (provider : OpenAiCompatibleProvider)
  : W (result ListModelsResult ProviderError) :=
  let request := models_request provider in
  match build_error request with
  | Some error => wret (Err (Http error))
  | None =>
    via! answer := send request in
    wret (match answer with
          | Err error => Err (Http error)
          | Ok response =>
            if negb (status_success (ur_status response)) then
              Err (HttpStatus (ur_status response)
                     (match response_text response with Ok text => text | Err _ => [] end)
                     (Z.of_N <$> parse_retry_after (ur_retry_after response)))
            else match response_text response with
                 | Err error => Err (Http error)
                 | Ok text => parse_models_response (op_base_url provider) (models_of_text text)
                 end
          end)
  end.

Definition list_models_with_wire_api (base_url api_key : str) (wire_api : ProviderWireApi)
  : W (result ListModelsResult str) :=
  match resolve_provider_credentials (Some base_url) (Some api_key) (rc_env config) with
  | Err error => wret (Err (ProviderError_to_string error))
  | Ok (api_key, base_url) =>
    via! n := relay_draw in
    via! r := provider_list_models
                (mkOpenProvider api_key (api_root_url base_url) wire_api (uuid_text (new_v4 n))) in
    wret (match r with Ok models => Ok models | Err error => Err (ProviderError_to_string error) end)
  end.

(** ** Answers to the client *)

Definition reason_phrase (status : Z) : str :=
  if (status =? 400)%Z then $"Bad Request"
  else if (status =? 401)%Z then $"Unauthorized"
  else if (status =? 404)%Z then $"Not Found"
  else if (status =? 405)%Z then $"Method Not Allowed"
  else if (status =? 411)%Z then $"Length Required"
  else if (status =? 413)%Z then $"Payload Too Large"
  else if (status =? 431)%Z then $"Request Header Fields Too Large"
  else if (status =? 501)%Z then $"Not Implemented"
  else if (status =? 503)%Z then $"Service Unavailable"
  else $"Error".

(** A complete answer, with the length of its body. *)
Definition whole_answer (status : Z) (reason content_type body : str) : bytes :=
  as_bytes ($"HTTP/1.1 " ++ show_status status ++ $" " ++ reason ++ CRLF
            ++ $"Content-Type: " ++ content_type ++ CRLF
            ++ $"Content-Length: " ++ show_nat (byte_len body) ++ CRLF
            ++ $"Connection: close" ++ CRLF ++ CRLF) ++ as_bytes body.

Definition write_error (status : Z) (message : str) (json_body : bool) : bytes :=
  whole_answer status (reason_phrase status) (if json_body then $"application/json" else $"text/plain")
    (if json_body then json_text (json [($"error", json [($"message", JString message)])]) else message).

Definition provider_keys (provider : CloudProviderConfig) : list str :=
  match cp_api_keys provider with
  | [] => match non_blank (cp_api_key provider) with Some key => [key] | None => [] end
  | api_keys => List.filter (fun key => negb (is_empty key))
                  (map (fun e => trim (ak_key e)) (List.filter ak_enabled api_keys))
  end.

Definition model_entry (m : ProviderModel) : Value :=
  json ([($"id", JString (pm_id m)); ($"object", JString $"model")]
        ++ match pm_owned_by m with Some owner => [($"owned_by", JString owner)] | None => [] end).

(** The keys of the provider are tried in their order. *)
Fixpoint try_keys (provider : CloudProviderConfig) (keys : list str) (last_error : option str) : W bytes :=
  match keys with
  | [] => wret (write_error 503 (default $"failed to list active provider models" last_error) true)
  | key :: rest =>
    via! r := list_models_with_wire_api (cp_base_url provider) key (cp_wire_api provider) in
    match r with
    | Ok models =>
      wret (whole_answer 200 $"OK" $"application/json"
              (json_text (json [($"object", JString $"list");
                                ($"data", JArray (map model_entry (lm_models models)))])))
    | Err error => try_keys provider rest (Some error)
    end
  end.

Definition write_model_list : W bytes :=
  match uc_active_provider_id (rc_routing config) with
  | None => wret (write_error 503 $"no active provider is configured" true)
  | Some active_id =>
    match find_provider (rc_routing config) active_id with
    | None => wret (write_error 503 $"the active provider no longer exists" true)
    | Some provider =>
      let keys := provider_keys provider in
      if is_empty keys then wret (write_error 503 $"the active provider has no enabled API key" true)
      else try_keys provider keys None
    end
  end.

Definition upstream_head (response : UpstreamResponse) : bytes :=
  as_bytes ($"HTTP/1.1 " ++ show_status (ur_status response) ++ $" "
            ++ default $"Upstream Response" (canonical_reason (ur_status response)) ++ CRLF
            ++ $"Connection: close" ++ CRLF
            ++ match ur_content_type response with
               | Some value => $"Content-Type: " ++ value ++ CRLF
               | None => []
               end
            ++ match ur_retry_after response with
               | Some value => $"Retry-After: " ++ value ++ CRLF
               | None => []
               end ++ CRLF).

Definition arrived {E} (items : list (result bytes E)) : list bytes :=
  omap (fun r => match r with Ok chunk => Some chunk | Err _ => None end) items.

(** The client takes [reads] chunks of the body; writing the next one fails. *)
Definition write_upstream_response (reads : nat) (response : UpstreamResponse) (log : RequestLog) : W bytes :=
  via! items := in_logs (raw_byte_stream http_error_text (S reads) (ur_chunks response) log) in
  wret (upstream_head response ++ concat (take reads (arrived items))).

(** ** Connections *)

(** What the client sends before it closes its side, and how much of an answer it takes. *)
Record Client := mkClient { cl_input : bytes; cl_reads : nat }.

Definition head_complete (reversed : bytes) : bool := starts_with (rev END_OF_HEAD) reversed.

(** The head, in reverse, and the rest of the input; [None] when the input ends before. *)
Fixpoint read_head (fuel : nat) (reversed input : bytes) : option (bytes * bytes) :=
  match fuel with
  | 0 => Some (reversed, input)
  | S fuel =>
    match input with
    | [] => None
    | byte :: rest =>
      let reversed := byte :: reversed in
      if head_complete reversed then Some (reversed, rest) else read_head fuel reversed rest
    end
  end.

Definition wire_api_of_path (path : str) : option ProviderWireApi :=
  if one_of path [$"/v1/responses"; $"/responses"] then Some Responses
  else if one_of path [$"/v1/chat/completions"; $"/chat/completions"] then Some ChatCompletions
  else if one_of path [$"/v1/messages"; $"/messages"] then Some AnthropicMessages
  else None.

Definition INVALID_KEY : str := $"invalid local relay API key".

Definition relay_answer (reads : nat) (r : result (UpstreamResponse * RequestLog) RelayError) : W bytes :=
  match r with
  | Ok (response, log) => write_upstream_response reads response log
  | Err (InvalidRequest message) => wret (write_error 400 message true)
  | Err (Unavailable message) => wret (write_error 503 message true)
  end.

Definition handle_get (request : RequestHead) (relay_key : str) : W bytes :=
  if negb (one_of (rh_path request) [$"/v1/models"; $"/models"])
  then wret (write_error 404 $"not found" false)
  else if negb (valid_local_key request relay_key true)
  then wret (write_error 401 INVALID_KEY true)
  else write_model_list.

(** [input] is what follows the head; a body that ends early gets no answer. *)
Definition handle_post (reads : nat) (request : RequestHead) (relay_key : str) (input : bytes) : W bytes :=
  match wire_api_of_path (rh_path request) with
  | None => wret (write_error 404 $"not found" false)
  | Some wire_api =>
    if match rh_transfer_encoding request with
       | Some value => negb (eq_ignore_ascii_case value $"identity")
       | None => false
       end
    then wret (write_error 501 $"chunked requests are not supported" false)
    else
      match rh_content_length request with
      | None => wret (write_error 411 $"Content-Length is required" false)
      | Some content_length =>
        if (MAX_BODY_BYTES <? content_length)%N
        then wret (write_error 413 $"request body too large" false)
        else if negb (valid_local_key request relay_key (bool_decide (wire_api = AnthropicMessages)))
        then wret (write_error 401 INVALID_KEY false)
        else if (N.of_nat (length input) <? content_length)%N then wret []
        else
          via! r := open_active_provider_request wire_api (take (N.to_nat content_length) input)
                      (rh_content_type request) (rh_anthropic_version request)
                      (rh_anthropic_beta request) in
          relay_answer reads r
      end
  end.

Definition handle_connection (relay_key : str) (client : Client) : W bytes :=
  match read_head (S MAX_HEADER_BYTES) [] (cl_input client) with
  | None => wret []
  | Some (reversed, input) =>
    if negb (head_complete reversed)
    then wret (write_error 431 $"request headers too large" false)
    else
      match parse_request_head (rev (drop (length END_OF_HEAD) reversed)) with
      | Err (status, message) => wret (write_error status message false)
      | Ok request =>
        if rh_method request =s $"GET" then handle_get request relay_key
        else if negb (rh_method request =s $"POST")
        then wret (write_error 405 $"only POST is supported" false)
        else handle_post (cl_reads client) request relay_key input
      end
  end.
End Relay.

(** ** The listener *)

(** The task that accepts connections, by its port and the key that it checks. *)
Record RelayHandle := mkRelayHandle { rl_port : Z; rl_key : str }.
(** [TcpListener::bind] on the loopback address, with the text of its error. *)
Class Loopback := bind_loopback : Z -> option (list N).

Definition stop_relay (handle : option RelayHandle) : option RelayHandle := None.

Definition restart_relay `{Loopback} (config : RelayConfig) (handle : option RelayHandle)
  : result unit str * option RelayHandle :=
  let handle := stop_relay handle in
  let settings := rc_settings config in
  if negb (rc_local_relay_enabled config) then (Ok tt, handle)
  else
    match non_blank (st_local_relay_api_key settings) with
    | None => (Err $"local relay is enabled but its local API key is empty", handle)
    | Some key =>
      match bind_loopback (st_local_relay_port settings) with
      | Some error =>
        (Err ($"failed to bind local relay on 127.0.0.1:" ++ show_status (st_local_relay_port settings)
              ++ $": " ++ error), handle)
      | None => (Ok tt, Some (mkRelayHandle (st_local_relay_port settings) key))
      end
    end.

(** [accept_loop]: every connection is handled with the configuration of its time, one after
    another in the model; the answers in the order of the connections. *)
Fixpoint accept_loop `{Env, LogOutside, HeaderValues, JsonPretty, UrlCodec, Upstream, ErrorTexts, Clock,
    JsonText, JsonParse} (relay_key : str) (connections : list (RelayConfig * Client)) : W (list bytes) :=
  match connections with
  | [] => wret []
  | (config, client) :: rest =>
    via! answer := handle_connection config relay_key client in
    via! answers := accept_loop relay_key rest in
    wret (answer :: answers)
  end.

(** ** What the local relay passes on (apps/desktop/src-tauri/src/relay.rs)

    Only a request with the local key reaches a provider, and it reaches the one that is
    active, with the body and the few headers that it had; an answer comes back as it was.
    Three theorems at the end show where the relay leaves this contract. *)

(** ** The sent requests of a computation *)

(** [m] sends requests of [P] only, and keeps those that were sent before. *)
Definition sends {A} (P : UpstreamRequest -> Prop) (m : W A) : Prop :=
  forall w, exists l, rw_sent (snd (m w)) = rw_sent w ++ l /\ Forall P l.

Section Sends.
Context (P : UpstreamRequest -> Prop).

Lemma sends_ret {A} (a : A) : sends P (wret a).
Proof. intros w. exists []. by rewrite app_nil_r. Qed.

Lemma sends_bind {A B} (m : W A) (f : A -> W B) :
  sends P m -> (forall a, sends P (f a)) -> sends P (wbind m f).
Proof.
  intros Hm Hf w. unfold wbind. destruct (Hm w) as (l & Hl & Hp). destruct (m w) as [a w1].
  destruct (Hf a w1) as (l' & Hl' & Hp'). exists (l ++ l'). cbn [snd] in *.
  rewrite Hl', Hl, app_assoc. split; [done|by apply Forall_app_2].
Qed.

(** The same where the value of [m] is known. *)
Lemma sends_bind_value {A B} (m : W A) (f : A -> W B) :
  sends P m -> (forall w, sends P (f (fst (m w)))) -> sends P (wbind m f).
Proof.
  intros Hm Hf w. unfold wbind. destruct (Hm w) as (l & Hl & Hp). specialize (Hf w).
  destruct (m w) as [a w1]. destruct (Hf w1) as (l' & Hl' & Hp'). exists (l ++ l'). cbn [snd fst] in *.
  rewrite Hl', Hl, app_assoc. split; [done|by apply Forall_app_2].
Qed.

Lemma in_tables_value {A} (m : R A) w : fst (in_tables m w) = fst (m (rw_runtime w)).
Proof. unfold in_tables. by destruct (m _). Qed.

Lemma sends_tables {A} (m : R A) : sends P (in_tables m).
Proof. intros w. exists []. unfold in_tables. destruct (m _). by rewrite app_nil_r. Qed.
Lemma sends_logs {A} (m : LogDb -> A * LogDb) : sends P (in_logs m).
Proof. intros w. exists []. unfold in_logs. destruct (m _). by rewrite app_nil_r. Qed.
Lemma sends_draw : sends P relay_draw.
Proof. intros w. exists []. by rewrite app_nil_r. Qed.
Lemma sends_send `{Upstream} rq : P rq -> sends P (send rq).
Proof. intros Hp w. exists [rq]. by repeat constructor. Qed.
End Sends.

Create HintDb xc_sends discriminated.
#[export] Hint Resolve sends_ret sends_tables sends_logs sends_draw : xc_sends.

(** Walks through a computation to the requests that it sends. *)
Ltac sending :=
  repeat match goal with
  | |- sends _ (wbind _ _) => apply sends_bind; [|intros ?]
  | |- sends _ (if ?b then _ else _) => destruct b eqn:?
  | |- sends _ (match ?x with _ => _ end) => destruct x eqn:?
  | |- sends _ _ => solve [eauto with xc_sends]
  end.

(** ** The head of a connection *)

Lemma read_head_spec fuel : forall reversed input r rest,
  read_head fuel reversed input = Some (r, rest) ->
  exists taken, input = taken ++ rest /\ r = rev taken ++ reversed.
Proof.
  induction fuel as [|fuel IH]; intros reversed input r rest; cbn [read_head].
  { intros [= <- <-]. by exists []. }
  destruct input as [|byte input]; [done|]. destruct (head_complete _).
  { intros [= <- <-]. by exists [byte]. }
  intros (taken & -> & ->)%IH. exists (byte :: taken). split; [done|]. cbn [rev].
  by rewrite <- app_assoc.
Qed.

Lemma complete_head input r rest :
  read_head (S MAX_HEADER_BYTES) [] input = Some (r, rest) -> head_complete r = true ->
  input = rev (drop (length END_OF_HEAD) r) ++ END_OF_HEAD ++ rest.
Proof.
  intros (taken & -> & ->)%read_head_spec (h & Hh)%starts_with_true. rewrite app_nil_r in Hh |- *.
  rewrite Hh, <- (rev_involutive taken), Hh, rev_app_distr, rev_involutive.
  by rewrite <- app_assoc.
Qed.

Section Facts.
Context {En : Env} {Lo : LogOutside} {Hv : HeaderValues} {Jp : JsonPretty} {Uc : UrlCodec}
        {Up : Upstream} {Et : ErrorTexts} {Cl : Clock} {Jt : JsonText} {Jf : JsonParse}.

(** ** What may be sent *)

(** A credential of the active provider, opened as the agent opens it. *)
Definition opens_active (config : RelayConfig) (wire_api : ProviderWireApi)
    (opened : OpenAiCompatibleProvider) : Prop :=
  exists active_id provider key sid,
    uc_active_provider_id (rc_routing config) = Some active_id /\
    find_provider (rc_routing config) active_id = Some provider /\
    cp_wire_api provider = wire_api /\
    key ∈ provider_credential_list (rc_routing config) provider (Some active_id) /\
    open_with (rc_env config) (candidate_of provider None key) sid = Ok opened.

(** The request of the client that a request to the provider stands for. *)
Inductive forwards (config : RelayConfig) (relay_key : str) (input : bytes) : UpstreamRequest -> Prop :=
| forwards_post head body rest request wire_api opened :
    input = head ++ END_OF_HEAD ++ body ++ rest ->
    parse_request_head head = Ok request -> rh_method request = $"POST" ->
    wire_api_of_path (rh_path request) = Some wire_api ->
    rh_content_length request = Some (N.of_nat (length body)) ->
    (N.of_nat (length body) <= MAX_BODY_BYTES)%N ->
    valid_local_key request relay_key (bool_decide (wire_api = AnthropicMessages)) = true ->
    opens_active config wire_api opened ->
    forwards config relay_key input
      (raw_request config opened wire_api body (rh_content_type request)
         (rh_anthropic_version request) (rh_anthropic_beta request))
| forwards_models head rest request active_id provider opened :
    input = head ++ END_OF_HEAD ++ rest ->
    parse_request_head head = Ok request -> rh_method request = $"GET" ->
    valid_local_key request relay_key true = true ->
    uc_active_provider_id (rc_routing config) = Some active_id ->
    find_provider (rc_routing config) active_id = Some provider ->
    op_api_key opened ∈ provider_keys provider ->
    op_wire_api opened = cp_wire_api provider ->
    (forall base, non_blank (Some (cp_base_url provider)) = Some base ->
       op_base_url opened = api_root_url (api_root_url base)) ->
    forwards config relay_key input (models_request opened).

Lemma sends_raw P config opened wire_api body ct av ab :
  P (raw_request config opened wire_api body ct av ab) ->
  sends P (open_raw_request config opened wire_api body ct av ab).
Proof.
  intros Hp. unfold open_raw_request. sending; by apply sends_send.
Qed.

Lemma relay_provider_Ok config wire_api body provider :
  relay_provider config wire_api body = Ok provider ->
  exists active_id, uc_active_provider_id (rc_routing config) = Some active_id /\
    find_provider (rc_routing config) active_id = Some provider /\ cp_wire_api provider = wire_api.
Proof.
  unfold relay_provider. destruct (body_value body) as [value|]; [|done].
  destruct (non_blank _); [|done]. destruct (uc_active_provider_id _) as [active_id|]; [|done].
  destruct (find_provider _ active_id) as [p|] eqn:Ep; [|done].
  case_bool_decide as Hw; [|done]. intros [= <-]. eauto.
Qed.

Lemma run_find_elem {A} (f : A -> R bool) l rt a : fst (run_find f l rt) = Some a -> a ∈ l.
Proof.
  revert rt. induction l as [|x l IH]; intros rt; [done|]. cbn [run_find]. unfold rthen.
  destruct (f x rt) as [[] rt1]; cbn.
  - intros [= ->]. by left.
  - intros Ha. right. by eapply IH.
Qed.

Lemma relay_candidate_elem cs rt c : fst (relay_candidate cs rt) = Some c -> c ∈ cs.
Proof.
  unfold relay_candidate, rthen. pose proof (run_find_elem candidate_usable cs rt) as Hf.
  destruct (run_find candidate_usable cs rt) as [[x|] rt1]; cbn [fst] in *; [intros [= ->]; by apply Hf|].
  destruct (release_key_cooldowns_when_all_are_blocked cs rt1) as [[] rt2].
  destruct (release_circuits_when_all_are_open cs rt2) as [[] rt3]. apply run_find_elem.
Qed.

Lemma sends_active P config wire_api body ct av ab :
  (forall opened, opens_active config wire_api opened ->
     P (raw_request config opened wire_api body ct av ab)) ->
  sends P (open_active_provider_request config wire_api body ct av ab).
Proof.
  intros Hp. unfold open_active_provider_request.
  destruct (relay_provider config wire_api body) as [provider|] eqn:Ep; [|sending].
  destruct (relay_provider_Ok _ _ _ _ Ep) as (active_id & Ha & Hf & Hw). rewrite Ha.
  apply sends_bind_value; [sending|]. intros w. rewrite in_tables_value.
  pose proof (expand_elem (rc_routing config) provider (Some active_id) None (rw_runtime w)) as Hexp.
  destruct (expand_provider_candidates _ _ _ _ (rw_runtime w)) as [cs rt]. cbn [fst] in *.
  destruct (is_empty cs); [sending|]. apply sends_bind_value; [sending|]. intros w1.
  rewrite in_tables_value. pose proof (relay_candidate_elem cs (rw_runtime w1)) as Hc.
  destruct (relay_candidate cs (rw_runtime w1)) as [[c|] rt1]; cbn [fst] in *; [|sending].
  destruct (Hexp c (Hc c eq_refl)) as (key & Hkey & ->).
  apply sends_bind; [sending|]. intros n.
  destruct (open_with _ _ _) as [opened|] eqn:Eo; [|sending].
  apply sends_bind; [|intros r; sending].
  apply sends_raw, Hp. exists active_id, provider, key, (new_v4 n). done.
Qed.

Lemma sends_relay_answer P reads r : sends P (relay_answer reads r).
Proof. unfold relay_answer, write_upstream_response. sending. Qed.

Lemma sends_models P provider :
  P (models_request provider) -> sends P (provider_list_models provider).
Proof. intros Hp. unfold provider_list_models. sending. by apply sends_send. Qed.

Lemma non_blank_key p key : key ∈ provider_keys p -> non_blank (Some key) = Some key.
Proof.
  assert (forall k : str, is_empty (trim k) = false -> non_blank (Some (trim k)) = Some (trim k)) as Ht.
  { intros k Hk. unfold non_blank. cbn. by rewrite trim_idem, Hk. }
  unfold provider_keys. destruct (cp_api_keys p) as [|e es].
  - unfold non_blank at 1. destruct (cp_api_key p) as [k|]; cbn; [|set_solver].
    destruct (is_empty (trim k)) eqn:E; [set_solver|]. intros ->%list_elem_of_singleton. by apply Ht.
  - rewrite list_elem_of_In, filter_In, <- list_elem_of_In. intros [(x & -> & _)%list_elem_of_fmap Hn].
    apply Ht. by destruct (is_empty _).
Qed.

Lemma sends_keys P config provider keys last_error :
  (forall key opened, key ∈ keys -> op_wire_api opened = cp_wire_api provider ->
     (forall k, non_blank (Some key) = Some k -> op_api_key opened = k) ->
     (forall base, non_blank (Some (cp_base_url provider)) = Some base ->
        op_base_url opened = api_root_url (api_root_url base)) ->
     P (models_request opened)) ->
  sends P (try_keys config provider keys last_error).
Proof.
  revert last_error. induction keys as [|key keys IH]; intros last_error Hp; cbn [try_keys]; [sending|].
  apply sends_bind.
  - unfold list_models_with_wire_api. destruct (resolve_provider_credentials _ _ _) as [[k b]|] eqn:Er; [|sending].
    sending. apply sends_models, (Hp key); [by left|done|..]; cbn [op_api_key op_base_url].
    + intros k0 Hk. unfold resolve_provider_credentials in Er. rewrite Hk in Er. cbn [or_first] in Er. congruence.
    + intros base Hb. unfold resolve_provider_credentials in Er. rewrite Hb in Er. cbn [or_first or_else] in Er.
      destruct (_ <||> _); [|done]. by injection Er as <- <-.
  - intros [models|error]; [sending|]. apply IH. intros k opened Hk. apply Hp. by right.
Qed.

Lemma connection_forwards config relay_key client :
  sends (forwards config relay_key (cl_input client)) (handle_connection config relay_key client).
Proof.
  unfold handle_connection. destruct (read_head _ _ _) as [[r input]|] eqn:Er; [|sending].
  destruct (head_complete r) eqn:Eh; cbn [negb]; [|sending].
  pose proof (complete_head _ _ _ Er Eh) as Hin.
  destruct (parse_request_head _) as [request|[status message]] eqn:Ep; [|sending].
  destruct (rh_method request =s $"GET") eqn:Eg; [|destruct (negb _) eqn:Epost; [sending|]].
  - unfold handle_get, write_model_list. sending. apply sends_keys.
    intros key opened Hk Hw Hkey Hbase. apply str_eqb_true in Eg.
    match goal with H : negb (valid_local_key _ _ _) = false |- _ => apply negb_false_iff in H end.
    econstructor; eauto. by rewrite (Hkey _ (non_blank_key _ _ Hk)).
  - apply negb_false_iff, str_eqb_true in Epost. unfold handle_post. sending; [|apply sends_relay_answer].
    match goal with H : negb (valid_local_key _ _ _) = false |- _ => apply negb_false_iff in H end.
    apply sends_active. intros opened Ho.
    match goal with H : (N.of_nat (length input) <? ?n)%N = false |- _ => apply N.ltb_ge in H;
      assert (N.of_nat (length (take (N.to_nat n) input)) = n) as Hlen by (rewrite length_take; lia) end.
    apply (forwards_post config relay_key (cl_input client) (rev (drop (length END_OF_HEAD) r)) _ (drop (N.to_nat n) input));
      try done; [by rewrite take_drop|by rewrite Hlen|rewrite Hlen; by apply N.ltb_ge].
Qed.

(** ** Refusals and answers *)

Lemma key_without_header request key : valid_local_key request key false = true -> valid_local_key request key true = true.
Proof. unfold valid_local_key. by destruct (rh_authorization request). Qed.


(** The request that the relay makes out of the input of a client. *)
Definition head_of (input : bytes) : option RequestHead :=
  match read_head (S MAX_HEADER_BYTES) [] input with
  | Some (reversed, _) =>
    if head_complete reversed then
      match parse_request_head (rev (drop (length END_OF_HEAD) reversed)) with
      | Ok request => Some request
      | Err _ => None
      end
    else None
  | None => None
  end.

(** A client without the local key changes nothing: no request is sent, no credential
    is chosen, no table of the agent and no row of the log changes. *)
Theorem relay_refuses_strangers config relay_key client w :
  (forall request, head_of (cl_input client) = Some request ->
     valid_local_key request relay_key true = false) ->
  snd (handle_connection config relay_key client w) = w.
Proof.
  unfold head_of, handle_connection. intros Hn. destruct (read_head _ _ _) as [[r input]|]; [|done].
  destruct (head_complete r); cbn [negb]; [|done].
  destruct (parse_request_head _) as [request|[status message]]; [|done].
  specialize (Hn _ eq_refl). unfold handle_get, handle_post. rewrite Hn. cbn [negb].
  assert (forall b, valid_local_key request relay_key b = false) as Hb.
  { intros []; [done|]. apply not_true_iff_false. by intros Ht%key_without_header; congruence. }
  repeat (case_match; try done); match goal with H : negb _ = false |- _ => by rewrite Hb in H end.
Qed.

(** The chunks of a body before it breaks off. *)
Fixpoint received {E} (chunks : list (result bytes E)) : list bytes :=
  match chunks with
  | Ok chunk :: rest => chunk :: received rest
  | _ => []
  end.

Lemma stream_items {E} (text : E -> str) taken chunks log db :
  arrived (fst (raw_byte_stream text taken chunks log db)) = take taken (received chunks).
Proof.
  revert taken log db. induction chunks as [|[chunk|error] chunks IH]; intros [|taken] log db;
    cbn [raw_byte_stream received]; try done.
  - by destruct (finish_log _ _ _).
  - specialize (IH taken (append_response chunk log) db).
    destruct (raw_byte_stream text taken chunks _ db). cbn [fst] in *. cbn. by f_equal.
  - by destruct (finish_log _ _ _).
Qed.

(** The body of an answer arrives byte for byte, as far as the client reads and the
    provider sends. *)
Theorem relay_answer_exact reads response log w :
  fst (write_upstream_response reads response log w)
  = upstream_head response ++ concat (take reads (received (ur_chunks response))).
Proof.
  unfold write_upstream_response, wbind, in_logs.
  pose proof (stream_items http_error_text (S reads) (ur_chunks response) log (rw_logs w)) as Hi.
  destruct (raw_byte_stream _ _ _ _ _) as [items db]. cbn [fst] in *. unfold wret. cbn [fst].
  rewrite Hi, take_take. do 3 f_equal. lia.
Qed.
End Facts.

(** ** The listener *)

(** The relay listens only when it is enabled, on the configured port, and with a key. *)
Theorem restart_listens `{Loopback} config handle r l :
  restart_relay config handle = (r, l) ->
  match l with
  | Some h => r = Ok tt /\ rc_local_relay_enabled config = true /\ rl_key h <> [] /\
              Some (rl_key h) = non_blank (st_local_relay_api_key (rc_settings config)) /\
              rl_port h = st_local_relay_port (rc_settings config)
  | None => rc_local_relay_enabled config = true -> exists error, r = Err error
  end.
Proof.
  unfold restart_relay, stop_relay. destruct (rc_local_relay_enabled config); cbn [negb]; [|by intros [= <- <-]].
  destruct (non_blank _) as [key|] eqn:Ek; [|intros [= <- <-]; eauto].
  destruct (bind_loopback _); intros [= <- <-]; [eauto|]. cbn. split_and!; try done.
  unfold non_blank in Ek. destruct (st_local_relay_api_key _) as [k|]; [|done]. cbn in Ek.
  by destruct (trim k); cbn in Ek; simplify_eq.
Qed.

(** ** Where the relay leaves its contract *)

(** The error for an active provider without a key cannot arise: the list of candidates of
    the active provider is never empty. *)
Theorem active_provider_has_candidate config provider active_id rt :
  find_provider config active_id = Some provider ->
  fst (expand_provider_candidates config provider (Some active_id) None rt) <> [].
Proof.
  intros Hf. apply find_some in Hf as [_ Hid%str_eqb_true]. intros Hnil.
  assert (provider_credential_list config provider (Some active_id) = []) as He.
  { pose proof (provider_candidate_keys_perm config provider (Some active_id) rt) as Hp.
    unfold expand_provider_candidates, rthen in Hnil.
    destruct (provider_candidate_keys config provider (Some active_id) rt) as [ks rt1]. cbn in *.
    destruct ks; [|done]. by apply Permutation_nil in Hp. }
  revert He. unfold provider_credential_list, is_active. rewrite Hid, bool_decide_true by done.
  by destruct (is_empty _) eqn:E; [|intros He; rewrite He in E].
Qed.

(** ** An example *)

#[local] Instance relay_env : Env := counter_env true.
#[local] Instance relay_logs : LogOutside := {| log_fault := fun _ => None; log_elapsed_ms := N.of_nat |}.
#[local] Instance relay_headers : HeaderValues := fun _ => true.
#[local] Instance relay_pretty : JsonPretty := fun _ => $"{}".
#[local] Instance relay_urls : UrlCodec := {| url_parse := fun _ => None; url_text := ur_rest |}.
#[local] Instance relay_texts : ErrorTexts := {|
  core_error_text := fun _ => $"core"; http_error_text := fun _ => $"http" |}.
#[local] Instance relay_clock : Clock := fun _ => 0%Z.
#[local] Instance relay_json : JsonText := fun _ => $"{}".
#[local] Instance relay_parse : JsonParse := fun _ => Some (JObject [($"model", JString $"m")]).
(** A provider that refuses every request as malformed. *)
#[local] Instance refusing_upstream : Upstream := {|
  build_error := fun _ => None;
  execute := fun _ _ => Ok (mkUpstreamResponse 400 None None [Ok (as_bytes $"no")]);
  canonical_reason := fun _ => Some $"Bad Request";
  models_of_text := fun _ => Ok [];
  body_value := fun _ => Ok (JObject [($"model", JString $"m")]);
  response_text := fun _ => Ok [] |}.

Definition relay_user (keys : option str) : UserConfig :=
  mkUserConfig None
    [mkProvider $"p" $"Relay" $"https://relay.example" ChatCompletions Relay keys [] None]
    (Some $"p") false [].
Definition relay_settings (config : UserConfig) : Settings :=
  mkSettings $"openai" $"m" $"en" 1 1 3 60 60 60 30 1 60 100 10 80 [] None None ProxyOff None None 8123
    (Some $"local") [] config.
Definition relay_config (keys : option str) : RelayConfig :=
  mkRelayConfig (relay_settings (relay_user keys)) true false
    (<[OPENAI_API_KEY := $"env-key"]> (<[XCODING_OPENAI_BASE_URL := $"https://elsewhere.example"]> ∅)).
Definition relay_world : RelayWorld := mkRelayWorld new_runtime no_logs [] 0.
Definition relay_client (key : str) : Client :=
  mkClient (as_bytes ($"POST /v1/chat/completions HTTP/1.1" ++ CRLF ++ $"Authorization: Bearer " ++ key
                      ++ CRLF ++ $"Content-Length: 2" ++ CRLF ++ CRLF ++ $"{}")) 5.

(** With the local key, the provider's answer comes back. *)
Example relay_passes :
  fst (handle_connection (relay_config (Some $"pk")) $"local" (relay_client $"local") relay_world)
  = as_bytes ($"HTTP/1.1 400 Bad Request" ++ CRLF ++ $"Connection: close" ++ CRLF ++ CRLF ++ $"no").
Proof. vm_compute. reflexivity. Qed.

(** The relay is meant for the active provider only.  When that provider has no key of its
    own, though, a credential from the environment is used, and the request goes to the
    address in the environment. *)
Theorem relay_leaves_active_provider :
  map up_url (rw_sent (snd (handle_connection (relay_config None) $"local" (relay_client $"local") relay_world)))
  = [$"https://elsewhere.example/v1/chat/completions"].
Proof. vm_compute. reflexivity. Qed.

(** Requests that the provider refuses as malformed count as failures of the provider: as
    many as the threshold open its circuit, which the chats of the agent share. *)
Theorem malformed_requests_open_circuit :
  let config := relay_config (Some $"pk") in
  let world := snd (accept_loop $"local" (repeat (config, relay_client $"local") 3) relay_world) in
  forall c, c ∈ fst (expand_provider_candidates (rc_routing config)
                       (mkProvider $"p" $"Relay" $"https://relay.example" ChatCompletions Relay (Some $"pk") [] None)
                       (Some $"p") None new_runtime) ->
    fst (circuit_allows c (rw_runtime world)) = false.
Proof.
  intros config world c Hc. vm_compute in Hc. apply list_elem_of_singleton in Hc as ->.
  vm_compute. reflexivity.
Qed.

Definition stranger : Client := mkClient (as_bytes ($"GET /v1/models HTTP/1.1" ++ CRLF ++ CRLF)) 5.
Lemma relay_refuses_strangers_witness :
  (forall request, head_of (cl_input stranger) = Some request ->
     valid_local_key request $"local" true = false) /\
  snd (handle_connection (relay_config None) $"local" stranger relay_world) = relay_world.
Proof.
  assert (forall request, head_of (cl_input stranger) = Some request ->
            valid_local_key request $"local" true = false) as Hn.
  { intros request Hr. vm_compute in Hr. injection Hr as <-. vm_compute. reflexivity. }
  split; [exact Hn|]. exact (relay_refuses_strangers (relay_config None) $"local" stranger relay_world Hn).
Defined.
