(* ===== verification/Projects.v ===== *)
(** * Projects (apps/desktop/src-tauri/src/projects.rs)

    The folders below the workspace home that the desktop application shows as projects:
    the name of the folder of a new project, titles, listing, renaming and importing.  A
    path that the user gives is looked up once, from the directory of the process; what is
    done below it starts there.  The table of pinyin, the printer and the parser of JSON,
    the clock and the texts of errors are parameters. *)

From S2P Require Import Prelude.
From S2P Require Import Protocol.
From S2P Require Import Sql.
From S2P Require Import Store.
From S2P Require Import StoreInv.
From S2P Require Import StoreFacts.
From S2P Require Import StoreDelete.
From S2P Require Import Core.
From S2P Require Import CoreCalls.
From S2P Require Import Text.
From S2P Require Import Files.
From S2P Require Import FilesFacts.
From S2P Require Import ToolArgs.
From S2P Require Import ToolText.
From S2P Require Import Tools.
From S2P Require Import PatchFacts.
From S2P Require Import Compression.
From S2P Require Import ProviderWire.
From S2P Require Import RequestLogs.
From S2P Require Import Agent.

(** ** The name of a folder *)

(** [ToPinyin::to_pinyin] with [Pinyin::plain]. *)
Class PinyinTable := to_pinyin : char -> option (list N).

Definition is_cjk (c : char) : bool :=
  in_range 0x3400 0x4dbf c || in_range 0x4e00 0x9fff c || in_range 0xf900 0xfaff c.

Section Slug.
Context {Pinyin : PinyinTable}.

(** The word that was collected in [buf], if any, before the other tokens. *)
Definition flush (buf : str) (tokens : list str) : list str :=
  if is_empty buf then tokens else buf :: tokens.

(** Every other character ends a word, the separators that the code names like the rest. *)
Fixpoint slug_tokens (buf s : str) : list str :=
  match s with
  | [] => flush buf []
  | c :: s =>
    if is_cjk c then
      flush buf (match to_pinyin c with
                 | Some py => py :: slug_tokens [] s
                 | None => slug_tokens [] s
                 end)
    else if is_ascii_alphanumeric c then slug_tokens (buf ++ [lower_char c]) s
    else flush buf (slug_tokens [] s)
  end.

Definition project_dir_slug (display_name : str) : result str str :=
  let trimmed := trim display_name in
  if is_empty trimmed then Err $"project name is required"
  else
    let slug := join $"-" (List.filter (fun token => negb (is_empty token)) (slug_tokens [] trimmed)) in
    if is_empty slug then Err $"could not derive a directory name from the project name"
    else if (slug =s $".") || (slug =s $"..") then Err $"invalid project directory name"
    else if existsb (fun c => contains_char c (DQUOTE :: $"<>:|?*")) slug
    then Err $"invalid project directory name"
    else Ok slug.
End Slug.

(** ** Paths and files *)

Record ProjectDir := mkProjectDir { pd_path : str; pd_dir_name : str; pd_title : str }.
Record CreateProjectParams := mkCreateProject { cp_workspace_home : str; cp_project_name : str }.
Record ImportProjectParams := mkImportProject { ip_workspace_home : str; ip_source_path : str }.
Record ImportProjectResult := mkImported {
  ir_project : ProjectDir; ir_already_existed : bool; ir_copied : bool }.
Record RenameProjectParams := mkRenameProject { rp_project_path : str; rp_title : str }.

(** The text of an absolute path without links, and [Path::join] on texts. *)
Definition path_text (p : apath) : str := SLASH :: join [SLASH] p.
Definition join_text (path name : str) : str :=
  if is_empty path then name else if ends_with $"/" path then path ++ name else path ++ SLASH :: name.

(** A path as the user gave it, and where it leads: the directory of the process is [cwd],
    and [millis] the clock. *)
Class Process := { cwd : list (list N); millis : N }.

Section Projects.
Context `{Disk} {Text_ : IoText} {Parse : JsonParse} {Print : JsonPretty} {Case : UnicodeCase}.
Context {Pinyin : PinyinTable} {Proc : Process}.

(** Errors are texts. *)
Definition P (A : Type) : Type := World -> result A str * World.
Definition pret {A} (a : A) : P A := fun w => (Ok a, w).
Definition perr {A} (e : str) : P A := fun w => (Err e, w).
Definition pbind {A B} (m : P A) (f : A -> P B) : P B := fun w =>
  match m w with
  | (Ok a, w) => f a w
  | (Err e, w) => (Err e, w)
  end.
Notation "'let%' x := m 'in' k" := (pbind m (fun x => k))
  (at level 10, x pattern, m at level 100, k at level 200).
Definition of_io {A} (m : IO A) : P A := fun w =>
  match m w with
  | (Ok a, w) => (Ok a, w)
  | (Err e, w) => (Err (io_text e), w)
  end.
Definition seen {A} (f : FileSystem -> A) : P A := fun w => (Ok (f (w_fs w)), w).

Definition locate (fs : FileSystem) (path : str) : result apath IoError :=
  let start := if is_absolute path then [] else comps cwd in
  let? r := walk false fs MAX_SYMLINKS [] (start ++ components path) in Ok (fst r).
Definition located (fs : FileSystem) (path : str) : option Node :=
  match locate fs path with Ok p => node_at fs p | Err _ => None end.

Definition meta_path (project : apath) : apath := project ++ [$".xcoding"; $"project-meta.json"].

Definition read_title (project : apath) (fallback : str) : P str := fun w =>
  match read_to_string (meta_path project) w with
  | (Err _, w) => (Ok fallback, w)
  | (Ok raw, w) =>
    (Ok (match from_str raw with
         | None => fallback
         | Some value =>
           match json_get $"title" value ≫= as_str with
           | Some title => if is_empty (trim title) then fallback else trim title
           | None => fallback
           end
         end), w)
  end.

Definition write_text_utf8 (path : apath) (text : str) : IO unit :=
  io_bind (match parent_of path with Some up => create_dir_all up | None => io_ret tt end) (fun _ =>
  let temporary := temporary_sibling path in
  io_bind (file_create temporary) (fun file =>
  io_bind (write_all file text) (fun _ =>
  io_bind sync_data (fun _ w =>
    match rename temporary path w with
    | (Ok _, w) => (Ok tt, w)
    | (Err e, w) => (Err e, snd (remove_file temporary w))
    end)))).

Definition write_title (project : apath) (title : str) : P unit :=
  of_io (write_text_utf8 (meta_path project) (to_string_pretty (json [($"title", JString title)]))).

(** The folder at [path], whose text is [text]. *)
Definition project_from_path (text : str) (path : apath) : P (option ProjectDir) :=
  let% is_dir := seen (fun fs => path_is_dir fs path) in
  if negb is_dir then pret None
  else
    match file_name_of path with
    | None => pret None
    | Some dir_name =>
      if starts_with $"." dir_name then pret None
      else
        let% title := read_title path dir_name in
        pret (Some (mkProjectDir text dir_name title))
    end.

Definition normalize_path_key (path : str) : str :=
  to_ascii_lowercase
    (trim_end_matches (N.eqb SLASH)
       (trim_start_matches_str $"//./" (trim_start_matches_str $"//?/" (replace_char BACKSLASH [SLASH] path)))).

Definition resolve_existing_dir (path : str) : P apath :=
  let% node := seen (fun fs => located fs path) in
  match node with
  | None => perr ($"path does not exist: " ++ path)
  | Some Directory => of_io (Files.query (fun fs => locate fs path))
  | Some _ => perr ($"path is not a directory: " ++ path)
  end.

Definition is_within_home (home candidate : apath) : bool :=
  let home_key := normalize_path_key (path_text home) in
  let candidate_key := normalize_path_key (path_text candidate) in
  (candidate_key =s home_key) || starts_with (home_key ++ [SLASH]) candidate_key.

Definition direct_child_project (home source : apath) : result apath str :=
  let home_key := normalize_path_key (path_text home) in
  let source_key := normalize_path_key (path_text source) in
  if source_key =s home_key
  then Err $"select a project folder inside the workspace, not the workspace root"
  else if negb (starts_with (home_key ++ [SLASH]) source_key)
  then Err ($"selected folder is not inside workspace home: " ++ path_text source)
  else
    let rel := drop (length home_key + 1) source_key in
    match List.filter (fun part => negb (is_empty part)) (split_on (N.eqb SLASH) rel) with
    | [] => Err $"select a project folder inside the workspace"
    | first :: rest =>
      if starts_with $"." first then Err $"hidden folders cannot be added as projects"
      else if negb (is_empty rest)
      then Err $"select a top-level project folder under the workspace home (not a nested path)"
      else
        match file_name_of source with
        | Some dir_name => if is_empty dir_name then Err $"invalid project folder name" else Ok (home ++ [dir_name])
        | None => Err $"invalid project folder name"
        end
    end.

(** The names [dir_name-2], [dir_name-3], ... in their order. *)
Fixpoint free_name (fs : FileSystem) (home : apath) (dir_name : str) (index count : nat) : option apath :=
  match count with
  | 0 => None
  | S count =>
    let candidate := home ++ [dir_name ++ DASH :: show_nat index] in
    if path_exists fs candidate then free_name fs home dir_name (S index) count else Some candidate
  end.
Definition MAX_NAMES : nat := N.to_nat 9998.
Definition unique_destination (fs : FileSystem) (home : apath) (dir_name : str) : apath :=
  let base := home ++ [dir_name] in
  if path_exists fs base
  then or_else (free_name fs home dir_name 2 MAX_NAMES) (home ++ [dir_name ++ DASH :: show_N millis])
  else base.

(** [fs::copy] of a regular file. *)
Definition copy_file (source target : apath) : IO unit :=
  io_bind (Files.query (fun fs =>
    let? r := resolve_path fs source in
    match node_at fs r with
    | Some (File c) => Ok c
    | Some Directory => Err IsADirectory
    | _ => Err NotFound
    end)) (fun content =>
  io_bind (file_create target) (fun r w =>
    match fault (w_ops w) with
    | Some partial => (Err Files.Refused, set_fs (<[r := File partial]> (w_fs w)) (tick w))
    | None => (Ok tt, set_fs (<[r := File content]> (w_fs w)) (tick w))
    end)).

(** The recursion ends with the tree that it reads; [fuel] bounds its depth, and [None] says
    that it was not enough. *)
Fixpoint copy_dir_recursive (fuel : nat) (src dst : apath) (w : World) : option (result unit str) * World :=
  match fuel with
  | 0 => (None, w)
  | S fuel =>
    match of_io (create_dir_all dst) w with
    | (Err e, w) => (Some (Err e), w)
    | (Ok _, w) =>
      match of_io (read_dir src) w with
      | (Err e, w) => (Some (Err e), w)
      | (Ok entries, w) =>
        (fix each (entries : list (str * Node)) (w : World) : option (result unit str) * World :=
           match entries with
           | [] => (Some (Ok tt), w)
           | (name, node) :: rest =>
             match node with
             | Directory =>
               match copy_dir_recursive fuel (src ++ [name]) (dst ++ [name]) w with
               | (Some (Ok _), w) => each rest w
               | stopped => stopped
               end
             | File _ =>
               match of_io (copy_file (src ++ [name]) (dst ++ [name])) w with
               | (Ok _, w) => each rest w
               | (Err e, w) => (Some (Err e), w)
               end
             | _ => each rest w
             end
           end) entries w
      end
    end
  end.

Definition rename_project (params : RenameProjectParams) : P ProjectDir :=
  let path_raw := trim (rp_project_path params) in
  let title := trim (rp_title params) in
  if is_empty path_raw then perr $"project path is required"
  else if is_empty title then perr $"project title is required"
  else
    let% path := resolve_existing_dir path_raw in
    let% _ := write_title path title in
    let% project := project_from_path (path_text path) path in
    match project with
    | Some project => pret project
    | None => perr $"failed to load renamed project"
    end.

Fixpoint projects_of (home : str) (dir : apath) (entries : list (str * Node)) : P (list ProjectDir) :=
  match entries with
  | [] => pret []
  | (name, _) :: rest =>
    let% project := project_from_path (join_text home name) (dir ++ [name]) in
    let% projects := projects_of home dir rest in
    pret (match project with Some p => p :: projects | None => projects end)
  end.
Definition title_le (a b : ProjectDir) : bool :=
  negb (str_ltb (to_lowercase (pd_title b)) (to_lowercase (pd_title a))).

Definition list_projects (workspace_home : str) : P (list ProjectDir) :=
  let home := trim workspace_home in
  if is_empty home then pret []
  else
    let% dir := seen (fun fs => match located fs home with
                                | Some Directory => locate fs home
                                | _ => Err NotFound
                                end) in
    match dir with
    | Err _ => perr ($"workspace home is not a directory: " ++ home)
    | Ok dir =>
      let% entries := of_io (read_dir dir) in
      let% projects := projects_of home dir entries in
      pret (order_by title_le projects)
    end.

Definition create_project (params : CreateProjectParams) : P ProjectDir :=
  let home := trim (cp_workspace_home params) in
  let name := trim (cp_project_name params) in
  if is_empty home then perr $"workspace home is required"
  else if is_empty name then perr $"project name is required"
  else
    let% dir := seen (fun fs => match located fs home with
                                | Some Directory => locate fs home
                                | _ => Err NotFound
                                end) in
    match dir with
    | Err _ => perr ($"workspace home is not a directory: " ++ home)
    | Ok dir =>
      match project_dir_slug name with
      | Err e => perr e
      | Ok dir_name =>
        let path := dir ++ [dir_name] in
        let% exists_ := seen (fun fs => path_exists fs path) in
        if exists_ then perr ($"project directory already exists: " ++ join_text home dir_name)
        else
          let% _ := of_io (create_dir_all path) in
          let% _ := write_title path name in
          pret (mkProjectDir (join_text home dir_name) dir_name name)
      end
    end.

Definition import_project (fuel : nat) (params : ImportProjectParams) (w : World)
    : option (result ImportProjectResult str) * World :=
  let home_raw := trim (ip_workspace_home params) in
  let source_raw := trim (ip_source_path params) in
  let stop e w := (Some (Err e), w) in
  if is_empty home_raw then stop $"workspace home is required" w
  else if is_empty source_raw then stop $"source path is required" w
  else
    match (let% home := resolve_existing_dir home_raw in
           let% source := resolve_existing_dir source_raw in
           pret (home, source)) w with
    | (Err e, w) => stop e w
    | (Ok (home, source), w) =>
      if is_within_home home source then
        match direct_child_project home source with
        | Err e => stop e w
        | Ok project_path =>
          match project_from_path (path_text project_path) project_path w with
          | (Ok (Some project), w) => (Some (Ok (mkImported project true false)), w)
          | (Ok None, w) => stop $"selected folder cannot be used as a project" w
          | (Err e, w) => stop e w
          end
        end
      else
        match file_name_of source with
        | None => stop $"invalid source folder name" w
        | Some original_name =>
          if is_empty original_name then stop $"invalid source folder name" w
          else if starts_with $"." original_name
          then stop $"hidden folders cannot be imported as projects" w
          else
            let dest := unique_destination (w_fs w) home original_name in
            match copy_dir_recursive fuel source dest w with
            | (None, w) => (None, w)
            | (Some (Err e), w) => stop e w
            | (Some (Ok _), w) =>
              let w := if path_exists (w_fs w) (meta_path dest) then w
                       else snd (write_title dest original_name w) in
              match project_from_path (path_text dest) dest w with
              | (Ok (Some project), w) => (Some (Ok (mkImported project false true)), w)
              | (Ok None, w) => stop $"failed to register copied project" w
              | (Err e, w) => stop e w
              end
            end
        end
    end.
End Projects.

(** ** Copying a folder *)

Section Copies.
Context `{Disk} {Text_ : IoText}.

Definition not_link (fs : FileSystem) (p : apath) : Prop := forall t, fs !! p <> Some (Symlink t).

(** A step that only adds to what is at and below [dst], and adds no link. *)
Record adds (dst : apath) (fs fs' : FileSystem) : Prop := {
  ad_extends : extends fs fs';
  ad_outside p : ~ dst `prefix_of` p -> fs' !! p = fs !! p;
  ad_links p : not_link fs p -> not_link fs' p;
}.

Lemma adds_refl dst fs : adds dst fs fs.
Proof. split; [|done|done]. intros p x Hx. exists x. split; [done|apply same_node_refl]. Qed.

Lemma same_node_trans x y z : same_node x y -> same_node y z -> same_node x z.
Proof. by destruct x, y, z; cbn; intros; try congruence. Qed.

Lemma tree_adds_trans dst fs1 fs2 fs3 : adds dst fs1 fs2 -> adds dst fs2 fs3 -> adds dst fs1 fs3.
Proof.
  intros [E1 O1 L1] [E2 O2 L2]. split.
  - intros p x Hx. destruct (E1 _ _ Hx) as (y & Hy & Sy). destruct (E2 _ _ Hy) as (z & Hz & Sz).
    exists z. split; [done|by eapply same_node_trans].
  - intros p Hp. by rewrite O2, O1.
  - auto.
Qed.

Lemma adds_below dst n fs fs' : adds (dst ++ [n]) fs fs' -> adds dst fs fs'.
Proof.
  intros [E O L]. split; [done| |done]. intros p Hp. apply O. intros Hn. apply Hp.
  etrans; [|exact Hn]. by apply prefix_app_r.
Qed.

Lemma adds_insert d n x fs :
  match fs !! (d ++ [n]) with Some y => same_node y x | None => True end -> (forall t, x <> Symlink t) ->
  adds (d ++ [n]) fs (<[d ++ [n] := x]> fs).
Proof.
  intros Hx Hl. split.
  - by apply extends_insert.
  - intros p Hp. apply lookup_insert_ne. intros <-. by apply Hp.
  - intros p Hp t. destruct (decide (p = d ++ [n])) as [->|Hne]; [rewrite lookup_insert_eq|rewrite lookup_insert_ne by done].
    + intros [= ->]. by apply (Hl t).
    + apply Hp.
Qed.

Lemma canonical_extends fs fs' p : extends fs fs' -> canonical fs p -> canonical fs' p.
Proof.
  intros He. induction 1 as [|p n x Hp IH Hd Hx Hs]; [constructor|].
  destruct (He (p ++ [n]) x) as (y & Hy & Sy); [by rewrite node_at_snoc|]. rewrite node_at_snoc in Hy.
  econstructor; [done|by eapply extends_directory|exact Hy|].
  intros t ->. destruct x; cbn in Sy; try done. by apply (Hs target).
Qed.

Lemma canonical_child fs d n :
  canonical fs d -> is_directory_at fs d = true -> fs !! (d ++ [n]) = Some Directory ->
  canonical fs (d ++ [n]) /\ is_directory_at fs (d ++ [n]) = true.
Proof.
  intros Hc Hd Hn. split; [by econstructor|]. unfold is_directory_at. by rewrite node_at_snoc, Hn.
Qed.

(** [create_dir_all] of a name in a real directory: it is there afterwards, or not made. *)
Lemma create_dir_all_at d n w :
  canonical (w_fs w) d -> is_directory_at (w_fs w) d = true -> not_link (w_fs w) (d ++ [n]) ->
  let (r, w') := create_dir_all (d ++ [n]) w in
  adds (d ++ [n]) (w_fs w) (w_fs w')
  /\ (r = Ok tt -> w_fs w' !! (d ++ [n]) = Some Directory
                   /\ (w_fs w !! (d ++ [n]) = None -> w_fs w' = <[d ++ [n] := Directory]> (w_fs w))).
Proof.
  intros Hc Hd Hl. pose proof (canonical_resolves _ _ Hc) as Hr.
  assert (path_is_dir (w_fs w) (d ++ [n]) = true -> w_fs w !! (d ++ [n]) = Some Directory) as Hdir.
  { unfold path_is_dir, stat. destruct (w_fs w !! (d ++ [n])) as [x|] eqn:En.
    - rewrite (resolve_plain _ _ _ d x) by (done || by rewrite ?node_at_snoc || (intros t ->; by apply (Hl t))).
      rewrite node_at_snoc, En. by destruct x.
    - rewrite resolve_snoc. apply resolve_walk in Hr as [l ->]. rewrite walk_cons, Hd, node_at_snoc, En. done. }
  unfold create_dir_all. destruct (length (d ++ [n])) as [|k] eqn:El; [by rewrite length_app, Nat.add_comm in El|].
  cbn [create_dir_all_loop]. unfold create_dir, change, attempt.
  assert (forall e, let (r, w') := if path_is_dir (w_fs (tick w)) (d ++ [n]) then (Ok tt : result unit IoError, tick w) else (Err e, tick w) in
    adds (d ++ [n]) (w_fs w) (w_fs w')
    /\ (r = Ok tt -> w_fs w' !! (d ++ [n]) = Some Directory
         /\ (w_fs w !! (d ++ [n]) = None -> w_fs w' = <[d ++ [n] := Directory]> (w_fs w)))) as Hback.
  { intros e. cbn [tick w_fs]. destruct (path_is_dir (w_fs w) (d ++ [n])); cbn; (split; [apply adds_refl|]); [|done].
    intros _. split; [by apply Hdir|]. intros Hn. by rewrite Hdir in Hn. }
  destruct (fault _); [apply Hback|]. unfold fs_mkdir.
  rewrite (proj2 (resolve_entry_snoc _ d n (d ++ [n]))) by eauto. cbn [rbind]. rewrite node_at_snoc.
  destruct (w_fs w !! (d ++ [n])) as [x|] eqn:En; [cbn; apply Hback|]. cbn. split.
  - apply adds_insert; [by rewrite En|done].
  - intros _. by rewrite lookup_insert_eq.
Qed.

Lemma copy_file_at src d n w :
  canonical (w_fs w) d -> is_directory_at (w_fs w) d = true -> not_link (w_fs w) (d ++ [n]) ->
  let (r, w') := copy_file src (d ++ [n]) w in
  adds (d ++ [n]) (w_fs w) (w_fs w')
  /\ (r = Ok tt -> forall c, canonical (w_fs w) src -> w_fs w !! src = Some (File c) ->
      w_fs w' = <[d ++ [n] := File c]> (w_fs w)).
Proof.
  intros Hc Hd Hl. pose proof (canonical_resolves _ _ Hc) as Hr.
  unfold copy_file, io_bind, Files.query, attempt. destruct (fault (w_ops w)); [split; [apply adds_refl|done]|].
  cbv beta. destruct (let? r := resolve_path (w_fs w) src in _) as [content|e] eqn:Er; cbn [rbind];
    [|split; [apply adds_refl|done]].
  pose proof (file_create_at d n d (set_fs (w_fs w) (tick w)) Hr Hl) as Hf.
  destruct (file_create _ _) as [[place|e] w1]; destruct Hf as [_ Hf]; cbn [set_fs tick w_fs] in Hf.
  2:{ rewrite Hf. split; [apply adds_refl|done]. }
  destruct Hf as (-> & Hw & He). cbn [set_fs tick w_fs] in *.
  assert (forall c, adds (d ++ [n]) (w_fs w) (<[d ++ [n] := File c]> (w_fs w))) as Ha.
  { intros c. split; [apply He| |].
    - intros p Hp. apply lookup_insert_ne. intros <-. by apply Hp.
    - intros p Hp t. destruct (decide (p = d ++ [n])) as [->|]; [by rewrite lookup_insert_eq|].
      rewrite lookup_insert_ne by done. apply Hp. }
  destruct (fault _) as [partial|]; cbn [w_fs set_fs tick]; rewrite Hw, insert_insert_eq; (split; [apply Ha|]); [done|].
  intros _ c Hsrc Hc'. rewrite (canonical_resolves _ _ Hsrc) in Er. cbn in Er.
  destruct src as [|a src]; [done|]. cbn [node_at] in Er. rewrite Hc' in Er. by injection Er as <-.
Qed.

(** The loop over the entries of a folder. *)
Fixpoint copy_entries (fuel : nat) (src dst : apath) (entries : list (str * Node)) (w : World)
    : option (result unit str) * World :=
  match entries with
  | [] => (Some (Ok tt), w)
  | (name, node) :: rest =>
    match node with
    | Directory =>
      match copy_dir_recursive fuel (src ++ [name]) (dst ++ [name]) w with
      | (Some (Ok _), w) => copy_entries fuel src dst rest w
      | stopped => stopped
      end
    | File _ =>
      match of_io (copy_file (src ++ [name]) (dst ++ [name])) w with
      | (Ok _, w) => copy_entries fuel src dst rest w
      | (Err e, w) => (Some (Err e), w)
      end
    | _ => copy_entries fuel src dst rest w
    end
  end.

Lemma copy_dir_step fuel src dst w :
  copy_dir_recursive (S fuel) src dst w =
  match of_io (create_dir_all dst) w with
  | (Err e, w) => (Some (Err e), w)
  | (Ok _, w) =>
    match of_io (read_dir src) w with
    | (Err e, w) => (Some (Err e), w)
    | (Ok entries, w) => copy_entries fuel src dst entries w
    end
  end.
Proof.
  cbn [copy_dir_recursive]. destruct (of_io (create_dir_all dst) w) as [[u|e] w1]; [|done].
  destruct (of_io (read_dir src) w1) as [[entries|e] w2]; [|done].
  revert w2. induction entries as [|[name node] rest IH]; intros w2; [done|]. cbn [copy_entries].
  destruct node; try apply IH.
  - destruct (of_io _ w2) as [[[]|e] w3]; [apply IH|done].
  - destruct (copy_dir_recursive _ _ _ w2) as [[[[]|e]|] w3]; [apply IH|done|done].
Qed.

Lemma read_dir_keeps p w : w_fs (snd (of_io (read_dir p) w)) = w_fs w.
Proof.
  unfold of_io, read_dir, Files.query, attempt. destruct (fault _); [done|].
  destruct (let? r := resolve_path (w_fs w) p in _); done.
Qed.

Lemma read_dir_ok p w entries w' :
  canonical (w_fs w) p -> of_io (read_dir p) w = (Ok entries, w') ->
  entries = dir_order (entries_of (w_fs w) p) /\ w_fs w' = w_fs w.
Proof.
  intros Hc. unfold of_io, read_dir, Files.query, attempt. destruct (fault _); [done|].
  rewrite (canonical_resolves _ _ Hc). cbn [rbind].
  destruct (node_at (w_fs w) p) as [[]|]; try done. cbn. by intros [= <- <-].
Qed.

Definition no_links (dst : apath) (fs : FileSystem) : Prop := forall p, dst `prefix_of` p -> not_link fs p.

Lemma no_links_below dst n fs : no_links dst fs -> no_links (dst ++ [n]) fs.
Proof. intros Hl p Hp. apply Hl. etrans; [|exact Hp]. by apply prefix_app_r. Qed.
Lemma no_links_adds dst dst' fs fs' : adds dst' fs fs' -> no_links dst fs -> no_links dst fs'.
Proof. intros A Hl p Hp. by apply (ad_links _ _ _ A), Hl. Qed.

(** A real directory, in which copies are put. *)
Record home_for (d : apath) (fs : FileSystem) : Prop := {
  hf_canonical : canonical fs d;
  hf_directory : is_directory_at fs d = true;
}.
Lemma home_adds d dst fs fs' : adds dst fs fs' -> home_for d fs -> home_for d fs'.
Proof.
  intros A [Hc Hd]. split; [eapply canonical_extends; [apply A|done]|eapply extends_directory; [apply A|done]].
Qed.
Lemma home_child d n fs : home_for d fs -> fs !! (d ++ [n]) = Some Directory -> home_for (d ++ [n]) fs.
Proof. intros [Hc Hd] Hn. destruct (canonical_child _ _ _ Hc Hd Hn). by split. Qed.

(** A copy adds nothing outside its destination, and no links, whatever is refused. *)
Definition adds_only (fuel : nat) : Prop := forall src d n w,
  home_for d (w_fs w) -> no_links (d ++ [n]) (w_fs w) ->
  adds (d ++ [n]) (w_fs w) (w_fs (snd (copy_dir_recursive fuel src (d ++ [n]) w))).

Lemma entries_adds fuel src dst rest w :
  adds_only fuel -> home_for dst (w_fs w) -> no_links dst (w_fs w) ->
  adds dst (w_fs w) (w_fs (snd (copy_entries fuel src dst rest w))).
Proof.
  intros IH. revert w. induction rest as [|[name node] rest IHe]; intros w Hh Hl; [apply adds_refl|].
  cbn [copy_entries].
  assert (forall w2, adds (dst ++ [name]) (w_fs w) (w_fs w2) ->
    adds dst (w_fs w) (w_fs (snd (copy_entries fuel src dst rest w2)))) as Hnext.
  { intros w2 A. eapply tree_adds_trans; [by eapply adds_below|].
    apply IHe; [by eapply home_adds|eapply no_links_adds; [|done]; by eapply adds_below]. }
  destruct node; try by apply IHe.
  - pose proof (copy_file_at (src ++ [name]) dst name w (hf_canonical _ _ Hh) (hf_directory _ _ Hh)
      (Hl _ (prefix_app_r _ _ _ (reflexivity _)))) as Hf.
    unfold of_io. destruct (copy_file _ _ w) as [[u|e] w2]; destruct Hf as [A _]; [by apply Hnext|].
    by eapply adds_below.
  - pose proof (IH (src ++ [name]) dst name w Hh (no_links_below _ _ _ Hl)) as A.
    destruct (copy_dir_recursive _ _ _ w) as [[[u|e]|] w2]; [by apply Hnext|by eapply adds_below..].
Qed.

Lemma copy_adds fuel : adds_only fuel.
Proof.
  induction fuel as [|fuel IH]; intros src d n w Hh Hl; [apply adds_refl|]. rewrite copy_dir_step.
  pose proof (create_dir_all_at d n w (hf_canonical _ _ Hh) (hf_directory _ _ Hh) (Hl _ (reflexivity _))) as H1.
  unfold of_io at 1.
  destruct (create_dir_all (d ++ [n]) w) as [[[]|e] w1]; destruct H1 as [A1 H1]; [|done].
  destruct (H1 eq_refl) as [Hn _]. pose proof (read_dir_keeps src w1) as Hk.
  destruct (of_io (read_dir src) w1) as [[entries|e] w2]; cbn [snd] in *; rewrite <- Hk in *; [|done].
  eapply tree_adds_trans; [exact A1|]. apply entries_adds; [done| |by eapply no_links_adds].
  exact (home_child _ _ _ (home_adds _ _ _ _ A1 Hh) Hn).
Qed.

(** *** What a copy contains *)

(** Directories and regular files are copied; links and other nodes are left out. *)
Definition image (x : option Node) : option Node :=
  match x with
  | Some Directory => Some Directory
  | Some (File c) => Some (File c)
  | _ => None
  end.

(** Below [src] every node lies in a directory. *)
Definition tree (src : apath) (fs : FileSystem) : Prop :=
  forall q m x, fs !! (src ++ q ++ [m]) = Some x -> is_directory_at fs (src ++ q) = true.
Definition fresh (dst : apath) (fs : FileSystem) : Prop := forall q, fs !! (dst ++ q) = None.
Definition apart (src dst : apath) : Prop := ~ src `prefix_of` dst /\ ~ dst `prefix_of` src.

Lemma apart_below src dst q : apart src dst -> ~ dst `prefix_of` src ++ q.
Proof.
  intros [H1 H2] H3. destruct (prefix_weak_total dst src (src ++ q) H3) as [?|?]; [by apply prefix_app_r|done..].
Qed.
Lemma apart_children src dst a b : apart src dst -> apart (src ++ [a]) (dst ++ [b]).
Proof.
  intros [H1 H2]. split; intros Hp.
  - destruct (prefix_weak_total src dst (dst ++ [b])) as [?|?]; [|by apply prefix_app_r|done..].
    etrans; [|exact Hp]. by apply prefix_app_r.
  - destruct (prefix_weak_total src dst (src ++ [a])) as [?|?]; [by apply prefix_app_r| |done..].
    etrans; [|exact Hp]. by apply prefix_app_r.
Qed.

Lemma tree_child src a fs : tree src fs -> tree (src ++ [a]) fs.
Proof. intros Ht q m x. rewrite <- !app_assoc. apply (Ht (a :: q)). Qed.

Lemma node_at_named fs p : p <> [] -> node_at fs p = fs !! p.
Proof. by destruct p. Qed.

(** Only a directory has something below it. *)
Lemma tree_leaf src name fs q :
  tree src fs -> q <> [] -> fs !! (src ++ [name]) <> Some Directory -> fs !! (src ++ name :: q) = None.
Proof.
  intros Ht Hq Hn. induction q as [|m q IH] using rev_ind; [done|]. clear Hq.
  destruct (fs !! (src ++ name :: q ++ [m])) as [x|] eqn:E; [|done]. exfalso.
  apply (Ht (name :: q)) in E. unfold is_directory_at in E. destruct q as [|a q].
  - rewrite node_at_snoc in E. by destruct (fs !! (src ++ [name])) as [[]|].
  - by rewrite node_at_named, IH in E by (done || by destruct src).
Qed.

Lemma adds_apart src dst fs fs' q : apart src dst -> adds dst fs fs' -> fs' !! (src ++ q) = fs !! (src ++ q).
Proof. intros Ha A. by apply (ad_outside _ _ _ A), apart_below. Qed.

Lemma tree_apart src dst fs fs' : apart src dst -> adds dst fs fs' -> tree src fs -> tree src fs'.
Proof.
  intros Ha A Ht q m x Hx. rewrite (adds_apart src dst fs) in Hx by done.
  eapply extends_directory; [apply A|]. by eapply Ht.
Qed.

Lemma adds_name dst a b fs fs' q :
  a <> b -> adds (dst ++ [a]) fs fs' -> fs' !! (dst ++ b :: q) = fs !! (dst ++ b :: q).
Proof.
  intros Hne A. apply (ad_outside _ _ _ A). intros [k Hk]. rewrite <- app_assoc in Hk.
  apply app_inv_head in Hk. by injection Hk.
Qed.

(** What a successful copy of [src] to a fresh name of [d] leaves. *)
Definition copies_exactly (fuel : nat) : Prop := forall src d n w w',
  home_for d (w_fs w) -> fresh (d ++ [n]) (w_fs w) ->
  home_for src (w_fs w) -> tree src (w_fs w) -> apart src (d ++ [n]) ->
  copy_dir_recursive fuel src (d ++ [n]) w = (Some (Ok tt), w') ->
  forall q, w_fs w' !! ((d ++ [n]) ++ q) = image (node_at (w_fs w) (src ++ q)).

Lemma fresh_no_links dst fs : fresh dst fs -> no_links dst fs.
Proof. intros Hf p [q ->] t. by rewrite Hf. Qed.
Lemma no_links_of_none dst name fs : (forall q, fs !! (dst ++ name :: q) = None) -> no_links (dst ++ [name]) fs.
Proof. intros Hf. apply fresh_no_links. intros q. rewrite <- app_assoc. apply Hf. Qed.

Lemma entries_exact fuel src dst : copies_exactly fuel -> apart src dst -> forall rest w w',
  home_for dst (w_fs w) -> home_for src (w_fs w) -> tree src (w_fs w) -> NoDup rest.*1 ->
  (forall name node, (name, node) ∈ rest ->
     w_fs w !! (src ++ [name]) = Some node /\ forall q, w_fs w !! (dst ++ name :: q) = None) ->
  copy_entries fuel src dst rest w = (Some (Ok tt), w') ->
  forall name q, w_fs w' !! (dst ++ name :: q)
    = if decide (name ∈ rest.*1) then image (w_fs w !! (src ++ name :: q)) else w_fs w !! (dst ++ name :: q).
Proof.
  intros HF Ha rest. induction rest as [|[a node] rest IH]; intros w w' Hd Hs Ht Hnd Hr.
  { cbn [copy_entries]. intros [= <-] name q. by rewrite decide_False by apply not_elem_of_nil. }
  cbn [fmap list_fmap fst] in *. apply NoDup_cons in Hnd as [Hna Hnd].
  destruct (Hr a node (list_elem_of_here _ _)) as [Hnode Hfree]. cbn [copy_entries].
  (* the rest, after a step for [a] that leaves the image of its entry *)
  assert (forall w2, adds (dst ++ [a]) (w_fs w) (w_fs w2) ->
    (forall q, w_fs w2 !! (dst ++ a :: q) = image (w_fs w !! (src ++ a :: q))) ->
    copy_entries fuel src dst rest w2 = (Some (Ok tt), w') ->
    forall name q, w_fs w' !! (dst ++ name :: q)
      = if decide (name ∈ a :: rest.*1) then image (w_fs w !! (src ++ name :: q))
        else w_fs w !! (dst ++ name :: q)) as Hstep.
  { intros w2 A Hdone Hrest name q. pose proof (adds_below _ _ _ _ A) as A'.
    rewrite (IH w2 w') by (first
      [ by eapply home_adds | done | by eapply tree_apart
      | intros b nb Hb; destruct (Hr b nb (list_elem_of_further _ _ _ Hb)) as [E1 E2];
        rewrite (adds_apart src dst (w_fs w)) by done; split; [done|]; intros q';
        rewrite (adds_name dst a b (w_fs w)) by
          (done || (intros ->; apply Hna; by apply (list_elem_of_fmap_2 fst _ (b, nb)))); apply E2 ]).
    destruct (decide (name = a)) as [->|Hne].
    - rewrite decide_False by done. rewrite decide_True by left. apply Hdone.
    - rewrite (adds_apart src dst (w_fs w)) by done. rewrite (adds_name dst a name (w_fs w)) by done.
      destruct (decide (name ∈ rest.*1)) as [Hin|Hin].
      + by rewrite decide_True by (by right).
      + rewrite decide_False; [done|]. intros [->|?]%elem_of_cons; done. }
  destruct node as [c| |target|].
  - pose proof (copy_file_at (src ++ [a]) dst a w (hf_canonical _ _ Hd) (hf_directory _ _ Hd)
      (no_links_of_none _ _ _ Hfree _ (reflexivity _))) as Hf.
    unfold of_io. destruct (copy_file _ _ w) as [[[]|e] w2]; [|done]. destruct Hf as [A Hf].
    apply Hstep; [done|]. intros q. rewrite (Hf eq_refl c).
    + destruct q as [|m q]; [by rewrite lookup_insert_eq, Hnode|].
      rewrite lookup_insert_ne by (intros E%app_inv_head; by injection E).
      rewrite Hfree. by rewrite (tree_leaf src a) by (done || by rewrite Hnode).
    + econstructor; [apply Hs|apply Hs|exact Hnode|done].
    + exact Hnode.
  - pose proof (copy_adds fuel (src ++ [a]) dst a w Hd (no_links_of_none _ _ _ Hfree)) as A.
    destruct (copy_dir_recursive _ _ _ w) as [[[[]|e]|] w2] eqn:Ec; [|done..]. cbn [snd] in A.
    apply Hstep; [done|]. intros q.
    pose proof (HF (src ++ [a]) dst a w w2 Hd) as He. specialize (He ltac:(intros q'; rewrite <- app_assoc; apply Hfree)).
    specialize (He (home_child _ _ _ Hs Hnode) (tree_child _ _ _ Ht) (apart_children _ _ _ _ Ha) Ec q).
    rewrite <- !app_assoc in He. cbn [app] in He. rewrite He. by rewrite node_at_named by (by destruct src).
  - intros Hrest. refine (Hstep w (adds_refl _ _) _ Hrest). intros q. rewrite Hfree.
    destruct q as [|m q]; [by rewrite Hnode|]. by rewrite (tree_leaf src a) by (done || by rewrite Hnode).
  - intros Hrest. refine (Hstep w (adds_refl _ _) _ Hrest). intros q. rewrite Hfree.
    destruct q as [|m q]; [by rewrite Hnode|]. by rewrite (tree_leaf src a) by (done || by rewrite Hnode).
Qed.

(** *** The end of a copy *)

(** The recursion ends, and without a refusal of the system it succeeds. *)
Definition ended (r : option (result unit str)) : Prop :=
  r <> None /\ ((forall k, fault k = None) -> r = Some (Ok tt)).
Lemma ended_ok : ended (Some (Ok tt)).
Proof. by split. Qed.
Lemma ended_err e : ~ (forall k, fault k = None) -> ended (Some (Err e)).
Proof. by split. Qed.

Lemma create_dir_all_new d n w e w' :
  canonical (w_fs w) d -> is_directory_at (w_fs w) d = true -> w_fs w !! (d ++ [n]) = None ->
  create_dir_all (d ++ [n]) w = (Err e, w') -> ~ (forall k, fault k = None).
Proof.
  intros Hc%canonical_resolves Hd Hn He Hq. revert He. unfold create_dir_all.
  destruct (length (d ++ [n])) as [|k] eqn:El; [by rewrite length_app, Nat.add_comm in El|].
  cbn [create_dir_all_loop]. unfold create_dir, change, attempt. rewrite Hq. unfold fs_mkdir.
  rewrite (proj2 (resolve_entry_snoc _ d n (d ++ [n]))) by eauto. cbn [rbind]. by rewrite node_at_snoc, Hn.
Qed.

Lemma copy_file_new src d n c w e w' :
  canonical (w_fs w) d -> is_directory_at (w_fs w) d = true -> w_fs w !! (d ++ [n]) = None ->
  canonical (w_fs w) src -> node_at (w_fs w) src = Some (File c) ->
  copy_file src (d ++ [n]) w = (Err e, w') -> ~ (forall k, fault k = None).
Proof.
  intros Hc%canonical_resolves Hd Hn Hs%canonical_resolves Hf He Hq. revert He.
  unfold copy_file, io_bind, Files.query, file_create, attempt. rewrite !Hq, Hs. cbn [rbind]. rewrite Hf.
  cbn [rbind set_fs tick w_fs w_ops]. unfold fs_create.
  rewrite (resolve_create_new _ d n d) by done. cbn [rbind]. rewrite node_at_snoc, Hn. cbn. by rewrite !Hq.
Qed.

Lemma read_dir_real p w e w' :
  home_for p (w_fs w) -> of_io (read_dir p) w = (Err e, w') -> ~ (forall k, fault k = None).
Proof.
  intros [Hc%canonical_resolves Hd] He Hq. revert He. unfold of_io, read_dir, Files.query, attempt.
  rewrite Hq, Hc. cbn [rbind]. unfold is_directory_at in Hd. by destruct (node_at (w_fs w) p) as [[]|].
Qed.

(** No path below [src] is as long as [fuel]. *)
Definition shallow (fuel : nat) (src : apath) (fs : FileSystem) : Prop :=
  0 < fuel /\ forall q x, fs !! (src ++ q) = Some x -> length q < fuel.
Lemma shallow_child fuel src a fs :
  shallow (S fuel) src fs -> fs !! (src ++ [a]) <> None -> shallow fuel (src ++ [a]) fs.
Proof.
  intros [_ Hs] Ha. split.
  - destruct (fs !! (src ++ [a])) as [x|] eqn:E; [|done]. apply Hs in E. cbn in E. lia.
  - intros q x. rewrite <- app_assoc. intros Hx%Hs. cbn in Hx. lia.
Qed.
Lemma shallow_apart fuel src dst fs fs' : apart src dst -> adds dst fs fs' -> shallow fuel src fs -> shallow fuel src fs'.
Proof. intros Ha A [H0 Hs]. split; [done|]. intros q x. rewrite (adds_apart src dst fs) by done. apply Hs. Qed.

Definition copies_end (fuel : nat) : Prop := forall src d n w,
  home_for d (w_fs w) -> fresh (d ++ [n]) (w_fs w) -> home_for src (w_fs w) -> apart src (d ++ [n]) ->
  shallow fuel src (w_fs w) -> ended (fst (copy_dir_recursive fuel src (d ++ [n]) w)).

Lemma entries_end fuel src dst : copies_end fuel -> apart src dst -> forall rest w,
  home_for dst (w_fs w) -> home_for src (w_fs w) -> shallow (S fuel) src (w_fs w) -> NoDup rest.*1 ->
  (forall name node, (name, node) ∈ rest ->
     w_fs w !! (src ++ [name]) = Some node /\ forall q, w_fs w !! (dst ++ name :: q) = None) ->
  ended (fst (copy_entries fuel src dst rest w)).
Proof.
  intros HF Ha rest. induction rest as [|[a node] rest IH]; intros w Hd Hs Hsh Hnd Hr; [apply ended_ok|].
  cbn [fmap list_fmap fst] in *. apply NoDup_cons in Hnd as [Hna Hnd].
  destruct (Hr a node (list_elem_of_here _ _)) as [Hnode Hfree]. cbn [copy_entries].
  assert (forall w2, adds (dst ++ [a]) (w_fs w) (w_fs w2) -> ended (fst (copy_entries fuel src dst rest w2))) as Hnext.
  { intros w2 A. pose proof (adds_below _ _ _ _ A) as A'.
    apply IH; [by eapply home_adds..|by eapply shallow_apart|done|].
    intros b nb Hb. destruct (Hr b nb (list_elem_of_further _ _ _ Hb)) as [E1 E2].
    rewrite (adds_apart src dst (w_fs w)) by done. split; [done|]. intros q.
    rewrite (adds_name dst a b (w_fs w)); [apply E2| |done].
    intros ->. apply Hna. by apply (list_elem_of_fmap_2 fst _ (b, nb)). }
  pose proof (no_links_of_none _ _ _ Hfree) as Hl. pose proof (Hfree []) as Hnew.
  destruct node as [c| |target|]; try apply (Hnext w), adds_refl.
  - pose proof (copy_file_at (src ++ [a]) dst a w (hf_canonical _ _ Hd) (hf_directory _ _ Hd)
      (Hl _ (reflexivity _))) as Hf.
    unfold of_io. destruct (copy_file _ _ w) as [[[]|e] w2] eqn:E; destruct Hf as [A _]; [by apply Hnext|].
    eapply ended_err, copy_file_new; [apply Hd|apply Hd|exact Hnew| | |exact E].
    + econstructor; [apply Hs|apply Hs|exact Hnode|done].
    + by rewrite node_at_snoc.
  - pose proof (copy_adds fuel (src ++ [a]) dst a w Hd Hl) as A.
    destruct (HF (src ++ [a]) dst a w Hd) as [Hsome Hok];
      [intros q; rewrite <- app_assoc; apply Hfree|by apply home_child|by apply apart_children
      |apply shallow_child; [done|by rewrite Hnode]|].
    destruct (copy_dir_recursive _ _ _ w) as [[[[]|e]|] w2]; [by apply Hnext| |done].
    apply ended_err. by intros Hq%Hok.
Qed.

Context {Order : DiskOk}.

Lemma elem_of_dir_order fs p entry : entry ∈ dir_order (entries_of fs p) <-> entry ∈ entries_of fs p.
Proof. by rewrite (Order (entries_of fs p)). Qed.

Lemma copy_exact fuel : copies_exactly fuel.
Proof.
  induction fuel as [|fuel IH]; intros src d n w w' Hd Hf Hs Ht Ha; [done|]. rewrite copy_dir_step.
  pose proof (create_dir_all_at d n w (hf_canonical _ _ Hd) (hf_directory _ _ Hd)
    (fresh_no_links _ _ Hf _ (reflexivity _))) as H1.
  unfold of_io at 1. destruct (create_dir_all (d ++ [n]) w) as [[[]|e] w1]; [|done].
  destruct H1 as [A H1]. destruct (H1 eq_refl) as [Hn Hw1].
  assert (w_fs w !! (d ++ [n]) = None) as Hnone by (by rewrite <- (Hf []), app_nil_r).
  specialize (Hw1 Hnone).
  pose proof (home_child _ _ _ (home_adds _ _ _ _ A Hd) Hn) as Hdst. pose proof (home_adds _ _ _ _ A Hs) as Hs1.
  pose proof (tree_apart _ _ _ _ Ha A Ht) as Ht1.
  destruct (of_io (read_dir src) w1) as [[entries|e] w2] eqn:Er; [|done].
  apply read_dir_ok in Er as [-> Hk]; [|apply Hs1]. rewrite <- Hk in *. intros Hc q.
  assert (NoDup (dir_order (entries_of (w_fs w2) src)).*1) as Hnd.
  { rewrite (Order (entries_of (w_fs w2) src)). apply entries_NoDup. }
  assert (forall name q, w_fs w2 !! ((d ++ [n]) ++ name :: q) = None) as Hfree.
  { intros name q'. rewrite Hw1, lookup_insert_ne by (intros E; by apply app_nil in E as [_ ?] || discriminate_list).
    apply (Hf (name :: q')). }
  destruct q as [|name q].
  - rewrite !app_nil_r. destruct Hs as [_ Hsd]. unfold is_directory_at in Hsd.
    destruct (node_at (w_fs w) src) as [[]|]; try done. cbn.
    pose proof (entries_adds fuel src (d ++ [n]) (dir_order (entries_of (w_fs w2) src)) w2 (copy_adds fuel) Hdst
      (no_links_adds _ _ _ _ A (fresh_no_links _ _ Hf))) as Ae.
    rewrite Hc in Ae. cbn [snd] in Ae. destruct (ad_extends _ _ _ Ae (d ++ [n]) Directory) as (y & Hy & Sy); [by rewrite node_at_snoc|].
    rewrite node_at_snoc in Hy. rewrite Hy. by destruct y.
  - rewrite (entries_exact fuel src (d ++ [n]) IH Ha _ w2 w' Hdst Hs1 Ht1 Hnd) by
      (done || (intros a node Hin; split; [by apply elem_of_entries, elem_of_dir_order|apply Hfree])).
    rewrite node_at_named by (by destruct src). rewrite (adds_apart src (d ++ [n]) (w_fs w)) by done.
    destruct (decide (name ∈ _)) as [Hin|Hin]; [done|]. rewrite Hfree.
    assert (w_fs w !! (src ++ [name]) = None) as Hno.
    { destruct (w_fs w !! (src ++ [name])) as [x|] eqn:E; [|done]. exfalso. apply Hin.
      apply (list_elem_of_fmap_2 fst _ (name, x)), elem_of_dir_order, elem_of_entries.
      by rewrite (adds_apart src (d ++ [n]) (w_fs w)). }
    destruct q as [|m q]; [by rewrite Hno|]. by rewrite (tree_leaf src name) by (done || by rewrite Hno).
Qed.

Lemma copy_ends fuel : copies_end fuel.
Proof.
  induction fuel as [|fuel IH]; intros src d n w Hd Hf Hs Ha Hsh; [by destruct Hsh as [?%Nat.lt_irrefl _]|].
  rewrite copy_dir_step. pose proof (Hf []) as Hnone. rewrite app_nil_r in Hnone.
  pose proof (create_dir_all_at d n w (hf_canonical _ _ Hd) (hf_directory _ _ Hd)
    (fresh_no_links _ _ Hf _ (reflexivity _))) as H1.
  unfold of_io at 1. destruct (create_dir_all (d ++ [n]) w) as [[[]|e] w1] eqn:Em.
  2:{ eapply ended_err, create_dir_all_new; [apply Hd|apply Hd|done|exact Em]. }
  destruct H1 as [A H1]. destruct (H1 eq_refl) as [Hn Hw1]. specialize (Hw1 Hnone).
  pose proof (home_child _ _ _ (home_adds _ _ _ _ A Hd) Hn) as Hdst. pose proof (home_adds _ _ _ _ A Hs) as Hs1.
  pose proof (shallow_apart _ _ _ _ _ Ha A Hsh) as Hsh1.
  destruct (of_io (read_dir src) w1) as [[entries|e] w2] eqn:Er.
  2:{ eapply ended_err, read_dir_real; [exact Hs1|exact Er]. }
  apply read_dir_ok in Er as [-> Hk]; [|apply Hs1]. rewrite <- Hk in *.
  apply entries_end; [done..| |].
  - rewrite (Order (entries_of (w_fs w2) src)). apply entries_NoDup.
  - intros a node Hin. split; [by apply elem_of_entries, elem_of_dir_order|]. intros q.
    rewrite Hw1, lookup_insert_ne by (intros E; by apply app_nil in E as [_ ?] || discriminate_list).
    apply (Hf (a :: q)).
Qed.

(** *** A folder that holds the destination *)

Lemma home_prefix fs p q : home_for p fs -> q `prefix_of` p -> home_for q fs.
Proof.
  intros Hp [k ->]. revert Hp. induction k as [|m k IH] using rev_ind; [by rewrite app_nil_r|].
  rewrite app_assoc. intros [Hc Hd]. apply IH. inversion Hc as [E|p' n' x Hc' Hd' Hx Hs E].
  - symmetry in E. by apply app_nil in E as [_ ?].
  - apply app_inj_tail in E as [-> ->]. by split.
Qed.

Lemma entries_reach fuel src dst m rest w :
  home_for dst (w_fs w) -> no_links dst (w_fs w) -> (m, Directory) ∈ rest ->
  fst (copy_entries fuel src dst rest w) = Some (Ok tt) ->
  exists w1, adds dst (w_fs w) (w_fs w1)
    /\ fst (copy_dir_recursive fuel (src ++ [m]) (dst ++ [m]) w1) = Some (Ok tt).
Proof.
  revert w. induction rest as [|[name node] rest IH]; intros w Hh Hl Hin; [by apply not_elem_of_nil in Hin|].
  cbn [copy_entries]. apply elem_of_cons in Hin as [[= <- <-]|Hin].
  - intros He. exists w. split; [apply adds_refl|].
    by destruct (copy_dir_recursive _ _ _ w) as [[[[]|e]|] w2].
  - assert (forall w2, adds (dst ++ [name]) (w_fs w) (w_fs w2) ->
      fst (copy_entries fuel src dst rest w2) = Some (Ok tt) ->
      exists w1, adds dst (w_fs w) (w_fs w1)
        /\ fst (copy_dir_recursive fuel (src ++ [m]) (dst ++ [m]) w1) = Some (Ok tt)) as Hnext.
    { intros w2 A He. apply adds_below in A. destruct (IH w2) as (w1 & A1 & H1);
        [by eapply home_adds|by eapply no_links_adds|done|done|].
      exists w1. split; [by eapply tree_adds_trans|done]. }
    destruct node; try by apply IH.
    + pose proof (copy_file_at (src ++ [name]) dst name w (hf_canonical _ _ Hh) (hf_directory _ _ Hh)
        (Hl _ (prefix_app_r _ _ _ (reflexivity _)))) as Hf.
      unfold of_io. destruct (copy_file _ _ w) as [[u|e] w2]; destruct Hf as [A _]; [by apply Hnext|done].
    + pose proof (copy_adds fuel (src ++ [name]) dst name w Hh (no_links_below _ _ _ Hl)) as A.
      destruct (copy_dir_recursive _ _ _ w) as [[[[]|e]|] w2]; [by apply Hnext|done..].
Qed.

Lemma copy_into_itself fuel : forall src d n m rest w,
  home_for d (w_fs w) -> no_links (d ++ [n]) (w_fs w) -> d ++ [n] = src ++ m :: rest ->
  fst (copy_dir_recursive fuel src (d ++ [n]) w) <> Some (Ok tt).
Proof.
  induction fuel as [|fuel IH]; intros src d n m rest w Hh Hl E; [done|]. rewrite copy_dir_step.
  pose proof (create_dir_all_at d n w (hf_canonical _ _ Hh) (hf_directory _ _ Hh) (Hl _ (reflexivity _))) as H1.
  unfold of_io at 1. destruct (create_dir_all (d ++ [n]) w) as [[[]|e] w1]; [|done].
  destruct H1 as [A H1]. destruct (H1 eq_refl) as [Hn _].
  pose proof (home_child _ _ _ (home_adds _ _ _ _ A Hh) Hn) as Hdst. pose proof (no_links_adds _ _ _ _ A Hl) as Hl1.
  assert (home_for src (w_fs w1)) as Hs by (eapply home_prefix; [exact Hdst|rewrite E; by apply prefix_app_r]).
  assert (w_fs w1 !! (src ++ [m]) = Some Directory) as Hm.
  { assert (home_for (src ++ [m]) (w_fs w1)) as [_ Hd].
    { eapply home_prefix; [exact Hdst|]. exists rest. by rewrite E, <- app_assoc. }
    unfold is_directory_at in Hd. rewrite node_at_snoc in Hd. by destruct (w_fs w1 !! (src ++ [m])) as [[]|]. }
  destruct (of_io (read_dir src) w1) as [[entries|e] w2] eqn:Er; [|done].
  apply read_dir_ok in Er as [-> Hk]; [|apply Hs]. rewrite <- Hk in *. intros He.
  apply entries_reach with (m := m) in He; [|done|done|by apply elem_of_dir_order, elem_of_entries].
  destruct He as (w3 & A3 & He). revert He.
  assert (exists m' rest', rest ++ [m] = m' :: rest') as (m' & rest' & E').
  { destruct rest as [|m' rest]; [by exists m, []|by exists m', (rest ++ [m])]. }
  apply (IH _ _ _ m' rest'); [by eapply home_adds| |].
  - apply no_links_below. by eapply no_links_adds.
  - rewrite E, <- E', <- !app_assoc. done.
Qed.

(** *** Importing a folder *)

Context {Proc : Process}.

Lemma free_name_shape fs home dir_name index count p :
  free_name fs home dir_name index count = Some p -> exists n, p = home ++ [n].
Proof.
  revert index. induction count as [|count IH]; intros index; [done|]. cbn [free_name].
  destruct (path_exists _ _); [apply IH|]. intros [= <-]. eauto.
Qed.
Lemma unique_destination_name fs home dir_name : exists n, unique_destination fs home dir_name = home ++ [n].
Proof.
  unfold unique_destination. destruct (path_exists _ _); [|eauto].
  destruct (free_name fs home dir_name 2 MAX_NAMES) as [p|] eqn:E; cbn [or_else]; [|eauto].
  by eapply free_name_shape.
Qed.

Lemma nothing_below fs p : fs_wf fs -> p <> [] -> fs !! p = None -> fresh p fs.
Proof.
  intros Hwf Hp Hn q. induction q as [|m q IH] using rev_ind; [by rewrite app_nil_r|].
  destruct (fs !! (p ++ q ++ [m])) as [x|] eqn:E; [|done]. exfalso.
  rewrite app_assoc in E. apply Hwf in E. unfold is_directory_at in E.
  by rewrite node_at_named, IH in E by (by destruct p).
Qed.

Lemma home_exists fs p : home_for p fs -> p <> [] -> fs !! p = Some Directory.
Proof.
  intros [_ Hd] Hp. unfold is_directory_at in Hd. rewrite node_at_named in Hd by done.
  by destruct (fs !! p) as [[]|].
Qed.

(** The length of the longest path on the disk. *)
Definition height (fs : FileSystem) : nat := max_list ((length ∘ fst) <$> map_to_list fs).
Lemma height_shallow fuel src fs : height fs < fuel -> shallow fuel src fs.
Proof.
  intros Hh. split; [lia|]. intros q x Hx. eapply Nat.le_lt_trans; [|exact Hh]. transitivity (length (src ++ q)).
  - rewrite length_app. lia.
  - apply max_list_elem_of_le, (list_elem_of_fmap_2 (length ∘ fst) _ (src ++ q, x)). by apply elem_of_map_to_list.
Qed.

(** A name in the home that is not there, and a source that does not hold the home. *)
Lemma new_name_apart home source n fs :
  home_for home fs -> home_for source fs -> ~ source `prefix_of` home -> fs !! (home ++ [n]) = None ->
  apart source (home ++ [n]).
Proof.
  intros Hh Hs Hns Hn. assert (home ++ [n] <> []) as Hne by (by destruct home). split; intros Hp.
  - destruct Hp as [k Hk]. destruct k as [|x k _] using rev_ind.
    + rewrite app_nil_r in Hk. subst source. by rewrite (home_exists _ _ Hs Hne) in Hn.
    + rewrite app_assoc in Hk. apply app_inj_tail in Hk as [-> _]. apply Hns. by apply prefix_app_r.
  - by rewrite (home_exists _ _ (home_prefix _ _ _ Hs Hp) Hne) in Hn.
Qed.


Context {Parse : JsonParse} {Print : JsonPretty}.

Lemma resolve_existing_dir_ok path w p w' :
  resolve_existing_dir path w = (Ok p, w') ->
  locate (w_fs w) path = Ok p /\ home_for p (w_fs w) /\ w_fs w' = w_fs w.
Proof.
  unfold resolve_existing_dir, pbind, seen. destruct (located (w_fs w) path) as [[]|] eqn:El; try done.
  unfold of_io, Files.query, attempt. destruct (fault _); [done|].
  unfold located in El. destruct (locate (w_fs w) path) as [q|] eqn:Eq; [|done]. cbn. intros [= <- <-].
  split; [done|]. split; [|done]. split.
  - unfold locate in Eq. destruct (walk _ _ _ _ _) as [[r l]|] eqn:Ew; [|done]. injection Eq as <-.
    eapply walk_canonical; [constructor|exact Ew].
  - unfold is_directory_at. by rewrite El.
Qed.

(** A folder that holds the workspace home is copied into its own copy: the import does not
    succeed, however long it runs. *)
Theorem import_of_ancestor_fails fuel params w home source m rest r w' :
  locate (w_fs w) (trim (ip_workspace_home params)) = Ok home ->
  locate (w_fs w) (trim (ip_source_path params)) = Ok source ->
  home = source ++ m :: rest -> is_within_home home source = false ->
  (forall name, no_links (unique_destination (w_fs w) home name) (w_fs w)) ->
  import_project fuel params w = (Some r, w') -> exists e, r = Err e.
Proof.
  intros Hh Hs E Hw Hl. unfold import_project.
  destruct (is_empty (trim (ip_workspace_home params))); [naive_solver|].
  destruct (is_empty (trim (ip_source_path params))); [naive_solver|].
  unfold pbind. destruct (resolve_existing_dir _ w) as [[home'|e] w1] eqn:E1; [|naive_solver].
  apply resolve_existing_dir_ok in E1 as (L1 & H1 & F1). rewrite Hh in L1. injection L1 as <-.
  destruct (resolve_existing_dir _ w1) as [[source'|e] w2] eqn:E2; [|naive_solver].
  apply resolve_existing_dir_ok in E2 as (L2 & H2 & F2). rewrite F1, Hs in L2. injection L2 as <-.
  unfold pret. rewrite Hw. destruct (file_name_of source) as [name|]; [|naive_solver].
  destruct (is_empty name); [naive_solver|]. destruct (starts_with _ name); [naive_solver|].
  pose proof (Hl name) as Hln. rewrite F2, F1.
  destruct (unique_destination_name (w_fs w) home name) as [n En]. rewrite En in *.
  pose proof (copy_into_itself fuel source home n m (rest ++ [n]) w2) as Hc.
  destruct (copy_dir_recursive fuel source (home ++ [n]) w2) as [[[[]|e]|] w3]; [|naive_solver|done].
  exfalso. apply Hc; [by rewrite F2, F1|by rewrite F2, F1| |done]. by rewrite E, <- app_assoc.
Qed.
End Copies.

(** ** The name of a folder *)

(** The characters that [project_dir_slug] must not let through, and the separators. *)
Definition RESERVED : str := DQUOTE :: BACKSLASH :: $"./<>:|?*".
Definition name_char (c : char) : bool := negb (contains_char c RESERVED).

(** Pinyin is written in letters. *)
Class PinyinOk `{PinyinTable} :=
  pinyin_plain : forall c py, to_pinyin c = Some py -> Forall (fun x => name_char x = true) py.

Section SlugFacts.
Context `{PinyinTable}.

Lemma flush_all (P : str -> Prop) buf tokens : P buf -> Forall P tokens -> Forall P (flush buf tokens).
Proof. unfold flush. destruct (is_empty buf); [done|]. by constructor. Qed.

Lemma name_char_lower c : is_ascii_alphanumeric c = true -> name_char (lower_char c) = true.
Proof.
  unfold name_char, is_ascii_alphanumeric, is_ascii_alphabetic, is_ascii_upper, is_ascii_lower, is_ascii_digit,
    in_range, lower_char, is_ascii_upper, in_range, contains_char. intros Hc.
  apply negb_true_iff, existsb_false_elem. intros x Hx. apply N.eqb_neq. intros E.
  assert (x ∈ ([34; 92; 46; 47; 60; 62; 58; 124; 63; 42] : list N)%N) as Hin by exact Hx. clear Hx.
  rewrite !orb_true_iff, !andb_true_iff, !N.leb_le in Hc.
  destruct ((65 <=? c) && (c <=? 90))%N eqn:El;
    [rewrite andb_true_iff, !N.leb_le in El|rewrite andb_false_iff, !N.leb_gt in El];
    repeat (apply elem_of_cons in Hin as [->|Hin]; [lia|]); by apply not_elem_of_nil in Hin.
Qed.

Lemma slug_tokens_names `{!PinyinOk} buf s :
  Forall (fun c => name_char c = true) buf ->
  Forall (Forall (fun c => name_char c = true)) (slug_tokens buf s).
Proof.
  revert buf. induction s as [|c s IH]; intros buf Hb; cbn [slug_tokens]; [apply flush_all; [done|constructor]|].
  destruct (is_cjk c).
  - apply flush_all; [done|]. destruct (to_pinyin c) as [py|] eqn:E; [|by apply IH; constructor].
    constructor; [by eapply pinyin_plain|apply IH; constructor].
  - destruct (is_ascii_alphanumeric c) eqn:Ea.
    + apply IH, Forall_app. split; [done|]. constructor; [by apply name_char_lower|constructor].
    + apply flush_all; [done|]. apply IH. constructor.
Qed.

Lemma join_names l :
  Forall (Forall (fun c => name_char c = true)) l -> Forall (fun c => name_char c = true) (join $"-" l).
Proof.
  induction 1 as [|t l Ht Hl IH]; [constructor|]. cbn [join]. destruct l as [|u l]; [done|].
  apply Forall_app. split; [done|]. apply Forall_app. split; [|done]. by repeat constructor.
Qed.

Lemma name_char_not c x : name_char c = true -> x ∈ RESERVED -> c <> x.
Proof.
  unfold name_char. intros Hc Hx ->. apply negb_true_iff in Hc. by apply contains_char_not in Hc.
Qed.

Lemma name_is_component s : s <> [] -> Forall (fun c => name_char c = true) s -> components s = [Normal s].
Proof.
  intros Hne Hs.
  assert (Forall (fun c => (SLASH =? c)%N = false) s) as Hsl.
  { eapply Forall_impl; [exact Hs|]. intros c Hc. apply N.eqb_neq. intros <-.
    by apply (name_char_not _ SLASH Hc); [do 3 right; left|]. }
  assert (forall c r, s = c :: r -> c <> 46%N /\ c <> SLASH) as Hhd.
  { intros c r ->. apply Forall_cons in Hs as [Hc _]. split; apply name_char_not; try done; [do 2 right; left|do 3 right; left]. }
  unfold components. rewrite split_on_none by done.
  destruct s as [|c s]; [done|]. destruct (Hhd c s eq_refl) as [Hdot Hslash].
  assert (starts_with $"/" (c :: s) = false) as ->.
  { destruct (starts_with _ _) eqn:E; [|done]. apply starts_with_true in E as [r [= -> _]]. done. }
  cbn [hd]. assert ((c :: s =s $".") = false) as E1 by (apply str_eqb_false; intros [= -> _]; done).
  rewrite E1. cbn [app omap list_omap]. unfold component_of. rewrite E1. cbn [is_empty orb].
  assert ((c :: s =s $"..") = false) as -> by (apply str_eqb_false; intros [= -> _]; done). done.
Qed.

Definition gives_name (c : char) : bool :=
  if is_cjk c then match to_pinyin c with Some (_ :: _) => true | _ => false end
  else is_ascii_alphanumeric c.

Lemma slug_tokens_blank buf s :
  Forall (fun t => t = []) (slug_tokens buf s) -> buf = [] /\ Forall (fun c => gives_name c = false) s.
Proof.
  assert (forall buf tokens, Forall (fun t : str => t = []) (flush buf tokens) ->
    buf = [] /\ Forall (fun t => t = []) tokens) as Hflush.
  { intros b tokens. unfold flush. destruct b; [done|]. by intros [? _]%Forall_cons. }
  revert buf. induction s as [|c s IH]; intros buf; cbn [slug_tokens].
  - intros [-> _]%Hflush. by split.
  - unfold gives_name. destruct (is_cjk c) eqn:Ec.
    + intros [-> Ht]%Hflush. split; [done|]. destruct (to_pinyin c) as [py|] eqn:Ep.
      * apply Forall_cons in Ht as [-> Ht]. apply IH in Ht as [_ Ht]. constructor; [by rewrite Ec, Ep|done].
      * apply IH in Ht as [_ Ht]. constructor; [by rewrite Ec, Ep|done].
    + destruct (is_ascii_alphanumeric c) eqn:Ea.
      * intros [Hb _]%IH. by destruct buf.
      * intros [-> Ht]%Hflush. split; [done|]. apply IH in Ht as [_ Ht]. constructor; [by rewrite Ec|done].
Qed.

(** the folder of a new project is one visible name below the workspace home, without a
    separator, a dot or a reserved character; there is one for every display name that has
    an ASCII letter or digit or a character with pinyin, and for no other. *)
Theorem slug_names_a_folder `{!PinyinOk} display_name :
  match project_dir_slug display_name with
  | Ok slug => components slug = [Normal slug] /\ starts_with $"." slug = false
               /\ Forall (fun c => name_char c = true) slug
  | Err _ => Forall (fun c => gives_name c = false) (trim display_name)
  end.
Proof.
  unfold project_dir_slug. destruct (is_empty (trim display_name)) eqn:Et.
  { destruct (trim display_name); [constructor|done]. }
  assert (forall l : list str, List.filter (fun t => negb (is_empty t)) l = [] -> Forall (fun t => t = []) l) as Hblank.
  { intros l. induction l as [|[|c t] l IHl]; [constructor|intros H'; constructor; [done|by apply IHl]|done]. }
  specialize (Hblank (slug_tokens [] (trim display_name))). revert Hblank.
  set (tokens := List.filter _ _).
  assert (Forall (fun c => name_char c = true) (join $"-" tokens)) as Hj.
  { apply join_names. apply List.Forall_forall. intros t Ht. apply filter_In in Ht as [Ht _].
    by apply (proj1 (List.Forall_forall _ _) (slug_tokens_names [] (trim display_name) (Forall_nil_2 _))). }
  destruct (is_empty (join $"-" tokens)) eqn:Ej.
  - intros Hblank. apply (slug_tokens_blank []), Hblank.
    assert (forall t, In t tokens -> t <> []) as Hfull.
    { intros t [_ Ht]%filter_In. by destruct t. }
    destruct tokens as [|u l]; [done|]. exfalso. apply (Hfull u); [by left|]. cbn [join] in Ej.
    destruct l as [|v l]; [by destruct u|]. by destruct u.
  - intros _. assert (join $"-" tokens <> []) as Hne by (by destruct (join _ _)).
    assert (forall x, contains_char x (join $"-" tokens) = true -> x ∉ RESERVED) as Hres.
    { intros x Hx%contains_char_elem Hr. rewrite Forall_forall in Hj. by apply (name_char_not x x (Hj x Hx)). }
    assert (forall x, join $"-" tokens <> 46%N :: x) as Hdot.
    { intros x E. apply (Hres 46%N); [by rewrite E|do 2 right; left]. }
    assert ((join $"-" tokens =s $".") || (join $"-" tokens =s $"..") = false) as ->.
    { apply orb_false_iff. split; apply str_eqb_false; [exact (Hdot [])|exact (Hdot [46%N])]. }
    assert (existsb (fun c => contains_char c (DQUOTE :: $"<>:|?*")) (join $"-" tokens) = false) as ->.
    { apply existsb_false_elem. intros x Hx. apply contains_char_not. intros Hr.
      apply (Hres x); [by apply contains_char_elem|]. clear - Hr. revert Hr. unfold RESERVED. set_solver. }
    split_and!; [by apply name_is_component| |done].
    destruct (starts_with _ _) eqn:E; [|done]. apply starts_with_true in E as [r E]. by destruct (Hdot r E).
Qed.
End SlugFacts.

(** ** Examples *)

Lemma no_link_anywhere fs p t : check_no_links fs = true -> fs !! p <> Some (Symlink t).
Proof.
  unfold check_no_links. rewrite forallb_forall. intros Hc Hx. specialize (Hc (p, Symlink t)).
  discriminate Hc. by apply list_elem_of_In, elem_of_map_to_list.
Qed.

Section Example.
#[local] Instance quiet_order : DiskOk.
Proof. by intros l. Qed.
#[local] Instance at_root : Process := {| cwd := []; millis := 0%N |}.
#[local] Instance silent : IoText := fun _ => [].
#[local] Instance no_parse : JsonParse := fun _ => None.
#[local] Instance no_print : JsonPretty := fun _ => [].
#[local] Instance no_pinyin : PinyinTable := fun _ => None.

Lemma no_pinyin_ok : PinyinOk.
Proof. by intros c py. Qed.

(** A workspace home with one project, and a folder next to it. *)
Definition disk : FileSystem :=
  list_to_map [([$"u"], Directory); ([$"u"; $"ws"], Directory); ([$"u"; $"ws"; $"app"], Directory);
               ([$"u"; $"lib"], Directory); ([$"u"; $"lib"; $"a.rs"], File (Utf8 $"fn a"));
               ([$"u"; $"lib"; $"src"], Directory); ([$"u"; $"lib"; $"link"], Symlink $"/u")].
Definition desk : World := mkWorld disk 0 [].

Lemma ws_home : home_for [$"u"; $"ws"] disk.
Proof.
  split; [|by vm_compute].
  apply (canonical_name disk [$"u"] $"ws" Directory);
    [apply (canonical_name disk [] $"u" Directory); [constructor|by vm_compute..|done]|by vm_compute..|done].
Qed.
Lemma lib_home : home_for [$"u"; $"lib"] disk.
Proof.
  split; [|by vm_compute].
  apply (canonical_name disk [$"u"] $"lib" Directory);
    [apply (canonical_name disk [] $"u" Directory); [constructor|by vm_compute..|done]|by vm_compute..|done].
Qed.


(** The parent of the workspace home as a new project: the copy has been put into itself as
    many times as the fuel allowed. *)
Definition parent_import : ImportProjectParams := mkImportProject $"/u/ws" $"/u".
Theorem import_of_parent_runs_on :
  let '(r, w) := import_project 12 parent_import desk in
  r = None
  /\ is_directory_at (w_fs w)
       [$"u"; $"ws"; $"u"; $"ws"; $"u"; $"ws"; $"u"; $"ws"; $"u"; $"ws"; $"u"; $"ws"] = true.
Proof. by vm_compute. Qed.

Lemma import_of_ancestor_fails_witness :
  forall r w', import_project 12 parent_import desk = (Some r, w') -> exists e, r = Err e.
Proof.
  intros r w'. apply (import_of_ancestor_fails 12 parent_import desk [$"u"; $"ws"] [$"u"] $"ws" []).
  - vm_compute. reflexivity.
  - vm_compute. reflexivity.
  - reflexivity.
  - vm_compute. reflexivity.
  - intros name. destruct (unique_destination_name (w_fs desk) [$"u"; $"ws"] name) as [n En].
    rewrite En. intros p Hp t Ht. destruct Hp as [q ->].
    assert (check_no_links (delete [$"u"; $"lib"; $"link"] disk) = true) as Hc by (vm_compute; reflexivity).
    apply (no_link_anywhere _ (([$"u"; $"ws"] ++ [n]) ++ q) t Hc). rewrite lookup_delete_ne; [exact Ht|].
    intros E. apply (f_equal (fun l => nth 1 l [])) in E. vm_compute in E. discriminate E.
Defined.
End Example.
