(* ===== verification/Desktop.v ===== *)
(** * Commands of the desktop application (apps/desktop/src-tauri/src/main.rs)

    The list of projects, which deletes the sessions of projects whose folder is gone, and
    the saving of the settings, which starts and stops the local relay.  The commands run on
    the disk, on the service and on the relay; the texts of errors, the clock, the printer
    and the parser of the settings and the loopback interface are parameters. *)

From S2P Require Import Prelude.
From S2P Require Import Protocol.
From S2P Require Import Sql.
From S2P Require Import Store.
From S2P Require Import StoreInv.
From S2P Require Import StoreFacts.
From S2P Require Import StoreDelete.
From S2P Require Import Core.
From S2P Require Import CoreCalls.
From S2P Require Import Text.
From S2P Require Import Files.
From S2P Require Import FilesFacts.
From S2P Require Import ToolArgs.
From S2P Require Import ToolText.
From S2P Require Import Tools.
From S2P Require Import PatchFacts.
From S2P Require Import Compression.
From S2P Require Import Routing.
From S2P Require Import ProviderWire.
From S2P Require Import ProviderConfig.
From S2P Require Import ProviderConfigFacts.
From S2P Require Import RequestLogs.
From S2P Require Import Agent.
From S2P Require Import Relay.
From S2P Require Import Projects.

(** ** The sessions of folders that are gone *)

Definition normalize_workspace_path (value : str) : str :=
  to_ascii_lowercase
    (trim_end_matches (N.eqb SLASH)
      (trim_start_matches_str $"//./"
        (trim_start_matches_str $"//?/" (replace_char BACKSLASH [SLASH] (trim value))))).

Definition direct_project_root_key (workspace_home candidate : str) : option str :=
  let home_key := normalize_workspace_path workspace_home in
  let candidate_key := normalize_workspace_path candidate in
  if is_empty home_key || is_empty candidate_key then None
  else
    match strip_prefix (home_key ++ [SLASH]) candidate_key with
    | None => None
    | Some relative =>
      if is_empty relative || contains_char SLASH relative || starts_with $"." relative then None
      else Some candidate_key
    end.

(** [entry(key).or_insert_with(..)]: the first root of a key stays. *)
Definition or_insert_root (key root : str) (missing : list (str * str)) : list (str * str) :=
  if existsb (fun kv => fst kv =s key) missing then missing else missing ++ [(key, root)].
Fixpoint missing_roots (workspace_home : str) (existing : list str) (missing : list (str * str))
    (session_roots : list str) : list (str * str) :=
  match session_roots with
  | [] => missing
  | root :: rest =>
    missing_roots workspace_home existing
      (match direct_project_root_key workspace_home root with
       | None => missing
       | Some key => if one_of key existing then missing else or_insert_root key root missing
       end) rest
  end.
Definition root_le (a b : str) : bool :=
  negb (str_ltb (normalize_workspace_path b) (normalize_workspace_path a)).
Definition missing_project_session_roots (workspace_home : str) (projects : list ProjectDir)
    (session_roots : list str) : list str :=
  let existing := map (fun project => normalize_workspace_path (pd_path project)) projects in
  order_by root_le (map snd (missing_roots workspace_home existing [] session_roots)).

Section ProjectList.
Context {En : Env} {Dk : Disk} {Text_ : IoText} {Errors : ErrorTexts} {Parse : JsonParse} {Case : UnicodeCase}.
Context {Proc : Process}.

Fixpoint delete_roots (roots : list str) : C unit :=
  match roots with
  | [] => cret tt
  | root :: rest => core_delete_workspace_sessions root ;;! delete_roots rest
  end.

(** The command; [open_error] is the error of [open_core]. *)
Definition list_projects_command (open_error : option str) (workspace_home : str) (w : World)
    (core : CoreService) : result (list ProjectDir) str * (World * CoreService) :=
  match list_projects workspace_home w with
  | (Err e, w) => (Err e, (w, core))
  | (Ok projects, w) =>
    match open_error with
    | Some e => (Err e, (w, core))
    | None =>
      match (do! sessions := core_list_sessions None in
             delete_roots (missing_project_session_roots workspace_home projects
                             (map s_workspace_root sessions))) core with
      | (Err e, core) => (Err (core_error_text e), (w, core))
      | (Ok _, core) => (Ok projects, (w, core))
      end
    end
  end.
End ProjectList.

(** ** Settings *)

(** [UserConfig] as far as the settings are read here. *)
Record SavedConfig := mkSavedConfig {
  sc_settings : Settings;
  sc_local_relay_enabled : bool;
  sc_record_model_requests : bool;
}.
Definition DEFAULT_PROVIDER_URL : str := $"https://ai.v58.dev".
Definition default_config : SavedConfig :=
  mkSavedConfig
    (mkSettings $"openai" [] $"en" 6 16 3 120 180 600 30 2 60 60 10 80 [] None None ProxySystem None None 17821 None
       DEFAULT_PROVIDER_URL
       (mkUserConfig None
          [mkProvider $"default" $"openai" DEFAULT_PROVIDER_URL ChatCompletions Relay None [] None]
          (Some $"default") false []))
    false false.

Definition with_settings (s : Settings) (c : SavedConfig) : SavedConfig :=
  mkSavedConfig s (sc_local_relay_enabled c) (sc_record_model_requests c).
Definition with_relay_key (key : str) (s : Settings) : Settings :=
  mkSettings (st_provider s) (st_model s) (st_locale s) (st_max_provider_retries s) (st_max_tool_rounds s)
    (st_circuit_failure_threshold s) (st_stream_first_event_timeout_secs s) (st_stream_idle_timeout_secs s)
    (st_non_stream_timeout_secs s) (st_model_call_log_retention_days s) (st_circuit_recovery_success_threshold s)
    (st_circuit_recovery_wait_secs s) (st_circuit_error_rate_threshold_percent s) (st_circuit_min_request_count s)
    (st_context_compaction_threshold_percent s) (st_model_context_windows s) (st_last_workspace_root s)
    (st_workspace_home s) (st_http_proxy_mode s) (st_http_proxy_url s) (st_http_user_agent s)
    (st_local_relay_port s) (Some key) (st_base_url s) (st_config s).

(** [serde_json] on [UserConfig]; [user_config_path] leads to [config_path]. *)
Class ConfigFile := {
  config_of_json : list N -> option SavedConfig;
  json_of_config : SavedConfig -> list N;
  config_path : list (list N);
}.

(** What a command works on. *)
Record Desk := mkDesk { dk_world : World; dk_env : ProcEnv; dk_relay : option RelayHandle; dk_core : CoreService }.

Section Settings.
Context {En : Env} {Dk : Disk} {Text_ : IoText} {Config_ : ConfigFile} {Loop : Loopback}.

(** [millis i] is the reading of the clock for the [i]-th provider. *)
Definition normal_config (millis : nat -> N) (c : SavedConfig) : SavedConfig :=
  with_settings (normalize_user_config millis (sc_settings c)) c.

Definition load_user_config (millis : nat -> N) (w : World) : SavedConfig * World :=
  let '(raw, w) := read_to_string config_path w in
  let loaded := match raw with
                | Ok raw => or_else (config_of_json raw) default_config
                | Err _ => default_config
                end in
  (normal_config millis loaded, w).

Definition save_user_config (millis : nat -> N) (config : SavedConfig) : IO unit :=
  write_text_utf8 config_path (json_of_config (normal_config millis config) ++ [LF]).

(** The command: [millis n] is the clock of its [n]-th normalization, [fresh] the text of a
    new identifier and [open_error] the error of [open_core]. *)
Definition set_user_config (millis : nat -> nat -> N) (fresh : str) (open_error : option str)
    (config : SavedConfig) (d : Desk) : result SavedConfig str * Desk :=
  let '(previous, w) := load_user_config (millis 0) (dk_world d) in
  let config :=
    if sc_local_relay_enabled config
       && match non_blank (st_local_relay_api_key (sc_settings config)) with Some _ => false | None => true end
    then with_settings (with_relay_key ($"xcoding-local-" ++ fresh) (sc_settings config)) config
    else config in
  let next := normal_config (millis 1) config in
  match save_user_config (millis 2) next w with
  | (Err e, w) => (Err (io_text e), mkDesk w (dk_env d) (dk_relay d) (dk_core d))
  | (Ok _, w) =>
    let env := apply_user_config_to_env (uc_api_key (st_config (sc_settings next)))
                 (st_base_url (sc_settings next)) (dk_env d) in
    let '(restarted, relay) :=
      if negb (Bool.eqb (sc_local_relay_enabled previous) (sc_local_relay_enabled next))
      then restart_relay (mkRelayConfig (sc_settings next) (sc_local_relay_enabled next)
                            (sc_record_model_requests next) env) (dk_relay d)
      else (Ok tt, dk_relay d) in
    match restarted with
    | Err e => (Err e, mkDesk w env relay (dk_core d))
    | Ok _ =>
      let core :=
        match open_error with
        | Some _ => dk_core d
        | None => snd (core_purge_model_call_logs
                         (st_model_call_log_retention_days (sc_settings next)) (dk_core d))
        end in
      (Ok next, mkDesk w env relay core)
    end
  end.
End Settings.

(** ** Which roots are missing *)

#[local] Arguments normalize_workspace_root : simpl never.
#[local] Arguments normalize_workspace_path : simpl never.

Section Missing.
Variables (workspace_home : str) (projects : list ProjectDir).

Definition listed_keys : list str := map (fun project => normalize_workspace_path (pd_path project)) projects.

(** A session of a visible folder right below the workspace home that is not listed. *)
Definition is_missing (root : str) : bool :=
  match direct_project_root_key workspace_home root with
  | Some key => negb (one_of key listed_keys)
  | None => false
  end.

Lemma direct_key_normal root key :
  direct_project_root_key workspace_home root = Some key -> key = normalize_workspace_root root /\ key <> [].
Proof.
  unfold direct_project_root_key. change (normalize_workspace_path root) with (normalize_workspace_root root).
  destruct (_ || _) eqn:E; [done|]. destruct (strip_prefix _ _) as [rel|]; [|done].
  destruct (is_empty rel || contains_char SLASH rel || _); [done|]. intros [= <-]. split; [done|]. apply orb_false_iff in E as [_ E]. by destruct (normalize_workspace_root root).
Qed.

Lemma is_missing_normal a b :
  normalize_workspace_root a = normalize_workspace_root b -> is_missing a = is_missing b.
Proof.
  intros E. unfold is_missing, direct_project_root_key.
  change (normalize_workspace_path a) with (normalize_workspace_root a).
  change (normalize_workspace_path b) with (normalize_workspace_root b). by rewrite E.
Qed.

(** The pairs that are collected: every root under its own key. *)
Definition collected (missing : list (str * str)) : Prop :=
  Forall (fun kv => fst kv = normalize_workspace_root (snd kv) /\ is_missing (snd kv) = true) missing.

Lemma missing_roots_spec missing roots :
  collected missing ->
  collected (missing_roots workspace_home listed_keys missing roots) /\
  forall k, k ∈ map fst (missing_roots workspace_home listed_keys missing roots) <->
    k ∈ map fst missing \/ exists r, r ∈ roots /\ is_missing r = true /\ k = normalize_workspace_root r.
Proof.
  revert missing. induction roots as [|root roots IH]; intros missing Hc; cbn [missing_roots].
  { split; [done|]. intros k. split; [by left|]. intros [?|(r & Hr & _)]; [done|by apply not_elem_of_nil in Hr]. }
  match goal with |- context [missing_roots _ _ ?n roots] => set (next := n) end.
  assert (collected next /\ forall k, k ∈ map fst next <->
    k ∈ map fst missing \/ is_missing root = true /\ k = normalize_workspace_root root) as [Hn Hk].
  { unfold next. destruct (direct_project_root_key workspace_home root) as [key|] eqn:E.
    - apply direct_key_normal in E as H'. destruct H' as [Ek _].
      assert (is_missing root = negb (one_of key listed_keys)) as Em by (unfold is_missing; by rewrite E).
      rewrite Em. destruct (one_of key listed_keys) eqn:Eo; cbn [negb].
      + split; [done|]. intros k. naive_solver.
      + unfold or_insert_root. destruct (existsb _ _) eqn:Ee.
        * split; [done|]. intros k. split; [by left|]. intros [?|[_ ->]]; [done|].
          apply existsb_exists in Ee as ([k' r'] & Hin & Heq). apply str_eqb_true in Heq. cbn in Heq. subst k'.
          rewrite <- Ek. apply list_elem_of_In, in_map_iff. by exists (key, r').
        * split.
          -- apply Forall_app. split; [done|]. constructor; [|constructor]. cbn. by rewrite Em.
          -- intros k. rewrite map_app, elem_of_app. cbn. rewrite list_elem_of_singleton, Ek. naive_solver.
    - split; [done|]. intros k. unfold is_missing. rewrite E. naive_solver. }
  destruct (IH next Hn) as [H1 H2]. split; [done|]. intros k. rewrite H2, Hk. split.
  - intros [[?|[? ->]]|(r & Hr & ?)]; [by left|right; exists root; split; [left|done]|right; exists r; split; [by right|done]].
  - intros [?|(r & [->|Hr]%elem_of_cons & ? & ->)]; [by left; left|left; right; done|right; by exists r].
Qed.

Lemma order_by_elem {A} (le : A -> A -> bool) (l : list A) x : x ∈ order_by le l <-> x ∈ l.
Proof. by rewrite (order_by_perm le l). Qed.

(** The roots that are deleted are those of the missing sessions, up to spelling. *)
Lemma deleted_roots roots root :
  root ∈ missing_project_session_roots workspace_home projects roots ->
  is_missing root = true /\ normalize_workspace_root root <> [].
Proof.
  unfold missing_project_session_roots. fold listed_keys. rewrite order_by_elem, list_elem_of_In, in_map_iff.
  intros ([k r] & Hr & Hin). cbn in Hr. subst r.
  destruct (missing_roots_spec [] roots (Forall_nil_2 _)) as [Hc _].
  apply list_elem_of_In in Hin. destruct (proj1 (Forall_forall _ _) Hc _ Hin) as [_ Hm]. cbn in Hm. split; [done|].
  unfold is_missing in Hm. destruct (direct_project_root_key _ root) eqn:E; [|done].
  apply direct_key_normal in E as [-> ?]. done.
Qed.

Lemma deleted_key roots root :
  root ∈ roots ->
  existsb (fun r => normalize_workspace_root root =s normalize_workspace_root r)
    (missing_project_session_roots workspace_home projects roots) = is_missing root.
Proof.
  intros Hin. apply eq_true_iff_eq. rewrite existsb_exists.
  destruct (missing_roots_spec [] roots (Forall_nil_2 _)) as [Hc Hk]. split.
  - intros (r & Hr & E). apply list_elem_of_In, deleted_roots in Hr as [Hm _]. apply str_eqb_true in E.
    by rewrite (is_missing_normal _ _ E).
  - intros Hm. assert (normalize_workspace_root root ∈ map fst (missing_roots workspace_home listed_keys [] roots)) as Hk'
      by (apply Hk; right; by exists root).
    apply list_elem_of_In, in_map_iff in Hk' as ([k r] & Ek & Hkr). cbn in Ek. subst k.
    exists r. split.
    + apply list_elem_of_In. unfold missing_project_session_roots. fold listed_keys.
      rewrite order_by_elem, list_elem_of_In, in_map_iff. by exists (normalize_workspace_root root, r).
    + apply list_elem_of_In in Hkr. destruct (proj1 (Forall_forall _ _) Hc _ Hkr) as [E _]. cbn in E.
      rewrite <- E. apply str_eqb_refl.
Qed.
End Missing.

(** ** Deleting several workspaces *)

Definition session_roots (d : Db) : list (uuid * str) := map (fun s => (s_id s, s_workspace_root s)) (sessions d).
Definition has_key (keys : list str) (root : str) : bool := one_of (normalize_workspace_root root) keys.
Definition ids_with (keys : list str) (d : Db) : list uuid :=
  map s_id (select (fun s => has_key keys (s_workspace_root s)) (sessions d)).
Definition among (ids : list uuid) (i : uuid) : bool := bool_decide (i ∈ ids).

(** What is deleted, whatever else happens to titles. *)
Definition keys_erased (keys : list str) (d d' : Db) : Prop :=
  session_roots d' = delete_where (fun sr => has_key keys (snd sr)) (session_roots d) /\
  messages d' = delete_where (fun m => among (ids_with keys d) (m_session_id m)) (messages d) /\
  tool_output_attachments d'
    = delete_where (fun a => among (ids_with keys d) (at_session_id a)) (tool_output_attachments d).

Lemma delete_where_map {A B} (f : A -> B) p (l : list A) :
  map f (delete_where (fun a => p (f a)) l) = delete_where p (map f l).
Proof.
  unfold delete_where. induction l as [|a l IH]; [done|]. cbn. destruct (p (f a)); cbn; by rewrite IH.
Qed.
Lemma delete_where_twice {A} (p q r : A -> bool) (l : list A) :
  (forall a, a ∈ l -> r a = p a || q a) -> delete_where q (delete_where p l) = delete_where r l.
Proof.
  unfold delete_where. induction l as [|a l IH]; intros H; [done|]. cbn.
  rewrite (H a) by left. destruct (p a); cbn; [apply IH; intros; apply H; by right|].
  destruct (q a); cbn; rewrite IH; try done; intros; apply H; by right.
Qed.
Lemma delete_where_ext {A} (p q : A -> bool) (l : list A) :
  (forall a, a ∈ l -> p a = q a) -> delete_where p l = delete_where q l.
Proof.
  intros H. unfold delete_where. apply filter_ext_in. intros a Ha. by rewrite H by by apply list_elem_of_In.
Qed.

Lemma erased_sessions ids d :
  let d' := foldl (fun d sid => erase_session sid d) d ids in
  session_roots d' = delete_where (fun sr => among ids (fst sr)) (session_roots d) /\
  messages d' = delete_where (fun m => among ids (m_session_id m)) (messages d) /\
  tool_output_attachments d' = delete_where (fun a => among ids (at_session_id a)) (tool_output_attachments d).
Proof.
  assert (forall i ids j, among (i :: ids) j = (j =? i)%N || among ids j) as Hcons.
  { intros i l j. unfold among. destruct (N.eqb_spec j i) as [->|Hne]; cbn [orb].
    - apply bool_decide_eq_true. left.
    - apply bool_decide_ext. rewrite elem_of_cons. naive_solver. }
  cbv zeta. revert d. induction ids as [|i ids IH]; intros d; cbn [foldl].
  { split_and!; symmetry; apply delete_where_none; intros; apply bool_decide_eq_false, not_elem_of_nil. }
  destruct (IH (erase_session i d)) as (-> & -> & ->). unfold session_roots. cbn [erase_session sessions messages tool_output_attachments].
  rewrite (delete_where_map (fun s => (s_id s, s_workspace_root s)) (fun sr => (fst sr =? i)%N)).
  split_and!; apply delete_where_twice; intros; apply Hcons.
Qed.

Lemma nodup_root d sid a b :
  NoDup (map s_id (sessions d)) -> (sid, a) ∈ session_roots d -> (sid, b) ∈ session_roots d -> a = b.
Proof.
  unfold session_roots. induction (sessions d) as [|s l IH]; intros Hn Ha Hb; [by apply not_elem_of_nil in Ha|].
  cbn in *. apply NoDup_cons in Hn as [Hs Hn].
  assert (forall r, (s_id s, r) ∉ map (fun s => (s_id s, s_workspace_root s)) l) as Hout.
  { intros r Hr. apply Hs. apply list_elem_of_In, in_map_iff in Hr as (x & Hx & Hin). injection Hx as <- _.
    apply list_elem_of_In, in_map_iff. by exists x. }
  apply elem_of_cons in Ha as [Ha|Ha], Hb as [Hb|Hb]; [congruence| | |by apply IH].
  - injection Ha as -> _. by apply Hout in Hb.
  - injection Hb as -> _. by apply Hout in Ha.
Qed.

Lemma among_ids keys d sid :
  among (ids_with keys d) sid = true <-> exists root, (sid, root) ∈ session_roots d /\ has_key keys root = true.
Proof.
  unfold among, ids_with, session_roots, select. rewrite bool_decide_eq_true, list_elem_of_In, in_map_iff. split.
  - intros (s & <- & [Hin Hk]%filter_In). exists (s_workspace_root s). split; [|done].
    apply list_elem_of_In, in_map_iff. by exists s.
  - intros (root & Hr & Hk). apply list_elem_of_In, in_map_iff in Hr as (s & [= <- <-] & Hin). exists s.
    split; [done|]. by apply filter_In.
Qed.

Lemma has_key_app k1 k2 root : has_key (k1 ++ k2) root = has_key k1 root || has_key k2 root.
Proof. unfold has_key, one_of. apply existsb_app. Qed.

Lemma ids_of_key key d : workspace_session_ids key d = ids_with [key] d.
Proof.
  unfold workspace_session_ids, ids_with, select. f_equal. apply filter_ext. intros s.
  unfold has_key, one_of. cbn. by rewrite orb_false_r.
Qed.

Lemma erase_workspace_keys key d : db_keys d -> keys_erased [key] d (erase_workspace key d).
Proof.
  intros Hk. unfold keys_erased, erase_workspace. rewrite ids_of_key.
  destruct (erased_sessions (ids_with [key] d) d) as (Hs & Hm & Ha).
  unfold session_roots in *. cbn [set_workspace_configs sessions messages tool_output_attachments].
  rewrite Hs, Hm, Ha. split_and!; [|done..]. apply delete_where_ext. intros [sid root] Hin. cbn [fst snd].
  apply eq_true_iff_eq. rewrite among_ids. split; [|by eauto].
  intros (root' & Hin' & Hk'). by rewrite (nodup_root d sid root root' (k_sessions _ Hk) Hin Hin').
Qed.

Lemma keys_erased_none d : keys_erased [] d d.
Proof.
  split_and!; symmetry; apply delete_where_none; [done|..]; intros; apply not_true_is_false; rewrite among_ids; by intros (? & _ & ?).
Qed.

Lemma keys_erased_app k1 k2 d d1 d2 :
  db_keys d -> keys_erased k1 d d1 -> keys_erased k2 d1 d2 -> keys_erased (k1 ++ k2) d d2.
Proof.
  intros Hk (S1 & M1 & A1) (S2 & M2 & A2).
  assert (forall sid, among (ids_with (k1 ++ k2) d) sid = among (ids_with k1 d) sid || among (ids_with k2 d1) sid) as Hor.
  { intros sid. apply eq_true_iff_eq. rewrite orb_true_iff, !among_ids, S1. split.
    - intros (root & Hin & Hh). rewrite has_key_app, orb_true_iff in Hh.
      destruct (has_key k1 root) eqn:E1; [left; eauto|]. right. exists root. split; [|naive_solver].
      by apply elem_of_delete_where.
    - intros [(root & Hin & Hh)|(root & Hin & Hh)]; exists root; rewrite has_key_app.
      + by rewrite Hh.
      + apply elem_of_delete_where in Hin as [Hin _]. by rewrite Hh, orb_true_r. }
  unfold keys_erased. rewrite S2, M2, A2, S1, M1, A1.
  split_and!; apply delete_where_twice; intros; [apply has_key_app|apply Hor..].
Qed.

Lemma keys_erased_attachments keys d d' sid :
  keys_erased keys d d' -> has_attachment sid d = false -> has_attachment sid d' = false.
Proof.
  intros (_ & _ & A). unfold has_attachment, exists_where. rewrite !existsb_false_elem. intros H a Ha.
  rewrite A in Ha. apply elem_of_delete_where in Ha as [Ha _]. by apply H.
Qed.

(** A session that is not deleted keeps its attachments. *)
Lemma keys_erased_keeps keys d d' sid :
  keys_erased keys d d' -> among (ids_with keys d) sid = false -> has_attachment sid d' = has_attachment sid d.
Proof.
  intros (_ & _ & A) Hn. unfold has_attachment, exists_where. rewrite A. apply eq_true_iff_eq.
  rewrite !existsb_exists. split; intros (a & Ha & E); exists a; split; try done.
  - apply list_elem_of_In, elem_of_delete_where in Ha as [Ha _]. by apply list_elem_of_In.
  - apply list_elem_of_In, elem_of_delete_where. split; [by apply list_elem_of_In|].
    apply N.eqb_eq in E. by rewrite E.
Qed.

Section Commands.
Context {En : Env}.

Lemma core_keys ks dir : db_keys (db (store (run_core_calls ks (new_core dir)))).
Proof. destruct (core_reachable ks (new_core dir)) as [cs ->]. apply reachable_keys. Qed.

Lemma root_valid root : normalize_workspace_root root <> [] -> is_empty (trim root) = false.
Proof.
  unfold normalize_workspace_root. by destruct (trim root).
Qed.

Lemma run_core_snoc ks k c : run_core_calls (ks ++ [k]) c = run_core_call k (run_core_calls ks c).
Proof. unfold run_core_calls. by rewrite foldl_app. Qed.

(** One workspace, through the service. *)
Lemma delete_root_ok ks dir root :
  foreign_keys = true -> normalize_workspace_root root <> [] ->
  let c := run_core_calls ks (new_core dir) in
  (forall sid, among (ids_with [normalize_workspace_root root] (db (store c))) sid = true ->
     has_attachment sid (db (store c)) = false) ->
  exists n, core_delete_workspace_sessions root c
              = (Ok n, run_core_calls (ks ++ [CoreDeleteWorkspaceSessions root]) (new_core dir))
    /\ keys_erased [normalize_workspace_root root] (db (store c))
         (db (store (run_core_calls (ks ++ [CoreDeleteWorkspaceSessions root]) (new_core dir)))).
Proof.
  intros Hfk Hne c Ha. rewrite run_core_snoc. fold c. cbn [run_core_call].
  destruct (core_reachable ks (new_core dir)) as [cs Hcs].
  destruct (delete_workspace_erases cs dir root Hfk Hne) as (st' & Hd & Hdb).
  { intros sid Hin. change (run_calls cs (new_store dir)) with (run_calls cs (store (new_core dir))) in *.
    rewrite <- Hcs in *. apply Ha. unfold among. rewrite <- ids_of_key. by apply bool_decide_eq_true. }
  change (run_calls cs (new_store dir)) with (run_calls cs (store (new_core dir))) in Hd, Hdb.
  rewrite <- Hcs in Hd, Hdb. fold c in Hd, Hdb.
  assert (core_delete_workspace_sessions root c
    = (Ok (length (workspace_session_ids (normalize_workspace_root root) (db (store c)))),
       mkCore st' (cancel_probe c) (list_files c))) as E.
  { unfold core_delete_workspace_sessions, validate_workspace_root, cguard, cbind, lift.
    rewrite (root_valid _ Hne). cbn. by rewrite Hd. }
  eexists. rewrite E. cbn [snd store]. split; [reflexivity|]. rewrite Hdb. apply erase_workspace_keys, core_keys.
Qed.

Lemma delete_roots_ok dir roots : forall ks,
  foreign_keys = true -> (forall root, root ∈ roots -> normalize_workspace_root root <> []) ->
  let c := run_core_calls ks (new_core dir) in
  (forall sid, among (ids_with (map normalize_workspace_root roots) (db (store c))) sid = true ->
     has_attachment sid (db (store c)) = false) ->
  exists c', delete_roots roots c = (Ok tt, c')
    /\ keys_erased (map normalize_workspace_root roots) (db (store c)) (db (store c')).
Proof.
  induction roots as [|root roots IH]; intros ks Hfk Hne c Ha; cbn [delete_roots].
  { exists c. split; [done|apply keys_erased_none]. }
  destruct (delete_root_ok ks dir root Hfk) as (n & Hd & He); [apply Hne; left| |].
  { intros sid Hsid. apply Ha. rewrite among_ids in *. destruct Hsid as (r & Hr & Hk). exists r. split; [done|].
    change (map normalize_workspace_root (root :: roots)) with ([normalize_workspace_root root] ++ map normalize_workspace_root roots).
    by rewrite has_key_app, Hk. }
  fold c in Hd, He. unfold cbind at 1. rewrite Hd.
  set (ks' := ks ++ [CoreDeleteWorkspaceSessions root]) in *.
  destruct (IH ks' Hfk) as (c' & Hc' & He'); [intros; apply Hne; by right| |].
  { intros sid Hsid. apply (keys_erased_attachments _ _ _ _ He), Ha. rewrite among_ids in *.
    destruct Hsid as (r & Hr & Hk). exists r. destruct He as (Hs & _). rewrite Hs in Hr.
    apply elem_of_delete_where in Hr as [Hr _]. split; [done|].
    change (map normalize_workspace_root (root :: roots)) with ([normalize_workspace_root root] ++ map normalize_workspace_root roots).
    by rewrite has_key_app, Hk, orb_true_r. }
  exists c'. split; [done|].
  apply (keys_erased_app [normalize_workspace_root root] _ _ _ _ (core_keys ks dir) He He').
Qed.

(** The first workspace with an attachment stops the rest, which keep it. *)
Lemma delete_roots_fails dir roots : forall ks sid,
  foreign_keys = true -> (forall root, root ∈ roots -> normalize_workspace_root root <> []) ->
  let c := run_core_calls ks (new_core dir) in
  among (ids_with (map normalize_workspace_root roots) (db (store c))) sid = true ->
  has_attachment sid (db (store c)) = true ->
  exists c', delete_roots roots c = (Err (StoreErr (Database ConstraintForeignKey)), c')
    /\ has_attachment sid (db (store c')) = true
    /\ (forall root, (sid, root) ∈ session_roots (db (store c)) -> (sid, root) ∈ session_roots (db (store c'))).
Proof.
  induction roots as [|root roots IH]; intros ks sid Hfk Hne c Hin Ha.
  { apply among_ids in Hin as (? & _ & Hh). done. }
  cbn [delete_roots].
  destruct (existsb (fun i => has_attachment i (db (store c)))
              (workspace_session_ids (normalize_workspace_root root) (db (store c)))) eqn:E.
  - apply existsb_exists in E as (i & Hi & Hai). apply list_elem_of_In in Hi.
    destruct (core_reachable ks (new_core dir)) as [cs Hcs].
    destruct (delete_workspace_attachment_fails cs dir root i Hfk) as (st' & Hd & Hdb);
      [apply Hne; left|by change (new_store dir) with (store (new_core dir)); rewrite <- Hcs..|].
    change (new_store dir) with (store (new_core dir)) in Hd, Hdb. rewrite <- Hcs in Hd, Hdb. fold c in Hd, Hdb.
    assert (core_delete_workspace_sessions root c
      = (Err (StoreErr (Database ConstraintForeignKey)), mkCore st' (cancel_probe c) (list_files c))) as He.
    { unfold core_delete_workspace_sessions, validate_workspace_root, cguard, cbind, lift.
      rewrite root_valid by (apply Hne; left). cbn. by rewrite Hd. }
    unfold cbind at 1. rewrite He. eexists. split; [reflexivity|]. cbn [store]. by rewrite Hdb.
  - assert (forall i, among (ids_with [normalize_workspace_root root] (db (store c))) i = true ->
      has_attachment i (db (store c)) = false) as Hno.
    { intros i Hi. unfold among in Hi. rewrite <- ids_of_key, bool_decide_eq_true in Hi.
      rewrite existsb_false_elem in E. by apply E. }
    destruct (delete_root_ok ks dir root Hfk) as (n & Hd & He); [apply Hne; left|done|].
    fold c in Hd, He. unfold cbind at 1. rewrite Hd.
    assert (among (ids_with [normalize_workspace_root root] (db (store c))) sid = false) as Hout.
    { apply not_true_is_false. intros Ht. apply Hno in Ht. congruence. }
    set (ks' := ks ++ [CoreDeleteWorkspaceSessions root]) in *.
    assert (forall r, (sid, r) ∈ session_roots (db (store c)) ->
      (sid, r) ∈ session_roots (db (store (run_core_calls ks' (new_core dir))))) as Hkeep.
    { intros r Hr. destruct He as (Hs & _). rewrite Hs. apply elem_of_delete_where. split; [done|]. cbn [snd].
      apply not_true_is_false. intros Hh. apply not_true_iff_false in Hout. apply Hout, among_ids. eauto. }
    destruct (IH ks' sid Hfk) as (c' & Hc' & Ha' & Hr').
    + intros; apply Hne; by right.
    + apply among_ids in Hin as (r & Hr & Hh). apply among_ids. exists r. split; [by apply Hkeep|].
      change (map normalize_workspace_root (root :: roots)) with ([normalize_workspace_root root] ++ map normalize_workspace_root roots) in Hh.
      rewrite has_key_app in Hh. apply orb_true_iff in Hh as [Hh|Hh]; [|done].
      exfalso. apply not_true_iff_false in Hout. apply Hout, among_ids. eauto.
    + by rewrite (keys_erased_keeps _ _ _ _ He Hout).
    + exists c'. split_and!; [done..|]. intros r Hr. by apply Hr', Hkeep.
Qed.

(** What listing the sessions changes: titles. *)
Definition same_but_titles (d d' : Db) : Prop :=
  session_roots d' = session_roots d /\ messages d' = messages d /\
  tool_output_attachments d' = tool_output_attachments d.

Lemma fill_title_roots s st :
  exists s' st', fill_session_title s st = (Ok s', st') /\ s_workspace_root s' = s_workspace_root s
    /\ same_but_titles (db st) (db st').
Proof.
  unfold fill_session_title. destruct (match s_title s with Some _ => _ | None => _ end); [by eexists _, _; split; [reflexivity|]|].
  unfold bind at 1, first_user_message_content, Store.query.
  destruct (List.find (fun m => bool_decide (m_role m = User)) (session_messages (s_id s) (db st))) as [content|];
    cbn [option_map]; [|by eexists _, _; split; [reflexivity|]].
  destruct (is_empty (title_from_message (m_content content))); [by eexists _, _; split; [reflexivity|]|].
  eexists _, _. split; [reflexivity|]. split; [done|]. repeat split. unfold session_roots, update_where. cbn.
  rewrite map_map. apply map_ext. intros r. by destruct (_ && _).
Qed.

Lemma fill_titles_roots l : forall st,
  exists l' st', for_each l fill_session_title st = (Ok l', st')
    /\ map s_workspace_root l' = map s_workspace_root l /\ same_but_titles (db st) (db st').
Proof.
  induction l as [|s l IH]; intros st; cbn [for_each]; [by eexists _, _; split; [reflexivity|]|].
  destruct (fill_title_roots s st) as (s' & st1 & E1 & R1 & S1). unfold bind at 1. rewrite E1.
  destruct (IH st1) as (l' & st2 & E2 & R2 & S2). unfold bind at 1. rewrite E2. eexists _, _.
  split; [reflexivity|]. split; [cbn; by rewrite R1, R2|]. unfold same_but_titles in *. intuition congruence.
Qed.

Lemma list_sessions_roots c :
  exists ss, core_list_sessions None c = (Ok ss, run_core_call (CoreListSessions None) c)
    /\ same_but_titles (db (store c)) (db (store (run_core_call (CoreListSessions None) c)))
    /\ forall root, root ∈ map s_workspace_root ss <-> root ∈ map snd (session_roots (db (store c))).
Proof.
  cbn [run_core_call]. unfold core_list_sessions, lift, list_sessions, Store.query.
  destruct (fill_titles_roots (order_by session_ge (sessions (db (store c)))) (store c)) as (l & st & E & R & S).
  unfold bind. rewrite E. cbn [snd store]. exists l. split; [done|]. split; [done|]. intros root. rewrite R.
  unfold session_roots. rewrite map_map. cbn [snd]. by rewrite (order_by_perm session_ge (sessions (db (store c)))).
Qed.
End Commands.

(** ** The list of projects *)

Section Listing.
Context {En : Env} {Dk : Disk} {Text_ : IoText} {Errors : ErrorTexts} {Parse : JsonParse} {Case : UnicodeCase}.
Context {Proc : Process}.

Lemma read_title_quiet project fallback w : w_fs (snd (read_title project fallback w)) = w_fs w.
Proof.
  unfold read_title, read_to_string, Files.query, attempt. destruct (fault _); [done|]. by destruct (fs_read _ _).
Qed.

Lemma project_from_path_quiet text path w r w' :
  project_from_path text path w = (r, w') ->
  w_fs w' = w_fs w /\
  forall name, file_name_of path = Some name -> starts_with $"." name = false -> path_is_dir (w_fs w) path = true ->
    exists title, r = Ok (Some (mkProjectDir text name title)).
Proof.
  unfold project_from_path, pbind, seen. destruct (path_is_dir _ _); cbn [negb]; [|by intros [= <- <-]].
  destruct (file_name_of path) as [name|]; [|by intros [= <- <-]].
  destruct (starts_with $"." name) eqn:Ed; [intros [= <- <-]; split; [done|]; intros ? [= <-]; congruence|].
  pose proof (read_title_quiet path name w) as Hq. destruct (read_title path name w) as [[title|e] w1] eqn:E.
  - intros [= <- <-]. split; [done|]. intros ? [= <-] _ _. eauto.
  - exfalso. revert E. unfold read_title. by destruct (read_to_string _ w) as [[]].
Qed.

Lemma projects_of_lists home dir entries : forall w projects w',
  projects_of home dir entries w = (Ok projects, w') ->
  w_fs w' = w_fs w /\
  forall name node, (name, node) ∈ entries -> starts_with $"." name = false ->
    path_is_dir (w_fs w) (dir ++ [name]) = true ->
    exists project, project ∈ projects /\ pd_path project = join_text home name.
Proof.
  induction entries as [|[name node] entries IH]; intros w projects w'; cbn [projects_of].
  { intros [= <- <-]. split; [done|]. intros ? ? H. by apply not_elem_of_nil in H. }
  unfold pbind at 1. destruct (project_from_path _ _ w) as [[project|e] w1] eqn:E1; [|done].
  apply project_from_path_quiet in E1 as [F1 H1].
  unfold pbind. destruct (projects_of home dir entries w1) as [[l|e] w2] eqn:E2; [|done].
  apply IH in E2 as [F2 H2]. intros [= <- <-]. split; [congruence|]. intros n x [[= -> ->]|Hin]%elem_of_cons Hdot Hdir.
  - destruct (H1 name) as [title [= ->]]; [|done..|].
    { unfold file_name_of. by rewrite last_snoc. }
    eexists. split; [left|done].
  - rewrite F1 in H2. destruct (H2 n x Hin Hdot Hdir) as (p & Hp & Ep). exists p. split; [|done].
    destruct project; [by right|done].
Qed.

(** Every visible folder below the workspace home is listed, under the text of the home. *)
Lemma folders_listed `{!DiskOk} home w projects w' dir name node :
  list_projects home w = (Ok projects, w') -> trim home <> [] ->
  locate (w_fs w) (trim home) = Ok dir ->
  w_fs w !! (dir ++ [name]) = Some node -> path_is_dir (w_fs w) (dir ++ [name]) = true ->
  starts_with $"." name = false ->
  exists project, project ∈ projects /\ pd_path project = join_text (trim home) name.
Proof.
  unfold list_projects, pbind, seen, located. intros Hl Hne Hd Hn Hdir Hdot. revert Hl.
  destruct (is_empty (trim home)) eqn:E; [by destruct (trim home)|]. rewrite Hd.
  destruct (node_at (w_fs w) dir) as [[]|] eqn:Enode; try done. cbn beta iota.
  unfold of_io, read_dir, Files.query, attempt. destruct (fault _); [done|].
  rewrite (canonical_resolves _ dir).
  2:{ unfold locate in Hd. destruct (walk _ _ _ _ _) as [[r l]|] eqn:Ew; [|done]. injection Hd as <-.
      eapply walk_canonical; [constructor|exact Ew]. }
  cbn [rbind]. rewrite Enode. cbn [rbind].
  destruct (projects_of _ _ _ _) as [[l|e] w2] eqn:Ep; [|done]. intros [= <- <-].
  destruct (projects_of_lists _ _ _ _ _ _ Ep) as [_ Hin]. cbn [w_fs set_fs tick] in Hin.
  destruct (Hin name node) as (p & Hp & Epath); [|done..|].
  { rewrite (dir_order_perm (entries_of (w_fs w) dir)). by apply elem_of_entries. }
  exists p. split; [by apply order_by_elem|done].
Qed.

(** The sessions that the command deletes. *)
Definition doomed (home : str) (projects : list ProjectDir) (d : Db) (sid : uuid) : bool :=
  existsb (fun sr => (fst sr =? sid)%N && is_missing home projects (snd sr)) (session_roots d).

Lemma has_key_missing home projects c ss root :
  (forall root, root ∈ map s_workspace_root ss <-> root ∈ map snd (session_roots (db (store c)))) ->
  root ∈ map snd (session_roots (db (store c))) ->
  has_key (map normalize_workspace_root (missing_project_session_roots home projects (map s_workspace_root ss))) root
    = is_missing home projects root.
Proof.
  intros Hss Hr. unfold has_key, one_of. rewrite <- (deleted_key home projects (map s_workspace_root ss) root) by by apply Hss.
  induction (missing_project_session_roots home projects (map s_workspace_root ss)) as [|r l IH]; cbn; [done|].
  by rewrite IH.
Qed.

Lemma among_doomed home projects c ss d sid :
  (forall root, root ∈ map s_workspace_root ss <-> root ∈ map snd (session_roots (db (store c)))) ->
  session_roots d = session_roots (db (store c)) ->
  among (ids_with (map normalize_workspace_root
    (missing_project_session_roots home projects (map s_workspace_root ss))) d) sid
  = doomed home projects (db (store c)) sid.
Proof.
  intros Hss Hd. apply eq_true_iff_eq. rewrite among_ids, Hd. unfold doomed. rewrite existsb_exists. split.
  - intros (root & Hin & Hk). exists (sid, root). split; [by apply list_elem_of_In|].
    rewrite (has_key_missing home projects c ss root Hss) in Hk; [cbn; by rewrite N.eqb_refl|].
    apply list_elem_of_In, in_map_iff. exists (sid, root). split; [done|by apply list_elem_of_In].
  - intros ([i root] & Hin & [Ei Hm]%andb_true_iff). cbn in Ei, Hm. apply N.eqb_eq in Ei as ->. exists root.
    apply list_elem_of_In in Hin. split; [done|].
    rewrite (has_key_missing home projects c ss root Hss); [done|].
    apply list_elem_of_In, in_map_iff. exists (sid, root). split; [done|by apply list_elem_of_In].
Qed.

Lemma missing_valid home projects roots root :
  root ∈ missing_project_session_roots home projects roots -> normalize_workspace_root root <> [].
Proof. intros H. by apply deleted_roots in H as [_ ?]. Qed.

End Listing.

Section Blocked.
Context {En : Env} {Dk : Disk} {Text_ : IoText} {Errors : ErrorTexts} {Parse : JsonParse} {Case : UnicodeCase}.
Context {Proc : Process}.

(** Once a session of a folder that is gone has a tool output attachment, the projects are
    no longer listed: the command fails, and the session stays, so it fails again. *)
Theorem attachment_blocks_list ks dir home w projects w' sid :
  foreign_keys = true ->
  let c := run_core_calls ks (new_core dir) in
  list_projects home w = (Ok projects, w') ->
  has_attachment sid (db (store c)) = true -> doomed home projects (db (store c)) sid = true ->
  exists c', list_projects_command None home w c
      = (Err (core_error_text (StoreErr (Database ConstraintForeignKey))), (w', c'))
    /\ has_attachment sid (db (store c')) = true /\ doomed home projects (db (store c')) sid = true.
Proof.
  intros Hfk c El Ha Hd. unfold list_projects_command. rewrite El.
  unfold cbind. destruct (list_sessions_roots c) as (ss & -> & (Hs & Hm & Hat) & Hss).
  pose proof (run_core_snoc ks (CoreListSessions None) (new_core dir)) as Es. fold c in Es.
  rewrite <- Es in Hs, Hm, Hat |- *. set (ks' := ks ++ [CoreListSessions None]) in *.
  destruct (delete_roots_fails dir (missing_project_session_roots home projects (map s_workspace_root ss)) ks' sid Hfk)
    as (c' & -> & Ha' & Hkeep).
  - intros root. apply missing_valid.
  - by rewrite (among_doomed home projects c ss _ sid Hss Hs).
  - unfold has_attachment. by rewrite Hat.
  - exists c'. split_and!; [done..|]. unfold doomed in *. rewrite Hs in Hkeep.
    apply existsb_exists in Hd as ([i root] & Hin & E). apply existsb_exists. exists (i, root). split; [|done].
    apply list_elem_of_In. apply andb_true_iff in E as [Ei _]. cbn in Ei. apply N.eqb_eq in Ei as ->.
    apply Hkeep. by apply list_elem_of_In.
Qed.
End Blocked.

(** ** Saving the settings *)

Section SettingsFacts.
Context {En : Env} {Dk : Disk} {Text_ : IoText} {Config_ : ConfigFile} {Loop : Loopback}.

Lemma non_blank_idem o v : non_blank o = Some v -> non_blank (Some v) = Some v.
Proof.
  intros H. apply non_blank_spec in H as [Ht Hv]. unfold non_blank. cbn [fmap option_fmap option_map]. rewrite Ht. by destruct v.
Qed.

Lemma non_blank_letter c s : is_whitespace c = false -> exists v, non_blank (Some (c :: s)) = Some v.
Proof.
  intros Hc. apply (trim_nonempty c s) in Hc. unfold non_blank. cbn [fmap option_fmap option_map].
  destruct (trim (c :: s)); [done|]. by eexists.
Qed.

(** What a successful save leaves, whatever the relay does. *)
Lemma set_user_config_relay millis fresh oe config d r d' :
  set_user_config millis fresh oe config d = (r, d') ->
  let previous := sc_local_relay_enabled (fst (load_user_config (millis 0) (dk_world d))) in
  (exists e, r = Err e /\ dk_relay d' = dk_relay d /\ dk_env d' = dk_env d)
  \/ exists next, sc_local_relay_enabled next = sc_local_relay_enabled config
       /\ (sc_local_relay_enabled config = true -> exists key,
             st_local_relay_api_key (sc_settings next) = Some key /\ non_blank (Some key) = Some key)
       /\ dk_env d' = apply_user_config_to_env (uc_api_key (st_config (sc_settings next)))
                        (st_base_url (sc_settings next)) (dk_env d)
       /\ let flip := negb (Bool.eqb previous (sc_local_relay_enabled config)) in
          let '(started, relay) := restart_relay (mkRelayConfig (sc_settings next) (sc_local_relay_enabled config)
                                     (sc_record_model_requests next) (dk_env d')) (dk_relay d) in
          if flip then dk_relay d' = relay /\ r = match started with Ok _ => Ok next | Err e => Err e end
          else dk_relay d' = dk_relay d /\ r = Ok next.
Proof.
  unfold set_user_config. destruct (load_user_config _ _) as [previous w]. cbn [fst].
  set (config' := if _ && _ then _ else _).
  assert (sc_local_relay_enabled config' = sc_local_relay_enabled config) as Hon by by unfold config'; destruct (_ && _).
  assert (sc_local_relay_enabled config = true ->
    exists key, non_blank (st_local_relay_api_key (sc_settings config')) = Some key) as Hkey.
  { intros E. unfold config'. rewrite E. cbn [andb]. destruct (non_blank _) as [key|] eqn:Ek; [by exists key|].
    by apply non_blank_letter. }
  destruct (save_user_config _ _ w) as [[[]|e] w'].
  2:{ intros [= <- <-]. left. by exists (io_text e). }
  change (sc_local_relay_enabled (normal_config (millis 1) config')) with (sc_local_relay_enabled config').
  intros H. right. exists (normal_config (millis 1) config'). split; [exact Hon|]. split.
  { intros E. apply Hkey in E as [key Ek]. exists key. split; [|by eapply non_blank_idem]. cbn [sc_settings normal_config with_settings].
    unfold normalize_user_config. repeat case_match; exact Ek. }
  rewrite Hon in H. revert H. cbv zeta.
  destruct (negb (Bool.eqb _ _)).
  - destruct (restart_relay _ _) as [[[]|e] relay]; intros [= <- <-]; by repeat split.
  - intros [= <- <-]. split; [done|]. cbn [dk_env dk_relay]. by destruct (restart_relay _ _).
Qed.

(** turning the local relay on in the settings and off again takes effect: after it is
    turned on the relay listens on the saved port for the saved key, which is not blank and
    is generated when there is none, or the save reports an error; after it is turned off it
    does not listen. *)
Theorem relay_follows_switch millis fresh oe config d r d' :
  set_user_config millis fresh oe config d = (r, d') ->
  sc_local_relay_enabled (fst (load_user_config (millis 0) (dk_world d))) <> sc_local_relay_enabled config ->
  match r with
  | Ok next =>
    if sc_local_relay_enabled config
    then exists key, dk_relay d' = Some (mkRelayHandle (st_local_relay_port (sc_settings next)) key)
           /\ st_local_relay_api_key (sc_settings next) = Some key /\ key <> []
    else dk_relay d' = None
  | Err _ => dk_relay d' = dk_relay d \/ dk_relay d' = None
  end.
Proof.
  intros H Hflip. apply set_user_config_relay in H as [(e & -> & H & _)|(next & _ & Hkey & _ & H)]; [by left|].
  cbv zeta in H. destruct (Bool.eqb_spec (sc_local_relay_enabled (fst (load_user_config (millis 0) (dk_world d))))
    (sc_local_relay_enabled config)) as [|_]; [done|]. cbn [negb] in H. unfold restart_relay, stop_relay in H. cbn [rc_local_relay_enabled rc_settings] in H.
  destruct (sc_local_relay_enabled config); cbn [negb] in H; [|by destruct H as [-> ->]].
  destruct (Hkey eq_refl) as (key & Ek & Enb). rewrite Ek, Enb in H.
  destruct (bind_loopback _); destruct H as [-> ->]; [by right|]. exists key. split; [done|]. split; [done|].
  by apply non_blank_spec in Enb as [_ ?].
Qed.

(** A save that leaves the relay on leaves it as it is: a new key or port is not in force,
    and a relay that could not be started is not started again. *)
Theorem relay_keeps_old_key millis fresh oe config d r d' :
  set_user_config millis fresh oe config d = (r, d') ->
  sc_local_relay_enabled (fst (load_user_config (millis 0) (dk_world d))) = sc_local_relay_enabled config ->
  dk_relay d' = dk_relay d.
Proof.
  intros H E. apply set_user_config_relay in H as [(e & -> & H & _)|(next & _ & _ & _ & H)]; [done|].
  cbv zeta in H. rewrite E, Bool.eqb_reflx in H. cbn [negb] in H. destruct (restart_relay _ _). by destruct H.
Qed.

(** When the provider that the settings make active has no key, the key of the one before
    stays in the environment while the address changes: the next request carries the old
    key to the new address. *)
Theorem key_follows_address millis fresh oe config d next d' key candidate sid :
  set_user_config millis fresh oe config d = (Ok next, d') ->
  uc_api_key (st_config (sc_settings next)) = None -> trim (st_base_url (sc_settings next)) <> [] ->
  present_key (dk_env d !! OPENAI_API_KEY) = Some key -> pc_api_key candidate = None ->
  open_with (dk_env d') candidate sid
    = Ok (mkOpenProvider key (api_root_url (api_root_url (trim (st_base_url (sc_settings next))))) ChatCompletions (uuid_text sid)).
Proof.
  intros H Hn Hb Hk Hc. apply set_user_config_relay in H as [(e & [=] & _)|(next' & _ & _ & He & H)].
  assert (next' = next) as ->.
  { cbv zeta in H. destruct (restart_relay _ _) as [[[]|] ?], (negb _); destruct H as [_ H]; congruence. }
  unfold open_with. rewrite Hc, He. unfold apply_user_config_to_env. rewrite Hn. cbn [non_blank fmap option_fmap option_map].
  destruct (is_empty (trim _)) eqn:E; [by destruct (trim _)|].
  set (env := dk_env d) in *. clearbody env. unfold ProcEnv in env.
  rewrite (lookup_insert_ne env), (lookup_insert_eq env) by (by vm_compute).
  change (env !! OPENAI_API_KEY) with (env !! OPENAI_API_KEY) in Hk. by rewrite Hk.
Qed.
End SettingsFacts.

(** ** Examples *)

Section Example.
#[local] Instance desk_env : Env := counter_env true.
#[local] Instance desk_order : DiskOk.
Proof. by intros l. Qed.
#[local] Instance ascii_letters : UnicodeCase := to_ascii_lowercase.
#[local] Instance at_root : Process := {| cwd := []; millis := 0%N |}.
#[local] Instance silent : IoText := fun _ => [].
#[local] Instance no_parse : JsonParse := fun _ => None.
#[local] Instance core_texts : ErrorTexts := {|
  core_error_text := fun _ => $"core"; http_error_text := fun _ => $"http" |}.

Definition session_in (root : str) : CoreCall :=
  CoreCreateSession (mkCreateSession root AutoEdit $"openai" $"gpt" None).
Definition three_sessions : list CoreCall :=
  [session_in $"/u/ws/app"; session_in $"/U/ws/gone/"; session_in $"/elsewhere"].
Definition at_home : CoreService := run_core_calls three_sessions (new_core None).


(** A second slash at the end of the workspace home: the project is listed as
    [/u/ws//app], and the session of the folder, which exists, is deleted. *)
Theorem doubled_separator_deletes :
  let '(r, (w, c)) := list_projects_command None $"/u/ws//" desk at_home in
  r = Ok [mkProjectDir $"/u/ws//app" $"app" $"app"]
  /\ is_directory_at (w_fs w) [$"u"; $"ws"; $"app"] = true
  /\ map snd (session_roots (db (store c))) = [$"/elsewhere"].
Proof. vm_compute. by split_and!. Qed.

(** The project of the session is gone, and the session has a long tool output. *)
Example projects_not_listed :
  fst (list_projects_command None $"/u/ws" desk
         (run_core_calls [session_in $"/u/ws/gone"; CoreRecordToolMessage 1 long_output] (new_core demo_dir)))
  = Err $"core".
Proof. by vm_compute. Qed.

(** Settings: the file says whether the relay is on. *)
Definition settings_with (relay_key : option str) (providers : list CloudProviderConfig) (active : str) : Settings :=
  mkSettings $"openai" $"m" $"en" 1 16 3 60 60 60 30 1 60 60 10 80 [] None None ProxyOff None None 8123
    relay_key [] (mkUserConfig None providers (Some active) false []).
Definition provider_at (id url : str) (key : option str) : CloudProviderConfig :=
  mkProvider id id url ChatCompletions Relay key [] None.
Definition provider_a : CloudProviderConfig := provider_at $"a" $"https://a.example" (Some $"key-of-a").
Definition provider_b : CloudProviderConfig := provider_at $"b" $"https://b.example" None.
#[local] Instance switch_file : ConfigFile := {|
  config_of_json raw := if raw =s $"on" then Some (mkSavedConfig (settings_with (Some $"old") [provider_a] $"a") true false)
                        else None;
  json_of_config c := if sc_local_relay_enabled c then $"on" else $"off";
  config_path := [$"c"; $"config.json"];
|}.
#[local] Instance free_ports : Loopback := fun _ => None.

(** A machine whose saved settings are [content]. *)
Definition machine (content : str) (env : ProcEnv) (relay : option RelayHandle) : Desk :=
  mkDesk (mkWorld (list_to_map [([$"c"], Directory); ([$"c"; $"config.json"], File (Files.Utf8 content))]) 0 [])
    env relay (new_core None).
Definition save := set_user_config (fun _ _ => 0%N) $"1f" None.

Lemma relay_follows_switch_witness :
  exists next d', save (mkSavedConfig (settings_with None [provider_a] $"a") true false) (machine $"off" ∅ None)
      = (Ok next, d')
    /\ dk_relay d' = Some (mkRelayHandle 8123 $"xcoding-local-1f").
Proof.
  set (config := mkSavedConfig (settings_with None [provider_a] $"a") true false).
  destruct (save config (machine $"off" ∅ None)) as [r d'] eqn:E.
  pose proof (relay_follows_switch _ _ _ config _ r d' E) as H.
  assert (exists next, r = Ok next /\ st_local_relay_port (sc_settings next) = 8123%Z
    /\ st_local_relay_api_key (sc_settings next) = Some $"xcoding-local-1f") as (next & -> & Hp & Hk).
  { assert (fst (save config (machine $"off" ∅ None)) = r) as <- by (by rewrite E).
    eexists. split; [vm_compute; reflexivity|]. by split. }
  exists next, d'. split; [reflexivity|].
  destruct H as (key & Hr & Hkey & _).
  - vm_compute. intros [=].
  - rewrite Hr, Hp. rewrite Hk in Hkey. by injection Hkey as <-.
Defined.

(** A new local key, saved while the relay is on: the relay still asks for the old one. *)
Example new_key_not_in_force :
  let '(r, d) := save (mkSavedConfig (settings_with (Some $"new") [provider_a] $"a") true false)
                   (machine $"on" ∅ (Some (mkRelayHandle 8123 $"old"))) in
  (match r with Ok next => st_local_relay_api_key (sc_settings next) | Err _ => None end) = Some $"new"
  /\ dk_relay d = Some (mkRelayHandle 8123 $"old").
Proof. vm_compute. by split. Qed.

(** From a provider with a key to one without: the one credential of the new provider is
    the environment, which holds the key of the other and the new address. *)
Example key_of_a_goes_to_b :
  let '(_, d) := save (mkSavedConfig (settings_with None [provider_a; provider_b] $"a") false false)
                   (machine $"off" ∅ None) in
  let '(r, d) := save (mkSavedConfig (settings_with None [provider_a; provider_b] $"b") false false) d in
  match r with
  | Ok next =>
    let config := st_config (sc_settings next) in
    map (fun k => open_with (dk_env d) (candidate_of provider_b None k) 7)
      (provider_credential_list config provider_b (uc_active_provider_id config))
  | Err _ => []
  end = [Ok (mkOpenProvider $"key-of-a" $"https://b.example/v1" ChatCompletions (uuid_text 7))].
Proof. vm_compute. reflexivity. Qed.
End Example.
