(* ===== verification/Browser.v ===== *)
(** * The browser panel (apps/desktop/src-tauri/src/browser.rs, passwords.rs)

    The registry of the webviews of the tasks, with its budget of live pages, and the
    passwords that are saved for web sites.  What [Url::parse], the encryption of the
    system (DPAPI) and [serde_json] answer are parameters; the webviews themselves are not
    modelled. *)

From S2P Require Import Prelude.
From S2P Require Import Text.
From S2P Require Import Sql.
From S2P Require Import Routing.
From S2P Require Import Files.
From S2P Require Import FilesFacts.
From S2P Require Import ToolArgs.
From S2P Require Import ToolText.
From S2P Require Import Tools.
From S2P Require Import PatchFacts.
From S2P Require Import ProviderWire.
From S2P Require Import ProviderConfig.
From S2P Require Import ProviderConfigFacts.
From S2P Require Import Projects.

(** ** The registry of webviews *)

Definition DEFAULT_BROWSER_SESSION : str := $"__draft__".
Definition MAX_LIVE_BROWSERS : nat := 6.
Definition BROWSER_LABEL_PREFIX : str := $"side-browser-".

(** Session to label; live sessions, the one shown longest ago first; the session in view. *)
Record RegistryInner := mkRegistry {
  rg_labels : gmap (list N) (list N);
  rg_order : list str;
  rg_active : option str;
  rg_next_index : N;
}.
Definition new_registry : RegistryInner := mkRegistry ∅ [] None 0.

Definition browser_label (index : N) : str := BROWSER_LABEL_PREFIX ++ show_N index.
Definition is_browser_label (label : str) : bool := starts_with BROWSER_LABEL_PREFIX label.
Definition session_key (raw : option str) : str := or_else (non_blank raw) DEFAULT_BROWSER_SESSION.

Definition without (session : str) (order : list str) : list str :=
  List.filter (fun item => negb (item =s session)) order.
Definition touch_order (order : list str) (session : str) : list str := without session order ++ [session].

Definition is_session (session : str) (other : option str) : bool := bool_decide (other = Some session).
Fixpoint evict (order : list str) (active : option str) (incoming : str) (needed : nat) : list str :=
  match order with
  | [] => []
  | session :: rest =>
    match needed with
    | 0 => []
    | S n =>
      if (session =s incoming) || is_session session active then evict rest active incoming needed
      else session :: evict rest active incoming n
    end
  end.
Definition eviction_targets (order : list str) (active : option str) (incoming : str) (limit : nat) : list str :=
  evict order active incoming (length order + 1 - max limit 1).

Definition reportable_url (raw : str) : option str :=
  let trimmed := trim raw in
  if is_empty trimmed || eq_ignore_ascii_case trimmed $"about:blank" then None else Some trimmed.

Definition label (session : str) (r : RegistryInner) : option str := rg_labels r !! session.
Definition is_active (session : str) (r : RegistryInner) : bool := is_session session (rg_active r).
Definition active_label (r : RegistryInner) : option str :=
  match rg_active r with Some active => rg_labels r !! active | None => None end.

Definition set_active (session : str) (r : RegistryInner) : RegistryInner :=
  mkRegistry (rg_labels r)
    (match rg_labels r !! session with
     | Some _ => touch_order (rg_order r) session
     | None => rg_order r
     end) (Some session) (rg_next_index r).

(** [closing] has the labels that are to be closed. *)
Fixpoint evict_all (stale : list str) (labels : gmap (list N) (list N)) (order closing : list str)
    : gmap (list N) (list N) * list str * list str :=
  match stale with
  | [] => (labels, order, closing)
  | key :: rest =>
    evict_all rest (delete key labels) (without key order)
      (match labels !! key with Some label => closing ++ [label] | None => closing end)
  end.
Definition INDEX_BOUND : N := 18446744073709551616.
Definition reserve (session : str) (r : RegistryInner) : (str * list str) * RegistryInner :=
  let stale := eviction_targets (rg_order r) (rg_active r) session MAX_LIVE_BROWSERS in
  let '(labels, order, closing) := evict_all stale (rg_labels r) (rg_order r) [] in
  let next_index := ((rg_next_index r + 1) mod INDEX_BOUND)%N in
  let label := browser_label next_index in
  ((label, closing),
   mkRegistry (<[session := label]> labels) (touch_order order session) (rg_active r) next_index).

Definition remove (session : str) (r : RegistryInner) : option str * RegistryInner :=
  (rg_labels r !! session,
   mkRegistry (delete session (rg_labels r)) (without session (rg_order r))
     (if is_session session (rg_active r) then None else rg_active r) (rg_next_index r)).

Definition adopt (from to : str) (r : RegistryInner) : option str * RegistryInner :=
  match rg_labels r !! from with
  | None => (None, r)
  | Some label =>
    let labels := delete from (rg_labels r) in
    let order := without from (rg_order r) in
    let active := if is_session from (rg_active r) then Some to else rg_active r in
    match labels !! to with
    | Some _ => (Some label, mkRegistry labels order active (rg_next_index r))
    | None =>
      (None, mkRegistry (<[to := label]> labels) (touch_order order to) active (rg_next_index r))
    end
  end.

(** [emit_navigated] of a page that was opened for [owner] writes the shared snapshot. *)
Definition writes_snapshot (owner : str) (r : RegistryInner) : bool := is_active owner r.

(** The calls of the commands, with the labels that they close. *)
Inductive RegistryCall :=
| CallSetActive (session : str)
| CallReserve (session : str)
| CallRemove (session : str)
| CallAdopt (from to : str).
Definition run_registry_call (k : RegistryCall) (r : RegistryInner) : list str * RegistryInner :=
  match k with
  | CallSetActive session => ([], set_active session r)
  | CallReserve session => let '((_, closing), r) := reserve session r in (closing, r)
  | CallRemove session => let '(label, r) := remove session r in (match label with Some l => [l] | None => [] end, r)
  | CallAdopt from to =>
    if from =s to then ([], r)
    else let '(label, r) := adopt from to r in (match label with Some l => [l] | None => [] end, r)
  end.
Definition run_registry_calls (ks : list RegistryCall) (r : RegistryInner) : RegistryInner :=
  foldl (fun r k => snd (run_registry_call k r)) r ks.

(** ** Saved passwords *)

Record PasswordEntry := mkPasswordEntry {
  pw_id : str; pw_origin : str; pw_username : str; pw_updated_at : N }.
Record StoredEntry := mkStoredEntry {
  se_id : str; se_origin : str; se_username : str; se_secret : str; se_updated_at : N }.
Definition view (e : StoredEntry) : PasswordEntry :=
  mkPasswordEntry (se_id e) (se_origin e) (se_username e) (se_updated_at e).

Definition hex_encode (bytes : list N) : str :=
  concat (map (fun byte => [hex_digit (Z.of_N (byte / 16)); hex_digit (Z.of_N (byte mod 16))]) bytes).
(** [char::to_digit(16)] of a byte. *)
Definition hex_value (b : N) : option N :=
  if in_range 48 57 b then Some (b - 48)%N
  else if in_range 97 102 b then Some (b - 87)%N
  else if in_range 65 70 b then Some (b - 55)%N
  else None.
Fixpoint hex_pairs (raw : list N) : option (list N) :=
  match raw with
  | high :: low :: rest =>
    match hex_value high, hex_value low with
    | Some high, Some low => option_map (cons (N.lor (N.shiftl high 4) low)) (hex_pairs rest)
    | _, _ => None
    end
  | _ => Some []
  end.
Definition hex_decode (text : str) : option (list N) :=
  let raw := as_bytes text in
  if negb (Nat.even (length raw)) then None else hex_pairs raw.

(** [Url::parse]: the scheme and the serialization of the origin. *)
Class WebUrl := web_url : list N -> option (list N * list N).
(** [CryptProtectData] and [CryptUnprotectData], with the texts of their errors. *)
Class Dpapi := {
  protect : list N -> result (list N) (list N);
  unprotect : list N -> result (list N) (list N);
}.
Class StoreFile := {
  entries_of_json : list N -> option (list StoredEntry);
  json_of_entries : list StoredEntry -> list N;
}.

Definition origin_of `{WebUrl} (raw : str) : option str :=
  let trimmed := trim raw in
  if is_empty trimmed then None
  else
    match web_url trimmed with
    | None => None
    | Some (scheme, origin) =>
      if negb ((scheme =s $"http") || (scheme =s $"https")) then None
      else if eq_ignore_ascii_case origin $"null" then None
      else Some origin
    end.

(** [Path::with_extension("json.tmp")] *)
Definition file_stem (name : str) : str :=
  match split_once 46%N (rev name) with
  | Some (_, stem) => if is_empty stem then name else rev stem
  | None => name
  end.
Definition json_tmp (name : str) : str := file_stem name ++ $".json.tmp".
Definition with_json_tmp (path : apath) : apath :=
  match file_name_of path with Some name => removelast path ++ [json_tmp name] | None => path end.

Section Passwords.
Context {Dk : Disk} {Text_ : IoText} {Urls : WebUrl} {Crypt : Dpapi} {File_ : StoreFile}.

Definition read_store (path : apath) : P (list StoredEntry) := fun w =>
  match read_to_string path w with
  | (Ok raw, w) => (Ok (or_else (entries_of_json raw) []), w)
  | (Err _, w) => (Ok [], w)
  end.

Definition fs_write (path : apath) (raw : str) : IO unit :=
  io_bind (file_create path) (fun file => write_all file raw).
Definition write_store (path : apath) (entries : list StoredEntry) : IO unit :=
  io_bind (match parent_of path with Some up => create_dir_all up | None => io_ret tt end) (fun _ =>
  let tmp := with_json_tmp path in
  io_bind (fs_write tmp (json_of_entries entries)) (fun _ w =>
    match rename tmp path w with
    | (Ok _, w) => (Ok tt, w)
    | (Err _, w) =>
      match copy_file tmp path w with
      | (Err e, w) => (Err e, w)
      | (Ok _, w) => (Ok tt, snd (remove_file tmp w))
      end
    end)).

(** The order of [list]. *)
Definition entry_le (a b : PasswordEntry) : bool :=
  str_ltb (pw_origin a) (pw_origin b)
  || (pw_origin a =s pw_origin b) && negb (str_ltb (pw_username b) (pw_username a)).
Definition list_passwords (path : apath) : P (list PasswordEntry) := fun w =>
  match read_store path w with
  | (Ok entries, w) => (Ok (order_by entry_le (map view entries)), w)
  | (Err e, w) => (Err e, w)
  end.

Definition same_account (origin username : str) (e : StoredEntry) : bool :=
  (se_origin e =s origin) && (se_username e =s username).
(** The first entry of the account with the new secret, or a new entry at the end. *)
Fixpoint upsert (origin username secret fresh : str) (now : N) (entries : list StoredEntry)
    : PasswordEntry * list StoredEntry :=
  match entries with
  | [] =>
    let entry := mkStoredEntry fresh origin username secret now in (view entry, [entry])
  | e :: rest =>
    if same_account origin username e then
      let entry := mkStoredEntry (se_id e) (se_origin e) (se_username e) secret now in
      (view entry, entry :: rest)
    else let '(v, rest) := upsert origin username secret fresh now rest in (v, e :: rest)
  end.

(** [now] is the clock and [fresh] the text of a new identifier. *)
Definition save (path : apath) (origin username password fresh : str) (now : N) : P PasswordEntry := fun w =>
  match origin_of origin with
  | None => (Err $"enter a http(s) site address", w)
  | Some origin =>
    if is_empty password then (Err $"enter a password", w)
    else
      match protect password with
      | Err e => (Err e, w)
      | Ok sealed =>
        match read_store path w with
        | (Err e, w) => (Err e, w)
        | (Ok entries, w) =>
          let '(entry, entries) := upsert origin (trim username) (hex_encode sealed) fresh now entries in
          match of_io (write_store path entries) w with
          | (Err e, w) => (Err e, w)
          | (Ok _, w) => (Ok entry, w)
          end
        end
      end
  end.

Definition delete_password (path : apath) (id : str) : P bool := fun w =>
  match read_store path w with
  | (Err e, w) => (Err e, w)
  | (Ok entries, w) =>
    let kept := List.filter (fun e => negb (se_id e =s id)) entries in
    if length kept =? length entries then (Ok false, w)
    else
      match of_io (write_store path kept) w with
      | (Err e, w) => (Err e, w)
      | (Ok _, w) => (Ok true, w)
      end
  end.

Definition opened (secret : str) : result str str :=
  match hex_decode secret with
  | None => Err $"saved password is damaged"
  | Some blob => unprotect blob
  end.
Definition reveal (path : apath) (id : str) : P str := fun w =>
  match read_store path w with
  | (Err e, w) => (Err e, w)
  | (Ok entries, w) =>
    match List.find (fun e => se_id e =s id) entries with
    | None => (Err $"saved password is missing", w)
    | Some entry => (opened (se_secret entry), w)
    end
  end.

Definition credential_for (path : apath) (url : str) : P (option (str * str)) := fun w =>
  match origin_of url with
  | None => (Ok None, w)
  | Some origin =>
    match read_store path w with
    | (Err e, w) => (Err e, w)
    | (Ok entries, w) =>
      match List.filter (fun e => se_origin e =s origin) entries with
      | [] => (Ok None, w)
      | [entry] =>
        match opened (se_secret entry) with
        | Ok password => (Ok (Some (se_username entry, password)), w)
        | Err e => (Err e, w)
        end
      | _ => (Err $"several accounts are saved for this site", w)
      end
    end
  end.
End Passwords.

(** ** What holds of the registry *)

(** [count] bounds the labels that were given out. *)
Record registry_ok (count : N) (r : RegistryInner) : Prop := {
  ro_nodup : NoDup (rg_order r);
  ro_live s : s ∈ rg_order r <-> is_Some (rg_labels r !! s);
  ro_budget : length (rg_order r) <= MAX_LIVE_BROWSERS;
  ro_label s l : rg_labels r !! s = Some l -> exists i, l = browser_label i /\ (0 < i <= rg_next_index r)%N;
  ro_apart a b l : rg_labels r !! a = Some l -> rg_labels r !! b = Some l -> a = b;
  ro_index : (rg_next_index r <= count)%N;
}.

Lemma browser_label_inj i j : browser_label i = browser_label j -> i = j.
Proof. unfold browser_label. by intros H%app_inv_head%show_N_inj. Qed.

Lemma elem_without s t order : s ∈ without t order <-> s ∈ order /\ s <> t.
Proof.
  unfold without. rewrite list_elem_of_In, filter_In, <- list_elem_of_In. split.
  - intros [? E]. split; [done|]. intros ->. by rewrite str_eqb_refl in E.
  - intros [? Hne]. split; [done|]. apply negb_true_iff. by apply str_eqb_false.
Qed.
Lemma nodup_without t order : NoDup order -> NoDup (without t order).
Proof. intros H. unfold without. by apply NoDup_ListNoDup, List.NoDup_filter, NoDup_ListNoDup. Qed.
Lemma length_without t order : length (without t order) <= length order.
Proof. unfold without. apply filter_length_le. Qed.
Lemma length_without_elem t order : NoDup order -> t ∈ order -> S (length (without t order)) = length order.
Proof.
  unfold without. induction order as [|s order IH]; intros Hn Ht; [by apply not_elem_of_nil in Ht|].
  apply NoDup_cons in Hn as [Hs Hn]. cbn. destruct (s =s t) eqn:E; cbn.
  - apply str_eqb_true in E as ->. f_equal. assert (without t order = order) as He; [|by unfold without in He; rewrite He].
    unfold without. clear - Hs. induction order as [|x order IH]; [done|]. cbn.
    apply not_elem_of_cons in Hs as [Hx Hs]. rewrite (proj2 (str_eqb_false x t)) by done. cbn. by rewrite IH.
  - f_equal. apply IH; [done|]. apply elem_of_cons in Ht as [->|Ht]; [by rewrite str_eqb_refl in E|done].
Qed.

Lemma elem_touch s t order : s ∈ touch_order order t <-> s = t \/ s ∈ order.
Proof.
  unfold touch_order. rewrite elem_of_app, elem_without, list_elem_of_singleton.
  destruct (decide (s = t)); naive_solver.
Qed.
Lemma nodup_touch t order : NoDup order -> NoDup (touch_order order t).
Proof.
  intros H. unfold touch_order. apply NoDup_app. split_and!; [by apply nodup_without| |by apply NoDup_singleton].
  intros x Hx ->%list_elem_of_singleton. by apply elem_without in Hx as [_ ?].
Qed.
Lemma length_touch_elem t order : NoDup order -> t ∈ order -> length (touch_order order t) = length order.
Proof. intros Hn Ht. unfold touch_order. rewrite length_app. cbn. pose proof (length_without_elem t order Hn Ht). lia. Qed.
Lemma length_touch t order : length (touch_order order t) <= S (length order).
Proof. unfold touch_order. rewrite length_app. cbn. pose proof (length_without t order). lia. Qed.

(** The sessions that may lose their page, the one shown longest ago first. *)
Definition eligible (order : list str) (active : option str) (incoming : str) : list str :=
  List.filter (fun s => negb ((s =s incoming) || is_session s active)) order.

Lemma evict_eligible order active incoming needed :
  evict order active incoming needed = take needed (eligible order active incoming).
Proof.
  revert needed. induction order as [|s order IH]; intros needed; [by destruct needed|].
  cbn [evict eligible List.filter]. fold (eligible order active incoming). destruct needed as [|n].
  - by destruct (negb _).
  - destruct (_ || _); cbn [negb]; [apply IH|]. cbn [take]. by rewrite IH.
Qed.

Lemma elem_eligible s order active incoming :
  s ∈ eligible order active incoming <-> s ∈ order /\ s <> incoming /\ active <> Some s.
Proof.
  unfold eligible, is_session. rewrite list_elem_of_In, filter_In, <- list_elem_of_In.
  rewrite negb_true_iff, orb_false_iff, str_eqb_false, bool_decide_eq_false. naive_solver.
Qed.

Lemma length_without_ge t order : NoDup order -> length order <= S (length (without t order)).
Proof.
  intros Hn. destruct (decide (t ∈ order)) as [Ht|Ht]; [by rewrite (length_without_elem t order)|].
  assert (without t order = order) as ->; [|lia]. unfold without. clear - Ht. induction order as [|x order IH]; [done|].
  apply not_elem_of_cons in Ht as [Hx Hs]. cbn. rewrite (proj2 (str_eqb_false x t)) by done. cbn. by rewrite IH.
Qed.

Lemma length_eligible order active incoming :
  NoDup order -> length order <= 2 + length (eligible order active incoming).
Proof.
  intros Hn. pose proof (length_without_ge incoming order Hn) as H1.
  assert (eligible order active incoming =
    match active with Some a => without a (without incoming order) | None => without incoming order end) as ->.
  { unfold eligible, without, is_session. destruct active as [a|].
    - clear. induction order as [|s order IH]; [done|]. cbn [List.filter]. destruct (s =s incoming) eqn:E; cbn [orb negb]; [exact IH|].
      cbn [List.filter]. assert (bool_decide (Some a = Some s) = (s =s a)) as ->
        by (unfold str_eqb; apply bool_decide_ext; naive_solver). destruct (s =s a); cbn [negb]; [exact IH|by rewrite IH].
    - apply filter_ext. intros s. rewrite bool_decide_eq_false_2 by done. by rewrite orb_false_r. }
  destruct active as [a|]; [|lia]. pose proof (length_without_ge a _ (nodup_without incoming _ Hn)). lia.
Qed.

Lemma evict_all_spec stale : forall labels order closing,
  NoDup order -> NoDup stale -> (forall s, s ∈ stale -> s ∈ order) ->
  let '(labels', order', closing') := evict_all stale labels order closing in
  (forall s, labels' !! s = if decide (s ∈ stale) then None else labels !! s) /\
  (forall s, s ∈ order' <-> s ∈ order /\ s ∉ stale) /\ NoDup order' /\
  length order' + length stale = length order /\
  closing' = closing ++ omap (fun s => labels !! s) stale.
Proof.
  induction stale as [|key stale IH]; intros labels order closing Ho Hs Hin; cbn [evict_all].
  { split_and!; [intros s; by rewrite decide_False by apply not_elem_of_nil| |done|cbn; lia|by rewrite app_nil_r].
    intros s. split; [intros ?; split; [done|apply not_elem_of_nil]|by intros [? _]]. }
  apply NoDup_cons in Hs as [Hk Hs].
  specialize (IH (delete key labels) (without key order)
    (match labels !! key with Some label => closing ++ [label] | None => closing end) (nodup_without key _ Ho) Hs).
  destruct (evict_all _ _ _ _) as [[labels' order'] closing'].
  destruct IH as (Hl & Hord & Hn & Hlen & Hc).
  { intros s Hs'. apply elem_without. split; [apply Hin; by right|]. intros ->. done. }
  split_and!; [| |done| |].
  - intros s. rewrite Hl. destruct (decide (s = key)) as [->|Hne].
    + rewrite decide_False by done. by rewrite lookup_delete_eq, decide_True by left.
    + rewrite lookup_delete_ne by done. destruct (decide (s ∈ stale)) as [Hst|Hst].
      * by rewrite decide_True by by right.
      * rewrite decide_False; [done|]. by intros [->|?]%elem_of_cons.
  - intros s. rewrite Hord, elem_without, not_elem_of_cons. naive_solver.
  - pose proof (length_without_elem key order Ho (Hin key ltac:(left))). cbn. lia.
  - rewrite Hc. cbn [omap list_omap]. assert (omap (fun s => delete key labels !! s) stale = omap (fun s => labels !! s) stale) as ->.
    { apply list_omap_ext, Forall_Forall2_diag, Forall_forall. intros s Hst. rewrite lookup_delete_ne; [done|]. by intros ->. }
    destruct (labels !! key); [by rewrite <- app_assoc|done].
Qed.

Lemma registry_weaken m n r : (m <= n)%N -> registry_ok m r -> registry_ok n r.
Proof. intros Hmn []. split; try done. lia. Qed.

(** The labels that a reservation closes. *)
Definition stale_for (session : str) (r : RegistryInner) : list str :=
  take (length (rg_order r) + 1 - 6) (eligible (rg_order r) (rg_active r) session).

Lemma reserve_effect count session r :
  registry_ok count r -> (count + 1 < INDEX_BOUND)%N ->
  let '((label, closing), r') := reserve session r in
  label = browser_label (rg_next_index r + 1) /\
  closing = omap (fun s => rg_labels r !! s) (stale_for session r) /\
  (forall s, rg_labels r' !! s
     = if decide (s = session) then Some label
       else if decide (s ∈ stale_for session r) then None else rg_labels r !! s) /\
  registry_ok (count + 1) r'.
Proof.
  intros [Hn Hlive Hb Hlab Hap Hix] Hc. unfold reserve, eviction_targets. rewrite evict_eligible.
  change (length (rg_order r) + 1 - Nat.max MAX_LIVE_BROWSERS 1) with (length (rg_order r) + 1 - 6).
  fold (stale_for session r).
  assert (NoDup (stale_for session r)) as Hns.
  { assert (NoDup (eligible (rg_order r) (rg_active r) session)) as Hel
      by (apply NoDup_ListNoDup, List.NoDup_filter, NoDup_ListNoDup, Hn).
    rewrite <- (take_drop (length (rg_order r) + 1 - 6)) in Hel. by apply NoDup_app in Hel as [? _]. }
  assert (forall s, s ∈ stale_for session r -> s ∈ rg_order r /\ s <> session) as Hst.
  { intros s Hs. assert (s ∈ eligible (rg_order r) (rg_active r) session) as Hel.
    { rewrite <- (take_drop (length (rg_order r) + 1 - 6)). apply elem_of_app. by left. }
    apply elem_eligible in Hel. naive_solver. }
  pose proof (evict_all_spec (stale_for session r) (rg_labels r) (rg_order r) [] Hn Hns ltac:(intros; by apply Hst)) as He.
  destruct (evict_all _ _ _ _) as [[labels order] closing]. destruct He as (Hl & Ho & Hno & Hlen & Hcl).
  rewrite N.mod_small by lia. set (label := browser_label (rg_next_index r + 1)).
  assert (forall s, <[session := label]> labels !! s
     = if decide (s = session) then Some label
       else if decide (s ∈ stale_for session r) then None else rg_labels r !! s) as Hmap.
  { intros s. destruct (decide (s = session)) as [->|Hne]; [by rewrite lookup_insert_eq|].
    rewrite lookup_insert_ne by done. apply Hl. }
  split_and!; [done|done|exact Hmap|].
  assert (forall i, browser_label i = label -> i = (rg_next_index r + 1)%N) as Hinj by (intros i; apply browser_label_inj).
  split; cbn [rg_labels rg_order rg_active rg_next_index].
  - by apply nodup_touch.
  - intros s. rewrite elem_touch, Hmap, Ho. destruct (decide (s = session)) as [->|Hne]; [naive_solver|].
    destruct (decide (s ∈ stale_for session r)) as [Hs|Hs]; [|rewrite <- Hlive; naive_solver].
    split; [naive_solver|by intros [? ?]].
  - pose proof (length_touch session order) as Ht. unfold MAX_LIVE_BROWSERS in *.
    pose proof (length_eligible (rg_order r) (rg_active r) session Hn) as Hel.
    unfold stale_for in Hlen. rewrite length_take in Hlen. lia.
  - intros s l. rewrite Hmap. destruct (decide (s = session)); [intros [= <-]; exists (rg_next_index r + 1)%N; split; [done|lia]|].
    destruct (decide _); [done|]. intros Hs. destruct (Hlab s l Hs) as (i & -> & Hi). exists i. split; [done|lia].
  - intros a b l. rewrite !Hmap.
    destruct (decide (a = session)) as [->|Ha], (decide (b = session)) as [->|Hb']; try done.
    + intros [= <-]. destruct (decide _); [done|]. intros Hb2. destruct (Hlab b _ Hb2) as (i & Hi & Hlt). apply eq_sym, Hinj in Hi. lia.
    + destruct (decide _); [done|]. intros Ha2 [= <-]. destruct (Hlab a _ Ha2) as (i & Hi & Hlt). apply eq_sym, Hinj in Hi. lia.
    + destruct (decide (a ∈ _)), (decide (b ∈ _)); try done. apply Hap.
  - lia.
Qed.

Lemma set_active_ok count session r : registry_ok count r -> registry_ok count (set_active session r).
Proof.
  intros [Hn Hlive Hb Hlab Hap Hix]. unfold set_active.
  destruct (rg_labels r !! session) as [l|] eqn:E; [|by split].
  assert (session ∈ rg_order r) as Hin by (apply Hlive; by rewrite E).
  split; cbn [rg_labels rg_order rg_active rg_next_index]; try done.
  - by apply nodup_touch.
  - intros s. rewrite elem_touch, <- Hlive. naive_solver.
  - by rewrite length_touch_elem.
Qed.

Lemma remove_ok count session r : registry_ok count r -> registry_ok count (snd (remove session r)).
Proof.
  intros [Hn Hlive Hb Hlab Hap Hix]. unfold remove. split; cbn [snd rg_labels rg_order rg_active rg_next_index].
  - by apply nodup_without.
  - intros s. rewrite elem_without, Hlive. destruct (decide (s = session)) as [->|Hne].
    + rewrite lookup_delete_eq. split; [naive_solver|by intros [? ?]].
    + rewrite lookup_delete_ne by done. naive_solver.
  - pose proof (length_without session (rg_order r)). lia.
  - intros s l [_ Hs]%lookup_delete_Some. by eapply Hlab.
  - intros a b l [_ Ha]%lookup_delete_Some [_ Hb']%lookup_delete_Some. by eapply Hap.
  - done.
Qed.

Lemma adopt_ok count from to r : from <> to -> registry_ok count r -> registry_ok count (snd (adopt from to r)).
Proof.
  intros Hne Hok. pose proof (remove_ok count from r Hok) as [Hn Hlive Hb Hlab Hap Hix].
  unfold remove in *. cbn [snd rg_labels rg_order rg_active rg_next_index] in *. unfold adopt.
  destruct (rg_labels r !! from) as [l|] eqn:E; [|done].
  rewrite lookup_delete_ne by done. destruct (rg_labels r !! to) as [l'|] eqn:Et; [by split|].
  assert (from ∈ rg_order r) as Hin by (apply (ro_live _ _ Hok); by rewrite E).
  assert (forall s l', delete from (rg_labels r) !! s = Some l' -> l' <> l) as Hother.
  { intros s l' [Hs Hl']%lookup_delete_Some ->. apply Hs. by eapply (ro_apart _ _ Hok). }
  split; cbn [snd rg_labels rg_order rg_active rg_next_index].
  - by apply nodup_touch.
  - intros s. rewrite elem_touch, Hlive. destruct (decide (s = to)) as [->|Hs].
    + rewrite lookup_insert_eq. naive_solver.
    + rewrite lookup_insert_ne by done. naive_solver.
  - pose proof (length_touch to (without from (rg_order r))).
    pose proof (length_without_elem from (rg_order r) (ro_nodup _ _ Hok) Hin). pose proof (ro_budget _ _ Hok). lia.
  - intros s l'. destruct (decide (s = to)) as [->|Hs].
    + rewrite lookup_insert_eq. intros [= <-]. by apply (ro_label _ _ Hok from).
    + rewrite lookup_insert_ne by done. apply Hlab.
  - intros a b l'. destruct (decide (a = to)) as [->|Ha], (decide (b = to)) as [->|Hb']; try done.
    + rewrite lookup_insert_eq, lookup_insert_ne by done. intros [= <-] H'. by apply Hother in H'.
    + rewrite lookup_insert_ne, lookup_insert_eq by done. intros H' [= <-]. by apply Hother in H'.
    + rewrite !lookup_insert_ne by done. apply Hap.
  - done.
Qed.

Lemma registry_call_ok count k r :
  registry_ok count r -> (count + 1 < INDEX_BOUND)%N -> registry_ok (count + 1) (snd (run_registry_call k r)).
Proof.
  intros Hok Hc. destruct k as [s|s|s|from to]; cbn [run_registry_call].
  - apply (registry_weaken count); [lia|by apply set_active_ok].
  - pose proof (reserve_effect count s r Hok Hc) as H. destruct (reserve s r) as [[l closing] r']. by destruct H as (_ & _ & _ & ?).
  - pose proof (remove_ok count s r Hok) as H. destruct (remove s r) as [l r']. apply (registry_weaken count); [lia|done].
  - destruct (from =s to) eqn:E; [apply (registry_weaken count); [lia|done]|]. apply str_eqb_false in E.
    pose proof (adopt_ok count from to r E Hok) as H. destruct (adopt from to r) as [l r']. apply (registry_weaken count); [lia|done].
Qed.

Lemma new_registry_ok : registry_ok 0 new_registry.
Proof.
  split; cbn; try done.
  - constructor.
  - intros s. rewrite lookup_empty. split; [intros H; by apply not_elem_of_nil in H|by intros [? ?]].
  - unfold MAX_LIVE_BROWSERS. lia.
Qed.

Lemma registry_reachable ks :
  (N.of_nat (length ks) < INDEX_BOUND)%N -> registry_ok (N.of_nat (length ks)) (run_registry_calls ks new_registry).
Proof.
  induction ks as [|k ks IH] using rev_ind; intros Hlen; [apply new_registry_ok|].
  unfold run_registry_calls. rewrite foldl_app. cbn [foldl]. fold (run_registry_calls ks new_registry).
  rewrite length_app in *. cbn in *. replace (N.of_nat (length ks + 1)) with (N.of_nat (length ks) + 1)%N in * by lia.
  apply registry_call_ok; [apply IH; lia|done].
Qed.

(** The pages before a removal or an adoption are those after it and the closed ones. *)
Lemma remove_pages session r l :
  (exists s, rg_labels r !! s = Some l) <->
  l ∈ match rg_labels r !! session with Some label => [label] | None => [] end
  \/ exists s, rg_labels (snd (remove session r)) !! s = Some l.
Proof.
  unfold remove. cbn [snd rg_labels]. destruct (rg_labels r !! session) as [ls|] eqn:Es.
  - rewrite list_elem_of_singleton. split.
    + intros [t Ht]. destruct (decide (t = session)) as [->|Hts]; [left; congruence|]. right.
      exists t. by rewrite lookup_delete_ne.
    + intros [->|[t [_ Ht]%lookup_delete_Some]]; [by exists session|by exists t].
  - rewrite elem_of_nil, delete_id by done. naive_solver.
Qed.

Lemma adopt_pages from to r l :
  from <> to ->
  (exists s, rg_labels r !! s = Some l) <->
  l ∈ match fst (adopt from to r) with Some label => [label] | None => [] end
  \/ exists s, rg_labels (snd (adopt from to r)) !! s = Some l.
Proof.
  intros Hft. unfold adopt. destruct (rg_labels r !! from) as [lf|] eqn:Ef; [|cbn; rewrite elem_of_nil; naive_solver].
  rewrite lookup_delete_ne by done. destruct (rg_labels r !! to) as [lt|] eqn:Et; cbn [fst snd rg_labels];
    [rewrite list_elem_of_singleton|rewrite elem_of_nil]; split.
  - intros [t Ht]. destruct (decide (t = from)) as [->|Hts]; [left; congruence|]. right.
    exists t. by rewrite lookup_delete_ne.
  - intros [->|[t [_ Ht]%lookup_delete_Some]]; [by exists from|by exists t].
  - intros [t Ht]. right. destruct (decide (t = from)) as [->|Hts].
    + exists to. rewrite lookup_insert_eq. congruence.
    + exists t. rewrite lookup_insert_ne by congruence. by rewrite lookup_delete_ne.
  - intros [[]|[t Ht]]. destruct (decide (t = to)) as [->|Hts].
    + rewrite lookup_insert_eq in Ht. exists from. congruence.
    + rewrite lookup_insert_ne in Ht by done. apply lookup_delete_Some in Ht as [_ Ht]. by exists t.
Qed.

(** What the commands do with a session that has no page: it is shown, and its page is made. *)
Definition ensures (k : RegistryCall) (r : RegistryInner) : Prop :=
  match k with CallReserve session => rg_labels r !! session = None | _ => True end.

(** C38: Whatever the commands of the browser panel do, at most six pages are live, each
    under a label of its own, and the order of use lists their sessions once each.
    Unless a label is reserved for a session that has a page, every page that was live
    stays live or has its label closed, and only pages that were live are closed; a
    reservation closes none but the pages shown longest ago, and not that of the session
    in view. *)
Theorem pages_within_budget ks k :
  (N.of_nat (length ks) + 1 < INDEX_BOUND)%N ->
  let r := run_registry_calls ks new_registry in
  let '(closed, r') := run_registry_call k r in
  registry_ok (N.of_nat (length ks)) r /\
  (ensures k r -> forall label, (exists s, rg_labels r !! s = Some label) <->
     label ∈ closed \/ (label <> browser_label (rg_next_index r + 1) /\ exists s, rg_labels r' !! s = Some label)) /\
  (forall session, k = CallReserve session ->
     closed = omap (fun s => rg_labels r !! s)
       (take (length (rg_order r) + 1 - 6) (eligible (rg_order r) (rg_active r) session))).
Proof.
  cbv zeta. intros Hlen. assert (registry_ok (N.of_nat (length ks)) (run_registry_calls ks new_registry)) as Hok
    by (apply registry_reachable; lia).
  set (r := run_registry_calls ks new_registry) in *. set (count := N.of_nat (length ks)) in *.
  assert (forall s l, rg_labels r !! s = Some l -> l <> browser_label (rg_next_index r + 1)) as Hfresh.
  { intros s l Hs. destruct (ro_label _ _ Hok s l Hs) as (i & -> & Hi). intros E%browser_label_inj. lia. }
  destruct k as [s|s|s|from to]; cbn [run_registry_call ensures].
  - split; [done|]. split; [|done]. intros _ l. cbn [set_active rg_labels]. rewrite elem_of_nil. naive_solver.
  - pose proof (reserve_effect count s r Hok Hlen) as He. destruct (reserve s r) as [[lab closing] r'].
    destruct He as (Hlab & Hcl & Hmap & _). split; [done|]. split; [|by intros ? [= <-]]. intros Hs l. subst closing.
    rewrite list_elem_of_omap. split.
    + intros [t Ht]. destruct (decide (t ∈ stale_for s r)) as [Hst|Hst]; [left; by exists t|]. right. split; [by eapply Hfresh|].
      exists t. rewrite Hmap, decide_False by congruence. by rewrite decide_False.
    + intros [(t & _ & Ht)|[Hne [t Ht]]]; [by exists t|]. rewrite Hmap in Ht.
      destruct (decide (t = s)); [injection Ht as <-; congruence|]. destruct (decide _); [done|]. by exists t.
  - destruct (remove s r) as [o r'] eqn:E. split; [done|]. split; [|done]. intros _ l. pose proof (remove_pages s r l) as Hp.
    rewrite E in Hp. injection E as <- _. rewrite Hp. cbn [snd]. split; [|naive_solver].
    intros [?|[t Ht]]; [by left|]. right. split; [|by exists t].
    assert (exists s', rg_labels r !! s' = Some l) as [s' Hs'] by (apply Hp; right; by exists t). by eapply Hfresh.
  - destruct (from =s to) eqn:Eft.
    { split; [done|]. split; [|done]. intros _ l. rewrite elem_of_nil. naive_solver. }
    apply str_eqb_false in Eft. destruct (adopt from to r) as [o r'] eqn:E. split; [done|]. split; [|done].
    intros _ l. pose proof (adopt_pages from to r l Eft) as Hp. rewrite E in Hp. cbn [fst snd] in Hp. rewrite Hp.
    split; [|naive_solver]. intros [?|[t Ht]]; [by left|]. right. split; [|by exists t].
    assert (exists s', rg_labels r !! s' = Some l) as [s' Hs'] by (apply Hp; right; by exists t). by eapply Hfresh.
Qed.

(** Two commands that make the page of one session at the same time: the first label is
    neither live nor closed. *)
Theorem second_reserve_loses_page :
  let r := run_registry_calls [CallSetActive $"s"; CallReserve $"s"] new_registry in
  let '(closed, r') := run_registry_call (CallReserve $"s") r in
  rg_labels r !! $"s" = Some $"side-browser-1" /\ closed = [] /\ rg_labels r' !! $"s" = Some $"side-browser-2".
Proof. by vm_compute. Qed.

(** The page of a draft that became a session is in view, but what it navigates to is
    recorded for the draft, which is not: the snapshot stays as it was. *)
Theorem adopted_page_unreported from to r label :
  from <> to -> rg_active r = Some from -> rg_labels r !! from = Some label -> rg_labels r !! to = None ->
  let r' := snd (adopt from to r) in
  active_label r' = Some label /\ writes_snapshot from r' = false.
Proof.
  intros Hne Ha Hf Ht. unfold adopt. rewrite Hf, lookup_delete_ne, Ht by done. cbn [snd].
  unfold is_session, active_label, writes_snapshot, is_active. rewrite Ha, bool_decide_true by done. cbn [rg_active rg_labels].
  rewrite lookup_insert_eq. split; [done|]. unfold is_session. apply bool_decide_eq_false. congruence.
Qed.

(** ** What holds of saved passwords *)

Definition is_byte (b : N) : bool := (b <? 256)%N.

Lemma hex_value_digit d : (d < 16)%N -> hex_value (hex_digit (Z.of_N d)) = Some d.
Proof.
  intros Hd. assert (forall n, n < 16 -> hex_value (hex_digit (Z.of_N (N.of_nat n))) = Some (N.of_nat n)) as H.
  { intros n Hn. do 16 (destruct n as [|n]; [reflexivity|]). lia. }
  rewrite <- (N2Nat.id d). apply H. lia.
Qed.

Lemma hex_digit_ascii d : (d < 16)%N -> (hex_digit (Z.of_N d) < 128)%N.
Proof. intros Hd. unfold hex_digit. case_match; lia. Qed.

Lemma as_bytes_plain s : Forall (fun c => (c < 128)%N) s -> as_bytes s = s.
Proof.
  unfold as_bytes. induction 1 as [|c s Hc Hs IH]; [done|]. cbn. rewrite IH. unfold utf8_char.
  by rewrite (proj2 (N.ltb_lt c 128)).
Qed.

Lemma nibbles b : is_byte b = true -> N.lor (N.shiftl (b / 16) 4) (b mod 16) = b.
Proof.
  intros Hb%N.ltb_lt.
  assert (forallb (fun n => N.lor (N.shiftl (N.of_nat n / 16) 4) (N.of_nat n mod 16) =? N.of_nat n)%N (seq 0 256) = true) as H
    by (vm_compute; reflexivity).
  rewrite forallb_forall in H. specialize (H (N.to_nat b)). rewrite N2Nat.id in H. apply N.eqb_eq, H, in_seq. lia.
Qed.

Lemma hex_roundtrip bytes :
  Forall (fun b => is_byte b = true) bytes -> hex_decode (hex_encode bytes) = Some bytes.
Proof.
  intros Hb. assert (forall b, is_byte b = true -> (b / 16 < 16)%N /\ (b mod 16 < 16)%N) as Hd.
  { unfold is_byte. intros b Hlt%N.ltb_lt. split; [apply N.Div0.div_lt_upper_bound; lia|by apply N.mod_lt]. }
  unfold hex_decode. rewrite as_bytes_plain.
  2:{ unfold hex_encode. induction Hb as [|b bytes Hb' Hbs IH]; [constructor|]. cbn.
      destruct (Hd b Hb'). repeat constructor; [by apply hex_digit_ascii..|exact IH]. }
  assert (Nat.even (length (hex_encode bytes)) = true) as ->.
  { unfold hex_encode. clear. by induction bytes. }
  cbn [negb]. induction Hb as [|b bytes Hb' Hbs IH]; [done|]. cbn.
  destruct (Hd b Hb') as [H1 H2]. rewrite !hex_value_digit by done. fold (hex_encode bytes). rewrite IH. cbn. by rewrite nibbles.
Qed.

Lemma json_tmp_other n : json_tmp n <> n.
Proof.
  unfold json_tmp, file_stem. destruct (split_once 46%N (rev n)) as [[ext stem]|] eqn:E.
  - assert (forall c s a b, split_once c s = Some (a, b) -> s = a ++ c :: b /\ c ∉ a) as Hsplit.
    { intros c s. induction s as [|x s IH]; intros a b; cbn; [done|]. destruct (x =? c)%N eqn:Ex.
      - intros [= <- <-]. apply N.eqb_eq in Ex as ->. split; [done|apply not_elem_of_nil].
      - destruct (split_once c s) as [[a' b']|]; [|done]. intros [= <- <-]. destruct (IH a' b' eq_refl) as [-> Hc].
        split; [done|]. apply not_elem_of_cons. split; [|done]. intros ->. by rewrite N.eqb_refl in Ex. }
    apply Hsplit in E as [E Hext]. destruct (is_empty stem); [intros H; apply (f_equal length) in H; rewrite length_app in H; change (length $".json.tmp") with 9 in H; lia|].
    intros H. apply (f_equal (@rev _)) in H. rewrite E, rev_app_distr, rev_involutive in H. apply Hext.
    assert (46%N ∈ take (length ext) (ext ++ 46%N :: stem)) as Hin; [|by rewrite take_app_length in Hin].
    rewrite <- H. assert (length ext = 8) as ->; [|vm_compute; do 3 right; left].
    apply (f_equal length) in H. rewrite !length_app in H. change (length (rev $".json.tmp")) with 9 in H. cbn in H. lia.
  - intros H. apply (f_equal length) in H. rewrite length_app in H. change (length $".json.tmp") with 9 in H. lia.
Qed.

Lemma canonical_agree fs fs' p :
  (forall q, q `prefix_of` p -> fs' !! q = fs !! q) -> canonical fs p -> canonical fs' p.
Proof.
  intros Ha. induction 1 as [|p n x Hp IH Hd Hx Hs]; [constructor|].
  assert (forall q, q `prefix_of` p -> fs' !! q = fs !! q) as Ha' by (intros q Hq; apply Ha; by apply prefix_app_r).
  apply (canonical_name fs' p n x); [by apply IH| | |done].
  - unfold is_directory_at, node_at in *. destruct p; [done|]. by rewrite Ha'.
  - by rewrite Ha.
Qed.

Lemma home_agree d fs fs' :
  (forall q, q `prefix_of` d -> fs' !! q = fs !! q) -> home_for d fs -> home_for d fs'.
Proof.
  intros Ha [Hc Hd]. split; [by eapply canonical_agree|]. unfold is_directory_at, node_at in *. destruct d; [done|]. by rewrite Ha.
Qed.

Lemma below_not_prefix {A} (d : list A) n q : q `prefix_of` d -> q <> d ++ [n].
Proof. intros [k Hk] ->. apply (f_equal length) in Hk. rewrite !length_app in Hk. cbn in Hk. lia. Qed.

Section PasswordFacts.
Context {Dk : Disk} {Text_ : IoText} {Urls : WebUrl} {Crypt : Dpapi} {File_ : StoreFile}.

(** The file that holds the passwords, in a real directory. *)
Record store_place (d : apath) (n : str) (fs : FileSystem) : Prop := {
  sp_home : home_for d fs;
  sp_file : not_link fs (d ++ [n]);
  sp_tmp : not_link fs (d ++ [json_tmp n]);
}.

Lemma with_json_tmp_snoc d n : with_json_tmp (d ++ [n]) = d ++ [json_tmp n].
Proof. unfold with_json_tmp, file_name_of. by rewrite last_snoc, removelast_snoc. Qed.

(** Only the two files change. *)
Definition only_store (d : apath) (n : str) (fs fs' : FileSystem) : Prop :=
  forall p, p <> d ++ [n] -> p <> d ++ [json_tmp n] -> fs' !! p = fs !! p.
Lemma only_store_home d n fs fs' : only_store d n fs fs' -> home_for d fs -> home_for d fs'.
Proof. intros Ho. apply home_agree. intros q Hq. apply Ho; by apply below_not_prefix. Qed.

Lemma fs_write_at d m raw w w' :
  home_for d (w_fs w) -> not_link (w_fs w) (d ++ [m]) ->
  fs_write (d ++ [m]) raw w = (Ok tt, w') -> w_fs w' = <[d ++ [m] := File (Utf8 raw)]> (w_fs w).
Proof.
  intros [Hc Hd] Hl. unfold fs_write, io_bind.
  pose proof (file_create_at d m d w (canonical_resolves _ _ Hc) Hl) as Hf.
  destruct (file_create _ w) as [[place|e] w1]; [|done]. destruct Hf as (_ & -> & Hf & _).
  intros Hw. pose proof (write_all_at (d ++ [m]) raw w1) as Ha. rewrite Hw in Ha.
  destruct Ha as (_ & c & -> & Hok). by rewrite (Hok eq_refl), Hf, insert_insert_eq.
Qed.

Lemma swapped_file_at d a b content w w' :
  home_for d (w_fs w) -> not_link (w_fs w) (d ++ [b]) -> w_fs w !! (d ++ [a]) = Some (File content) ->
  copy_file (d ++ [a]) (d ++ [b]) w = (Ok tt, w') -> w_fs w' = <[d ++ [b] := File content]> (w_fs w).
Proof.
  intros [Hc Hd] Hl Ha. unfold copy_file, io_bind, Files.query, attempt. destruct (fault _); [done|].
  rewrite (canonical_resolves _ (d ++ [a])) by (by eapply canonical_name). cbn [rbind].
  rewrite node_at_snoc, Ha. cbn [rbind].
  pose proof (file_create_at d b d (set_fs (w_fs w) (tick w)) (canonical_resolves _ _ Hc) Hl) as Hf.
  destruct (file_create _ _) as [[place|e] w1]; [|done]. destruct Hf as (_ & -> & Hf & _).
  destruct (fault _); [done|]. intros [= <-]. cbn [w_fs set_fs tick] in *. by rewrite Hf, insert_insert_eq.
Qed.

Lemma write_store_writes d n entries w w' :
  store_place d n (w_fs w) -> write_store (d ++ [n]) entries w = (Ok tt, w') ->
  w_fs w' !! (d ++ [n]) = Some (File (Utf8 (json_of_entries entries))) /\ only_store d n (w_fs w) (w_fs w').
Proof.
  intros [[Hc Hd] Hn Ht]. unfold write_store. rewrite parent_of_snoc, with_json_tmp_snoc. cbv zeta.
  destruct (create_dir_all_existing d d w (canonical_resolves _ _ Hc) Hd) as (w1 & E1 & F1 & _).
  unfold io_bind at 1. rewrite E1. unfold io_bind at 1.
  destruct (fs_write _ _ w1) as [[[]|e] w2] eqn:E2; [|done].
  apply fs_write_at in E2; [|by split; rewrite F1|by rewrite F1]. rewrite F1 in E2.
  assert (d ++ [n] <> d ++ [json_tmp n]) as Hne by (intros E%app_inv_head; injection E; intros; by apply (json_tmp_other n)).
  assert (home_for d (w_fs w2)) as [Hc2 Hd2].
  { apply (only_store_home d n (w_fs w)); [|by split]. intros p _ Hp. by rewrite E2, lookup_insert_ne. }
  pose proof (rename_at d (json_tmp n) n d w2 (File (Utf8 (json_of_entries entries))) (canonical_resolves _ _ Hc2) Hd2) as Hr.
  rewrite E2 in Hr at 1. specialize (Hr (lookup_insert_eq _ _ _) ltac:(done)).
  destruct (rename _ _ w2) as [[[]|e] w3]; destruct Hr as [_ F3]; cbn [is_ok] in F3.
  - intros [= <-]. rewrite F3. split; [apply lookup_insert_eq|]. intros p Hp Hp'.
    by rewrite lookup_insert_ne, lookup_delete_ne, E2, lookup_insert_ne.
  - destruct (copy_file _ _ w3) as [[[]|e'] w4] eqn:E4; [|done]. intros [= <-].
    assert (w_fs w4 = <[d ++ [n] := File (Utf8 (json_of_entries entries))]> (w_fs w2)) as F4.
    { rewrite <- F3. apply (swapped_file_at d (json_tmp n) n _ w3); [rewrite F3; by split|rewrite F3|rewrite F3|exact E4].
      - intros t. rewrite E2, lookup_insert_ne by done. apply Hn.
      - by rewrite E2, lookup_insert_eq. }
    pose proof (remove_file_at d (json_tmp n) d w4) as Hrm.
    assert (home_for d (w_fs w4)) as [Hc4 Hd4].
    { apply (only_store_home d n (w_fs w2)); [|by split]. intros p Hp _. by rewrite F4, lookup_insert_ne. }
    specialize (Hrm (canonical_resolves _ _ Hc4) Hd4). destruct (remove_file _ w4) as [r w5].
    destruct Hrm as (_ & Hf & _). cbn [snd]. split.
    + destruct Hf as [-> | ->]; rewrite ?lookup_delete_ne by done; by rewrite F4, lookup_insert_eq.
    + intros p Hp Hp'. destruct Hf as [-> | ->]; rewrite ?lookup_delete_ne by done;
        by rewrite F4, lookup_insert_ne, E2, lookup_insert_ne.
Qed.

(** What the system and the file format do. *)
Class DpapiOk := {
  unprotect_protect p sealed : protect p = Ok sealed -> unprotect sealed = Ok p;
  protect_bytes p sealed : protect p = Ok sealed -> Forall (fun b => is_byte b = true) sealed;
}.
Class StoreFileOk := entries_read_back entries : entries_of_json (json_of_entries entries) = Some entries.

(** The entries that a reader of the file sees. *)
Definition stored (path : apath) (fs : FileSystem) : list StoredEntry :=
  match fs_read fs path with Ok raw => or_else (entries_of_json raw) [] | Err _ => [] end.

Lemma read_store_spec path w :
  read_store path w = (Ok (match fault (w_ops w) with Some _ => [] | None => stored path (w_fs w) end), tick w).
Proof.
  unfold read_store, read_to_string, Files.query, attempt, stored. destruct (fault _); [done|].
  by destruct (fs_read _ _), w.
Qed.

Lemma stored_written `{!StoreFileOk} d n entries fs :
  home_for d fs -> fs !! (d ++ [n]) = Some (File (Utf8 (json_of_entries entries))) -> stored (d ++ [n]) fs = entries.
Proof.
  intros [Hc Hd] Hf. unfold stored, fs_read.
  rewrite (canonical_resolves _ (d ++ [n])) by (by eapply canonical_name). cbn [rbind].
  rewrite node_at_snoc, Hf. by rewrite entries_read_back.
Qed.

Definition account (e : StoredEntry) : str * str := (se_origin e, se_username e).

Lemma upsert_spec origin username secret fresh now entries v entries' :
  upsert origin username secret fresh now entries = (v, entries') ->
  pw_origin v = origin /\ pw_username v = username /\
  (exists l1 l2 e, entries' = l1 ++ e :: l2 /\ view e = v /\ se_secret e = secret /\ account e = (origin, username) /\
    ((entries = l1 /\ l2 = [] /\ se_id e = fresh /\ (origin, username) ∉ map account l1)
     \/ exists old, entries = l1 ++ old :: l2 /\ se_id old = se_id e /\ account old = (origin, username))).
Proof.
  revert v entries'. induction entries as [|e entries IH]; intros v entries'; cbn [upsert].
  - intros [= <- <-]. split_and!; [done..|]. eexists [], [], _. split_and!; try done. left. split_and!; try done.
    apply not_elem_of_nil.
  - destruct (same_account origin username e) eqn:Es.
    + unfold same_account in Es. apply andb_true_iff in Es as [Eo%str_eqb_true Eu%str_eqb_true].
      assert (account e = (origin, username)) as Ha by (unfold account; by rewrite Eo, Eu).
      intros [= <- <-]. split_and!; [done..|].
      exists [], entries, (mkStoredEntry (se_id e) (se_origin e) (se_username e) secret now).
      split_and!; [done..|exact Ha|]. right. by exists e.
    + destruct (upsert _ _ _ _ _ entries) as [v' rest]. destruct (IH v' rest eq_refl) as (Ho & Hu & l1 & l2 & x & -> & Hv & Hs & Ha & Hc).
      intros [= <- <-]. split_and!; [done..|]. exists (e :: l1), l2, x. split_and!; try done.
      destruct Hc as [(-> & -> & Hi & Hn)|(old & -> & Hi & Hc)]; [left|right; by exists old].
      split_and!; try done. cbn. apply not_elem_of_cons. split; [|done]. intros E. unfold same_account in Es.
      unfold account in E. injection E as E1 E2. by rewrite <- E1, <- E2, !str_eqb_refl in Es.
Qed.

Lemma find_id_at l1 (e : StoredEntry) l2 :
  NoDup (map se_id (l1 ++ e :: l2)) -> List.find (fun x => se_id x =s se_id e) (l1 ++ e :: l2) = Some e.
Proof.
  induction l1 as [|x l1 IH]; cbn; [by rewrite str_eqb_refl|]. intros [Hx Hn]%NoDup_cons.
  destruct (se_id x =s se_id e) eqn:E; [|by apply IH]. apply str_eqb_true in E. exfalso. apply Hx. rewrite E.
  rewrite map_app. apply elem_of_app. right. left.
Qed.

(** A successful save: what was read, and what the file holds afterwards. *)
Lemma save_writes `{!StoreFileOk} d n origin username password fresh now w entry w' :
  store_place d n (w_fs w) ->
  save (d ++ [n]) origin username password fresh now w = (Ok entry, w') ->
  exists site sealed, origin_of origin = Some site /\ protect password = Ok sealed /\
    upsert site (trim username) (hex_encode sealed) fresh now
      (match fault (w_ops w) with Some _ => [] | None => stored (d ++ [n]) (w_fs w) end)
    = (entry, stored (d ++ [n]) (w_fs w')) /\ only_store d n (w_fs w) (w_fs w').
Proof.
  intros Hp. unfold save. destruct (origin_of origin) as [site|]; [|done]. destruct (is_empty password); [done|].
  destruct (protect password) as [sealed|e]; [|done]. rewrite read_store_spec.
  destruct (upsert _ _ _ _ _ _) as [v entries] eqn:Eu. unfold of_io.
  destruct (write_store _ _ _) as [[[]|e] w1] eqn:Ew; [|done]. intros [= <- <-].
  apply write_store_writes in Ew as [Hf Ho]; [|exact Hp]. cbn [tick w_fs] in Ho.
  exists site, sealed. split_and!; try done.
  rewrite (stored_written d n entries (w_fs w1)); [exact Eu| |exact Hf]. eapply only_store_home; [exact Ho|apply Hp].
Qed.


(** A save that could not read the file, or found no entries in it, leaves the new entry
    alone: every other saved password is lost. *)
Theorem unread_passwords_lost `{!StoreFileOk} d n origin username password fresh now w entry w' :
  store_place d n (w_fs w) ->
  fault (w_ops w) <> None \/ stored (d ++ [n]) (w_fs w) = [] ->
  save (d ++ [n]) origin username password fresh now w = (Ok entry, w') ->
  map view (stored (d ++ [n]) (w_fs w')) = [entry].
Proof.
  intros Hp Hq Hs. apply save_writes in Hs as (site & sealed & _ & _ & Hu & _); [|done].
  assert (match fault (w_ops w) with Some _ => [] | None => stored (d ++ [n]) (w_fs w) end = []) as E
    by (destruct Hq; by destruct (fault (w_ops w))).
  rewrite E in Hu. cbn in Hu. by injection Hu as <- <-.
Qed.

(** a page is only filled with the one credential that is saved for its own origin. *)
Theorem fill_stays_on_origin path url w username password w' :
  credential_for path url w = (Ok (Some (username, password)), w') ->
  exists origin e, origin_of url = Some origin /\ se_origin e = origin /\
    List.filter (fun x => se_origin x =s origin) (stored path (w_fs w)) = [e] /\
    se_username e = username /\ opened (se_secret e) = Ok password.
Proof.
  unfold credential_for. destruct (origin_of url) as [origin|]; [|done]. rewrite read_store_spec.
  destruct (fault _); [done|]. destruct (List.filter _ _) as [|e [|]] eqn:E; [done| |done].
  destruct (opened (se_secret e)) as [p|] eqn:Eo; [|done]. intros [= <- <- <-]. exists origin, e. split_and!; try done.
  assert (In e (List.filter (fun x => se_origin x =s origin) (stored path (w_fs w)))) as Hin by (rewrite E; by left).
  by apply filter_In in Hin as [_ ?%str_eqb_true].
Qed.
End PasswordFacts.

(** ** Examples *)

Section Example.
#[local] Instance silent : IoText := fun _ => [].
#[local] Instance one_host : WebUrl := fun url => Some ($"https", take 15 url).
#[local] Instance backwards : Dpapi := {|
  protect p := if forallb is_byte p then Ok (rev p) else Err [];
  unprotect s := Ok (rev s);
|}.
#[local] Instance backwards_ok : DpapiOk.
Proof.
  split; intros p sealed; cbn; destruct (forallb is_byte p) eqn:E; try done; intros [= <-]; cbn.
  - by rewrite rev_involutive.
  - apply Forall_forall. intros x Hx. rewrite forallb_forall in E. apply E, in_rev, list_elem_of_In, Hx.
Qed.
Definition entry_fields (e : StoredEntry) : list N * list N * (list N * list N) * N :=
  (se_id e, se_origin e, (se_username e, se_secret e), se_updated_at e).
Definition of_fields (f : list N * list N * (list N * list N) * N) : StoredEntry :=
  mkStoredEntry f.1.1.1 f.1.1.2 f.1.2.1 f.1.2.2 f.2.
#[local] Instance counted : StoreFile := {|
  json_of_entries l := [Npos (encode (map entry_fields l))];
  entries_of_json s := match s with [Npos p] => map of_fields <$> decode p | _ => None end;
|}.
#[local] Instance counted_ok : StoreFileOk.
Proof.
  intros l. cbn. rewrite decode_encode. cbn. f_equal. rewrite map_map. rewrite (map_ext _ id); [apply map_id|]. by intros [].
Qed.

Definition vault : apath := [$"c"].
Definition vault_world : World := mkWorld (list_to_map [(vault, Directory)]) 0 [].
Lemma vault_place : store_place vault $"p.json" (w_fs vault_world).
Proof.
  split; [split| |]; [|by vm_compute|intros t; by vm_compute..].
  apply (canonical_name _ [] $"c" Directory); [constructor|done|by vm_compute|done].
Qed.


(** Six tasks with a page, and a seventh: the page shown longest ago is closed. *)
Definition six_pages : list RegistryCall :=
  concat (map (fun s => [CallSetActive s; CallReserve s]) [$"a"; $"b"; $"c"; $"d"; $"e"; $"f"]).
Lemma pages_within_budget_witness :
  fst (run_registry_call (CallReserve $"g") (run_registry_calls six_pages new_registry)) = [$"side-browser-1"]
  /\ length (rg_order (run_registry_calls six_pages new_registry)) <= MAX_LIVE_BROWSERS.
Proof.
  pose proof (pages_within_budget six_pages (CallReserve $"g") ltac:(vm_compute; reflexivity)) as H.
  cbv zeta in H. destruct (run_registry_call _ _) as [closed r'] eqn:E. destruct H as (Hok & _ & Hc). split.
  - cbn [fst]. rewrite (Hc $"g" eq_refl). vm_compute. reflexivity.
  - apply (ro_budget _ _ Hok).
Defined.
End Example.
